(* ===== verification/_CoqProject ===== *)
-Q . S2P
Prelude.v
GoStd.v
Domain.v
Disk.v
InodeStore.v
Session.v
IndexSpec.v
OpMetrics.v
FileServer.v
Persist.v
Tree.v
TreeWf.v
TreeRun.v
Frames.v
Invariant.v
Removal.v
Move.v
Share.v
Trash.v
FileOps.v
Grow.v
Demo.v
PersistSpec.v
ShareSpec.v
CreateSpec.v
RootSpec.v
WriteSpec.v
DeleteSpec.v
TrashSpec.v
RestoreSpec.v
NavSpec.v
Reach.v
Storage.v
Memory.v
Metaserver.v
MetaSpec.v
MetaShares.v
MetaNodes.v
MetaRegister.v
MetaRestart.v
MetaDemo.v
Scanner.v
Callback.v
Handler.v
HandlerSpec.v
Auth.v
Interceptor.v
MetaAuth.v
Discovery.v
Ring.v
History.v
Node.v
Alerts.v
Console.v
PollSpec.v
Orchestrator.v
OrchSpec.v
Locks.v
AdminAuth.v
OAuth.v
Api.v
ApiSpec.v
Client.v
Cache.v
CacheSpec.v
CacheSafe.v
CacheRead.v
CacheDemo.v
Mongo.v
MongoSpec.v
MongoDemo.v
Conformance.v
Shell.v
ShellSpec.v
ShellDemo.v
CpuTemp.v
HostMetrics.v
MsSync.v
Ssh.v
ClientMain.v
