(* ===== verification/Prelude.v ===== *)
(** * DVFS: a verification library for the distributed virtual file system

    DVFS is three Go servers and a client.  A _file server_ ([internal/fileserver]) keeps
    the tree of its users on a local disk and serves it over gRPC, with sessions, shares,
    quotas, a trash per user and callbacks that tell clients what changed.  The
    _metaserver_ ([internal/metaserver]) knows which file server is the home of which user
    and who shares what with whom, in memory and in a store ([internal/storage]).  The
    _admin console_ ([internal/admin]) reads the same store, polls the file servers, raises
    alerts, runs commands on the machines over SSH and answers an HTTP interface.  Tokens
    come from Google ([internal/auth]); machines are found through a published list
    ([internal/client/discovery.go]).

    ** How the code is modelled

    A method that changes a server is a computation of [M S A := S → S * res A], where
    [res] is a value, a Go error or a panic and an error keeps the state reached so far.
    [S] holds everything the method can see: the fields of the server, the disk, what was
    sent to other servers, the readings of the clock used up.  Pointers that Go shares are
    keys of a heap in [S] (inodes, node records, alerts), so aliasing is that of the code.
    A mutex makes a call one step where the code holds it throughout; where it lets go,
    the parts are definitions of their own.  Integers wrap where Go's do ([u64], [i64]);
    strings are bytes; latencies are IEEE doubles that round as the code's do (OpMetrics),
    other floats are rationals, without rounding, infinities and NaN.  What is not the
    program's (disk, encoders, network, clock, random numbers, SHA-256, gRPC, SSH) is an
    argument, with its documented laws as classes: [OS]/[DiskLaws], [Json]/[JsonLaws]
    (Disk.v), [MetaStore]/[MetaStoreLaws] (Storage.v).  Where Go ranges over a map, the
    order is an argument, of which at most is asked that it lists the map.

    ** Files

    - Prelude (this file): errors, results, the monad, its rules of preservation and of
      weakest preconditions ([wp]), the hint database [dvfs]; GoStd: the functions of
      [strings] and [path/filepath]; Disk: the operating system.
    - _File server_.  Domain ([domain/types.go]); InodeStore, IndexSpec ([inodestore.go]);
      Session ([session/]); OpMetrics ([opmetrics.go]); FileServer, Tree, Share, Trash,
      FileOps ([fileserver.go] and the calls of [msclient.go]); Persist ([aclstore.go],
      [quota.go]); Scanner ([filescanner.go]); Callback ([callback_server.go]); Handler
      ([handler.go]); MsSync (the rest of [msclient.go]); CpuTemp ([cputemp.go]),
      HostMetrics ([metrics.go], [metrics_linux.go], [metrics_http.go]).  TreeWf, TreeRun,
      Frames, Invariant, Removal, Move and Grow are the library of the invariant;
      PersistSpec, ShareSpec, CreateSpec, RootSpec, WriteSpec, DeleteSpec, TrashSpec,
      RestoreSpec, NavSpec and Reach the theorems; Demo the witnesses.
    - _Metaserver_.  Storage ([storage/meta.go]) is the interface and its laws, Memory
      ([storage/memory]) an implementation; Mongo, MongoSpec ([storage/mongo]) another,
      whose driver may fail anywhere, with MongoDemo; Conformance ([storage/storagetest])
      the project's suite of tests, run on both; Metaserver ([metaserver.go], [handler.go]);
      MetaSpec, MetaShares, MetaNodes, MetaRegister, MetaRestart the theorems, against the
      laws only; MetaDemo the witnesses.
    - _Authentication_.  Auth ([auth/google.go], verification and cache); OAuth (its login
      flow, [auth/pkce.go], [cmd/client/auth_google.go], the page of the console);
      Interceptor and HandlerSpec (file server), MetaAuth (metaserver): who may call what.
    - _Console_.  Discovery ([client/discovery.go]); Ring ([ringbuffer.go]); History
      ([history.go]); Node ([metrics.go]); Alerts ([alerts.go]); Console, PollSpec
      ([server.go], [poller.go], [snapshot.go]); Orchestrator, OrchSpec, Locks
      ([actions.go], [logs.go]); Ssh ([ssh_executor.go]); AdminAuth ([auth.go]); Api,
      ApiSpec ([handlers.go], [grpc_client.go], [ws_handler.go]).
    - _Client_ ([internal/client]).  Client ([client.go]); Cache ([cache_handler.go],
      [callback_server.go]); CacheSpec and CacheSafe the tree of the cache, CacheRead what
      its operations do; CacheDemo the witnesses.  Shell, ShellSpec, ShellDemo
      ([cobrahandler.go]) the prompt and its completion; ClientMain ([msclient.go],
      [cmd/client/main.go]) the calls on the metaserver and the program.

    ** What the theorems show

    - The tree of a file server is well formed in every state that admissible calls lead
      to ([Reach.admissible]: names, sizes, ranges and ids that make sense), no such call
      panics or loops there, and access changes only at the hands of owners (Reach); each
      operation is described on every branch: what it refuses, and exactly what it
      changes.
    - Calls are mediated (Interceptor, MetaAuth, HandlerSpec), with the exceptions found.
    - Memory and store of the metaserver agree in every world that [MetaRestart.served]
      steps reach, and a restart routes as before (MetaRestart); placement, registration,
      deregistration and navigation are described exactly.  A write of the Mongo store
      that succeeds does what the interface says, and one that fails leaves documents that
      are well formed (MongoSpec).  A file server that lost the metaserver registers again
      with the next tick that is answered, and keeps in touch (MsSync).
    - The index, sessions, histories, alerts, tables and snapshots of the servers refine
      their abstract pictures: queues, maps, sets; what is saved is what a restart finds.
    - At the console a visitor changes nothing, but for the environment and the form that
      /logincallback posts to Google, and is told of no user where it matters (ApiSpec),
      removed nodes stay away until they are heard of again (PollSpec), an action runs
      once on each known target (OrchSpec), and no node runs two, under any interleaving,
      which always ends (Locks).
    - The cache of a client is one tree whatever the server answers, as long as it gives
      the FIDs of what it names (CacheSafe); it shows what the server listed, and a
      callback makes the next read ask again and give the file the server then sends
      (CacheRead), with the exceptions found (CacheDemo).  A session at the prompt keeps
      the tree (ShellSpec), in every round of the program (ClientMain).
    - The page of a login posts a code only for the login that was started (OAuth); the
      report of a host is within its bounds (HostMetrics), its latencies are computed from
      the last durations and need not be ordered (OpMetrics).

    ** Bounds and fuel

    Recursions over the tree of a file server take the size of its tables as fuel; TreeWf
    shows it is enough in every well-formed tree, so running out (a panic of the model) is
    excluded by the theorems that exclude panics.  [redact] takes the length of the string,
    of which every step uses one byte at least.  Counters are 64-bit; where a theorem needs
    that one has not wrapped, it says so ([admissible] in Reach, [Memory]).  Walks over the
    cache of a client take the number of its nodes (CacheSafe: the depth is less); transfers
    of directories take the depth of the directory as an argument.

    ** Not modelled

    - The wire protocols of the libraries (Mongo, gRPC, SSH, TLS, web sockets), listeners
      and dialling, the markup of pages, static files, the live events of an action, the
      readers of other systems than Linux, the command line of the servers, packaging and
      the making of certificates: input and output around libraries.
    - Text that only a reader sees: log lines, and the inner error inside a gRPC status. *)
From stdpp Require Export prelude gmap strings list fin_maps pretty sorting.
From Stdlib Require Export ZArith Lia Ascii.

#[global] Open Scope Z_scope.

(** ** Errors and results

    A Go error is the format string of the call that built it together with the
    printed arguments; gRPC status errors carry their code, and an error built with
    [%w] carries the one it wraps. *)

Inductive code :=
  | InvalidArgument | NotFound | PermissionDenied | Unauthenticated | Internal.

(** Why an operating-system call failed, as far as the program looks at it. *)
Inductive errno := ENOENT | EEXIST | ENOTDIR | EISDIR | ENOTEMPTY | EINVAL | EIO.

Inductive error :=
  | Errorf (fmt : string) (args : list string)
  | StatusErrorf (c : code) (fmt : string) (args : list string)
  | PathError (op path : string) (n : errno)
  | Wrapf (fmt : string) (args : list string) (inner : error).

#[export] Instance code_eq_dec : EqDecision code.
Proof. solve_decision. Defined.
#[export] Instance errno_eq_dec : EqDecision errno.
Proof. solve_decision. Defined.
#[export] Instance error_eq_dec : EqDecision error.
Proof. solve_decision. Defined.

(** The outcome of a Go call: a value, an error value, or a run-time panic. *)
Inductive res (A : Type) :=
  | Ok (a : A)
  | Err (e : error)
  | Panic (why : string).
Arguments Ok {A} a.
Arguments Err {A} e.
Arguments Panic {A} why.

#[export] Instance res_eq_dec `{EqDecision A} : EqDecision (res A).
Proof. solve_decision. Defined.

Definition is_ok {A} (r : res A) : bool :=
  match r with Ok _ => true | _ => false end.

(** ** The state, error and panic monad of a server

    Go methods mutate the state first and report an error afterwards, so an
    error keeps the state reached so far. *)

Definition M (S A : Type) : Type := S → S * res A.

#[export] Instance M_ret {S} : MRet (M S) := λ A a s, (s, Ok a).
#[export] Instance M_bind {S} : MBind (M S) := λ A B k m s,
  match m s with
  | (s', Ok a) => k a s'
  | (s', Err e) => (s', Err e)
  | (s', Panic w) => (s', Panic w)
  end.
#[export] Instance M_fmap {S} : FMap (M S) := λ A B f m s,
  match m s with
  | (s', Ok a) => (s', Ok (f a))
  | (s', Err e) => (s', Err e)
  | (s', Panic w) => (s', Panic w)
  end.

Section monad.
Context {S : Type}.

Definition get : M S S := λ s, (s, Ok s).
Definition gets {A} (f : S → A) : M S A := λ s, (s, Ok (f s)).
Definition modify (f : S → S) : M S unit := λ s, (f s, Ok tt).
Definition throw {A} (e : error) : M S A := λ s, (s, Err e).
Definition panic {A} (why : string) : M S A := λ s, (s, Panic why).
Definition when (b : bool) (m : M S unit) : M S unit :=
  if b then m else mret tt.

(** [x, err := m] : the caller inspects the error itself. *)
Definition catch {A} (m : M S A) : M S (error + A) := λ s,
  match m s with
  | (s', Ok a) => (s', Ok (inr a))
  | (s', Err e) => (s', Ok (inl e))
  | (s', Panic w) => (s', Panic w)
  end.

(** [_ = m] : the error is dropped (or only logged). *)
Definition ignore {A} (m : M S A) : M S unit := λ s,
  match m s with
  | (s', Panic w) => (s', Panic w)
  | (s', _) => (s', Ok tt)
  end.

(** A value and [ok]/error pair already computed. *)
Definition lift {A} (r : res A) : M S A := λ s, (s, r).
Definition of_option {A} (e : error) (o : option A) : M S A :=
  match o with Some a => mret a | None => throw e end.

(** [for _, x := range l { f x }] *)
Fixpoint for_each {A} (l : list A) (f : A → M S unit) : M S unit :=
  match l with
  | [] => mret tt
  | x :: l' => f x ;; for_each l' f
  end.
End monad.

(** The state a call leaves behind and its outcome. *)
Definition run {S A} (m : M S A) (s : S) : S * res A := m s.

Create HintDb dvfs.
Create Rewrite HintDb dvfs.

(** Rewriting a call through the monad's operations. *)
Section monad_lemmas.
Context {S A B : Type}.

Lemma bind_ok (m : M S A) (k : A → M S B) s s' a :
  m s = (s', Ok a) → (m ≫= k) s = k a s'.
Proof. unfold mbind, M_bind. by intros ->. Qed.

Lemma bind_err (m : M S A) (k : A → M S B) s s' e :
  m s = (s', Err e) → (m ≫= k) s = (s', Err e).
Proof. unfold mbind, M_bind. by intros ->. Qed.

(** A successful sequence is a successful first call and a successful rest. *)
Lemma bind_inv_ok (m : M S A) (k : A → M S B) s s' b :
  (m ≫= k) s = (s', Ok b) → ∃ s1 a, m s = (s1, Ok a) ∧ k a s1 = (s', Ok b).
Proof. unfold mbind, M_bind. destruct (m s) as [s1 [a|e|w]]; naive_solver. Qed.

Lemma bind_inv (m : M S A) (k : A → M S B) s s' r :
  (m ≫= k) s = (s', r) →
  (∃ s1 a, m s = (s1, Ok a) ∧ k a s1 = (s', r))
  ∨ (∃ e, m s = (s', Err e) ∧ r = Err e)
  ∨ (∃ w, m s = (s', Panic w) ∧ r = Panic w).
Proof. unfold mbind, M_bind. destruct (m s) as [s1 [a|e|w]]; naive_solver. Qed.

(** An invariant that every call of a sequence keeps is kept by the sequence. *)
Definition preserves (P : S → Prop) (m : M S A) : Prop :=
  ∀ s, P s → P (m s).1.
End monad_lemmas.

Section preserves.
Context {S : Type} (P : S → Prop).

Lemma preserves_ret {A} (a : A) : preserves P (mret a : M S A).
Proof. by intros s ?. Qed.
Lemma preserves_get : preserves P get.
Proof. by intros s ?. Qed.
Lemma preserves_gets {A} (f : S → A) : preserves P (gets f).
Proof. by intros s ?. Qed.
Lemma preserves_throw {A} e : preserves P (throw e : M S A).
Proof. by intros s ?. Qed.
Lemma preserves_panic {A} w : preserves P (panic w : M S A).
Proof. by intros s ?. Qed.
Lemma preserves_lift {A} (r : res A) : preserves P (lift r).
Proof. by intros s ?. Qed.
Lemma preserves_of_option {A} e (o : option A) : preserves P (of_option e o : M S A).
Proof. by destruct o; intros s ?. Qed.
Lemma preserves_modify f : (∀ s, P s → P (f s)) → preserves P (modify f).
Proof. intros Hf s ?. by apply Hf. Qed.
Lemma preserves_bind {A B} (m : M S A) (k : A → M S B) :
  preserves P m → (∀ a, preserves P (k a)) → preserves P (m ≫= k).
Proof.
  intros Hm Hk s Hs. unfold mbind, M_bind. specialize (Hm s Hs).
  destruct (m s) as [s1 [a|e|w]]; simpl in *; [by apply Hk|done|done].
Qed.
Lemma preserves_catch {A} (m : M S A) : preserves P m → preserves P (catch m).
Proof.
  intros Hm s Hs. unfold catch. specialize (Hm s Hs).
  by destruct (m s) as [s1 [a|e|w]].
Qed.
Lemma preserves_ignore {A} (m : M S A) : preserves P m → preserves P (ignore m).
Proof.
  intros Hm s Hs. unfold ignore. specialize (Hm s Hs).
  by destruct (m s) as [s1 [a|e|w]].
Qed.
Lemma preserves_when b (m : M S unit) : preserves P m → preserves P (when b m).
Proof. destruct b; [done|]. by intros _ s ?. Qed.
Lemma preserves_for_each {A} (l : list A) (f : A → M S unit) :
  (∀ x, x ∈ l → preserves P (f x)) → preserves P (for_each l f).
Proof.
  induction l as [|x l IH]; intros Hf; simpl; [apply preserves_ret|].
  apply preserves_bind; [apply Hf; set_solver|].
  intros _. apply IH. set_solver.
Qed.
End preserves.

#[export] Hint Resolve preserves_ret preserves_get preserves_gets preserves_throw
  preserves_panic preserves_lift preserves_of_option preserves_modify preserves_catch
  preserves_ignore preserves_when preserves_for_each : dvfs.

(** Splits a [preserves] goal along the binds, branches and matches of the call. *)
Ltac preserves_steps :=
  repeat first
    [ progress intros
    | apply preserves_bind
    | progress (eauto with dvfs)
    | match goal with
      | |- preserves _ (match ?x with _ => _ end) => destruct x eqn:?
      | |- preserves _ (let '(_, _) := ?x in _) => destruct x eqn:?
      end ].

(** Case analysis of a completed run [H : op s = (s', r)]. *)
Ltac bind_inv H :=
  let s1 := fresh "s" in let a := fresh "a" in let H1 := fresh "Hm" in
  apply bind_inv_ok in H as (s1 & a & H1 & H).

(** ** Weakest preconditions

    [wp m Q E s]: from [s] the call does not panic, [Q] holds of its value and final
    state if it succeeds and [E] of its error and final state if it fails. *)
Section wp.
Context {S : Type}.

Definition wp {A} (m : M S A) (Q : A → S → Prop) (E : error → S → Prop) (s : S) : Prop :=
  match m s with
  | (s', Ok a) => Q a s'
  | (s', Err e) => E e s'
  | (_, Panic _) => False
  end.

Lemma wp_mono {A} (m : M S A) (Q Q' : A → S → Prop) (E E' : error → S → Prop) s :
  wp m Q E s → (∀ a s', Q a s' → Q' a s') → (∀ e s', E e s' → E' e s') → wp m Q' E' s.
Proof. unfold wp. destruct (m s) as [s' [a|e|w]]; auto. Qed.
Lemma wp_and {A} (m : M S A) (Q Q' : A → S → Prop) (E E' : error → S → Prop) s :
  wp m Q E s → wp m Q' E' s → wp m (λ a s', Q a s' ∧ Q' a s') (λ e s', E e s' ∧ E' e s') s.
Proof. unfold wp. destruct (m s) as [s' [a|e|w]]; auto. Qed.
Lemma wp_ok {A} (m : M S A) Q E s s' a : wp m Q E s → m s = (s', Ok a) → Q a s'.
Proof. unfold wp. intros Hwp Hm. by rewrite Hm in Hwp. Qed.
Lemma wp_err {A} (m : M S A) Q E s s' e : wp m Q E s → m s = (s', Err e) → E e s'.
Proof. unfold wp. intros Hwp Hm. by rewrite Hm in Hwp. Qed.
Lemma wp_no_panic {A} (m : M S A) Q E s s' w : wp m Q E s → m s ≠ (s', Panic w).
Proof. unfold wp. intros Hwp Hm. by rewrite Hm in Hwp. Qed.

Lemma wp_ret {A} (a : A) (Q : A → S → Prop) E s : Q a s → wp (mret a) Q E s.
Proof. done. Qed.
Lemma wp_bind {A B} (m : M S A) (k : A → M S B) Q E s :
  wp m (λ a, wp (k a) Q E) E s → wp (m ≫= k) Q E s.
Proof. unfold wp, mbind, M_bind. by destruct (m s) as [s' [a|e|w]]. Qed.
Lemma wp_gets {A} (f : S → A) (Q : A → S → Prop) E s : Q (f s) s → wp (gets f) Q E s.
Proof. done. Qed.
Lemma wp_modify f (Q : unit → S → Prop) E s : Q tt (f s) → wp (modify f) Q E s.
Proof. done. Qed.
Lemma wp_throw {A} e (Q : A → S → Prop) (E : error → S → Prop) s : E e s → wp (throw e) Q E s.
Proof. done. Qed.
Lemma wp_catch {A} (m : M S A) (Q : error + A → S → Prop) E s :
  wp m (λ a, Q (inr a)) (λ e, Q (inl e)) s → wp (catch m) Q E s.
Proof. unfold wp, catch. by destruct (m s) as [s' [a|e|w]]. Qed.
Lemma wp_ignore {A} (m : M S A) (Q : unit → S → Prop) E s :
  wp m (λ _, Q tt) (λ _, Q tt) s → wp (ignore m) Q E s.
Proof. unfold wp, ignore. by destruct (m s) as [s' [a|e|w]]. Qed.
Lemma wp_when (b : bool) (m : M S unit) (Q : unit → S → Prop) E s :
  (b = true → wp m Q E s) → (b = false → Q tt s) → wp (when b m) Q E s.
Proof. destruct b; intros H1 H2; [by apply H1|by apply H2]. Qed.
Lemma wp_of_option {A} e (o : option A) (Q : A → S → Prop) (E : error → S → Prop) s :
  (∀ a, o = Some a → Q a s) → (o = None → E e s) → wp (of_option e o) Q E s.
Proof. destruct o; intros H1 H2; [by apply H1|by apply H2]. Qed.

(** A loop with an invariant on the elements still to come. *)
Lemma wp_for_each {A} (I : list A → S → Prop) (l : list A) (f : A → M S unit)
    (Q : unit → S → Prop) E s :
  I l s →
  (∀ x l' s, x ∈ l → I (x :: l') s → wp (f x) (λ _, I l') E s) →
  (∀ s, I [] s → Q tt s) →
  wp (for_each l f) Q E s.
Proof.
  intros Hl Hstep Hend. revert s Hl. induction l as [|x l IH]; intros s Hl; simpl.
  { by apply Hend. }
  apply wp_bind. eapply wp_mono; [apply Hstep; [apply list_elem_of_here|exact Hl]| |done].
  intros a s' Hs'. apply IH; [|exact Hs']. intros y l' s2 Hy. apply Hstep.
  by apply list_elem_of_further.
Qed.
End wp.

(** One step of the symbolic execution of a call. *)
Ltac wp_step :=
  cbv beta;
  lazymatch goal with
  | |- wp (mbind _ _) _ _ _ => apply wp_bind
  | |- wp (mret _) _ _ _ => apply wp_ret
  | |- wp (gets _) _ _ _ => apply wp_gets
  | |- wp (modify _) _ _ _ => apply wp_modify
  | |- wp (throw _) _ _ _ => apply wp_throw
  | |- wp (catch _) _ _ _ => apply wp_catch
  | |- wp (ignore _) _ _ _ => apply wp_ignore
  | |- wp (match ?x with _ => _ end) _ _ _ => destruct x eqn:?
  end.

(** ** Machine integers *)

Definition two64 : Z := 18446744073709551616.
Definition maxUint64 : Z := two64 - 1.

(** [uint64] arithmetic wraps around. *)
Definition u64 (z : Z) : Z := z mod two64.

(** [int64(x)] of an unsigned value. *)
Definition i64 (z : Z) : Z :=
  let m := u64 z in if m <? 9223372036854775808 then m else m - two64.

Definition is_u64 (z : Z) : Prop := 0 ≤ z < two64.
#[export] Instance is_u64_dec z : Decision (is_u64 z).
Proof. unfold is_u64. apply _. Defined.

Lemma two64_pos : 0 < two64.
Proof. done. Qed.

Lemma u64_is_u64 z : is_u64 (u64 z).
Proof. apply Z.mod_pos_bound, two64_pos. Qed.

Lemma u64_small z : is_u64 z → u64 z = z.
Proof. intros [??]. by apply Z.mod_small. Qed.

(** Adding the two's complement image of a difference is exact when the true
    result fits. *)
Lemma u64_add_u64 a d : is_u64 (a + d) → u64 (a + u64 d) = a + d.
Proof.
  intros Hr. unfold u64. rewrite Zplus_mod_idemp_r. by apply Z.mod_small.
Qed.

Lemma i64_small z : 0 ≤ z < 9223372036854775808 → i64 z = z.
Proof.
  intros [? Hz]. unfold i64. rewrite u64_small; [|split; [done|]; unfold two64; lia].
  by apply Z.ltb_lt in Hz as ->.
Qed.

#[export] Hint Resolve u64_is_u64 : dvfs.

(** ** Lists of user names *)

(** [for _, u := range l { if u == x { found = true } }] *)
Definition contains (x : string) (l : list string) : bool :=
  existsb (String.eqb x) l.

Lemma contains_spec x l : contains x l = true ↔ x ∈ l.
Proof.
  unfold contains. rewrite existsb_exists. setoid_rewrite <-list_elem_of_In.
  split; [intros (y & ? & ->%String.eqb_eq); done|].
  intros. exists x. by rewrite String.eqb_refl.
Qed.

Lemma contains_false x l : contains x l = false ↔ x ∉ l.
Proof. rewrite <-contains_spec. by destruct (contains x l). Qed.

(** Append unless already present. *)
Definition append_unique (l : list string) (x : string) : list string :=
  if contains x l then l else l ++ [x].

Lemma append_unique_elem l x y : y ∈ append_unique l x ↔ y = x ∨ y ∈ l.
Proof.
  unfold append_unique. destruct (contains x l) eqn:E; [|set_solver].
  apply contains_spec in E. set_solver.
Qed.

Lemma append_unique_NoDup l x : NoDup l → NoDup (append_unique l x).
Proof.
  intros Hl. unfold append_unique. destruct (contains x l) eqn:E; [done|].
  apply contains_false in E. apply NoDup_app; repeat split; try done; [set_solver|].
  apply NoDup_singleton.
Qed.

(** The copy of [l] without [x] built by a filtering loop. *)
Definition without (l : list string) (x : string) : list string :=
  filter (λ u, u ≠ x) l.

Lemma without_elem l x y : y ∈ without l x ↔ y ≠ x ∧ y ∈ l.
Proof. unfold without. by rewrite list_elem_of_filter. Qed.

Lemma without_NoDup l x : NoDup l → NoDup (without l x).
Proof. apply NoDup_filter. Qed.

Lemma without_not_in l x : x ∉ l → without l x = l.
Proof.
  intros Hx. unfold without. induction l as [|y l IH]; [done|].
  rewrite filter_cons_True; [|set_solver]. f_equal. apply IH. set_solver.
Qed.

Lemma without_append_unique l x : x ∉ l → without (append_unique l x) x = l.
Proof.
  intros Hx. unfold append_unique. rewrite (proj2 (contains_false x l) Hx).
  unfold without. rewrite filter_app, filter_cons_False; [|naive_solver].
  rewrite filter_nil, app_nil_r. by apply without_not_in.
Qed.

#[export] Hint Rewrite contains_spec append_unique_elem without_elem : dvfs.
#[export] Hint Resolve append_unique_NoDup without_NoDup : dvfs.
