(* ===== verification/GoStd.v ===== *)
(** * The Go string and path functions the program uses

    Strings are byte strings, as in Go.  [strings.Split], [strings.Join],
    [strings.ReplaceAll], prefix tests, and the Unix versions of
    [filepath.Clean], [Join], [Base], [IsAbs] and [Rel] are executable
    definitions that follow the package documentation.  [EqualFold] and
    [ToLower] fold the ASCII letters. *)
From S2P Require Import Prelude.

Definition slash : ascii := "/".
Definition backslash : ascii := "\".

(** ** [strings] *)

(** [strings.Split] with a one-byte separator: never empty. *)
Fixpoint Split (sep : ascii) (s : string) : list string :=
  match s with
  | EmptyString => [""]
  | String a s' =>
      if decide (a = sep) then "" :: Split sep s'
      else match Split sep s' with
           | [] => [String a ""]
           | w :: ws => String a w :: ws
           end
  end.

(** [strings.Join] with a one-byte separator. *)
Fixpoint SJoin (sep : ascii) (l : list string) : string :=
  match l with
  | [] => ""
  | [w] => w
  | w :: ws => w +:+ String sep (SJoin sep ws)
  end.

(** [strings.ReplaceAll] of one byte by another. *)
Fixpoint ReplaceAll (old new : ascii) (s : string) : string :=
  match s with
  | EmptyString => ""
  | String a s' => String (if decide (a = old) then new else a) (ReplaceAll old new s')
  end.

(** [strings.Contains] of one byte. *)
Fixpoint Contains (s : string) (c : ascii) : bool :=
  match s with
  | EmptyString => false
  | String a s' => if decide (a = c) then true else Contains s' c
  end.

Definition HasPrefix (s prefix : string) : bool := String.prefix prefix s.

Fixpoint drop_bytes (n : nat) (s : string) : string :=
  match n, s with
  | S n', String _ s' => drop_bytes n' s'
  | _, _ => s
  end.

(** [strings.TrimPrefix]: unchanged when the prefix is absent. *)
Definition TrimPrefix (s prefix : string) : string :=
  if HasPrefix s prefix then drop_bytes (String.length prefix) s else s.

Definition to_lower_byte (a : ascii) : ascii :=
  let n := nat_of_ascii a in
  if decide (65 ≤ n ∧ n ≤ 90)%nat then ascii_of_nat (n + 32) else a.

(** [strings.ToLower], on ASCII. *)
Fixpoint ToLower (s : string) : string :=
  match s with
  | EmptyString => ""
  | String a s' => String (to_lower_byte a) (ToLower s')
  end.

(** [strings.EqualFold], on ASCII. *)
Definition EqualFold (s t : string) : bool := String.eqb (ToLower s) (ToLower t).

(** [strings.Fields] *)
Definition white (a : ascii) : bool := let n := nat_of_ascii a in bool_decide (n = 32%nat ∨ (9 ≤ n ≤ 13)%nat).
Fixpoint fields_from (s word : string) : list string :=
  let rest := if decide (word = "") then [] else [word] in
  match s with
  | "" => rest
  | String a s => if white a then rest ++ fields_from s "" else fields_from s (word +:+ String a "")
  end.
Definition Fields (s : string) : list string := fields_from s "".

(** ** [path/filepath] on Unix *)

(** The component loop of [Clean]: [acc] is the output so far, last first. *)
Fixpoint clean_loop (rooted : bool) (acc comps : list string) : list string :=
  match comps with
  | [] => rev acc
  | c :: cs =>
      if decide (c = "" ∨ c = ".") then clean_loop rooted acc cs
      else if decide (c = "..") then
        match acc with
        | a :: acc' => if decide (a = "..") then clean_loop rooted (".." :: acc) cs
                       else clean_loop rooted acc' cs
        | [] => if rooted then clean_loop rooted [] cs else clean_loop rooted [".."] cs
        end
      else clean_loop rooted (c :: acc) cs
  end.

Definition IsAbs (p : string) : bool := HasPrefix p "/".

(** [filepath.Clean] *)
Definition Clean (p : string) : string :=
  let comps := clean_loop (IsAbs p) [] (Split slash p) in
  if IsAbs p then String slash (SJoin slash comps)
  else match comps with [] => "." | _ => SJoin slash comps end.

(** [filepath.Dir]: what is before the last slash, cleaned. *)
Fixpoint up_to_slash (p : string) : string :=
  match p with
  | EmptyString => EmptyString
  | String a p' =>
      let rest := up_to_slash p' in
      if decide (a = slash ∨ rest ≠ "") then String a rest else ""
  end.
Definition Dir (p : string) : string := Clean (up_to_slash p).

Example Dir_ex : map Dir ["/foo/bar"; "/foo"; "foo"; "a/b/c.json"; "./x"; ""] = ["/foo"; "/"; "."; "a/b"; "."; "."].
Proof. reflexivity. Qed.

(** [filepath.Join]: the elements from the first non-empty one on. *)
Fixpoint Join (elems : list string) : string :=
  match elems with
  | [] => ""
  | e :: es => if decide (e = "") then Join es else Clean (SJoin slash (e :: es))
  end.

Definition last_or (d : string) (l : list string) : string := default d (last l).

(** [filepath.Base]: the last element, trailing slashes removed. *)
Definition Base (p : string) : string :=
  if decide (p = "") then "."
  else last_or "/" (filter (λ c, c ≠ "") (Split slash p)).

(** The elements [filepath.Rel] compares: [.] as a base has none. *)
Definition rel_base_comps (clean : string) : list string :=
  if decide (clean = ".") then []
  else filter (λ c, c ≠ "") (Split slash clean).
Definition rel_targ_comps (clean : string) : list string :=
  filter (λ c, c ≠ "") (Split slash clean).

Fixpoint strip_common (b t : list string) : list string * list string :=
  match b, t with
  | x :: b', y :: t' => if decide (x = y) then strip_common b' t' else (b, t)
  | _, _ => (b, t)
  end.

(** [filepath.Rel] *)
Definition Rel (basepath targpath : string) : option string :=
  let base := Clean basepath in
  let targ := Clean targpath in
  if decide (base = targ) then Some "."
  else if decide (IsAbs base ≠ IsAbs targ) then None
  else
    let '(b, t) := strip_common (rel_base_comps base) (rel_targ_comps targ) in
    match b with
    | [] => Some (SJoin slash t)
    | c :: _ => if decide (c = "..") then None
                else Some (SJoin slash (map (λ _, "..") b ++ t))
    end.

(** ** Concrete runs of the definitions *)

Example Split_ex : Split slash "/a//b" = [""; "a"; ""; "b"].
Proof. reflexivity. Qed.
Example Clean_ex :
  map Clean ["a//b/./c/.."; "/../x"; "../a/../.."; ""; "/"; "a/.."]
  = ["a/b"; "/x"; "../.."; "."; "/"; "."].
Proof. reflexivity. Qed.
Example Join_ex : Join ["/data"; "alice"; "docs"] = "/data/alice/docs".
Proof. reflexivity. Qed.
Example Rel_ex :
  (Rel "/data" "/data/alice/docs", Rel "/data" "/data", Rel "a/b" "a/c",
   Rel ".." "a", Rel "/a" "a")
  = (Some "alice/docs", Some ".", Some "../c", None, None).
Proof. reflexivity. Qed.
Example Base_ex : map Base ["a/b/"; ""; "///"; "x"] = ["b"; "."; "/"; "x"].
Proof. reflexivity. Qed.

(** ** Split and join *)

Lemma Split_nonempty sep s : Split sep s ≠ [].
Proof. destruct s as [|a s]; simpl; [done|]. case_decide; [done|]. by case_match. Qed.

Lemma SJoin_cons sep w ws : ws ≠ [] → SJoin sep (w :: ws) = w +:+ String sep (SJoin sep ws).
Proof. by destruct ws. Qed.

Lemma SJoin_Split sep s : SJoin sep (Split sep s) = s.
Proof.
  induction s as [|a s IH]; simpl; [done|]. pose proof (Split_nonempty sep s) as Hne.
  case_decide as Ha; subst.
  - rewrite SJoin_cons by done. by rewrite IH.
  - destruct (Split sep s) as [|w ws] eqn:E; [done|].
    destruct ws; simpl in *; by rewrite <-IH.
Qed.

(** A word without the separator. *)
Definition sep_free (sep : ascii) (w : string) : Prop := Contains w sep = false.

Lemma Contains_cons a s c : Contains (String a s) c = bool_decide (a = c) || Contains s c.
Proof. simpl. repeat case_decide; case_bool_decide; naive_solver. Qed.

Lemma Contains_app s t c : Contains (s +:+ t) c = Contains s c || Contains t c.
Proof.
  induction s as [|a s IH]; [done|].
  change (String a s +:+ t) with (String a (s +:+ t)).
  by rewrite !Contains_cons, IH, orb_assoc.
Qed.

Lemma ReplaceAll_free (old new : ascii) s :
  old ≠ new → sep_free old (ReplaceAll old new s).
Proof.
  intros Hne. unfold sep_free. induction s as [|a s IH]; [done|].
  simpl. rewrite IH. repeat case_decide; congruence.
Qed.

Lemma ReplaceAll_none (old new : ascii) s : sep_free old s → ReplaceAll old new s = s.
Proof.
  unfold sep_free. induction s as [|a s IH]; [done|]. simpl.
  case_decide; [done|]. intros Hs. by rewrite IH.
Qed.

Lemma SJoin_free (sep c : ascii) l :
  sep ≠ c → Forall (sep_free c) l → sep_free c (SJoin sep l).
Proof.
  unfold sep_free. intros Hne. induction 1 as [|w l Hw Hl IH]; [done|].
  destruct l as [|w' l]; [done|]. rewrite SJoin_cons, Contains_app, Hw, Contains_cons, IH by done.
  by rewrite bool_decide_eq_false_2.
Qed.

Lemma Split_free (sep c : ascii) s : sep_free c s → Forall (sep_free c) (Split sep s).
Proof.
  unfold sep_free. induction s as [|a s IH]; intros Hs; [by repeat constructor|].
  rewrite Contains_cons in Hs. apply orb_false_iff in Hs as [Ha Hs].
  apply bool_decide_eq_false in Ha. specialize (IH Hs). simpl.
  case_decide; [by constructor|]. destruct (Split sep s) as [|w ws].
  - constructor; [|done]. rewrite Contains_cons. by rewrite bool_decide_eq_false_2.
  - inversion IH as [|? ? Hw Hws]; subst. constructor; [|done].
    rewrite Contains_cons, Hw. by rewrite bool_decide_eq_false_2.
Qed.

Lemma Split_sep_free sep s : Forall (sep_free sep) (Split sep s).
Proof.
  induction s as [|a s IH]; simpl; [by repeat constructor|].
  case_decide as Ha; [by constructor|].
  destruct (Split sep s) as [|w ws]; inversion_clear IH; constructor;
    unfold sep_free in *; rewrite ?Contains_cons, ?bool_decide_false by done; done.
Qed.

Lemma Split_single sep w : sep_free sep w → Split sep w = [w].
Proof.
  unfold sep_free. induction w as [|a w IH]; [done|]. rewrite Contains_cons.
  case_bool_decide as Ha; [done|]. simpl. intros Hw.
  rewrite decide_False by done. by rewrite IH.
Qed.

Lemma Split_app sep w s : sep_free sep w → Split sep (w +:+ String sep s) = w :: Split sep s.
Proof.
  unfold sep_free. induction w as [|a w IH]; simpl.
  - intros _. change ("" +:+ String sep s) with (String sep s). simpl. by rewrite decide_True.
  - change (String a w +:+ String sep s) with (String a (w +:+ String sep s)). simpl.
    case_decide as Ha; [done|]. intros Hw. by rewrite IH.
Qed.

Lemma Split_app_gen sep s t : Split sep (s +:+ String sep t) = Split sep s ++ Split sep t.
Proof.
  induction s as [|a s IH].
  - change ("" +:+ String sep t) with (String sep t). simpl. by rewrite decide_True.
  - change (String a s +:+ String sep t) with (String a (s +:+ String sep t)). simpl.
    rewrite IH. case_decide; [done|]. pose proof (Split_nonempty sep s).
    by destruct (Split sep s).
Qed.

Lemma Split_SJoin sep l : l ≠ [] → Forall (sep_free sep) l → Split sep (SJoin sep l) = l.
Proof.
  intros Hl Hf. induction l as [|w ws IH]; [done|]. inversion_clear Hf as [|?? Hw Hws].
  destruct ws as [|w' ws]; [by apply Split_single|].
  rewrite SJoin_cons by done. rewrite Split_app by done. by rewrite IH.
Qed.

(** ** Absolute paths as lists of components *)

(** A component that [Clean] keeps as it is: not empty, not [.] or [..], no slash. *)
Definition comp_ok (c : string) : Prop :=
  c ≠ "" ∧ c ≠ "." ∧ c ≠ ".." ∧ sep_free slash c.

Definition abs_path (comps : list string) : string := String slash (SJoin slash comps).

Lemma comp_ok_free l : Forall comp_ok l → Forall (sep_free slash) l.
Proof. intros Hl. eapply Forall_impl; [exact Hl|]. by intros c (?&?&?&?). Qed.

Lemma comp_ok_nonempty l : Forall comp_ok l → filter (λ c, c ≠ "") l = l.
Proof.
  induction 1 as [|c l (Hc&_) _ IH]; [done|].
  rewrite filter_cons_True by done. by rewrite IH.
Qed.

Lemma clean_loop_ok r acc l : Forall comp_ok l → clean_loop r acc l = rev acc ++ l.
Proof.
  intros Hl. revert acc. induction Hl as [|c l (?&?&?&?) _ IH]; intros acc; simpl.
  { by rewrite app_nil_r. }
  rewrite decide_False, decide_False by naive_solver.
  rewrite IH. simpl. by rewrite <-app_assoc.
Qed.

Lemma Split_abs_path l : Forall comp_ok l → l ≠ [] → Split slash (abs_path l) = "" :: l.
Proof.
  intros Hl Hne. unfold abs_path.
  change (String slash (SJoin slash l)) with ("" +:+ String slash (SJoin slash l)).
  rewrite Split_app by done. by rewrite Split_SJoin by eauto using comp_ok_free.
Qed.

Lemma IsAbs_abs_path l : IsAbs (abs_path l) = true.
Proof. unfold IsAbs, HasPrefix, abs_path. by destruct (SJoin slash l). Qed.

Lemma Clean_abs_path l : Forall comp_ok l → Clean (abs_path l) = abs_path l.
Proof.
  intros Hl. destruct (decide (l = [])) as [->|Hne]; [done|].
  unfold Clean. rewrite IsAbs_abs_path, Split_abs_path by done. simpl.
  by rewrite clean_loop_ok.
Qed.

Lemma string_app_assoc (s t u : string) : (s +:+ t) +:+ u = s +:+ (t +:+ u).
Proof.
  induction s as [|a s IH]; [done|].
  change (String a ((s +:+ t) +:+ u) = String a (s +:+ (t +:+ u))). by rewrite IH.
Qed.

Lemma SJoin_snoc sep l n : l ≠ [] → SJoin sep l +:+ String sep n = SJoin sep (l ++ [n]).
Proof.
  induction l as [|w l IH]; [done|]. intros _. destruct l as [|w' l]; [done|].
  change ((w :: w' :: l) ++ [n]) with (w :: ((w' :: l) ++ [n])).
  rewrite (SJoin_cons sep w (w' :: l)), (SJoin_cons sep w ((w' :: l) ++ [n])) by done.
  rewrite <-IH by done.
  by rewrite string_app_assoc.
Qed.

(** Joining a name to a directory appends one component. *)
Lemma Join_abs_path l n :
  Forall comp_ok l → comp_ok n → l ≠ [] → Join [abs_path l; n] = abs_path (l ++ [n]).
Proof.
  intros Hl Hn Hne. unfold Join. rewrite decide_False by done.
  assert (SJoin slash [abs_path l; n] = abs_path (l ++ [n])) as ->.
  { unfold abs_path. simpl SJoin at 1.
    change (String slash (SJoin slash l) +:+ String slash n)
      with (String slash (SJoin slash l +:+ String slash n)).
    by rewrite SJoin_snoc. }
  apply Clean_abs_path, Forall_app. auto.
Qed.

Lemma SJoin_inj sep l1 l2 :
  l1 ≠ [] → l2 ≠ [] → Forall (sep_free sep) l1 → Forall (sep_free sep) l2 →
  SJoin sep l1 = SJoin sep l2 → l1 = l2.
Proof.
  intros ?? H1 H2 Heq. rewrite <-(Split_SJoin sep l1), <-(Split_SJoin sep l2) by done.
  by rewrite Heq.
Qed.

Lemma abs_path_inj l1 l2 :
  Forall comp_ok l1 → Forall comp_ok l2 → abs_path l1 = abs_path l2 → l1 = l2.
Proof.
  intros H1 H2 Heq. destruct (decide (l1 = [])) as [->|], (decide (l2 = [])) as [->|]; [done| | |].
  - exfalso. destruct l2 as [|c l2]; [done|]. inversion_clear H2 as [|?? (Hc&_) _].
    destruct c; [done|]. by destruct l2.
  - exfalso. destruct l1 as [|c l1]; [done|]. inversion_clear H1 as [|?? (Hc&_) _].
    destruct c; [done|]. by destruct l1.
  - apply (SJoin_inj slash); [done|done|by apply comp_ok_free..|].
    by unfold abs_path in Heq; injection Heq.
Qed.

Lemma strip_common_app r t : strip_common r (r ++ t) = ([], t).
Proof. induction r as [|x r IH]; simpl; [by destruct t|]. by rewrite decide_True. Qed.

Lemma rel_comps_abs l :
  Forall comp_ok l → rel_base_comps (abs_path l) = l ∧ rel_targ_comps (abs_path l) = l.
Proof.
  intros Hl. unfold rel_base_comps, rel_targ_comps.
  rewrite decide_False by (destruct l as [|? []]; done).
  destruct (decide (l = [])) as [->|Hne]; [done|].
  rewrite Split_abs_path by done. rewrite filter_cons_False by naive_solver.
  by rewrite comp_ok_nonempty.
Qed.

(** The path of an entry relative to the root is the remaining components. *)
Lemma Rel_abs_path r t :
  Forall comp_ok (r ++ t) → t ≠ [] →
  Rel (abs_path r) (abs_path (r ++ t)) = Some (SJoin slash t).
Proof.
  intros Hf Ht. pose proof Hf as [Hr _]%Forall_app. unfold Rel.
  rewrite !Clean_abs_path, !IsAbs_abs_path by done.
  rewrite decide_False.
  2:{ intros ?%abs_path_inj; [|done..].
      apply Ht. symmetry. apply (app_inv_head r). by rewrite app_nil_r. }
  rewrite decide_False by (intros []; done).
  rewrite (proj1 (rel_comps_abs r Hr)), (proj2 (rel_comps_abs (r ++ t) Hf)).
  by rewrite strip_common_app.
Qed.

Lemma Base_abs_path l n : Forall comp_ok (l ++ [n]) → Base (abs_path (l ++ [n])) = n.
Proof.
  intros Hf. unfold Base. rewrite decide_False by (by destruct l as [|? []]).
  rewrite Split_abs_path by (done || by destruct l).
  rewrite filter_cons_False by naive_solver. rewrite comp_ok_nonempty by done.
  unfold last_or. by rewrite last_snoc.
Qed.

(** ** Prefixes *)

Lemma HasPrefix_spec p pre : HasPrefix p pre = true ↔ ∃ s, p = pre +:+ s.
Proof.
  unfold HasPrefix. revert p. induction pre as [|a pre IH]; intros p.
  - destruct p; simpl; split; eauto; done.
  - destruct p as [|b p]; simpl; [split; [done|by intros [s ?]]|].
    destruct (ascii_dec a b) as [<-|Hab].
    + rewrite IH. split; [|by intros [s [= ->]]; exists s].
      intros [s ->]. by exists s.
    + split; [done|]. intros [s Hs]. by injection Hs.
Qed.

Lemma HasPrefix_app pre s : HasPrefix (pre +:+ s) pre = true.
Proof. apply HasPrefix_spec. eauto. Qed.

Lemma drop_bytes_app pre s : drop_bytes (String.length pre) (pre +:+ s) = s.
Proof. induction pre as [|a pre IH]; [by destruct s|done]. Qed.

Lemma TrimPrefix_app pre s : TrimPrefix (pre +:+ s) pre = s.
Proof. unfold TrimPrefix. by rewrite HasPrefix_app, drop_bytes_app. Qed.

Lemma string_app_inj_l (a s t : string) : a +:+ s = a +:+ t → s = t.
Proof. induction a as [|c a IH]; [done|]. intros Heq. injection Heq. apply IH. Qed.

Lemma string_app_inj_snoc (a b : string) c d :
  a +:+ String c "" = b +:+ String d "" → a = b ∧ c = d.
Proof.
  revert b. induction a as [|x a IH]; intros [|y b] Heq.
  - by injection Heq.
  - injection Heq as _ Heq. by destruct b.
  - injection Heq as _ Heq. by destruct a.
  - injection Heq as -> Heq. by destruct (IH b Heq) as [-> ->].
Qed.

Lemma string_snoc (s : string) : s = "" ∨ ∃ s' c, s = s' +:+ String c "".
Proof.
  induction s as [|c s [->|(s' & c' & ->)]]; [by left| |].
  - right. by exists "", c.
  - right. by exists (String c s'), c'.
Qed.

Lemma string_app_nil_r (s : string) : s +:+ "" = s.
Proof.
  induction s as [|c s IH]; [done|].
  change (String c (s +:+ "") = String c s). by rewrite IH.
Qed.

Lemma string_app_slash_ne (a s : string) : a +:+ "/" +:+ s ≠ a.
Proof.
  intros Heq. rewrite <-(string_app_nil_r a) in Heq at 2.
  apply string_app_inj_l in Heq. discriminate Heq.
Qed.

(** Of two prefixes of one string, one is a prefix of the other. *)
Lemma prefix_total (a b x y : string) :
  a +:+ x = b +:+ y → (∃ z, a = b +:+ z) ∨ (∃ z, b = a +:+ z).
Proof.
  revert b. induction a as [|c a IH]; intros [|c' b] Heq.
  - by left; exists "".
  - right. by exists (String c' b).
  - left. by exists (String c a).
  - injection Heq as -> Heq. destruct (IH b Heq) as [[z ->]|[z ->]]; [left|right]; by exists z.
Qed.

(** The path [p] is [a] or lies below it. *)
Definition within (a p : string) : Prop := ∃ s, p +:+ "/" = (a +:+ "/") +:+ s.

Lemma within_refl a : within a a.
Proof. exists "". by rewrite string_app_nil_r. Qed.

Lemma within_below a s : within a (a +:+ "/" +:+ s).
Proof. exists (s +:+ "/"). by rewrite !string_app_assoc. Qed.

(** The test of the code: equal, or prefixed by [a] and a slash. *)
Lemma within_spec a p : within a p ↔ p = a ∨ HasPrefix p (a +:+ "/") = true.
Proof.
  split.
  - intros [s Hs]. destruct (string_snoc s) as [->|(s' & c & ->)].
    + left. rewrite string_app_nil_r in Hs. by apply string_app_inj_snoc in Hs as [-> _].
    + right. rewrite <-string_app_assoc in Hs.
      apply string_app_inj_snoc in Hs as [-> _]. apply HasPrefix_app.
  - intros [->|[s ->]%HasPrefix_spec]; [apply within_refl|].
    rewrite string_app_assoc. apply within_below.
Qed.

(** Two directories that contain a common path are nested. *)
Lemma within_total a b p : within a p → within b p → within a b ∨ within b a.
Proof.
  intros [x Hx] [y Hy]. rewrite Hx in Hy.
  destruct (prefix_total _ _ _ _ Hy) as [[z Hz]|[z Hz]]; [right|left]; by exists z.
Qed.
