(* ===== verification/Domain.v ===== *)
(** * The domain types: file identifiers, inode types, inodes and ACLs

    Models [internal/domain/types.go].  Inode objects live in a heap (see
    FileServer.v) because the server shares them through pointers; an FID is a
    value, never mutated after it is built. *)
From S2P Require Import Prelude GoStd.

Record FID := mkFID {
  FileServerID : string;
  InodeID : Z;
  GenerationNumber : Z;
}.

#[export] Instance FID_eq_dec : EqDecision FID.
Proof. solve_decision. Defined.

(** [FID.String]: [fmt.Sprintf("%s_%d_%d", ...)]. *)
Definition FID_String (f : FID) : string :=
  FileServerID f +:+ "_" +:+ pretty (InodeID f) +:+ "_" +:+ pretty (GenerationNumber f).

(** The wire form; [nil] is [None]. *)
Record pbFID := mkPbFID {
  FileServerId : string;
  InodeId : Z;
  PbGenerationNumber : Z;
}.

Definition FID_ToProto (f : FID) : pbFID :=
  mkPbFID (FileServerID f) (InodeID f) (GenerationNumber f).

Definition FIDFromProto (p : option pbFID) : option FID :=
  match p with
  | None => None
  | Some p => Some (mkFID (FileServerId p) (InodeId p) (PbGenerationNumber p))
  end.

Inductive InodeType := InodeTypeFile | InodeTypeDirectory.

#[export] Instance InodeType_eq_dec : EqDecision InodeType.
Proof. solve_decision. Defined.

Definition InodeType_String (t : InodeType) : string :=
  match t with InodeTypeFile => "file" | InodeTypeDirectory => "directory" end.

(** The protobuf enum is an open int32: FILE = 0, DIRECTORY = 1. *)
Definition pbInodeType_FILE : Z := 0.
Definition pbInodeType_DIRECTORY : Z := 1.

Definition InodeType_ToProto (t : InodeType) : Z :=
  match t with
  | InodeTypeFile => pbInodeType_FILE
  | InodeTypeDirectory => pbInodeType_DIRECTORY
  end.

Definition InodeTypeFromProto (t : Z) : InodeType :=
  if t =? pbInodeType_FILE then InodeTypeFile
  else if t =? pbInodeType_DIRECTORY then InodeTypeDirectory
  else InodeTypeFile.

Record ACL := mkACL {
  Owner : string;
  aShared : list string;
}.

#[export] Instance ACL_eq_dec : EqDecision ACL.
Proof. solve_decision. Defined.

(** The address of an inode object. *)
Definition loc : Type := positive.

Record Inode := mkInode {
  iFID : FID;
  iType : InodeType;
  iName : string;
  iOSPath : string;
  iACL : ACL;
  iChildren : list FID;
  iSize : Z;
  iParent : option loc;
}.

#[export] Instance Inode_eq_dec : EqDecision Inode.
Proof. solve_decision. Defined.

(** Field assignments. *)
Definition set_iName v i :=
  mkInode (iFID i) (iType i) v (iOSPath i) (iACL i) (iChildren i) (iSize i) (iParent i).
Definition set_iOSPath v i :=
  mkInode (iFID i) (iType i) (iName i) v (iACL i) (iChildren i) (iSize i) (iParent i).
Definition set_iACL v i :=
  mkInode (iFID i) (iType i) (iName i) (iOSPath i) v (iChildren i) (iSize i) (iParent i).
Definition set_iChildren v i :=
  mkInode (iFID i) (iType i) (iName i) (iOSPath i) (iACL i) v (iSize i) (iParent i).
Definition set_iSize v i :=
  mkInode (iFID i) (iType i) (iName i) (iOSPath i) (iACL i) (iChildren i) v (iParent i).
Definition set_iParent v i :=
  mkInode (iFID i) (iType i) (iName i) (iOSPath i) (iACL i) (iChildren i) (iSize i) v.

Definition set_Shared (sh : list string) (i : Inode) : Inode :=
  set_iACL (mkACL (Owner (iACL i)) sh) i.

(** The access test shared by [FileServer.userCanAccessInode] and the loops
    that inline it. *)
Definition aclAllows (a : ACL) (user : string) : bool :=
  String.eqb (Owner a) user || contains user (aShared a).

(** ** The key of an inode determines its FID *)

Definition underscore : ascii := "_".

(** A character a printed number does not use. *)
Definition not_numeric (c : ascii) : Prop :=
  Forall (λ d, d ≠ c) ["0"; "1"; "2"; "3"; "4"; "5"; "6"; "7"; "8"; "9"; "-"]%char.
#[export] Instance not_numeric_dec c : Decision (not_numeric c).
Proof. unfold not_numeric. apply _. Defined.

Lemma pretty_N_go_free c n s : not_numeric c → sep_free c s → sep_free c (pretty_N_go n s).
Proof.
  intros Hc. revert s. induction (N.lt_wf_0 n) as [n _ IH]; intros s Hs.
  destruct (decide (0 < n)%N) as [Hn|Hn].
  - rewrite pretty_N_go_step by done. apply IH; [by apply N.div_lt|].
    unfold sep_free. rewrite Contains_cons, Hs, orb_false_r.
    apply bool_decide_eq_false. unfold not_numeric in Hc. rewrite !Forall_cons in Hc.
    destruct_and!. unfold pretty_N_char. repeat case_match; done.
  - assert (n = 0%N) as -> by lia. done.
Qed.

Lemma pretty_Z_free c (z : Z) : not_numeric c → sep_free c (pretty z).
Proof.
  intros Hc. assert (∀ n : N, sep_free c (pretty n)) as HN.
  { intros n. unfold pretty, pretty_N. case_decide; [|by apply pretty_N_go_free].
    unfold not_numeric in Hc. rewrite !Forall_cons in Hc. unfold sep_free.
    rewrite Contains_cons, bool_decide_false by tauto. done. }
  destruct z as [|p|p]; [apply (HN 0%N)|apply HN|].
  change (sep_free c ("-" +:+ pretty (Npos p))). unfold sep_free.
  unfold not_numeric in Hc. rewrite !Forall_cons in Hc.
  rewrite Contains_app, Contains_cons, bool_decide_false by tauto. apply HN.
Qed.

Lemma pretty_Z_sep (z : Z) : sep_free underscore (pretty z).
Proof. by apply pretty_Z_free, (bool_decide_unpack _). Qed.

Lemma FID_String_Split f :
  Split underscore (FID_String f)
  = Split underscore (FileServerID f) ++ [pretty (InodeID f); pretty (GenerationNumber f)].
Proof.
  unfold FID_String.
  change ("_" +:+ pretty (InodeID f) +:+ "_" +:+ pretty (GenerationNumber f))
    with (String underscore
            (pretty (InodeID f) +:+ String underscore (pretty (GenerationNumber f)))).
  rewrite Split_app_gen, Split_app by apply pretty_Z_sep.
  by rewrite (Split_single _ (pretty (GenerationNumber f))) by apply pretty_Z_sep.
Qed.

(** Two FIDs with the same printed key are the same FID, underscores in the
    server id included. *)
Lemma FID_String_inj f g : FID_String f = FID_String g → f = g.
Proof.
  intros Heq. pose proof (FID_String_Split f) as Hf.
  rewrite Heq, FID_String_Split in Hf.
  apply app_inj_2 in Hf as [Hs Hids]; [|done].
  injection Hids as Hi%(inj pretty) Hg%(inj pretty).
  assert (FileServerID f = FileServerID g) as Hn.
  { rewrite <-(SJoin_Split underscore (FileServerID f)), <-Hs. by rewrite SJoin_Split. }
  destruct f, g; simpl in *. congruence.
Qed.

#[export] Instance FID_String_Inj : Inj (=) (=) FID_String.
Proof. intros f g. apply FID_String_inj. Qed.

(** The wire form carries the whole FID. *)
Lemma FID_proto_roundtrip f : FIDFromProto (Some (FID_ToProto f)) = Some f.
Proof. by destruct f. Qed.

Lemma InodeType_proto_roundtrip t : InodeTypeFromProto (InodeType_ToProto t) = t.
Proof. by destruct t. Qed.
