(* ===== verification/Disk.v ===== *)
(** * The operating system interface and a POSIX-like disk

    The servers talk to the disk through the [os] package.  [OS D] is the
    interface they use, for any disk type [D]; the theorems about in-memory state
    hold for every implementation, failing calls included.  [DiskLaws] states the
    read-after-write behaviour the persistence theorems need, and [MemDisk] is an
    executable file tree with fault injection that satisfies it.  [Json] is the
    encoder of one type of record, with its round-trip law. *)
From S2P Require Import Prelude GoStd.
From Stdlib Require Import Strings.Byte.

Definition bytes : Type := list Byte.byte.

#[export] Instance byte_eq_dec : EqDecision Byte.byte := Byte.byte_eq_dec.
#[export] Instance bytes_eq_dec : EqDecision bytes.
Proof. unfold bytes. apply _. Defined.

(** A call on the disk: the new disk and an error or a value. *)
Definition OSCall (D A : Type) : Type := D → D * (error + A).

Record DirEntry := mkDirEntry {
  deName : string;
  deIsDir : bool;
  deSize : Z;
}.

(** [pwrite]: zeros fill a gap past the end of the file. *)
Definition write_at (off : nat) (data b : bytes) : bytes :=
  take off (b ++ replicate (off - length b) x00) ++ data ++ drop (off + length data) b.
(** [pread]: what there is of the range. *)
Definition read_at (off len : nat) (b : bytes) : bytes := take len (drop off b).

(** The [os] calls of the servers.  [os_OpenRead] and [os_OpenWrite] are the checks
    of an [os.Open] or [os.OpenFile] whose handle is then used for [os_ReadAt] or
    [os_WriteAt]; [io.EOF] is not an error of [os_ReadAt]. *)
Class OS (D : Type) := {
  os_MkdirAll : string → OSCall D unit;
  os_Mkdir : string → OSCall D unit;
  os_Create : string → OSCall D unit;
  os_Rename : string → string → OSCall D unit;
  os_RemoveAll : string → OSCall D unit;
  os_Remove : string → OSCall D unit;
  os_WriteFile : string → bytes → OSCall D unit;
  os_OpenRead : string → D → error + unit;
  os_OpenWrite : string → D → error + unit;
  os_ReadAt : string → Z → Z → D → error + bytes;
  os_WriteAt : string → Z → bytes → OSCall D unit;
  os_CreateTemp : string → string → OSCall D string;
  os_ReadFile : string → D → error + bytes;
  os_Stat : string → D → error + Z;
  os_ReadDir : string → D → error + list DirEntry;
  os_DiskFree : string → D → Z;
}.

Definition os_IsNotExist (e : error) : bool :=
  match e with PathError _ _ ENOENT => true | _ => false end.

(** The components of a path, the working directory being the root. *)
Definition comps (p : string) : list string :=
  filter (λ c, c ≠ "" ∧ c ≠ ".") (Split slash (Clean p)).

(** Reads after the calls that write whole files. *)
Class DiskLaws (D : Type) `{OS D} := {
  read_WriteFile p b d d' :
    os_WriteFile p b d = (d', inr tt) → os_ReadFile p d' = inr b;
  read_Rename p q b d d' :
    os_Rename p q d = (d', inr tt) → os_ReadFile p d = inr b → os_ReadFile q d' = inr b;
  read_Remove_other p q b d :
    comps p ≠ comps q → os_ReadFile q d = inr b → os_ReadFile q (os_Remove p d).1 = inr b;
  read_WriteAt p off data b d d' :
    os_WriteAt p off data d = (d', inr tt) → os_ReadFile p d = inr b →
    0 ≤ off ∧ os_ReadFile p d' = inr (write_at (Z.to_nat off) data b);
  readAt_read p off len b d :
    0 ≤ off → os_ReadFile p d = inr b →
    os_ReadAt p off len d = inr (read_at (Z.to_nat off) (Z.to_nat len) b);
  openRead_read p b d : os_ReadFile p d = inr b → os_OpenRead p d = inr tt;
  stat_read p b d :
    os_ReadFile p d = inr b → os_Stat p d = inr (Z.of_nat (length b));
}.

(** ** JSON documents *)

(** [json.Marshal]/[json.Unmarshal] of one Go type. *)
Class Json (A : Type) := {
  marshal : A → bytes;
  unmarshal : bytes → option A;
}.
Class JsonLaws (A : Type) `{Json A} :=
  unmarshal_marshal : ∀ a : A, unmarshal (marshal a) = Some a.

(** A concrete encoder of any countable type, one bit per byte. *)
Fixpoint pos_bytes (p : positive) : bytes :=
  match p with
  | xH => []
  | xO p => x00 :: pos_bytes p
  | xI p => x01 :: pos_bytes p
  end.
Fixpoint bytes_pos (b : bytes) : option positive :=
  match b with
  | [] => Some xH
  | x00 :: b => xO <$> bytes_pos b
  | x01 :: b => xI <$> bytes_pos b
  | _ => None
  end.
Lemma bytes_pos_bytes p : bytes_pos (pos_bytes p) = Some p.
Proof. by induction p as [p IH|p IH|]; simpl; rewrite ?IH. Qed.

Definition countable_json A `{Countable A} : Json A := {|
  marshal a := pos_bytes (encode a);
  unmarshal b := bytes_pos b ≫= decode;
|}.
Lemma countable_json_laws A `{Countable A} : @JsonLaws A (countable_json A).
Proof.
  intros a. unfold unmarshal, marshal; simpl. rewrite bytes_pos_bytes. simpl.
  apply decode_encode.
Qed.

(** ** An executable disk *)

Inductive DEntry := DDir | DFile (b : bytes).

#[export] Instance DEntry_eq_dec : EqDecision DEntry.
Proof. solve_decision. Defined.

(** The calls that fail, by name; a failing call changes nothing. *)
Record MemDisk := mkMemDisk {
  mdTree : gmap (list string) DEntry;
  mdFree : Z;
  mdFaults : list string;
}.

Definition set_mdTree t d := mkMemDisk t (mdFree d) (mdFaults d).

(** The entry at a path; the root directory always exists. *)
Definition entry (d : MemDisk) (k : list string) : option DEntry :=
  match k with [] => Some DDir | _ => mdTree d !! k end.
Definition parent_is_dir (d : MemDisk) (k : list string) : bool :=
  bool_decide (entry d (removelast k) = Some DDir).

(** Why nothing is found at a path: a prefix may be a file. *)
Definition missing (d : MemDisk) (k : list string) : errno :=
  if existsb (λ n, match entry d (take n k) with Some (DFile _) => true | _ => false end)
       (seq 0 (length k))
  then ENOTDIR else ENOENT.

Definition under (k k' : list string) : bool := bool_decide (take (length k) k' = k).

Section mem.
Implicit Types (d : MemDisk) (p : string).

Definition guarded {A} (op : string) p (call : OSCall MemDisk A) : OSCall MemDisk A := λ d,
  if contains op (mdFaults d) then (d, inl (PathError op p EIO)) else call d.

Fixpoint mkdirs d (pre rest : list string) : option MemDisk :=
  match rest with
  | [] => Some d
  | c :: rest =>
      let k := pre ++ [c] in
      match mdTree d !! k with
      | Some DDir => mkdirs d k rest
      | Some (DFile _) => None
      | None => mkdirs (set_mdTree (<[k := DDir]> (mdTree d)) d) k rest
      end
  end.
Definition md_MkdirAll p : OSCall MemDisk unit := guarded "mkdirall" p (λ d,
  match mkdirs d [] (comps p) with
  | Some d' => (d', inr tt)
  | None => (d, inl (PathError "mkdir" p ENOTDIR))
  end).
Definition md_Mkdir p : OSCall MemDisk unit := guarded "mkdir" p (λ d,
  let k := comps p in
  match entry d k with
  | Some _ => (d, inl (PathError "mkdir" p EEXIST))
  | None => if parent_is_dir d k then (set_mdTree (<[k := DDir]> (mdTree d)) d, inr tt)
            else (d, inl (PathError "mkdir" p ENOENT))
  end).
Definition md_put (op : string) p b : OSCall MemDisk unit := guarded op p (λ d,
  let k := comps p in
  match entry d k with
  | Some DDir => (d, inl (PathError "open" p EISDIR))
  | _ => if parent_is_dir d k then (set_mdTree (<[k := DFile b]> (mdTree d)) d, inr tt)
         else (d, inl (PathError "open" p (missing d k)))
  end).
Definition md_RemoveAll p : OSCall MemDisk unit := guarded "removeall" p (λ d,
  (set_mdTree (filter (λ kv, under (comps p) kv.1 = false) (mdTree d)) d, inr tt)).
Definition md_Remove p : OSCall MemDisk unit := guarded "remove" p (λ d,
  let k := comps p in
  match mdTree d !! k with
  | None => (d, inl (PathError "remove" p ENOENT))
  | Some (DFile _) => (set_mdTree (delete k (mdTree d)) d, inr tt)
  | Some DDir =>
      if decide (filter (λ kv, under k kv.1 = true ∧ kv.1 ≠ k) (mdTree d) = ∅)
      then (set_mdTree (delete k (mdTree d)) d, inr tt)
      else (d, inl (PathError "remove" p ENOTEMPTY))
  end).

(** The tree after the entries under [k] moved to [k']. *)
Definition moved (k k' : list string) (t : gmap (list string) DEntry) :
    gmap (list string) DEntry :=
  let stay := filter (λ kv, under k kv.1 = false ∧ kv.1 ≠ k') t in
  let go := filter (λ kv, under k kv.1 = true) t in
  list_to_map ((λ kv, (k' ++ drop (length k) kv.1, kv.2)) <$> map_to_list go) ∪ stay.

(** [rename(2)]: replaces a file, or an empty directory by a directory. *)
Definition md_Rename p q : OSCall MemDisk unit := guarded "rename" p (λ d,
  let k := comps p in let k' := comps q in
  let fail n := (d, inl (PathError "rename" p n)) in
  match mdTree d !! k with
  | None => fail ENOENT
  | Some e =>
      if decide (k = k') then (d, inr tt)
      else if under k k' then fail EINVAL
      else if parent_is_dir d k' then
        match e, entry d k' with
        | _, None | DFile _, Some (DFile _) => (set_mdTree (moved k k' (mdTree d)) d, inr tt)
        | DFile _, Some DDir => fail EISDIR
        | DDir, Some (DFile _) => fail ENOTDIR
        | DDir, Some DDir =>
            if decide (filter (λ kv, under k' kv.1 = true ∧ kv.1 ≠ k') (mdTree d) = ∅)
            then (set_mdTree (moved k k' (mdTree d)) d, inr tt)
            else fail ENOTEMPTY
        end
      else fail ENOENT
  end).

Definition md_WriteAt p (off : Z) data : OSCall MemDisk unit := guarded "writeat" p (λ d,
  let k := comps p in
  match mdTree d !! k with
  | Some (DFile b) =>
      if off <? 0 then (d, inl (PathError "writeat" p EINVAL))
      else (set_mdTree (<[k := DFile (write_at (Z.to_nat off) data b)]> (mdTree d)) d, inr tt)
  | Some DDir => (d, inl (PathError "open" p EISDIR))
  | None => (d, inl (PathError "open" p ENOENT))
  end).
Definition md_CreateTemp (dir pat : string) : OSCall MemDisk string := λ d,
  let p := Join [dir; pat +:+ "0"] in
  match md_put "createtemp" p [] d with
  | (d', inr _) => (d', inr p)
  | (d', inl e) => (d', inl e)
  end.
Definition md_ReadFile p d : error + bytes :=
  match entry d (comps p) with
  | Some (DFile b) => inr b
  | Some DDir => inl (PathError "read" p EISDIR)
  | None => inl (PathError "open" p (missing d (comps p)))
  end.
Definition md_OpenRead p d : error + unit :=
  match entry d (comps p) with
  | Some _ => inr tt
  | None => inl (PathError "open" p (missing d (comps p)))
  end.
Definition md_OpenWrite p d : error + unit :=
  match entry d (comps p) with
  | Some (DFile _) => inr tt
  | Some DDir => inl (PathError "open" p EISDIR)
  | None => inl (PathError "open" p (missing d (comps p)))
  end.
Definition md_ReadAt p (off len : Z) d : error + bytes :=
  match md_ReadFile p d with
  | inr b => if off <? 0 then inl (PathError "readat" p EINVAL)
             else inr (read_at (Z.to_nat off) (Z.to_nat len) b)
  | inl e => inl e
  end.
Definition md_Stat p d : error + Z :=
  match entry d (comps p) with
  | Some (DFile b) => inr (Z.of_nat (length b))
  | Some DDir => inr 4096
  | None => inl (PathError "stat" p (missing d (comps p)))
  end.
Definition md_ReadDir p d : error + list DirEntry :=
  let k := comps p in
  match entry d k with
  | Some DDir =>
      let kids := filter (λ kv, under k kv.1 = true ∧ length kv.1 = S (length k)) (mdTree d) in
      inr ((λ kv, match kv.2 with
                  | DDir => mkDirEntry (last_or "" kv.1) true 4096
                  | DFile b => mkDirEntry (last_or "" kv.1) false (Z.of_nat (length b))
                  end) <$> map_to_list kids)
  | Some (DFile _) => inl (PathError "readdir" p ENOTDIR)
  | None => inl (PathError "open" p ENOENT)
  end.
End mem.

#[export] Instance MemDisk_OS : OS MemDisk := {|
  os_MkdirAll := md_MkdirAll;
  os_Mkdir := md_Mkdir;
  os_Create p := md_put "create" p [];
  os_Rename := md_Rename;
  os_RemoveAll := md_RemoveAll;
  os_Remove := md_Remove;
  os_WriteFile p b := md_put "writefile" p b;
  os_OpenRead := md_OpenRead;
  os_OpenWrite := md_OpenWrite;
  os_ReadAt := md_ReadAt;
  os_WriteAt := md_WriteAt;
  os_CreateTemp := md_CreateTemp;
  os_ReadFile := md_ReadFile;
  os_Stat := md_Stat;
  os_ReadDir := md_ReadDir;
  os_DiskFree _ d := mdFree d;
|}.

(** ** The executable disk satisfies the laws *)

Lemma under_app k r : under k (k ++ r) = true.
Proof. unfold under. apply bool_decide_eq_true. by rewrite take_app_length. Qed.

Lemma under_inv k k' : under k k' = true → k' = k ++ drop (length k) k'.
Proof.
  unfold under. rewrite bool_decide_eq_true. intros Hk.
  rewrite <-(take_drop (length k) k') at 1. by rewrite Hk.
Qed.

Lemma moved_lookup k k' r t : moved k k' t !! (k' ++ r) = t !! (k ++ r) ∨ t !! (k ++ r) = None.
Proof.
  unfold moved. destruct (t !! (k ++ r)) as [e|] eqn:E; [left|by right].
  apply lookup_union_Some_l. apply elem_of_list_to_map_1.
  - rewrite <-list_fmap_compose. apply NoDup_fmap_2_strong; [|apply NoDup_map_to_list].
    intros [k1 e1] [k2 e2] H1 H2. simpl. intros Heq%(inj (app k')).
    apply elem_of_map_to_list, map_lookup_filter_Some in H1 as [Hl1 Hu1%under_inv].
    apply elem_of_map_to_list, map_lookup_filter_Some in H2 as [Hl2 Hu2%under_inv].
    simpl in *. assert (k1 = k2) as -> by congruence. congruence.
  - apply list_elem_of_fmap. exists (k ++ r, e). simpl. rewrite drop_app_length.
    split; [done|]. apply elem_of_map_to_list, map_lookup_filter_Some. split; [done|].
    apply under_app.
Qed.

#[export] Instance MemDisk_laws : DiskLaws MemDisk.
Proof.
  constructor; simpl.
  - intros p b d d'. unfold md_put, guarded, md_ReadFile.
    destruct (contains _ _); [done|]. destruct (comps p) as [|c cs]; [done|].
    destruct (entry d (c :: cs)) as [[]|]; try done; (destruct (parent_is_dir _ _); [|done]);
      intros [= <-]; simpl; by rewrite lookup_insert_eq.
  - intros p q b d d'. unfold md_Rename, guarded, md_ReadFile.
    destruct (contains _ _); [done|].
    destruct (comps p) as [|c cs] eqn:Hp; [by intros|]. simpl. intros Hrun Hread.
    destruct (mdTree d !! (c :: cs)) as [[|b']|] eqn:E; simplify_eq/=.
    case_decide as Heq; simplify_eq/=; [by rewrite <-Heq; simpl; rewrite E|].
    destruct (under _ _); [done|]. destruct (parent_is_dir _ _); [|done].
    assert (comps q ≠ []) as Hq by (intros Hq; rewrite Hq in Hrun; done).
    assert (d' = set_mdTree (moved (c :: cs) (comps q) (mdTree d)) d) as ->.
    { by destruct (entry d (comps q)) as [[|]|]; simplify_eq. }
    destruct (moved_lookup (c :: cs) (comps q) [] (mdTree d)) as [Hm|Hm];
      rewrite ?app_nil_r in Hm; [|congruence].
    destruct (comps q) as [|c' cs']; [done|]. simpl. by rewrite Hm, E.
  - intros p q b d Hne. unfold md_Remove, guarded, md_ReadFile.
    destruct (comps q) as [|c cs]; [done|].
    repeat case_match; simplify_eq/=; intros; simplify_eq/=; try done;
      rewrite lookup_delete_ne in * by done; simplify_eq; done.
  - intros p off data b d d'. unfold md_WriteAt, guarded, md_ReadFile.
    destruct (contains _ _); [done|]. destruct (comps p) as [|c cs]; [done|]. simpl.
    destruct (mdTree d !! (c :: cs)) as [[|b']|] eqn:E; try done.
    destruct (Z.ltb_spec off 0); [done|]. intros [= <-] [= ->]. simpl.
    by rewrite lookup_insert_eq.
  - intros p off len b d Hoff. unfold md_ReadAt. intros ->.
    by destruct (Z.ltb_spec off 0); [lia|].
  - intros p b d. unfold md_ReadFile, md_OpenRead. by destruct (entry d _).
  - intros p b d. unfold md_ReadFile, md_Stat. repeat case_match; intros; by simplify_eq.
Qed.
