(* ===== verification/InodeStore.v ===== *)
(** * The persistent path-to-inode-id index

    Models [internal/fileserver/inodestore.go].  The index maps normalised
    relative paths to ids; ids are handed out by a counter that never goes back.
    [RenamePrefix] ranges over a Go map that it edits, so its model takes the
    order in which the keys are produced. *)
From S2P Require Import Prelude GoStd Disk.
From Stdlib Require Import Strings.Byte.

Definition inodeIndexFilename : string := ".dvfs_inodes_index.json".

Record InodeIndexData := mkIndex {
  NextInodeID : Z;
  PathToID : gmap string Z;
}.

#[export] Instance InodeIndexData_eq_dec : EqDecision InodeIndexData.
Proof. solve_decision. Defined.
#[export] Program Instance InodeIndexData_countable : Countable InodeIndexData :=
  inj_countable' (λ d, (NextInodeID d, PathToID d)) (λ '(n, m), mkIndex n m) _.
Next Obligation. by intros []. Qed.

Record InodeStore := mkInodeStore {
  isRootDir : string;
  indexPath : string;
  isData : InodeIndexData;
}.

Definition set_isData d s := mkInodeStore (isRootDir s) (indexPath s) d.

(** [normalizePath] *)
Definition normalizePath (p : string) : string :=
  let p := ReplaceAll backslash slash p in
  let clean := Clean p in
  let clean := TrimPrefix clean "./" in
  TrimPrefix clean "/".

(** ** Operations on the index *)

Definition GetOrAssign (relPath : string) (s : InodeStore) : InodeStore * Z :=
  let norm := normalizePath relPath in
  let d := isData s in
  match PathToID d !! norm with
  | Some id => (s, id)
  | None =>
      let id := NextInodeID d in
      (set_isData (mkIndex (u64 (id + 1)) (<[norm := id]> (PathToID d))) s, id)
  end.

Definition Get (relPath : string) (s : InodeStore) : option Z :=
  PathToID (isData s) !! normalizePath relPath.

Definition Remove (relPath : string) (s : InodeStore) : InodeStore :=
  let d := isData s in
  set_isData (mkIndex (NextInodeID d) (delete (normalizePath relPath) (PathToID d))) s.

(** The body of the loop of [RenamePrefix], at a key the range produces.  A key
    deleted before it is reached is not produced. *)
Definition rename_visit (normOld normNew : string) (m : gmap string Z) (path : string) :
    gmap string Z :=
  match m !! path with
  | None => m
  | Some id =>
      let oldPrefixSlash := normOld +:+ "/" in
      if decide (path = normOld) then <[normNew := id]> (delete path m)
      else if HasPrefix path oldPrefixSlash then
        <[normNew +:+ "/" +:+ TrimPrefix path oldPrefixSlash := id]> (delete path m)
      else m
  end.

Definition rename_keys (normOld normNew : string) (order : list string) (m : gmap string Z) :=
  foldl (rename_visit normOld normNew) m order.

(** [RenamePrefix], the keys produced in [order]. *)
Definition RenamePrefix_in (order : list string) (oldPrefix newPrefix : string)
    (s : InodeStore) : InodeStore :=
  let normOld := normalizePath oldPrefix in
  let normNew := normalizePath newPrefix in
  if decide (normOld = "" ∨ normNew = "" ∨ normOld = normNew) then s
  else
    let d := isData s in
    set_isData (mkIndex (NextInodeID d) (rename_keys normOld normNew order (PathToID d))) s.

(** One order a range may take. *)
Definition key_order (s : InodeStore) : list string := (map_to_list (PathToID (isData s))).*1.
Definition RenamePrefix (oldPrefix newPrefix : string) (s : InodeStore) : InodeStore :=
  RenamePrefix_in (key_order s) oldPrefix newPrefix s.

(** ** Persistence *)

Section persistence.
Context {D : Type} `{OS D} `{Json InodeIndexData}.

(** The steps of [Save], in order: the temporary file, the removal of the
    index, the rename. *)
Definition Save (s : InodeStore) : OSCall D unit := λ d,
  let tmpPath := indexPath s +:+ ".tmp" in
  match os_WriteFile tmpPath (marshal (isData s)) d with
  | (d1, inl e) => (d1, inl e)
  | (d1, inr _) =>
      let d2 := (os_Remove (indexPath s) d1).1 in
      os_Rename tmpPath (indexPath s) d2
  end.

Definition is_space (b : Byte.byte) : bool :=
  match b with x09 | x0a | x0b | x0c | x0d | x20 => true | _ => false end.

(** [load]: an unreadable document is discarded, an unreadable file is an error. *)
Definition load (d : D) (s : InodeStore) : error + InodeStore :=
  match os_ReadFile (indexPath s) d with
  | inl e => if os_IsNotExist e then inr s else inl e
  | inr b =>
      if forallb is_space b then inr s
      else match unmarshal b with
           | None => inr s
           | Some data => inr (set_isData data s)
           end
  end.

Definition NewInodeStore (rootDir : string) (d : D) : error + InodeStore :=
  load d (mkInodeStore rootDir (Join [rootDir; inodeIndexFilename]) (mkIndex 0 ∅)).
End persistence.

(** ** Ids are unique and never handed out twice *)

Record index_wf (d : InodeIndexData) : Prop := {
  wf_next : 0 ≤ NextInodeID d;
  wf_range p id : PathToID d !! p = Some id → 0 ≤ id < NextInodeID d;
  wf_inj p q id : PathToID d !! p = Some id → PathToID d !! q = Some id → p = q;
}.

Lemma index_wf_empty : index_wf (mkIndex 0 ∅).
Proof. split; [done| |]; intros; simplify_map_eq. Qed.

Lemma GetOrAssign_known p s id :
  Get p s = Some id → GetOrAssign p s = (s, id).
Proof. unfold Get, GetOrAssign. by intros ->. Qed.

Lemma GetOrAssign_new p s :
  Get p s = None → NextInodeID (isData s) + 1 < two64 → 0 ≤ NextInodeID (isData s) →
  GetOrAssign p s =
    (set_isData (mkIndex (NextInodeID (isData s) + 1)
       (<[normalizePath p := NextInodeID (isData s)]> (PathToID (isData s)))) s,
     NextInodeID (isData s)).
Proof.
  unfold Get, GetOrAssign. intros -> ??. rewrite u64_small; [done|split; lia].
Qed.

Lemma GetOrAssign_Get p s : Get p (GetOrAssign p s).1 = Some (GetOrAssign p s).2.
Proof.
  unfold Get, GetOrAssign.
  destruct (PathToID (isData s) !! normalizePath p) eqn:E; simpl; [exact E|].
  apply lookup_insert_eq.
Qed.

Lemma GetOrAssign_other p q s :
  normalizePath p ≠ normalizePath q → Get q (GetOrAssign p s).1 = Get q s.
Proof.
  unfold Get, GetOrAssign. intros Hpq.
  destruct (PathToID (isData s) !! normalizePath p) eqn:E; simpl; [done|].
  by apply lookup_insert_ne.
Qed.

Lemma GetOrAssign_wf p s :
  NextInodeID (isData s) + 1 < two64 → index_wf (isData s) →
  index_wf (isData (GetOrAssign p s).1).
Proof.
  intros Hlt Hwf. destruct (Get p s) as [id|] eqn:Hg; [by rewrite (GetOrAssign_known p s id)|].
  rewrite GetOrAssign_new by (done || apply Hwf). unfold Get in Hg.
  destruct Hwf as [Hn Hr Hi]. split; simpl; [lia| |].
  - intros q id [[_ <-]|[_ Hq]]%lookup_insert_Some; [lia|]. apply Hr in Hq. lia.
  - intros q r id [[<- <-]|[? Hq]]%lookup_insert_Some
      [[<- Hr']|[? Hr']]%lookup_insert_Some; [done| | |eauto].
    + apply Hr in Hr'. lia.
    + apply Hr in Hq. lia.
Qed.

Lemma Remove_wf p s : index_wf (isData s) → index_wf (isData (Remove p s)).
Proof.
  intros [Hn Hr Hi]. split; simpl; [done| |]; setoid_rewrite lookup_delete_Some; naive_solver.
Qed.

(** A removed path, or any other path without an id, gets an id that no path had. *)
Lemma GetOrAssign_fresh p q s id :
  index_wf (isData s) → NextInodeID (isData s) + 1 < two64 →
  Get p s = None → Get q s = Some id → (GetOrAssign p s).2 ≠ id.
Proof.
  intros Hwf ? Hp Hq. rewrite GetOrAssign_new by (done || apply Hwf). simpl.
  apply (wf_range _ Hwf) in Hq. lia.
Qed.

(** ** Renaming a prefix *)

Section rename.
Context (old new : string).

(** Where an entry goes, if it is moved. *)
Definition move_key (p : string) : option string :=
  if decide (p = old) then Some new
  else if HasPrefix p (old +:+ "/") then
    Some (new +:+ "/" +:+ TrimPrefix p (old +:+ "/"))
  else None.

Lemma rename_visit_eq m p :
  rename_visit old new m p =
  match m !! p, move_key p with
  | Some id, Some p' => <[p' := id]> (delete p m)
  | _, _ => m
  end.
Proof.
  unfold rename_visit, move_key. destruct (m !! p); [|done].
  case_decide; [done|]. by destruct (HasPrefix _ _).
Qed.

Lemma move_key_within p : is_Some (move_key p) ↔ within old p.
Proof.
  rewrite within_spec. unfold move_key. case_decide; [naive_solver|].
  destruct (HasPrefix _ _); [naive_solver|]. split; [by intros []|naive_solver].
Qed.

Lemma move_key_target p p' : move_key p = Some p' → within new p'.
Proof.
  unfold move_key. case_decide; intros; simplify_eq; [apply within_refl|].
  destruct (HasPrefix _ _); simplify_eq. apply within_below.
Qed.

Lemma move_key_app s : move_key (old +:+ "/" +:+ s) = Some (new +:+ "/" +:+ s).
Proof.
  unfold move_key. rewrite decide_False.
  - by rewrite <-(string_app_assoc old "/" s), HasPrefix_app, TrimPrefix_app.
  - apply string_app_slash_ne.
Qed.

Lemma move_key_Some p r :
  move_key p = Some r →
  (p = old ∧ r = new) ∨ ∃ s, p = old +:+ "/" +:+ s ∧ r = new +:+ "/" +:+ s.
Proof.
  unfold move_key. destruct (decide (p = old)) as [->|_]; [intros [= <-]; by left|].
  destruct (HasPrefix p (old +:+ "/")) eqn:Hp; [|done].
  apply HasPrefix_spec in Hp as [s ->]. rewrite TrimPrefix_app. intros [= <-].
  right. exists s. by rewrite string_app_assoc.
Qed.

Lemma move_key_inj p q r : move_key p = Some r → move_key q = Some r → p = q.
Proof.
  intros [[-> ->]|(s & -> & ->)]%move_key_Some [[-> Hr]|(s' & -> & Hr)]%move_key_Some.
  - done.
  - by edestruct string_app_slash_ne.
  - by edestruct string_app_slash_ne.
  - apply string_app_inj_l, string_app_inj_l in Hr. by rewrite Hr.
Qed.

Hypothesis Hon : ¬ within old new.
Hypothesis Hno : ¬ within new old.

(** No destination is itself moved. *)
Lemma move_key_disjoint p p' : move_key p = Some p' → move_key p' = None.
Proof.
  intros Hp%move_key_target. destruct (move_key p') eqn:E; [|done].
  assert (within old p') as Ho by (apply move_key_within; eauto).
  by destruct (within_total _ _ _ Ho Hp).
Qed.

(** The index after the keys of [V] have been visited. *)
Definition visited (V : list string) (m m' : gmap string Z) : Prop :=
  ∀ p, match move_key p with
       | Some p' =>
           m' !! p = (if decide (p ∈ V) then None else m !! p)
           ∧ m' !! p' = (if decide (p ∈ V) then m !! p ∪ m !! p' else m !! p')
       | None => (∀ q, move_key q ≠ Some p) → m' !! p = m !! p
       end.

Lemma decide_snoc {A} (q p : string) V (x y : A) :
  q ≠ p → (if decide (q ∈ V ++ [p]) then x else y) = (if decide (q ∈ V) then x else y).
Proof.
  intros Hqp. assert (q ∈ V ++ [p] ↔ q ∈ V) as Hiff.
  { rewrite elem_of_app, list_elem_of_singleton. naive_solver. }
  by destruct (decide (q ∈ V)), (decide (q ∈ V ++ [p])); naive_solver.
Qed.

(** A visit of an entry that moves, seen from any other entry. *)
Lemma rename_visit_ne m p p' q :
  move_key p = Some p' → q ≠ p → q ≠ p' → rename_visit old new m p !! q = m !! q.
Proof.
  intros Hp ??. rewrite rename_visit_eq, Hp. destruct (m !! p); [|done].
  by rewrite lookup_insert_ne, lookup_delete_ne by done.
Qed.

Lemma visited_step V m m' p :
  p ∉ V → visited V m m' → visited (V ++ [p]) m (rename_visit old new m' p).
Proof.
  intros HpV Hv q. destruct (move_key p) as [p'|] eqn:Hp.
  2:{ assert (rename_visit old new m' p = m') as ->.
      { rewrite rename_visit_eq, Hp. by case_match. }
      specialize (Hv q). destruct (move_key q) as [q'|] eqn:Hq; [|done].
      by rewrite !decide_snoc by congruence. }
  pose proof (Hv p) as Hvp. rewrite Hp in Hvp. destruct Hvp as [Hmp Hmp'].
  rewrite decide_False in Hmp, Hmp' by done.
  pose proof (move_key_disjoint _ _ Hp) as Hdis.
  assert (p' ≠ p) as Hpp' by congruence.
  specialize (Hv q). destruct (decide (q = p)) as [->|Hqp].
  - assert (p ∈ V ++ [p]) by (apply elem_of_app; right; by apply list_elem_of_singleton).
    rewrite Hp, !decide_True by done. rewrite rename_visit_eq, Hp, Hmp.
    destruct (m !! p) as [id|] eqn:E.
    + rewrite lookup_insert_ne, lookup_delete_eq, lookup_insert_eq by done.
      by destruct (m !! p').
    + rewrite Hmp, Hmp'. by destruct (m !! p').
  - destruct (move_key q) as [q'|] eqn:Hq.
    + assert (q' ≠ p') as Hqp' by (intros ->; eauto using move_key_inj).
      pose proof (move_key_disjoint _ _ Hq) as Hdq.
      rewrite !decide_snoc, !(rename_visit_ne _ p p') by congruence. done.
    + intros Hno'. rewrite (rename_visit_ne _ p p') by congruence. by apply Hv.
Qed.

Lemma rename_keys_visited order m : NoDup order → visited order m (rename_keys old new order m).
Proof.
  induction order as [|p order IH] using rev_ind; intros Hnd.
  { intros p. by destruct (move_key p). }
  apply NoDup_app in Hnd as (Hnd & Hdis & _). unfold rename_keys. rewrite foldl_app.
  apply visited_step; [set_solver|]. by apply IH.
Qed.

(** Whatever order the range takes (repeats aside), every entry at or below
    [old] ends below [new] with its id, and nothing else moves. *)
Lemma rename_keys_spec order m p :
  NoDup order → (∀ q, is_Some (m !! q) → q ∈ order) →
  let m' := rename_keys old new order m in
  match move_key p with
  | Some p' => m' !! p = None ∧ m' !! p' = m !! p ∪ m !! p'
  | None => (∀ q, move_key q ≠ Some p) → m' !! p = m !! p
  end.
Proof.
  intros Hnd Hall. pose proof (rename_keys_visited order m Hnd p) as Hv. simpl.
  destruct (move_key p) as [p'|]; [|done].
  case_decide as Hp; [done|]. destruct (m !! p) eqn:E; [exfalso; eauto|].
  by rewrite (left_id_L None (∪)).
Qed.
End rename.

(** ** The operation on the index *)

Lemma key_order_NoDup s : NoDup (key_order s).
Proof. apply NoDup_fst_map_to_list. Qed.

Lemma key_order_all s q : is_Some (PathToID (isData s) !! q) → q ∈ key_order s.
Proof.
  intros [id Hq]. unfold key_order. apply list_elem_of_fmap. exists (q, id).
  by rewrite elem_of_map_to_list.
Qed.

Lemma rename_visit_inv old new (P : gmap string Z → Prop) order m :
  P m → (∀ m p, P m → P (rename_visit old new m p)) → P (rename_keys old new order m).
Proof. intros Hm Hstep. revert m Hm. induction order; simpl; eauto. Qed.

(** Renaming never invents or duplicates an id, destinations that exist included. *)
Lemma rename_visit_wf old new m n p :
  index_wf (mkIndex n m) → index_wf (mkIndex n (rename_visit old new m p)).
Proof.
  intros [Hn Hr Hi]; simpl in *. rewrite rename_visit_eq.
  destruct (m !! p) as [id|] eqn:Hp; [|by split].
  destruct (move_key old new p) as [p'|]; [|by split].
  split; simpl; [done| |].
  - intros q id' [[_ <-]|[_ [_ Hq]%lookup_delete_Some]]%lookup_insert_Some; eauto.
  - intros q r id' [[<- <-]|[? [? Hq]%lookup_delete_Some]]%lookup_insert_Some
      [[<- Hr']|[? [? Hr']%lookup_delete_Some]]%lookup_insert_Some; [done| | |eauto].
    + exfalso. eauto.
    + subst. exfalso. eauto.
Qed.

Lemma RenamePrefix_in_wf order old new s :
  index_wf (isData s) → index_wf (isData (RenamePrefix_in order old new s)).
Proof.
  intros Hwf. unfold RenamePrefix_in. case_decide; [done|]. simpl.
  apply (rename_visit_inv _ _ (λ m, index_wf (mkIndex (NextInodeID (isData s)) m))).
  - by destruct (isData s).
  - intros. by apply rename_visit_wf.
Qed.

#[export] Hint Resolve GetOrAssign_wf Remove_wf RenamePrefix_in_wf : dvfs.

(** ** Save and load *)

Lemma comps_tmp_ne (p q : string) : comps p ≠ comps q → p ≠ q.
Proof. by intros Hne ->. Qed.

Section save_load.
Context {D : Type} `{DiskLaws D} `{JsonLaws InodeIndexData}.

(** After a successful [Save], [load] gives back the saved index. *)
Lemma load_Save s s0 d d' :
  Save s d = (d', inr tt) → indexPath s0 = indexPath s →
  comps (indexPath s +:+ ".tmp") ≠ comps (indexPath s) →
  forallb is_space (marshal (isData s)) = false →
  load d' s0 = inr (set_isData (isData s) s0).
Proof.
  unfold Save. intros Hs Hp Hne Hsp.
  destruct (os_WriteFile _ _ d) as [d1 [e|[]]] eqn:Hw; [done|].
  apply read_WriteFile in Hw.
  apply (read_Remove_other (indexPath s)) in Hw; [|done].
  eapply read_Rename in Hs; [|exact Hw].
  unfold load. by rewrite Hp, Hs, Hsp, unmarshal_marshal.
Qed.
End save_load.
