(* ===== verification/Session.v ===== *)
(** * The session store

    Models [internal/fileserver/session/]: sessions indexed by the hash of their
    token, the per-user list of hashes (oldest first) and the client index, with
    creation under the per-user and global caps, validation, revocation and the
    sweep of expired sessions.  Times are nanoseconds, 0 being Go's zero time; the
    clock reading of a call is an argument.  The hash of a token (SHA-256) is a
    parameter.  The mutex makes each call one step, except that [ValidateSession]
    releases it between its read and its touch, which are two definitions. *)
From S2P Require Import Prelude GoStd.

(** ** Host and port of a peer address *)

Definition colon : ascii := ":".
Definition lbracket : ascii := "[".
Definition rbracket : ascii := "]".

(** [net.SplitHostPort] *)
Definition SplitHostPort (hostport : string) : option (string * string) :=
  match rev (Split colon hostport) with
  | port :: ((_ :: _) as before) =>
      let host := SJoin colon (rev before) in
      if HasPrefix hostport "[" then
        match Split rbracket hostport with
        | open :: ((_ :: _) as after) =>
            let tl := SJoin rbracket after in
            if decide (tl = String colon port) then
              let inner := drop_bytes 1 open in
              if Contains inner lbracket || Contains port lbracket || Contains port rbracket
              then None else Some (inner, port)
            else None
        | _ => None
        end
      else if Contains host colon || Contains hostport lbracket || Contains hostport rbracket
      then None
      else Some (host, port)
  | _ => None
  end.

Fixpoint trim_left (cut : list ascii) (s : string) : string :=
  match s with
  | String a s' => if decide (a ∈ cut) then trim_left cut s' else s
  | EmptyString => s
  end.
Definition string_rev (s : string) : string :=
  Stdlib.Strings.String.string_of_list_ascii
    (rev (Stdlib.Strings.String.list_ascii_of_string s)).
(** [strings.Trim] *)
Definition Trim (cut : list ascii) (s : string) : string :=
  string_rev (trim_left cut (string_rev (trim_left cut s))).
(** [strings.TrimSpace], on ASCII. *)
Definition TrimSpace (s : string) : string :=
  Trim [" "%char; "009"%char; "010"%char; "011"%char; "012"%char; "013"%char] s.

Definition extractIP (addr : string) : string :=
  if decide (addr = "") then ""
  else match SplitHostPort addr with
       | Some (host, _) => host
       | None => Trim [lbracket; rbracket] addr
       end.

Example extractIP_ex :
  map extractIP ["10.0.0.1:80"; "[::1]:443"; "10.0.0.1"; "[::1]"; ""; "a:b:c"]
  = ["10.0.0.1"; "::1"; "10.0.0.1"; "::1"; ""; "a:b:c"].
Proof. reflexivity. Qed.

(** ** State *)

Record Session := mkSession {
  HashID : string;
  Username : string;
  ClientID : string;
  ClientIP : string;
  CallbackAddr : string;
  sRootFID : string;
  CreatedAt : Z;
  LastSeenAt : Z;
  AbsoluteExp : Z;
}.

Definition IsExpired (s : Session) (now idleTTL : Z) : bool :=
  (negb (AbsoluteExp s =? 0) && (AbsoluteExp s <? now)) || (idleTTL <? now - LastSeenAt s).

Definition Touch (now : Z) (s : Session) : Session :=
  mkSession (HashID s) (Username s) (ClientID s) (ClientIP s) (CallbackAddr s) (sRootFID s)
    (CreatedAt s) now (AbsoluteExp s).

Definition second : Z := 1000000000.
Definition DefaultIdleTTL : Z := 15 * 60 * second.
Definition MaxSessionsPerUser : Z := 5.
Definition MaxGlobalSessions : Z := 10000.

Record Store := mkStore {
  sessions : gmap string Session;
  userSessions : gmap string (list string);
  clientIndex : gmap string string;
  idleTTL : Z;
  perUserLimit : Z;
  globalLimit : Z;
}.

Definition set_sessions m s :=
  mkStore m (userSessions s) (clientIndex s) (idleTTL s) (perUserLimit s) (globalLimit s).
Definition set_userSessions m s :=
  mkStore (sessions s) m (clientIndex s) (idleTTL s) (perUserLimit s) (globalLimit s).
Definition set_clientIndex m s :=
  mkStore (sessions s) (userSessions s) m (idleTTL s) (perUserLimit s) (globalLimit s).

Definition NewStore (ttl : Z) : Store :=
  mkStore ∅ ∅ ∅ (if ttl <=? 0 then DefaultIdleTTL else ttl) MaxSessionsPerUser MaxGlobalSessions.

Definition ErrSessionNotFound := Errorf "session not found" [].
Definition ErrSessionExpired := Errorf "session expired" [].
Definition ErrIPMismatch :=
  Errorf "session transport binding mismatch (IP address differs)" [].
Definition ErrGlobalLimitExceeded :=
  Errorf "global session capacity reached (system saturated)" [].

(** [s.userSessions[username]] is the empty slice for an unknown user. *)
Definition user_hashes (s : Store) (u : string) : list string :=
  default [] (userSessions s !! u).

Definition removeFromUserSliceLocked (username hashID : string) (s : Store) : Store :=
  match userSessions s !! username with
  | None => s
  | Some hashes =>
      let newHashes := without hashes hashID in
      set_userSessions
        (if decide (newHashes = []) then delete username (userSessions s)
         else <[username := newHashes]> (userSessions s)) s
  end.

(** One iteration of the second loop of [purgeExpiredLocked]. *)
Definition purge_one (s : Store) (hashID : string) : Store :=
  match sessions s !! hashID with
  | None => s
  | Some sess =>
      removeFromUserSliceLocked (Username sess) hashID
        (set_clientIndex (delete (ClientID sess) (clientIndex s))
           (set_sessions (delete hashID (sessions s)) s))
  end.

Definition expiredHashes (now : Z) (s : Store) : list string :=
  (map_to_list (filter (λ kv, IsExpired kv.2 now (idleTTL s) = true) (sessions s))).*1.

Definition purgeExpiredLocked (now : Z) (s : Store) : Store :=
  foldl purge_one s (expiredHashes now s).

Definition Sweep (now : Z) (s : Store) : Store := purgeExpiredLocked now s.

(** The first step of [CreateSession]. *)
Definition make_room (now : Z) (s : Store) : Store :=
  if globalLimit s <=? Z.of_nat (size (sessions s)) then purgeExpiredLocked now s else s.

(** The FIFO eviction of [CreateSession]. *)
Definition evict_oldest (username : string) (s : Store) : Store :=
  let userHashes := user_hashes s username in
  match userHashes with
  | oldestHash :: rest =>
      if perUserLimit s <=? Z.of_nat (length userHashes) then
        let s1 := match sessions s !! oldestHash with
                  | Some oldSess => set_clientIndex (delete (ClientID oldSess) (clientIndex s)) s
                  | None => s
                  end in
        set_userSessions (<[username := rest]> (userSessions s1))
          (set_sessions (delete oldestHash (sessions s1)) s1)
      else s
  | [] => s
  end.

(** The removal of a previous session of the same client. *)
Definition drop_previous (username clientID : string) (s : Store) : Store :=
  match clientIndex s !! clientID with
  | Some prevHash =>
      removeFromUserSliceLocked username prevHash
        (set_sessions (delete prevHash (sessions s)) s)
  | None => s
  end.

Definition add_session (sess : Session) (s : Store) : Store :=
  let s1 := set_userSessions
              (<[Username sess := user_hashes s (Username sess) ++ [HashID sess]]> (userSessions s))
              (set_sessions (<[HashID sess := sess]> (sessions s)) s) in
  if decide (ClientID sess = "") then s1
  else set_clientIndex (<[ClientID sess := HashID sess]> (clientIndex s1)) s1.

Section store.
(** SHA-256 of the token, in hexadecimal. *)
Context (HashSST : string → string).

Definition CreateSession (rawSST username clientID peerAddr callbackAddr rootFID : string)
    (absoluteExp now : Z) : M Store Session := λ s,
  if decide (rawSST = "" ∨ username = "") then
    (s, Err (Errorf "invalid session creation arguments" []))
  else
    let hashID := HashSST rawSST in
    let s1 := make_room now s in
    if globalLimit s <=? Z.of_nat (size (sessions s1)) then (s1, Err ErrGlobalLimitExceeded)
    else
      let s2 := drop_previous username clientID (evict_oldest username s1) in
      let sess := mkSession hashID username clientID (extractIP peerAddr) callbackAddr rootFID
                    now now absoluteExp in
      (add_session sess s2, Ok sess).

(** [ValidateSession] up to the release of the read lock. *)
Definition validate_read (rawSST currentPeerAddr : string) (now : Z) (s : Store) : res Session :=
  if decide (rawSST = "") then Err ErrSessionNotFound
  else
    let currentIP := extractIP currentPeerAddr in
    match sessions s !! HashSST rawSST with
    | None => Err ErrSessionNotFound
    | Some sess =>
        if IsExpired sess now (idleTTL s) then Err ErrSessionExpired
        else if decide (ClientIP sess ≠ "" ∧ currentIP ≠ "" ∧ ClientIP sess ≠ currentIP)
        then Err ErrIPMismatch
        else Ok sess
    end.

(** Its second critical section: refresh the session if it is still there. *)
Definition validate_touch (rawSST : string) (now : Z) (s : Store) : Store :=
  set_sessions (alter (Touch now) (HashSST rawSST) (sessions s)) s.

(** The whole call when nothing runs in between.  An expired session is
    revoked by a goroutine of its own: see [RevokeSession]. *)
Definition ValidateSession (rawSST currentPeerAddr : string) (now : Z) : M Store Session := λ s,
  match validate_read rawSST currentPeerAddr now s with
  | Ok sess => (validate_touch rawSST now s, Ok (Touch now sess))
  | r => (s, r)
  end.

Definition RevokeSession (rawSST : string) (s : Store) : Store :=
  let hashID := HashSST rawSST in
  match sessions s !! hashID with
  | None => s
  | Some sess =>
      removeFromUserSliceLocked (Username sess) hashID
        (set_clientIndex (delete (ClientID sess) (clientIndex s))
           (set_sessions (delete hashID (sessions s)) s))
  end.
End store.

Definition GetSessionByClientID (clientID : string) (now : Z) (s : Store) : option Session :=
  hashID ← clientIndex s !! clientID;
  sess ← sessions s !! hashID;
  if IsExpired sess now (idleTTL s) then None else Some sess.

Definition RevokeByClientID (clientID : string) (s : Store) : Store :=
  match clientIndex s !! clientID with
  | None => s
  | Some hashID =>
      let s1 := set_sessions (delete hashID (sessions s))
                  (set_clientIndex (delete clientID (clientIndex s)) s) in
      match sessions s !! hashID with
      | Some sess => removeFromUserSliceLocked (Username sess) hashID s1
      | None => s1
      end
  end.

(** The loop body of [RevokeAllForUser]. *)
Definition revoke_hash (s : Store) (h : string) : Store :=
  let s1 := match sessions s !! h with
            | Some sess => set_clientIndex (delete (ClientID sess) (clientIndex s)) s
            | None => s
            end in
  set_sessions (delete h (sessions s1)) s1.

Definition RevokeAllForUser (username : string) (s : Store) : Store :=
  match userSessions s !! username with
  | None => s
  | Some hashes =>
      let s1 := foldl revoke_hash s hashes in
      set_userSessions (delete username (userSessions s1)) s1
  end.

Definition ActiveCount (s : Store) : nat := size (sessions s).

(** ** Well-formed stores

    The client index and the sessions agree, every session is in the slice of
    its user and in no other, and both caps hold.  A slice may also list hashes of
    sessions that are gone. *)

Record store_wf (s : Store) : Prop := {
  w_limit : 1 ≤ perUserLimit s;
  w_hash h x : sessions s !! h = Some x → HashID x = h;
  w_user h x : sessions s !! h = Some x → h ∈ user_hashes s (Username x);
  w_owner u h x : h ∈ user_hashes s u → sessions s !! h = Some x → Username x = u;
  w_index c h : clientIndex s !! c = Some h →
    c ≠ "" ∧ ∃ x, sessions s !! h = Some x ∧ ClientID x = c;
  w_client h x : sessions s !! h = Some x → ClientID x ≠ "" →
    clientIndex s !! ClientID x = Some h;
  w_len u : Z.of_nat (length (user_hashes s u)) ≤ perUserLimit s;
  w_size : Z.of_nat (size (sessions s)) ≤ globalLimit s;
}.

Lemma NewStore_wf ttl : store_wf (NewStore ttl).
Proof.
  split; simpl; try done; unfold user_hashes; simpl; intros;
    try (rewrite lookup_empty in *; done).
Qed.

Lemma user_hashes_remove u h s v :
  user_hashes (removeFromUserSliceLocked u h s) v
  = if decide (v = u) then without (user_hashes s u) h else user_hashes s v.
Proof.
  unfold removeFromUserSliceLocked, user_hashes.
  destruct (userSessions s !! u) as [l|] eqn:E; simpl.
  2:{ case_decide; subst; [by rewrite E|done]. }
  destruct (decide (without l h = [])) as [Hnil|Hnil]; simpl; case_decide; subst.
  - by rewrite lookup_delete_eq, Hnil.
  - by rewrite lookup_delete_ne.
  - by rewrite lookup_insert_eq.
  - by rewrite lookup_insert_ne.
Qed.

Lemma removeFromUserSlice_fields u h s :
  let s' := removeFromUserSliceLocked u h s in
  sessions s' = sessions s ∧ clientIndex s' = clientIndex s ∧ idleTTL s' = idleTTL s
  ∧ perUserLimit s' = perUserLimit s ∧ globalLimit s' = globalLimit s.
Proof. unfold removeFromUserSliceLocked. by destruct (userSessions s !! u). Qed.

Lemma length_without l h : (length (without l h) ≤ length l)%nat.
Proof. apply length_filter. Qed.

(** Removing a session with its index entry and slice entry. *)
Definition remove_session (h : string) (x : Session) (s : Store) : Store :=
  removeFromUserSliceLocked (Username x) h
    (set_clientIndex (delete (ClientID x) (clientIndex s))
       (set_sessions (delete h (sessions s)) s)).

Lemma remove_session_fields h x s :
  let s' := remove_session h x s in
  sessions s' = delete h (sessions s)
  ∧ clientIndex s' = delete (ClientID x) (clientIndex s) ∧ idleTTL s' = idleTTL s
  ∧ perUserLimit s' = perUserLimit s ∧ globalLimit s' = globalLimit s.
Proof.
  unfold remove_session. edestruct removeFromUserSlice_fields as (->&->&->&->&->). done.
Qed.

Lemma size_delete_le {A} (m : gmap string A) h : (size (delete h m) ≤ size m)%nat.
Proof. rewrite map_size_delete. destruct (m !! h); simpl; lia. Qed.

Lemma remove_session_wf h x s :
  store_wf s → sessions s !! h = Some x → store_wf (remove_session h x s).
Proof.
  intros Hwf Hx. destruct (remove_session_fields h x s) as (Hs&Hc&_&Hp&Hg).
  assert (∀ v, user_hashes (remove_session h x s) v
    = if decide (v = Username x) then without (user_hashes s v) h else user_hashes s v) as Hu.
  { intros v. unfold remove_session. rewrite user_hashes_remove. by case_decide; subst. }
  split; rewrite ?Hs, ?Hc, ?Hp, ?Hg.
  - apply Hwf.
  - intros h' x' [_ Hx']%lookup_delete_Some. by apply (w_hash s).
  - intros h' x' [Hne Hx']%lookup_delete_Some. rewrite Hu.
    apply (w_user s) in Hx'; [|done]. case_decide; [|done]. by apply without_elem.
  - intros u h' x' Hin [Hne Hx']%lookup_delete_Some. rewrite Hu in Hin.
    apply (w_owner s Hwf u h' x'); [|done]. case_decide; [|done]. by apply without_elem in Hin as [_ ?].
  - intros c h' [Hne Hi]%lookup_delete_Some.
    destruct (w_index s Hwf c h' Hi) as [? (x' & Hx' & <-)]. split; [done|].
    exists x'. rewrite lookup_delete_ne; [done|]. intros <-. congruence.
  - intros h' x' [Hne Hx']%lookup_delete_Some Hc'.
    pose proof (w_client s Hwf h' x' Hx' Hc') as Hi.
    rewrite lookup_delete_ne; [done|]. intros Heq. rewrite <-Heq in Hi, Hc'.
    rewrite (w_client s Hwf h x Hx Hc') in Hi. congruence.
  - intros u. rewrite Hu. pose proof (w_len s Hwf u).
    case_decide; [|done]. pose proof (length_without (user_hashes s u) h). lia.
  - pose proof (w_size s Hwf). pose proof (size_delete_le (sessions s) h). lia.
Qed.

Lemma purge_one_eq s h :
  purge_one s h = match sessions s !! h with Some x => remove_session h x s | None => s end.
Proof. done. Qed.

Lemma purge_one_wf s h : store_wf s → store_wf (purge_one s h).
Proof.
  intros Hwf. rewrite purge_one_eq. destruct (sessions s !! h) eqn:E; [|done].
  by apply remove_session_wf.
Qed.

Lemma purge_one_fields s h :
  sessions (purge_one s h) = delete h (sessions s) ∧ idleTTL (purge_one s h) = idleTTL s
  ∧ perUserLimit (purge_one s h) = perUserLimit s ∧ globalLimit (purge_one s h) = globalLimit s.
Proof.
  rewrite purge_one_eq. destruct (sessions s !! h) eqn:E.
  - destruct (remove_session_fields h s0 s) as (?&?&?&?&?). done.
  - by rewrite delete_id.
Qed.

Lemma purge_list_wf l s : store_wf s → store_wf (foldl purge_one s l).
Proof. revert s. induction l as [|h l IH]; simpl; auto using purge_one_wf. Qed.

Lemma purge_list_fields l s :
  let s' := foldl purge_one s l in
  (∀ h, sessions s' !! h = if decide (h ∈ l) then None else sessions s !! h)
  ∧ idleTTL s' = idleTTL s ∧ perUserLimit s' = perUserLimit s ∧ globalLimit s' = globalLimit s.
Proof.
  revert s. induction l as [|h l IH]; intros s; simpl.
  { done. }
  destruct (IH (purge_one s h)) as (Hl & Hrest). destruct (purge_one_fields s h) as (Hs & Hf).
  split; [|by destruct Hrest as (->&->&->), Hf as (->&->&->)]. intros h'. rewrite Hl, Hs.
  destruct (decide (h' = h)) as [->|Hne].
  - rewrite lookup_delete_eq. destruct (decide (h ∈ h :: l)) as [_|Hin]; [by case_decide|].
    exfalso. apply Hin, list_elem_of_here.
  - rewrite lookup_delete_ne by done.
    destruct (decide (h' ∈ l)), (decide (h' ∈ h :: l)) as [Hin|Hin]; try done; exfalso.
    + apply Hin. by apply list_elem_of_further.
    + apply elem_of_cons in Hin as [?|?]; done.
Qed.

Lemma expiredHashes_spec now s h :
  h ∈ expiredHashes now s ↔
  ∃ x, sessions s !! h = Some x ∧ IsExpired x now (idleTTL s) = true.
Proof.
  unfold expiredHashes. rewrite list_elem_of_fmap. split.
  - intros ([h' x] & -> & Hin%elem_of_map_to_list%map_lookup_filter_Some). eauto.
  - intros (x & Hx & He). exists (h, x). split; [done|].
    by apply elem_of_map_to_list, map_lookup_filter_Some.
Qed.

(** The sweep removes the expired sessions and only those. *)
Lemma purgeExpired_lookup now s h :
  sessions (purgeExpiredLocked now s) !! h =
  match sessions s !! h with
  | Some x => if IsExpired x now (idleTTL s) then None else Some x
  | None => None
  end.
Proof.
  unfold purgeExpiredLocked. destruct (purge_list_fields (expiredHashes now s) s) as [-> _].
  case_decide as Hin.
  - apply expiredHashes_spec in Hin as (x & -> & ->). done.
  - destruct (sessions s !! h) as [x|] eqn:Hx; [|done].
    destruct (IsExpired x now (idleTTL s)) eqn:He; [|done].
    exfalso. apply Hin, expiredHashes_spec. eauto.
Qed.

#[export] Hint Resolve purge_list_wf purge_one_wf remove_session_wf NewStore_wf : dvfs.

(** ** Creation *)

Lemma user_hashes_insert s s' u l v :
  userSessions s' = <[u := l]> (userSessions s) →
  user_hashes s' v = if decide (v = u) then l else user_hashes s v.
Proof.
  unfold user_hashes; simpl. intros ->. case_decide as Hv; subst.
  - by rewrite lookup_insert_eq.
  - by rewrite lookup_insert_ne.
Qed.

(** Everything but the sizes survives a removal of sessions that leaves the
    other sessions in their slices and keeps the index in step. *)
Lemma shrink_wf s s' (h : string) :
  store_wf s →
  sessions s' = delete h (sessions s) →
  (∀ c, clientIndex s' !! c = match clientIndex s !! c with
                               | Some h' => if decide (h' = h) then None else Some h'
                               | None => None
                               end) →
  (∀ u h', h' ≠ h → h' ∈ user_hashes s u → h' ∈ user_hashes s' u) →
  (∀ u h', h' ∈ user_hashes s' u → h' ∈ user_hashes s u) →
  (∀ u, (length (user_hashes s' u) ≤ length (user_hashes s u))%nat) →
  perUserLimit s' = perUserLimit s → globalLimit s' = globalLimit s →
  store_wf s'.
Proof.
  intros Hwf Hs Hc Hu Hu' Hl Hp Hg. split; rewrite ?Hs, ?Hp, ?Hg.
  - apply Hwf.
  - intros h' x [_ Hx]%lookup_delete_Some. by apply (w_hash s).
  - intros h' x [Hne Hx]%lookup_delete_Some. apply Hu; [done|]. by apply (w_user s).
  - intros u h' x Hin%Hu' [Hne Hx]%lookup_delete_Some. by apply (w_owner s Hwf u h').
  - intros c h'. rewrite Hc. destruct (clientIndex s !! c) as [h''|] eqn:Hi; [|done].
    case_decide as Hne; [done|]. intros [= ->].
    destruct (w_index s Hwf c h' Hi) as [? (x & ? & ?)]. split; [done|]. exists x.
    by rewrite lookup_delete_ne.
  - intros h' x [Hne Hx]%lookup_delete_Some Hcx. rewrite Hc, (w_client s Hwf h' x) by done.
    by rewrite decide_False.
  - intros u. pose proof (w_len s Hwf u). pose proof (Hl u). lia.
  - pose proof (w_size s Hwf). pose proof (size_delete_le (sessions s) h). lia.
Qed.

(** In a well-formed store the index entry of a client is the only one of its hash. *)
Lemma index_delete s h x c :
  store_wf s → sessions s !! h = Some x →
  delete (ClientID x) (clientIndex s) !! c
  = match clientIndex s !! c with
    | Some h' => if decide (h' = h) then None else Some h'
    | None => None
    end.
Proof.
  intros Hwf Hx. destruct (decide (c = ClientID x)) as [->|Hne].
  - rewrite lookup_delete_eq. destruct (clientIndex s !! ClientID x) as [h'|] eqn:Hi; [|done].
    assert (ClientID x ≠ "") as Hc by (by destruct (w_index s Hwf _ _ Hi)).
    rewrite (w_client s Hwf h x Hx Hc) in Hi. simplify_eq. by rewrite decide_True.
  - rewrite lookup_delete_ne by done. destruct (clientIndex s !! c) as [h'|] eqn:Hi; [|done].
    rewrite decide_False; [done|]. intros ->.
    destruct (w_index s Hwf c h Hi) as [_ (x' & Hx' & Hcx)]. congruence.
Qed.

Lemma index_absent s h c :
  store_wf s → sessions s !! h = None →
  clientIndex s !! c
  = match clientIndex s !! c with
    | Some h' => if decide (h' = h) then None else Some h'
    | None => None
    end.
Proof.
  intros Hwf Hx. destruct (clientIndex s !! c) as [h'|] eqn:Hi; [|done].
  rewrite decide_False; [done|]. intros ->.
  destruct (w_index s Hwf c h Hi) as [_ (x' & Hx' & _)]. congruence.
Qed.

(** The branches of the eviction. *)
Lemma evict_cases u s :
  (evict_oldest u s = s ∧ (user_hashes s u = []
     ∨ Z.of_nat (length (user_hashes s u)) < perUserLimit s))
  ∨ ∃ h rest, user_hashes s u = h :: rest
    ∧ sessions (evict_oldest u s) = delete h (sessions s)
    ∧ userSessions (evict_oldest u s) = <[u := rest]> (userSessions s)
    ∧ clientIndex (evict_oldest u s)
      = (match sessions s !! h with
         | Some x => delete (ClientID x) (clientIndex s)
         | None => clientIndex s
         end)
    ∧ idleTTL (evict_oldest u s) = idleTTL s
    ∧ perUserLimit (evict_oldest u s) = perUserLimit s
    ∧ globalLimit (evict_oldest u s) = globalLimit s.
Proof.
  unfold evict_oldest. destruct (user_hashes s u) as [|h rest]; [auto|].
  destruct (Z.leb_spec (perUserLimit s) (Z.of_nat (length (h :: rest)))); [|auto].
  right. exists h, rest. by destruct (sessions s !! h).
Qed.

Lemma evict_wf u s : store_wf s → store_wf (evict_oldest u s).
Proof.
  intros Hwf. destruct (evict_cases u s) as [[-> _]|(h & rest & Hu & Hs & Huu & Hc & _ & Hp & Hg)];
    [done|].
  apply (shrink_wf s _ h); try done.
  - intros c. rewrite Hc. destruct (sessions s !! h) as [x|] eqn:Hx;
      [by apply index_delete|by apply index_absent].
  - intros v h' Hne Hin. rewrite (user_hashes_insert _ _ _ _ _ Huu).
    case_decide; [|done]. subst. rewrite Hu in Hin. by apply elem_of_cons in Hin as [?|?].
  - intros v h'. rewrite (user_hashes_insert _ _ _ _ _ Huu). case_decide; [|done].
    subst. rewrite Hu. intros. by apply list_elem_of_further.
  - intros v. rewrite (user_hashes_insert _ _ _ _ _ Huu). case_decide; [|done].
    subst. rewrite Hu. simpl. lia.
Qed.

Lemma evict_len u s :
  store_wf s → Z.of_nat (length (user_hashes (evict_oldest u s) u)) < perUserLimit s.
Proof.
  intros Hwf. pose proof (w_len s Hwf u) as Hl. pose proof (w_limit s Hwf).
  destruct (evict_cases u s) as [[-> [->|?]]|(h & rest & Hu & _ & Huu & _)]; [simpl; lia|done|].
  rewrite (user_hashes_insert _ _ _ _ _ Huu), decide_True by done.
  rewrite Hu in Hl. simpl in Hl. lia.
Qed.

Lemma evict_fields u s :
  perUserLimit (evict_oldest u s) = perUserLimit s
  ∧ globalLimit (evict_oldest u s) = globalLimit s ∧ idleTTL (evict_oldest u s) = idleTTL s
  ∧ ((size (sessions (evict_oldest u s)) ≤ size (sessions s))%nat
     ∧ ∀ h x, sessions (evict_oldest u s) !! h = Some x → sessions s !! h = Some x).
Proof.
  unfold evict_oldest. destruct (user_hashes s u) as [|h rest]; [auto|].
  destruct (_ <=? _); [|auto].
  destruct (sessions s !! h); simpl; repeat split; auto using size_delete_le;
    intros ?? [_ ?]%lookup_delete_Some; done.
Qed.

(** A token that was never used: its hash is nowhere in the store. *)
Definition fresh_hash (h : string) (s : Store) : Prop :=
  sessions s !! h = None ∧ ∀ u, h ∉ user_hashes s u.

(** The last two steps together: the index entry the removal leaves dangling is
    the one the new session overwrites. *)
Lemma drop_add_wf s x :
  store_wf s → fresh_hash (HashID x) s →
  Z.of_nat (length (user_hashes s (Username x))) < perUserLimit s →
  Z.of_nat (size (sessions s)) < globalLimit s →
  store_wf (add_session x (drop_previous (Username x) (ClientID x) s)).
Proof.
  intros Hwf [Hfresh Hslices] Hlen Hsize. set (d := drop_previous (Username x) (ClientID x) s).
  assert (∀ h y, sessions d !! h = Some y →
            sessions s !! h = Some y ∧ clientIndex s !! ClientID x ≠ Some h) as Hd.
  { intros h y. subst d. unfold drop_previous. destruct (clientIndex s !! ClientID x) as [p|].
    - edestruct removeFromUserSlice_fields as (->&_). simpl.
      intros [? ?]%lookup_delete_Some. split; [done|congruence].
    - done. }
  assert (∀ h y, sessions s !! h = Some y → clientIndex s !! ClientID x ≠ Some h →
            sessions d !! h = Some y) as Hd'.
  { intros h y Hy Hne. subst d. unfold drop_previous.
    destruct (clientIndex s !! ClientID x) as [p|]; [|done].
    edestruct removeFromUserSlice_fields as (->&_). simpl.
    rewrite lookup_delete_ne; [done|congruence]. }
  assert (clientIndex d = clientIndex s ∧ perUserLimit d = perUserLimit s
          ∧ globalLimit d = globalLimit s
          ∧ (size (sessions d) ≤ size (sessions s))%nat) as (Hdc & Hdp & Hdg & Hds).
  { subst d. unfold drop_previous. destruct (clientIndex s !! ClientID x) as [p|]; [|done].
    edestruct removeFromUserSlice_fields as (->&->&_&->&->). simpl.
    auto using size_delete_le. }
  assert (∀ v h, clientIndex s !! ClientID x ≠ Some h → h ∈ user_hashes s v →
            h ∈ user_hashes d v) as Hdu.
  { intros v h Hne Hin. subst d. unfold drop_previous.
    destruct (clientIndex s !! ClientID x) as [p|]; [|done].
    rewrite user_hashes_remove. case_decide; [|done]. subst. apply without_elem.
    split; [congruence|done]. }
  assert (∀ v h, h ∈ user_hashes d v → h ∈ user_hashes s v) as Hdu'.
  { intros v h. subst d. unfold drop_previous.
    destruct (clientIndex s !! ClientID x) as [p|]; [|done].
    rewrite user_hashes_remove. case_decide; [|done]. subst. by intros [_ ?]%without_elem. }
  assert (∀ v, (length (user_hashes d v) ≤ length (user_hashes s v))%nat) as Hdl.
  { intros v. subst d. unfold drop_previous.
    destruct (clientIndex s !! ClientID x) as [p|]; [|done].
    rewrite user_hashes_remove. case_decide; [|done]. subst. apply length_without. }
  assert (sessions d !! HashID x = None) as Hdf.
  { destruct (sessions d !! HashID x) eqn:E; [|done]. apply Hd in E as [E _]. congruence. }
  clearbody d.
  assert (∀ v, user_hashes (add_session x d) v
               = if decide (v = Username x) then user_hashes d (Username x) ++ [HashID x]
                 else user_hashes d v) as Hau.
  { intros v. unfold add_session. case_decide; unfold user_hashes at 1; simpl;
      destruct (decide (v = Username x)) as [->|]; by simplify_map_eq. }
  assert (sessions (add_session x d) = <[HashID x := x]> (sessions d)
          ∧ perUserLimit (add_session x d) = perUserLimit s
          ∧ globalLimit (add_session x d) = globalLimit s
          ∧ clientIndex (add_session x d)
            = (if decide (ClientID x = "") then clientIndex s
               else <[ClientID x := HashID x]> (clientIndex s))) as (Has & Hap & Hag & Hac).
  { unfold add_session. case_decide; simpl; by rewrite ?Hdc, ?Hdp, ?Hdg. }
  split; rewrite ?Has, ?Hap, ?Hag, ?Hac.
  - apply Hwf.
  - intros h y [[<- <-]|[_ [? _]%Hd]]%lookup_insert_Some; [done|]. by apply (w_hash s).
  - intros h y. rewrite Hau. intros [[<- <-]|[Hne [Hy Hi]%Hd]]%lookup_insert_Some.
    + rewrite decide_True by done. apply elem_of_app; right. by apply list_elem_of_singleton.
    + pose proof (Hdu _ _ Hi (w_user s Hwf _ _ Hy)) as Hin.
      destruct (decide (Username y = Username x)) as [Hv|]; [|done].
      apply elem_of_app. left. by rewrite <-Hv.
  - intros u h y. rewrite Hau. intros Hin [[<- <-]|[Hne [Hy Hi]%Hd]]%lookup_insert_Some.
    + destruct (decide (u = Username x)) as [|Hu]; [done|]. by destruct (Hslices u); apply Hdu'.
    + apply (w_owner s Hwf u h); [|done]. destruct (decide (u = Username x)) as [->|]; [|auto].
      apply elem_of_app in Hin as [Hin|Hin]; [by apply Hdu'|].
      apply list_elem_of_singleton in Hin. congruence.
  - intros c h Hi.
    assert (∀ c, clientIndex s !! c = Some h → (ClientID x = "" ∨ c ≠ ClientID x) →
      c ≠ "" ∧ ∃ y, <[HashID x := x]> (sessions d) !! h = Some y ∧ ClientID y = c) as Hold.
    { intros c' Hi' Hne. destruct (w_index s Hwf c' h Hi') as [? (y & Hy & <-)].
      split; [done|]. exists y. rewrite lookup_insert_ne by congruence. split; [|done].
      apply Hd'; [done|]. intros Hx'. destruct (w_index s Hwf _ _ Hx') as [Hnil (y' & Hy' & Hc')].
      destruct Hne as [?|Hne]; [done|]. apply Hne. congruence. }
    destruct (decide (ClientID x = "")) as [Hc|Hc]; [by apply Hold; auto|].
    apply lookup_insert_Some in Hi as [[<- <-]|[? Hi]]; [|by apply Hold; auto].
    split; [done|]. exists x. by rewrite lookup_insert_eq.
  - intros h y Hy Hcy. apply lookup_insert_Some in Hy as [[<- <-]|[Hne [Hy Hi]%Hd]].
    + destruct (decide (ClientID x = "")); [done|]. apply lookup_insert_eq.
    + pose proof (w_client s Hwf h y Hy Hcy) as Hix.
      destruct (decide (ClientID x = "")); [done|].
      rewrite lookup_insert_ne; [done|]. intros Heq. by rewrite Heq in Hi.
  - intros u. rewrite Hau. pose proof (w_len s Hwf u). pose proof (Hdl u).
    pose proof (Hdl (Username x)).
    destruct (decide (u = Username x)); subst; rewrite ?length_app; simpl; lia.
  - rewrite map_size_insert_None by done. lia.
Qed.

(** ** Number of sessions of a user *)

Definition sessions_of (u : string) (s : Store) : gmap string Session :=
  filter (λ kv, Username kv.2 = u) (sessions s).

Lemma size_list_to_set_le (l : list string) :
  (size (list_to_set (C := gset string) l) ≤ length l)%nat.
Proof.
  induction l as [|h l IH]; [done|]. rewrite list_to_set_cons. simpl.
  pose proof (size_union_alt {[h]} (list_to_set (C := gset string) l)) as ->.
  rewrite size_singleton.
  assert (size (list_to_set (C := gset string) l ∖ {[h]})
          ≤ size (list_to_set (C := gset string) l))%nat by (apply subseteq_size; set_solver).
  lia.
Qed.

(** The slice of a user lists all the sessions of the user, so its length bounds them. *)
Lemma sessions_of_len u s :
  store_wf s → (size (sessions_of u s) ≤ length (user_hashes s u))%nat.
Proof.
  intros Hwf. rewrite <-size_dom.
  assert (dom (sessions_of u s) ⊆ list_to_set (C := gset string) (user_hashes s u)) as Hsub.
  { intros h [x Hx]%elem_of_dom. apply map_lookup_filter_Some in Hx as [Hx <-].
    apply elem_of_list_to_set. by apply (w_user s). }
  apply subseteq_size in Hsub. etrans; [exact Hsub|]. apply size_list_to_set_le.
Qed.

(** ** Theorems *)

Lemma purge_fresh now h s : fresh_hash h s → fresh_hash h (purgeExpiredLocked now s).
Proof.
  intros [Hs Hu]. split; [by rewrite purgeExpired_lookup, Hs|].
  unfold purgeExpiredLocked. generalize (expiredHashes now s). intros l.
  clear Hs. revert s Hu. induction l as [|h' l IH]; intros s Hu; simpl; [done|].
  apply IH. intros u. rewrite purge_one_eq. destruct (sessions s !! h') as [x|]; [|done].
  unfold remove_session. rewrite user_hashes_remove. case_decide; [|apply Hu].
  rewrite without_elem. intros [_ Hin]. by apply (Hu (Username x)).
Qed.

Lemma make_room_spec h now s :
  store_wf s → fresh_hash h s →
  let s1 := make_room now s in
  store_wf s1 ∧ fresh_hash h s1 ∧ perUserLimit s1 = perUserLimit s
  ∧ globalLimit s1 = globalLimit s
  ∧ (∀ h y, sessions s1 !! h = Some y → sessions s !! h = Some y)
  ∧ (globalLimit s <= Z.of_nat (size (sessions s1)) → s1 = purgeExpiredLocked now s).
Proof.
  intros Hwf Hfresh s1. subst s1. unfold make_room.
  destruct (Z.leb_spec (globalLimit s) (Z.of_nat (size (sessions s)))); [|split_and!; done || lia].
  split_and!; auto using purge_fresh; try (by apply purge_list_fields).
  - apply purge_list_wf, Hwf.
  - intros h' y. rewrite purgeExpired_lookup. destruct (sessions s !! h'); [|done].
    by destruct (IsExpired _ _ _).
Qed.

Lemma evict_fresh u h s : fresh_hash h s → fresh_hash h (evict_oldest u s).
Proof.
  intros [Hs Hf]. destruct (evict_cases u s) as [[-> _]|(h' & rest & Hu & Hs' & Huu & _)];
    [done|]. split.
  - rewrite Hs'. destruct (decide (h = h')) as [->|]; [apply lookup_delete_eq|].
    by rewrite lookup_delete_ne.
  - intros v. rewrite (user_hashes_insert _ _ _ _ _ Huu). case_decide; [|done]. subst.
    intros Hin. apply (Hf u). rewrite Hu. by apply list_elem_of_further.
Qed.

Lemma drop_add_lookup x s :
  let s' := add_session x (drop_previous (Username x) (ClientID x) s) in
  sessions s' !! HashID x = Some x
  ∧ (∀ h y, sessions s' !! h = Some y → h = HashID x ∨ sessions s !! h = Some y)
  ∧ (∀ p, clientIndex s !! ClientID x = Some p → p ≠ HashID x → sessions s' !! p = None)
  ∧ perUserLimit s' = perUserLimit s ∧ globalLimit s' = globalLimit s.
Proof.
  intros s'. set (d := drop_previous (Username x) (ClientID x) s).
  assert (sessions d = match clientIndex s !! ClientID x with
                       | Some p => delete p (sessions s)
                       | None => sessions s
                       end ∧ perUserLimit d = perUserLimit s ∧ globalLimit d = globalLimit s)
    as (Hd & Hp & Hg).
  { subst d. unfold drop_previous. destruct (clientIndex s !! ClientID x) as [p|]; [|done].
    by edestruct removeFromUserSlice_fields as (->&_&_&->&->). }
  assert (sessions s' = <[HashID x := x]> (sessions d) ∧ perUserLimit s' = perUserLimit d
          ∧ globalLimit s' = globalLimit d) as (Hs' & -> & ->).
  { subst s'. fold d. unfold add_session. by case_decide. }
  rewrite Hs', Hd, Hp, Hg. split_and!; try done.
  - apply lookup_insert_eq.
  - intros h y [[<- <-]|[_ Hy]]%lookup_insert_Some; [by left|right].
    destruct (clientIndex s !! ClientID x); [|done]. by apply lookup_delete_Some in Hy as [].
  - intros p -> Hne. rewrite lookup_insert_ne by done. apply lookup_delete_eq.
Qed.

Lemma CreateSession_cases (HashSST : string → string) raw user client peer cb root
    absexp now (s : Store) :
  store_wf s → fresh_hash (HashSST raw) s →
  let '(s', r) := CreateSession HashSST raw user client peer cb root absexp now s in
  store_wf s' ∧ perUserLimit s' = perUserLimit s ∧ globalLimit s' = globalLimit s
  ∧ match r with
    | Ok x =>
        raw ≠ "" ∧ user ≠ ""
        ∧ x = mkSession (HashSST raw) user client (extractIP peer) cb root now now absexp
        ∧ sessions s' !! HashSST raw = Some x
        ∧ (∀ h y, sessions s' !! h = Some y → h = HashSST raw ∨ sessions s !! h = Some y)
        ∧ Z.of_nat (size (sessions_of user s')) ≤ perUserLimit s'
        ∧ Z.of_nat (size (sessions s')) ≤ globalLimit s'
        ∧ (client ≠ "" → ∀ h y, sessions s' !! h = Some y → ClientID y = client → h = HashSST raw)
    | Err e =>
        (e = Errorf "invalid session creation arguments" [] ∧ s' = s ∧ (raw = "" ∨ user = ""))
        ∨ (e = ErrGlobalLimitExceeded ∧ s' = purgeExpiredLocked now s
           ∧ Z.of_nat (size (sessions s')) = globalLimit s)
    | Panic _ => False
    end.
Proof.
  intros Hwf Hfresh. unfold CreateSession. case_decide as Hargs.
  { split_and!; try done. left. auto. }
  destruct (make_room_spec (HashSST raw) now s Hwf Hfresh)
    as (Hwf1 & Hf1 & Hp1 & Hg1 & Hsub1 & Hfull).
  set (s1 := make_room now s) in *. clearbody s1.
  destruct (Z.leb_spec (globalLimit s) (Z.of_nat (size (sessions s1)))) as [Hle|Hlt].
  { pose proof (w_size s1 Hwf1). do 3 (split; [done|]). right.
    split; [done|]. split; [apply Hfull; lia|lia]. }
  set (x := mkSession _ _ _ _ _ _ _ _ _).
  set (s2 := evict_oldest user s1).
  destruct (evict_fields user s1) as (Hp2 & Hg2 & _ & Hsz2 & Hsub2). fold s2 in Hp2, Hg2, Hsz2, Hsub2.
  assert (store_wf (add_session x (drop_previous user client s2))) as Hwf3.
  { apply (drop_add_wf s2 x); [by apply evict_wf|by apply evict_fresh| |].
    - pose proof (evict_len user s1 Hwf1). simpl. fold s2. subst s2. lia.
    - lia. }
  destruct (drop_add_lookup x s2) as (Hl & Hsub3 & Hprev & Hp3 & Hg3).
  simpl in Hl, Hsub3, Hprev, Hp3, Hg3. clearbody s2.
  set (s3 := add_session x (drop_previous user client s2)) in *. clearbody s3.
  assert (raw ≠ "" ∧ user ≠ "") as [Hr Hun] by (split; intros ->; apply Hargs; auto).
  split; [done|]. split; [congruence|]. split; [congruence|].
  do 2 (split; [done|]). split; [done|]. split; [done|]. split_and!.
  - intros h y Hy. destruct (Hsub3 h y Hy) as [?|?]; [by left|right; auto].
  - pose proof (sessions_of_len user s3 Hwf3). pose proof (w_len s3 Hwf3 user). lia.
  - pose proof (w_size s3 Hwf3). lia.
  - intros Hc h y Hy Hcy. pose proof (w_client s3 Hwf3 h y Hy) as Hi.
    pose proof (w_client s3 Hwf3 _ x Hl) as Hi'. simpl in Hi'. rewrite Hcy in Hi.
    specialize (Hi Hc). specialize (Hi' Hc). congruence.
Qed.

(** C17. Session creation keeps the store consistent whatever its outcome: on
    success the new session is stored under the hash of its token, replaces the
    session its client had, at most [perUserLimit] sessions of the user and
    [globalLimit] sessions in all remain, and no session appears out of nowhere; a
    creation fails only on empty arguments, or when the store is full of live
    sessions (the expired ones having been purged). *)
Theorem CreateSession_correct (HashSST : string → string) raw user client peer cb root
    absexp now (s : Store) :
  store_wf s → fresh_hash (HashSST raw) s →
  let '(s', r) := CreateSession HashSST raw user client peer cb root absexp now s in
  store_wf s' ∧ perUserLimit s' = perUserLimit s ∧ globalLimit s' = globalLimit s
  ∧ match r with
    | Ok x =>
        raw ≠ "" ∧ user ≠ ""
        ∧ x = mkSession (HashSST raw) user client (extractIP peer) cb root now now absexp
        ∧ sessions s' !! HashSST raw = Some x
        ∧ (∀ h y, sessions s' !! h = Some y → h = HashSST raw ∨ sessions s !! h = Some y)
        ∧ Z.of_nat (size (sessions_of user s')) ≤ perUserLimit s'
        ∧ Z.of_nat (size (sessions s')) ≤ globalLimit s'
        ∧ (client ≠ "" → ∀ h y, sessions s' !! h = Some y → ClientID y = client → h = HashSST raw)
    | Err e =>
        (e = Errorf "invalid session creation arguments" [] ∧ s' = s ∧ (raw = "" ∨ user = ""))
        ∨ (e = ErrGlobalLimitExceeded ∧ s' = purgeExpiredLocked now s
           ∧ Z.of_nat (size (sessions s')) = globalLimit s)
    | Panic _ => False
    end.
Proof. exact (CreateSession_cases HashSST raw user client peer cb root absexp now s). Qed.

(** A user with six logins: the oldest of the first five is gone. *)
Definition demo_login (s : Store) (n : nat) : Store :=
  (CreateSession (λ t, "h" +:+ t) ("t" +:+ pretty (Z.of_nat n)) "ann" ("c" +:+ pretty (Z.of_nat n))
     "10.0.0.1:5" "" "fid" 0 (Z.of_nat n) s).1.
Definition demo_store : Store := foldl demo_login (NewStore 0) [1;2;3;4;5]%nat.

Theorem CreateSession_correct_witness :
  store_wf (NewStore 0) ∧ fresh_hash "ht1" (NewStore 0)
  ∧ store_wf (demo_login (NewStore 0) 1)
  ∧ user_hashes demo_store "ann" = ["ht1"; "ht2"; "ht3"; "ht4"; "ht5"]
  ∧ user_hashes (demo_login demo_store 6) "ann" = ["ht2"; "ht3"; "ht4"; "ht5"; "ht6"].
Proof.
  assert (fresh_hash "ht1" (NewStore 0)) as Hf.
  { split; [vm_compute; reflexivity|]. intros u. unfold user_hashes. simpl.
    rewrite lookup_empty. apply not_elem_of_nil. }
  split_and!; [apply NewStore_wf|exact Hf| |vm_compute; reflexivity|vm_compute; reflexivity].
  pose proof (CreateSession_correct (λ t, "h" +:+ t) "t1" "ann" "c1" "10.0.0.1:5" "" "fid" 0 1
                (NewStore 0) (NewStore_wf 0) Hf) as H.
  unfold demo_login.
  change (pretty (Z.of_nat 1)) with "1". change ("t" +:+ "1") with "t1". change ("c" +:+ "1") with "c1".
  change (Z.of_nat 1) with 1.
  destruct (CreateSession _ _ _ _ _ _ _ _ _ _). apply H.
Defined.

Lemma ValidateSession_cases (HashSST : string → string) raw peer now (s : Store) :
  let '(s', r) := ValidateSession HashSST raw peer now s in
  match r with
  | Ok x =>
      raw ≠ "" ∧ ∃ y, sessions s !! HashSST raw = Some y ∧ x = Touch now y
        ∧ (AbsoluteExp y = 0 ∨ now ≤ AbsoluteExp y) ∧ now - LastSeenAt y ≤ idleTTL s
        ∧ (ClientIP y = "" ∨ extractIP peer = "" ∨ ClientIP y = extractIP peer)
        ∧ sessions s' = <[HashSST raw := x]> (sessions s)
        ∧ userSessions s' = userSessions s ∧ clientIndex s' = clientIndex s
  | Err e =>
      s' = s ∧
      ((e = ErrSessionNotFound ∧ (raw = "" ∨ sessions s !! HashSST raw = None))
       ∨ ∃ y, sessions s !! HashSST raw = Some y
         ∧ ((e = ErrSessionExpired ∧ ((AbsoluteExp y ≠ 0 ∧ AbsoluteExp y < now)
                                      ∨ idleTTL s < now - LastSeenAt y))
            ∨ (e = ErrIPMismatch ∧ ClientIP y ≠ "" ∧ extractIP peer ≠ ""
               ∧ ClientIP y ≠ extractIP peer)))
  | Panic _ => False
  end.
Proof.
  unfold ValidateSession, validate_read. case_decide as Hraw; [by auto|].
  destruct (sessions s !! HashSST raw) as [y|] eqn:Hy; [|by auto].
  destruct (IsExpired y now (idleTTL s)) eqn:He; unfold IsExpired in He.
  { split; [done|]. right. exists y. split; [done|left]. split; [done|].
    apply orb_true_iff in He as [[H1 H2]%andb_true_iff|H2%Z.ltb_lt]; [left|by right].
    apply Z.ltb_lt in H2. apply negb_true_iff, Z.eqb_neq in H1. done. }
  case_decide as Hip.
  { split; [done|]. right. exists y. split; [done|]. right. tauto. }
  split; [done|]. exists y. apply orb_false_iff in He as [He1 He2%Z.ltb_ge].
  split_and!; try done.
  - apply andb_false_iff in He1 as [H1%negb_false_iff%Z.eqb_eq|H1%Z.ltb_ge]; [by left|by right].
  - destruct (decide (ClientIP y = "")); [by left|].
    destruct (decide (extractIP peer = "")); [by right; left|].
    destruct (decide (ClientIP y = extractIP peer)); [by right; right|]. tauto.
  - unfold validate_touch. simpl. apply map_eq. intros h.
    destruct (decide (h = HashSST raw)) as [->|Hne].
    + by rewrite lookup_alter_eq, Hy, lookup_insert_eq.
    + by rewrite lookup_alter_ne, lookup_insert_ne.
Qed.


(** ** Revocation *)

Lemma revoke_hash_fields s h :
  sessions (revoke_hash s h) = delete h (sessions s)
  ∧ userSessions (revoke_hash s h) = userSessions s
  ∧ clientIndex (revoke_hash s h)
    = (match sessions s !! h with
       | Some x => delete (ClientID x) (clientIndex s)
       | None => clientIndex s
       end)
  ∧ idleTTL (revoke_hash s h) = idleTTL s
  ∧ perUserLimit (revoke_hash s h) = perUserLimit s
  ∧ globalLimit (revoke_hash s h) = globalLimit s.
Proof. unfold revoke_hash. by destruct (sessions s !! h). Qed.

Lemma revoke_hash_wf s h : store_wf s → store_wf (revoke_hash s h).
Proof.
  intros Hwf. destruct (revoke_hash_fields s h) as (Hs & Hu & Hc & _ & Hp & Hg).
  assert (∀ u, user_hashes (revoke_hash s h) u = user_hashes s u) as Huu
    by (intros u; unfold user_hashes; by rewrite Hu).
  apply (shrink_wf s _ h); try done; try (intros; rewrite Huu in *; done).
  intros c. rewrite Hc. destruct (sessions s !! h) as [x|] eqn:Hx;
    [by apply index_delete|by apply index_absent].
Qed.

Lemma revoke_list_wf l s :
  store_wf s →
  let s' := foldl revoke_hash s l in
  store_wf s' ∧ userSessions s' = userSessions s
  ∧ ∀ h, sessions s' !! h = if decide (h ∈ l) then None else sessions s !! h.
Proof.
  revert s. induction l as [|h l IH]; intros s Hwf; simpl; [done|].
  destruct (IH (revoke_hash s h) (revoke_hash_wf s h Hwf)) as (?&->&Hl).
  destruct (revoke_hash_fields s h) as (Hs & -> & _). split_and!; [done|done|].
  intros h'. rewrite Hl, Hs. destruct (decide (h' = h)) as [->|Hne].
  - rewrite lookup_delete_eq. destruct (decide (h ∈ h :: l)) as [|Hin]; [by case_decide|].
    destruct Hin. apply list_elem_of_here.
  - rewrite lookup_delete_ne by done.
    destruct (decide (h' ∈ l)), (decide (h' ∈ h :: l)) as [Hin|Hin]; try done; exfalso.
    + apply Hin. by apply list_elem_of_further.
    + apply elem_of_cons in Hin as [?|?]; done.
Qed.

Lemma drop_slice_wf u s :
  store_wf s → (∀ h x, sessions s !! h = Some x → Username x ≠ u) →
  store_wf (set_userSessions (delete u (userSessions s)) s).
Proof.
  intros Hwf Hnone. set (s' := set_userSessions _ _).
  assert (∀ v, user_hashes s' v = if decide (v = u) then [] else user_hashes s v) as Hu.
  { intros v. unfold user_hashes. simpl. case_decide; subst;
      [by rewrite lookup_delete_eq|by rewrite lookup_delete_ne]. }
  split; try apply Hwf.
  - intros h x Hx. rewrite Hu, decide_False by by eapply Hnone. by apply (w_user s).
  - intros v h x. rewrite Hu. case_decide; [by intros ?%elem_of_nil|]. apply Hwf.
  - intros v. rewrite Hu. pose proof (w_len s Hwf v). case_decide; simpl; [|done].
    pose proof (w_limit s Hwf). lia.
Qed.

Lemma drop_slice_none u s : userSessions s !! u = None → user_hashes s u = [].
Proof. unfold user_hashes. by intros ->. Qed.

(** Revocation is exact: revoking a token removes its session and no other, the
    token is not found afterwards from any address at any time, and revoking all the sessions of a
    user removes the sessions of that user and keeps every other one.  Both keep
    the store consistent. *)
Theorem Revoke_correct (HashSST : string → string) raw user (s : Store) :
  store_wf s →
  (store_wf (RevokeSession HashSST raw s)
   ∧ sessions (RevokeSession HashSST raw s) = delete (HashSST raw) (sessions s)
   ∧ ∀ peer now, (ValidateSession HashSST raw peer now (RevokeSession HashSST raw s)).2
                 = Err ErrSessionNotFound)
  ∧ (store_wf (RevokeAllForUser user s)
     ∧ ∀ h, sessions (RevokeAllForUser user s) !! h
            = match sessions s !! h with
              | Some x => if decide (Username x = user) then None else Some x
              | None => None
              end).
Proof.
  intros Hwf. split.
  - assert (RevokeSession HashSST raw s = purge_one s (HashSST raw)) as -> by done.
    destruct (purge_one_fields s (HashSST raw)) as [Hs _].
    split_and!; [by apply purge_one_wf|done|]. intros peer now.
    unfold ValidateSession, validate_read. case_decide; [done|].
    by rewrite Hs, lookup_delete_eq.
  - unfold RevokeAllForUser. destruct (userSessions s !! user) as [l|] eqn:Hl.
    2:{ split; [done|]. intros h. destruct (sessions s !! h) as [x|] eqn:Hx; [|done].
        case_decide as Hu; [|done]. apply (w_user s Hwf) in Hx.
        rewrite Hu, drop_slice_none in Hx by done. by apply elem_of_nil in Hx. }
    assert (user_hashes s user = l) as Hul by (unfold user_hashes; by rewrite Hl).
    destruct (revoke_list_wf l s Hwf) as (Hwf' & Hu & Hs).
    assert (∀ h, sessions (foldl revoke_hash s l) !! h
                 = match sessions s !! h with
                   | Some x => if decide (Username x = user) then None else Some x
                   | None => None
                   end) as Heq.
    { intros h. rewrite Hs. destruct (sessions s !! h) as [x|] eqn:Hx; [|by case_decide].
      destruct (decide (h ∈ l)) as [Hin|Hin], (decide (Username x = user)) as [Hun|Hun]; try done.
      - destruct Hun. apply (w_owner s Hwf user h x); [by rewrite Hul|done].
      - destruct Hin. rewrite <-Hul, <-Hun. by apply (w_user s). }
    split; [|exact Heq]. apply drop_slice_wf; [done|]. intros h x. rewrite Heq.
    destruct (sessions s !! h); [|done]. case_decide; [done|]. by intros [= ->].
Qed.

(** One session of ann, revoked with all the others of her name. *)
Definition demo_one : Store :=
  let x := mkSession "h1" "ann" "c1" "" "" "" 0 0 0 in
  mkStore {["h1" := x]} {["ann" := ["h1"]]} {["c1" := "h1"]} 10 5 10.

Lemma demo_one_wf : store_wf demo_one.
Proof.
  assert (∀ u, user_hashes demo_one u = if decide (u = "ann") then ["h1"] else []) as Hu.
  { intros u. unfold user_hashes, demo_one. simpl. case_decide as Hd; [by subst|].
    rewrite lookup_singleton_ne; congruence || done. }
  split; rewrite ?Hu; simpl; try done.
  - intros h x [<- <-]%lookup_singleton_Some. done.
  - intros h x [<- <-]%lookup_singleton_Some. rewrite Hu. simpl. set_solver.
  - intros u h x. rewrite Hu. case_decide; [|by intros ?%elem_of_nil].
    by intros _ [<- <-]%lookup_singleton_Some.
  - intros c h [<- <-]%lookup_singleton_Some. split; [done|]. eexists.
    rewrite lookup_singleton_eq. done.
  - intros h x [<- <-]%lookup_singleton_Some. done.
  - intros u. rewrite Hu. case_decide; simpl; lia.
Qed.

Theorem Revoke_correct_witness :
  store_wf demo_one
  ∧ (∀ h, sessions (RevokeAllForUser "ann" demo_one) !! h
          = match sessions demo_one !! h with
            | Some x => if decide (Username x = "ann") then None else Some x
            | None => None
            end)
  ∧ sessions demo_one !! "h1" ≠ None
  ∧ sessions (RevokeAllForUser "ann" demo_one) !! "h1" = None.
Proof.
  destruct (Revoke_correct (λ t, t) "t" "ann" demo_one demo_one_wf) as [_ [_ H]].
  split; [apply demo_one_wf|]. split; [exact H|]. split; [done|]. rewrite H. vm_compute. reflexivity.
Defined.
