(* ===== verification/IndexSpec.v ===== *)
(** * What the inode index promises

    Ids are never handed out twice whatever the sequence of operations, renaming a
    prefix does not depend on the order in which Go ranges over the map, and an
    index that was saved is the one a restart loads. *)
From S2P Require Import Prelude GoStd Disk InodeStore.
From Stdlib Require Import Strings.Byte.

(** ** Sequences of operations *)

Inductive index_op :=
  | OpAssign (path : string)
  | OpRemove (path : string)
  | OpRename (order : list string) (oldPrefix newPrefix : string).

(** The state after an operation, and the id it handed out to a new path. *)
Definition index_run (op : index_op) (s : InodeStore) : InodeStore * list Z :=
  match op with
  | OpAssign p => let '(s', id) := GetOrAssign p s in
                  (s', if decide (Get p s = None) then [id] else [])
  | OpRemove p => (Remove p s, [])
  | OpRename order o n => (RenamePrefix_in order o n s, [])
  end.
Fixpoint index_runs (ops : list index_op) (s : InodeStore) : InodeStore * list Z :=
  match ops with
  | [] => (s, [])
  | op :: ops => let '(s1, new) := index_run op s in
                 let '(s2, news) := index_runs ops s1 in (s2, new ++ news)
  end.

(** The ids of the entries. *)
Definition has_id (s : InodeStore) (id : Z) : Prop := ∃ p, PathToID (isData s) !! p = Some id.

Lemma rename_keys_ids old new order m id p :
  rename_keys old new order m !! p = Some id → ∃ q, m !! q = Some id.
Proof.
  revert m. induction order as [|k order IH]; simpl; intros m Hm; [by eauto|].
  destruct (IH _ Hm) as [q Hq]. rewrite rename_visit_eq in Hq.
  destruct (m !! k) as [id'|] eqn:Hk; [|by eauto].
  destruct (move_key old new k) as [k'|]; [|by eauto].
  apply lookup_insert_Some in Hq as [[_ <-]|[_ [_ Hq]%lookup_delete_Some]]; eauto.
Qed.

(** One operation: the invariant survives, the counter advances by what is handed
    out, and the ids of the entries are old or handed out. *)
Lemma index_run_spec op s :
  index_wf (isData s) → NextInodeID (isData s) + 1 < two64 →
  let '(s', new) := index_run op s in
  index_wf (isData s')
  ∧ NextInodeID (isData s') = NextInodeID (isData s) + Z.of_nat (length new)
  ∧ (new = [] ∨ new = [NextInodeID (isData s)])
  ∧ ∀ id, has_id s' id → has_id s id ∨ id ∈ new.
Proof.
  intros Hwf Hlim. destruct op as [p|p|order o n]; simpl.
  - pose proof (GetOrAssign_wf p s Hlim Hwf) as Hwf'.
    destruct (decide (Get p s = None)) as [Hg|Hg].
    + rewrite GetOrAssign_new in * by (done || apply Hwf). simpl in *. split_and!; [done|lia|by right|].
      intros id [q Hq]. simpl in Hq. apply lookup_insert_Some in Hq as [[_ <-]|[_ Hq]]; [right; set_solver|left].
      by exists q.
    + destruct (Get p s) as [id|] eqn:Hid; [|done]. rewrite (GetOrAssign_known _ _ _ Hid) in *.
      split_and!; [done|simpl; lia|by left|by left].
  - split_and!; [by apply Remove_wf|lia|by left|].
    intros id [q Hq]. simpl in Hq. apply lookup_delete_Some in Hq as [_ Hq]. left. by exists q.
  - split_and!; [by apply RenamePrefix_in_wf| |by left|].
    + unfold RenamePrefix_in. case_decide; simpl; lia.
    + intros id [q Hq]. left. unfold RenamePrefix_in in Hq. case_decide; [by exists q|].
      by apply rename_keys_ids in Hq.
Qed.

(** C21. Ids are never recycled: after any sequence of assignments, removals and
    renames, the ids handed out on the way are all different, none of them was in
    the index or below its counter before, every entry has an old id or one of
    them, no two paths share an id, and the counter has not gone back.  The only
    bound is that the counter of 64 bits is not exhausted. *)
Theorem ids_never_recycled ops s :
  index_wf (isData s) → NextInodeID (isData s) + Z.of_nat (length ops) < two64 →
  let '(s', news) := index_runs ops s in
  index_wf (isData s') ∧ NoDup news
  ∧ (∀ id, id ∈ news → NextInodeID (isData s) ≤ id < NextInodeID (isData s'))
  ∧ (∀ id, has_id s' id → has_id s id ∨ id ∈ news)
  ∧ NextInodeID (isData s) ≤ NextInodeID (isData s').
Proof.
  revert s. induction ops as [|op ops IH]; intros s Hwf Hlim; simpl.
  { split_and!; [done|apply NoDup_nil; done| |by left|lia]. intros id []%elem_of_nil. }
  simpl in Hlim. pose proof (index_run_spec op s Hwf ltac:(lia)) as Hop.
  destruct (index_run op s) as [s1 new]. destruct Hop as (Hwf1 & Hnext & Hnew & Hids).
  assert (NextInodeID (isData s1) + Z.of_nat (length ops) < two64) as Hlim1
    by (destruct Hnew as [-> | ->]; simpl in Hnext; lia).
  specialize (IH s1 Hwf1 Hlim1). destruct (index_runs ops s1) as [s2 news].
  destruct IH as (Hwf2 & Hnd & Hrange & Hids2 & Hle). split_and!; [done| | | |lia].
  - destruct Hnew as [-> | ->]; simpl in *; [done|]. apply NoDup_cons. split; [|done].
    intros Hin%Hrange. lia.
  - intros id [Hin|Hin%Hrange]%elem_of_app; [|lia].
    destruct Hnew as [-> | ->]; [by apply elem_of_nil in Hin|].
    apply list_elem_of_singleton in Hin as ->. simpl in Hnext. lia.
  - intros id [[?|?]%Hids|?]%Hids2; [by left|..]; right; apply elem_of_app; auto.
Qed.

Definition demo_ops : list index_op :=
  [OpAssign "a/x"; OpAssign "a/y"; OpRemove "a/x"; OpAssign "a/x"; OpRename ["a/x"; "a/y"] "a" "b";
   OpAssign "a/y"; OpAssign "b/y"].
Definition demo_index : InodeStore := mkInodeStore "/srv" "/srv/.dvfs_inodes_index.json" (mkIndex 7 {[ "a" := 3 ]}).

Lemma ids_never_recycled_witness :
  index_wf (isData demo_index)
  ∧ (index_runs demo_ops demo_index).2 = [7; 8; 9; 10]
  ∧ NoDup (index_runs demo_ops demo_index).2.
Proof.
  assert (index_wf (isData demo_index)) as Hwf.
  { split; simpl; [lia| |].
    - intros p id [<- <-]%lookup_singleton_Some. lia.
    - intros p q id [<- _]%lookup_singleton_Some [<- _]%lookup_singleton_Some. done. }
  pose proof (ids_never_recycled demo_ops demo_index Hwf ltac:(vm_compute; reflexivity)) as Ht.
  split; [exact Hwf|]. split; [vm_compute; reflexivity|].
  destruct (index_runs demo_ops demo_index) as [s' news]. apply Ht.
Defined.

Lemma union_Some_l' {A} (x : A) (o : option A) : Some x ∪ o = Some x.
Proof. by destruct o. Qed.

(** ** Renaming does not depend on the order of the range *)

(** An order in which a range may produce the keys. *)
Definition range_order (m : gmap string Z) (order : list string) : Prop :=
  NoDup order ∧ ∀ q, is_Some (m !! q) → q ∈ order.

Definition range_orderb (m : gmap string Z) (order : list string) : bool :=
  bool_decide (NoDup order) && forallb (λ kv, contains kv.1 order) (map_to_list m).

Lemma range_orderb_sound m order : range_orderb m order = true → range_order m order.
Proof.
  intros [Hnd Hall]%andb_prop. split; [by apply bool_decide_eq_true in Hnd|].
  intros q [id Hq]. rewrite forallb_forall in Hall. apply contains_spec.
  apply (Hall (q, id)), list_elem_of_In, elem_of_map_to_list. exact Hq.
Qed.

Lemma move_key_source old new p :
  within new p → ∃ q, move_key old new q = Some p.
Proof.
  intros [->|Hp]%within_spec.
  - exists old. unfold move_key. by rewrite decide_True.
  - apply HasPrefix_spec in Hp as [r ->]. exists (old +:+ "/" +:+ r).
    rewrite move_key_app. by rewrite string_app_assoc.
Qed.

Lemma within_dec a p : within a p ∨ ¬ within a p.
Proof.
  rewrite within_spec. destruct (decide (p = a)); [naive_solver|].
  destruct (HasPrefix _ _); naive_solver.
Qed.

Lemma rename_keys_order old new order order' m :
  ¬ within old new → ¬ within new old → range_order m order → range_order m order' →
  rename_keys old new order m = rename_keys old new order' m.
Proof.
  intros Hon Hno [Hnd Hall] [Hnd' Hall']. apply map_eq. intros p.
  pose proof (rename_keys_spec old new Hon Hno order m p Hnd Hall) as H1.
  pose proof (rename_keys_spec old new Hon Hno order' m p Hnd' Hall') as H2.
  destruct (move_key old new p) as [p'|] eqn:Hp; [destruct H1, H2; congruence|].
  destruct (within_dec new p) as [Hw|Hw].
  - destruct (move_key_source old new p Hw) as [q Hq].
    pose proof (rename_keys_spec old new Hon Hno order m q Hnd Hall) as H3.
    pose proof (rename_keys_spec old new Hon Hno order' m q Hnd' Hall') as H4.
    cbv zeta in H3, H4. rewrite Hq in H3, H4. destruct H3 as [_ ->], H4 as [_ ->]. done.
  - rewrite H1, H2; [done|..]; intros q Hq%move_key_target; by apply Hw.
Qed.

(** C22. The order in which Go ranges over the map while [RenamePrefix] edits it does
    not matter, for two prefixes that are not empty once normalised and of which neither
    lies within the other: any two orders that
    produce every key once give the same index.  In it the ids of the paths at and
    below the old prefix are those of the same paths below the new one, nothing is
    left at the old ones, and every other path has the id it had. *)
Theorem RenamePrefix_correct o n s order order' :
  normalizePath o ≠ "" → normalizePath n ≠ "" →
  ¬ within (normalizePath o) (normalizePath n) → ¬ within (normalizePath n) (normalizePath o) →
  range_order (PathToID (isData s)) order → range_order (PathToID (isData s)) order' →
  let m := PathToID (isData s) in let s' := RenamePrefix_in order o n s in
  let m' := PathToID (isData s') in
  RenamePrefix_in order' o n s = s'
  ∧ NextInodeID (isData s') = NextInodeID (isData s)
  ∧ (∀ p, within (normalizePath o) p → m' !! p = None)
  ∧ (∀ r id, m !! (normalizePath o +:+ "/" +:+ r) = Some id →
       m' !! (normalizePath n +:+ "/" +:+ r) = Some id)
  ∧ (∀ id, m !! normalizePath o = Some id → m' !! normalizePath n = Some id)
  ∧ (∀ p, ¬ within (normalizePath o) p → ¬ within (normalizePath n) p → m' !! p = m !! p).
Proof.
  intros Ho Hn Hon Hno Hr Hr'. unfold RenamePrefix_in. rewrite !decide_False; simpl.
  2,3: intros [?|[?|Heq]]; [done|done|]; apply Hon; rewrite Heq; apply within_refl.
  rewrite (rename_keys_order _ _ order' order _ Hon Hno Hr' Hr). destruct Hr as [Hnd Hall].
  pose proof (λ p, rename_keys_spec _ _ Hon Hno order _ p Hnd Hall) as Hspec. simpl in Hspec.
  split_and!; [done|done|..].
  - intros p Hp%(move_key_within _ (normalizePath n)). specialize (Hspec p).
    destruct (move_key (normalizePath o) (normalizePath n) p); [by destruct Hspec|by destruct Hp].
  - intros r id Hm. specialize (Hspec (normalizePath o +:+ "/" +:+ r)).
    rewrite move_key_app in Hspec. destruct Hspec as [_ ->]. by rewrite Hm, union_Some_l'.
  - intros id Hm. specialize (Hspec (normalizePath o)). unfold move_key in Hspec.
    rewrite decide_True in Hspec by done. destruct Hspec as [_ ->]. by rewrite Hm, union_Some_l'.
  - intros p Hpo Hpn. specialize (Hspec p).
    destruct (move_key (normalizePath o) (normalizePath n) p) as [p'|] eqn:Hp.
    + destruct Hpo. apply (move_key_within _ (normalizePath n)). by rewrite Hp.
    + apply Hspec. intros q Hq%move_key_target. by apply Hpn.
Qed.

Definition demo_moved : InodeStore :=
  mkInodeStore "/srv" "/srv/.dvfs_inodes_index.json"
    (mkIndex 9 {[ "ann/doc" := 2; "ann/doc/f" := 3; "ann/docs" := 4; "ann/.trash" := 1 ]}).

Lemma RenamePrefix_correct_witness :
  RenamePrefix_in ["ann/docs"; "ann/doc/f"; "ann/.trash"; "ann/doc"] "ann/doc" "ann/.trash/doc" demo_moved
  = RenamePrefix_in ["ann/doc"; "ann/.trash"; "ann/docs"; "ann/doc/f"] "ann/doc" "ann/.trash/doc" demo_moved
  ∧ Get "ann/.trash/doc/f" (RenamePrefix "ann/doc" "ann/.trash/doc" demo_moved) = Some 3.
Proof.
  assert (¬ within "ann/doc" "ann/.trash/doc") as H1.
  { intros [?|Hp]%within_spec; [discriminate|]. vm_compute in Hp. discriminate. }
  assert (¬ within "ann/.trash/doc" "ann/doc") as H2.
  { intros [?|Hp]%within_spec; [discriminate|]. vm_compute in Hp. discriminate. }
  split; [|vm_compute; reflexivity].
  apply (RenamePrefix_correct "ann/doc" "ann/.trash/doc" demo_moved
    ["ann/doc"; "ann/.trash"; "ann/docs"; "ann/doc/f"]
    ["ann/docs"; "ann/doc/f"; "ann/.trash"; "ann/doc"]).
  - vm_compute. discriminate.
  - vm_compute. discriminate.
  - exact H1.
  - exact H2.
  - apply range_orderb_sound. vm_compute. reflexivity.
  - apply range_orderb_sound. vm_compute. reflexivity.
Defined.
