(* ===== verification/OpMetrics.v ===== *)
(** * Operation metrics

    Models [internal/fileserver/opmetrics.go]: wrapping counters and the sliding window of
    recent durations, with the floating-point numbers of the code: IEEE 754 doubles, every
    operation rounded to the nearest.  (Go may fuse a product and a sum on some machines,
    not on amd64, which is modelled.)  The theorem: a reservoir holds the last durations
    it was given.  Its percentiles need not be ordered, nor lie between its durations. *)
From S2P Require Import Prelude.
From Stdlib Require Import SpecFloat.

(** ** Floating-point numbers *)

Abbreviation float64 := spec_float.
Definition prec : Z := 53.
Definition emax : Z := 1024.
Definition fadd : float64 → float64 → float64 := SFadd prec emax.
Definition fsub : float64 → float64 → float64 := SFsub prec emax.
Definition fmul : float64 → float64 → float64 := SFmul prec emax.
Definition fdiv : float64 → float64 → float64 := SFdiv prec emax.
(** [float64(n)] *)
Definition of_int (n : Z) : float64 := binary_normalize prec emax n 0 false.
(** [int(f)] of a number that fits: the fraction is dropped. *)
Definition to_int (f : float64) : Z :=
  match f with
  | S754_finite sign m e => (if sign then -1 else 1) * Z.shiftl (Z.pos m) e
  | _ => 0
  end.
Definition is_nan (f : float64) : bool := match f with S754_nan => true | _ => false end.
(** The order of [sort.Float64s], which puts a NaN first. *)
Definition float_less (x y : float64) : bool := SFltb x y || is_nan x && negb (is_nan y).
Definition float_le (x y : float64) : Prop := float_less y x = false.
#[export] Instance float_le_dec x y : Decision (float_le x y).
Proof. unfold float_le. apply _. Defined.

(** [d.Seconds()*1000.0] for a [time.Duration] in nanoseconds. *)
Definition second : Z := 1000000000.
Definition Seconds (d : Z) : float64 := fadd (of_int (Z.quot d second)) (fdiv (of_int (Z.rem d second)) (of_int second)).
Definition milliseconds (d : Z) : float64 := fmul (Seconds d) (of_int 1000).

Example float_ex :
  (milliseconds 250000000, milliseconds 500000, to_int (milliseconds 1999999), to_int (milliseconds (-1999999)))
  = (of_int 250, fdiv (of_int 1) (of_int 2), 1, -1).
Proof. vm_compute. reflexivity. Qed.

(** ** The latency window *)

Record LatencyReservoir := mkReservoir {
  samples : list float64;
  idx : nat;
  count : nat;
  rsize : nat;
}.

Definition NewLatencyReservoir (n : Z) : LatencyReservoir :=
  let n := if n <=? 0 then 1024%nat else Z.to_nat n in
  mkReservoir (replicate n (of_int 0)) 0 0 n.

Definition Add (d : float64) (r : LatencyReservoir) : LatencyReservoir :=
  if SFltb d (of_int 0) then r
  else mkReservoir (<[idx r := d]> (samples r)) ((idx r + 1) mod rsize r)
         (if (count r <? rsize r)%nat then S (count r) else count r) (rsize r).

(** [cp] is sorted and not empty, [p] the rank asked for. *)
Definition calc (cp : list float64) (p : float64) : float64 :=
  let rank := fmul p (of_int (Z.of_nat (length cp) - 1)) in
  let lower := to_int rank in
  let upper := lower + 1 in
  let weight := fsub rank (of_int lower) in
  let at_ i := nth (Z.to_nat i) cp S754_nan in
  if Z.of_nat (length cp) <=? upper then at_ lower
  else fadd (fmul (at_ lower) (fsub (of_int 1) weight)) (fmul (at_ upper) weight).

(** The constants 0.50, 0.95 and 0.99. *)
Definition hundredths (n : Z) : float64 := fdiv (of_int n) (of_int 100).
Definition Percentiles (r : LatencyReservoir) : float64 * float64 * float64 :=
  match count r with
  | O => (of_int 0, of_int 0, of_int 0)
  | n => let cp := merge_sort float_le (take n (samples r)) in
         (calc cp (hundredths 50), calc cp (hundredths 95), calc cp (hundredths 99))
  end.

(** ** Counters *)

Record OperationMetrics := mkMetrics {
  bytesWrittenTotal : Z;
  bytesReadTotal : Z;
  writeOpsTotal : Z;
  readOpsTotal : Z;
  errorsTotal : Z;
  failedWritesTotal : Z;
  failedReadsTotal : Z;
  writeLatency : LatencyReservoir;
  readLatency : LatencyReservoir;
}.

Definition NewOperationMetrics : OperationMetrics :=
  mkMetrics 0 0 0 0 0 0 0 (NewLatencyReservoir 1024) (NewLatencyReservoir 1024).

Definition RecordWriteOp (d : float64) (failed : bool) (m : OperationMetrics) : OperationMetrics :=
  mkMetrics (bytesWrittenTotal m) (bytesReadTotal m) (u64 (writeOpsTotal m + 1)) (readOpsTotal m)
    (if failed then u64 (errorsTotal m + 1) else errorsTotal m)
    (if failed then u64 (failedWritesTotal m + 1) else failedWritesTotal m)
    (failedReadsTotal m)
    (if SFleb (of_int 0) d then Add d (writeLatency m) else writeLatency m) (readLatency m).

Definition AddBytesWritten (n : Z) (m : OperationMetrics) : OperationMetrics :=
  mkMetrics (u64 (bytesWrittenTotal m + n)) (bytesReadTotal m) (writeOpsTotal m) (readOpsTotal m)
    (errorsTotal m) (failedWritesTotal m) (failedReadsTotal m) (writeLatency m) (readLatency m).

Definition RecordWrite (n : Z) (d : float64) (failed : bool) (m : OperationMetrics) : OperationMetrics :=
  RecordWriteOp d failed (if failed then m else AddBytesWritten n m).

Definition RecordReadOp (d : float64) (failed : bool) (m : OperationMetrics) : OperationMetrics :=
  mkMetrics (bytesWrittenTotal m) (bytesReadTotal m) (writeOpsTotal m) (u64 (readOpsTotal m + 1))
    (if failed then u64 (errorsTotal m + 1) else errorsTotal m)
    (failedWritesTotal m)
    (if failed then u64 (failedReadsTotal m + 1) else failedReadsTotal m)
    (writeLatency m) (if SFleb (of_int 0) d then Add d (readLatency m) else readLatency m).

Definition AddBytesRead (n : Z) (m : OperationMetrics) : OperationMetrics :=
  mkMetrics (bytesWrittenTotal m) (u64 (bytesReadTotal m + n)) (writeOpsTotal m) (readOpsTotal m)
    (errorsTotal m) (failedWritesTotal m) (failedReadsTotal m) (writeLatency m) (readLatency m).

Definition RecordRead (n : Z) (d : float64) (failed : bool) (m : OperationMetrics) : OperationMetrics :=
  RecordReadOp d failed (if failed then m else AddBytesRead n m).

Record OpMetricsSnapshot := mkSnapshot {
  snapBytesWritten : Z; snapBytesRead : Z; snapWriteOps : Z; snapReadOps : Z;
  snapErrors : Z; snapFailedWrites : Z; snapFailedReads : Z;
  snapWriteLatency : float64 * float64 * float64; snapReadLatency : float64 * float64 * float64;
}.

Definition Snapshot (m : OperationMetrics) : OpMetricsSnapshot :=
  mkSnapshot (bytesWrittenTotal m) (bytesReadTotal m) (writeOpsTotal m) (readOpsTotal m)
    (errorsTotal m) (failedWritesTotal m) (failedReadsTotal m)
    (Percentiles (writeLatency m)) (Percentiles (readLatency m)).

(** ** The window is a window *)

(** The end of a list. *)
Definition lastn {A} (n : nat) (l : list A) : list A := drop (length l - n) l.
Lemma lastn_short {A} n (l : list A) : (length l ≤ n)%nat → lastn n l = l.
Proof. intros Hl. unfold lastn. by replace (length l - n)%nat with O by lia. Qed.
Lemma lastn_snoc {A} n (l : list A) x : (0 < n ≤ length l)%nat → lastn n (l ++ [x]) = tail (lastn n l) ++ [x].
Proof.
  intros Hn. unfold lastn. rewrite length_app. simpl. rewrite drop_app_le by lia. f_equal.
  replace (length l + 1 - n)%nat with (S (length l - n)) by lia.
  destruct (drop (length l - n) l) as [|y r] eqn:Hd; simpl.
  - apply (f_equal length) in Hd. rewrite length_drop in Hd. simpl in Hd. lia.
  - replace (S (length l - n)) with (length l - n + 1)%nat by lia. by rewrite <- drop_drop, Hd.
Qed.

(** What a reservoir holds after the durations [l], none of them negative. *)
Definition holds (r : LatencyReservoir) (l : list float64) : Prop :=
  length (samples r) = rsize r ∧ (0 < rsize r)%nat ∧
  ((length l < rsize r)%nat ∧ idx r = length l ∧ count r = length l ∧ take (length l) (samples r) = l
   ∨ (rsize r ≤ length l)%nat ∧ count r = rsize r ∧ (idx r < rsize r)%nat ∧
     drop (idx r) (samples r) ++ take (idx r) (samples r) = lastn (rsize r) l).

Lemma holds_new n : holds (NewLatencyReservoir n) [].
Proof.
  unfold holds, NewLatencyReservoir. set (k := if n <=? 0 then _ else _).
  assert (0 < k)%nat by (subst k; destruct (Z.leb_spec n 0); lia). simpl. rewrite length_replicate. split_and!; [done|done|]. by left.
Qed.
Lemma take_snoc_insert {A} (l : list A) i d : (i < length l)%nat → take (S i) (<[i := d]> l) = take i l ++ [d].
Proof.
  intros Hi. rewrite (take_S_r _ _ d) by (by apply list_lookup_insert_eq). by rewrite take_insert_ge by lia.
Qed.
Lemma holds_add r l d : holds r l → SFltb d (of_int 0) = false → holds (Add d r) (l ++ [d]).
Proof.
  intros (Hlen & Hpos & Hl) Hd. unfold Add. rewrite Hd.
  unfold holds; simpl. rewrite length_insert, length_app; simpl. split_and!; [done|done|].
  destruct Hl as [(Hlt & Hi & Hc & Hs)|(Hge & Hc & Hi & Hs)].
  - assert ((count r <? rsize r)%nat = true) as -> by (apply Nat.ltb_lt; lia). rewrite Hi, Hc.
    assert (take (S (length l)) (<[length l := d]> (samples r)) = l ++ [d]) as Ht by (rewrite take_snoc_insert, Hs; [done|lia]).
    replace (length l + 1)%nat with (S (length l)) by lia.
    destruct (decide (S (length l) = rsize r)) as [He|He].
    + right. rewrite He, Nat.Div0.mod_same. split_and!; [done|done|done|].
      rewrite drop_0, take_0, app_nil_r, lastn_short by (rewrite length_app; simpl; lia).
      rewrite <- Ht. rewrite take_ge; [done|]. rewrite length_insert. lia.
    + left. rewrite Nat.mod_small by lia. split_and!; [lia|done|done|done].
  - right. assert ((count r <? rsize r)%nat = false) as -> by (apply Nat.ltb_ge; lia).
    rewrite lastn_snoc, <- Hs by lia.
    assert (tail (drop (idx r) (samples r) ++ take (idx r) (samples r)) = drop (S (idx r)) (samples r) ++ take (idx r) (samples r)) as ->.
    { destruct (lookup_lt_is_Some_2 (samples r) (idx r)) as [x Hx]; [lia|]. by rewrite (drop_S _ _ _ Hx). }
    rewrite <- app_assoc, <- (take_snoc_insert _ _ d) by lia.
    assert (drop (S (idx r)) (<[idx r := d]> (samples r)) = drop (S (idx r)) (samples r)) as Hdrop by (by rewrite drop_insert_lt by lia).
    split_and!; [lia|done|apply Nat.mod_upper_bound; lia|].
    destruct (decide (S (idx r) = rsize r)) as [He|He].
    + replace (idx r + 1)%nat with (S (idx r)) by lia. rewrite He, Nat.Div0.mod_same, drop_0, take_0, app_nil_r.
      rewrite <- Hlen at 1 2. rewrite drop_all. simpl. rewrite take_ge; [done|]. rewrite length_insert. lia.
    + rewrite Nat.mod_small by lia. replace (idx r + 1)%nat with (S (idx r)) by lia. by rewrite Hdrop.
Qed.

(** A reservoir that was given the durations [ds]. *)
Definition sampled (n : Z) (ds : list float64) : LatencyReservoir := foldl (λ r d, Add d r) (NewLatencyReservoir n) ds.
Definition accepted (ds : list float64) : list float64 := filter (λ d, SFltb d (of_int 0) = false) ds.
Lemma holds_sampled n ds : holds (sampled n ds) (accepted ds).
Proof.
  unfold sampled. induction ds as [|d ds IH] using rev_ind; [apply holds_new|].
  rewrite foldl_app; simpl. unfold accepted in *. rewrite filter_app, filter_cons, filter_nil.
  destruct (decide (SFltb d (of_int 0) = false)) as [Hd|Hd]; [by apply holds_add|].
  unfold Add. destruct (SFltb d (of_int 0)); [|done]. by rewrite app_nil_r.
Qed.
Lemma rsize_Add d r : rsize (Add d r) = rsize r.
Proof. unfold Add. by destruct (SFltb d (of_int 0)). Qed.
Lemma rsize_sampled n ds : rsize (sampled n ds) = (if n <=? 0 then 1024%nat else Z.to_nat n).
Proof.
  unfold sampled. induction ds as [|d ds IH] using rev_ind; [done|]. rewrite foldl_app; simpl. by rewrite rsize_Add.
Qed.

(** Whatever it was given, a reservoir holds the last durations that are not negative, as
    many as it has room for. *)
Theorem reservoir_is_a_window n ds :
  let r := sampled n ds in
  take (count r) (samples r) ≡ₚ lastn (rsize r) (accepted ds).
Proof.
  destruct (holds_sampled n ds) as (Hlen & Hpos & [(Hlt & Hi & Hc & Hs)|(Hge & Hc & Hi & Hs)]); intros r; subst r.
  - by rewrite Hc, Hs, lastn_short by lia.
  - rewrite Hc, <- Hs, <- Hlen, take_ge by done. rewrite <- (take_drop (idx (sampled n ds)) (samples (sampled n ds))) at 1.
    apply Permutation_app_comm.
Qed.

(** ** Percentiles *)

(** The interpolation rounds, so the percentiles of two durations of 0.315 ms come out in
    the wrong order, and one of them below every duration. *)
Theorem percentiles_out_of_order :
  let d := milliseconds 315000 in
  let '(p50, p95, p99) := Percentiles (sampled 1024 [d; d]) in
  p50 = d ∧ SFltb p95 d = true ∧ SFltb p95 p50 = true ∧ SFltb p95 p99 = true.
Proof. vm_compute. done. Qed.
