(* ===== verification/FileServer.v ===== *)
(** * The file server: state and primitives

    Models the [FileServer] of [internal/fileserver/fileserver.go] and the calls its
    operations share.  Inode objects live in a heap, because the program shares
    them through pointers (parents, the inode table); a step of the server also
    sees the disk and appends to the calls made to the metaserver and to the
    clients.  An operation is a computation of [M (Server D)] for any disk [D].
    Recursions over the tree take fuel; running out of it is the stack overflow
    (or endless loop) of the program, and TreeWf.v shows it does not happen. *)
From S2P Require Export Prelude GoStd Domain Disk InodeStore.
From S2P Require Session OpMetrics.

(** ** Data *)

Record sharedDirSnapshot := mkSnap {
  snapPath : string;
  snapUsers : list string;
}.

Record trashEntry := mkTrashEntry {
  originalParentFID : string;
  originalName : string;
  originalRelPath : string;
  sharedSnapshots : list sharedDirSnapshot;
}.

Record clientSession := mkClientSession {
  csUsername : string;
  callbackAddress : string;
  csRootFID : string;
  currentDirFID : string;
  lastSeenAt : Z;
  consecutiveFailures : Z;
}.

#[export] Instance sharedDirSnapshot_eq_dec : EqDecision sharedDirSnapshot.
Proof. solve_decision. Defined.
#[export] Instance trashEntry_eq_dec : EqDecision trashEntry.
Proof. solve_decision. Defined.
#[export] Instance clientSession_eq_dec : EqDecision clientSession.
Proof. solve_decision. Defined.

Definition trashDirName : string := ".trash".
Definition trashNavigationDeniedMsg : string :=
  "access denied: use show_trash to view trash contents".
Definition DiskSafetyBuffer : Z := 20 * 1024 * 1024 * 1024.
Definition quotaConfigFile : string := "quota_config.json".
Definition defaultStorageQuota : Z := 16 * 1024 * 1024 * 1024.

Record FileServer := mkFileServer {
  serverID : string;
  rootDir : string;
  heap : gmap loc Inode;
  inodes : gmap string loc;
  users : gmap string FID;
  nextInodeID : Z;
  trashMeta : gmap string trashEntry;
  msAddr : string;
  Shared : gmap string (list string);
  fsSessions : gmap string clientSession;
  sessionStore : Session.Store;
  quotas : gmap string Z;
  inodeStore : option InodeStore;
  opMetrics : OpMetrics.OperationMetrics;
}.

Definition set_heap v s :=
  mkFileServer (serverID s) (rootDir s) v (inodes s) (users s) (nextInodeID s) (trashMeta s)
    (msAddr s) (Shared s) (fsSessions s) (sessionStore s) (quotas s) (inodeStore s) (opMetrics s).
Definition set_inodes v s :=
  mkFileServer (serverID s) (rootDir s) (heap s) v (users s) (nextInodeID s) (trashMeta s)
    (msAddr s) (Shared s) (fsSessions s) (sessionStore s) (quotas s) (inodeStore s) (opMetrics s).
Definition set_users v s :=
  mkFileServer (serverID s) (rootDir s) (heap s) (inodes s) v (nextInodeID s) (trashMeta s)
    (msAddr s) (Shared s) (fsSessions s) (sessionStore s) (quotas s) (inodeStore s) (opMetrics s).
Definition set_nextInodeID v s :=
  mkFileServer (serverID s) (rootDir s) (heap s) (inodes s) (users s) v (trashMeta s)
    (msAddr s) (Shared s) (fsSessions s) (sessionStore s) (quotas s) (inodeStore s) (opMetrics s).
Definition set_trashMeta v s :=
  mkFileServer (serverID s) (rootDir s) (heap s) (inodes s) (users s) (nextInodeID s) v
    (msAddr s) (Shared s) (fsSessions s) (sessionStore s) (quotas s) (inodeStore s) (opMetrics s).
Definition set_dirShares v s :=
  mkFileServer (serverID s) (rootDir s) (heap s) (inodes s) (users s) (nextInodeID s) (trashMeta s)
    (msAddr s) v (fsSessions s) (sessionStore s) (quotas s) (inodeStore s) (opMetrics s).
Definition set_fsSessions v s :=
  mkFileServer (serverID s) (rootDir s) (heap s) (inodes s) (users s) (nextInodeID s) (trashMeta s)
    (msAddr s) (Shared s) v (sessionStore s) (quotas s) (inodeStore s) (opMetrics s).
Definition set_sessionStore v s :=
  mkFileServer (serverID s) (rootDir s) (heap s) (inodes s) (users s) (nextInodeID s) (trashMeta s)
    (msAddr s) (Shared s) (fsSessions s) v (quotas s) (inodeStore s) (opMetrics s).
Definition set_quotas v s :=
  mkFileServer (serverID s) (rootDir s) (heap s) (inodes s) (users s) (nextInodeID s) (trashMeta s)
    (msAddr s) (Shared s) (fsSessions s) (sessionStore s) v (inodeStore s) (opMetrics s).
Definition set_inodeStore v s :=
  mkFileServer (serverID s) (rootDir s) (heap s) (inodes s) (users s) (nextInodeID s) (trashMeta s)
    (msAddr s) (Shared s) (fsSessions s) (sessionStore s) (quotas s) v (opMetrics s).
Definition set_opMetrics v s :=
  mkFileServer (serverID s) (rootDir s) (heap s) (inodes s) (users s) (nextInodeID s) (trashMeta s)
    (msAddr s) (Shared s) (fsSessions s) (sessionStore s) (quotas s) (inodeStore s) v.

(** [NewFileServer] before anything is loaded. *)
Definition blank (serverID rootDir msAddr : string) : FileServer :=
  mkFileServer serverID rootDir ∅ ∅ ∅ 0 ∅ msAddr ∅ ∅ (Session.NewStore Session.DefaultIdleTTL) ∅
    None OpMetrics.NewOperationMetrics.

(** ** Messages *)

(** The shared directories a registration lists. *)
Record SharedDir := mkSharedDir {
  sdOwner : string;
  sdName : string;
  sdPath : string;
  sdUsers : list string;
}.

(** The remote calls on the metaserver. *)
Inductive MSCall :=
  | RegisterCall (fsId address : string) (us : list string) (shared : list SharedDir)
  | RootShareCall (owner rootPath shareWith name : string)
  | RootUnshareCall (owner rootPath unshareWith name : string)
  | HeartbeatCall (fsId address : string).

(** An invalidation callback to a client. *)
Record Callback := mkCallback {
  cbTarget : clientSession;
  cbFID : FID;
  cbEvent : Z;
}.

#[export] Instance SharedDir_eq_dec : EqDecision SharedDir.
Proof. solve_decision. Defined.
#[export] Instance MSCall_eq_dec : EqDecision MSCall.
Proof. solve_decision. Defined.
#[export] Instance Callback_eq_dec : EqDecision Callback.
Proof. solve_decision. Defined.

Record Server (D : Type) := mkServer {
  srv : FileServer;
  disk : D;
  outbox : list MSCall;
  callbacks : list Callback;
}.
Arguments mkServer {D} srv disk outbox callbacks.
Arguments srv {D} s.
Arguments disk {D} s.
Arguments outbox {D} s.
Arguments callbacks {D} s.

Definition set_srv {D} v (s : Server D) := mkServer v (disk s) (outbox s) (callbacks s).
Definition set_disk {D} (v : D) (s : Server D) := mkServer (srv s) v (outbox s) (callbacks s).
Definition set_outbox {D} v (s : Server D) := mkServer (srv s) (disk s) v (callbacks s).
Definition set_callbacks {D} v (s : Server D) := mkServer (srv s) (disk s) (outbox s) v.

(** ** The environment

    The operating system, the JSON encoder at the types the server stores, the
    file hash, and the answers of the metaserver: what a call gets back, given
    the calls made before it. *)

(** The JSON image of an ACL, field for field. *)
Record ACLMetadata := mkACLMetadata {
  amOwner : string;
  amShared : list string;
}.

#[export] Instance ACLMetadata_eq_dec : EqDecision ACLMetadata.
Proof. solve_decision. Defined.
#[export] Program Instance ACLMetadata_countable : Countable ACLMetadata :=
  inj_countable' (λ a, (amOwner a, amShared a)) (λ '(o, l), mkACLMetadata o l) _.
Next Obligation. by intros []. Qed.

Definition DirSharesState : Type := gmap string (list string).
Definition QuotaConfig : Type := gmap string Z.

Class Env (D : Type) := {
  #[global] env_os :: OS D;
  #[global] env_index :: Json InodeIndexData;
  #[global] env_acl :: Json ACLMetadata;
  #[global] env_shares :: Json DirSharesState;
  #[global] env_quotas :: Json QuotaConfig;
  sha256hex : bytes → string;
  sha256str : string → string;
  ms_reply : list MSCall → MSCall → option error;
}.

Section prims.
Context {D : Type} `{Env D}.
Abbreviation S' := (Server D).

Definition gsrv {A} (f : FileServer → A) : M S' A := gets (λ s, f (srv s)).
Definition usrv (f : FileServer → FileServer) : M S' unit := modify (λ s, set_srv (f (srv s)) s).

(** A call that may change the disk. *)
Definition os {A} (c : OSCall D A) : M S' A := λ s,
  match c (disk s) with
  | (d', inl e) => (set_disk d' s, Err e)
  | (d', inr a) => (set_disk d' s, Ok a)
  end.
(** A call that only looks at it. *)
Definition osread {A} (f : D → error + A) : M S' (error + A) := gets (λ s, f (disk s)).

(** [if err != nil { return fmt.Errorf("...%w", args..., err) }] *)
Definition wrap {A} (fmt : string) (args : list string) (m : M S' A) : M S' A := λ s,
  match m s with
  | (s', Err e) => (s', Err (Wrapf fmt args e))
  | r => r
  end.
Definition of_sum {A} (x : error + A) : M S' A :=
  match x with inl e => throw e | inr a => mret a end.

(** Reading and assigning through a pointer. *)
Definition deref (l : loc) : M S' Inode :=
  o ← gsrv (λ s, heap s !! l);
  match o with Some i => mret i | None => panic "nil pointer dereference" end.
Definition assign (l : loc) (f : Inode → Inode) : M S' unit :=
  usrv (λ s, set_heap (alter f l (heap s)) s).
(** [&domain.Inode{...}] *)
Definition new_inode (i : loc → Inode) : M S' loc :=
  l ← gsrv (λ s, fresh (dom (heap s)));
  usrv (λ s, set_heap (<[l := i l]> (heap s)) s) ;;
  mret l.

(** [fs.inodes[fid.String()]]; the method call on a nil FID panics. *)
Definition find (key : string) : M S' (option loc) := gsrv (λ s, inodes s !! key).
Definition non_nil (fid : option FID) : M S' FID :=
  match fid with Some f => mret f | None => panic "nil pointer dereference" end.

(** The size of the table and of the heap bound the depth of the tree. *)
Definition fuel_of (s : FileServer) : nat := S (size (inodes s) + size (heap s)).

Definition GetInode (fid : FID) : M S' loc :=
  o ← find (FID_String fid);
  match o with
  | None => throw (Errorf "inode not found, %s" [FID_String fid])
  | Some l =>
      i ← deref l;
      (if decide (iType i = InodeTypeFile) then
         st ← osread (os_Stat (iOSPath i));
         match st with
         | inr n => assign l (set_iSize (u64 n))
         | inl _ => mret tt
         end
       else mret tt) ;;
      mret l
  end.

(** The first live child of that name. *)
Fixpoint child_by_name (children : list FID) (name : string) : M S' (option loc) :=
  match children with
  | [] => mret None
  | f :: rest =>
      o ← find (FID_String f);
      match o with
      | None => child_by_name rest name
      | Some c =>
          ci ← deref c;
          if decide (iName ci = name) then mret (Some c) else child_by_name rest name
      end
  end.
Definition GetChildInodeByName (parent : loc) (name : string) : M S' loc :=
  p ← deref parent;
  o ← child_by_name (iChildren p) name;
  of_option (Errorf "inode not found, %s" [name]) o.

Definition nameExistsInDirLocked (dir : loc) (name : string) : M S' bool :=
  d ← deref dir;
  o ← child_by_name (iChildren d) name;
  mret (bool_decide (is_Some o)).

Definition uniqueNameInDirLocked (dir : loc) (desired : string) (inodeID : Z) : M S' string :=
  ex ← nameExistsInDirLocked dir desired;
  if (ex : bool) then mret (desired +:+ "__" +:+ pretty inodeID) else mret desired.

(** [filepath.Rel(fs.rootDir, p)] *)
Definition rel (p : string) : M S' (option string) := gsrv (λ s, Rel (rootDir s) p).

(** ** The inode index of the server *)

Definition store_Save : M S' unit :=
  o ← gsrv inodeStore;
  match o with Some st => ignore (os (Save st)) | None => mret tt end.

(** The id of a path: from the index, or from the counter of the server. *)
Definition assign_id (path : string) : M S' Z :=
  o ← gsrv inodeStore;
  match o with
  | Some st =>
      let '(st', id) := GetOrAssign path st in
      usrv (set_inodeStore (Some st')) ;; mret id
  | None =>
      id ← gsrv nextInodeID;
      usrv (set_nextInodeID (u64 (id + 1))) ;; mret id
  end.
Definition sync_next_id : M S' unit :=
  o ← gsrv inodeStore;
  match o with
  | Some st => usrv (set_nextInodeID (NextInodeID (isData st)))
  | None => mret tt
  end.
Definition on_store {A} (m : M Session.Store A) : M S' A := λ s,
  let '(st, r) := m (sessionStore (srv s)) in (set_srv (set_sessionStore st (srv s)) s, r).
Definition on_index (f : InodeStore → InodeStore) : M S' unit :=
  usrv (λ s, set_inodeStore (f <$> inodeStore s) s).

(** ** Calls on the metaserver (msclient.go) *)

(** A call and its answer; no metaserver is a successful no-op. *)
Definition ms_call (c : MSCall) : M S' unit :=
  addr ← gsrv msAddr;
  if decide (addr = "") then mret tt
  else
    prev ← gets outbox;
    modify (set_outbox (prev ++ [c])) ;;
    match ms_reply prev c with None => mret tt | Some e => throw e end.

Definition RootShare (owner name path share_with : string) : M S' unit :=
  ms_call (RootShareCall owner path share_with name).
Definition RootUnshare (owner name path unshare_with : string) : M S' unit :=
  ms_call (RootUnshareCall owner path unshare_with name).
Definition HeartbeatWithMetaServer (selfAddr : string) : M S' unit :=
  id ← gsrv serverID; ms_call (HeartbeatCall id selfAddr).

(** The directory of a shared path: the inode whose cleaned path is the same. *)
Definition shared_dir_entry (s : FileServer) (kv : string * list string) : option SharedDir :=
  let full := Clean (Join [rootDir s; kv.1]) in
  let candidates := omap (λ l, heap s !! l) (map_to_list (inodes s)).*2 in
  match filter (λ i, Clean (iOSPath i) = full) candidates with
  | [] => None
  | i :: _ => Some (mkSharedDir (Owner (iACL i)) (iName i) kv.1 kv.2)
  end.
Definition RegisterWithMetaServer (selfAddr : string) : M S' unit :=
  c ← gsrv (λ s, RegisterCall (serverID s) selfAddr (map_to_list (users s)).*1
                   (omap (shared_dir_entry s) (map_to_list (Shared s))));
  ms_call c.
End prims.
