(* ===== verification/Persist.v ===== *)
(** * ACLs, directory shares and quotas on disk

    Models [internal/fileserver/aclstore.go] and [internal/fileserver/quota.go]:
    documents written to a temporary file and renamed into place, read back at
    start-up. *)
From S2P Require Import FileServer.
From Stdlib Require Import Strings.Byte.

Definition aclFileName : string := ".acl".
Definition dirSharesFileName : string := "fileserver_shares.json".

Section persist.
Context {D : Type} `{Env D}.
Abbreviation S' := (Server D).

(** ** ACLs *)

Definition getACLPath (path : string) : M S' string :=
  gsrv (λ s, Join [rootDir s; path; aclFileName]).

Definition SaveACL (path : string) (acl : ACL) : M S' unit :=
  let data := marshal (mkACLMetadata (Owner acl) (aShared acl)) in
  aclPath ← getACLPath path;
  let tmpPath := aclPath +:+ ".tmp" in
  wrap "failed to write ACL to temp file: %w" [] (os (os_WriteFile tmpPath data)) ;;
  r ← catch (os (os_Rename tmpPath aclPath));
  match r with
  | inr _ => mret tt
  | inl e =>
      ignore (os (os_Remove tmpPath)) ;;
      throw (Wrapf "failed to rename ACL file: %w" [] e)
  end.

Definition LoadACL (username path : string) : M S' ACL :=
  let defaultACL := mkACL username [] in
  aclPath ← getACLPath path;
  st ← osread (os_Stat aclPath);
  if match st with inl e => os_IsNotExist e | inr _ => false end then mret defaultACL
  else
    r ← osread (os_ReadFile aclPath);
    match r with
    | inl e => throw (Wrapf "failed to read ACL file: %w" [] e)
    | inr data =>
        match unmarshal data with
        | None => throw (Errorf "failed to parse ACL JSON: %w" [])
        | Some m => mret (mkACL (amOwner m) (amShared m))
        end
    end.

(** ** Directory shares *)

Definition SaveDirShares : M S' unit :=
  root ← gsrv rootDir;
  if decide (root = "") then throw (Errorf "rootDir is empty" [])
  else
    sh ← gsrv Shared;
    let data := marshal (sh : DirSharesState) in
    let sharesPath := Join [root; dirSharesFileName] in
    let tmpPath := sharesPath +:+ ".tmp" in
    wrap "failed to write dirShares to temp file: %w" [] (os (os_WriteFile tmpPath data)) ;;
    r ← catch (os (os_Rename tmpPath sharesPath));
    match r with
    | inr _ => mret tt
    | inl e =>
        ignore (os (os_Remove tmpPath)) ;;
        throw (Wrapf "failed to rename dirShares file: %w" [] e)
    end.

Definition LoadDirShares : M S' unit :=
  root ← gsrv rootDir;
  if decide (root = "") then throw (Errorf "rootDir is empty" [])
  else
    let sharesPath := Join [root; dirSharesFileName] in
    st ← osread (os_Stat sharesPath);
    if match st with inl e => os_IsNotExist e | inr _ => false end then usrv (set_dirShares ∅)
    else
      r ← osread (os_ReadFile sharesPath);
      match r with
      | inl e => throw (Wrapf "failed to read dirShares file: %w" [] e)
      | inr data =>
          match unmarshal data with
          | None => throw (Errorf "failed to parse dirShares JSON: %w" [])
          | Some sh => usrv (set_dirShares (sh : DirSharesState))
          end
      end.

(** ** Quotas *)

Definition getUserQuota (s : FileServer) (username : string) : Z :=
  match quotas s !! username with
  | Some q => if 0 <? q then q else defaultStorageQuota
  | None => defaultStorageQuota
  end.
Definition GetUserQuota (username : string) : M S' Z := gsrv (λ s, getUserQuota s username).

Definition saveQuotasLocked : M S' unit :=
  root ← gsrv rootDir;
  let configPath := Join [root; quotaConfigFile] in
  tmpName ← wrap "failed to create temp file: %w" []
              (os (os_CreateTemp root "quota_config_*.tmp"));
  q ← gsrv quotas;
  w ← catch (os (os_WriteFile tmpName (marshal (q : QuotaConfig))));
  match w with
  | inl e =>
      ignore (os (os_Remove tmpName)) ;;
      throw (Wrapf "failed to encode quotas: %w" [] e)
  | inr _ =>
      r ← catch (os (os_Rename tmpName configPath));
      match r with
      | inr _ => mret tt
      | inl e =>
          ignore (os (os_Remove tmpName)) ;;
          throw (Wrapf "failed to rename temp file to %s: %w" [configPath] e)
      end
  end.

Definition SetUserQuota (username : string) (quotaBytes : Z) : M S' unit :=
  if decide (username = "") then throw (Errorf "username cannot be empty" [])
  else if decide (quotaBytes = 0) then throw (Errorf "quota must be greater than 0" [])
  else
    usrv (λ s, set_quotas (<[username := quotaBytes]> (quotas s)) s) ;;
    wrap "failed to persist quota: %w" [] saveQuotasLocked.

Definition loadQuotas : M S' unit :=
  root ← gsrv rootDir;
  let configPath := Join [root; quotaConfigFile] in
  r ← osread (os_ReadFile configPath);
  match r with
  | inl e => if os_IsNotExist e then mret tt
             else throw (Wrapf "failed to read quota config: %w" [] e)
  | inr data =>
      match unmarshal data with
      | None => throw (Errorf "failed to parse quota config: %w" [])
      | Some loaded => usrv (λ s, set_quotas ((loaded : QuotaConfig) ∪ quotas s) s)
      end
  end.
End persist.
