(* ===== verification/Tree.v ===== *)
(** * Traversals of the inode tree

    Models the recursive helpers of [internal/fileserver/fileserver.go]: the trash
    directory of a user, the walks up the parents and down the children, the
    validation of a deletion, and the unlinking of an inode. *)
From S2P Require Import FileServer.

Section tree.
Context {D : Type} `{Env D}.
Abbreviation S' := (Server D).

Definition overflow {A} : M S' A := panic "stack overflow".
Definition fuel : M S' nat := gsrv fuel_of.

(** ** The trash directory *)

Definition root_inode (root_user : string) : M S' (option loc) :=
  fid ← gsrv (λ s, users s !! root_user);
  match fid with
  | None => mret None
  | Some f => find (FID_String f)
  end.

Definition getOrCreateTrashDirLocked (root_user : string) : M S' loc :=
  rootFID ← gsrv (λ s, users s !! root_user);
  match rootFID with
  | None => throw (Errorf "user not registered" [])
  | Some rf =>
      o ← find (FID_String rf);
      rootInode ← of_option (Errorf "internal error: root inode not found" []) o;
      ri ← deref rootInode;
      child ← child_by_name (iChildren ri) trashDirName;
      match child with
      | Some c =>
          ci ← deref c;
          if decide (iType ci = InodeTypeDirectory) then mret c
          else throw (Errorf "internal error: %s exists but is not a directory" [trashDirName])
      | None =>
          let trashPath := Join [iOSPath ri; trashDirName] in
          wrap "failed to create trash directory: %w" [] (os (os_MkdirAll trashPath)) ;;
          id ← assign_id (Join [root_user; trashDirName]);
          sync_next_id ;;
          store_Save ;;
          sid ← gsrv serverID;
          let trashFID := mkFID sid id 1 in
          l ← new_inode (λ _, mkInode trashFID InodeTypeDirectory trashDirName trashPath
                                (mkACL root_user []) [] 0 (Some rootInode));
          usrv (λ s, set_inodes (<[FID_String trashFID := l]> (inodes s)) s) ;;
          assign rootInode (λ i, set_iChildren (iChildren i ++ [trashFID]) i) ;;
          mret l
      end
  end.

Definition isTrashDirForUser (l : loc) (root_user : string) : M S' bool :=
  i ← deref l;
  if decide (iName i ≠ trashDirName) then mret false
  else
    r ← root_inode root_user;
    match r, iParent i with
    | Some r, Some p =>
        ri ← deref r;
        pi ← deref p;
        mret (bool_decide (FID_String (iFID pi) = FID_String (iFID ri)))
    | _, _ => mret false
    end.

(** [for n := inode; n != nil; n = n.Parent]: the walk to the root, looking for
    the trash directory. *)
Fixpoint walk_up (n : nat) (l : loc) (target : string) : M S' bool :=
  match n with
  | O => overflow
  | S n =>
      i ← deref l;
      if decide (FID_String (iFID i) = target) then mret true
      else match iParent i with
           | None => mret false
           | Some p =>
               pi ← deref p;
               if decide (FID_String (iFID pi) = FID_String (iFID i)) then mret false
               else walk_up n p target
           end
  end.

Definition isUnderTrashLocked (l : loc) (root_user : string) : M S' bool :=
  t ← catch (getOrCreateTrashDirLocked root_user);
  match t with
  | inl _ => mret false
  | inr trash =>
      ti ← deref trash;
      n ← fuel;
      walk_up n l (FID_String (iFID ti))
  end.

Definition isUnderRootTrashLocked (l : loc) (rootFID : option FID) : M S' bool :=
  match rootFID with
  | None => mret false
  | Some rf =>
      o ← find (FID_String rf);
      match o with
      | None => mret false
      | Some r =>
          t ← catch (GetChildInodeByName r trashDirName);
          match t with
          | inl _ => mret false
          | inr trash =>
              ti ← deref trash;
              n ← fuel;
              walk_up n l (FID_String (iFID ti))
          end
      end
  end.

Definition pathContainsTrashSegment (path : string) : bool :=
  contains trashDirName (Split slash path).

(** ** Down the tree *)

Fixpoint updateSubtreePaths (n : nat) (l : loc) (newOSPath : string) : M S' unit :=
  match n with
  | O => overflow
  | S n =>
      assign l (set_iOSPath newOSPath) ;;
      i ← deref l;
      if decide (iType i = InodeTypeDirectory) then
        for_each (iChildren i) (λ f,
          o ← find (FID_String f);
          match o with
          | None => mret tt
          | Some c =>
              ci ← deref c;
              updateSubtreePaths n c (Join [newOSPath; iName ci])
          end)
      else mret tt
  end.
Definition updateSubtreePathsLocked (l : loc) (newOSPath : string) : M S' unit :=
  n ← fuel; updateSubtreePaths n l newOSPath.

(** The concatenated results of a loop over the live children. *)
Fixpoint collect_children (visit : loc → M S' (list loc)) (children : list FID) :
    M S' (list loc) :=
  match children with
  | [] => mret []
  | f :: rest =>
      o ← find (FID_String f);
      here ← (match o with None => mret [] | Some c => visit c end);
      more ← collect_children visit rest;
      mret (here ++ more)
  end.

Fixpoint collect_subtree (n : nat) (l : loc) : M S' (list loc) :=
  match n with
  | O => overflow
  | S n =>
      i ← deref l;
      if decide (iType i = InodeTypeDirectory) then
        below ← collect_children (collect_subtree n) (iChildren i);
        mret (l :: below)
      else mret [l]
  end.
Definition collectSubtreeInodes (l : loc) : M S' (list loc) :=
  n ← fuel; collect_subtree n l.

(** The children [GetInode] finds, with what their pointers show. *)
Fixpoint live_children (fids : list FID) : M S' (list (loc * Inode)) :=
  match fids with
  | [] => mret []
  | f :: rest =>
      r ← catch (GetInode f);
      here ← (match r with
              | inl _ => mret []
              | inr c => ci ← deref c; mret [(c, ci)]
              end);
      more ← live_children rest;
      mret (here ++ more)
  end.

(** Post-order, the start excluded. *)
Fixpoint collect_to_delete (n : nat) (l : loc) : M S' (list loc) :=
  match n with
  | O => overflow
  | S n =>
      i ← deref l;
      collect_children (λ c,
        ci ← deref c;
        if decide (iType ci = InodeTypeDirectory ∧ iChildren ci ≠ []) then
          below ← collect_to_delete n c;
          mret (below ++ [c])
        else mret [c]) (iChildren i)
  end.
Definition collectInodesToDelete (l : loc) : M S' (list loc) :=
  n ← fuel; collect_to_delete n l.

Fixpoint validate_delete (n : nat) (l : loc) (root_user : string) (recursive : bool) :
    M S' unit :=
  match n with
  | O => overflow
  | S n =>
      i ← deref l;
      if decide (Owner (iACL i) ≠ root_user) then
        throw (Errorf "permission denied: user '%s' does not own '%s'" [root_user; iName i])
      else if decide (iType i = InodeTypeDirectory ∧ iChildren i ≠ []) then
        if negb recursive then
          throw (Errorf "directory '%s' not empty: use recursive deletion (-r flag)" [iName i])
        else
          for_each (iChildren i) (λ f,
            o ← find (FID_String f);
            match o with
            | None => mret tt
            | Some c => validate_delete n c root_user recursive
            end)
      else mret tt
  end.
Definition validateDeletePermissions (l : loc) (root_user : string) (recursive : bool) :
    M S' unit :=
  n ← fuel; validate_delete n l root_user recursive.

(** ** Unlinking *)

Definition drop_child (key : string) (children : list FID) : list FID :=
  filter (λ f, FID_String f ≠ key) children.
Definition lists_child (key : string) (children : list FID) : bool :=
  existsb (λ f, bool_decide (FID_String f = key)) children.

(** The scan for another directory that lists the inode, the table being
    produced in [order]. *)
Fixpoint unlink_scan (order : list loc) (key : string) : M S' unit :=
  match order with
  | [] => throw (Errorf "inode has no parent" [])
  | c :: rest =>
      ci ← deref c;
      if decide (iType ci ≠ InodeTypeDirectory ∨ FID_String (iFID ci) = key)
      then unlink_scan rest key
      else if lists_child key (iChildren ci)
      then assign c (λ i, set_iChildren (drop_child key (iChildren i)) i)
      else unlink_scan rest key
  end.

Definition removeFromParent (l : loc) : M S' unit :=
  i ← deref l;
  let key := FID_String (iFID i) in
  let scan := order ← gsrv (λ s, (map_to_list (inodes s)).*2); unlink_scan order key in
  match iParent i with
  | None => scan
  | Some p =>
      pi ← deref p;
      if decide (FID_String (iFID pi) = key) then mret tt
      else
        assign p (λ j, set_iChildren (drop_child key (iChildren j)) j) ;;
        if lists_child key (iChildren pi) then mret tt else scan
  end.
End tree.
