(* ===== verification/TreeWf.v ===== *)
(** * Well-formed inode trees

    The invariant of the inode table: keys are the FIDs of their inodes, parents and
    children agree, and the parent relation is well founded.  From it follow the
    termination of every traversal of Tree.v and what each of them computes. *)
From S2P Require Import FileServer Tree.

Implicit Types (s : FileServer) (l p c x : loc) (i j : Inode) (f : FID).

Definition live s l i : Prop :=
  inodes s !! FID_String (iFID i) = Some l ∧ heap s !! l = Some i.

Record tree_wf s : Prop := {
  t_key k l : inodes s !! k = Some l → ∃ i, live s l i ∧ k = FID_String (iFID i);
  t_parent l i : live s l i →
    ∃ p pi, iParent i = Some p ∧ live s p pi ∧ (p = l ∨ iFID i ∈ iChildren pi);
  t_child l i f : live s l i → f ∈ iChildren i →
    iType i = InodeTypeDirectory
    ∧ ∃ c ci, live s c ci ∧ iFID ci = f ∧ iParent ci = Some l ∧ c ≠ l;
  t_nodup l i : live s l i → NoDup (iChildren i);
  t_rank : ∃ rank : loc → nat,
    ∀ l i p, live s l i → iParent i = Some p → p ≠ l → (rank p < rank l)%nat;
}.

(** The inode [x] is [a] or lies below it. *)
Inductive below s (a : loc) : loc → Prop :=
  | below_refl : below s a a
  | below_step p x i :
      below s a p → live s x i → iParent i = Some p → p ≠ x → below s a x.

#[export] Hint Constructors below : dvfs.

(** ** Basic facts *)

Lemma live_fun s l i j : live s l i → live s l j → i = j.
Proof. intros [_ Hi] [_ Hj]. congruence. Qed.

Lemma live_loc_fun s l1 l2 i j : live s l1 i → live s l2 j → iFID i = iFID j → l1 = l2.
Proof. intros [Hi _] [Hj _] Heq. congruence. Qed.

Lemma find_child s l i f :
  tree_wf s → live s l i → f ∈ iChildren i →
  ∃ c ci, inodes s !! FID_String f = Some c ∧ live s c ci ∧ iFID ci = f
          ∧ iParent ci = Some l ∧ c ≠ l.
Proof.
  intros Hwf Hl Hf. destruct (t_child s Hwf l i f Hl Hf) as (_ & c & ci & Hc & Heq & Hp & Hne).
  exists c, ci. split_and!; try done. rewrite <-Heq. apply Hc.
Qed.

Lemma child_at s l i f c :
  tree_wf s → live s l i → f ∈ iChildren i → inodes s !! FID_String f = Some c →
  ∃ ci, live s c ci ∧ iFID ci = f ∧ iParent ci = Some l ∧ c ≠ l.
Proof.
  intros Hwf Hl Hf Hc. destruct (find_child s l i f Hwf Hl Hf) as (c' & ci & Hc' & ?).
  rewrite Hc in Hc'. injection Hc' as ->. eauto.
Qed.

Lemma live_of_key s l k : tree_wf s → inodes s !! k = Some l → ∃ i, live s l i.
Proof. intros Hwf Hk. destruct (t_key s Hwf k l Hk) as (i & Hi & _). eauto. Qed.

Lemma below_trans s a b x : below s a b → below s b x → below s a x.
Proof. intros Hab Hbx. induction Hbx; eauto with dvfs. Qed.

Lemma below_live s a x ai : below s a x → live s a ai → ∃ i, live s x i.
Proof. intros [|]; eauto. Qed.

(** Below a directory is the directory itself or below one of its children. *)
Lemma below_inv s a ai x :
  tree_wf s → live s a ai → below s a x →
  x = a ∨ ∃ c ci, live s c ci ∧ iFID ci ∈ iChildren ai ∧ iParent ci = Some a ∧ c ≠ a
                  ∧ below s c x.
Proof.
  intros Hwf Ha Hb. induction Hb as [|p x i Hb IH Hx Hp Hne]; [by left|right].
  destruct IH as [->|(c & ci & Hc & Hin & Hcp & Hca & Hcb)].
  - exists x, i. destruct (t_parent s Hwf x i Hx) as (p & pi & Hpe & Hpl & Hin).
    simplify_eq. destruct Hin as [?|Hin]; [done|].
    rewrite (live_fun s a ai pi Ha Hpl). split_and!; done || constructor.
  - exists c, ci. split_and!; eauto with dvfs.
Qed.

Lemma below_child s a ai f c ci x :
  tree_wf s → live s a ai → f ∈ iChildren ai → live s c ci → iFID ci = f →
  below s c x → below s a x.
Proof.
  intros Hwf Ha Hf Hc <- Hb. eapply below_trans; [|exact Hb].
  destruct (find_child s a ai _ Hwf Ha Hf) as (c' & ci' & _ & Hc' & Heq & Hp & Hne).
  rewrite <-(live_loc_fun s c' c ci' ci Hc' Hc Heq). eapply below_step; eauto with dvfs.
Qed.

(** A child that is below is a different inode of greater rank. *)
Definition ranked s (rank : loc → nat) : Prop :=
  (∀ l i, live s l i → (rank l < size (inodes s))%nat)
  ∧ ∀ l i p, live s l i → iParent i = Some p → p ≠ l → (rank p < rank l)%nat.

Lemma bounded_rank s : tree_wf s → ∃ rank, ranked s rank.
Proof.
  intros Hwf. destruct (t_rank s Hwf) as [r Hr].
  exists (λ l, size (filter (λ kv, r kv.2 < r l)%nat (inodes s))). split.
  - intros l i [Hk _]. apply map_subset_size. split; [apply map_filter_subseteq|].
    intros Hsub. pose proof (lookup_weaken _ _ _ _ Hk Hsub) as Hin.
    apply map_lookup_filter_Some in Hin as [_ Hin]. simpl in Hin. lia.
  - intros l i p Hl Hp Hne. pose proof (Hr l i p Hl Hp Hne) as Hlt.
    destruct (t_parent s Hwf l i Hl) as (p' & pi & Hp' & [Hpk _] & _). simplify_eq.
    apply map_subset_size. split.
    + apply map_subseteq_spec. intros k x [Hx Hlx]%map_lookup_filter_Some.
      apply map_lookup_filter_Some. simpl in *. split; [done|lia].
    + intros Hsub.
      assert (filter (λ kv, r kv.2 < r l)%nat (inodes s) !! FID_String (iFID pi) = Some p) as Hin
        by (by apply map_lookup_filter_Some).
      pose proof (lookup_weaken _ _ _ _ Hin Hsub) as Hbad.
      apply map_lookup_filter_Some in Hbad as [_ Hbad]. simpl in Hbad. lia.
Qed.

Lemma ranked_below s rank a x : ranked s rank → below s a x → (rank a ≤ rank x)%nat.
Proof.
  intros [_ Hr] Hb. induction Hb as [|p x i Hb IH Hx Hp Hne]; [done|].
  pose proof (Hr x i p Hx Hp Hne). lia.
Qed.

(** No inode is below its own child. *)
Lemma below_antisym s a x : tree_wf s → below s a x → below s x a → a = x.
Proof.
  intros Hwf Hax Hxa. destruct (bounded_rank s Hwf) as [rank Hr].
  destruct Hax as [|p x i Hb Hx Hp Hne]; [done|].
  pose proof (ranked_below s rank _ _ Hr Hxa). pose proof (ranked_below s rank _ _ Hr Hb).
  pose proof (proj2 Hr x i p Hx Hp Hne). lia.
Qed.

(** ** Running the primitives *)

Section run.
Context {D : Type} `{Env D}.
Implicit Types (w : Server D).

Lemma run_deref w l i : heap (srv w) !! l = Some i → deref l w = (w, Ok i).
Proof. unfold deref, gsrv, gets, mbind, M_bind. simpl. by intros ->. Qed.

Lemma run_deref_live w l i : live (srv w) l i → deref l w = (w, Ok i).
Proof. intros [_ Hl]. by apply run_deref. Qed.

Lemma run_find w k : find k w = (w, Ok (inodes (srv w) !! k)).
Proof. done. Qed.

Lemma run_fuel w : fuel w = (w, Ok (fuel_of (srv w))).
Proof. done. Qed.

Lemma bind_run {A B} (m : M (Server D) A) (k : A → M (Server D) B) w w' a :
  m w = (w', Ok a) → (m ≫= k) w = k a w'.
Proof. apply bind_ok. Qed.

(** ** Down the tree *)

Lemma collect_children_spec (visit : loc → M (Server D) (list loc)) (B : loc → loc → Prop)
    fs w :
  (∀ f c, f ∈ fs → inodes (srv w) !! FID_String f = Some c →
     ∃ L, visit c w = (w, Ok L) ∧ ∀ x, x ∈ L ↔ B c x) →
  ∃ L, collect_children visit fs w = (w, Ok L)
       ∧ ∀ x, x ∈ L ↔ ∃ f c, f ∈ fs ∧ inodes (srv w) !! FID_String f = Some c ∧ B c x.
Proof.
  induction fs as [|f fs IH]; intros Hv; simpl.
  { exists []. split; [done|]. set_solver. }
  destruct IH as (L & HL & Hx). { intros g c Hg. apply Hv. by apply list_elem_of_further. }
  erewrite bind_run by apply run_find.
  destruct (inodes (srv w) !! FID_String f) as [c|] eqn:Hc.
  - destruct (Hv f c) as (Lc & HLc & Hxc); [apply list_elem_of_here|done|].
    erewrite bind_run by exact HLc. erewrite bind_run by exact HL.
    exists (Lc ++ L). split; [done|]. intros x. rewrite elem_of_app, Hxc, Hx. split.
    + intros [HB|(g & c' & Hg & Hc' & HB)].
      * exists f, c. split_and!; [apply list_elem_of_here|done|done].
      * exists g, c'. split_and!; [by apply list_elem_of_further|done|done].
    + intros (g & c' & Hg & Hc' & HB). apply elem_of_cons in Hg as [->|Hg].
      * left. congruence.
      * right. eauto.
  - erewrite bind_run by done. erewrite bind_run by exact HL.
    exists L. split; [done|]. intros x. rewrite Hx. split.
    + intros (g & c' & Hg & ?). exists g, c'. split; [by apply list_elem_of_further|done].
    + intros (g & c' & Hg & Hc' & HB). apply elem_of_cons in Hg as [->|Hg]; [congruence|eauto].
Qed.
(** What the fuel has to cover below an inode. *)
Definition depth_left s (rank : loc → nat) l : nat := (size (inodes s) - rank l)%nat.

Lemma depth_left_pos s rank l i : ranked s rank → live s l i → (0 < depth_left s rank l)%nat.
Proof. intros [Hb _] Hl. pose proof (Hb l i Hl). unfold depth_left. lia. Qed.

Lemma depth_left_child s rank l c ci :
  ranked s rank → live s c ci → iParent ci = Some l → c ≠ l →
  (S (depth_left s rank c) ≤ depth_left s rank l)%nat.
Proof.
  intros [Hb Hr] Hc Hp Hne. pose proof (Hb c ci Hc).
  pose proof (Hr c ci l Hc Hp (not_eq_sym Hne)). unfold depth_left. lia.
Qed.

Lemma fuel_enough s rank l : (depth_left s rank l ≤ fuel_of s)%nat.
Proof. unfold depth_left, fuel_of. lia. Qed.

Lemma collect_subtree_run rank n w a ai :
  tree_wf (srv w) → ranked (srv w) rank → live (srv w) a ai →
  (depth_left (srv w) rank a ≤ n)%nat →
  ∃ L, collect_subtree n a w = (w, Ok L) ∧ ∀ x, x ∈ L ↔ below (srv w) a x.
Proof.
  intros Hwf Hr. revert a ai. induction n as [|n IH]; intros a ai Ha Hn.
  { pose proof (depth_left_pos _ _ _ _ Hr Ha). lia. }
  simpl. erewrite bind_run by by apply run_deref_live.
  destruct (decide (iType ai = InodeTypeDirectory)) as [Hd|Hd].
  - destruct (collect_children_spec (collect_subtree n) (below (srv w)) (iChildren ai) w)
      as (L & HL & Hx).
    { intros f c Hf Hc. destruct (child_at _ _ _ _ _ Hwf Ha Hf Hc) as (ci & Hl & _ & Hp & Hne). apply (IH c ci Hl).
      pose proof (depth_left_child _ _ _ _ _ Hr Hl Hp Hne). lia. }
    erewrite bind_run by exact HL. exists (a :: L). split; [done|]. intros x.
    rewrite elem_of_cons, Hx. split.
    + intros [->|(f & c & Hf & Hc & Hb)]; [constructor|].
      destruct (child_at _ _ _ _ _ Hwf Ha Hf Hc) as (ci & Hl & <- & _). by apply (below_child _ a ai (iFID ci) c ci).
    + intros [->|(c & ci & Hc & Hin & _ & _ & Hb)]%(below_inv _ a ai); try done; [by left|right].
      exists (iFID ci), c. split_and!; [done|apply Hc|done].
  - exists [a]. split; [done|]. intros x. rewrite list_elem_of_singleton. split.
    + intros ->. constructor.
    + intros [->|(c & ci & _ & Hin & _)]%(below_inv _ a ai); try done.
      by destruct (t_child _ Hwf a ai _ Ha Hin) as [? _].
Qed.

(** The subtree is collected, whatever its shape. *)
Lemma collectSubtree_run w a ai :
  tree_wf (srv w) → live (srv w) a ai →
  ∃ L, collectSubtreeInodes a w = (w, Ok L) ∧ ∀ x, x ∈ L ↔ below (srv w) a x.
Proof.
  intros Hwf Ha. destruct (bounded_rank _ Hwf) as [rank Hr].
  unfold collectSubtreeInodes. erewrite bind_run by apply run_fuel.
  by eapply collect_subtree_run; [..|apply fuel_enough].
Qed.

Lemma collect_to_delete_run rank n w a ai :
  tree_wf (srv w) → ranked (srv w) rank → live (srv w) a ai →
  (depth_left (srv w) rank a ≤ n)%nat →
  ∃ L, collect_to_delete n a w = (w, Ok L) ∧ ∀ x, x ∈ L ↔ below (srv w) a x ∧ x ≠ a.
Proof.
  intros Hwf Hr. revert a ai. induction n as [|n IH]; intros a ai Ha Hn.
  { pose proof (depth_left_pos _ _ _ _ Hr Ha). lia. }
  simpl. erewrite bind_run by by apply run_deref_live.
  match goal with |- ∃ L, collect_children ?v _ _ = _ ∧ _ =>
    destruct (collect_children_spec v (below (srv w)) (iChildren ai) w) as (L & HL & Hx) end.
  { intros f c Hf Hc. destruct (child_at _ _ _ _ _ Hwf Ha Hf Hc) as (ci & Hl & _ & Hp & Hne). erewrite bind_run by by apply run_deref_live.
    pose proof (depth_left_child _ _ _ _ _ Hr Hl Hp Hne) as Hd.
    destruct (decide _) as [Hdir|Hdir].
    - destruct (IH c ci Hl) as (Lc & HLc & Hxc); [lia|]. erewrite bind_run by exact HLc.
      exists (Lc ++ [c]). split; [done|]. intros x.
      rewrite elem_of_app, Hxc, list_elem_of_singleton.
      destruct (decide (x = c)) as [->|]; split; try tauto. intros _. constructor.
    - exists [c]. split; [done|]. intros x. rewrite list_elem_of_singleton. split.
      + intros ->. constructor.
      + intros [->|(d & di & _ & Hin & _)]%(below_inv _ c ci); try done.
        destruct (t_child _ Hwf c ci _ Hl Hin) as [? _]. destruct Hdir. split; [done|].
        intros Hnil. rewrite Hnil in Hin. by apply elem_of_nil in Hin. }
  exists L. split; [done|]. intros x. rewrite Hx. split.
  - intros (f & c & Hf & Hc & Hb).
    destruct (child_at _ _ _ _ _ Hwf Ha Hf Hc) as (ci & Hl & <- & Hp & Hne).
    split; [by apply (below_child _ a ai (iFID ci) c ci)|]. intros ->.
    apply Hne. symmetry. apply (below_antisym _ _ _ Hwf); [|done].
    by apply (below_child _ a ai (iFID ci) c ci); try done; constructor.
  - intros [Hb Hne]. apply (below_inv _ a ai) in Hb as [->|(c & ci & Hc & Hin & _ & _ & Hb)]; try done.
    exists (iFID ci), c. split_and!; [done|apply Hc|done].
Qed.

Lemma collectInodesToDelete_run w a ai :
  tree_wf (srv w) → live (srv w) a ai →
  ∃ L, collectInodesToDelete a w = (w, Ok L) ∧ ∀ x, x ∈ L ↔ below (srv w) a x ∧ x ≠ a.
Proof.
  intros Hwf Ha. destruct (bounded_rank _ Hwf) as [rank Hr].
  unfold collectInodesToDelete. erewrite bind_run by apply run_fuel.
  by eapply collect_to_delete_run; [..|apply fuel_enough].
Qed.
End run.

(** ** Checking a concrete tree *)

Definition inode_okb (rank : loc → nat) s l i : bool :=
  match iParent i with
  | None => false
  | Some p =>
      match heap s !! p with
      | None => false
      | Some pi =>
          bool_decide (inodes s !! FID_String (iFID pi) = Some p)
          && bool_decide (p = l ∨ (iFID i ∈ iChildren pi ∧ (rank p < rank l)%nat))
      end
  end
  && bool_decide (NoDup (iChildren i))
  && forallb (λ f,
       bool_decide (iType i = InodeTypeDirectory)
       && match inodes s !! FID_String f with
          | None => false
          | Some c =>
              match heap s !! c with
              | None => false
              | Some ci => bool_decide (iFID ci = f ∧ iParent ci = Some l ∧ c ≠ l)
              end
          end) (iChildren i).

Definition tree_wfb (rank : loc → nat) s : bool :=
  forallb (λ kl, match heap s !! kl.2 with
                 | None => false
                 | Some i => bool_decide (kl.1 = FID_String (iFID i)) && inode_okb rank s kl.2 i
                 end) (map_to_list (inodes s)).

Lemma inode_okb_sound rank s l i :
  inode_okb rank s l i = true →
  (∃ p pi, iParent i = Some p ∧ live s p pi
           ∧ (p = l ∨ (iFID i ∈ iChildren pi ∧ (rank p < rank l)%nat)))
  ∧ NoDup (iChildren i)
  ∧ ∀ f, f ∈ iChildren i → iType i = InodeTypeDirectory
      ∧ ∃ c ci, live s c ci ∧ iFID ci = f ∧ iParent ci = Some l ∧ c ≠ l.
Proof.
  unfold inode_okb. intros [[H1 H2%bool_decide_eq_true]%andb_true_iff H3]%andb_true_iff.
  split_and!; [|done|].
  - destruct (iParent i) as [p|]; [|done]. destruct (heap s !! p) as [pi|] eqn:Hp; [|done].
    apply andb_true_iff in H1 as [Hk%bool_decide_eq_true Hor%bool_decide_eq_true].
    exists p, pi. done.
  - intros f Hf. rewrite forallb_forall in H3. apply list_elem_of_In, H3 in Hf.
    apply andb_true_iff in Hf as [Ht%bool_decide_eq_true Hc]. split; [done|].
    destruct (inodes s !! FID_String f) as [c|] eqn:Hk; [|done].
    destruct (heap s !! c) as [ci|] eqn:Hci; [|done].
    apply bool_decide_eq_true in Hc as (Heq & ? & ?). exists c, ci. split; [|done].
    split; [by rewrite Heq|done].
Qed.

Lemma tree_wfb_sound rank s : tree_wfb rank s = true → tree_wf s.
Proof.
  unfold tree_wfb. rewrite forallb_forall. intros Hall.
  assert (∀ k l, inodes s !! k = Some l →
    ∃ i, heap s !! l = Some i ∧ k = FID_String (iFID i) ∧ inode_okb rank s l i = true) as Hk.
  { intros k l Hkl. specialize (Hall (k, l)). simpl in Hall.
    destruct (heap s !! l) as [i|].
    - exists i. rewrite andb_true_iff, bool_decide_eq_true in Hall. split; [done|].
      apply Hall. by apply list_elem_of_In, elem_of_map_to_list.
    - discriminate Hall. by apply list_elem_of_In, elem_of_map_to_list. }
  assert (∀ l i, live s l i → inode_okb rank s l i = true) as Hok.
  { intros l i [Hkl Hl]. destruct (Hk _ _ Hkl) as (j & Hj & _ & ?). congruence. }
  split.
  - intros k l Hkl. destruct (Hk k l Hkl) as (i & Hi & -> & _). exists i. by split.
  - intros l i Hl. destruct (inode_okb_sound _ _ _ _ (Hok l i Hl)) as ((p & pi & ? & ? & Hor) & _).
    exists p, pi. tauto.
  - intros l i f Hl Hf. by destruct (inode_okb_sound _ _ _ _ (Hok l i Hl)) as (_ & _ & ?); auto.
  - intros l i Hl. by destruct (inode_okb_sound _ _ _ _ (Hok l i Hl)) as (_ & ? & _).
  - exists rank. intros l i p Hl Hp Hne.
    destruct (inode_okb_sound _ _ _ _ (Hok l i Hl)) as ((q & pi & Hq & _ & Hor) & _).
    rewrite Hp in Hq. injection Hq as <-. destruct Hor as [?|[_ ?]]; done.
Qed.
