(* ===== verification/TreeRun.v ===== *)
(** * The traversals that write

    Which changes of a server leave its tree alone, and what the traversals that
    assign to inodes do: rewriting the paths below a directory, adding to or
    deducting from the sizes up to the root, granting and revoking access. *)
From S2P Require Import FileServer Tree TreeWf.

Implicit Types (s : FileServer) (l p c x : loc) (i j : Inode) (f : FID).

(** ** Changes that keep the tree *)

(** What the structure of the tree depends on. *)
Definition skel (i : Inode) : FID * InodeType * string * list FID * option loc * string :=
  (iFID i, iType i, iName i, iChildren i, iParent i, Owner (iACL i)).

Definition same_skel s s' : Prop :=
  inodes s' = inodes s ∧ users s' = users s
  ∧ ∀ l, skel <$> heap s' !! l = skel <$> heap s !! l.

#[export] Instance same_skel_equiv : Equivalence same_skel.
Proof.
  split.
  - by intros s.
  - intros s s' (?&?&Hh). split_and!; [done|done|]. intros l. by rewrite Hh.
  - intros s1 s2 s3 (H1&H2&H3) (H4&H5&H6). split_and!; [congruence|congruence|].
    intros l. by rewrite H6, H3.
Qed.

Lemma skel_eq i j :
  skel i = skel j →
  iFID i = iFID j ∧ iType i = iType j ∧ iName i = iName j ∧ iChildren i = iChildren j
  ∧ iParent i = iParent j ∧ Owner (iACL i) = Owner (iACL j).
Proof. unfold skel. by intros [= -> -> -> -> -> ->]. Qed.

Lemma live_skel s s' l i :
  same_skel s s' → live s l i → ∃ i', live s' l i' ∧ skel i' = skel i.
Proof.
  intros (Hi & _ & Hh) [Hk Hl]. specialize (Hh l). rewrite Hl in Hh.
  destruct (heap s' !! l) as [i'|] eqn:Hl'; [|done]. simpl in Hh. apply (inj Some) in Hh as Hs.
  exists i'. split; [|done]. apply skel_eq in Hs as (Hf & _). split; [by rewrite Hi, Hf|done].
Qed.

Lemma tree_wf_skel s s' : same_skel s s' → tree_wf s → tree_wf s'.
Proof.
  intros Hs Hwf. pose proof (symmetry Hs) as Hs'. split.
  - intros k l Hk. rewrite (proj1 Hs) in Hk. destruct (t_key s Hwf k l Hk) as (i & Hi & ->).
    destruct (live_skel _ _ _ _ Hs Hi) as (i' & Hi' & (Hf&_)%skel_eq). exists i'.
    by rewrite Hf.
  - intros l i' Hl'. destruct (live_skel _ _ _ _ Hs' Hl') as (i & Hl & (Hf&_&_&_&Hp&_)%skel_eq).
    destruct (t_parent s Hwf l i Hl) as (p & pi & Hpe & Hpl & Hin).
    destruct (live_skel _ _ _ _ Hs Hpl) as (pi' & Hpl' & (_&_&_&Hc&_)%skel_eq).
    exists p, pi'. rewrite Hc, <-Hf, <-Hp. done.
  - intros l i' f Hl' Hin. destruct (live_skel _ _ _ _ Hs' Hl') as (i & Hl & (_&Ht&_&Hc&_)%skel_eq).
    rewrite <-Hc in Hin. destruct (t_child s Hwf l i f Hl Hin) as (? & c & ci & Hcl & ? & ? & ?).
    destruct (live_skel _ _ _ _ Hs Hcl) as (ci' & Hcl' & (Hf&_&_&_&Hp&_)%skel_eq).
    split; [congruence|]. exists c, ci'. rewrite Hf, Hp. done.
  - intros l i' Hl'. destruct (live_skel _ _ _ _ Hs' Hl') as (i & Hl & (_&_&_&Hc&_)%skel_eq).
    rewrite <-Hc. by apply (t_nodup s Hwf l).
  - destruct (t_rank s Hwf) as [rank Hr]. exists rank. intros l i' p Hl' Hp'.
    destruct (live_skel _ _ _ _ Hs' Hl') as (i & Hl & (_&_&_&_&Hp&_)%skel_eq).
    apply (Hr l i p Hl). congruence.
Qed.

Lemma below_skel s s' a x : same_skel s s' → below s a x → below s' a x.
Proof.
  intros Hs Hb. induction Hb as [|p x i Hb IH Hx Hp Hne]; [constructor|].
  destruct (live_skel _ _ _ _ Hs Hx) as (i' & Hx' & (_&_&_&_&Hp'&_)%skel_eq).
  apply (below_step s' a p x i'); congruence.
Qed.

Lemma below_skel_iff s s' a x : same_skel s s' → below s a x ↔ below s' a x.
Proof. intros Hs. split; apply below_skel; [done|by symmetry]. Qed.

Lemma ranked_skel s s' rank : same_skel s s' → ranked s rank → ranked s' rank.
Proof.
  intros Hs [Hb Hr]. pose proof (symmetry Hs) as Hs'. split.
  - intros l i' Hl'. destruct (live_skel _ _ _ _ Hs' Hl') as (i & Hl & _).
    rewrite (proj1 Hs). eauto.
  - intros l i' p Hl' Hp'.
    destruct (live_skel _ _ _ _ Hs' Hl') as (i & Hl & (_&_&_&_&Hp&_)%skel_eq).
    apply (Hr l i p Hl). congruence.
Qed.

(** Assignments that keep the skeleton of the inode keep the tree. *)
Lemma same_skel_alter s l g :
  (∀ i, skel (g i) = skel i) → same_skel s (set_heap (alter g l (heap s)) s).
Proof.
  intros Hg. split_and!; [done|done|]. intros x. simpl.
  destruct (decide (x = l)) as [->|Hne].
  - rewrite lookup_alter_eq. destruct (heap s !! l) as [i|]; simpl; [by rewrite Hg|done].
  - by rewrite lookup_alter_ne.
Qed.

Lemma same_skel_lookup s s' l i :
  same_skel s s' → heap s !! l = Some i → ∃ i', heap s' !! l = Some i' ∧ skel i' = skel i.
Proof.
  intros (_ & _ & Hh) Hl. specialize (Hh l). rewrite Hl in Hh.
  destruct (heap s' !! l) as [i'|]; [|done]. apply (inj Some) in Hh. eauto.
Qed.

(** ** Paths below a directory *)

(** The names on the way down from [a] to [x]. *)
Inductive trail s : loc → list string → loc → Prop :=
  | trail_nil a : trail s a [] a
  | trail_cons a c ci ns x :
      live s c ci → iParent ci = Some a → a ≠ c → trail s c ns x →
      trail s a (iName ci :: ns) x.

Fixpoint join_all (base : string) (ns : list string) : string :=
  match ns with
  | [] => base
  | n :: ns => join_all (Join [base; n]) ns
  end.

Lemma trail_below s a ns x : trail s a ns x → below s a x.
Proof.
  induction 1 as [|a c ci ns x Hc Hp Hne Ht IH]; [constructor|].
  eapply below_trans; [|exact IH]. eapply below_step; eauto with dvfs.
Qed.

Lemma trail_snoc s a ns p x xi :
  trail s a ns p → live s x xi → iParent xi = Some p → p ≠ x → trail s a (ns ++ [iName xi]) x.
Proof.
  intros Ht Hx Hp Hne. induction Ht as [a|a c ci ns y Hc Hcp Hcne Ht IH]; simpl.
  - eapply trail_cons; eauto. constructor.
  - eapply trail_cons; eauto.
Qed.

Lemma below_trail s a x : below s a x → ∃ ns, trail s a ns x.
Proof.
  induction 1 as [|p x i Hb [ns IH] Hx Hp Hne]; [exists []; constructor|].
  exists (ns ++ [iName i]). by eapply trail_snoc.
Qed.

Lemma trail_skel s s' a ns x : same_skel s s' → trail s a ns x → trail s' a ns x.
Proof.
  intros Hs Ht. induction Ht as [|a c ci ns x Hc Hp Hne Ht IH]; [constructor|].
  destruct (live_skel _ _ _ _ Hs Hc) as (ci' & Hc' & (_&_&Hn&_&Hp'&_)%skel_eq).
  rewrite <-Hn. eapply trail_cons; eauto. congruence.
Qed.

Lemma below_of_child s a c ci : live s c ci → iParent ci = Some a → c ≠ a → below s a c.
Proof. intros Hc Hp Hne. apply (below_step s a a c ci); try done. constructor. Qed.

(** The subtrees of two children have nothing in common. *)
Lemma children_disjoint s a c c' ci ci' x :
  tree_wf s → live s c ci → live s c' ci' → iParent ci = Some a → iParent ci' = Some a →
  c ≠ a → c' ≠ a → below s c x → below s c' x → c = c'.
Proof.
  intros Hwf Hc Hc' Hp Hp' Hne Hne' Hb. induction Hb as [|p x i Hb IH Hx Hxp Hxne]; intros Hb'.
  - destruct Hb' as [|q x xi Hb' Hx Hxp Hxne]; [done|]. rewrite (live_fun _ _ _ _ Hx Hc) in Hxp.
    rewrite Hp in Hxp. injection Hxp as <-. exfalso. apply Hne'.
    apply (below_antisym s _ _ Hwf Hb'). by eapply below_of_child.
  - destruct Hb' as [|q x xi Hb' Hx' Hxp' Hxne'].
    + rewrite (live_fun _ _ _ _ Hx Hc') in Hxp. rewrite Hp' in Hxp. injection Hxp as <-.
      exfalso. apply Hne. apply (below_antisym s _ _ Hwf Hb). by eapply below_of_child.
    + apply IH. rewrite (live_fun _ _ _ _ Hx' Hx), Hxp in Hxp'. by injection Hxp' as <-.
Qed.

Section update.
Context {D : Type} `{Env D}.
Implicit Types (w : Server D).

Definition with_heap (h : gmap loc Inode) w : Server D := set_srv (set_heap h (srv w)) w.

Lemma run_assign w l g : assign l g w = (with_heap (alter g l (heap (srv w))) w, Ok tt).
Proof. done. Qed.

Definition same_but_paths s (h : gmap loc Inode) : Prop :=
  ∀ l, set_iOSPath "" <$> h !! l = set_iOSPath "" <$> heap s !! l.

Lemma same_but_paths_skel s h : same_but_paths s h → same_skel s (set_heap h s).
Proof.
  intros Hh. split_and!; [done|done|]. intros l. specialize (Hh l). simpl.
  destruct (h !! l) as [i|], (heap s !! l) as [j|]; try done. simpl in *.
  apply (inj Some) in Hh. f_equal.
  change (skel (set_iOSPath "" i) = skel (set_iOSPath "" j)). by rewrite Hh.
Qed.

(** What the rewriting of the paths at and below [a] leaves. *)
Definition updated_paths s a (base : string) (h : gmap loc Inode) : Prop :=
  (∀ x ns, trail s a ns x → h !! x = set_iOSPath (join_all base ns) <$> heap s !! x)
  ∧ ∀ x, ¬ below s a x → h !! x = heap s !! x.

Lemma updated_same s a ai base h :
  tree_wf s → live s a ai → updated_paths s a base h → (∀ x, Decision (below s a x)) →
  same_but_paths s h.
Proof.
  intros Hwf Ha [Hin Hout] Hdec x. destruct (Hdec x) as [Hb|Hb].
  - destruct (below_trail _ _ _ Hb) as [ns Ht]. rewrite (Hin x ns Ht).
    by destruct (heap s !! x).
  - by rewrite Hout.
Qed.

(** Membership below an inode can be decided: the subtree is a list. *)
Lemma below_dec w a ai :
  tree_wf (srv w) → live (srv w) a ai →
  ∃ L : list loc, ∀ x, x ∈ L ↔ below (srv w) a x.
Proof. intros Hwf Ha. destruct (collectSubtree_run w a ai Hwf Ha) as (L & _ & HL). eauto. Qed.
Definition update_spec (n : nat) (rank : loc → nat) : Prop :=
  ∀ w a ai base,
    tree_wf (srv w) → ranked (srv w) rank → live (srv w) a ai →
    (depth_left (srv w) rank a ≤ n)%nat →
    ∃ h, updateSubtreePaths n a base w = (with_heap h w, Ok tt)
         ∧ updated_paths (srv w) a base h ∧ same_but_paths (srv w) h.

(** The loop over the children [fs] of [a]. *)
Lemma update_children_run n rank a base fs w ai :
  update_spec n rank →
  tree_wf (srv w) → ranked (srv w) rank → live (srv w) a ai →
  (depth_left (srv w) rank a ≤ S n)%nat → NoDup fs → (∀ f, f ∈ fs → f ∈ iChildren ai) →
  ∃ h, for_each fs (λ f, o ← find (FID_String f);
         match o with
         | None => mret tt
         | Some c => ci ← deref c; updateSubtreePaths n c (Join [base; iName ci])
         end) w = (with_heap h w, Ok tt)
       ∧ same_but_paths (srv w) h
       ∧ (∀ f c ci ns x, f ∈ fs → live (srv w) c ci → iFID ci = f → trail (srv w) c ns x →
            h !! x = set_iOSPath (join_all (Join [base; iName ci]) ns) <$> heap (srv w) !! x)
       ∧ (∀ x, (∀ f c ci, f ∈ fs → live (srv w) c ci → iFID ci = f → ¬ below (srv w) c x) →
            h !! x = heap (srv w) !! x).
Proof.
  intros Hspec. revert w ai. induction fs as [|f fs IH]; intros w ai Hwf Hr Ha Hn Hnd Hfs.
  { exists (heap (srv w)). split; [by destruct w as [[] ? ? ?]|]. split; [by intros x|].
    split; [intros f c ci ns x Hf; by apply elem_of_nil in Hf|done]. }
  apply NoDup_cons in Hnd as [Hnf Hnd].
  destruct (find_child _ _ _ f Hwf Ha) as (c & ci & Hc & Hcl & Hcf & Hcp & Hca);
    [apply Hfs, list_elem_of_here|].
  pose proof (depth_left_child _ _ _ _ _ Hr Hcl Hcp Hca) as Hdc.
  destruct (Hspec w c ci (Join [base; iName ci]) Hwf Hr Hcl) as (h1 & Hrun1 & [Hin1 Hout1] & Hsame1);
    [lia|].
  pose proof (same_but_paths_skel _ _ Hsame1) as Hsk.
  set (w1 := with_heap h1 w). assert (same_skel (srv w) (srv w1)) as Hsk' by exact Hsk.
  destruct (live_skel _ _ _ _ Hsk' Ha) as (ai1 & Ha1 & (_&_&_&Hch&_)%skel_eq).
  destruct (IH w1 ai1) as (h2 & Hrun2 & Hsame2 & Hin2 & Hout2).
  { by eapply tree_wf_skel. } { by eapply ranked_skel. } { done. } { done. } { done. }
  { intros g Hg. rewrite Hch. by apply Hfs, list_elem_of_further. }
  assert (∀ f' c' ci' x, f' ∈ fs → live (srv w) c' ci' → iFID ci' = f' →
            below (srv w) c' x → ¬ below (srv w) c x) as Hdisj.
  { intros f' c' ci' x Hf' Hc' Hcf' Hb' Hb.
    destruct (child_at _ _ _ f' c' Hwf Ha) as (cj & Hcj & _ & Hcp' & Hne'); 
      [by apply Hfs, list_elem_of_further|by rewrite <-Hcf'; apply Hc'|].
    rewrite (live_fun _ _ _ _ Hcj Hc') in Hcp'.
    pose proof (children_disjoint _ _ _ _ _ _ _ Hwf Hcl Hc' Hcp Hcp' Hca Hne' Hb Hb') as <-.
    rewrite (live_fun _ _ _ _ Hc' Hcl) in Hcf'. congruence. }
  exists h2. split.
  { simpl. erewrite bind_run; [exact Hrun2|]. erewrite bind_run by apply run_find. rewrite Hc.
    erewrite bind_run by by apply run_deref_live. exact Hrun1. }
  split; [intros x; rewrite (Hsame2 x); apply Hsame1|]. split.
  - intros f' c' ci' ns x Hf' Hc' Hcf' Ht. apply elem_of_cons in Hf' as [->|Hf'].
    + rewrite <-Hcf in Hcf'. pose proof (live_loc_fun _ _ _ _ _ Hc' Hcl Hcf') as ->.
      rewrite (live_fun _ _ _ _ Hc' Hcl) in *. rewrite Hout2; [by apply Hin1|].
      intros g d di Hg Hd Hdf Hdb.
      destruct (live_skel _ _ _ _ (symmetry Hsk') Hd) as (di' & Hd' & (Hdf'&_)%skel_eq).
      apply (Hdisj g d di' x Hg Hd'); [congruence| |by apply (trail_below _ _ _ _ Ht)].
      by apply (below_skel _ _ _ _ (symmetry Hsk')).
    + destruct (live_skel _ _ _ _ Hsk' Hc') as (ci2 & Hc2 & (Hf2&_&Hn2&_)%skel_eq).
      rewrite (Hin2 f' c' ci2 ns x Hf' Hc2); [|congruence|by apply (trail_skel _ _ _ _ _ Hsk')].
      rewrite Hn2. f_equal. apply Hout1. eapply Hdisj; eauto. by eapply trail_below.
  - intros x Hx. rewrite Hout2; [apply Hout1; eapply Hx; eauto using list_elem_of_here|].
    intros g d di Hg Hd Hdf Hdb.
    destruct (live_skel _ _ _ _ (symmetry Hsk') Hd) as (di' & Hd' & (Hdf'&_)%skel_eq).
    apply (Hx g d di'); [by apply list_elem_of_further|done|congruence|].
    by apply (below_skel _ _ _ _ (symmetry Hsk')).
Qed.
Lemma trail_inv s a ns x :
  trail s a ns x →
  (ns = [] ∧ x = a)
  ∨ ∃ c ci ns', ns = iName ci :: ns' ∧ live s c ci ∧ iParent ci = Some a ∧ a ≠ c
                ∧ trail s c ns' x.
Proof. destruct 1 as [|a c ci ns x]; [by left|right]. exists c, ci, ns. done. Qed.

(** A child of [a] is listed by [a]. *)
Lemma child_listed s a ai c ci :
  tree_wf s → live s a ai → live s c ci → iParent ci = Some a → a ≠ c → iFID ci ∈ iChildren ai.
Proof.
  intros Hwf Ha Hc Hp Hne. destruct (t_parent s Hwf c ci Hc) as (p & pi & Hpe & Hpl & Hin).
  rewrite Hp in Hpe. injection Hpe as <-. rewrite (live_fun s _ _ _ Ha Hpl).
  by destruct Hin.
Qed.

Lemma update_run n rank : update_spec n rank.
Proof.
  induction n as [|n IH]; intros w a ai base Hwf Hr Ha Hn.
  { pose proof (depth_left_pos _ _ _ _ Hr Ha). lia. }
  set (h0 := alter (set_iOSPath base) a (heap (srv w))). set (w0 := with_heap h0 w).
  assert (same_but_paths (srv w) h0) as Hsame0.
  { intros x. subst h0. destruct (decide (x = a)) as [->|Hne].
    - rewrite lookup_alter_eq. by destruct (heap (srv w) !! a).
    - by rewrite lookup_alter_ne. }
  pose proof (same_but_paths_skel _ _ Hsame0) as Hsk.
  assert (same_skel (srv w) (srv w0)) as Hsk0 by exact Hsk.
  assert (live (srv w0) a (set_iOSPath base ai)) as Ha0.
  { split; [apply Ha|]. subst w0 h0. simpl. rewrite lookup_alter_eq.
    destruct Ha as [_ Ha']. by rewrite Ha'. }
  simpl. erewrite bind_run by exact (run_assign w a _).
  erewrite bind_run by exact (run_deref_live w0 a _ Ha0). simpl.
  destruct (decide (iType ai = InodeTypeDirectory)) as [Hd|Hd].
  - destruct (update_children_run n rank a base (iChildren ai) w0 (set_iOSPath base ai))
      as (h & Hrun & Hsame & Hin & Hout); try done.
    { by eapply tree_wf_skel. } { by eapply ranked_skel. } { by apply (t_nodup _ Hwf a). }
    exists h. split; [exact Hrun|]. split; [split|intros x; rewrite (Hsame x); apply Hsame0].
    + intros x ns [[-> ->]|(c & ci & ns' & -> & Hc & Hp & Hne & Ht)]%trail_inv.
      * rewrite Hout.
        { subst w0 h0. simpl. by rewrite lookup_alter_eq. }
        intros f c ci Hf Hc Hcf Hb. destruct (child_at _ _ _ f c Hwf Ha Hf) as (cj & Hcj & _ & Hcp & Hca).
        { rewrite <-Hcf. apply Hc. }
        exfalso. apply Hca. apply (below_antisym (srv w) _ _ Hwf).
        { by apply (below_skel _ _ _ _ (symmetry Hsk0)). } by eapply below_of_child.
      * destruct (live_skel _ _ _ _ Hsk0 Hc) as (ci0 & Hc0 & (Hf0&_&Hn0&_)%skel_eq).
        rewrite (Hin (iFID ci) c ci0 ns' x); [|by eapply child_listed|done|done|].
        2:{ by apply (trail_skel _ _ _ _ _ Hsk0). }
        rewrite Hn0. simpl. f_equal. subst w0 h0. simpl. apply lookup_alter_ne.
        intros <-. apply Hne. apply (below_antisym (srv w) _ _ Hwf).
        { apply (below_of_child _ _ _ _ Hc Hp); congruence. } by eapply trail_below.
    + intros x Hx. rewrite Hout.
      { subst w0 h0. simpl. apply lookup_alter_ne. intros <-. destruct Hx. constructor. }
      intros f c ci Hf Hc Hcf Hb. apply Hx.
      destruct (live_skel _ _ _ _ (symmetry Hsk0) Hc) as (ci0 & Hc0 & (Hf0&_)%skel_eq).
      apply (below_child _ a ai f c ci0); try done; [congruence|].
      by apply (below_skel _ _ _ _ (symmetry Hsk0)).
  - exists h0. split; [done|]. split; [split|done].
    + intros x ns [[-> ->]|(c & ci & ns' & -> & Hc & Hp & Hne & Ht)]%trail_inv.
      * subst h0. by rewrite lookup_alter_eq.
      * destruct Hd. eapply (t_child _ Hwf a ai); [done|]. by eapply child_listed.
    + intros x Hx. subst h0. apply lookup_alter_ne. intros <-. destruct Hx. constructor.
Qed.

(** The paths at and below an inode follow its new path; nothing else changes. *)
Lemma updateSubtreePaths_run w a ai base :
  tree_wf (srv w) → live (srv w) a ai →
  ∃ h, updateSubtreePathsLocked a base w = (with_heap h w, Ok tt)
       ∧ updated_paths (srv w) a base h ∧ same_but_paths (srv w) h.
Proof.
  intros Hwf Ha. destruct (bounded_rank _ Hwf) as [rank Hr].
  unfold updateSubtreePathsLocked. erewrite bind_run by apply run_fuel.
  by eapply update_run; [..|apply fuel_enough].
Qed.
End update.
