(* ===== verification/Frames.v ===== *)
(** * What the small operations leave alone

    Saving a document touches only the disk, a call on the metaserver only the
    outbox, looking up an inode only the size of a file: the facts that let the
    theorems about the large operations hold for every disk, faults included. *)
From S2P Require Import FileServer Persist Tree TreeWf TreeRun.

Implicit Types (s : FileServer) (l p x : loc) (i j : Inode) (f : FID).

Section frames.
Context {D : Type} `{Env D}.
Implicit Types (w : Server D).

(** ** Calls that change the disk only *)

Definition disk_only {A} (m : M (Server D) A) : Prop :=
  ∀ w, ∃ d r, m w = (set_disk d w, r) ∧ ∀ why, r ≠ Panic why.

Lemma set_disk_id w : set_disk (disk w) w = w.
Proof. by destruct w. Qed.

Lemma disk_only_ret {A} (a : A) : disk_only (mret a).
Proof. intros w. exists (disk w), (Ok a). by rewrite set_disk_id. Qed.
Lemma disk_only_throw {A} e : disk_only (throw e : M _ A).
Proof. intros w. exists (disk w), (Err e). by rewrite set_disk_id. Qed.
Lemma disk_only_gets {A} (g : Server D → A) : disk_only (gets g).
Proof. intros w. exists (disk w), (Ok (g w)). by rewrite set_disk_id. Qed.
Lemma disk_only_os {A} (c : OSCall D A) : disk_only (os c).
Proof. intros w. unfold os. destruct (c (disk w)) as [d [e|a]]; eauto. Qed.
Lemma disk_only_bind {A B} (m : M _ A) (k : A → M _ B) :
  disk_only m → (∀ a, disk_only (k a)) → disk_only (m ≫= k).
Proof.
  intros Hm Hk w. destruct (Hm w) as (d & r & Hr & Hp). unfold mbind, M_bind. rewrite Hr.
  destruct r as [a|e|y]; [|by eauto|by destruct (Hp y)].
  destruct (Hk a (set_disk d w)) as (d' & r' & Hr' & Hp'). rewrite Hr'. by exists d', r'.
Qed.
Lemma disk_only_catch {A} (m : M _ A) : disk_only m → disk_only (catch m).
Proof.
  intros Hm w. destruct (Hm w) as (d & r & Hr & Hp). unfold catch. rewrite Hr.
  destruct r as [a|e|y]; [by eauto|by eauto|by destruct (Hp y)].
Qed.
Lemma disk_only_ignore {A} (m : M _ A) : disk_only m → disk_only (ignore m).
Proof.
  intros Hm w. destruct (Hm w) as (d & r & Hr & Hp). unfold ignore. rewrite Hr.
  destruct r as [a|e|y]; [by eauto|by eauto|by destruct (Hp y)].
Qed.
Lemma disk_only_wrap {A} fmt args (m : M _ A) : disk_only m → disk_only (wrap fmt args m).
Proof.
  intros Hm w. destruct (Hm w) as (d & r & Hr & Hp). unfold wrap. rewrite Hr.
  destruct r as [a|e|y]; [by eauto|by eauto|by destruct (Hp y)].
Qed.
End frames.

#[export] Hint Resolve disk_only_ret disk_only_throw disk_only_gets disk_only_os disk_only_catch
  disk_only_ignore disk_only_wrap : dvfs.

(** Splits a [disk_only] goal along the binds and branches of the call. *)
Ltac disk_only_steps :=
  repeat first
    [ progress intros
    | apply disk_only_bind
    | apply disk_only_gets
    | progress (eauto with dvfs)
    | match goal with |- disk_only (match ?x with _ => _ end) => destruct x eqn:? end ].

Section calls.
Context {D : Type} `{Env D}.
Implicit Types (w : Server D).

Lemma SaveACL_disk path acl : disk_only (SaveACL path acl).
Proof. unfold SaveACL, getACLPath, gsrv. disk_only_steps. Qed.
Lemma SaveDirShares_disk : disk_only SaveDirShares.
Proof. unfold SaveDirShares, gsrv. disk_only_steps. Qed.
Lemma store_Save_disk : disk_only store_Save.
Proof. unfold store_Save, gsrv. disk_only_steps. Qed.
Lemma LoadACL_disk user path : disk_only (LoadACL user path).
Proof. unfold LoadACL, getACLPath, gsrv, osread. disk_only_steps. Qed.

(** A dropped result: the call is a change of the disk. *)
Lemma ignore_disk {A} (m : M (Server D) A) w :
  disk_only m → ∃ d, ignore m w = (set_disk d w, Ok tt).
Proof.
  intros Hm. destruct (Hm w) as (d & r & Hr & Hp). exists d. unfold ignore. rewrite Hr.
  destruct r as [a|e|y]; [done|done|by destruct (Hp y)].
Qed.

(** A step whose outcome is known, in front of the rest of a call. *)
Lemma wp_run {A B} (m : M (Server D) A) (k : A → M (Server D) B) w w1 a Q E :
  m w = (w1, Ok a) → wp (k a) Q E w1 → wp (m ≫= k) Q E w.
Proof. intros Hm Hk. unfold wp. erewrite bind_run by exact Hm. exact Hk. Qed.

(** ** Calls on the metaserver *)

(** The outbox after a call whose answer is dropped. *)
Definition sent w (c : MSCall) : list MSCall :=
  if decide (msAddr (srv w) = "") then outbox w else outbox w ++ [c].

Lemma ignore_ms_call w (c : MSCall) :
  ignore (ms_call c) w = (set_outbox (sent w c) w, Ok tt).
Proof.
  unfold ignore, ms_call, sent, gsrv, gets, mbind, M_bind. simpl.
  case_decide; [by destruct w|]. simpl.
  by destruct (ms_reply (outbox w) c).
Qed.

(** ** Looking up an inode *)

(** The heap agrees with [w] but for the sizes of files. *)
Definition refreshed w w' : Prop :=
  ∃ h, w' = with_heap h w
       ∧ ∀ x, set_iSize 0 <$> h !! x = set_iSize 0 <$> heap (srv w) !! x.

Lemma with_heap_id w : with_heap (heap (srv w)) w = w.
Proof. by destruct w as [[] ? ? ?]. Qed.

Lemma refreshed_refl w : refreshed w w.
Proof. exists (heap (srv w)). by rewrite with_heap_id. Qed.
Lemma refreshed_trans w1 w2 w3 : refreshed w1 w2 → refreshed w2 w3 → refreshed w1 w3.
Proof.
  intros (h & -> & Hh) (h' & -> & Hh'). exists h'. split; [done|]. intros x.
  rewrite Hh'. apply Hh.
Qed.

Lemma refreshed_skel w w' : refreshed w w' → same_skel (srv w) (srv w').
Proof.
  intros (h & -> & Hh). split_and!; [done|done|]. intros x. specialize (Hh x). simpl.
  destruct (h !! x) as [i|], (heap (srv w) !! x) as [j|]; try done. simpl in *.
  apply (inj Some) in Hh. f_equal.
  change (skel (set_iSize 0 i) = skel (set_iSize 0 j)). by rewrite Hh.
Qed.

Lemma GetInode_none w f :
  inodes (srv w) !! FID_String f = None →
  GetInode f w = (w, Err (Errorf "inode not found, %s" [FID_String f])).
Proof. intros Hn. unfold GetInode. erewrite bind_run by apply run_find. by rewrite Hn. Qed.

(** A directory is found as it is, a file with its size read again. *)
Lemma GetInode_run w f l i :
  live (srv w) l i → iFID i = f →
  ∃ w' i', GetInode f w = (w', Ok l) ∧ refreshed w w' ∧ live (srv w') l i'
           ∧ set_iSize 0 i' = set_iSize 0 i
           ∧ (∀ x, x ≠ l → heap (srv w') !! x = heap (srv w) !! x)
           ∧ (iType i = InodeTypeDirectory → w' = w ∧ i' = i).
Proof.
  intros Hl <-. unfold GetInode. erewrite bind_run by apply run_find.
  rewrite (proj1 Hl). erewrite bind_run by by apply run_deref_live.
  destruct (decide (iType i = InodeTypeFile)) as [Ht|Ht].
  - unfold osread, gets, mbind at 2, M_bind at 2, mbind at 1, M_bind at 1.
    destruct (os_Stat (iOSPath i) (disk w)) as [e|n].
    + exists w, i. split_and!; try done. apply refreshed_refl.
    + exists (with_heap (alter (set_iSize (u64 n)) l (heap (srv w))) w), (set_iSize (u64 n) i).
      split_and!; try done.
      * eexists. split; [done|]. intros x. destruct (decide (x = l)) as [->|Hne].
        -- rewrite lookup_alter_eq. by destruct (heap (srv w) !! l).
        -- by rewrite lookup_alter_ne.
      * split; [apply Hl|]. simpl. rewrite lookup_alter_eq. by rewrite (proj2 Hl).
      * intros x Hne. simpl. by rewrite lookup_alter_ne.
      * by rewrite Ht.
  - exists w, i. split_and!; try done. apply refreshed_refl.
Qed.
End calls.
