(* ===== verification/Invariant.v ===== *)
(** * The invariant of a running server

    The tree of TreeWf.v together with the user roots, the paths of the inodes on
    the disk and the persistent ids: every inode lives at the path its names spell
    below the root directory, and the index gives that path its id.  Hence no two
    inodes share a path and a path that is not in use gets a fresh FID. *)
From S2P Require Import FileServer Tree TreeWf TreeRun.

Implicit Types (s : FileServer) (l p x : loc) (i j : Inode) (f : FID).

(** ** Names and relative paths *)

(** A name that is one path component, also for the index, which reads
    backslashes as slashes. *)
Definition name_ok (n : string) : Prop := comp_ok n ∧ Contains n backslash = false.

Lemma names_comp_ok ns : Forall name_ok ns → Forall comp_ok ns.
Proof. intros Hn. eapply Forall_impl; [exact Hn|]. by intros n []. Qed.

Lemma SJoin_head c ns : ns ≠ [] → Forall comp_ok ns → HasPrefix (SJoin slash ns) (String c "") = true →
  ∃ n ns', ns = n :: ns' ∧ HasPrefix n (String c "") = true.
Proof.
  intros Hne Hok Hp. destruct ns as [|n ns]; [done|]. exists n, ns. split; [done|].
  inversion_clear Hok as [|?? (Hn&_) _]. apply HasPrefix_spec in Hp as [t Ht].
  destruct n as [|a n]; [done|]. destruct ns as [|m ns].
  - simpl in Ht. rewrite Ht. apply HasPrefix_app.
  - rewrite SJoin_cons in Ht by done. injection Ht as -> _. apply HasPrefix_spec. by exists n.
Qed.

Lemma SJoin_not_slash ns : ns ≠ [] → Forall comp_ok ns → HasPrefix (SJoin slash ns) "/" = false.
Proof.
  intros Hne Hok. apply not_true_is_false. intros Hp.
  destruct (SJoin_head slash ns Hne Hok Hp) as (n & ns' & -> & Hn).
  inversion_clear Hok as [|?? (_&_&_&Hf) _]. apply HasPrefix_spec in Hn as [t ->].
  unfold sep_free in Hf. by rewrite Contains_app in Hf.
Qed.

Lemma SJoin_Clean ns : ns ≠ [] → Forall comp_ok ns → Clean (SJoin slash ns) = SJoin slash ns.
Proof.
  intros Hne Hok. unfold Clean, IsAbs. rewrite SJoin_not_slash by done.
  rewrite Split_SJoin by eauto using comp_ok_free. rewrite clean_loop_ok by done. by destruct ns.
Qed.

(** The index key of a path is the path itself. *)
Lemma normalizePath_names ns :
  ns ≠ [] → Forall name_ok ns → normalizePath (SJoin slash ns) = SJoin slash ns.
Proof.
  intros Hne Hok. pose proof (names_comp_ok ns Hok) as Hc. unfold normalizePath.
  rewrite ReplaceAll_none; [|apply SJoin_free; [done|]; eapply Forall_impl; [exact Hok|]; by intros n []].
  rewrite SJoin_Clean by done.
  assert (TrimPrefix (SJoin slash ns) "./" = SJoin slash ns) as ->.
  { unfold TrimPrefix. destruct (HasPrefix _ _) eqn:Hp; [|done]. exfalso.
    apply HasPrefix_spec in Hp as [t Ht]. destruct ns as [|n ns]; [done|].
    inversion_clear Hc as [|?? (_&Hdot&_&Hf) Hrest].
    assert (Split slash (SJoin slash (n :: ns)) = n :: ns) as Hs.
    { apply Split_SJoin; [done|]. constructor; [done|by apply comp_ok_free]. }
    rewrite Ht in Hs. change ("./" +:+ t) with ("." +:+ String slash t) in Hs.
    rewrite Split_app in Hs by done. by injection Hs as <- _. }
  unfold TrimPrefix. by rewrite SJoin_not_slash.
Qed.

Lemma SJoin_names_inj ns ms :
  ns ≠ [] → ms ≠ [] → Forall name_ok ns → Forall name_ok ms →
  SJoin slash ns = SJoin slash ms → ns = ms.
Proof.
  intros ?? Hn Hm. apply SJoin_inj; try done; by apply comp_ok_free, names_comp_ok.
Qed.

(** ** The invariant *)

Definition rel_path (ns : list string) : string := SJoin slash ns.

(** The inode is at the path [ns] below the root directory [R]. *)
Definition at_path (R ns : list string) i : Prop :=
  ns ≠ [] ∧ Forall name_ok ns ∧ iOSPath i = abs_path (R ++ ns).

Record server_wf (R : list string) s : Prop := {
  s_tree : tree_wf s;
  s_dir : rootDir s = abs_path R ∧ R ≠ [] ∧ Forall comp_ok R;
  s_user u f : users s !! u = Some f →
    ∃ r ri, live s r ri ∧ iFID ri = f ∧ iParent ri = Some r ∧ iType ri = InodeTypeDirectory
            ∧ iName ri = u;
  s_root l i : live s l i → iParent i = Some l →
    users s !! iName i = Some (iFID i) ∧ Owner (iACL i) = iName i
    ∧ iType i = InodeTypeDirectory ∧ at_path R [iName i] i;
  s_path l i p pi : live s l i → iParent i = Some p → p ≠ l → live s p pi →
    name_ok (iName i) ∧ iOSPath i = Join [iOSPath pi; iName i];
  s_fid l i : live s l i → iFID i = mkFID (serverID s) (InodeID (iFID i)) 1;
  s_index : ∃ st, inodeStore s = Some st ∧ index_wf (isData st)
    ∧ ∀ l i ns, live s l i → at_path R ns i → Get (rel_path ns) st = Some (InodeID (iFID i));
}.

Section wf.
Context (R : list string) (s : FileServer) (Hwf : server_wf R s).

Lemma R_ok : R ≠ [] ∧ Forall comp_ok R.
Proof. apply (s_dir R s Hwf). Qed.

(** The path of a child extends the path of its parent by its name. *)
Lemma at_path_child l i p pi ns :
  live s l i → iParent i = Some p → p ≠ l → live s p pi → at_path R ns pi →
  at_path R (ns ++ [iName i]) i.
Proof.
  intros Hl Hp Hne Hpl (Hns & Hok & Heq). destruct (s_path R s Hwf l i p pi Hl Hp Hne Hpl) as [Hn Hpath].
  split; [by destruct ns|]. split; [by apply Forall_app; split; [|apply Forall_singleton]|].
  rewrite Hpath, Heq, Join_abs_path; [by rewrite <-app_assoc|..].
  - apply Forall_app. split; [apply R_ok|by apply names_comp_ok].
  - apply Hn.
  - destruct R_ok as [? _]. by destruct R.
Qed.

(** Every live inode has a path. *)
Lemma live_path l i : live s l i → ∃ ns, at_path R ns i.
Proof.
  destruct (t_rank s (s_tree R s Hwf)) as [rank Hr].
  remember (rank l) as n eqn:Hn. revert l i Hn.
  induction (lt_wf n) as [n _ IH]. intros l i -> Hl.
  destruct (t_parent s (s_tree R s Hwf) l i Hl) as (p & pi & Hp & Hpl & _).
  destruct (decide (p = l)) as [->|Hne].
  - exists [iName i]. by apply (s_root R s Hwf l i).
  - destruct (IH (rank p) (Hr l i p Hl Hp Hne) p pi eq_refl Hpl) as [ns Hns].
    exists (ns ++ [iName i]). by eapply at_path_child.
Qed.

Lemma at_path_fun i ns ms : at_path R ns i → at_path R ms i → ns = ms.
Proof.
  intros (_ & Hn & Hpn) (_ & Hm & Hpm). rewrite Hpn in Hpm.
  apply abs_path_inj in Hpm; [by apply app_inv_head in Hpm|..];
    (apply Forall_app; split; [apply R_ok|by apply names_comp_ok]).
Qed.

(** Two inodes never share a path. *)
Lemma at_path_inj l i l' i' ns :
  live s l i → live s l' i' → at_path R ns i → at_path R ns i' → l = l'.
Proof.
  intros Hl Hl' Hn Hn'. destruct (s_index R s Hwf) as (st & _ & _ & Hget).
  apply (live_loc_fun s l l' i i' Hl Hl').
  rewrite (s_fid R s Hwf l i Hl), (s_fid R s Hwf l' i' Hl').
  pose proof (Hget l i ns Hl Hn) as H1. pose proof (Hget l' i' ns Hl' Hn') as H2. congruence.
Qed.

Lemma Rel_at_path i ns :
  at_path R ns i → Rel (rootDir s) (iOSPath i) = Some (rel_path ns).
Proof.
  intros (Hne & Hok & ->). destruct (s_dir R s Hwf) as (-> & _ & HR).
  apply Rel_abs_path; [|done]. apply Forall_app. split; [done|by apply names_comp_ok].
Qed.

(** The path of a name no child has is not in use. *)
Lemma child_path_free p pi ns n :
  live s p pi → at_path R ns pi →
  (∀ c ci, live s c ci → iFID ci ∈ iChildren pi → iName ci ≠ n) →
  ∀ x xi, live s x xi → ¬ at_path R (ns ++ [n]) xi.
Proof.
  intros Hp Hns Hfree x xi Hx Hat.
  destruct (t_parent s (s_tree R s Hwf) x xi Hx) as (q & qi & Hq & Hql & Hin).
  destruct (decide (q = x)) as [->|Hne].
  - destruct (s_root R s Hwf x xi Hx Hq) as (_ & _ & _ & Hroot).
    pose proof (at_path_fun _ _ _ Hat Hroot) as Heq. destruct Hns as [Hne _].
    destruct ns as [|m [|]]; done.
  - destruct Hin as [?|Hin]; [done|]. destruct (live_path q qi Hql) as [ms Hms].
    pose proof (at_path_fun _ _ _ Hat (at_path_child _ _ _ _ _ Hx Hq Hne Hql Hms)) as Heq.
    apply app_inj_2 in Heq as [<- [= ->]]; [|done].
    pose proof (at_path_inj _ _ _ _ _ Hp Hql Hns Hms) as ->.
    rewrite (live_fun s q pi qi Hp Hql) in Hfree. by apply (Hfree x xi).
Qed.

(** A path not in use is given an id no live inode has, and the ids of the
    others stay. *)
Lemma assign_fresh st st' id ns :
  inodeStore s = Some st → ns ≠ [] → Forall name_ok ns →
  (∀ l i, live s l i → ¬ at_path R ns i) →
  NextInodeID (isData st) + 1 < two64 → GetOrAssign (rel_path ns) st = (st', id) →
  index_wf (isData st')
  ∧ Get (rel_path ns) st' = Some id
  ∧ (∀ l i, live s l i → InodeID (iFID i) ≠ id)
  ∧ (∀ l i ms, live s l i → at_path R ms i → Get (rel_path ms) st' = Some (InodeID (iFID i))).
Proof.
  intros Hst Hne Hok Hfree Hlim Hrun. destruct (s_index R s Hwf) as (st0 & Hst0 & Hix & Hget).
  rewrite Hst in Hst0. injection Hst0 as <-.
  assert (st' = (GetOrAssign (rel_path ns) st).1) as Hst' by by rewrite Hrun.
  assert (id = (GetOrAssign (rel_path ns) st).2) as Hid by by rewrite Hrun.
  assert (∀ l i ms, live s l i → at_path R ms i → ms ≠ ns) as Hother.
  { intros l i ms Hl Hms ->. by eapply Hfree. }
  assert (∀ l i ms, live s l i → at_path R ms i →
            normalizePath (rel_path ns) ≠ normalizePath (rel_path ms)) as Hnorm.
  { intros l i ms Hl Hms. unfold rel_path. destruct Hms as (Hne' & Hok' & Hp).
    rewrite !normalizePath_names by done. intros Heq.
    apply SJoin_names_inj in Heq; try done. subst. by eapply Hfree. }
  split_and!.
  - rewrite Hst'. by apply GetOrAssign_wf.
  - rewrite Hst', Hid. apply GetOrAssign_Get.
  - intros l i Hl. destruct (live_path l i Hl) as [ms Hms]. pose proof (Hget l i ms Hl Hms) as Hgi.
    destruct (Get (rel_path ns) st) as [id0|] eqn:Hg.
    + rewrite (GetOrAssign_known _ _ _ Hg) in Hrun. injection Hrun as _ <-. intros Heq.
      eapply (Hnorm l i ms Hl Hms), wf_inj; [exact Hix| |].
      * exact Hg.
      * unfold Get in Hgi. by rewrite Hgi, Heq.
    + intros Heq. rewrite Hid in Heq. by eapply GetOrAssign_fresh.
  - intros l i ms Hl Hms. rewrite Hst', GetOrAssign_other; [by apply (Hget l i)|].
    by eapply Hnorm.
Qed.
End wf.

(** ** Adding an inode to a directory *)

Definition add_link f (i : Inode) : Inode := set_iChildren (iChildren i ++ [f]) i.

Section add.
Context (R : list string) (s s' : FileServer) (Hwf : server_wf R s).
Context (p l : loc) (pi i : Inode) (ns : list string) (st st' : InodeStore) (id : Z).
Context (Hp : live s p pi) (Hdir : iType pi = InodeTypeDirectory) (Hns : at_path R ns pi).
Context (Hparent : iParent i = Some p) (Hleaf : iChildren i = []) (Hname : name_ok (iName i)).
Context (Hpath : iOSPath i = Join [iOSPath pi; iName i]) (Hfid : iFID i = mkFID (serverID s) id 1).
Context (Hnew : heap s !! l = None).
Context (Hfree : ∀ x xi, live s x xi → ¬ at_path R (ns ++ [iName i]) xi).
Context (Hst : inodeStore s = Some st) (Hlim : NextInodeID (isData st) + 1 < two64).
Context (Hrun : GetOrAssign (rel_path (ns ++ [iName i])) st = (st', id)).
Context (Hinodes : inodes s' = <[FID_String (iFID i) := l]> (inodes s)).
Context (Hheap : heap s' = alter (add_link (iFID i)) p (<[l := i]> (heap s))).
Context (Husers : users s' = users s) (Hroot : rootDir s' = rootDir s).
Context (Hid : serverID s' = serverID s) (Hst' : inodeStore s' = Some st').

Definition relinked x (xi : Inode) : Inode := if decide (x = p) then add_link (iFID i) xi else xi.

Lemma add_assign :
  index_wf (isData st') ∧ Get (rel_path (ns ++ [iName i])) st' = Some id
  ∧ (∀ x xi, live s x xi → InodeID (iFID xi) ≠ id)
  ∧ (∀ x xi ms, live s x xi → at_path R ms xi → Get (rel_path ms) st' = Some (InodeID (iFID xi))).
Proof.
  apply (assign_fresh R s Hwf st st' id (ns ++ [iName i])); try done.
  - by destruct ns.
  - destruct Hns as (_ & Hok & _). apply Forall_app. split; [done|by apply Forall_singleton].
Qed.

Lemma add_ne : l ≠ p.
Proof. intros ->. destruct Hp as [_ Hpp]. congruence. Qed.

Lemma add_key x xi : live s x xi → FID_String (iFID xi) ≠ FID_String (iFID i).
Proof.
  intros Hx Heq%FID_String_inj. destruct add_assign as (_ & _ & Hids & _).
  apply (Hids x xi Hx). by rewrite Heq, Hfid.
Qed.

Lemma add_live_new : live s' l i.
Proof.
  split; [by rewrite Hinodes, lookup_insert_eq|]. pose proof add_ne.
  by rewrite Hheap, lookup_alter_ne, lookup_insert_eq.
Qed.

Lemma add_live_old x xi : live s x xi → live s' x (relinked x xi).
Proof.
  intros Hx. pose proof (add_key x xi Hx). destruct Hx as [Hk Hh]. unfold relinked.
  assert (x ≠ l) by congruence. split.
  - rewrite Hinodes. case_decide; simpl; by rewrite lookup_insert_ne.
  - rewrite Hheap. case_decide as Hxp; [subst x|].
    + rewrite lookup_alter_eq, lookup_insert_ne by done. by rewrite Hh.
    + by rewrite lookup_alter_ne, lookup_insert_ne.
Qed.

Lemma add_live_inv x xi :
  live s' x xi → (x = l ∧ xi = i) ∨ (x ≠ l ∧ ∃ xj, live s x xj ∧ xi = relinked x xj).
Proof.
  intros [Hk Hh]. rewrite Hinodes in Hk. rewrite Hheap in Hh. pose proof add_ne.
  destruct (decide (x = l)) as [->|Hne].
  - left. split; [done|]. rewrite lookup_alter_ne, lookup_insert_eq in Hh by done. congruence.
  - right. split; [done|]. apply lookup_insert_Some in Hk as [[_ ?]|[_ Hk]]; [done|].
    unfold relinked. destruct (decide (x = p)) as [->|Hxp].
    + rewrite lookup_alter_eq, lookup_insert_ne in Hh by done.
      destruct (heap s !! p) as [xj|] eqn:Hxj; [|done]. simpl in Hh. injection Hh as <-.
      exists xj. done.
    + rewrite lookup_alter_ne, lookup_insert_ne in Hh by done. by exists xi.
Qed.

(** The fields the invariant looks at, children aside, are those of before. *)
Lemma relinked_fields x xi :
  iFID (relinked x xi) = iFID xi ∧ iType (relinked x xi) = iType xi
  ∧ iName (relinked x xi) = iName xi ∧ iOSPath (relinked x xi) = iOSPath xi
  ∧ iParent (relinked x xi) = iParent xi ∧ iACL (relinked x xi) = iACL xi
  ∧ iChildren (relinked x xi) = (if decide (x = p) then iChildren xi ++ [iFID i] else iChildren xi).
Proof. unfold relinked. by case_decide. Qed.

Lemma add_tree : tree_wf s'.
Proof.
  pose proof (s_tree R s Hwf) as Ht. pose proof add_ne as Hlp. split.
  - intros k x Hk. rewrite Hinodes in Hk. apply lookup_insert_Some in Hk as [[<- <-]|[_ Hk]].
    + exists i. split; [apply add_live_new|done].
    + destruct (t_key s Ht k x Hk) as (xi & Hx & ->). exists (relinked x xi).
      split; [by apply add_live_old|]. by destruct (relinked_fields x xi) as [-> _].
  - intros x xi [[-> ->]|(Hxl & xj & Hx & ->)]%add_live_inv.
    + exists p, (relinked p pi). split; [done|]. split; [by apply add_live_old|right].
      destruct (relinked_fields p pi) as (_&_&_&_&_&_&->). rewrite decide_True by done. set_solver.
    + destruct (t_parent s Ht x xj Hx) as (q & qi & Hq & Hql & Hin).
      exists q, (relinked q qi). destruct (relinked_fields x xj) as (->&_&_&_&->&_).
      split; [done|]. split; [by apply add_live_old|].
      destruct (relinked_fields q qi) as (_&_&_&_&_&_&->). case_decide; set_solver.
  - intros x xi f [[-> ->]|(Hxl & xj & Hx & ->)]%add_live_inv Hin.
    + rewrite Hleaf in Hin. by apply elem_of_nil in Hin.
    + destruct (relinked_fields x xj) as (_&->&_&_&_&_&Hch). rewrite Hch in Hin.
      assert (f ∈ iChildren xj ∨ (x = p ∧ f = iFID i)) as [Hold|[-> ->]] by (case_decide; set_solver).
      * destruct (t_child s Ht x xj f Hx Hold) as (? & c & ci & Hc & Hcf & Hcp & Hcne).
        split; [done|]. exists c, (relinked c ci).
        destruct (relinked_fields c ci) as (->&_&_&_&->&_). auto using add_live_old.
      * rewrite (live_fun s p xj pi Hx Hp). split; [done|]. exists l, i.
        split; [apply add_live_new|done].
  - intros x xi [[-> ->]|(Hxl & xj & Hx & ->)]%add_live_inv; [rewrite Hleaf; constructor|].
    destruct (relinked_fields x xj) as (_&_&_&_&_&_&->). pose proof (t_nodup s Ht x xj Hx).
    case_decide; [|done]. apply NoDup_app. split_and!; [done| |apply NoDup_singleton].
    intros f Hf ->%list_elem_of_singleton.
    destruct (t_child s Ht x xj _ Hx Hf) as (_ & c & ci & Hc & Hcf & _).
    by apply (add_key c ci Hc); rewrite Hcf.
  - destruct (bounded_rank s Ht) as [rank Hr].
    exists (λ x, if decide (x = l) then size (inodes s) else rank x).
    intros x xi q [[-> ->]|(Hxl & xj & Hx & ->)]%add_live_inv Hq Hne.
    + rewrite Hparent in Hq. injection Hq as <-. rewrite decide_False, decide_True by done.
      by apply (proj1 Hr p pi).
    + destruct (relinked_fields x xj) as (_&_&_&_&Hpar&_). rewrite Hpar in Hq.
      rewrite (decide_False (P := x = l)) by done. pose proof (proj2 Hr x xj q Hx Hq Hne).
      case_decide as Hql; [|done]. subst q.
      destruct (t_parent s Ht x xj Hx) as (q & qi & Hq' & [_ Hqh] & _). congruence.
Qed.
(** The path of an inode does not depend on its links. *)
Lemma relinked_at_path ms x xi : at_path R ms (relinked x xi) ↔ at_path R ms xi.
Proof. unfold at_path. by destruct (relinked_fields x xi) as (_&_&_&->&_). Qed.

Lemma add_wf : server_wf R s'.
Proof.
  pose proof add_ne as Hlp. destruct add_assign as (Hix & Hgnew & Hids & Hgold). split.
  - apply add_tree.
  - rewrite Hroot. apply (s_dir R s Hwf).
  - intros u f Hu. rewrite Husers in Hu. destruct (s_user R s Hwf u f Hu) as (r & ri & Hr & <- & ?).
    exists r, (relinked r ri). destruct (relinked_fields r ri) as (->&->&->&_&->&_).
    auto using add_live_old.
  - intros x xi [[-> ->]|(Hxl & xj & Hx & ->)]%add_live_inv Hpar.
    + rewrite Hparent in Hpar. congruence.
    + rewrite relinked_at_path. destruct (relinked_fields x xj) as (->&->&->&_&Hpe&->&_).
      rewrite Hpe in Hpar. rewrite Husers. by apply (s_root R s Hwf x xj).
  - intros x xi q qi [[-> ->]|(Hxl & xj & Hx & ->)]%add_live_inv Hpar Hne Hq.
    + rewrite Hparent in Hpar. injection Hpar as <-.
      apply add_live_inv in Hq as [[-> _]|(_ & qj & Hq & ->)]; [done|].
      destruct (relinked_fields p qj) as (_&_&_&->&_). by rewrite (live_fun s p qj pi Hq Hp).
    + destruct (relinked_fields x xj) as (_&_&->&->&Hpe&_). rewrite Hpe in Hpar.
      apply add_live_inv in Hq as [[-> _]|(_ & qj & Hq & ->)].
      * destruct (t_parent s (s_tree R s Hwf) x xj Hx) as (q & qi' & Hq' & [_ Hqh] & _). congruence.
      * destruct (relinked_fields q qj) as (_&_&_&->&_). by apply (s_path R s Hwf x xj q qj).
  - intros x xi [[-> ->]|(Hxl & xj & Hx & ->)]%add_live_inv; [by rewrite Hfid, Hid|].
    destruct (relinked_fields x xj) as (->&_). rewrite Hid. by apply (s_fid R s Hwf x).
  - exists st'. split_and!; [done|done|]. intros x xi ms [[-> ->]|(Hxl & xj & Hx & ->)]%add_live_inv Hms.
    + destruct Hns as (Hne & Hok & Heq). assert (ms = ns ++ [iName i]) as ->; [|by rewrite Hgnew, Hfid].
      apply (at_path_fun R s Hwf i); [done|]. split; [by destruct ns|].
      split; [by apply Forall_app; split; [|apply Forall_singleton]|].
      destruct (R_ok R s Hwf) as [HRne HR].
      rewrite Hpath, Heq, Join_abs_path; [by rewrite <-app_assoc| |apply Hname|by destruct R].
      apply Forall_app. split; [done|by apply names_comp_ok].
    + rewrite relinked_at_path in Hms. destruct (relinked_fields x xj) as (->&_). by apply (Hgold x).
Qed.
Lemma add_all :
  server_wf R s' ∧ live s' l i ∧ (∀ x xi, live s x xi → live s' x (relinked x xi)) ∧ l ≠ p
  ∧ inodes s !! FID_String (iFID i) = None.
Proof.
  split_and!; [exact add_wf|exact add_live_new|exact add_live_old|exact add_ne|].
  destruct (inodes s !! FID_String (iFID i)) as [x|] eqn:Hx; [|done].
  destruct (t_key s (s_tree R s Hwf) _ _ Hx) as (xi & Hxi & Heq). by destruct (add_key x xi Hxi).
Qed.
End add.

(** The invariant looks at neither the counter of the server, nor the trash
    records, the shares, the sessions, the quotas and the metrics. *)
Lemma server_wf_ext R s s' :
  inodes s' = inodes s → heap s' = heap s → users s' = users s → rootDir s' = rootDir s →
  serverID s' = serverID s → inodeStore s' = inodeStore s →
  server_wf R s → server_wf R s'.
Proof.
  intros Hi Hh Hu Hr Hd Hx Hwf.
  assert (∀ l i, live s' l i ↔ live s l i) as Hlive by (intros; unfold live; by rewrite Hi, Hh).
  split.
  - eapply tree_wf_skel; [|apply Hwf]. split_and!; [done|done|]. intros l. by rewrite Hh.
  - rewrite Hr. apply Hwf.
  - intros u f. rewrite Hu. intros Huf. destruct (s_user R s Hwf u f Huf) as (r & ri & ?).
    exists r, ri. by rewrite Hlive.
  - intros l i. rewrite Hlive, Hu. apply Hwf.
  - intros l i p pi. rewrite !Hlive. apply Hwf.
  - intros l i. rewrite Hlive, Hd. apply Hwf.
  - rewrite Hx. destruct (s_index R s Hwf) as (st & ? & ? & Hg). exists st. split_and!; try done.
    intros l i ns. rewrite Hlive. apply Hg.
Qed.

(** Nor at the sizes and the lists of shared users. *)
Definition shape (i : Inode) : Inode := set_iSize 0 (set_Shared [] i).

Lemma shape_eq i j :
  shape i = shape j → skel i = skel j ∧ iOSPath i = iOSPath j.
Proof.
  intros Heq. split; [|by apply (f_equal iOSPath) in Heq].
  change (skel (shape i) = skel (shape j)). by rewrite Heq.
Qed.

Lemma server_wf_shape R s h :
  (∀ l, shape <$> h !! l = shape <$> heap s !! l) → server_wf R s → server_wf R (set_heap h s).
Proof.
  intros Hh Hwf.
  assert (same_skel s (set_heap h s)) as Hsk.
  { split_and!; [done|done|]. intros l. specialize (Hh l). simpl.
    destruct (h !! l) as [i|], (heap s !! l) as [j|]; try done. simpl in *.
    apply (inj Some) in Hh. f_equal. by apply shape_eq. }
  assert (∀ l i', live (set_heap h s) l i' →
            ∃ i, live s l i ∧ skel i' = skel i ∧ iOSPath i' = iOSPath i) as Hback.
  { intros l i' [Hk Hl]. simpl in *. specialize (Hh l). rewrite Hl in Hh.
    destruct (heap s !! l) as [i|] eqn:Hi; [|done]. apply (inj Some), shape_eq in Hh as [Hs Hp].
    exists i. split; [|done]. split; [|done]. by apply skel_eq in Hs as (<-&_). }
  assert (∀ l i, live s l i →
            ∃ i', live (set_heap h s) l i' ∧ skel i' = skel i ∧ iOSPath i' = iOSPath i) as Hfwd.
  { intros l i Hl. destruct (live_skel _ _ _ _ Hsk Hl) as (i' & Hl' & Hs).
    exists i'. split_and!; [done|done|]. destruct (Hback l i' Hl') as (j & Hj & _ & Hp).
    by rewrite (live_fun s l i j Hl Hj). }
  assert (∀ ns i i', iOSPath i' = iOSPath i → at_path R ns i' → at_path R ns i) as Hat.
  { unfold at_path. by intros ns i i' ->. }
  split.
  - eapply tree_wf_skel; [exact Hsk|apply Hwf].
  - apply (s_dir R s Hwf).
  - intros u f Hu. destruct (s_user R s Hwf u f Hu) as (r & ri & Hr & Hf & Hp & Ht & Hn).
    destruct (Hfwd r ri Hr) as (ri' & Hr' & (E1&E2&E3&_&E5&_)%skel_eq & _).
    exists r, ri'. split_and!; congruence.
  - intros l i' Hl Hp. destruct (Hback l i' Hl) as (i & Hi & (E1&E2&E3&_&E5&E6)%skel_eq & Epath).
    rewrite E5 in Hp. destruct (s_root R s Hwf l i Hi Hp) as (?&?&?&Hpath).
    rewrite E1, E2, E3, E6. split_and!; try done. apply (Hat _ i' i); [congruence|done].
  - intros l i' p pi' Hl Hp Hne Hpl.
    destruct (Hback l i' Hl) as (i & Hi & (E1&E2&E3&_&E5&E6)%skel_eq & Epath).
    destruct (Hback p pi' Hpl) as (pi & Hpi & _ & Eppath).
    rewrite E5 in Hp. destruct (s_path R s Hwf l i p pi Hi Hp Hne Hpi). rewrite E3, Epath, Eppath. done.
  - intros l i' Hl. destruct (Hback l i' Hl) as (i & Hi & (E1&_)%skel_eq & _). rewrite E1.
    by apply (s_fid R s Hwf l).
  - destruct (s_index R s Hwf) as (st & ? & ? & Hg). exists st. split_and!; try done.
    intros l i' ns Hl Hns. destruct (Hback l i' Hl) as (i & Hi & (E1&_)%skel_eq & Epath).
    rewrite E1. apply (Hg l i ns Hi). by apply (Hat ns i i').
Qed.

(** ** Deciding the invariant of a concrete server *)

Definition name_okb (n : string) : bool :=
  negb (bool_decide (n = "")) && negb (bool_decide (n = ".")) && negb (bool_decide (n = ".."))
  && negb (Contains n slash) && negb (Contains n backslash).

Lemma name_okb_sound n : name_okb n = true → name_ok n.
Proof.
  unfold name_okb. rewrite !andb_true_iff, !negb_true_iff, !bool_decide_eq_false.
  intros [[[[? ?] ?] ?] ?]. by repeat split.
Qed.

Definition root_okb s (l : loc) (i : Inode) : bool :=
  bool_decide (users s !! iName i = Some (iFID i)) && bool_decide (Owner (iACL i) = iName i)
  && bool_decide (iType i = InodeTypeDirectory) && name_okb (iName i)
  && bool_decide (iOSPath i = Join [rootDir s; iName i]).

(** One inode: a root, or a child of its parent, with its id in the index. *)
Definition server_inode_okb s (st : InodeStore) (l : loc) (i : Inode) : bool :=
  bool_decide (iFID i = mkFID (serverID s) (InodeID (iFID i)) 1)
  && match Rel (rootDir s) (iOSPath i) with
     | Some p => bool_decide (Get p st = Some (InodeID (iFID i)))
     | None => false
     end
  && match iParent i with
     | Some p =>
         if decide (p = l) then root_okb s l i
         else match heap s !! p with
              | Some pi => name_okb (iName i) && bool_decide (iOSPath i = Join [iOSPath pi; iName i])
              | None => false
              end
     | None => false
     end.

Definition user_okb s (uf : string * FID) : bool :=
  match inodes s !! FID_String uf.2 with
  | Some r => match heap s !! r with
              | Some ri => bool_decide (iFID ri = uf.2) && bool_decide (iParent ri = Some r)
                           && bool_decide (iType ri = InodeTypeDirectory)
                           && bool_decide (iName ri = uf.1)
              | None => false
              end
  | None => false
  end.

Definition index_wfb (d : InodeIndexData) : bool :=
  (0 <=? NextInodeID d)
  && forallb (λ pi, (0 <=? pi.2) && (pi.2 <? NextInodeID d)) (map_to_list (PathToID d))
  && bool_decide (NoDup (map_to_list (PathToID d)).*2).

Lemma index_wfb_sound d : index_wfb d = true → index_wf d.
Proof.
  unfold index_wfb. rewrite !andb_true_iff, forallb_forall, bool_decide_eq_true.
  intros [[Hn Hr] Hd]. split; [lia| |].
  - intros p id Hp. specialize (Hr (p, id)). simpl in Hr.
    apply elem_of_map_to_list, list_elem_of_In, Hr in Hp. lia.
  - intros p q id Hp%elem_of_map_to_list Hq%elem_of_map_to_list. revert Hp Hq Hd.
    generalize (map_to_list (PathToID d)). induction l as [|[r n] l IH]; simpl; [set_solver|].
    intros Hp Hq [Hno Hd]%NoDup_cons. rewrite list_elem_of_fmap in Hno.
    apply elem_of_cons in Hp as [Hp|Hp], Hq as [Hq|Hq]; simplify_eq; try done; auto.
    + exfalso; apply Hno. by exists (q, n).
    + exfalso; apply Hno. by exists (p, n).
Qed.

Definition server_wfb (R : list string) (rank : loc → nat) s : bool :=
  tree_wfb rank s && bool_decide (rootDir s = abs_path R) && bool_decide (R ≠ [])
  && forallb name_okb R
  && forallb (user_okb s) (map_to_list (users s))
  && match inodeStore s with
     | None => false
     | Some st =>
         index_wfb (isData st)
         && forallb (λ kl, match heap s !! kl.2 with
                           | Some i => server_inode_okb s st kl.2 i
                           | None => false
                           end) (map_to_list (inodes s))
     end.

Lemma user_okb_sound s u f :
  user_okb s (u, f) = true →
  ∃ r ri, live s r ri ∧ iFID ri = f ∧ iParent ri = Some r ∧ iType ri = InodeTypeDirectory
          ∧ iName ri = u.
Proof.
  unfold user_okb. simpl. destruct (inodes s !! FID_String f) as [r|] eqn:Hk; [|done].
  destruct (heap s !! r) as [ri|] eqn:Hr; [|done].
  rewrite !andb_true_iff, !bool_decide_eq_true. intros [[[Hf ?] ?] ?].
  exists r, ri. split_and!; try done. split; [by rewrite Hf|done].
Qed.

Lemma server_wfb_sound R rank s : server_wfb R rank s = true → server_wf R s.
Proof.
  unfold server_wfb. destruct (inodeStore s) as [st|] eqn:Hst; [|by rewrite andb_false_r].
  rewrite !andb_true_iff, !forallb_forall, !bool_decide_eq_true.
  intros [[[[[Ht%tree_wfb_sound Hdir] HRne] HR] Hu] [Hix%index_wfb_sound Hall]].
  assert (∀ l i, live s l i → server_inode_okb s st l i = true) as Hok.
  { intros l i [Hk Hl]. specialize (Hall (FID_String (iFID i), l)). simpl in Hall.
    rewrite Hl in Hall. by apply Hall, list_elem_of_In, elem_of_map_to_list. }
  unfold server_inode_okb in Hok. setoid_rewrite andb_true_iff in Hok.
  setoid_rewrite andb_true_iff in Hok.
  assert (Forall comp_ok R) as HRok.
  { apply Forall_forall. intros n Hn%list_elem_of_In. by apply name_okb_sound, HR. }
  split; try done.
  - intros u f Huf. apply user_okb_sound, Hu. by apply list_elem_of_In, elem_of_map_to_list.
  - intros l i Hl Hp. destruct (Hok l i Hl) as [_ Hroot]. rewrite Hp, decide_True in Hroot by done.
    unfold root_okb in Hroot. rewrite !andb_true_iff, !bool_decide_eq_true in Hroot.
    destruct Hroot as [[[[? ?] ?] Hn%name_okb_sound] Hpath]. split_and!; try done.
    split_and!; [done|by apply Forall_singleton|]. rewrite Hpath, Hdir, Join_abs_path; try done. apply Hn.
  - intros l i p pi Hl Hp Hne Hpi. destruct (Hok l i Hl) as [_ Hc].
    rewrite Hp, decide_False, (proj2 Hpi), andb_true_iff, bool_decide_eq_true in Hc by done.
    destruct Hc as [Hn%name_okb_sound Hpath]. done.
  - intros l i Hl. destruct (Hok l i Hl) as [[Hf _] _]. by apply bool_decide_eq_true in Hf.
  - exists st. split_and!; [done|done|]. intros l i ns Hl (Hne & Hns & Hpath).
    destruct (Hok l i Hl) as [[_ Hg] _]. rewrite Hdir, Hpath, Rel_abs_path in Hg; [|by apply Forall_app;
      split; [|apply names_comp_ok]|done]. by apply bool_decide_eq_true in Hg.
Qed.
