(* ===== verification/Removal.v ===== *)
(** * Taking a subtree out of the tree

    What the invariant needs of a step that forgets an inode and everything below
    it: the inodes kept are those not below, the list of the parent loses one entry,
    sizes may change, and the index keeps the ids of the paths that stay. *)
From S2P Require Import FileServer Tree TreeWf TreeRun Invariant.

Implicit Types (s : FileServer) (l p x : loc) (i j : Inode) (f : FID).

(** The inode without its size and its children. *)
Definition bare (i : Inode) : Inode := set_iSize 0 (set_iChildren [] i).

Lemma bare_eq i j :
  bare i = bare j →
  iFID i = iFID j ∧ iType i = iType j ∧ iName i = iName j ∧ iOSPath i = iOSPath j
  ∧ iACL i = iACL j ∧ iParent i = iParent j.
Proof. destruct i, j; simpl. by intros [= -> -> -> -> -> ->]. Qed.

(** The children of [x] after [l] left the list of [p]. *)
Definition kept_children (p : loc) (key : string) (x : loc) (fs : list FID) : list FID :=
  if decide (x = p) then drop_child key fs else fs.

Record pruned s s' (l p : loc) (key : string) : Prop := {
  pr_users : users s' = users s;
  pr_dir : rootDir s' = rootDir s;
  pr_id : serverID s' = serverID s;
  pr_inodes k x : inodes s' !! k = Some x ↔ inodes s !! k = Some x ∧ ¬ below s l x;
  pr_heap x xi : live s x xi → ¬ below s l x →
    ∃ xi', heap s' !! x = Some xi' ∧ bare xi' = bare xi
           ∧ iChildren xi' = kept_children p key x (iChildren xi);
}.

Section prune.
Context (R : list string) (s s' : FileServer) (Hwf : server_wf R s).
Context (l p : loc) (i : Inode) (Hl : live s l i) (Hp : iParent i = Some p) (Hne : p ≠ l).
Context (Hpr : pruned s s' l p (FID_String (iFID i))).

Lemma prune_keep x xi : live s x xi → ¬ below s l x →
  ∃ xi', live s' x xi' ∧ bare xi' = bare xi
         ∧ iChildren xi' = kept_children p (FID_String (iFID i)) x (iChildren xi).
Proof.
  intros Hx Hb. destruct (pr_heap _ _ _ _ _ Hpr x xi Hx Hb) as (xi' & Hxi' & Heq & Hch).
  exists xi'. split_and!; try done. split; [|done]. apply (pr_inodes _ _ _ _ _ Hpr).
  split; [|done]. apply bare_eq in Heq as (->&_). apply Hx.
Qed.

Lemma prune_live x xi' : live s' x xi' →
  ∃ xi, live s x xi ∧ ¬ below s l x ∧ bare xi' = bare xi
        ∧ iChildren xi' = kept_children p (FID_String (iFID i)) x (iChildren xi).
Proof.
  intros [Hk Hx]. apply (pr_inodes _ _ _ _ _ Hpr) in Hk as [Hk Hb].
  destruct (t_key s (s_tree R s Hwf) _ x Hk) as (xi & Hxi & _). exists xi.
  destruct (prune_keep x xi Hxi Hb) as (xj & [_ Hxj] & ?). by simplify_eq.
Qed.

(** The parent of an inode that stays, stays. *)
Lemma prune_parent x xi q : live s x xi → ¬ below s l x → iParent xi = Some q → ¬ below s l q.
Proof.
  intros Hx Hb Hq Hbq. destruct (decide (q = x)) as [->|Hqx]; [done|].
  by apply Hb, (below_step s l q x xi).
Qed.

(** The listed children that stay. *)
Lemma prune_child x xi f : live s x xi → ¬ below s l x → f ∈ iChildren xi →
  f ∈ kept_children p (FID_String (iFID i)) x (iChildren xi) ↔
  ∃ c ci, live s c ci ∧ iFID ci = f ∧ ¬ below s l c.
Proof.
  intros Hx Hb Hin. pose proof (s_tree R s Hwf) as Ht.
  destruct (t_child s Ht x xi f Hx Hin) as (_ & c & ci & Hc & Hcf & Hcp & Hcx).
  assert (below s l c → c = l) as Hcl.
  { intros Hbc. destruct Hbc as [|q c cj Hbq Hc' Hq Hqc]; [done|].
    rewrite (live_fun s c cj ci Hc' Hc) in Hq. rewrite Hcp in Hq. by injection Hq as <-. }
  unfold kept_children. split.
  - intros Hk. exists c, ci. split_and!; try done. intros ->%Hcl.
    rewrite (live_fun s l ci i Hc Hl) in *. rewrite Hp in Hcp. injection Hcp as ->.
    rewrite decide_True in Hk by done. apply list_elem_of_filter in Hk as [Hk _]. congruence.
  - intros (c' & ci' & Hc' & Hcf' & Hb').
    assert (c' = c) as -> by (apply (live_loc_fun s c' c ci' ci); congruence).
    case_decide; [|done]. apply list_elem_of_filter. split; [|done].
    intros Heq%FID_String_inj. apply Hb'.
    assert (c = l) as -> by (apply (live_loc_fun s c l ci i); congruence). constructor.
Qed.

Lemma prune_below a x : ¬ below s l x → below s a x ↔ below s' a x.
Proof.
  intros Hx. split.
  - intros Hb. induction Hb as [|q x xi Hb IH Hxl Hq Hqx]; [constructor|].
    destruct (prune_keep x xi Hxl Hx) as (xi' & Hx' & (_&_&_&_&_&Hpar)%bare_eq & _).
    apply (below_step s' a q x xi'); try congruence. apply IH. by apply (prune_parent x xi).
  - induction 1 as [|q x xi' Hb IH Hxl Hq Hqx]; [constructor|].
    destruct (prune_live x xi' Hxl) as (xi & Hx' & _ & (_&_&_&_&_&Hpar)%bare_eq & _).
    apply (below_step s a q x xi); try congruence. apply IH. apply (prune_parent x xi); congruence.
Qed.

Lemma prune_tree : tree_wf s'.
Proof.
  pose proof (s_tree R s Hwf) as Ht. split.
  - intros k x Hk. apply (pr_inodes _ _ _ _ _ Hpr) in Hk as [Hk Hb].
    destruct (t_key s Ht k x Hk) as (xi & Hx & ->).
    destruct (prune_keep x xi Hx Hb) as (xi' & Hx' & (Hf&_)%bare_eq & _). exists xi'. by rewrite Hf.
  - intros x xi' (xi & Hx & Hb & Heq & Hch)%prune_live.
    destruct (t_parent s Ht x xi Hx) as (q & qi & Hq & Hql & Hin).
    pose proof (prune_parent x xi q Hx Hb Hq) as Hbq.
    destruct (prune_keep q qi Hql Hbq) as (qi' & Hq' & Heq' & Hch').
    exists q, qi'. apply bare_eq in Heq as (Hf&_&_&_&_&Hpar). rewrite Hf, Hpar.
    split_and!; [done|done|]. destruct Hin as [?|Hin]; [by left|right]. rewrite Hch'.
    apply (prune_child q qi); try done. by exists x, xi.
  - intros x xi' f (xi & Hx & Hb & Heq & Hch)%prune_live Hin. rewrite Hch in Hin.
    assert (f ∈ iChildren xi) as Hin'.
    { unfold kept_children in Hin. case_decide; [|done]. by apply list_elem_of_filter in Hin as [_ ?]. }
    apply (prune_child x xi f Hx Hb Hin') in Hin as (c & ci & Hc & Hcf & Hbc).
    destruct (t_child s Ht x xi f Hx Hin') as (Hty & c' & ci' & Hc' & Hcf' & Hcp & Hcx).
    assert (c' = c) as -> by (apply (live_loc_fun s c' c ci' ci); congruence).
    rewrite (live_fun s c ci' ci Hc' Hc) in *.
    destruct (prune_keep c ci Hc Hbc) as (cj & Hcj & (Hf&_&_&_&_&Hpar)%bare_eq & _).
    apply bare_eq in Heq as (_&->&_). split; [done|]. exists c, cj. by rewrite Hf, Hpar.
  - intros x xi' (xi & Hx & Hb & _ & ->)%prune_live. unfold kept_children.
    pose proof (t_nodup s Ht x xi Hx). case_decide; [by apply NoDup_filter|done].
  - destruct (t_rank s Ht) as [rank Hr]. exists rank.
    intros x xi' q (xi & Hx & Hb & (_&_&_&_&_&->)%bare_eq & _)%prune_live. by apply (Hr x xi).
Qed.

(** No root is below an inode that has a parent. *)
Lemma prune_root r ri : live s r ri → iParent ri = Some r → ¬ below s l r.
Proof.
  intros Hr Hrp Hb. destruct Hb as [|q x xi Hb Hx Hq Hqx].
  - rewrite (live_fun s l i ri Hl Hr) in Hp. congruence.
  - rewrite (live_fun s x xi ri Hx Hr) in Hq. congruence.
Qed.

Lemma prune_wf st' :
  inodeStore s' = Some st' → index_wf (isData st') →
  (∀ x xi ns, live s x xi → ¬ below s l x → at_path R ns xi →
     Get (rel_path ns) st' = Some (InodeID (iFID xi))) →
  server_wf R s'.
Proof.
  intros Hst' Hix Hget. split.
  - apply prune_tree.
  - rewrite (pr_dir _ _ _ _ _ Hpr). apply (s_dir R s Hwf).
  - intros u f. rewrite (pr_users _ _ _ _ _ Hpr). intros Hu.
    destruct (s_user R s Hwf u f Hu) as (r & ri & Hr & <- & Hrp & Hrt & Hrn).
    destruct (prune_keep r ri Hr) as (rj & Hrj & (?&?&?&_&_&?)%bare_eq & _).
    { by apply (prune_root r ri). }
    exists r, rj. split_and!; congruence.
  - intros x xi' (xi & Hx & Hb & (Hf&Hty&Hn&Hpa&Ha&Hpar)%bare_eq & _)%prune_live.
    rewrite Hpar, (pr_users _ _ _ _ _ Hpr), Hf, Hn, Hty, Ha. intros Hr.
    destruct (s_root R s Hwf x xi Hx Hr) as (?&?&?&Hat). split_and!; try done.
    unfold at_path in *. by rewrite Hpa.
  - intros x xi' q qi' (xi & Hx & Hb & (Hf&Hty&Hn&Hpa&Ha&Hpar)%bare_eq & _)%prune_live Hq Hqx
      (qi & Hql & _ & (_&_&_&Hpq&_)%bare_eq & _)%prune_live.
    rewrite Hn, Hpa, Hpq. apply (s_path R s Hwf x xi q qi); congruence.
  - intros x xi' (xi & Hx & Hb & (Hf&_)%bare_eq & _)%prune_live.
    rewrite Hf, (pr_id _ _ _ _ _ Hpr). by apply (s_fid R s Hwf x).
  - exists st'. split_and!; try done. intros x xi' ns (xi & Hx & Hb & (Hf&_&_&Hpa&_)%bare_eq & _)%prune_live Hat.
    rewrite Hf. apply (Hget x xi ns Hx Hb). unfold at_path in *. by rewrite <-Hpa.
Qed.
End prune.
