(* ===== verification/Move.v ===== *)
(** * Moving a subtree

    What the invariant needs of a step that takes an inode off the list of its
    parent and puts it, with a new name, on the list of another directory: the
    paths below follow, and the index moves the ids with them. *)
From S2P Require Import FileServer Tree TreeWf TreeRun Invariant.

Implicit Types (s : FileServer) (l p t x : loc) (i j : Inode) (f : FID).

(** ** Relative paths and prefixes *)

Lemma rel_path_app ns ms :
  ns ≠ [] → ms ≠ [] → rel_path (ns ++ ms) = rel_path ns +:+ "/" +:+ rel_path ms.
Proof.
  intros Hn Hm. unfold rel_path. induction ns as [|n ns IH]; [done|].
  destruct ns as [|n' ns].
  - simpl app. by rewrite SJoin_cons.
  - change ((n :: n' :: ns) ++ ms) with (n :: ((n' :: ns) ++ ms)).
    rewrite SJoin_cons, IH, (SJoin_cons slash n (n' :: ns)) by done. by rewrite string_app_assoc.
Qed.

Lemma Split_rel_path ns : ns ≠ [] → Forall name_ok ns → Split slash (rel_path ns) = ns.
Proof. intros Hn Ho. apply Split_SJoin; [done|]. by apply comp_ok_free, names_comp_ok. Qed.

Lemma within_names ns ms :
  ns ≠ [] → ms ≠ [] → Forall name_ok ns → Forall name_ok ms →
  within (rel_path ns) (rel_path ms) → ∃ r, ms = ns ++ r.
Proof.
  intros Hn Hm Hno Hmo Hw. apply within_spec in Hw as [Heq|[s Hs]%HasPrefix_spec].
  - exists []. rewrite app_nil_r. unfold rel_path in Heq. by apply SJoin_names_inj.
  - apply (f_equal (Split slash)) in Hs. rewrite Split_rel_path in Hs by done.
    rewrite string_app_assoc in Hs. exists (Split slash s). rewrite Hs.
    change (rel_path ns +:+ "/" +:+ s) with (rel_path ns +:+ String slash s).
    by rewrite Split_app_gen, Split_rel_path.
Qed.

Lemma normalizePath_rel ns :
  ns ≠ [] → Forall name_ok ns → normalizePath (rel_path ns) = rel_path ns.
Proof. apply normalizePath_names. Qed.

Lemma names_app ns r :
  ns ≠ [] → Forall name_ok ns → Forall name_ok r → ns ++ r ≠ [] ∧ Forall name_ok (ns ++ r).
Proof. intros Hn Ho Hr. split; [by destruct ns|by apply Forall_app]. Qed.

(** ** The index *)

Section index.
Context (os ms : list string) (st : InodeStore).
Context (Hos : os ≠ []) (Hoo : Forall name_ok os) (Hms : ms ≠ []) (Hmo : Forall name_ok ms).
Context (Hom : ∀ r, ms ≠ os ++ r) (Hmo' : ∀ r, os ≠ ms ++ r).

Let st' := RenamePrefix (rel_path os) (rel_path ms) st.

Lemma rel_path_nonempty ns : ns ≠ [] → Forall name_ok ns → rel_path ns ≠ "".
Proof.
  intros Hn Ho%names_comp_ok. destruct ns as [|n ns]; [done|].
  inversion_clear Ho as [|?? (Hn0&_) _]. by destruct n, ns.
Qed.

Lemma rename_spec (p : string) :
  match move_key (rel_path os) (rel_path ms) p with
  | Some p' => PathToID (isData st') !! p' = PathToID (isData st) !! p ∪ PathToID (isData st) !! p'
  | None => (∀ q, move_key (rel_path os) (rel_path ms) q ≠ Some p) →
            PathToID (isData st') !! p = PathToID (isData st) !! p
  end.
Proof.
  unfold st', RenamePrefix, RenamePrefix_in. rewrite !normalizePath_rel by done.
  rewrite decide_False.
  2:{ intros [?|[?|Heq]]; [by apply (rel_path_nonempty os)|by apply (rel_path_nonempty ms)|].
      unfold rel_path in Heq. apply SJoin_names_inj in Heq; try done.
      apply (Hom []). by rewrite app_nil_r. }
  assert (¬ within (rel_path os) (rel_path ms)) as H1.
  { intros [r Hr]%within_names; try done. by apply (Hom r). }
  assert (¬ within (rel_path ms) (rel_path os)) as H2.
  { intros [r Hr]%within_names; try done. by apply (Hmo' r). }
  pose proof (rename_keys_spec (rel_path os) (rel_path ms) H1 H2 (key_order st)
                (PathToID (isData st)) p (key_order_NoDup st) (key_order_all st)) as Hs.
  simpl in *. destruct (move_key _ _ p); [apply Hs|done].
Qed.

(** The ids of the paths at and below the old one follow it. *)
Lemma Get_moved r id :
  Forall name_ok r → Get (rel_path (os ++ r)) st = Some id →
  Get (rel_path (ms ++ r)) st' = Some id.
Proof.
  intros Hr. destruct (names_app os r Hos Hoo Hr), (names_app ms r Hms Hmo Hr).
  unfold Get. rewrite !normalizePath_rel by done. intros Hg.
  pose proof (rename_spec (rel_path (os ++ r))) as Hs.
  assert (move_key (rel_path os) (rel_path ms) (rel_path (os ++ r)) = Some (rel_path (ms ++ r))) as Hmv.
  { destruct r as [|n r].
    - rewrite !app_nil_r. unfold move_key. by rewrite decide_True.
    - rewrite (rel_path_app os), (rel_path_app ms) by done. apply move_key_app. }
  rewrite Hmv in Hs. rewrite Hs, Hg. by destruct (PathToID (isData st) !! rel_path (ms ++ r)).
Qed.

(** The other paths keep theirs. *)
Lemma Get_unmoved ns :
  ns ≠ [] → Forall name_ok ns → (∀ r, ns ≠ os ++ r) → (∀ r, ns ≠ ms ++ r) →
  Get (rel_path ns) st' = Get (rel_path ns) st.
Proof.
  intros Hn Hno H1 H2. unfold Get. rewrite !normalizePath_rel by done.
  pose proof (rename_spec (rel_path ns)) as Hs.
  destruct (move_key _ _ (rel_path ns)) as [p'|] eqn:Hmv.
  - exfalso. assert (within (rel_path os) (rel_path ns)) as [r Hr]%within_names; try done.
    { apply move_key_within with (new := rel_path ms). eauto. } by apply (H1 r).
  - apply Hs. intros q Hq%move_key_target. apply within_names in Hq as [r Hr]; try done. by apply (H2 r).
Qed.
End index.

(** ** Paths and positions *)

Section paths.
Context (R : list string) (s : FileServer) (Hwf : server_wf R s).

(** Every prefix of the path of an inode is the path of an inode above it. *)
Lemma ancestor_at x xi ns r :
  live s x xi → ns ≠ [] → at_path R (ns ++ r) xi →
  ∃ y yi, live s y yi ∧ at_path R ns yi ∧ below s y x.
Proof.
  intros Hx Hns. revert x xi Hx. induction r as [|m r IH] using rev_ind; intros x xi Hx Hat.
  { exists x, xi. rewrite app_nil_r in Hat. split_and!; [done|done|constructor]. }
  destruct (t_parent s (s_tree R s Hwf) x xi Hx) as (q & qi & Hq & Hql & _).
  destruct (decide (q = x)) as [->|Hne].
  - destruct (s_root R s Hwf x xi Hx Hq) as (_ & _ & _ & Hroot).
    pose proof (at_path_fun R s Hwf _ _ _ Hat Hroot) as Heq.
    destruct ns as [|a [|]]; [done| |]; by destruct r.
  - destruct (live_path R s Hwf q qi Hql) as [ms Hms].
    pose proof (at_path_fun R s Hwf _ _ _ Hat
                  (at_path_child R s Hwf _ _ _ _ _ Hx Hq Hne Hql Hms)) as Heq.
    rewrite app_assoc in Heq. apply app_inj_2 in Heq as [<- _]; [|done].
    destruct (IH q qi Hql Hms) as (y & yi & Hy & Hyn & Hb). exists y, yi. split_and!; try done.
    by apply (below_step s y q x xi).
Qed.

Lemma path_prefix_below l i x xi ns r :
  live s l i → live s x xi → at_path R ns i → at_path R (ns ++ r) xi → below s l x.
Proof.
  intros Hl Hx Hn Hr. destruct (ancestor_at x xi ns r Hx) as (y & yi & Hy & Hyn & Hb);
    [apply Hn|done|]. by rewrite (at_path_inj R s Hwf l i y yi ns).
Qed.

(** The names on the way down spell the path. *)
Lemma trail_path l i os x xi ms :
  live s l i → at_path R os i → trail s l ms x → live s x xi →
  at_path R (os ++ ms) xi ∧ Forall name_ok ms.
Proof.
  intros Hl Hos Ht. revert i os xi Hl Hos. induction Ht as [l|l c ci ns x Hc Hp Hne Ht IH];
    intros i os xi Hl Hos Hx.
  - rewrite app_nil_r, (live_fun s _ _ _ Hx Hl). split; [done|constructor].
  - pose proof (at_path_child R s Hwf c ci l i os Hc Hp Hne Hl Hos) as Hc'.
    destruct (IH ci (os ++ [iName ci]) xi Hc Hc' Hx) as [Hat Hok].
    rewrite <-app_assoc in Hat. split; [done|]. constructor; [|done].
    by apply (s_path R s Hwf c ci l i).
Qed.

Lemma join_all_abs base ms :
  base ≠ [] → Forall comp_ok base → Forall comp_ok ms →
  join_all (abs_path base) ms = abs_path (base ++ ms).
Proof.
  intros Hb Hok Hms. revert base Hb Hok. induction Hms as [|m ms Hm Hms IH]; intros base Hb Hok.
  { by rewrite app_nil_r. }
  cbn [join_all].
  rewrite Join_abs_path by done. rewrite IH.
  - by rewrite <-app_assoc.
  - by destruct base.
  - apply Forall_app. split; [done|by apply Forall_singleton].
Qed.

Lemma join_all_snoc base ms m : join_all base (ms ++ [m]) = Join [join_all base ms; m].
Proof. revert base. induction ms as [|a ms IH]; intros base; [done|]. apply IH. Qed.
End paths.

(** ** The move *)

(** The lists of children after the entry [f] went from [p] to [t]. *)
Definition moved_children (p t : loc) f (x : loc) (fs : list FID) : list FID :=
  if decide (x = p) then drop_child (FID_String f) fs
  else if decide (x = t) then fs ++ [f] else fs.

(** The move of [l] from [p] to [t]; [P] says what became of the paths. *)
Record moved (P : loc → Inode → Inode → Prop) s s' (l p t : loc) (f : FID) (n : string) : Prop := {
  mv_users : users s' = users s;
  mv_dir : rootDir s' = rootDir s;
  mv_id : serverID s' = serverID s;
  mv_inodes : inodes s' = inodes s;
  mv_heap x xi : live s x xi → ∃ xi', heap s' !! x = Some xi'
    ∧ iFID xi' = iFID xi ∧ iType xi' = iType xi ∧ iACL xi' = iACL xi ∧ iSize xi' = iSize xi
    ∧ iName xi' = (if decide (x = l) then n else iName xi)
    ∧ iParent xi' = (if decide (x = l) then Some t else iParent xi)
    ∧ iChildren xi' = moved_children p t f x (iChildren xi)
    ∧ P x xi xi';
}.

(** The paths at and below [l] follow [newPath], the others stay. *)
Definition repathed s l (newPath : string) (x : loc) (xi xi' : Inode) : Prop :=
  (¬ below s l x → iOSPath xi' = iOSPath xi)
  ∧ ∀ ms, trail s l ms x → iOSPath xi' = join_all newPath ms.

Section move.
Context (R : list string) (s s' : FileServer) (Hwf : server_wf R s).
Context (l p t : loc) (i ti : Inode) (n : string) (L : list loc).
Context (Hl : live s l i) (Hp : iParent i = Some p) (Hpl : p ≠ l).
Context (Hti : live s t ti) (Htd : iType ti = InodeTypeDirectory) (Htb : ¬ below s l t) (Htp : t ≠ p).
Context (HL : ∀ x, x ∈ L ↔ below s l x).
Context (P : loc → Inode → Inode → Prop) (Hmv : moved P s s' l p t (iFID i) n).

Lemma move_tl : t ≠ l.
Proof. intros ->. apply Htb. constructor. Qed.

Lemma move_fwd x xi : live s x xi → ∃ xi', live s' x xi'
  ∧ iFID xi' = iFID xi ∧ iType xi' = iType xi ∧ iACL xi' = iACL xi
  ∧ iName xi' = (if decide (x = l) then n else iName xi)
  ∧ iParent xi' = (if decide (x = l) then Some t else iParent xi)
  ∧ iChildren xi' = moved_children p t (iFID i) x (iChildren xi)
  ∧ P x xi xi'.
Proof.
  intros Hx. destruct (mv_heap _ _ _ _ _ _ _ _ Hmv x xi Hx) as (xi' & Hh & Hf & ?&?&?&?&?&?&?).
  exists xi'. split_and!; try done. split; [|done]. rewrite (mv_inodes _ _ _ _ _ _ _ _ Hmv), Hf.
  apply Hx.
Qed.

Lemma move_bwd x xi' : live s' x xi' → ∃ xi, live s x xi.
Proof.
  intros [Hk _]. rewrite (mv_inodes _ _ _ _ _ _ _ _ Hmv) in Hk.
  destruct (t_key s (s_tree R s Hwf) _ x Hk) as (xi & Hx & _). by exists xi.
Qed.

Lemma move_live x xi' : live s' x xi' → ∃ xi, live s x xi
  ∧ iFID xi' = iFID xi ∧ iType xi' = iType xi ∧ iACL xi' = iACL xi
  ∧ iName xi' = (if decide (x = l) then n else iName xi)
  ∧ iParent xi' = (if decide (x = l) then Some t else iParent xi)
  ∧ iChildren xi' = moved_children p t (iFID i) x (iChildren xi)
  ∧ P x xi xi'.
Proof.
  intros Hx'. destruct (move_bwd x xi' Hx') as [xi Hx]. exists xi. split; [done|].
  destruct (move_fwd x xi Hx) as (xj & Hj & Hrest). by rewrite (live_fun _ _ _ _ Hx' Hj).
Qed.

(** A live inode with the FID of [l] is [l]. *)
Lemma move_same x xi : live s x xi → iFID xi = iFID i → x = l.
Proof. intros Hx Heq. by apply (live_loc_fun s x l xi i). Qed.

Lemma moved_child x xi f : live s x xi → f ∈ moved_children p t (iFID i) x (iChildren xi) →
  (x = t ∧ f = iFID i) ∨ (f ≠ iFID i ∧ f ∈ iChildren xi).
Proof.
  intros Hx Hin. pose proof (s_tree R s Hwf) as Ht. unfold moved_children in Hin.
  assert (∀ f, f ∈ iChildren xi → x ≠ p → f ≠ iFID i) as Hother.
  { intros g Hg Hxp ->. destruct (find_child s x xi _ Ht Hx Hg) as (c & ci & _ & Hc & Hcf & Hcp & _).
    rewrite (move_same c ci Hc Hcf) in Hc. rewrite (live_fun s _ _ _ Hc Hl) in Hcp. congruence. }
  case_decide as Hxp.
  - apply list_elem_of_filter in Hin as [Hk Hin]. right. split; [|done]. by intros ->.
  - case_decide as Hxt; [|right; by auto].
    apply elem_of_app in Hin as [Hin|Hin%list_elem_of_singleton]; [right; by auto|by left].
Qed.

Lemma move_keeps_child x xi f :
  f ≠ iFID i → f ∈ iChildren xi → f ∈ moved_children p t (iFID i) x (iChildren xi).
Proof.
  intros Hf Hin. unfold moved_children. case_decide.
  - apply list_elem_of_filter. split; [|done]. by intros ?%FID_String_inj.
  - case_decide; set_solver.
Qed.

Lemma move_nodup x xi : live s x xi → NoDup (moved_children p t (iFID i) x (iChildren xi)).
Proof.
  intros Hx. pose proof (s_tree R s Hwf) as Ht. pose proof (t_nodup s Ht x xi Hx) as Hnd.
  unfold moved_children. case_decide as Hxp; [by apply NoDup_filter|].
  case_decide as Hxt; [|done]. apply NoDup_app. split_and!; [done| |apply NoDup_singleton].
  intros f Hf ->%list_elem_of_singleton.
  destruct (find_child s x xi _ Ht Hx Hf) as (c & ci & _ & Hc & Hcf & Hcp & _).
  rewrite (move_same c ci Hc Hcf) in Hc. rewrite (live_fun s _ _ _ Hc Hl) in Hcp. congruence.
Qed.

Lemma move_tree : tree_wf s'.
Proof.
  pose proof (s_tree R s Hwf) as Ht. pose proof move_tl as Htl. split.
  - intros k x Hk. rewrite (mv_inodes _ _ _ _ _ _ _ _ Hmv) in Hk.
    destruct (t_key s Ht k x Hk) as (xi & Hx & ->).
    destruct (move_fwd x xi Hx) as (xi' & Hx' & Hf & _). exists xi'. by rewrite Hf.
  - intros x xi' (xi & Hx & Hf & _ & _ & _ & Hpar & _)%move_live. rewrite Hf, Hpar.
    case_decide as Hxl.
    + subst x. destruct (move_fwd t ti Hti) as (ti' & Ht' & _ & _ & _ & _ & _ & Hch & _).
      exists t, ti'. split_and!; [done|done|right]. rewrite Hch, (live_fun s _ _ _ Hx Hl).
      unfold moved_children. rewrite decide_False, decide_True by done. set_solver.
    + destruct (t_parent s Ht x xi Hx) as (q & qi & Hq & Hql & Hin).
      destruct (move_fwd q qi Hql) as (qi' & Hq' & _ & _ & _ & _ & _ & Hch & _).
      exists q, qi'. split_and!; [done|done|]. destruct Hin as [?|Hin]; [by left|right].
      rewrite Hch. apply move_keeps_child; [|done]. intros Heq. by apply Hxl, (move_same x xi).
  - intros x xi' f (xi & Hx & Hf & Hty & _ & _ & _ & Hch & _)%move_live Hin. rewrite Hch in Hin.
    destruct (moved_child x xi f Hx Hin) as [[-> ->]|[Hfi Hfx]].
    + rewrite (live_fun s _ _ _ Hx Hti) in Hty. split; [congruence|].
      destruct (move_fwd l i Hl) as (i' & Hl' & Hf' & _ & _ & _ & Hpar & _).
      exists l, i'. rewrite Hpar, decide_True by done. done.
    + destruct (t_child s Ht x xi f Hx Hfx) as (Hdir & c & ci & Hc & Hcf & Hcp & Hcx).
      split; [congruence|]. destruct (move_fwd c ci Hc) as (ci' & Hc' & Hf' & _ & _ & _ & Hpar & _).
      exists c, ci'. rewrite Hf', Hpar, decide_False; [done|].
      intros ->. by rewrite (live_fun s _ _ _ Hc Hl) in Hcf.
  - intros x xi' (xi & Hx & _ & _ & _ & _ & _ & -> & _)%move_live. by apply move_nodup.
  - destruct (t_rank s Ht) as [rank Hr].
    exists (λ x, if decide (x ∈ L) then (rank x + S (rank t))%nat else rank x).
    intros x xi' q (xi & Hx & _ & _ & _ & _ & Hpar & _)%move_live Hq Hqx. rewrite Hpar in Hq.
    destruct (decide (x = l)) as [->|Hxl].
    + injection Hq as <-. rewrite decide_False by (by rewrite HL).
      rewrite decide_True by (apply HL; constructor). lia.
    + pose proof (Hr x xi q Hx Hq Hqx) as Hlt.
      assert (q ∈ L → x ∈ L) as H1 by (rewrite !HL; intros ?; by apply (below_step s l q x xi)).
      assert (x ∈ L → q ∈ L) as H2.
      { rewrite !HL. intros Hb. destruct Hb as [|q' x xj Hb Hx' Hq' _]; [done|].
        rewrite (live_fun s _ _ _ Hx' Hx) in Hq'. congruence. }
      destruct (decide (x ∈ L)), (decide (q ∈ L)); try lia; tauto.
Qed.

Section repath.
Context (os nt : list string).
Context (Hn : name_ok n) (Hos : at_path R os i) (Hnt : at_path R nt ti).
Context (Hfree : ∀ x xi, live s x xi → ¬ at_path R (nt ++ [n]) xi).
Context (HP : ∀ x xi xi', live s x xi → P x xi xi' → repathed s l (Join [iOSPath ti; n]) x xi xi').

Lemma move_base : Join [iOSPath ti; n] = abs_path (R ++ nt ++ [n]) ∧ Forall comp_ok (R ++ nt ++ [n]).
Proof.
  destruct Hnt as (Hne & Hok & ->). destruct (R_ok R s Hwf) as [HRne HR].
  assert (Forall comp_ok (R ++ nt)) as Hc by (apply Forall_app; split; [|apply names_comp_ok]; done).
  rewrite Join_abs_path; [|done|apply Hn|by destruct R]. rewrite <-app_assoc. split; [done|].
  rewrite app_assoc. apply Forall_app. split; [done|]. apply Forall_singleton, Hn.
Qed.

(** The path of an inode that moved. *)
Lemma moved_path x xi xi' ms :
  live s x xi → trail s l ms x →
  (∀ ms, trail s l ms x → iOSPath xi' = join_all (Join [iOSPath ti; n]) ms) →
  at_path R (os ++ ms) xi ∧ at_path R ((nt ++ [n]) ++ ms) xi' ∧ Forall name_ok ms.
Proof.
  intros Hx Htr Hpath. destruct (trail_path R s Hwf l i os x xi ms Hl Hos Htr Hx) as [Hat Hms].
  split; [done|]. split; [|done]. destruct move_base as [Hb Hbok]. split_and!.
  - by destruct nt.
  - destruct Hnt as (_ & Hok & _). apply Forall_app. split; [|done]. apply Forall_app.
    split; [done|by apply Forall_singleton].
  - rewrite (Hpath ms Htr), Hb, join_all_abs; [by rewrite <-!app_assoc|by destruct R, nt|done|].
    by apply names_comp_ok.
Qed.

Lemma move_disjoint : (∀ r, nt ++ [n] ≠ os ++ r) ∧ ∀ r, os ≠ (nt ++ [n]) ++ r.
Proof.
  split.
  - intros r Hr. destruct r as [|m r _] using rev_ind.
    + rewrite app_nil_r in Hr. apply (Hfree l i Hl). by rewrite Hr.
    + rewrite app_assoc in Hr. apply app_inj_2 in Hr as [Hr _]; [|done]. apply Htb.
      apply (path_prefix_below R s Hwf l i t ti os r); try done. by rewrite <-Hr.
  - intros r Hr. destruct (ancestor_at R s Hwf l i (nt ++ [n]) r Hl) as (y & yi & Hy & Hyn & _).
    + by destruct nt.
    + by rewrite <-Hr.
    + by apply (Hfree y yi).
Qed.

(** The ids are found at the new paths. *)
Lemma move_index st x xi xi' ns :
  inodeStore s = Some st → live s x xi →
  iFID xi' = iFID xi → repathed s l (Join [iOSPath ti; n]) x xi xi' →
  at_path R ns xi' →
  Get (rel_path ns) (RenamePrefix (rel_path os) (rel_path (nt ++ [n])) st) = Some (InodeID (iFID xi)).
Proof.
  intros Hst Hx Hf [Hout Hin] Hat. destruct (s_index R s Hwf) as (st0 & Hst0 & Hix & Hget).
  assert (st0 = st) as -> by congruence. destruct move_disjoint as [Hd1 Hd2].
  destruct Hos as (Hon & Hoo & _). destruct Hnt as (Htn & Hto & _).
  destruct (names_app nt [n] Htn Hto) as [Hnn Hno]; [by apply Forall_singleton|].
  destruct (decide (x ∈ L)) as [Hb%HL|Hb].
  - destruct (below_trail s l x Hb) as [ms Htr].
    destruct (moved_path x xi xi' ms Hx Htr Hin) as (Hat1 & Hat2 & Hms).
    rewrite (at_path_fun R s Hwf xi' ns _ Hat Hat2).
    apply (Get_moved os (nt ++ [n])); try done. by apply (Hget x).
  - rewrite HL in Hb. assert (at_path R ns xi) as Hatx.
    { destruct Hat as (?&?&Hp'). split_and!; try done. by rewrite <-Hout. }
    rewrite (Get_unmoved os (nt ++ [n])); try done.
    + by apply (Hget x).
    + apply Hat.
    + apply Hat.
    + intros r ->. apply Hb. by apply (path_prefix_below R s Hwf l i x xi os r).
    + intros r ->. destruct (ancestor_at R s Hwf x xi (nt ++ [n]) r Hx) as (y & yi & Hy & Hyn & _);
        [done|done|]. by apply (Hfree y yi).
Qed.

Lemma move_wf :
  inodeStore s' = RenamePrefix (rel_path os) (rel_path (nt ++ [n])) <$> inodeStore s →
  server_wf R s'.
Proof.
  intros Hix. pose proof (s_tree R s Hwf) as Ht. pose proof move_tl as Htl. split.
  - apply move_tree.
  - rewrite (mv_dir _ _ _ _ _ _ _ _ Hmv). apply (s_dir R s Hwf).
  - intros u f. rewrite (mv_users _ _ _ _ _ _ _ _ Hmv). intros Hu.
    destruct (s_user R s Hwf u f Hu) as (r & ri & Hr & <- & Hrp & Hrt & Hrn).
    assert (r ≠ l) as Hrl by (intros ->; rewrite (live_fun s _ _ _ Hl Hr) in Hp; congruence).
    destruct (move_fwd r ri Hr) as (ri' & Hr' & Hf & Hty & _ & Hna & Hpar & _).
    rewrite decide_False in Hna by done. rewrite decide_False in Hpar by done. exists r, ri'. split_and!; congruence.
  - intros x xi' (xi & Hx & Hf & Hty & Ha & Hna & Hpar & _ & HPx)%move_live Hr.
    destruct (HP _ _ _ Hx HPx) as [Hout _].
    rewrite Hpar in Hr. case_decide as Hxl; [congruence|].
    destruct (s_root R s Hwf x xi Hx Hr) as (Hu & Ho & Hd & Hat).
    rewrite (mv_users _ _ _ _ _ _ _ _ Hmv), Hf, Hna, Ha, Hty. split_and!; try done.
    destruct Hat as (?&?&Hpath). split_and!; try done. rewrite Hout; [done|].
    intros Hb. destruct Hb as [|q x xj Hb Hx' Hq Hqx]; [done|].
    rewrite (live_fun s _ _ _ Hx' Hx) in Hq. congruence.
  - intros x xi' q qi' (xi & Hx & _ & _ & _ & Hna & Hpar & _ & HPx)%move_live Hq Hqx
      (qi & Hql & _ & _ & _ & _ & _ & _ & HPq)%move_live.
    destruct (HP _ _ _ Hx HPx) as [Hout Hin], (HP _ _ _ Hql HPq) as [Hqout Hqin].
    rewrite Hpar in Hq. rewrite Hna. case_decide as Hxl.
    + subst x. injection Hq as <-. rewrite (Hin [] (trail_nil s l)), Hqout by done.
      by rewrite (live_fun s _ _ _ Hql Hti).
    + destruct (s_path R s Hwf x xi q qi Hx Hq Hqx Hql) as [Hno Hpath]. split; [done|].
      destruct (decide (q ∈ L)) as [Hb%HL|Hb].
      * destruct (below_trail s l q Hb) as [ms Htr].
        rewrite (Hqin ms Htr), (Hin (ms ++ [iName xi])); [apply join_all_snoc|].
        by apply (trail_snoc s l ms q x xi).
      * rewrite HL in Hb. rewrite Hqout, Hout; [done| |done].
        intros Hbx. destruct Hbx as [|q' x xj Hbx Hx' Hq' _]; [done|].
        rewrite (live_fun s _ _ _ Hx' Hx) in Hq'. congruence.
  - intros x xi' (xi & Hx & Hf & _)%move_live. rewrite Hf, (mv_id _ _ _ _ _ _ _ _ Hmv).
    by apply (s_fid R s Hwf x).
  - destruct (s_index R s Hwf) as (st & Hst & Hwi & _). rewrite Hix, Hst. simpl.
    eexists. split_and!; [done|by apply RenamePrefix_in_wf|].
    intros x xi' ns (xi & Hx & Hf & _ & _ & _ & _ & _ & HPx)%move_live Hat. rewrite Hf.
    by apply (move_index st x xi xi' ns); auto.
Qed.
End repath.
End move.
