(* ===== verification/Share.v ===== *)
(** * Sharing a directory

    Models [Share] and [Unshare] of [internal/fileserver/fileserver.go], which edit
    the ACLs of a whole subtree and the table of explicit shares, and the snapshots
    of that table that follow a directory into the trash and back. *)
From S2P Require Import FileServer Persist Tree.

(** ** Users of a path in the table of explicit shares *)

Definition share_users (s : FileServer) (path : string) : list string :=
  default [] (Shared s !! path).

Definition snap_under (basePath path : string) : bool :=
  bool_decide (path = basePath) || HasPrefix path (basePath +:+ "/").

Definition snap_le (x y : sharedDirSnapshot) : Prop := String.leb (snapPath x) (snapPath y) = true.
#[export] Instance snap_le_dec x y : Decision (snap_le x y).
Proof. unfold snap_le. apply _. Defined.

(** [collectSharedSnapshotsForPathLocked] *)
Definition collectSharedSnapshots (s : FileServer) (basePath : string) : list sharedDirSnapshot :=
  if decide (basePath = "") then []
  else merge_sort snap_le
         ((λ kv, mkSnap kv.1 kv.2) <$>
            filter (λ kv, snap_under basePath kv.1 = true) (map_to_list (Shared s))).

(** Where the share of [path] goes when its base moves. *)
Definition map_snap_path (oldBase newBase path : string) : string :=
  let oldPrefix := oldBase +:+ "/" in
  if decide (path = oldBase) then newBase
  else if HasPrefix path oldPrefix then Join [newBase; TrimPrefix path oldPrefix]
  else path.

Section share.
Context {D : Type} `{Env D}.
Abbreviation S' := (Server D).

Definition add_share (path user : string) : M S' unit :=
  usrv (λ s, set_dirShares (<[path := append_unique (share_users s path) user]> (Shared s)) s).

Definition detachSharedSnapshotsLocked (owner : string) (snaps : list sharedDirSnapshot) :
    M S' unit :=
  if decide (snaps = []) then mret tt
  else
    for_each snaps (λ snap,
      usrv (λ s, set_dirShares (delete (snapPath snap) (Shared s)) s) ;;
      for_each (snapUsers snap) (λ user,
        ignore (RootUnshare owner (Base (snapPath snap)) (snapPath snap) user))) ;;
    ignore SaveDirShares.

Definition reattachSharedSnapshotsLocked (owner oldBasePath newBasePath : string)
    (snaps : list sharedDirSnapshot) : M S' unit :=
  if decide (snaps = []) then mret tt
  else
    for_each snaps (λ snap,
      let mapped := map_snap_path oldBasePath newBasePath (snapPath snap) in
      usrv (λ s, set_dirShares (<[mapped := share_users s mapped]> (Shared s)) s) ;;
      for_each (snapUsers snap) (λ user,
        add_share mapped user ;;
        ignore (RootShare owner (Base mapped) mapped user))) ;;
    ignore SaveDirShares.

(** Persist the ACL of an inode; a failure is only logged. *)
Definition persist_acl (l : loc) : M S' unit :=
  i ← deref l;
  p ← rel (iOSPath i);
  match p with
  | None => mret tt
  | Some inodePath => ignore (SaveACL inodePath (iACL i))
  end.

(** The bodies of the two loops over the subtree. *)
Definition grant (user : string) (l : loc) : M S' unit :=
  i ← deref l;
  if contains user (aShared (iACL i)) then mret tt
  else
    assign l (λ i, set_Shared (aShared (iACL i) ++ [user]) i) ;;
    persist_acl l.
Definition revoke (user : string) (l : loc) : M S' unit :=
  i ← deref l;
  if contains user (aShared (iACL i)) then
    assign l (λ i, set_Shared (without (aShared (iACL i)) user) i) ;;
    persist_acl l
  else mret tt.

(** The [for] of [Share] over [fs.Shared[path]], then [SaveDirShares]. *)
Definition share_path (i : Inode) : M S' string :=
  p ← rel (iOSPath i); mret (default (iName i) p).

Definition Share (username share_with : string) (dirFID : option FID) : M S' unit :=
  fid ← non_nil dirFID;
  dir ← GetInode fid;
  di ← deref dir;
  if decide (iType di ≠ InodeTypeDirectory) then
    throw (Errorf "only directories can be shared" [])
  else if decide (Owner (iACL di) ≠ username) then throw (Errorf "Only owner can share" [])
  else if decide (share_with = Owner (iACL di)) then
    throw (Errorf "Cannot share with self" [])
  else if contains share_with (aShared (iACL di)) then
    throw (Errorf "The given already has the access to this directory" [])
  else
    sub ← collectSubtreeInodes dir;
    for_each sub (grant share_with) ;;
    di ← deref dir;
    path ← share_path di;
    add_share path share_with ;;
    ignore SaveDirShares ;;
    ignore (RootShare username (iName di) path share_with).

Definition Unshare (username unshare_with : string) (dirFID : option FID) : M S' unit :=
  fid ← non_nil dirFID;
  dir ← GetInode fid;
  di ← deref dir;
  if decide (Owner (iACL di) ≠ username) then throw (Errorf "Only owner can unshare" [])
  else if decide (unshare_with = Owner (iACL di)) then
    throw (Errorf "Cannot unshare with self" [])
  else if negb (contains unshare_with (aShared (iACL di))) then
    throw (Errorf "user not in shared list" [])
  else
    sub ← collectSubtreeInodes dir;
    for_each sub (revoke unshare_with) ;;
    di ← deref dir;
    dirPath ← share_path di;
    usrv (λ s,
      match Shared s !! dirPath with
      | None => s
      | Some us =>
          let rest := without us unshare_with in
          set_dirShares (if decide (rest = []) then delete dirPath (Shared s)
                         else <[dirPath := rest]> (Shared s)) s
      end) ;;
    ignore SaveDirShares ;;
    path ← rel (iOSPath di);
    ignore (RootUnshare username (iName di) (default "" path) unshare_with).
End share.
