(* ===== verification/Trash.v ===== *)
(** * Soft deletion

    Models [TrashFile], [RestoreFile] and [ShowTrash] of
    [internal/fileserver/fileserver.go]: an inode is moved to the trash directory
    of its user with a record of where it was, and moved back. *)
From S2P Require Import FileServer Persist Tree Share.

(** [userCanAccessInode], the function (not the method). *)
Definition userCanAccess (a : ACL) (username : string) : bool :=
  negb (String.eqb username "") && aclAllows a username.

Definition inode_le (x y : loc * Inode) : Prop := String.leb (iName x.2) (iName y.2) = true.
#[export] Instance inode_le_dec x y : Decision (inode_le x y).
Proof. unfold inode_le. apply _. Defined.

Section trash.
Context {D : Type} `{Env D}.
Abbreviation S' := (Server D).

(** [sort.Slice] gives equal names in an unspecified order; this one is stable. *)
Definition ShowTrash (root_user requester : string) : M S' (list (loc * Inode)) :=
  let requester := if decide (requester = "") then root_user else requester in
  trash ← getOrCreateTrashDirLocked root_user;
  ti ← deref trash;
  children ← live_children (iChildren ti);
  mret (merge_sort inode_le
          (filter (λ x, userCanAccess (iACL x.2) requester = true) children)).

(** The move of the ids of a subtree in the index, when both paths are known. *)
Definition rename_index (old new : option string) : M S' unit :=
  match old, new with
  | Some o, Some n =>
      if decide (o = "") then mret tt
      else on_index (RenamePrefix o n) ;; store_Save
  | _, _ => mret tt
  end.

(** The common tail of a move: unlink, relink, rewrite the paths below. *)
Definition relink (l target : loc) (finalName newPath : string) : M S' unit :=
  ignore (removeFromParent l) ;;
  assign l (λ i, set_iParent (Some target) i) ;;
  assign l (set_iName finalName) ;;
  i ← deref l;
  assign target (λ t, set_iChildren (iChildren t ++ [iFID i]) t) ;;
  updateSubtreePathsLocked l newPath.

Definition TrashFile (fid : option FID) (root_user : string) (recursive : bool) :
    M S' string :=
  match fid with
  | None => throw (Errorf "invalid FID: cannot be nil" [])
  | Some f =>
      r ← catch (GetInode f);
      match r with
      | inl _ => throw (Errorf "file not found: %s" [FID_String f])
      | inr l =>
          rootFID ← gsrv (λ s, users s !! root_user);
          if decide (FID_String <$> rootFID = Some (FID_String f)) then
            throw (Errorf "cannot trash user root directory" [])
          else
            isTrash ← isTrashDirForUser l root_user;
            if (isTrash : bool) then throw (Errorf "cannot trash the trash directory" [])
            else
              validateDeletePermissions l root_user recursive ;;
              trash ← getOrCreateTrashDirLocked root_user;
              i ← deref l;
              ti ← deref trash;
              parent ← (match iParent i with
                        | None => mret None
                        | Some p => pi ← deref p; mret (Some (FID_String (iFID pi)))
                        end);
              if decide (parent = Some (FID_String (iFID ti))) then
                throw (Errorf "inode is already in trash" [])
              else
                finalName ← uniqueNameInDirLocked trash (iName i) (InodeID (iFID i));
                let newPath := Join [iOSPath ti; finalName] in
                orig ← rel (iOSPath i);
                let originalRelPath := default "" orig in
                snaps ← gsrv (λ s, collectSharedSnapshots s originalRelPath);
                wrap "failed to move to trash: %w" [] (os (os_Rename (iOSPath i) newPath)) ;;
                detachSharedSnapshotsLocked root_user snaps ;;
                let entry := mkTrashEntry (default "" parent) (iName i) originalRelPath snaps in
                usrv (λ s, set_trashMeta (<[FID_String f := entry]> (trashMeta s)) s) ;;
                relink l trash finalName newPath ;;
                newRel ← rel newPath;
                rename_index (Some originalRelPath) newRel ;;
                mret finalName
      end
  end.

(** Where a restore goes: the original parent if it is alive, else the root. *)
Definition restore_target (root_user : string) (e : trashEntry) : M S' loc :=
  o ← (if decide (originalParentFID e = "") then mret None else find (originalParentFID e));
  match o with
  | Some p => mret p
  | None =>
      rootFID ← gsrv (λ s, users s !! root_user);
      match rootFID with
      | None => throw (Errorf "internal error: user root not found" [])
      | Some rf =>
          r ← find (FID_String rf);
          of_option (Errorf "internal error: user root inode not found" []) r
      end
  end.

Definition RestoreFile (fid : option FID) (root_user requester : string) : M S' string :=
  let requester := if decide (requester = "") then root_user else requester in
  match fid with
  | None => throw (Errorf "invalid FID: cannot be nil" [])
  | Some f =>
      r ← catch (GetInode f);
      match r with
      | inl _ => throw (Errorf "file not found: %s" [FID_String f])
      | inr l =>
          i ← deref l;
          if negb (userCanAccess (iACL i) requester) then
            throw (Errorf "permission denied: user '%s' cannot restore '%s'"
                     [requester; iName i])
          else
            trash ← getOrCreateTrashDirLocked root_user;
            ti ← deref trash;
            parent ← (match iParent i with
                      | None => mret None
                      | Some p => pi ← deref p; mret (Some (FID_String (iFID pi)))
                      end);
            if decide (parent ≠ Some (FID_String (iFID ti))) then
              throw (Errorf "inode is not in trash" [])
            else
              m ← gsrv (λ s, trashMeta s !! FID_String f);
              match m with
              | None =>
                  throw (Errorf "restore metadata not available (try restoring before restarting the server)" [])
              | Some e =>
                  target ← restore_target root_user e;
                  tgi ← deref target;
                  if decide (iType tgi ≠ InodeTypeDirectory) then
                    throw (Errorf "internal error: restore target is not a directory" [])
                  else
                    finalName ← uniqueNameInDirLocked target (originalName e) (InodeID (iFID i));
                    let newPath := Join [iOSPath tgi; finalName] in
                    oldTrashRel ← rel (iOSPath i);
                    wrap "failed to restore from trash: %w" []
                      (os (os_Rename (iOSPath i) newPath)) ;;
                    relink l target finalName newPath ;;
                    newRel ← rel newPath;
                    rename_index (Some (default "" oldTrashRel)) newRel ;;
                    (if decide (sharedSnapshots e ≠ [] ∧ originalRelPath e ≠ "") then
                       i' ← deref l;
                       p ← rel (iOSPath i');
                       reattachSharedSnapshotsLocked root_user (originalRelPath e)
                         (default (originalRelPath e) p) (sharedSnapshots e)
                     else mret tt) ;;
                    usrv (λ s, set_trashMeta (delete (FID_String f) (trashMeta s)) s) ;;
                    mret finalName
              end
      end
  end.
End trash.
