(* ===== verification/FileOps.v ===== *)
(** * Operations on files and directories

    Models the remaining operations of [internal/fileserver/fileserver.go]: user
    roots, navigation, creation, reads and writes under a quota, deletion. *)
From S2P Require Import FileServer Persist Tree Share Trash.

Section fileops.
Context {D : Type} `{Env D}.
Abbreviation S' := (Server D).

(** ** User roots *)

(** The loop over the path components. *)
Fixpoint traverse (current : FID) (components : list string) : M S' FID :=
  match components with
  | [] => mret current
  | component :: rest =>
      if decide (component = "" ∨ component = ".") then traverse current rest
      else
        l ← wrap "failed to get inode during traversal: %w" [] (GetInode current);
        i ← deref l;
        if decide (iType i ≠ InodeTypeDirectory) then
          throw (Errorf "path component is not a directory: %s" [component])
        else
          o ← child_by_name (iChildren i) component;
          c ← of_option (Errorf "path component not found: %s (looking in %s)"
                           [component; iName i]) o;
          ci ← deref c;
          traverse (iFID ci) rest
  end.

(** The first half of [GetUserRoot]: the directory and the id of a user not seen
    before, then the root inode. *)
Definition prepare_root (root_user : string) : M S' Z :=
  userDir ← gsrv (λ s, Join [rootDir s; root_user]);
  wrap "failed to create user dir: %w" [] (os (os_MkdirAll userDir)) ;;
  id ← assign_id root_user;
  sync_next_id ;;
  store_Save ;;
  mret id.
Definition create_user_root (root_user : string) : M S' FID :=
  id ← prepare_root root_user;
  userDir ← gsrv (λ s, Join [rootDir s; root_user]);
  sid ← gsrv serverID;
  let rootFID := mkFID sid id 1 in
  acl ← wrap "failed to load ACL for user %s: %w" [root_user] (LoadACL root_user root_user);
  l ← new_inode (λ l, mkInode rootFID InodeTypeDirectory root_user userDir acl [] 0 (Some l));
  usrv (λ s, set_inodes (<[FID_String rootFID := l]> (inodes s)) s) ;;
  usrv (λ s, set_users (<[root_user := rootFID]> (users s)) s) ;;
  mret rootFID.

Definition GetUserRoot (root_path root_user : string) : M S' FID :=
  existing ← gsrv (λ s, users s !! root_user);
  rootFID ← (match existing with
             | Some f => mret f
             | None => create_user_root root_user
             end);
  getOrCreateTrashDirLocked root_user ;;
  if decide (root_path = root_user) then mret rootFID
  else
    let pathComponents := Split slash (TrimPrefix root_path "/") in
    let rest := match pathComponents with
                | c :: cs => if decide (c = root_user) then cs else c :: cs
                | [] => []
                end in
    traverse rootFID rest.

(** ** Navigation *)

Definition Path (dirFID : option FID) : M S' string :=
  fid ← non_nil dirFID;
  r ← catch (GetInode fid);
  match r with
  | inl _ => throw (Errorf "directory not found, %s" [FID_String fid])
  | inr l =>
      i ← deref l;
      if decide (iType i ≠ InodeTypeDirectory) then throw (Errorf "not a directory" [])
      else
        p ← rel (iOSPath i);
        of_option (Errorf "internal error can't compute path" []) p
  end.

(** One part of a relative path. *)
Definition step_dir (path : string) (current : loc) (part : string) : M S' loc :=
  if decide (part = "" ∨ part = ".") then mret current
  else if decide (part = "..") then
    i ← deref current;
    mret (default current (iParent i))
  else
    i ← deref current;
    o ← child_by_name (iChildren i) part;
    of_option (Errorf "incorrect path: %s" [path]) o.
Fixpoint walk_parts (path : string) (current : loc) (parts : list string) : M S' loc :=
  match parts with
  | [] => mret current
  | part :: rest => l ← step_dir path current part; walk_parts path l rest
  end.

(** The FID returned next to an error is dropped by the caller. *)
Definition ChangeDir (currentFID : option FID) (path : string) (rootFID : option FID) :
    M S' (option FID) :=
  if pathContainsTrashSegment path then throw (Errorf "%s" [trashNavigationDeniedMsg])
  else
    fid ← non_nil currentFID;
    r ← catch (GetInode fid);
    match r with
    | inl _ => throw (Errorf "directory not found, %s" [FID_String fid])
    | inr current =>
        i ← deref current;
        if decide (iType i ≠ InodeTypeDirectory) then
          throw (Errorf "not a directory, %s" [FID_String fid])
        else if decide (path = "/") then mret rootFID
        else if decide (path = "..") then
          match iParent i with
          | Some p => pi ← deref p; mret (Some (iFID pi))
          | None => panic "nil pointer dereference"
          end
        else
          l ← walk_parts path current (Split slash path);
          inTrash ← isUnderRootTrashLocked l rootFID;
          if (inTrash : bool) then throw (Errorf "%s" [trashNavigationDeniedMsg])
          else li ← deref l; mret (Some (iFID li))
    end.

Definition ListDirectory (dirFID : option FID) : M S' (list (loc * Inode)) :=
  fid ← non_nil dirFID;
  r ← catch (GetInode fid);
  match r with
  | inl _ => throw (Errorf "directory not found, %s" [FID_String fid])
  | inr l =>
      i ← deref l;
      if decide (iType i ≠ InodeTypeDirectory) then
        throw (Errorf "not a directory, %s" [FID_String fid])
      else live_children (iChildren i)
  end.

(** ** Creation *)

Definition valid_filename (name : string) : bool :=
  negb (String.eqb name "" || String.eqb name "." || String.eqb name ".."
        || Contains name slash || Contains name backslash
        || negb (String.eqb (Clean name) name) || IsAbs name
        || negb (String.eqb (Base name) name)).
Definition reserved_filename (name : string) : bool :=
  String.eqb name trashDirName || String.eqb name inodeIndexFilename
  || String.eqb name quotaConfigFile || HasPrefix name ".dvfs_".

Definition create_on_disk (t : InodeType) (osPath : string) : M S' unit :=
  match t with
  | InodeTypeFile => wrap "failed to create file: %w" [] (os (os_Create osPath))
  | InodeTypeDirectory => wrap "failed to create directory: %w" [] (os (os_Mkdir osPath))
  end.

Definition CreateFile (parentFID : option FID) (name root_user : string)
    (fileType : InodeType) : M S' FID :=
  pfid ← non_nil parentFID;
  if negb (valid_filename name) then
    throw (Errorf "invalid filename: path separators and traversal components not allowed: %s"
             [name])
  else if reserved_filename name then
    throw (Errorf "reserved system filename cannot be created by user: %s" [name])
  else
    r ← catch (GetInode pfid);
    match r with
    | inl _ => throw (Errorf "parent directory not found, %s" [FID_String pfid])
    | inr parent =>
        pi ← deref parent;
        if decide (iType pi ≠ InodeTypeDirectory) then
          throw (Errorf "parent is not a directory, %s" [FID_String pfid])
        else
          existing ← child_by_name (iChildren pi) name;
          match existing with
          | Some c => ci ← deref c; mret (iFID ci)
          | None =>
              inTrash ← isUnderTrashLocked parent root_user;
              if (inTrash : bool) then
                throw (Errorf "cannot create files/directories inside trash" [])
              else
                pi ← deref parent;
                let osPath := Join [iOSPath pi; name] in
                p ← rel osPath;
                path ← of_option (Errorf "internal error can't compute path: %w" []) p;
                create_on_disk fileType osPath ;;
                id ← assign_id path;
                sid ← gsrv serverID;
                let newFID := mkFID sid id 1 in
                let acl := mkACL (Owner (iACL pi)) (aShared (iACL pi)) in
                l ← new_inode (λ _, mkInode newFID fileType name osPath acl [] 0 (Some parent));
                (if decide (fileType = InodeTypeDirectory) then ignore (SaveACL path acl)
                 else mret tt) ;;
                usrv (λ s, set_inodes (<[FID_String newFID := l]> (inodes s)) s) ;;
                assign parent (λ i, set_iChildren (iChildren i ++ [newFID]) i) ;;
                sync_next_id ;;
                store_Save ;;
                mret newFID
          end
    end.

(** ** Reading and writing *)

(** The file [name] of a directory, for the calls that read and write. *)
Definition file_in (parentFID : option FID) (name : string) : M S' loc :=
  pfid ← non_nil parentFID;
  r ← catch (GetInode pfid);
  match r with
  | inl _ => throw (Errorf "parent directory not found, %s" [FID_String pfid])
  | inr parent =>
      c ← catch (GetChildInodeByName parent name);
      match c with
      | inl _ => throw (Errorf "file not found, %s" [name])
      | inr l =>
          i ← deref l;
          if decide (iType i ≠ InodeTypeFile) then throw (Errorf "not a file, %s" [name])
          else mret l
      end
  end.

(** The largest slice a Go program can make; a longer [make] panics. *)
Definition max_slice : Z := 281474976710656.

Definition ReadFile (parentFID : option FID) (name : string) (offset length : Z) :
    M S' bytes :=
  l ← file_in parentFID name;
  i ← deref l;
  op ← osread (os_OpenRead (iOSPath i));
  wrap "failed to open file: %w" [] (of_sum op) ;;
  st ← osread (os_Stat (iOSPath i));
  size ← wrap "failed to stat file: %w" [] (of_sum st);
  let fileSize := u64 size in
  if fileSize <=? offset then mret []
  else
    let readLen :=
      if (length =? 0) || (fileSize <? u64 (offset + length)) then u64 (fileSize - offset)
      else length in
    if max_slice <? readLen then panic "makeslice: len out of range"
    else
      r ← osread (os_ReadAt (iOSPath i) (i64 offset) readLen);
      wrap "failed to read file: %w" [] (of_sum r).

Definition GetFileHash (parentFID : option FID) (name : string) : M S' string :=
  l ← file_in parentFID name;
  i ← deref l;
  op ← osread (os_OpenRead (iOSPath i));
  wrap "failed to open file for hashing: %w" [] (of_sum op) ;;
  r ← osread (os_ReadFile (iOSPath i));
  b ← wrap "failed to hash file contents: %w" [] (of_sum r);
  mret (sha256hex b).

(** Go integer subtraction after conversion to int64. *)
Definition int64_diff (a b : Z) : Z := i64 (i64 a - i64 b).

(** [for root.Parent != nil && root.Parent != root]: pointer comparisons. *)
Fixpoint walk_root (n : nat) (l : loc) : M S' loc :=
  match n with
  | O => overflow
  | S n =>
      i ← deref l;
      match iParent i with
      | Some p => if decide (p = l) then mret l else walk_root n p
      | None => mret l
      end
  end.
(** The loop that adds a size difference up to the root. *)
Fixpoint add_size_up (n : nat) (l : loc) (diff : Z) : M S' unit :=
  match n with
  | O => overflow
  | S n =>
      assign l (λ i, set_iSize (u64 (iSize i + u64 diff)) i) ;;
      i ← deref l;
      match iParent i with
      | Some p => if decide (p = l) then mret tt else add_size_up n p diff
      | None => mret tt
      end
  end.

(** The error of a write or creation the disk has no room for. *)
Definition check_disk_free (wanted printed : Z) : M S' unit :=
  root ← gsrv rootDir;
  free ← gets (λ s, os_DiskFree root (disk s));
  if (0 <? free) && ((free <=? DiskSafetyBuffer) || (free - DiskSafetyBuffer <? wanted)) then
    let usable := if DiskSafetyBuffer <? free then free - DiskSafetyBuffer else 0 in
    throw (Errorf "fileserver storage limit reached: cannot write %d bytes (usable free space: %d bytes, 20 GiB reserved for system safety)"
             [pretty printed; pretty usable])
  else mret tt.

Definition quota_exceeded (quota size wanted : Z) : bool :=
  (quota <? wanted) || (u64 (quota - wanted) <? size).
Definition free_space (quota size : Z) : Z := if size <? quota then quota - size else 0.

Definition WriteFile (parentFID : option FID) (name : string) (offset : Z) (data : bytes) :
    M S' unit :=
  l ← file_in parentFID name;
  i ← deref l;
  op ← osread (os_OpenWrite (iOSPath i));
  wrap "open failed: %w" [] (of_sum op) ;;
  let len := Z.of_nat (List.length data) in
  if maxUint64 - offset <? len then
    throw (Errorf "write offset and data length overflow maximum addressable file size" [])
  else
    let newSize := if iSize i <? u64 (offset + len) then u64 (offset + len) else iSize i in
    let sizeDiff := int64_diff newSize (iSize i) in
    (if 0 <? sizeDiff then
       n ← fuel;
       root ← walk_root n l;
       ri ← deref root;
       quota ← GetUserQuota (iName ri);
       if quota_exceeded quota (iSize ri) (u64 sizeDiff) then
         throw (Errorf "storage quota exceeded: write of %d bytes exceeds available free space (%d bytes remaining of %d quota)"
                  [pretty len; pretty (free_space quota (iSize ri)); pretty quota])
       else check_disk_free (u64 sizeDiff) sizeDiff
     else mret tt) ;;
    wrap "write failed: %w" [] (os (os_WriteAt (iOSPath i) (i64 offset) data)) ;;
    if decide (sizeDiff ≠ 0) then n ← fuel; add_size_up n l sizeDiff else mret tt.

Definition checkStorageQuotaWithAdditional (username : string) (additionalBytes : Z) :
    M S' unit :=
  rootFID ← gsrv (λ s, users s !! username);
  match rootFID with
  | None => throw (Errorf "user not found: %s" [username])
  | Some rf =>
      o ← find (FID_String rf);
      match o with
      | None => throw (Errorf "internal error: root inode not found for user %s" [username])
      | Some r =>
          ri ← deref r;
          quota ← GetUserQuota username;
          if quota_exceeded quota (iSize ri) additionalBytes then
            throw (Errorf "storage quota exceeded: user '%s' has %d bytes remaining, but requested %d bytes (quota: %d bytes)"
                     [username; pretty (free_space quota (iSize ri)); pretty additionalBytes;
                      pretty quota])
          else if 0 <? additionalBytes then check_disk_free additionalBytes additionalBytes
          else mret tt
      end
  end.

(** ** Deletion *)

(** The loop that deducts the size of a deleted inode from its ancestors. *)
Fixpoint deduct_up (n : nat) (start p : loc) (deleted : Z) : M S' unit :=
  match n with
  | O => overflow
  | S n =>
      if decide (p = start) then mret tt
      else
        assign p (λ i, set_iSize (if deleted <=? iSize i then iSize i - deleted else 0) i) ;;
        i ← deref p;
        match iParent i with
        | None => mret tt
        | Some q => if decide (q = p) then mret tt else deduct_up n start q deleted
        end
  end.

(** The removal of one inode from the table, the trash records and the index. *)
Definition forget_inode (l : loc) : M S' unit :=
  i ← deref l;
  let key := FID_String (iFID i) in
  usrv (λ s, set_inodes (delete key (inodes s)) s) ;;
  usrv (λ s, set_trashMeta (delete key (trashMeta s)) s) ;;
  st ← gsrv inodeStore;
  match st with
  | None => mret tt
  | Some _ =>
      p ← rel (iOSPath i);
      match p with Some relPath => on_index (Remove relPath) | None => mret tt end
  end.

Definition remove_on_disk (l : loc) : M S' unit :=
  i ← deref l;
  wrap "failed to delete '%s' from filesystem: %w" [iName i] (os (os_RemoveAll (iOSPath i))).

Definition notify_unshare (owner : string) (snap : sharedDirSnapshot) : M S' unit :=
  for_each (snapUsers snap) (λ user,
    ignore (RootUnshare owner (Base (snapPath snap)) (snapPath snap) user)).

(** The method prints the FID before it tests it for nil. *)
Definition DeleteFile (fid : option FID) (root_user : string) (recursive : bool) : M S' unit :=
  f ← non_nil fid;
  r ← catch (GetInode f);
  match r with
  | inl _ => throw (Errorf "file not found: %s" [FID_String f])
  | inr l =>
      rootFID ← gsrv (λ s, users s !! root_user);
      if decide (FID_String <$> rootFID = Some (FID_String f)) then
        throw (Errorf "cannot delete user root directory" [])
      else
        isTrash ← isTrashDirForUser l root_user;
        if (isTrash : bool) then throw (Errorf "cannot delete the trash directory" [])
        else
          validateDeletePermissions l root_user recursive ;;
          i ← deref l;
          below ← (if decide (iType i = InodeTypeDirectory ∧ iChildren i ≠ [])
                   then collectInodesToDelete l else mret []);
          let toDelete := below ++ [l] in
          for_each toDelete remove_on_disk ;;
          (if 0 <? iSize i then
             match iParent i with
             | Some p => n ← fuel; deduct_up n l p (iSize i)
             | None => mret tt
             end
           else mret tt) ;;
          for_each toDelete forget_inode ;;
          store_Save ;;
          target ← rel (iOSPath i);
          let targetRelPath := default "" target in
          snaps ← gsrv (λ s, collectSharedSnapshots s targetRelPath);
          usrv (λ s, set_dirShares
                       (foldl (λ m snap, delete (snapPath snap) m) (Shared s) snaps) s) ;;
          (if decide (snaps ≠ []) then ignore SaveDirShares else mret tt) ;;
          ignore (removeFromParent l) ;;
          for_each snaps (notify_unshare root_user)
  end.
End fileops.
