(* ===== verification/Grow.v ===== *)
(** * The server while it grows

    The steps every operation is made of, run from a state that satisfies the
    invariant, and the trash directory of a user: finding or creating it, the test
    whether an inode is below it.  Creating it only adds an inode, so everything
    else about the server is kept ([grows]). *)
From S2P Require Import FileServer Persist Tree TreeWf TreeRun Frames Invariant FileOps.

Implicit Types (s : FileServer) (l p x : loc) (i j : Inode) (f : FID).

Lemma refreshed_wf {D} (w w' : Server D) R :
  refreshed w w' → server_wf R (srv w) → server_wf R (srv w').
Proof.
  intros (h & -> & Hh) Hwf. apply server_wf_shape; [|done]. intros x. specialize (Hh x).
  destruct (h !! x) as [i|], (heap (srv w) !! x) as [j|]; try done. simpl in *.
  apply (inj Some) in Hh. f_equal. change (shape (set_iSize 0 i) = shape (set_iSize 0 j)).
  by rewrite Hh.
Qed.

(** What stays when inodes with a name in [P] are added and at most [n] ids assigned:
    everything about the inodes there were but their lists of children, which may
    get longer. *)
Record grows (P : string → Prop) (n : Z) s s' : Prop := {
  g_users : users s' = users s;
  g_dir : rootDir s' = rootDir s;
  g_id : serverID s' = serverID s;
  g_trash : trashMeta s' = trashMeta s;
  g_shared : Shared s' = Shared s;
  g_ms : msAddr s' = msAddr s;
  g_live x xi : live s x xi →
    ∃ xi', live s' x xi' ∧ set_iChildren [] xi' = set_iChildren [] xi
           ∧ ∃ extra, iChildren xi' = iChildren xi ++ extra;
  g_new x xi' : live s' x xi' → (∃ xi, live s x xi) ∨ P (iName xi');
  g_next st : inodeStore s = Some st →
    ∃ st', inodeStore s' = Some st'
           ∧ NextInodeID (isData st) ≤ NextInodeID (isData st') ≤ NextInodeID (isData st) + n;
}.

Lemma grows_refl P n s : 0 ≤ n → grows P n s s.
Proof.
  intros Hn. split; try done.
  - intros x xi Hx. exists xi. split_and!; try done. exists []. by rewrite app_nil_r.
  - eauto.
  - intros st Hst. exists st. split; [done|lia].
Qed.

Lemma links_eq i j :
  set_iChildren [] i = set_iChildren [] j →
  iFID i = iFID j ∧ iType i = iType j ∧ iName i = iName j ∧ iOSPath i = iOSPath j
  ∧ iACL i = iACL j ∧ iSize i = iSize j ∧ iParent i = iParent j.
Proof. destruct i, j; simpl. by intros [= -> -> -> -> -> -> ->]. Qed.

Lemma grows_below P n s s' a x : grows P n s s' → below s a x → below s' a x.
Proof.
  intros Hg Hb. induction Hb as [|p x i Hb IH Hx Hp Hne]; [constructor|].
  destruct (g_live _ _ _ _ Hg x i Hx) as (i' & Hx' & (_&_&_&_&_&_&Hp')%links_eq & _).
  apply (below_step s' a p x i'); congruence.
Qed.

Lemma grows_trans P n m s1 s2 s3 : grows P n s1 s2 → grows P m s2 s3 → grows P (n + m) s1 s3.
Proof.
  intros H1 H2. split.
  - by rewrite (g_users _ _ _ _ H2), (g_users _ _ _ _ H1).
  - by rewrite (g_dir _ _ _ _ H2), (g_dir _ _ _ _ H1).
  - by rewrite (g_id _ _ _ _ H2), (g_id _ _ _ _ H1).
  - by rewrite (g_trash _ _ _ _ H2), (g_trash _ _ _ _ H1).
  - by rewrite (g_shared _ _ _ _ H2), (g_shared _ _ _ _ H1).
  - by rewrite (g_ms _ _ _ _ H2), (g_ms _ _ _ _ H1).
  - intros x xi Hx. destruct (g_live _ _ _ _ H1 x xi Hx) as (xj & Hxj & Heq & e1 & Hc1).
    destruct (g_live _ _ _ _ H2 x xj Hxj) as (xk & Hxk & Heq' & e2 & Hc2). exists xk.
    split_and!; [done|congruence|]. exists (e1 ++ e2). by rewrite Hc2, Hc1, app_assoc.
  - intros x xk Hx. destruct (g_new _ _ _ _ H2 x xk Hx) as [[xj Hxj]|?]; [|by right].
    destruct (g_new _ _ _ _ H1 x xj Hxj) as [?|HP]; [by left|right].
    destruct (g_live _ _ _ _ H2 x xj Hxj) as (xk' & Hxk' & (_&_&Hn&_)%links_eq & _).
    rewrite (live_fun _ _ _ _ Hx Hxk'). by rewrite Hn.
  - intros st Hst. destruct (g_next _ _ _ _ H1 st Hst) as (st1 & Hst1 & ?).
    destruct (g_next _ _ _ _ H2 st1 Hst1) as (st2 & Hst2 & ?). exists st2. split; [done|lia].
Qed.

Lemma s_index_wf R s st : server_wf R s → inodeStore s = Some st → index_wf (isData st).
Proof.
  intros Hwf Hst. destruct (s_index R s Hwf) as (st' & Hst' & Hix & _). congruence.
Qed.

Lemma GetOrAssign_next q st :
  index_wf (isData st) → NextInodeID (isData st) + 1 < two64 →
  NextInodeID (isData st) ≤ NextInodeID (isData (GetOrAssign q st).1)
    ≤ NextInodeID (isData st) + 1.
Proof.
  intros Hix Hlim. destruct (Get q st) as [id|] eqn:Hg.
  - rewrite (GetOrAssign_known _ _ _ Hg). simpl. lia.
  - rewrite GetOrAssign_new; [simpl; lia|done|done|apply Hix].
Qed.

(** The growth by one inode linked to [p]. *)
Lemma added_grows (P : string → Prop) R s s' l p i st st' ns :
  (∀ x xi, live s x xi → live s' x (relinked p i x xi)) →
  inodes s' = <[FID_String (iFID i) := l]> (inodes s) → live s' l i → P (iName i) →
  inodeStore s = Some st → index_wf (isData st) → NextInodeID (isData st) + 1 < two64 →
  (GetOrAssign (rel_path ns) st).1 = st' → inodeStore s' = Some st' →
  users s' = users s → rootDir s' = rootDir s → serverID s' = serverID s →
  trashMeta s' = trashMeta s → Shared s' = Shared s → msAddr s' = msAddr s → server_wf R s → grows P 1 s s'.
Proof.
  intros Hold Hin Hl HP Hst Hix Hlim Hga Hst' Hu Hd Hid Htr Hsh Hms Hwf. split; try done.
  - intros x xi Hx. exists (relinked p i x xi). split; [by apply Hold|].
    unfold relinked. case_decide; simpl; [by eauto|].
    split; [done|]. exists []. by rewrite app_nil_r.
  - intros x xi' Hx. pose proof (proj1 Hx) as Hk. rewrite Hin in Hk.
    apply lookup_insert_Some in Hk as [[_ <-]|[_ Hk]].
    + right. by rewrite (live_fun _ _ _ _ Hx Hl).
    + left. destruct (t_key s (s_tree R s Hwf) _ _ Hk) as (xi & Hxi & _). eauto.
  - intros st0 Hst0. rewrite Hst in Hst0. injection Hst0 as <-. exists st'. split; [done|].
    rewrite <-Hga. by apply GetOrAssign_next.
Qed.

Section spec.
Context {D : Type} `{Env D}.
Implicit Types (w : Server D).

Lemma child_by_name_run w l i fs name :
  tree_wf (srv w) → live (srv w) l i → (∀ f, f ∈ fs → f ∈ iChildren i) →
  ∃ o, child_by_name fs name w = (w, Ok o)
       ∧ match o with
         | Some c => ∃ ci, live (srv w) c ci ∧ iFID ci ∈ fs ∧ iName ci = name
                           ∧ iParent ci = Some l ∧ c ≠ l
         | None => ∀ c ci, live (srv w) c ci → iFID ci ∈ fs → iName ci ≠ name
         end.
Proof.
  intros Hwf Hl. induction fs as [|f fs IH]; intros Hfs; simpl.
  { exists None. split; [done|]. intros c ci _ Hin. by apply elem_of_nil in Hin. }
  destruct (find_child _ _ _ f Hwf Hl) as (c & ci & Hc & Hcl & Hcf & Hcp & Hne);
    [apply Hfs, list_elem_of_here|].
  erewrite bind_run by apply run_find. rewrite Hc. erewrite bind_run by by apply run_deref_live.
  destruct (decide (iName ci = name)) as [Hn|Hn].
  - exists (Some c). split; [done|]. exists ci. split_and!; try done. rewrite Hcf.
    apply list_elem_of_here.
  - destruct IH as (o & Ho & Hres). { intros g Hg. by apply Hfs, list_elem_of_further. }
    exists o. split; [done|]. destruct o as [c'|].
    + destruct Hres as (ci' & ? & ? & ?). exists ci'. split_and!; try tauto.
      by apply list_elem_of_further.
    + intros c' ci' Hc' Hin. apply elem_of_cons in Hin as [Heq|Hin]; [|by eapply Hres].
      pose proof (live_loc_fun _ _ _ _ _ Hc' Hcl ltac:(congruence)) as ->.
      by rewrite (live_fun _ _ _ _ Hc' Hcl).
Qed.

Lemma fresh_heap (h : gmap loc Inode) : h !! fresh (dom h) = None.
Proof. apply not_elem_of_dom, is_fresh. Qed.

(** The walk to the root finds the inode of that key above, and ends. *)
Lemma walk_up_run rank n w l i target :
  tree_wf (srv w) → ranked (srv w) rank → live (srv w) l i → (rank l < n)%nat →
  ∃ b, walk_up n l target w = (w, Ok b)
       ∧ (b = true ↔ ∃ x xi, live (srv w) x xi ∧ below (srv w) x l
                              ∧ FID_String (iFID xi) = target).
Proof.
  intros Hwf Hr. revert l i. induction n as [|n IH]; intros l i Hl Hn; [lia|]. simpl.
  erewrite bind_run by by apply run_deref_live.
  destruct (decide (FID_String (iFID i) = target)) as [Ht|Ht].
  { exists true. split; [done|]. split; [|done]. intros _. exists l, i.
    split_and!; [done|constructor|done]. }
  destruct (t_parent _ Hwf l i Hl) as (p & pi & Hp & Hpl & Hin). rewrite Hp.
  erewrite bind_run by by apply run_deref_live.
  destruct (decide (FID_String (iFID pi) = FID_String (iFID i))) as [Heq|Hneq].
  - exists false. split; [done|]. split; [done|]. intros (x & xi & Hx & Hb & Hk).
    apply FID_String_inj in Heq. pose proof (live_loc_fun _ _ _ _ _ Hpl Hl Heq) as ->.
    destruct Hb as [|q y yi Hb Hy Hq Hqne].
    + by rewrite (live_fun _ _ _ _ Hx Hl) in Hk.
    + rewrite (live_fun _ _ _ _ Hy Hl) in Hq. congruence.
  - assert (p ≠ l) as Hne. { intros ->. by rewrite (live_fun _ _ _ _ Hpl Hl) in Hneq. }
    pose proof (proj2 Hr l i p Hl Hp Hne).
    destruct (IH p pi Hpl) as (b & Hrun & Hb); [lia|]. exists b. split; [exact Hrun|].
    rewrite Hb. split; intros (x & xi & Hx & Hbx & Hk); exists x, xi; split_and!; try done.
    + eapply below_step; eauto.
    + destruct Hbx as [|q y yi Hby Hy Hq Hqne].
      * by rewrite (live_fun _ _ _ _ Hx Hl) in Hk.
      * rewrite (live_fun _ _ _ _ Hy Hl) in Hq. congruence.
Qed.
(** ** The trash directory *)

Lemma Join_names ns n :
  ns ≠ [] → Forall name_ok ns → name_ok n → Join [rel_path ns; n] = rel_path (ns ++ [n]).
Proof.
  intros Hne Hok Hn. pose proof (names_comp_ok ns Hok) as Hc. unfold Join, rel_path.
  rewrite decide_False.
  - change (SJoin slash [SJoin slash ns; n]) with (SJoin slash ns +:+ String slash n).
    rewrite SJoin_snoc by done. apply SJoin_Clean; [by destruct ns|].
    apply Forall_app. split; [done|]. by apply Forall_singleton; destruct Hn.
  - intros Hnil. destruct ns as [|m ns]; [done|]. inversion_clear Hc as [|?? (Hm&_) _].
    by destruct m, ns.
Qed.

Lemma trash_name_ok : name_ok trashDirName.
Proof. by repeat split. Qed.

Lemma Rel_child R s pi ns name :
  server_wf R s → at_path R ns pi → name_ok name →
  Rel (rootDir s) (Join [iOSPath pi; name]) = Some (rel_path (ns ++ [name])).
Proof.
  intros Hwf (Hne & Hok & ->) Hn. destruct (s_dir R s Hwf) as (-> & HRne & HR).
  pose proof (names_comp_ok ns Hok). assert (Forall comp_ok (R ++ ns)) by by apply Forall_app.
  rewrite Join_abs_path; [|done|apply Hn|by destruct R]. rewrite <-app_assoc.
  apply Rel_abs_path; [|by destruct ns]. rewrite app_assoc. apply Forall_app.
  split; [done|]. apply Forall_singleton, Hn.
Qed.

(** The trash directory of a user. *)
Definition is_trash s (user : string) (t : loc) : Prop :=
  ∃ r ri ti, users s !! user = Some (iFID ri) ∧ live s r ri ∧ live s t ti ∧ t ≠ r
             ∧ iParent ti = Some r ∧ iName ti = trashDirName ∧ iType ti = InodeTypeDirectory.

(** Every inode was there before, or it is one that [P] allows. *)
Definition no_other w w' (P : loc → Inode → Prop) : Prop :=
  ∀ x xi, live (srv w') x xi → (∃ xj, live (srv w) x xj) ∨ P x xi.

(** What a call that looks for the trash directory of a user leaves. *)
Definition trash_made (R : list string) w (user : string) (t : loc) w' : Prop :=
  server_wf R (srv w') ∧ grows (eq trashDirName) 1 (srv w) (srv w') ∧ outbox w' = outbox w
  ∧ callbacks w' = callbacks w ∧ is_trash (srv w') user t ∧ no_other w w' (λ x _, x = t).

Definition ids_left s (n : Z) : Prop :=
  ∀ st, inodeStore s = Some st → NextInodeID (isData st) + n < two64.

Lemma assign_id_run w st path st' id :
  inodeStore (srv w) = Some st → GetOrAssign path st = (st', id) →
  assign_id path w = (set_srv (set_inodeStore (Some st') (srv w)) w, Ok id).
Proof.
  intros Hst Hrun. unfold assign_id, gsrv, gets, mbind at 1, M_bind at 1. simpl.
  rewrite Hst, Hrun. done.
Qed.

Lemma sync_next_id_run w st :
  inodeStore (srv w) = Some st →
  sync_next_id w = (set_srv (set_nextInodeID (NextInodeID (isData st)) (srv w)) w, Ok tt).
Proof. intros Hst. unfold sync_next_id, gsrv, gets, mbind, M_bind. simpl. by rewrite Hst. Qed.

Lemma store_Save_run w : ∃ d, store_Save w = (set_disk d w, Ok tt).
Proof.
  unfold store_Save, gsrv, gets, mbind, M_bind. destruct (inodeStore (srv w)) as [st|].
  - apply ignore_disk, disk_only_os.
  - exists (disk w). by rewrite set_disk_id.
Qed.

Lemma new_inode_run w (i : loc → Inode) :
  new_inode i w = (with_heap (<[fresh (dom (heap (srv w))) := i (fresh (dom (heap (srv w))))]>
                                (heap (srv w))) w, Ok (fresh (dom (heap (srv w))))).
Proof. done. Qed.

(** A call on the disk either fails or goes through. *)
Lemma wp_os {A} (c : OSCall D A) fmt args Q E w :
  (∀ d a, Q a (set_disk d w)) → (∀ d e, E e (set_disk d w)) → wp (wrap fmt args (os c)) Q E w.
Proof. intros HQ HE. unfold wp, wrap, os. destruct (c (disk w)) as [d [e|a]]; auto. Qed.

(** An index with one more key has one more inode. *)
Lemma inserted_only k w w' l :
  tree_wf (srv w) → inodes (srv w') = <[k := l]> (inodes (srv w)) → no_other w w' (λ x _, x = l).
Proof.
  intros Hwf Hin x xi [Hk _]. rewrite Hin in Hk. apply lookup_insert_Some in Hk as [[_ <-]|[_ Hk]].
  - by right.
  - left. destruct (t_key _ Hwf _ _ Hk) as (xj & Hx & _). by exists xj.
Qed.

Lemma getOrCreateTrash_wp R user w :
  server_wf R (srv w) → ids_left (srv w) 1 →
  wp (getOrCreateTrashDirLocked user)
    (λ t w', trash_made R w user t w')
    (λ e w', (∃ d, w' = set_disk d w) ∧ ∀ t, ¬ is_trash (srv w) user t) w.
Proof.
  intros Hwf Hids. unfold getOrCreateTrashDirLocked. apply wp_bind, wp_gets. cbv beta.
  destruct (users (srv w) !! user) as [rf|] eqn:Hu.
  2:{ apply wp_throw. split; [exists (disk w); by rewrite set_disk_id|].
      intros t (r & ri & ti & Hu' & _). congruence. }
  destruct (s_user R _ Hwf user rf Hu) as (r & ri & Hr & <- & Hrp & Hrt & Hrn).
  eapply wp_run; [apply run_find|]. rewrite (proj1 Hr). eapply wp_run; [done|].
  eapply wp_run; [by apply run_deref_live|].
  destruct (child_by_name_run w r ri (iChildren ri) trashDirName (s_tree R _ Hwf) Hr)
    as (o & Hrun & Hres); [done|].
  eapply wp_run; [exact Hrun|]. destruct o as [c|].
  { destruct Hres as (ci & Hc & Hin & Hcn & Hcp & Hcne).
    eapply wp_run; [by apply run_deref_live|]. case_decide as Ht.
    - apply wp_ret. split_and!; try done; [by apply grows_refl|by exists r, ri, ci|].
      intros x xi Hx. left. by exists xi.
    - apply wp_throw. split; [exists (disk w); by rewrite set_disk_id|].
      intros t (r' & ri' & ti & Hu' & Hr' & Htl & Htr & Htp & Htn & Htt).
      assert (r' = r) as -> by (apply (live_loc_fun _ _ _ _ _ Hr' Hr); congruence).
      destruct (live_path R _ Hwf r ri Hr) as [ns Hns].
      assert (t = c) as ->; [|by rewrite (live_fun _ _ _ _ Hc Htl) in Ht].
      apply (at_path_inj R _ Hwf t ti c ci (ns ++ [trashDirName])); try done.
      + rewrite <-Htn. by apply (at_path_child R _ Hwf t ti r ri).
      + rewrite <-Hcn. by apply (at_path_child R _ Hwf c ci r ri). }
  destruct (s_index R _ Hwf) as (st & Hst & _).
  destruct (s_root R _ Hwf r ri Hr Hrp) as (_ & _ & _ & Hat). rewrite Hrn in Hat.
  destruct (GetOrAssign (rel_path ([user] ++ [trashDirName])) st) as [st' id] eqn:Hga.
  apply wp_bind, wp_os.
  2:{ intros d e. split; [by exists d|]. intros t (r' & ri' & ti & Hu' & Hr' & Htl & Htr & Htp & Htn & _).
      assert (r' = r) as -> by (apply (live_loc_fun _ _ _ _ _ Hr' Hr); congruence).
      apply (Hres t ti Htl); [|done]. by apply (child_listed _ r ri t ti (s_tree R _ Hwf)). }
  intros d1 _.
  rewrite <-(Join_names [user]) in Hga; [|done|apply Hat|apply trash_name_ok].
  eapply wp_run; [by apply (assign_id_run _ st _ st' id)|].
  eapply wp_run; [by apply (sync_next_id_run _ st')|].
  match goal with |- wp _ _ _ ?w1 => destruct (store_Save_run w1) as [d2 Hd2] end.
  eapply wp_run; [exact Hd2|]. clear Hd2. eapply wp_run; [done|].
  eapply wp_run; [apply new_inode_run|]. cbv beta. simpl srv. simpl heap.
  set (l := fresh (dom (heap (srv w)))).
  set (ti := mkInode _ _ _ _ _ _ _ _).
  eapply wp_run; [done|]. eapply wp_run; [done|]. apply wp_ret.
  rewrite (Join_names [user]) in Hga; [|done|apply Hat|apply trash_name_ok].
  match goal with |- trash_made R w user l ?w1 => set (w' := w1) end.
  assert (∀ x xi, live (srv w) x xi → ¬ at_path R ([user] ++ [iName ti]) xi) as Hfree
    by (by apply (child_path_free R _ Hwf r ri)).
  assert (heap (srv w) !! l = None) as Hnew by apply fresh_heap.
  destruct (add_all R (srv w) (srv w') Hwf r l ri ti [user] st st' id Hr Hrt Hat eq_refl eq_refl
    trash_name_ok eq_refl eq_refl Hnew Hfree Hst (Hids st Hst) Hga eq_refl eq_refl eq_refl eq_refl
    eq_refl eq_refl) as (Hwf' & Hl & Hold & Hne & Hkey).
  split; [exact Hwf'|]. split.
  { apply (added_grows _ R (srv w) (srv w') l r ti st st' ([user] ++ [trashDirName])); try done.
    - by apply (s_index_wf R (srv w)).
    - by apply Hids.
    - by rewrite Hga. }
  split; [done|]. split; [done|]. split.
  - exists r, (relinked r ti r ri), ti.
    destruct (relinked_fields r ti r ri) as (->&_). split_and!; auto.
  - exact (inserted_only _ w w' l (s_tree R _ Hwf) eq_refl).
Qed.
(** The state a failed or successful look at the trash leaves. *)
Definition kept (R : list string) w w' : Prop :=
  server_wf R (srv w') ∧ grows (eq trashDirName) 1 (srv w) (srv w') ∧ outbox w' = outbox w
  ∧ callbacks w' = callbacks w.

Lemma kept_disk R w d : server_wf R (srv w) → kept R w (set_disk d w).
Proof. intros Hwf. split_and!; try done. by apply grows_refl. Qed.

Lemma fuel_above s rank l i : ranked s rank → live s l i → (rank l < fuel_of s)%nat.
Proof. intros [Hb _] Hl. pose proof (Hb l i Hl). unfold fuel_of. lia. Qed.

Lemma isUnderTrash_wp R user l i w :
  server_wf R (srv w) → ids_left (srv w) 1 → live (srv w) l i →
  wp (isUnderTrashLocked l user)
    (λ b w', kept R w w'
       ∧ (b = true ↔ ∃ t, is_trash (srv w') user t ∧ below (srv w') t l)
       ∧ no_other w w' (λ x _, is_trash (srv w') user x))
    (λ _ _, False) w.
Proof.
  intros Hwf Hids Hl. unfold isUnderTrashLocked. apply wp_bind, wp_catch.
  eapply wp_mono; [by apply (getOrCreateTrash_wp R)| |].
  - intros t w' (Hwf' & Hg & Ho & Hc & Ht & Hnew). cbv beta. pose proof Ht as Htrash.
    destruct Ht as (r & ri & ti & Hu & Hr & Htl & Htr & Htp & Htn & Htt).
    eapply wp_run; [by apply run_deref_live|]. eapply wp_run; [done|].
    destruct (g_live _ _ _ _ Hg l i Hl) as (i' & Hl' & _).
    destruct (bounded_rank _ (s_tree R _ Hwf')) as [rank Hrank].
    destruct (walk_up_run rank (fuel_of (srv w')) w' l i' (FID_String (iFID ti))
                (s_tree R _ Hwf') Hrank Hl') as (b & Hrun & Hb); [by eapply fuel_above|].
    unfold wp. rewrite Hrun. split; [by split_and!|]. split.
    2:{ intros x xi Hx. destruct (Hnew x xi Hx) as [?| ->]; auto. }
    rewrite Hb. split.
    + intros (x & xi & Hx & Hbx & Hk%FID_String_inj). exists t. split.
      * by exists r, ri, ti.
      * by rewrite <-(live_loc_fun _ _ _ _ _ Hx Htl Hk).
    + intros (t' & (r' & ri' & ti' & Hu' & Hr' & Htl' & Htr' & Htp' & Htn' & _) & Hbt).
      assert (r' = r) as -> by (apply (live_loc_fun _ _ _ _ _ Hr' Hr); congruence).
      destruct (live_path R _ Hwf' r ri Hr) as [ns Hns].
      assert (t' = t) as ->.
      { apply (at_path_inj R _ Hwf' t' ti' t ti (ns ++ [trashDirName])); try done.
        - rewrite <-Htn'. by apply (at_path_child R _ Hwf' t' ti' r ri).
        - rewrite <-Htn. by apply (at_path_child R _ Hwf' t ti r ri). }
      exists t, ti. done.
  - intros e w' [[d ->] Hno]. apply wp_ret. split; [by apply kept_disk|].
    split; [|intros x xi Hx; left; by exists xi].
    split; [done|]. intros (t & Ht & _). by destruct (Hno t).
Qed.

(** ** Sizes above an inode *)

(** A loop that changes the size of an inode and of everything above it. *)
Fixpoint resize_up (n : nat) (p : loc) (g : Inode → Inode) : M (Server D) unit :=
  match n with
  | O => overflow
  | S n =>
      assign p g ;;
      i ← deref p;
      match iParent i with
      | Some q => if decide (q = p) then mret tt else resize_up n q g
      | None => mret tt
      end
  end.

(** The sizes at and above [p] are changed by [g], nothing else is. *)
Definition resized s (p : loc) (g : Inode → Inode) (h : gmap loc Inode) : Prop :=
  (∀ x xi, live s x xi → below s x p → h !! x = Some (g xi))
  ∧ (∀ x, ¬ below s x p → h !! x = heap s !! x)
  ∧ ∀ x, set_iSize 0 <$> h !! x = set_iSize 0 <$> heap s !! x.

Lemma below_parent s p pi q x :
  live s p pi → iParent pi = Some q → q ≠ p → below s x p ↔ x = p ∨ below s x q.
Proof.
  intros Hp Hq Hne. split.
  - intros Hb. destruct Hb as [|q' p pi' Hb Hp' Hq' Hne']; [by left|right].
    rewrite (live_fun _ _ _ _ Hp' Hp) in Hq'. congruence.
  - intros [->|Hb]; [constructor|]. by apply (below_step s x q p pi).
Qed.

Section resize.
Context (g : Inode → Inode) (Hg : ∀ i, set_iSize 0 (g i) = set_iSize 0 i).

Lemma alter_size p (h : gmap loc Inode) x :
  set_iSize 0 <$> alter g p h !! x = set_iSize 0 <$> h !! x.
Proof.
  destruct (decide (x = p)) as [->|Hne]; [|by rewrite lookup_alter_ne].
  rewrite lookup_alter_eq. destruct (h !! p); [|done]. simpl. by rewrite Hg.
Qed.

Lemma same_skel_resize s p : same_skel s (set_heap (alter g p (heap s)) s).
Proof.
  apply same_skel_alter. intros i. specialize (Hg i). destruct (g i), i; simpl in *. by simplify_eq.
Qed.

Lemma size_only_parent i : iParent (g i) = iParent i.
Proof. specialize (Hg i). destruct (g i), i; simpl in *. by simplify_eq. Qed.

Lemma resize_up_run rank n w p pi :
  tree_wf (srv w) → ranked (srv w) rank → live (srv w) p pi → (rank p < n)%nat →
  ∃ h, resize_up n p g w = (with_heap h w, Ok tt) ∧ resized (srv w) p g h.
Proof.
  revert w p pi. induction n as [|n IH]; intros w p pi Hwf Hr Hp Hn; [lia|]. simpl.
  set (h1 := alter g p (heap (srv w))). set (w1 := with_heap h1 w).
  pose proof (same_skel_resize (srv w) p : same_skel (srv w) (srv w1)) as Hsk.
  assert (heap (srv w1) !! p = Some (g pi)) as Hp1.
  { simpl. unfold h1. rewrite lookup_alter_eq. by rewrite (proj2 Hp). }
  erewrite bind_run by exact (run_assign w p g).
  erewrite bind_run by by apply (run_deref w1).
  destruct (t_parent _ Hwf p pi Hp) as (q & qi & Hq & Hql & _).
  rewrite size_only_parent, Hq. case_decide as Hqp.
  - subst q. exists h1. split; [done|]. split_and!; [| |apply alter_size].
    + intros x xi Hx Hb. assert (x = p) as ->.
      { destruct Hb as [|q p pi' Hb Hp' Hq' Hne]; [done|].
        rewrite (live_fun _ _ _ _ Hp' Hp) in Hq'. congruence. }
      unfold h1. rewrite lookup_alter_eq. by rewrite (proj2 Hx).
    + intros x Hb. apply lookup_alter_ne. intros <-. apply Hb. constructor.
  - destruct (live_skel _ _ _ _ Hsk Hql) as (qi' & Hq1 & _).
    pose proof (proj2 Hr p pi q Hp Hq Hqp).
    destruct (IH w1 q qi') as (h & Hrun & Hin & Hout & Hsize); try done; try lia.
    { by eapply tree_wf_skel. } { by eapply ranked_skel. }
    assert (¬ below (srv w) p q) as Hnb.
    { intros Hb. apply Hqp, (below_antisym _ _ _ Hwf); [|done].
      apply (below_parent _ p pi q); try done. right. constructor. }
    exists h. split; [exact Hrun|]. split_and!.
    + intros x xi Hx [->|Hb]%(below_parent _ p pi q); try done.
      * rewrite Hout by by rewrite <-(below_skel_iff _ _ _ _ Hsk).
        by rewrite (live_fun _ _ _ _ Hx Hp), Hp1.
      * assert (x ≠ p) as Hxp by (by intros ->).
        apply Hin; [|by apply (below_skel _ _ _ _ Hsk)]. split; [apply Hx|].
        simpl. unfold h1. by rewrite lookup_alter_ne by done; apply Hx.
    + intros x Hb. rewrite Hout.
      * apply lookup_alter_ne. intros <-. apply Hb. constructor.
      * rewrite <-(below_skel_iff _ _ _ _ Hsk). intros Hbq. apply Hb.
        apply (below_parent _ p pi q); auto.
    + intros x. rewrite Hsize. apply alter_size.
Qed.
End resize.
End spec.
