(* ===== verification/Demo.v ===== *)
(** * A concrete server

    An environment with the executable disk of Disk.v, and a small server built
    with the operations themselves: the inputs at which the witnesses apply the
    theorems. *)
From S2P Require Import FileServer Persist Tree TreeWf Invariant Share Trash FileOps.
From Stdlib Require Import Strings.Byte.

#[export] Instance demo_env : Env MemDisk := {|
  env_index := countable_json InodeIndexData;
  env_acl := countable_json ACLMetadata;
  env_shares := countable_json DirSharesState;
  env_quotas := countable_json QuotaConfig;
  sha256hex b := pretty (Z.of_nat (length b));
  sha256str t := "h" +:+ t;
  ms_reply _ _ := None;
|}.

Definition demo_disk : MemDisk :=
  mkMemDisk {[ ["srv"] := DDir ]} (100 * DiskSafetyBuffer) [].

(** A server on an empty directory, with a metaserver and an inode index. *)
Definition demo_start : Server MemDisk :=
  mkServer (set_inodeStore (Some (mkInodeStore "/srv" "/srv/.dvfs_inodes_index.json" (mkIndex 0 ∅)))
              (blank "fs1" "/srv" "ms:1")) demo_disk [] [].

Definition value {A} (d : A) (r : Server MemDisk * res A) : A :=
  match r.2 with Ok a => a | _ => d end.
Definition no_fid : FID := mkFID "" 0 0.

(** ann's root (id 0, trash 1), her directory [doc] (2) and the file [doc/f] (3). *)
Definition demo_root := GetUserRoot "ann" "ann" demo_start.
Definition ann_fid : FID := Eval vm_compute in value no_fid demo_root.
Definition demo_doc := CreateFile (Some ann_fid) "doc" "ann" InodeTypeDirectory demo_root.1.
Definition doc_fid : FID := Eval vm_compute in value no_fid demo_doc.
Definition demo_file := CreateFile (Some doc_fid) "f" "ann" InodeTypeFile demo_doc.1.
Definition file_fid : FID := Eval vm_compute in value no_fid demo_file.
Definition demo : Server MemDisk := Eval vm_compute in demo_file.1.

Definition loc_of (w : Server MemDisk) (f : FID) : loc :=
  default 1%positive (inodes (srv w) !! FID_String f).
Definition doc_loc : loc := Eval vm_compute in loc_of demo doc_fid.
Definition file_loc : loc := Eval vm_compute in loc_of demo file_fid.

Definition inode_of (w : Server MemDisk) (l : loc) : Inode :=
  default (mkInode no_fid InodeTypeFile "" "" (mkACL "" []) [] 0 None) (heap (srv w) !! l).
Definition doc_inode : Inode := Eval vm_compute in inode_of demo doc_loc.
Definition file_inode : Inode := Eval vm_compute in inode_of demo file_loc.

Example demo_fids :
  map FID_String [ann_fid; doc_fid; file_fid] = ["fs1_0_1"; "fs1_2_1"; "fs1_3_1"].
Proof. reflexivity. Qed.

Lemma demo_wf : tree_wf (srv demo).
Proof. apply (tree_wfb_sound Pos.to_nat). vm_compute. reflexivity. Qed.
Lemma demo_server_wf : server_wf ["srv"] (srv demo).
Proof. apply (server_wfb_sound _ Pos.to_nat). vm_compute. reflexivity. Qed.
Lemma demo_doc_live : live (srv demo) doc_loc doc_inode.
Proof. split; vm_compute; reflexivity. Qed.
Lemma demo_file_live : live (srv demo) file_loc file_inode.
Proof. split; vm_compute; reflexivity. Qed.

(** The server after [doc] was shared with bob. *)
Definition demo_shared : Server MemDisk := Eval vm_compute in (Share "ann" "bob" (Some doc_fid) demo).1.
Lemma demo_shared_run : Share "ann" "bob" (Some doc_fid) demo = (demo_shared, Ok tt).
Proof. vm_compute. reflexivity. Qed.
