(* ===== verification/PersistSpec.v ===== *)
(** * What a restart finds

    The documents the file server writes are the ones a server started later on the
    same directory reads: the inode index, the ACL of a path, the explicit shares,
    the quotas.  The disk and the encoders are only known by their laws. *)
From S2P Require Import Prelude GoStd Disk InodeStore FileServer Persist Frames Demo TreeWf.
From Stdlib Require Import Strings.Byte.

(** ** Paths of the temporary files *)

Lemma SJoin_suffix sep ns n (e : string) :
  SJoin sep (ns ++ [n]) +:+ e = SJoin sep (ns ++ [n +:+ e]).
Proof.
  induction ns as [|m ns IH]; [done|]. simpl app.
  rewrite !SJoin_cons by by destruct ns. rewrite string_app_assoc. f_equal. simpl.
  by rewrite <-IH.
Qed.

Lemma comps_abs_path ns : Forall comp_ok ns → ns ≠ [] → comps (abs_path ns) = ns.
Proof.
  intros Hok Hne. unfold comps. rewrite Clean_abs_path, Split_abs_path by done.
  rewrite filter_cons_False by naive_solver.
  clear Hne. induction Hok as [|n ns (H1&H2&_) _ IH]; [done|].
  rewrite filter_cons_True by done. by rewrite IH.
Qed.

Lemma tmp_differs R n :
  Forall comp_ok R → comp_ok n → comp_ok (n +:+ ".tmp") → n ≠ n +:+ ".tmp" →
  comps (abs_path (R ++ [n]) +:+ ".tmp") ≠ comps (abs_path (R ++ [n])).
Proof.
  intros HR Hn Ht Hne. unfold abs_path.
  change (String slash (SJoin slash (R ++ [n])) +:+ ".tmp")
    with (String slash (SJoin slash (R ++ [n]) +:+ ".tmp")).
  rewrite SJoin_suffix.
  change (comps (abs_path (R ++ [n +:+ ".tmp"])) ≠ comps (abs_path (R ++ [n]))).
  rewrite !comps_abs_path; try by destruct R.
  - intros [_ [= Heq]]%app_inj_2; done.
  - apply Forall_app. split; [done|]. by apply Forall_singleton.
  - apply Forall_app. split; [done|]. by apply Forall_singleton.
Qed.

#[local] Arguments Join : simpl never.

Section restart.
Context {D : Type} `{Env D} `{!DiskLaws D} `{!JsonLaws InodeIndexData} `{!JsonLaws ACLMetadata}
  `{!JsonLaws DirSharesState} `{!JsonLaws QuotaConfig}.
Implicit Types (w : Server D).

(** The store of a root directory. *)
Definition store_of (R : list string) (st : InodeStore) : Prop :=
  R ≠ [] ∧ Forall comp_ok R ∧ isRootDir st = abs_path R
  ∧ indexPath st = Join [abs_path R; inodeIndexFilename].

(** A server of the same directory that finds the disk of [w]. *)
Definition restarted w w2 : Prop := disk w2 = disk w ∧ rootDir (srv w2) = rootDir (srv w).

(** An index that was saved is the one the next server finds: when [Save] on the
    store of a root directory succeeds, [NewInodeStore] on that directory gives
    exactly the same store.  The encoder never writes a blank document. *)
Theorem NewInodeStore_after_Save R st (d d' : D) :
  store_of R st →
  forallb is_space (marshal (isData st)) = false →
  Save st d = (d', inr tt) → NewInodeStore (abs_path R) d' = inr st.
Proof.
  intros (Hne & HR & Hroot & Hpath) Hsp Hs. unfold NewInodeStore.
  assert (comp_ok inodeIndexFilename) as Hf by by split_and!.
  rewrite (load_Save st _ d d' Hs); [|done| |done].
  - f_equal. destruct st as [r q x]. simpl in *. by subst.
  - rewrite Hpath, Join_abs_path by done.
    apply tmp_differs; [done|done|by split_and!|done].
Qed.

(** A document written to a temporary file and renamed into place. *)
Lemma write_rename_read tmp path b (d d1 d2 : D) :
  os_WriteFile tmp b d = (d1, inr tt) → os_Rename tmp path d1 = (d2, inr tt) →
  os_ReadFile path d2 = inr b ∧ os_Stat path d2 = inr (Z.of_nat (length b)).
Proof.
  intros Hw Hr. apply read_WriteFile in Hw. pose proof (read_Rename _ _ _ _ _ Hr Hw) as Hx.
  split; [done|]. by apply stat_read.
Qed.

(** The ACL of a path survives a restart: when [SaveACL] succeeds it only
    changes the disk, and on that disk [LoadACL] for any user of any server with the
    same root directory gives back exactly the owner and the users it was shared
    with.  A failed [SaveACL] leaves the server alone too. *)
Theorem LoadACL_after_SaveACL path acl w w' r :
  SaveACL path acl w = (w', r) →
  (∃ d, w' = set_disk d w)
  ∧ (r = Ok tt → ∀ w2 user, restarted w' w2 →
       LoadACL user path w2 = (w2, Ok acl)).
Proof.
  intros Hrun. destruct (SaveACL_disk path acl w) as (d & r' & Hd & _).
  rewrite Hrun in Hd. injection Hd as -> ->. split; [by exists d|]. intros -> w2 user [Hdisk Hroot].
  revert Hrun. unfold SaveACL, getACLPath, wrap, os, catch, ignore, gsrv, gets, mbind, M_bind. simpl.
  destruct (os_WriteFile _ _ (disk w)) as [d1 [e|[]]] eqn:Hw; [done|]. simpl.
  destruct (os_Rename _ _ d1) as [d2 [e|[]]] eqn:Hr; simpl; [by destruct (os_Remove _ d2) as [? []]|].
  intros [= <-]. destruct (write_rename_read _ _ _ _ _ _ Hw Hr) as [Hread Hstat]. simpl in Hdisk, Hroot.
  unfold LoadACL, getACLPath, osread, gsrv, gets, mbind, M_bind. simpl.
  rewrite Hroot, Hdisk, Hstat. simpl. by rewrite Hdisk, Hread, unmarshal_marshal; destruct acl.
Qed.

(** The explicit shares survive a restart: when [SaveDirShares] succeeds it only
    changes the disk, and [LoadDirShares] of any server started on that disk with
    the same root directory ends with exactly that table, whatever it had before. *)
Theorem LoadDirShares_after_SaveDirShares w w' r :
  SaveDirShares w = (w', r) →
  (∃ d, w' = set_disk d w)
  ∧ (r = Ok tt → ∀ w2, restarted w' w2 →
       LoadDirShares w2 = (set_srv (set_dirShares (Shared (srv w)) (srv w2)) w2, Ok tt)).
Proof.
  intros Hrun. destruct (SaveDirShares_disk w) as (d & r' & Hd & _).
  rewrite Hrun in Hd. injection Hd as -> ->. split; [by exists d|]. intros -> w2 [Hdisk Hroot].
  revert Hrun. unfold SaveDirShares, wrap, os, catch, ignore, gsrv, gets, mbind, M_bind. simpl.
  destruct (decide (rootDir (srv w) = "")) as [?|Hne]; [done|].
  destruct (os_WriteFile _ _ (disk w)) as [d1 [e|[]]] eqn:Hw; [done|]. simpl.
  destruct (os_Rename _ _ d1) as [d2 [e|[]]] eqn:Hr; simpl; [by destruct (os_Remove _ d2) as [? []]|].
  intros [= <-]. destruct (write_rename_read _ _ _ _ _ _ Hw Hr) as [Hread Hstat]. simpl in Hdisk, Hroot.
  unfold LoadDirShares, osread, gsrv, usrv, gets, modify, mbind, M_bind. simpl.
  rewrite Hroot, decide_False by done. simpl. rewrite Hdisk, Hstat. simpl. by rewrite Hdisk, Hread, unmarshal_marshal.
Qed.

(** Setting a quota is refused exactly for an empty name or a quota of 0.
    Otherwise the quota is in force at once, for that user only, even when writing
    it fails; when the call succeeds a server started on the same directory loads
    it, and the quotas of all other users with it. *)
Theorem SetUserQuota_correct user q w :
  let '(w', r) := SetUserQuota user q w in
  ((user = "" ∨ q = 0) → w' = w ∧ ∃ e, r = Err e)
  ∧ (user ≠ "" → 0 < q →
      getUserQuota (srv w') user = q
      ∧ (∀ v, v ≠ user → getUserQuota (srv w') v = getUserQuota (srv w) v)
      ∧ (∃ d, w' = set_disk d (set_srv (set_quotas (<[user := q]> (quotas (srv w))) (srv w)) w))
      ∧ (r = Ok tt → ∀ w2, restarted w' w2 →
          quotas (srv w2) = ∅ →
          ∃ w3, loadQuotas w2 = (w3, Ok tt)
                ∧ ∀ v, getUserQuota (srv w3) v = getUserQuota (srv w') v)).
Proof.
  unfold SetUserQuota. case_decide as Hu.
  { split; [|naive_solver]. intros _. split; [done|]. by eexists. }
  case_decide as Hq. { split; [|lia]. intros _. split; [done|]. by eexists. }
  set (w1 := set_srv (set_quotas (<[user := q]> (quotas (srv w))) (srv w)) w).
  assert (∃ d r, (usrv (λ s, set_quotas (<[user := q]> (quotas s)) s) ;;
            wrap "failed to persist quota: %w" [] saveQuotasLocked) w = (set_disk d w1, r)
    ∧ (r = Ok tt → os_ReadFile (Join [rootDir (srv w); quotaConfigFile]) d
                   = inr (marshal (<[user := q]> (quotas (srv w)) : QuotaConfig)))) as (d & r & -> & Hok).
  { unfold saveQuotasLocked, wrap, os, catch, ignore, usrv, gsrv, modify, gets, mbind, M_bind. simpl.
    destruct (os_CreateTemp _ _ (disk w)) as [d0 [e|tmp]]; simpl; [by eexists _, _|].
    destruct (os_WriteFile _ _ d0) as [d1 [e|[]]] eqn:Hw; simpl.
    { destruct (os_Remove tmp d1) as [d2 [?|?]]; by eexists _, _. }
    destruct (os_Rename _ _ d1) as [d2 [e|[]]] eqn:Hr; simpl.
    { destruct (os_Remove tmp d2) as [d3 [?|?]]; by eexists _, _. }
    eexists _, _. split; [done|]. intros _. by apply (write_rename_read _ _ _ _ _ _ Hw Hr). }
  split; [naive_solver|]. intros _ Hpos. unfold getUserQuota. simpl. split_and!.
  - rewrite lookup_insert_eq. by destruct (Z.ltb_spec 0 q); [|lia].
  - intros v Hv. by rewrite lookup_insert_ne.
  - by exists d.
  - intros Hread%Hok w2 [Hdisk Hroot] Hq2. simpl in Hdisk, Hroot. eexists. split.
    { unfold loadQuotas, osread, gsrv, usrv, gets, modify, mbind, M_bind. simpl.
      rewrite Hroot, Hdisk. simpl. by rewrite Hread, unmarshal_marshal. }
    intros v. simpl. by rewrite Hq2, (right_id_L ∅ (∪)).
Qed.
End restart.

(** ** The theorems on the executable disk *)

Definition demo_save : InodeStore :=
  mkInodeStore "/srv" "/srv/.dvfs_inodes_index.json" (mkIndex 5 {[ "ann" := 0; "ann/.trash" := 1 ]}).

Lemma NewInodeStore_after_Save_witness :
  ∃ d', Save demo_save demo_disk = (d', inr tt) ∧ NewInodeStore "/srv" d' = inr demo_save.
Proof.
  assert ((Save demo_save demo_disk).2 = inr tt) as Hr by (vm_compute; reflexivity).
  destruct (Save demo_save demo_disk) as [d' r] eqn:Hrun. simpl in Hr. subst r. exists d'.
  split; [reflexivity|].
  change "/srv" with (abs_path ["srv"]).
  apply (NewInodeStore_after_Save (H := demo_env) (JsonLaws0 := countable_json_laws _)
    ["srv"] demo_save demo_disk d').
  - split; [discriminate|]. split; [|split; reflexivity].
    apply Forall_singleton. split_and!; (discriminate || reflexivity).
  - vm_compute. reflexivity.
  - exact Hrun.
Defined.

Lemma LoadACL_after_SaveACL_witness :
  ∃ w', SaveACL "ann/doc" (mkACL "ann" ["bob"]) demo = (w', Ok tt)
        ∧ LoadACL "eve" "ann/doc" w' = (w', Ok (mkACL "ann" ["bob"])).
Proof.
  assert ((SaveACL "ann/doc" (mkACL "ann" ["bob"]) demo).2 = Ok tt) as Hr by (vm_compute; reflexivity).
  assert (rootDir (srv (SaveACL "ann/doc" (mkACL "ann" ["bob"]) demo).1) = "/srv") as Hd
    by (vm_compute; reflexivity).
  destruct (SaveACL _ _ demo) as [w' r] eqn:Hrun. simpl in Hr, Hd. subst r. exists w'.
  split; [reflexivity|].
  destruct (LoadACL_after_SaveACL (H := demo_env) (JsonLaws1 := countable_json_laws _) "ann/doc" (mkACL "ann" ["bob"])
    demo w' (Ok tt) Hrun) as [_ Hl].
  apply Hl; [reflexivity|split; reflexivity].
Defined.

Lemma LoadDirShares_after_SaveDirShares_witness :
  ∃ w', SaveDirShares demo_shared = (w', Ok tt) ∧ Shared (srv demo_shared) = {[ "ann/doc" := ["bob"] ]}
        ∧ LoadDirShares (set_srv (blank "fs2" "/srv" "") w')
          = (set_srv (set_dirShares (Shared (srv demo_shared)) (blank "fs2" "/srv" "")) w', Ok tt).
Proof.
  assert ((SaveDirShares demo_shared).2 = Ok tt) as Hr by (vm_compute; reflexivity).
  assert (rootDir (srv (SaveDirShares demo_shared).1) = "/srv") as Hd by (vm_compute; reflexivity).
  destruct (SaveDirShares demo_shared) as [w' r] eqn:Hrun. simpl in Hr, Hd. subst r. exists w'.
  split; [reflexivity|]. split; [vm_compute; reflexivity|].
  destruct (LoadDirShares_after_SaveDirShares (H := demo_env) (JsonLaws2 := countable_json_laws _) demo_shared w'
    (Ok tt) Hrun) as [_ Hl].
  apply (Hl eq_refl (set_srv (blank "fs2" "/srv" "") w')). split; [reflexivity|]. exact (eq_sym Hd).
Defined.

Lemma SetUserQuota_correct_witness :
  let '(w', r) := SetUserQuota "ann" 5000 demo in
  r = Ok tt ∧ getUserQuota (srv w') "ann" = 5000
  ∧ ∃ w3, loadQuotas (set_srv (blank "fs1" "/srv" "") w') = (w3, Ok tt)
          ∧ ∀ v, getUserQuota (srv w3) v = getUserQuota (srv w') v.
Proof.
  pose proof (SetUserQuota_correct (H := demo_env) (JsonLaws3 := countable_json_laws _) "ann" 5000 demo) as Hq.
  assert ((SetUserQuota "ann" 5000 demo).2 = Ok tt) as Hr by (vm_compute; reflexivity).
  assert (rootDir (srv (SetUserQuota "ann" 5000 demo).1) = "/srv") as Hd by (vm_compute; reflexivity).
  destruct (SetUserQuota "ann" 5000 demo) as [w' r]. simpl in Hr, Hd. subst r.
  destruct Hq as [_ Hq]. destruct Hq as (Hnow & _ & _ & Hload); [discriminate|reflexivity|].
  split; [reflexivity|]. split; [exact Hnow|].
  exact (Hload eq_refl (set_srv (blank "fs1" "/srv" "") w') (conj eq_refl (eq_sym Hd)) eq_refl).
Defined.
