(* ===== verification/ShareSpec.v ===== *)
(** * Sharing is exact

    A successful [Share] gives the user access to the directory and everything
    below it and to nothing else, [Unshare] takes it away from all of it, and a
    refused call changes no ACL; for every disk and every answer of the
    metaserver. *)
From S2P Require Import FileServer Persist Tree TreeWf TreeRun Frames Share FileOps Demo.

Implicit Types (s : FileServer) (l p x : loc) (i j : Inode) (f : FID).

Definition grant_inode (u : string) (i : Inode) : Inode :=
  set_Shared (append_unique (aShared (iACL i)) u) i.
Definition revoke_inode (u : string) (i : Inode) : Inode :=
  set_Shared (without (aShared (iACL i)) u) i.

Lemma set_Shared_id i : set_Shared (aShared (iACL i)) i = i.
Proof. by destruct i as [? ? ? ? [] ? ? ?]. Qed.

Lemma grant_inode_idemp u i : grant_inode u (grant_inode u i) = grant_inode u i.
Proof.
  unfold grant_inode at 1. unfold append_unique.
  assert (contains u (aShared (iACL (grant_inode u i))) = true) as ->.
  { apply contains_spec. simpl. apply append_unique_elem. by left. }
  apply set_Shared_id.
Qed.

Lemma without_absent (l : list string) (x : string) : contains x l = false → without l x = l.
Proof. rewrite contains_false. apply without_not_in. Qed.

Lemma revoke_inode_idemp u i : revoke_inode u (revoke_inode u i) = revoke_inode u i.
Proof.
  unfold revoke_inode at 1. rewrite without_not_in; [apply set_Shared_id|].
  simpl. rewrite without_elem. tauto.
Qed.

Lemma skel_grant u i : skel (grant_inode u i) = skel i.
Proof. done. Qed.
Lemma skel_revoke u i : skel (revoke_inode u i) = skel i.
Proof. done. Qed.

Section spec.
Context {D : Type} `{Env D}.
Implicit Types (w : Server D).

(** ** A loop that edits inodes one by one *)

(** The call edits one inode through [g] and may touch the disk. *)
Definition edits (g : Inode → Inode) (m : loc → M (Server D) unit) : Prop :=
  ∀ w x i, heap (srv w) !! x = Some i →
    ∃ d, m x w = (set_disk d (with_heap (alter g x (heap (srv w))) w), Ok tt).

Lemma alter_fix {A} (g : A → A) (h : gmap loc A) x a :
  h !! x = Some a → g a = a → alter g x h = h.
Proof. intros Hx Hg. apply alter_id. intros b Hb. congruence. Qed.

Lemma persist_acl_run w x i :
  heap (srv w) !! x = Some i → ∃ d, persist_acl x w = (set_disk d w, Ok tt).
Proof.
  intros Hx. unfold persist_acl, rel, gsrv, gets. erewrite bind_run by by apply run_deref.
  unfold mbind at 1, M_bind at 1. destruct (Rel _ _) as [q|].
  - apply ignore_disk, SaveACL_disk.
  - exists (disk w). by rewrite set_disk_id.
Qed.

Lemma grant_edits u : edits (grant_inode u) (grant u).
Proof.
  intros w x i Hx. unfold grant. erewrite bind_run by by apply run_deref.
  destruct (contains u (aShared (iACL i))) eqn:Hc.
  - exists (disk w). rewrite (alter_fix (grant_inode u) _ x i), with_heap_id, set_disk_id; try done.
    unfold grant_inode, append_unique. rewrite Hc. apply set_Shared_id.
  - erewrite bind_run by exact (run_assign w x _).
    assert (alter (λ i, set_Shared (aShared (iACL i) ++ [u]) i) x (heap (srv w))
            = alter (grant_inode u) x (heap (srv w))) as ->.
    { apply map_eq. intros y. destruct (decide (y = x)) as [->|Hne].
      - rewrite !lookup_alter_eq, Hx. simpl. unfold grant_inode, append_unique. by rewrite Hc.
      - by rewrite !lookup_alter_ne. }
    apply (persist_acl_run _ x (grant_inode u i)). simpl. by rewrite lookup_alter_eq, Hx.
Qed.

Lemma revoke_edits u : edits (revoke_inode u) (revoke u).
Proof.
  intros w x i Hx. unfold revoke. erewrite bind_run by by apply run_deref.
  destruct (contains u (aShared (iACL i))) eqn:Hc.
  - erewrite bind_run by exact (run_assign w x _).
    apply (persist_acl_run _ x (revoke_inode u i)). simpl. by rewrite lookup_alter_eq, Hx.
  - exists (disk w). rewrite (alter_fix (revoke_inode u) _ x i), with_heap_id, set_disk_id; try done.
    unfold revoke_inode. rewrite without_absent by done. apply set_Shared_id.
Qed.

(** The loop edits the inodes of the list, however often they occur in it. *)
Lemma edits_all g m L w :
  edits g m → (∀ i, g (g i) = g i) → (∀ x, x ∈ L → is_Some (heap (srv w) !! x)) →
  ∃ d h, for_each L m w = (set_disk d (with_heap h w), Ok tt)
         ∧ ∀ x, h !! x = if decide (x ∈ L) then g <$> heap (srv w) !! x
                         else heap (srv w) !! x.
Proof.
  intros Hm Hg. revert w. induction L as [|a L IH]; intros w HL; simpl.
  { exists (disk w), (heap (srv w)). rewrite with_heap_id, set_disk_id. done. }
  destruct (HL a) as [i Hi]; [apply list_elem_of_here|].
  destruct (Hm w a i Hi) as (d & Hrun). erewrite bind_run by exact Hrun.
  destruct (IH (set_disk d (with_heap (alter g a (heap (srv w))) w))) as (d' & h & Hrun' & Hh).
  { intros x Hx. simpl. destruct (decide (x = a)) as [->|Hne].
    - rewrite lookup_alter_eq, Hi. eauto.
    - rewrite lookup_alter_ne by done. apply HL. by apply list_elem_of_further. }
  exists d', h. split; [exact Hrun'|]. intros x. rewrite Hh. simpl.
  destruct (decide (x = a)) as [->|Hne].
  - rewrite lookup_alter_eq, Hi. simpl. rewrite Hg.
    destruct (decide (a ∈ a :: L)) as [_|Hin]; [by case_decide|].
    destruct Hin. apply list_elem_of_here.
  - rewrite lookup_alter_ne by done.
    destruct (decide (x ∈ L)), (decide (x ∈ a :: L)) as [Hin|Hin]; try done; exfalso.
    + apply Hin. by apply list_elem_of_further.
    + apply elem_of_cons in Hin as [?|?]; done.
Qed.

(** Both loops over a subtree: collect, then edit. *)
Lemma edit_subtree g m w a ai :
  edits g m → (∀ i, g (g i) = g i) → tree_wf (srv w) → live (srv w) a ai →
  ∃ d h L, collectSubtreeInodes a w = (w, Ok L)
         ∧ for_each L m w = (set_disk d (with_heap h w), Ok tt)
         ∧ (∀ x, below (srv w) a x → h !! x = g <$> heap (srv w) !! x)
         ∧ (∀ x, ¬ below (srv w) a x → h !! x = heap (srv w) !! x).
Proof.
  intros Hm Hg Hwf Ha. destruct (collectSubtree_run w a ai Hwf Ha) as (L & HL & Hin).
  destruct (edits_all g m L w Hm Hg) as (d & h & Hrun & Hh).
  { intros x Hx%Hin. destruct (below_live _ _ _ _ Hx Ha) as [xi [_ Hxi]]. eauto. }
  exists d, h, L. split_and!; try done.
  - intros x Hx. rewrite Hh, decide_True; [done|by apply Hin].
  - intros x Hx. rewrite Hh, decide_False; [done|by rewrite Hin].
Qed.
End spec.

(** ** The two operations *)

Section ops.
Context {D : Type} `{Env D}.
Implicit Types (w : Server D).

(** When a share, or its removal, is accepted. *)
Definition can_share (username share_with : string) (i : Inode) : Prop :=
  iType i = InodeTypeDirectory ∧ Owner (iACL i) = username ∧ share_with ≠ Owner (iACL i)
  ∧ share_with ∉ aShared (iACL i).
Definition can_unshare (username unshare_with : string) (i : Inode) : Prop :=
  Owner (iACL i) = username ∧ unshare_with ≠ Owner (iACL i) ∧ unshare_with ∈ aShared (iACL i).

(** The key of a directory in the table of explicit shares. *)
Definition path_key (w : Server D) i : string :=
  default (iName i) (Rel (rootDir (srv w)) (iOSPath i)).

Definition unshared (m : gmap string (list string)) (path user : string) :
    gmap string (list string) :=
  match m !! path with
  | None => m
  | Some us => let rest := without us user in
               if decide (rest = []) then delete path m else <[path := rest]> m
  end.

(** The server after a subtree was edited, the table of shares replaced and a
    call sent. *)
Definition edited w w' g l (table : gmap string (list string)) (c : MSCall) : Prop :=
  ∃ d h, w' = set_outbox (sent w c) (set_disk d (set_srv (set_dirShares table
                (set_heap h (srv w))) w))
    ∧ (∀ x, below (srv w) l x → h !! x = g <$> heap (srv w) !! x)
    ∧ (∀ x, ¬ below (srv w) l x → h !! x = heap (srv w) !! x).

Lemma SaveDirShares_run w : ∃ d, ignore SaveDirShares w = (set_disk d w, Ok tt).
Proof. apply ignore_disk, SaveDirShares_disk. Qed.

(** The edit of the subtree, then the steps of the caller on the edited server. *)
Lemma edit_subtree_bind {A} g (m : loc → M (Server D) unit) w a ai (k : M (Server D) A) Q E :
  edits g m → (∀ i, g (g i) = g i) → tree_wf (srv w) → live (srv w) a ai →
  (∀ d h, (∀ x, below (srv w) a x → h !! x = g <$> heap (srv w) !! x) →
          (∀ x, ¬ below (srv w) a x → h !! x = heap (srv w) !! x) →
          wp k Q E (set_disk d (with_heap h w))) →
  wp (sub ← collectSubtreeInodes a; for_each sub m ;; k) Q E w.
Proof.
  intros Hm Hg Hwf Ha Hk.
  destruct (edit_subtree g m w a ai Hm Hg Hwf Ha) as (d & h & L & HL & Hrun & Hin & Hout).
  unfold wp. erewrite bind_run by exact HL. erewrite bind_run by exact Hrun.
  exact (Hk d h Hin Hout).
Qed.
End ops.

Section theorems.
Context {D : Type} `{Env D}.
Implicit Types (w : Server D).

Lemma Share_wp username share_with f l i w :
  tree_wf (srv w) → live (srv w) l i → iFID i = f →
  wp (Share username share_with (Some f))
    (λ _ w', can_share username share_with i
       ∧ edited w w' (grant_inode share_with) l
           (<[path_key w i := append_unique (share_users (srv w) (path_key w i)) share_with]>
              (Shared (srv w)))
           (RootShareCall username (path_key w i) share_with (iName i)))
    (λ _ w', ¬ can_share username share_with i ∧ refreshed w w') w.
Proof.
  intros Hwf Hl Hf. unfold Share. apply (wp_run _ _ w w f); [done|].
  destruct (GetInode_run w f l i Hl Hf) as (w1 & i1 & Hget & Href & Hl1 & Hi1 & _ & Hdir).
  eapply wp_run; [exact Hget|]. eapply wp_run; [by apply run_deref_live|].
  assert (iType i1 = iType i ∧ iACL i1 = iACL i) as [Ht Ha].
  { destruct i1, i; simplify_eq/=. done. }
  unfold can_share. rewrite Ht, Ha.
  case_decide as H1; [split; [tauto|done]|].
  destruct (Hdir H1) as [-> ->]. clear Hget Href Hi1 Ht Ha Hdir Hl1.
  case_decide as H2; [split; [tauto|apply refreshed_refl]|].
  case_decide as H3; [split; [tauto|apply refreshed_refl]|].
  destruct (contains share_with (aShared (iACL i))) eqn:H4.
  { apply contains_spec in H4. split; [tauto|apply refreshed_refl]. }
  apply contains_false in H4.
  eapply edit_subtree_bind; [apply grant_edits|apply grant_inode_idemp|done|done|].
  intros d h Hin Hout. set (w2 := set_disk d (with_heap h w)).
  assert (heap (srv w2) !! l = Some (grant_inode share_with i)) as Hl2.
  { simpl. rewrite Hin by constructor. by rewrite (proj2 Hl). }
  eapply wp_run; [by apply run_deref|]. eapply wp_run; [done|].
  eapply wp_run; [done|]. fold (path_key w i).
  match goal with |- wp _ _ _ ?w3 => destruct (SaveDirShares_run w3) as [d' Hd'] end.
  eapply wp_run; [exact Hd'|].
  unfold wp, RootShare. rewrite ignore_ms_call. split; [done|].
  exists d', h. split_and!; done.
Qed.
Lemma Unshare_wp username unshare_with f l i w :
  tree_wf (srv w) → live (srv w) l i → iFID i = f →
  wp (Unshare username unshare_with (Some f))
    (λ _ w', can_unshare username unshare_with i
       ∧ ∃ w1, refreshed w w1 ∧ (iType i = InodeTypeDirectory → w1 = w)
         ∧ edited w1 w' (revoke_inode unshare_with) l
             (unshared (Shared (srv w)) (path_key w i) unshare_with)
             (RootUnshareCall username (default "" (Rel (rootDir (srv w)) (iOSPath i)))
                unshare_with (iName i)))
    (λ _ w', ¬ can_unshare username unshare_with i ∧ refreshed w w') w.
Proof.
  intros Hwf Hl Hf. unfold Unshare. apply (wp_run _ _ w w f); [done|].
  destruct (GetInode_run w f l i Hl Hf) as (w1 & i1 & Hget & Href & Hl1 & Hi1 & _ & Hdir).
  eapply wp_run; [exact Hget|]. eapply wp_run; [by apply run_deref_live|].
  assert (iACL i1 = iACL i ∧ iOSPath i1 = iOSPath i ∧ iName i1 = iName i) as (Ha & Hp & Hn).
  { destruct i1, i; simplify_eq/=. done. }
  unfold can_unshare. rewrite <-Ha.
  case_decide as H2; [split; [tauto|done]|].
  case_decide as H3; [split; [tauto|done]|].
  destruct (contains unshare_with (aShared (iACL i1))) eqn:H4; simpl.
  2:{ apply contains_false in H4. split; [tauto|done]. }
  apply contains_spec in H4.
  eapply edit_subtree_bind; [apply revoke_edits|apply revoke_inode_idemp| |exact Hl1|].
  { eapply tree_wf_skel; [by apply refreshed_skel|done]. }
  intros d h Hin Hout. set (w2 := set_disk d (with_heap h w1)).
  assert (heap (srv w2) !! l = Some (revoke_inode unshare_with i1)) as Hl2.
  { simpl. rewrite Hin by constructor. by rewrite (proj2 Hl1). }
  eapply wp_run; [by apply run_deref|]. eapply wp_run; [done|].
  eapply wp_run; [done|].
  match goal with |- wp _ _ _ ?w3 => destruct (SaveDirShares_run w3) as [d' Hd'] end.
  eapply wp_run; [exact Hd'|]. eapply wp_run; [done|].
  unfold wp, RootUnshare. rewrite ignore_ms_call. split; [done|].
  exists w1. split; [done|]. split; [by intros Hd; apply Hdir|]. destruct Href as (h1 & -> & Hh1).
  exists d', h. split_and!; [|done|done].
  unfold path_key, unshared, sent. simpl. rewrite Hp, Hn. simpl.
  by destruct (Shared (srv w) !! default (iName i) (Rel (rootDir (srv w)) (iOSPath i))).
Qed.
End theorems.

(** ** Sharing and taking it back *)

Lemma revoke_grant_inode u i : u ∉ aShared (iACL i) → revoke_inode u (grant_inode u i) = i.
Proof.
  intros Hu. unfold revoke_inode, grant_inode. simpl. rewrite without_append_unique by done.
  by destruct i as [? ? ? ? [] ? ? ?].
Qed.

Section theorems.
Context {D : Type} `{Env D}.
Implicit Types (w : Server D).

Lemma edited_skel w w' g l i table c :
  (∀ j, skel (g j) = skel j) → tree_wf (srv w) → live (srv w) l i →
  edited w w' g l table c → same_skel (srv w) (srv w').
Proof.
  intros Hg Hwf Hl (d & h & -> & Hin & Hout). split_and!; [done|done|]. intros x. simpl.
  destruct (below_dec w l i Hwf Hl) as [L HL]. destruct (decide (x ∈ L)) as [Hx|Hx].
  - rewrite Hin by by apply HL. destruct (heap (srv w) !! x) as [j|]; simpl; [by rewrite Hg|done].
  - by rewrite Hout by by rewrite <-HL.
Qed.

(** C4. A share is accepted exactly when the caller owns a directory that the
    other user, who is not its owner, has no access to yet.  It then adds the user to the ACL of the
    directory and of every inode below it, leaves every other inode as it was,
    records the share under the path of the directory and tells the metaserver;
    a refused share changes no inode but the size read again from the disk. *)
Theorem Share_exact username share_with f l i w w' r :
  tree_wf (srv w) → live (srv w) l i → iFID i = f →
  Share username share_with (Some f) w = (w', r) →
  match r with
  | Ok _ => can_share username share_with i
      ∧ edited w w' (grant_inode share_with) l
          (<[path_key w i := append_unique (share_users (srv w) (path_key w i)) share_with]>
             (Shared (srv w)))
          (RootShareCall username (path_key w i) share_with (iName i))
  | Err _ => ¬ can_share username share_with i ∧ refreshed w w'
  | Panic _ => False
  end.
Proof.
  intros Hwf Hl Hf Hrun. pose proof (Share_wp username share_with f l i w Hwf Hl Hf) as Hwp.
  unfold wp in Hwp. rewrite Hrun in Hwp. by destruct r.
Qed.

(** C5. Taking a share back is accepted exactly when the caller owns the inode and
    the user, who is not its owner, is on its list; it then takes the user off the
    list of the inode and of everything below it and off no other list, drops the explicit share of the path
    (and its entry when nobody is left) and tells the metaserver. *)
Theorem Unshare_exact username unshare_with f l i w w' r :
  tree_wf (srv w) → live (srv w) l i → iFID i = f →
  Unshare username unshare_with (Some f) w = (w', r) →
  match r with
  | Ok _ => can_unshare username unshare_with i
      ∧ ∃ w1, refreshed w w1 ∧ (iType i = InodeTypeDirectory → w1 = w)
        ∧ edited w1 w' (revoke_inode unshare_with) l
            (unshared (Shared (srv w)) (path_key w i) unshare_with)
            (RootUnshareCall username (default "" (Rel (rootDir (srv w)) (iOSPath i)))
               unshare_with (iName i))
  | Err _ => ¬ can_unshare username unshare_with i ∧ refreshed w w'
  | Panic _ => False
  end.
Proof.
  intros Hwf Hl Hf Hrun. pose proof (Unshare_wp username unshare_with f l i w Hwf Hl Hf) as Hwp.
  unfold wp in Hwp. rewrite Hrun in Hwp. by destruct r.
Qed.

(** Nothing at or below [l] is shared with the user. *)
Definition not_shared s l (u : string) : Prop :=
  ∀ x xi, below s l x → live s x xi → u ∉ aShared (iACL xi).

(** A share taken back leaves every inode as it was before, when nothing below
    the directory was shared with the user beforehand. *)
Theorem Unshare_undoes_Share username u f l i w w1 w2 :
  tree_wf (srv w) → live (srv w) l i → iFID i = f →
  not_shared (srv w) l u →
  Share username u (Some f) w = (w1, Ok tt) →
  Unshare username u (Some f) w1 = (w2, Ok tt) →
  ∀ x, heap (srv w2) !! x = heap (srv w) !! x.
Proof.
  intros Hwf Hl Hf Hfree Hsh Hun x.
  destruct (wp_ok _ _ _ _ _ _ (Share_wp username u f l i w Hwf Hl Hf) Hsh) as [(Hdir & _) He1].
  pose proof (edited_skel _ _ _ _ _ _ _ (skel_grant u) Hwf Hl He1) as Hsk.
  destruct (live_skel _ _ _ _ Hsk Hl) as (i1 & Hl1 & (Hf1&Ht1&_)%skel_eq).
  assert (tree_wf (srv w1)) as Hwf1 by by eapply tree_wf_skel.
  assert (iFID i1 = f) as Hf1' by congruence.
  destruct (wp_ok _ _ _ _ _ _ (Unshare_wp username u f l i1 w1 Hwf1 Hl1 Hf1') Hun)
    as (_ & w1' & _ & Heq & He2). rewrite Heq in He2 by congruence.
  destruct He1 as (d1 & h1 & Hw1 & Hin1 & Hout1). destruct He2 as (d2 & h2 & -> & Hin2 & Hout2).
  assert (heap (srv w1) = h1) as Hh1 by by rewrite Hw1. rewrite Hh1 in *.
  destruct (below_dec w l i Hwf Hl) as [L HL]. simpl.
  destruct (decide (x ∈ L)) as [Hx|Hx]; rewrite HL in Hx.
  - rewrite Hin2 by by apply (below_skel _ _ _ _ Hsk). rewrite Hin1 by done.
    destruct (below_live _ _ _ _ Hx Hl) as [xi Hxi]. rewrite (proj2 Hxi). simpl.
    by rewrite revoke_grant_inode by by eapply Hfree.
  - rewrite Hout2 by by rewrite <-(below_skel_iff _ _ _ _ Hsk). by apply Hout1.
Qed.
End theorems.

(** ** Witnesses: [doc] shared with bob, and taken back *)

Theorem Share_exact_witness :
  can_share "ann" "bob" doc_inode
  ∧ edited demo demo_shared (grant_inode "bob") doc_loc {["ann/doc" := ["bob"]]}
      (RootShareCall "ann" "ann/doc" "bob" "doc")
  ∧ aShared (iACL (inode_of demo_shared file_loc)) = ["bob"].
Proof.
  pose proof (Share_exact "ann" "bob" doc_fid doc_loc doc_inode demo demo_shared (Ok tt)
                demo_wf demo_doc_live eq_refl demo_shared_run) as [Hc He].
  split; [exact Hc|]. split; [exact He|reflexivity].
Defined.

Definition demo_unshared : Server MemDisk :=
  Eval vm_compute in (Unshare "ann" "bob" (Some doc_fid) demo_shared).1.
Lemma demo_unshared_run : Unshare "ann" "bob" (Some doc_fid) demo_shared = (demo_unshared, Ok tt).
Proof. vm_compute. reflexivity. Qed.
Lemma demo_shared_wf : tree_wf (srv demo_shared).
Proof. apply (tree_wfb_sound Pos.to_nat). vm_compute. reflexivity. Qed.

Theorem Unshare_exact_witness :
  can_unshare "ann" "bob" (inode_of demo_shared doc_loc)
  ∧ edited demo_shared demo_unshared (revoke_inode "bob") doc_loc ∅
      (RootUnshareCall "ann" "ann/doc" "bob" "doc")
  ∧ aShared (iACL (inode_of demo_unshared file_loc)) = [].
Proof.
  pose proof (Unshare_exact "ann" "bob" doc_fid doc_loc (inode_of demo_shared doc_loc)
                demo_shared demo_unshared (Ok tt) demo_shared_wf) as H.
  destruct H as (Hc & w1 & _ & Hw & He);
    [split; vm_compute; reflexivity|reflexivity|exact demo_unshared_run|].
  rewrite (Hw eq_refl) in He. split; [exact Hc|]. split; [exact He|reflexivity].
Defined.

Theorem Unshare_undoes_Share_witness :
  Share "ann" "bob" (Some doc_fid) demo = (demo_shared, Ok tt)
  ∧ Unshare "ann" "bob" (Some doc_fid) demo_shared = (demo_unshared, Ok tt)
  ∧ ∀ x, heap (srv demo_unshared) !! x = heap (srv demo) !! x.
Proof.
  split; [exact demo_shared_run|]. split; [exact demo_unshared_run|].
  apply (Unshare_undoes_Share "ann" "bob" doc_fid doc_loc doc_inode demo demo_shared demo_unshared
           demo_wf demo_doc_live eq_refl).
  - intros x xi _ [_ Hx].
    assert (map_Forall (λ _ j, "bob" ∉ aShared (iACL j)) (heap (srv demo))) as Hall
      by (apply (bool_decide_unpack _); vm_compute; exact I).
    exact (Hall x xi Hx).
  - exact demo_shared_run.
  - exact demo_unshared_run.
Defined.
