(* ===== verification/CreateSpec.v ===== *)
(** * Creation keeps the invariant

    [CreateFile]: what it returns, what it adds to the tree, and that the invariant
    of the server survives every outcome, failures of the disk included. *)
From S2P Require Import FileServer Persist Tree TreeWf TreeRun Frames Invariant Grow FileOps Demo.

Implicit Types (s : FileServer) (l p x : loc) (i j : Inode) (f : FID).

Section spec.
Context {D : Type} `{Env D}.
Implicit Types (w : Server D).

Lemma valid_filename_ok name : valid_filename name = true → name_ok name.
Proof.
  unfold valid_filename. rewrite !negb_true_iff, !orb_false_iff.
  intros [[[[[[[H1 H2] H3] H4] H5] _] _] _].
  apply String.eqb_neq in H1, H2, H3. by repeat split.
Qed.

Lemma reserved_trash name : reserved_filename name = false → name ≠ trashDirName.
Proof. intros Hr ->. by vm_compute in Hr. Qed.

(** The inode [f] that a creation adds to the directory [p]. *)
Definition file_created w (p : loc) (name : string) (t : InodeType) f w' : Prop :=
  ∃ l i pi pi',
    live (srv w) p pi ∧ live (srv w') p pi' ∧ f ∈ iChildren pi'
    ∧ live (srv w') l i ∧ iFID i = f ∧ iName i = name ∧ iType i = t ∧ iParent i = Some p
    ∧ iChildren i = [] ∧ iSize i = 0 ∧ iACL i = iACL pi ∧ iOSPath i = Join [iOSPath pi; name]
    ∧ inodes (srv w) !! FID_String f = None.

(** The last part of [CreateFile], once the file exists on the disk. *)
Definition create_inode (parent : loc) (pi : Inode) (name osPath path : string)
    (fileType : InodeType) : M (Server D) FID :=
  id ← assign_id path;
  sid ← gsrv serverID;
  let newFID := mkFID sid id 1 in
  let acl := mkACL (Owner (iACL pi)) (aShared (iACL pi)) in
  l ← new_inode (λ _, mkInode newFID fileType name osPath acl [] 0 (Some parent));
  (if decide (fileType = InodeTypeDirectory) then ignore (SaveACL path acl) else mret tt) ;;
  usrv (λ s, set_inodes (<[FID_String newFID := l]> (inodes s)) s) ;;
  assign parent (λ i, set_iChildren (iChildren i ++ [newFID]) i) ;;
  sync_next_id ;;
  store_Save ;;
  mret newFID.

Lemma create_inode_wp R p pi ns name t w :
  server_wf R (srv w) → ids_left (srv w) 1 → live (srv w) p pi →
  iType pi = InodeTypeDirectory → at_path R ns pi → name_ok name →
  (∀ c ci, live (srv w) c ci → iFID ci ∈ iChildren pi → iName ci ≠ name) →
  wp (create_inode p pi name (Join [iOSPath pi; name]) (rel_path (ns ++ [name])) t)
    (λ f w', server_wf R (srv w') ∧ grows (eq name) 1 (srv w) (srv w')
             ∧ outbox w' = outbox w ∧ callbacks w' = callbacks w ∧ file_created w p name t f w'
             ∧ no_other w w' (λ _ xi, iFID xi = f))
    (λ _ _, False) w.
Proof.
  intros Hwf Hids Hp Hdir Hns Hname Hno. destruct (s_index R _ Hwf) as (st & Hst & _).
  destruct (GetOrAssign (rel_path (ns ++ [name])) st) as [st' id] eqn:Hga.
  unfold create_inode. eapply wp_run; [by apply (assign_id_run _ st _ st' id)|].
  eapply wp_run; [done|]. eapply wp_run; [apply new_inode_run|]. cbv beta. simpl srv. simpl heap.
  set (l := fresh (dom (heap (srv w)))). set (i := mkInode _ _ _ _ _ _ _ _).
  match goal with |- wp (?m ≫= _) _ _ ?w1 =>
    assert (∃ d, m w1 = (set_disk d w1, Ok tt)) as [d1 Hd1] end.
  { case_decide; [apply ignore_disk, SaveACL_disk|]. eexists. by rewrite set_disk_id. }
  eapply wp_run; [exact Hd1|]. clear Hd1. eapply wp_run; [done|]. eapply wp_run; [done|].
  eapply wp_run; [by apply (sync_next_id_run _ st')|].
  match goal with |- wp _ _ _ ?w1 => destruct (store_Save_run w1) as [d2 Hd2] end.
  eapply wp_run; [exact Hd2|]. clear Hd2. apply wp_ret.
  match goal with |- server_wf R (srv ?w1) ∧ _ => set (w' := w1) end.
  assert (∀ x xi, live (srv w) x xi → ¬ at_path R (ns ++ [iName i]) xi) as Hfree
    by (by apply (child_path_free R _ Hwf p pi)).
  assert (heap (srv w) !! l = None) as Hnew by apply fresh_heap.
  destruct (add_all R (srv w) (srv w') Hwf p l pi i ns st st' id Hp Hdir Hns eq_refl eq_refl
    Hname eq_refl eq_refl Hnew Hfree Hst (Hids st Hst) Hga eq_refl eq_refl eq_refl eq_refl
    eq_refl eq_refl) as (Hwf' & Hl & Hold & Hne & Hkey).
  split; [exact Hwf'|]. split.
  { apply (added_grows _ R (srv w) (srv w') l p i st st' (ns ++ [name])); try done.
    - by apply (s_index_wf R (srv w)).
    - by apply Hids.
    - by rewrite Hga. }
  split; [done|]. split; [done|]. split.
  - exists l, i, pi, (relinked p i p pi).
    destruct (relinked_fields p i p pi) as (_&_&_&_&_&_&->). rewrite decide_True by done.
    split_and!; auto; [set_solver|]. simpl. by destruct (iACL pi).
  - intros x xi Hx.
    destruct (inserted_only _ w w' l (s_tree R _ Hwf) eq_refl x xi Hx) as [?| ->]; [by left|right].
    by rewrite (live_fun _ _ _ _ Hx Hl).
Qed.

(** What a creation that fails leaves: the inodes there were, with the sizes of
    files read again. *)
Definition survives w w' : Prop :=
  users (srv w') = users (srv w)
  ∧ ∀ x xi, live (srv w) x xi → ∃ xi', live (srv w') x xi' ∧ iACL xi' = iACL xi
      ∧ iFID xi' = iFID xi ∧ iType xi' = iType xi ∧ iName xi' = iName xi
      ∧ iOSPath xi' = iOSPath xi ∧ iParent xi' = iParent xi.

Lemma grows_survives P n w w' : grows P n (srv w) (srv w') → survives w w'.
Proof.
  intros Hg. split; [apply Hg|]. intros x xi Hx.
  destruct (g_live _ _ _ _ Hg x xi Hx) as (xi' & Hx' & (?&?&?&?&?&?&?)%links_eq & _).
  exists xi'. by split_and!.
Qed.

Lemma refreshed_survives w w' : refreshed w w' → survives w w'.
Proof.
  intros (h & -> & Hh). split; [done|]. intros x xi [Hk Hx]. specialize (Hh x). rewrite Hx in Hh.
  destruct (h !! x) as [xi'|] eqn:Hx'; [|done]. apply (inj Some) in Hh. exists xi'.
  assert (iFID xi' = iFID xi ∧ iType xi' = iType xi ∧ iName xi' = iName xi
    ∧ iOSPath xi' = iOSPath xi ∧ iParent xi' = iParent xi ∧ iACL xi' = iACL xi) as (Hf&?&?&?&?&?).
  { destruct xi', xi; simpl in *. by simplify_eq. }
  split_and!; try done. split; [by rewrite Hf|done].
Qed.

Lemma survives_trans w1 w2 w3 : survives w1 w2 → survives w2 w3 → survives w1 w3.
Proof.
  intros [Hu1 H1] [Hu2 H2]. split; [congruence|]. intros x xi Hx.
  destruct (H1 x xi Hx) as (xj & Hxj & ?). destruct (H2 x xj Hxj) as (xk & Hxk & ?).
  exists xk. split; [done|]. destruct_and!. split_and!; congruence.
Qed.

Lemma rel_child_run R w pi ns name :
  server_wf R (srv w) → at_path R ns pi → name_ok name →
  rel (Join [iOSPath pi; name]) w = (w, Ok (Some (rel_path (ns ++ [name])))).
Proof.
  intros Hwf Hns Hn. unfold rel, gsrv, gets. by rewrite (Rel_child R _ pi ns name).
Qed.

Lemma wp_create_on_disk t (path : string) Q E w :
  (∀ d, Q tt (set_disk d w)) → (∀ d e, E e (set_disk d w)) → wp (create_on_disk t path) Q E w.
Proof. intros HQ HE. destruct t; apply wp_os; auto; by intros d []. Qed.

(** The look at the trash adds no child of another name. *)
Lemma no_new_child R w w1 p pi pi1 name :
  server_wf R (srv w) → server_wf R (srv w1) → grows (eq trashDirName) 1 (srv w) (srv w1) →
  live (srv w) p pi → live (srv w1) p pi1 → name ≠ trashDirName →
  (∀ c ci, live (srv w) c ci → iFID ci ∈ iChildren pi → iName ci ≠ name) →
  ∀ c ci, live (srv w1) c ci → iFID ci ∈ iChildren pi1 → iName ci ≠ name.
Proof.
  intros Hwf Hwf1 Hg Hp Hp1 Hnt Hno c ci Hc Hin.
  destruct (child_at _ p pi1 (iFID ci) c (s_tree R _ Hwf1) Hp1 Hin (proj1 Hc))
    as (ci' & Hc' & _ & Hcp & Hne). rewrite (live_fun _ _ _ _ Hc' Hc) in Hcp.
  destruct (g_new _ _ _ _ Hg c ci Hc) as [[cj Hcj]|<-]; [|congruence].
  destruct (g_live _ _ _ _ Hg c cj Hcj) as (ck & Hck & (_&_&Hn&_&_&_&Hpar)%links_eq & _).
  rewrite (live_fun _ _ _ _ Hc Hck) in *. rewrite Hn. apply (Hno c cj Hcj).
  apply (child_listed _ p pi c cj (s_tree R _ Hwf)); congruence.
Qed.

(** A creation after the look at the trash is a creation in the server before it. *)
Lemma file_created_back P n w w1 p pi name t f w' :
  tree_wf (srv w) → grows P n (srv w) (srv w1) → live (srv w) p pi →
  file_created w1 p name t f w' → file_created w p name t f w'.
Proof.
  intros Hwf Hg Hp (l & i & pi1 & pi' & Hp1 & ?&?&?&?&?&?&?&?&?& Hacl & Hpath & Hkey).
  destruct (g_live _ _ _ _ Hg p pi Hp) as (pj & Hpj & (_&_&_&Hpp&Ha&_)%links_eq & _).
  rewrite (live_fun _ _ _ _ Hp1 Hpj) in *.
  exists l, i, pi, pi'. split_and!; try done; try congruence.
  destruct (inodes (srv w) !! FID_String f) as [x|] eqn:Hx; [|done].
  destruct (t_key _ Hwf _ x Hx) as (xi & Hxi & Hk).
  destruct (g_live _ _ _ _ Hg x xi Hxi) as (xj & [Hxj _] & (Hf&_)%links_eq & _). congruence.
Qed.

(** The inodes a creation leaves: those there were, the new one and the trash directory
    of the user, which the look at it may have made. *)
Definition created_only w user (f : option FID) w' : Prop :=
  no_other w w' (λ x xi, f = Some (iFID xi) ∨ is_trash (srv w') user x).

(** A trash directory stays one while the server grows. *)
Lemma grows_is_trash P n s s' user t : grows P n s s' → is_trash s user t → is_trash s' user t.
Proof.
  intros Hg (r & ri & ti & Hu & Hr & Ht & Htr & Htp & Htn & Htt).
  destruct (g_live _ _ _ _ Hg r ri Hr) as (ri' & Hr' & (Hf&_)%links_eq & _).
  destruct (g_live _ _ _ _ Hg t ti Ht) as (ti' & Ht' & (_&?&?&_&_&_&?)%links_eq & _).
  exists r, ri', ti'. rewrite (g_users _ _ _ _ Hg). split_and!; congruence.
Qed.

Lemma refreshed_only w user w' o : tree_wf (srv w) → refreshed w w' → created_only w user o w'.
Proof.
  intros Hwf (h & -> & _) x xi [Hk _]. left. destruct (t_key _ Hwf _ _ Hk) as (xj & Hx & _).
  by exists xj.
Qed.

Lemma created_only_trans P n w w1 w' user f :
  created_only w user None w1 → grows P n (srv w1) (srv w') →
  no_other w1 w' (λ _ xi, iFID xi = f) → created_only w user (Some f) w'.
Proof.
  intros H1 Hg H2 x xi Hx. destruct (H2 x xi Hx) as [[xj Hxj]| <-]; [|by right; left].
  destruct (H1 x xj Hxj) as [?|[?|Ht]]; [by left|done|]. right. right. by eapply grows_is_trash.
Qed.

Lemma CreateFile_wp R p pi name user t w :
  server_wf R (srv w) → ids_left (srv w) 2 → live (srv w) p pi →
  wp (CreateFile (Some (iFID pi)) name user t)
    (λ f w', server_wf R (srv w') ∧ outbox w' = outbox w ∧ survives w w' ∧
       created_only w user (Some f) w' ∧
       ((w' = w ∧ ∃ c ci, live (srv w) c ci ∧ iParent ci = Some p ∧ c ≠ p ∧ iName ci = name
                          ∧ f = iFID ci)
        ∨ (file_created w p name t f w'
           ∧ name_ok name ∧ reserved_filename name = false
           ∧ ¬ ∃ t, is_trash (srv w) user t ∧ below (srv w) t p)))
    (λ e w', server_wf R (srv w') ∧ outbox w' = outbox w ∧ survives w w' ∧ created_only w user None w') w.
Proof.
  intros Hwf Hids Hp. unfold CreateFile. eapply wp_run; [done|].
  assert (∀ o, server_wf R (srv w) ∧ outbox w = outbox w ∧ survives w w ∧ created_only w user o w) as Hsame.
  { intros o. split; [done|]. split; [done|]. split; [apply refreshed_survives, refreshed_refl|].
    intros x xi Hx. left. by exists xi. }
  destruct (valid_filename name) eqn:Hvalid; simpl; [|by apply wp_throw].
  apply valid_filename_ok in Hvalid.
  destruct (reserved_filename name) eqn:Hres; [by apply wp_throw|].
  destruct (GetInode_run w (iFID pi) p pi Hp eq_refl)
    as (w1 & pi1 & Hget & Href & Hp1 & Heq1 & _ & Hdir).
  eapply wp_run; [unfold catch; by rewrite Hget|]. eapply wp_run; [by apply run_deref_live|].
  assert (iType pi1 = iType pi) as -> by by apply (f_equal iType) in Heq1.
  case_decide as Ht.
  { apply wp_throw. split; [by eapply refreshed_wf|].
    split; [by destruct Href as (h & -> & _)|]. split; [by apply refreshed_survives|].
    apply (refreshed_only w); [apply (s_tree R _ Hwf)|done]. }
  destruct (Hdir Ht) as [-> ->]. clear Hget Href Hp1 Heq1 Hdir.
  destruct (child_by_name_run w p pi (iChildren pi) name (s_tree R _ Hwf) Hp)
    as (o & Hrun & Ho); [done|].
  eapply wp_run; [exact Hrun|]. destruct o as [c|].
  { destruct Ho as (ci & Hc & _ & Hcn & Hcp & Hcne). eapply wp_run; [by apply run_deref_live|].
    apply wp_ret. destruct (Hsame (Some (iFID ci))) as (?&?&?&?). do 4 (split; [done|]).
    left. split; [done|]. by exists c, ci. }
  apply wp_bind. eapply wp_mono; [apply (isUnderTrash_wp R user p pi); try done| |done].
  { intros st Hst. pose proof (Hids st Hst). lia. }
  intros b w1 [(Hwf1 & Hg & Hob & Hcb) [Hb Hnew]]. cbv beta.
  assert (created_only w user None w1) as Honly.
  { intros x xi Hx. destruct (Hnew x xi Hx); auto. }
  destruct b.
  { apply wp_throw. do 2 (split; [done|]). split; [by eapply grows_survives|done]. }
  destruct (g_live _ _ _ _ Hg p pi Hp) as (pi1 & Hp1 & Hl1 & extra & Hch).
  pose proof Hl1 as (Hf1 & Ht1 & Hn1 & Hp1p & Ha1 & _)%links_eq.
  eapply wp_run; [by apply run_deref_live|].
  destruct (live_path R _ Hwf1 p pi1 Hp1) as [ns Hns].
  eapply wp_run; [by apply rel_child_run with (R := R) (ns := ns)|].
  eapply wp_run; [done|]. apply wp_bind, (wp_create_on_disk t).
  2:{ intros d e. do 2 (split; [done|]). split; [by eapply grows_survives|done]. }
  intros d. set (w2 := set_disk d w1).
  match goal with |- wp _ ?Q ?E _ =>
    change (wp (create_inode p pi1 name (Join [iOSPath pi1; name]) (rel_path (ns ++ [name])) t)
              Q E w2) end.
  eapply wp_mono; [apply (create_inode_wp R p pi1 ns name t w2); try done| |done].
  - intros st Hst. destruct (s_index R _ Hwf) as (st0 & Hst0 & _).
    destruct (g_next _ _ _ _ Hg st0 Hst0) as (st1 & Hst1 & Hle).
    assert (st = st1) as -> by (simpl in Hst; congruence). pose proof (Hids st0 Hst0). lia.
  - by rewrite Ht1.
  - apply (no_new_child R w w1 p pi pi1 name); auto using reserved_trash.
  - intros f w' (Hwf' & Hg' & Hob' & Hcb' & Hfc & Hone). split; [done|].
    split; [by rewrite Hob'|]. split.
    { eapply survives_trans; [by eapply grows_survives|].
      exact (grows_survives _ _ w2 w' Hg'). }
    split; [exact (created_only_trans _ _ w w2 w' user f Honly Hg' Hone)|].
    right. split_and!; [|done|done|].
    + eapply (file_created_back _ _ w w1); [apply Hwf|done|done|exact Hfc].
    + intros (tr & Htr & Hbt). enough (false = true) by done. apply Hb.
      exists tr. split; [by eapply grows_is_trash|by eapply grows_below].
Qed.

End spec.

