(* ===== verification/RootSpec.v ===== *)
(** * The root of a user

    [GetUserRoot] makes the root directory of a new user with its trash and walks
    down a path.  The invariant of the server survives, and what it returns is the
    root or something below it. *)
From S2P Require Import FileServer Persist Tree TreeWf TreeRun Frames Invariant Grow FileOps.
From S2P Require Import CreateSpec Demo.

Implicit Types (s : FileServer) (l p x r : loc) (i j : Inode) (f : FID).

(** ** Adding a root *)

Section add_root.
Context (R : list string) (s s' : FileServer) (Hwf : server_wf R s).
Context (u : string) (l : loc) (i : Inode) (st st' : InodeStore) (id : Z).
Context (Hu : users s !! u = None) (Hname : name_ok u).
Context (Hn : iName i = u) (Hparent : iParent i = Some l) (Hleaf : iChildren i = []).
Context (Hdir : iType i = InodeTypeDirectory) (Hown : Owner (iACL i) = u).
Context (Hpath : iOSPath i = Join [rootDir s; u]) (Hfid : iFID i = mkFID (serverID s) id 1).
Context (Hnew : heap s !! l = None).
Context (Hst : inodeStore s = Some st) (Hlim : NextInodeID (isData st) + 1 < two64).
Context (Hrun : GetOrAssign u st = (st', id)).
Context (Hinodes : inodes s' = <[FID_String (iFID i) := l]> (inodes s)).
Context (Hheap : heap s' = <[l := i]> (heap s)).
Context (Husers : users s' = <[u := iFID i]> (users s)) (Hroot : rootDir s' = rootDir s).
Context (Hid : serverID s' = serverID s) (Hst' : inodeStore s' = Some st').

Lemma root_free x xi : live s x xi → ¬ at_path R [u] xi.
Proof.
  intros Hx Hat. destruct (t_parent s (s_tree R s Hwf) x xi Hx) as (q & qi & Hq & Hql & _).
  destruct (decide (q = x)) as [->|Hne].
  - destruct (s_root R s Hwf x xi Hx Hq) as (Hux & _ & _ & Hat').
    pose proof (at_path_fun R s Hwf xi _ _ Hat Hat') as [= Heq]. congruence.
  - destruct (live_path R s Hwf q qi Hql) as [ns Hns].
    pose proof (at_path_fun R s Hwf xi _ _ Hat (at_path_child R s Hwf x xi q qi ns Hx Hq Hne Hql Hns)) as Heq.
    destruct Hns as [Hns _]. destruct ns as [|? [|]]; done.
Qed.

Lemma root_assign :
  index_wf (isData st') ∧ Get u st' = Some id
  ∧ (∀ x xi, live s x xi → InodeID (iFID xi) ≠ id)
  ∧ (∀ x xi ms, live s x xi → at_path R ms xi → Get (rel_path ms) st' = Some (InodeID (iFID xi))).
Proof.
  apply (assign_fresh R s Hwf st st' id [u]); try done; [by apply Forall_singleton|].
  apply root_free.
Qed.

Lemma root_key x xi : live s x xi → FID_String (iFID xi) ≠ FID_String (iFID i).
Proof.
  intros Hx Heq%FID_String_inj. destruct root_assign as (_ & _ & Hids & _).
  apply (Hids x xi Hx). by rewrite Heq, Hfid.
Qed.

Lemma root_live_new : live s' l i.
Proof. split; [by rewrite Hinodes, lookup_insert_eq|by rewrite Hheap, lookup_insert_eq]. Qed.

Lemma root_live_old x xi : live s x xi → live s' x xi ∧ x ≠ l.
Proof.
  intros Hx. pose proof (root_key x xi Hx). destruct Hx as [Hk Hh].
  assert (x ≠ l) by congruence. split; [|done]. split.
  - by rewrite Hinodes, lookup_insert_ne.
  - by rewrite Hheap, lookup_insert_ne.
Qed.

Lemma root_live_inv x xi : live s' x xi → (x = l ∧ xi = i) ∨ (x ≠ l ∧ live s x xi).
Proof.
  intros [Hk Hh]. rewrite Hinodes in Hk. rewrite Hheap in Hh.
  apply lookup_insert_Some in Hh as [[<- <-]|[Hne Hh]]; [by left|right].
  apply lookup_insert_Some in Hk as [[_ ?]|[_ Hk]]; [done|]. by split.
Qed.

Lemma root_tree : tree_wf s'.
Proof.
  pose proof (s_tree R s Hwf) as Ht. split.
  - intros k x Hk. rewrite Hinodes in Hk. apply lookup_insert_Some in Hk as [[<- <-]|[_ Hk]].
    + exists i. split; [apply root_live_new|done].
    + destruct (t_key s Ht k x Hk) as (xi & Hx & ->). exists xi. split; [by apply root_live_old|done].
  - intros x xi [[-> ->]|[Hxl Hx]]%root_live_inv.
    + exists l, i. split; [done|]. split; [apply root_live_new|by left].
    + destruct (t_parent s Ht x xi Hx) as (q & qi & Hq & Hql & Hin).
      exists q, qi. split; [done|]. split; [by apply root_live_old|done].
  - intros x xi f [[-> ->]|[Hxl Hx]]%root_live_inv Hin.
    + rewrite Hleaf in Hin. by apply elem_of_nil in Hin.
    + destruct (t_child s Ht x xi f Hx Hin) as (? & c & ci & Hc & ?). split; [done|].
      exists c, ci. split; [by apply root_live_old|done].
  - intros x xi [[-> ->]|[Hxl Hx]]%root_live_inv; [rewrite Hleaf; constructor|].
    by apply (t_nodup s Ht x).
  - destruct (t_rank s Ht) as [rank Hr]. exists rank.
    intros x xi q [[-> ->]|[Hxl Hx]]%root_live_inv Hq Hne; [congruence|]. by apply (Hr x xi).
Qed.

Lemma root_wf : server_wf R s' ∧ live s' l i ∧ ∀ x xi, live s x xi → live s' x xi ∧ x ≠ l.
Proof.
  destruct root_assign as (Hix & Hgnew & Hids & Hgold). pose proof (s_dir R s Hwf) as (Hrd & HRne & HR).
  assert (at_path R [u] i) as Hat.
  { split; [done|]. split; [by apply Forall_singleton|].
    rewrite Hpath, Hrd. apply Join_abs_path; try done. apply Hname. }
  split; [|split; [apply root_live_new|apply root_live_old]]. split.
  - apply root_tree.
  - by rewrite Hroot.
  - intros v f Hv. rewrite Husers in Hv. apply lookup_insert_Some in Hv as [[<- <-]|[Hne Hv]].
    + exists l, i. split; [apply root_live_new|done].
    + destruct (s_user R s Hwf v f Hv) as (r & ri & Hr & ?). exists r, ri. split; [by apply root_live_old|done].
  - intros x xi [[-> ->]|[Hxl Hx]]%root_live_inv Hpar.
    + by rewrite Husers, Hn, lookup_insert_eq.
    + destruct (s_root R s Hwf x xi Hx Hpar) as (Hux & ?). split; [|done].
      rewrite Husers, lookup_insert_ne; [done|]. congruence.
  - intros x xi q qi [[-> ->]|[Hxl Hx]]%root_live_inv Hpar Hne Hq; [congruence|].
    apply root_live_inv in Hq as [[-> _]|[_ Hq]]; [|by apply (s_path R s Hwf x xi q qi)].
    destruct (t_parent s (s_tree R s Hwf) x xi Hx) as (q & qi' & Hq' & [_ Hqh] & _). congruence.
  - intros x xi [[-> ->]|[Hxl Hx]]%root_live_inv; [by rewrite Hfid, Hid|].
    rewrite Hid. by apply (s_fid R s Hwf x).
  - exists st'. split_and!; [done|done|]. intros x xi ms [[-> ->]|[Hxl Hx]]%root_live_inv Hms.
    + by rewrite (at_path_fun R s Hwf i _ _ Hms Hat), Hfid.
    + by apply (Hgold x).
Qed.
End add_root.

(** ** GetUserRoot *)

Section spec.
Context {D : Type} `{Env D}.
Implicit Types (w : Server D).

(** The ACL that the disk has for a new user is the user's own. *)
Definition own_acl w (user : string) : Prop :=
  ∀ w1 id w2 acl, prepare_root user w = (w1, Ok id) →
    LoadACL user user w1 = (w2, Ok acl) → Owner acl = user.

Lemma prepare_root_wp R user w :
  server_wf R (srv w) → ids_left (srv w) 1 →
  wp (prepare_root user)
    (λ id w', ∃ st st' d, inodeStore (srv w) = Some st ∧ GetOrAssign user st = (st', id)
       ∧ w' = set_disk d (set_srv (set_nextInodeID (NextInodeID (isData st'))
                                     (set_inodeStore (Some st') (srv w))) w))
    (λ _ w', ∃ d, w' = set_disk d w) w.
Proof.
  intros Hwf Hids. unfold prepare_root. eapply wp_run; [done|].
  apply wp_bind, wp_os; [|intros d _; by exists d]. intros d _.
  destruct (s_index R _ Hwf) as (st & Hst & _).
  destruct (GetOrAssign user st) as [st' id] eqn:Hga.
  eapply wp_run; [by apply (assign_id_run _ st _ st' id)|].
  eapply wp_run; [by apply (sync_next_id_run _ st')|].
  match goal with |- wp _ _ _ ?w1 => destruct (store_Save_run w1) as [d2 Hd2] end.
  eapply wp_run; [exact Hd2|]. apply wp_ret. by exists st, st', d2.
Qed.

(** The index may hold the id of a path that no inode has yet. *)
Lemma assigned_wf R s user st st' id n :
  server_wf R s → name_ok user → users s !! user = None → inodeStore s = Some st →
  NextInodeID (isData st) + 1 < two64 → GetOrAssign user st = (st', id) →
  server_wf R (set_nextInodeID n (set_inodeStore (Some st') s)).
Proof.
  intros Hwf Hname Hu Hst Hlim Hga.
  destruct (assign_fresh R s Hwf st st' id [user]) as (Hix & _ & _ & Hget); try done.
  { by apply Forall_singleton. } { by apply root_free. }
  destruct Hwf as [Ht ? ? ? ? ? ?]. split; try done; [|by exists st'].
  by apply (tree_wf_skel s); [by split_and!|].
Qed.

(** What making a root adds: the root of the user. *)
Definition root_made w (user : string) f w' : Prop :=
  ∃ l i, live (srv w') l i ∧ iFID i = f ∧ iName i = user ∧ iParent i = Some l
    ∧ iType i = InodeTypeDirectory ∧ iChildren i = [] ∧ Owner (iACL i) = user
    ∧ users (srv w') = <[user := f]> (users (srv w))
    ∧ ∀ x xi, live (srv w) x xi → live (srv w') x xi.

Lemma create_user_root_wp R user w :
  server_wf R (srv w) → ids_left (srv w) 1 → name_ok user → users (srv w) !! user = None →
  own_acl w user →
  wp (create_user_root user)
    (λ f w', server_wf R (srv w') ∧ root_made w user f w' ∧ outbox w' = outbox w
       ∧ ∀ n, ids_left (srv w) (n + 1) → ids_left (srv w') n)
    (λ _ w', server_wf R (srv w') ∧ users (srv w') = users (srv w) ∧ heap (srv w') = heap (srv w)
             ∧ inodes (srv w') = inodes (srv w)) w.
Proof.
  intros Hwf Hids Hname Hu Hacl. unfold create_user_root.
  pose proof (prepare_root_wp R user w Hwf Hids) as Hwp. unfold wp in Hwp.
  destruct (prepare_root user w) as [w1 [id|e|m]] eqn:Hprep; [| |done].
  2:{ destruct Hwp as [d ->]. unfold wp. by erewrite bind_err by exact Hprep. }
  destruct Hwp as (st & st' & d & Hst & Hga & Hw1).
  eapply wp_run; [exact Hprep|]. eapply wp_run; [done|]. eapply wp_run; [done|].
  destruct (LoadACL_disk user user w1) as (d2 & r & Hload & Hnp).
  assert (server_wf R (srv w1)) as Hwf1.
  { rewrite Hw1. apply (assigned_wf R (srv w) user st st' id); try done. by apply Hids. }
  destruct r as [acl|e|m]; [| |by destruct (Hnp m)].
  2:{ unfold wp. erewrite bind_err by by (unfold wrap; rewrite Hload). by rewrite Hw1 in *. }
  eapply wp_run; [by unfold wrap; rewrite Hload|].
  eapply wp_run; [apply new_inode_run|]. cbv beta. rewrite Hw1. simpl srv. simpl heap.
  set (l := fresh (dom (heap (srv w)))). set (i := mkInode _ _ _ _ _ _ _ _).
  eapply wp_run; [done|]. eapply wp_run; [done|]. apply wp_ret.
  match goal with |- server_wf R (srv ?w2) ∧ _ => set (w' := w2) end.
  assert (heap (srv w) !! l = None) as Hnew by apply fresh_heap.
  destruct (root_wf R (srv w) (srv w') Hwf user l i st st' id) as (Hwf' & Hl & Hold); try done.
  { by apply (Hacl w1 id (set_disk d2 w1) acl). } { by apply Hids. }
  split; [done|]. split_and!; [|done|].
  - exists l, i. split_and!; try done; [by apply (Hacl w1 id (set_disk d2 w1) acl)|]. intros x xi Hx. by apply Hold.
  - intros n Hn st0 [= <-]. pose proof (GetOrAssign_next user st (s_index_wf _ _ _ Hwf Hst) (Hids st Hst)) as Hx.
    rewrite Hga in Hx. simpl in *. specialize (Hn st Hst). lia.
Qed.

(** The walk down a path ends at the start or below it. *)
Lemma traverse_wp comps w l i :
  tree_wf (srv w) → live (srv w) l i →
  wp (traverse (iFID i) comps)
    (λ f w', refreshed w w' ∧ ∃ x xi, live (srv w') x xi ∧ iFID xi = f ∧ below (srv w') l x)
    (λ _ w', refreshed w w') w.
Proof.
  revert w l i. induction comps as [|c comps IH]; intros w l i Hwf Hl; simpl.
  { apply wp_ret. split; [apply refreshed_refl|]. exists l, i. split_and!; try done. constructor. }
  case_decide as Hc; [by apply IH|].
  destruct (GetInode_run w (iFID i) l i Hl eq_refl) as (w1 & i1 & Hget & Href & Hl1 & Heq & _ & _).
  eapply wp_run; [by unfold wrap; rewrite Hget|].
  pose proof (tree_wf_skel _ _ (refreshed_skel _ _ Href) Hwf) as Hwf1.
  eapply wp_run; [by apply run_deref_live|].
  case_decide as Hd; [by apply wp_throw|].
  destruct (child_by_name_run w1 l i1 (iChildren i1) c Hwf1 Hl1) as (o & Hrun & Ho); [done|].
  eapply wp_run; [exact Hrun|]. destruct o as [x|]; [|by apply wp_throw].
  destruct Ho as (xi & Hx & _ & _ & Hp & Hne).
  eapply wp_run; [done|]. eapply wp_run; [by apply run_deref_live|].
  eapply wp_mono; [by apply (IH w1 x xi)| |].
  - intros f w' (Href' & y & yi & Hy & Hf & Hb). split; [by eapply refreshed_trans|].
    exists y, yi. split_and!; try done. apply (below_trans _ l x); [|done].
    apply (below_skel _ _ _ _ (refreshed_skel _ _ Href')). by apply (below_of_child _ l x xi).
  - intros e w' Href'. by eapply refreshed_trans.
Qed.

(** The users and inodes there were are all still there. *)
Definition keeps w w' : Prop :=
  (∀ u f, users (srv w) !! u = Some f → users (srv w') !! u = Some f)
  ∧ ∀ x xi, live (srv w) x xi → ∃ xi', live (srv w') x xi' ∧ iACL xi' = iACL xi
      ∧ iFID xi' = iFID xi ∧ iType xi' = iType xi ∧ iName xi' = iName xi
      ∧ iOSPath xi' = iOSPath xi ∧ iParent xi' = iParent xi.

Lemma survives_keeps w w' : survives w w' → keeps w w'.
Proof. intros [Hu Hx]. split; [by rewrite Hu|done]. Qed.
Lemma keeps_refl w : keeps w w.
Proof. split; [done|]. intros x xi Hx. by exists xi. Qed.
Lemma keeps_trans w1 w2 w3 : keeps w1 w2 → keeps w2 w3 → keeps w1 w3.
Proof.
  intros [Hu1 H1] [Hu2 H2]. split; [naive_solver|]. intros x xi Hx.
  destruct (H1 x xi Hx) as (xj & Hxj & ?). destruct (H2 x xj Hxj) as (xk & Hxk & ?).
  exists xk. split; [done|]. destruct_and!. split_and!; congruence.
Qed.

(** The second half: the trash exists and the path is walked down. *)
Lemma root_path_wp R w user root_path f (m : FID → M (Server D) FID) :
  server_wf R (srv w) → ids_left (srv w) 1 → users (srv w) !! user = Some f →
  (∀ f, m f = (getOrCreateTrashDirLocked user ;;
    if decide (root_path = user) then mret f
    else
      let pathComponents := Split slash (TrimPrefix root_path "/") in
      let rest := match pathComponents with
                  | c :: cs => if decide (c = user) then cs else c :: cs
                  | [] => []
                  end in
      traverse f rest)) →
  wp (m f)
    (λ g w', server_wf R (srv w') ∧ keeps w w' ∧ (∃ t, is_trash (srv w') user t)
       ∧ ∃ r ri x xi, users (srv w') !! user = Some (iFID ri) ∧ live (srv w') r ri
           ∧ iParent ri = Some r ∧ live (srv w') x xi ∧ iFID xi = g ∧ below (srv w') r x
           ∧ (root_path = user → x = r))
    (λ _ w', server_wf R (srv w') ∧ keeps w w') w.
Proof.
  intros Hwf Hids Hu ->. apply wp_bind.
  eapply wp_mono; [by apply (getOrCreateTrash_wp R)| |].
  2:{ intros e w' [[d ->] _]. split; [done|exact (keeps_refl w)]. }
  intros t w1 (Hwf1 & Hg & _ & _ & Ht & _). pose proof (survives_keeps _ _ (grows_survives _ _ _ _ Hg)) as Hk1.
  destruct (s_user R _ Hwf1 user f) as (r & ri & Hr & <- & Hrp & Hrt & Hrn).
  { by rewrite (g_users _ _ _ _ Hg). }
  case_decide as Hpath.
  - apply wp_ret. split_and!; [done|done|by exists t|]. exists r, ri, r, ri.
    split_and!; try done; [by rewrite (g_users _ _ _ _ Hg)|constructor].
  - cbv zeta. eapply wp_mono; [by apply (traverse_wp _ w1 r ri (s_tree R _ Hwf1))| |].
    + intros g w' (Href & x & xi & Hx & Hf & Hb).
      pose proof (survives_keeps _ _ (refreshed_survives _ _ Href)) as Hk2.
      pose proof (refreshed_skel _ _ Href) as Hsk. pose proof Hsk as (_ & Hus & _).
      destruct (live_skel _ _ _ _ Hsk Hr) as (rj & Hrj & (Hfr&_&_&_&Hpr&_)%skel_eq).
      split_and!; [by apply (refreshed_wf w1)|by eapply keeps_trans| |].
      * exists t. destruct Ht as (r' & ri' & ti & Hu' & Hr' & Hti & Htr & Htp & Htn & Htt).
        destruct (live_skel _ _ _ _ Hsk Hr') as (rk & Hrk & (Hfk&_)%skel_eq).
        destruct (live_skel _ _ _ _ Hsk Hti) as (tk & Htk & (_&Httk&Htnk&_&Htpk&_)%skel_eq).
        exists r', rk, tk. rewrite Hus. split_and!; congruence.
      * exists r, rj, x, xi. rewrite Hus, (g_users _ _ _ _ Hg). split_and!; try done; congruence.
    + intros e w' Href. split; [by apply (refreshed_wf w1)|].
      eapply keeps_trans; [done|]. by apply survives_keeps, refreshed_survives.
Qed.

(** What a successful call returns. *)
Definition at_root (R : list string) w (root_path user : string) g w' : Prop :=
  server_wf R (srv w') ∧ keeps w w' ∧ (∃ t, is_trash (srv w') user t)
  ∧ ∃ r ri x xi, users (srv w') !! user = Some (iFID ri) ∧ live (srv w') r ri
      ∧ iParent ri = Some r ∧ live (srv w') x xi ∧ iFID xi = g ∧ below (srv w') r x
      ∧ (root_path = user → x = r).

Lemma GetUserRoot_wp R w root_path user :
  server_wf R (srv w) → ids_left (srv w) 2 → name_ok user →
  (users (srv w) !! user = None → own_acl w user) →
  wp (GetUserRoot root_path user) (at_root R w root_path user)
    (λ _ w', server_wf R (srv w') ∧ keeps w w') w.
Proof.
  intros Hwf Hids Hname Hacl.
  assert (ids_left (srv w) 1) as Hids1 by (intros st Hst; specialize (Hids st Hst); lia).
  unfold GetUserRoot. eapply wp_run; [done|].
  destruct (users (srv w) !! user) as [f|] eqn:Hu.
  - eapply wp_run; [done|]. by apply (root_path_wp R w user root_path f (λ f, _)).
  - apply wp_bind. eapply wp_mono; [by apply (create_user_root_wp R); auto| |].
    + intros f w1 (Hwf1 & (l & i & Hl & Hf & _ & _ & _ & _ & _ & Hus & Hold) & _ & Hids').
      assert (keeps w w1) as Hk.
      { split; [|intros x xi Hx; exists xi; split_and!; auto].
        intros u g Hg. rewrite Hus, lookup_insert_ne; [done|]. congruence. }
      cbv beta. eapply wp_mono; [apply (root_path_wp R w1 user root_path f (λ f, _));
        [done|by apply Hids'|by rewrite Hus, lookup_insert_eq|done]| |].
      * intros g w' (H1 & Hk' & H2). split; [done|]. split; [by eapply keeps_trans|exact H2].
      * intros e w' [? Hk']. split; [done|]. by eapply keeps_trans.
    + intros e w1 (Hwf1 & Hus & Hh & Hi). split; [done|]. split; [by rewrite Hus|].
      intros x xi [Hk Hx]. exists xi. split_and!; try done. unfold live. by rewrite Hh, Hi.
Qed.

(** C15. [GetUserRoot] never panics and keeps the invariant of the server and every
    user and inode there were, on every outcome, whether the user is new or not, for a
    user whose name is one path component while two ids are left.
    When it succeeds the user has a root and a trash directory directly below it,
    and the FID returned is that of a live inode at or below that root, of the root
    itself when the path is the user's name.  For a new user the disk must not hold
    an ACL of somebody else. *)
Theorem GetUserRoot_correct R w root_path user :
  server_wf R (srv w) → ids_left (srv w) 2 → name_ok user →
  (users (srv w) !! user = None → own_acl w user) →
  let '(w', r) := GetUserRoot root_path user w in
  match r with
  | Ok g => at_root R w root_path user g w'
  | Err _ => server_wf R (srv w') ∧ keeps w w'
  | Panic _ => False
  end.
Proof.
  intros Hwf Hids Hname Hacl. pose proof (GetUserRoot_wp R w root_path user Hwf Hids Hname Hacl) as Hwp.
  unfold wp in Hwp. by destruct (GetUserRoot _ _ _) as [w' [g|e|m]].
Qed.
End spec.

Lemma GetUserRoot_correct_witness :
  server_wf ["srv"] (srv demo) ∧ ids_left (srv demo) 2 ∧ own_acl demo "bob"
  ∧ ∃ w' g, GetUserRoot "bob" "bob" demo = (w', Ok g) ∧ server_wf ["srv"] (srv w')
      ∧ ∃ t, is_trash (srv w') "bob" t.
Proof.
  assert (ids_left (srv demo) 2) as Hids by (intros st [= <-]; vm_compute; reflexivity).
  assert (own_acl demo "bob") as Hacl.
  { intros w1 id w2 acl Hp Hl.
    assert ((LoadACL "bob" "bob" (prepare_root "bob" demo).1).2 = Ok (mkACL "bob" [])) as Hx
      by (vm_compute; reflexivity).
    rewrite Hp in Hx. simpl in Hx. rewrite Hl in Hx. simpl in Hx. by injection Hx as ->. }
  assert (name_ok "bob") as Hn by (apply name_okb_sound; vm_compute; reflexivity).
  split; [exact demo_server_wf|]. split; [exact Hids|]. split; [exact Hacl|].
  pose proof (GetUserRoot_correct ["srv"] demo "bob" "bob" demo_server_wf Hids Hn (λ _, Hacl)) as Hg.
  assert (∃ g, (GetUserRoot "bob" "bob" demo).2 = Ok g) as [g Hr] by (eexists; vm_compute; reflexivity).
  destruct (GetUserRoot "bob" "bob" demo) as [w' r]. simpl in Hr. subst r. exists w', g.
  split; [reflexivity|]. split; [apply Hg|apply Hg].
Defined.

(** A name that is not one component is outside the theorem for a reason: the root of a
    user called [ann/.trash] gets the id of ann's trash, takes its FID and is its owner. *)
Theorem nested_name_takes_a_FID :
  let f := mkFID "fs1" 1 1 in
  let owner (w : Server MemDisk) := l ← inodes (srv w) !! FID_String f; i ← heap (srv w) !! l; Some (Owner (iACL i)) in
  let '(w', r) := GetUserRoot "ann/.trash" "ann/.trash" demo in
  owner demo = Some "ann" ∧ r = Ok f ∧ owner w' = Some "ann/.trash".
Proof. vm_compute. split; [reflexivity|split; reflexivity]. Qed.
