(* ===== verification/WriteSpec.v ===== *)
(** * Reading and writing under a quota

    [WriteFile] never lets a user's root grow past the quota, keeps the sizes of
    every directory above the file in step with it and changes nothing else;
    [ReadFile] gives back exactly what the disk holds, so a read sees the writes
    before it. *)
From S2P Require Import FileServer Persist Tree TreeWf TreeRun Frames Invariant FileOps Grow Demo.
From Stdlib Require Import Strings.Byte.

Implicit Types (s : FileServer) (l p x : loc) (i j : Inode) (f : FID).

Definition two63 : Z := 9223372036854775808.

(** The file [name] of the directory [p]. *)
Definition file_child s p (pi : Inode) (name : string) l i : Prop :=
  live s p pi ∧ iFID i ∈ iChildren pi ∧ live s l i ∧ iName i = name ∧ iType i = InodeTypeFile
  ∧ iParent i = Some p ∧ l ≠ p.

(** The root above an inode. *)
Definition root_of s l r ri : Prop := live s r ri ∧ iParent ri = Some r ∧ below s r l.

Lemma quota_exceeded_false q sz n :
  is_u64 q → 0 ≤ n → quota_exceeded q sz n = false → sz + n ≤ q.
Proof.
  unfold quota_exceeded. intros Hq Hn [H1%Z.ltb_ge H2%Z.ltb_ge]%orb_false_iff.
  rewrite u64_small in H2; [lia|]. destruct Hq. split; lia.
Qed.

Lemma quota_exceeded_true q sz n :
  is_u64 q → 0 ≤ n → 0 ≤ sz → quota_exceeded q sz n = true → q < sz + n.
Proof.
  unfold quota_exceeded. intros Hq Hn Hsz [H1%Z.ltb_lt|H2%Z.ltb_lt]%orb_prop; [lia|].
  destruct (Z_lt_ge_dec q n); [lia|]. rewrite u64_small in H2; [lia|]. destruct Hq. split; lia.
Qed.

Lemma root_unique s l r ri r' ri' :
  live s r ri → iParent ri = Some r → live s r' ri' → iParent ri' = Some r' →
  below s r l → below s r' l → r = r'.
Proof.
  intros Hr Hrp Hr' Hrp'. induction 1 as [|q x i Hb IH Hx Hq Hne]; intros Hb'.
  - destruct Hb' as [|q r i Hb' Hi Hq Hne]; [done|].
    rewrite (live_fun _ _ _ _ Hi Hr) in Hq. congruence.
  - apply (below_parent s x i q) in Hb' as [->|Hb']; [|by apply IH|done..].
    rewrite (live_fun _ _ _ _ Hx Hr') in Hq. congruence.
Qed.

Section write.
Context {D : Type} `{Env D}.
Implicit Types (w : Server D).

Lemma file_child_fun R s p pi name l i l' i' :
  server_wf R s → file_child s p pi name l i → file_child s p pi name l' i' → l' = l ∧ i' = i.
Proof.
  intros Hwf (Hp & _ & Hl & Hn & _ & Hpar & Hne) (_ & _ & Hl' & Hn' & _ & Hpar' & Hne').
  destruct (live_path R s Hwf p pi Hp) as [ns Hns].
  assert (l' = l) as ->; [|split; [done|]; by apply (live_fun s l)].
  apply (at_path_inj R s Hwf l' i' l i (ns ++ [name])); try done.
  - rewrite <-Hn'. by apply (at_path_child R s Hwf l' i' p pi).
  - rewrite <-Hn. by apply (at_path_child R s Hwf l i p pi).
Qed.

(** Looking up the file of a call. *)
Lemma file_in_wp w p pi name :
  tree_wf (srv w) → live (srv w) p pi →
  wp (file_in (Some (iFID pi)) name)
    (λ l w', w' = w ∧ ∃ i, file_child (srv w) p pi name l i)
    (λ _ w', refreshed w w') w.
Proof.
  intros Hwf Hp. unfold file_in. eapply wp_run; [done|].
  destruct (GetInode_run w (iFID pi) p pi Hp eq_refl) as (w1 & p1 & Hget & Href & Hp1 & Heq & _ & Hdir).
  eapply wp_run; [unfold catch; by rewrite Hget|]. cbv beta iota.
  destruct (decide (iType pi = InodeTypeDirectory)) as [Hd|Hd].
  - destruct (Hdir Hd) as [-> ->]. unfold GetChildInodeByName.
    destruct (child_by_name_run w p pi (iChildren pi) name Hwf Hp) as (o & Hrun & Ho); [done|].
    assert ((p0 ← deref p; o0 ← child_by_name (iChildren p0) name;
             of_option (Errorf "inode not found, %s" [name]) o0) w
            = of_option (Errorf "inode not found, %s" [name]) o w) as Hall.
    { erewrite bind_run by by apply run_deref_live. by erewrite bind_run by exact Hrun. }
    destruct o as [l|].
    + eapply wp_run; [unfold catch; by rewrite Hall|]. cbv beta iota.
      destruct Ho as (i & Hl & Hin & Hn & Hpar & Hne).
      eapply wp_run; [by apply run_deref_live|].
      case_decide as Ht; [apply wp_throw, refreshed_refl|]. apply wp_ret. split; [done|].
      exists i. split_and!; try done.
    + eapply wp_run; [unfold catch; by rewrite Hall|]. apply wp_throw, refreshed_refl.
  - assert (iChildren p1 = []) as Hnil.
    { assert (iChildren p1 = iChildren pi) as -> by (destruct p1, pi; simpl in *; by simplify_eq).
      destruct (iChildren pi) as [|f fs] eqn:Hc; [done|].
      destruct (t_child _ Hwf p pi f Hp) as [Ht _]; [rewrite Hc; apply list_elem_of_here|done]. }
    assert ((GetChildInodeByName p name) w1 = (w1, Err (Errorf "inode not found, %s" [name]))) as Hno.
    { unfold GetChildInodeByName. erewrite bind_run by by apply run_deref_live. by rewrite Hnil. }
    eapply wp_run; [unfold catch; by rewrite Hno|]. by apply wp_throw.
Qed.

(** The walk to the root. *)
Lemma walk_root_run rank n w l i :
  tree_wf (srv w) → ranked (srv w) rank → live (srv w) l i → (rank l < n)%nat →
  ∃ r ri, walk_root n l w = (w, Ok r) ∧ root_of (srv w) l r ri.
Proof.
  intros Hwf Hr. revert l i. induction n as [|n IH]; intros l i Hl Hn; [lia|]. simpl.
  erewrite bind_run by by apply run_deref_live.
  destruct (t_parent _ Hwf l i Hl) as (p & pi & Hp & Hpl & _). rewrite Hp.
  case_decide as Hpe.
  - subst p. exists l, i. split; [done|]. split_and!; [done|done|constructor].
  - pose proof (proj2 Hr l i p Hl Hp Hpe).
    destruct (IH p pi Hpl ltac:(lia)) as (r & ri & Hrun & Hrl & Hrp & Hb).
    exists r, ri. split; [exact Hrun|]. split_and!; [done|done|]. by apply (below_step _ r p l i).
Qed.

Lemma add_size_up_eq n l diff w :
  add_size_up n l diff w = resize_up n l (λ i, set_iSize (u64 (iSize i + u64 diff)) i) w.
Proof.
  revert l w. induction n as [|n IH]; intros l w; [done|]. simpl.
  unfold mbind, M_bind. simpl. destruct (deref l _) as [w1 [i|e|m]]; [|done|done].
  destruct (iParent i); [|done]. case_decide; [done|apply IH].
Qed.

(** ** WriteFile *)

(** Sizes are those of files on a disk, quotas are unsigned integers of 64 bits. *)
Definition sizes_ok s : Prop :=
  (∀ x xi, live s x xi → 0 ≤ iSize xi < two63) ∧ ∀ u q, quotas s !! u = Some q → is_u64 q.

(** By how much a file of that size grows. *)
Definition growth (size off len : Z) : Z := Z.max size (off + len) - size.

(** The quota of the root above the file and the disk have room for [k] bytes. *)
Definition room_for w l (k : Z) : Prop :=
  ∃ r ri, root_of (srv w) l r ri ∧ iSize ri + k ≤ getUserQuota (srv w) (iName ri)
    ∧ let free := os_DiskFree (rootDir (srv w)) (disk w) in
      free ≤ 0 ∨ DiskSafetyBuffer + k ≤ free.

(** What a write leaves: the bytes on the disk, the growth in the size of the file
    and of every directory above it, nothing else. *)
Definition wrote w l i (off : Z) (data : bytes) w' : Prop :=
  ∃ d h, os_WriteAt (iOSPath i) off data (disk w) = (d, inr tt)
    ∧ w' = set_disk d (with_heap h w)
    ∧ resized (srv w) l (λ j, set_iSize (iSize j + growth (iSize i) off (Z.of_nat (length data))) j) h.

Lemma getUserQuota_u64 s u : sizes_ok s → is_u64 (getUserQuota s u).
Proof.
  intros [_ Hq]. unfold getUserQuota. destruct (quotas s !! u) as [q|] eqn:Hu; [|done].
  destruct (0 <? q); [by eapply Hq|done].
Qed.

Lemma write_check_wp w l i k (len : Z) rank :
  tree_wf (srv w) → ranked (srv w) rank → live (srv w) l i → sizes_ok (srv w) → 0 < k < two63 →
  wp (n ← fuel;
      root ← walk_root n l;
      ri ← deref root;
      quota ← GetUserQuota (iName ri);
      if quota_exceeded quota (iSize ri) (u64 k) then
        throw (Errorf "storage quota exceeded: write of %d bytes exceeds available free space (%d bytes remaining of %d quota)"
                 [pretty len; pretty (free_space quota (iSize ri)); pretty quota])
      else check_disk_free (u64 k) k)
    (λ _ w', w' = w ∧ room_for w l k) (λ _ w', w' = w) w.
Proof.
  intros Hwf Hr Hl Hs Hk. eapply wp_run; [done|].
  destruct (walk_root_run rank (fuel_of (srv w)) w l i Hwf Hr Hl) as (r & ri & Hrun & Hroot);
    [by eapply fuel_above|].
  eapply wp_run; [exact Hrun|]. eapply wp_run; [by apply run_deref_live, Hroot|].
  eapply wp_run; [done|]. rewrite u64_small by (unfold is_u64, two63, two64 in *; lia).
  pose proof (getUserQuota_u64 (srv w) (iName ri) Hs) as Hq.
  destruct (quota_exceeded _ _ _) eqn:He; [by apply wp_throw|].
  apply quota_exceeded_false in He; [|done|lia].
  unfold check_disk_free. eapply wp_run; [done|]. eapply wp_run; [done|].
  case_match eqn:Hfree; [by apply wp_throw|]. apply wp_ret. split; [done|].
  exists r, ri. split; [done|]. split; [done|]. simpl.
  apply andb_false_iff in Hfree as [?%Z.ltb_ge|[?%Z.leb_gt ?%Z.ltb_ge]%orb_false_iff]; [by left|right; lia].
Qed.

(** The size difference computed with the integers of the machine. *)
Lemma size_diff size off len :
  0 ≤ size < two63 → 0 ≤ off → 0 ≤ len → off + len < two63 →
  int64_diff (if size <? u64 (off + len) then u64 (off + len) else size) size = growth size off len
  ∧ 0 ≤ growth size off len < two63.
Proof.
  intros Hs Ho Hl Hlim. unfold growth, int64_diff, two63 in *.
  rewrite u64_small by (unfold is_u64, two64; lia).
  destruct (Z.ltb_spec size (off + len)).
  - rewrite (Z.max_r size), (i64_small (off + len)), (i64_small size), i64_small by lia. lia.
  - rewrite Z.max_l, (i64_small size), i64_small by lia. lia.
Qed.

Lemma resized_none s l h (k : Z) :
  k = 0 → h = heap s → resized s l (λ j, set_iSize (iSize j + k) j) h.
Proof.
  intros -> ->. split_and!; try done. intros x xi [_ Hx] _. rewrite Hx. f_equal.
  rewrite Z.add_0_r. by destruct xi.
Qed.

Lemma resized_grow s l h k :
  sizes_ok s → 0 ≤ k < two63 →
  resized s l (λ j, set_iSize (u64 (iSize j + u64 k)) j) h →
  resized s l (λ j, set_iSize (iSize j + k) j) h.
Proof.
  intros [Hs _] Hk (Hin & Hout & Hsz). split_and!; try done. intros x xi Hx Hb.
  rewrite (Hin x xi Hx Hb). pose proof (Hs x xi Hx). unfold two63 in *.
  rewrite (u64_small k) by (unfold is_u64, two64; lia).
  by rewrite u64_small by (unfold is_u64, two64; lia).
Qed.

Lemma resized_refreshed w l g h d :
  resized (srv w) l g h → ∃ w1, refreshed w w1 ∧ set_disk d (with_heap h w) = set_disk d w1.
Proof. intros (_ & _ & Hsz). exists (with_heap h w). split; [|done]. by exists h. Qed.

Lemma WriteFile_wp w p pi name off (data : bytes) :
  tree_wf (srv w) → live (srv w) p pi → sizes_ok (srv w) →
  0 ≤ off → off + Z.of_nat (length data) < two63 →
  wp (WriteFile (Some (iFID pi)) name off data)
    (λ _ w', ∃ l i, file_child (srv w) p pi name l i ∧ wrote w l i off data w'
       ∧ let k := growth (iSize i) off (Z.of_nat (length data)) in 0 < k → room_for w l k)
    (λ _ w', ∃ d w1, refreshed w w1 ∧ w' = set_disk d w1) w.
Proof.
  intros Hwf Hp Hs Hoff Hlim. unfold WriteFile.
  apply wp_bind. eapply wp_mono; [by apply file_in_wp| |].
  2:{ intros e w' Href. exists (disk w'), w'. split; [done|]. by rewrite set_disk_id. }
  intros l w' [-> (i & Hc)]. pose proof Hc as (_ & _ & Hl & _).
  assert (∀ d, ∃ d0 w1, refreshed w w1 ∧ set_disk d w = set_disk d0 w1) as Hsame.
  { intros d. exists d, w. split; [apply refreshed_refl|done]. }
  assert (∃ d0 w1, refreshed w w1 ∧ w = set_disk d0 w1) as Hsame0.
  { exists (disk w), w. split; [apply refreshed_refl|by rewrite set_disk_id]. }
  eapply wp_run; [by apply run_deref_live|]. eapply wp_run; [done|].
  destruct (os_OpenWrite (iOSPath i) (disk w)) as [e|[]]; [done|]. eapply wp_run; [done|]. cbv zeta.
  set (len := Z.of_nat (length data)). pose proof (proj1 Hs l i Hl) as Hsz.
  assert (0 ≤ len) as Hlen by (unfold len; lia).
  case_match; [by apply wp_throw|].
  destruct (size_diff (iSize i) off len Hsz Hoff Hlen Hlim) as [-> Hk].
  set (k := growth (iSize i) off len) in *. destruct (bounded_rank _ Hwf) as [rank Hr].
  apply wp_bind. apply (wp_mono _ (λ _ w', w' = w ∧ (0 < k → room_for w l k)) _ (λ _ w', w' = w)).
  { destruct (Z.ltb_spec 0 k); [|by apply wp_ret; split; [|lia]].
    eapply wp_mono; [apply (write_check_wp w l i k len rank); try done; lia| |done].
    by intros _ w' [-> ?]. }
  2:{ by intros e w' ->. }
  intros _ w' [-> Hroom]. rewrite i64_small by (unfold two63 in *; lia).
  apply wp_bind. unfold wp, wrap, os.
  destruct (os_WriteAt (iOSPath i) off data (disk w)) as [d [e|[]]] eqn:Hw; [apply Hsame|].
  case_decide as Hk0.
  - change (wp (n ← fuel; add_size_up n l k) (λ _ w', ∃ l i, file_child (srv w) p pi name l i
       ∧ wrote w l i off data w' ∧ let k := growth (iSize i) off (Z.of_nat (length data)) in
         0 < k → room_for w l k) (λ _ w', ∃ d w1, refreshed w w1 ∧ w' = set_disk d w1) (set_disk d w)).
    eapply wp_run; [done|]. unfold wp. rewrite add_size_up_eq.
    destruct (resize_up_run (λ j, set_iSize (u64 (iSize j + u64 k)) j) (λ _, eq_refl) rank
      (fuel_of (srv (set_disk d w))) (set_disk d w) l i) as (h & Hrun & Hres); try done;
      [by eapply (fuel_above (srv w))|].
    rewrite Hrun. exists l, i. split; [done|]. split; [|done].
    exists d, h. split; [done|]. split; [done|]. apply resized_grow; try done.
  - exists l, i. split; [done|]. split; [|done]. exists d, (heap (srv w)).
    split; [done|]. split; [by rewrite with_heap_id|]. by apply resized_none.
Qed.

Lemma wrote_wf R w l i off (data : bytes) w' :
  server_wf R (srv w) → wrote w l i off data w' → server_wf R (srv w').
Proof.
  intros Hwf (d & h & _ & -> & (_ & _ & Hsz)).
  apply (refreshed_wf w (with_heap h w) R); [by exists h|done].
Qed.


(** ** ReadFile *)

(** What a read of a range gives; a length of 0 means to the end. *)
Definition range (off len : Z) (b : bytes) : bytes :=
  let rest := drop (Z.to_nat off) b in if len =? 0 then rest else take (Z.to_nat len) rest.

Context `{!DiskLaws D}.

Lemma file_in_run R w p pi name l i :
  server_wf R (srv w) → file_child (srv w) p pi name l i →
  file_in (Some (iFID pi)) name w = (w, Ok l).
Proof.
  intros Hwf Hc. pose proof Hc as (Hp & Hin & Hl & Hn & Ht & Hpar & Hne).
  pose proof (s_tree R _ Hwf) as Htree. destruct (t_child _ Htree p pi _ Hp Hin) as [Hd _].
  unfold file_in. erewrite bind_run by done.
  destruct (GetInode_run w (iFID pi) p pi Hp eq_refl) as (w1 & p1 & Hget & _ & _ & _ & _ & Hdir).
  destruct (Hdir Hd) as [-> ->]. erewrite bind_run by by (unfold catch; rewrite Hget). cbv beta iota.
  destruct (child_by_name_run w p pi (iChildren pi) name Htree Hp) as (o & Hrun & Ho); [done|].
  destruct o as [l'|]; [|by destruct (Ho l i Hl Hin)].
  destruct Ho as (i' & Hl' & Hin' & Hn' & Hpar' & Hne').
  assert (l' = l) as ->.
  { destruct (live_path R _ Hwf p pi Hp) as [ns Hns].
    apply (at_path_inj R _ Hwf l' i' l i (ns ++ [name])); try done.
    - rewrite <-Hn'. by apply (at_path_child R _ Hwf l' i' p pi).
    - rewrite <-Hn. by apply (at_path_child R _ Hwf l i p pi). }
  assert (GetChildInodeByName p name w = (w, Ok l)) as Hget'.
  { unfold GetChildInodeByName. erewrite bind_run by by apply run_deref_live.
    by erewrite bind_run by exact Hrun. }
  erewrite bind_run by by (unfold catch; rewrite Hget'). cbv beta iota.
  erewrite bind_run by by apply run_deref_live. rewrite (live_fun _ _ _ _ Hl' Hl). by case_decide.
Qed.

Lemma ReadFile_run R w p pi name l i (b : bytes) off len :
  server_wf R (srv w) → file_child (srv w) p pi name l i →
  os_ReadFile (iOSPath i) (disk w) = inr b → Z.of_nat (length b) ≤ max_slice →
  0 ≤ off → 0 ≤ len → off + len < two64 →
  ReadFile (Some (iFID pi)) name off len w = (w, Ok (range off len b)).
Proof.
  intros Hwf Hc Hb Hmax Hoff Hlen Hlim. unfold ReadFile.
  erewrite bind_run by by eapply file_in_run. pose proof Hc as (_ & _ & Hl & _).
  erewrite bind_run by by apply run_deref_live. erewrite bind_run by done.
  rewrite (openRead_read _ _ _ Hb). erewrite bind_run by done.
  erewrite bind_run by done. rewrite (stat_read _ _ _ Hb). erewrite bind_run by done. cbv zeta.
  unfold max_slice in *. set (n := Z.of_nat (length b)) in *.
  rewrite (u64_small n) by (unfold is_u64, two64; lia). rewrite (u64_small (off + len)) by (split; lia).
  unfold range. destruct (Z.leb_spec n off) as [Hpast|Hin].
  { rewrite drop_ge by lia. by destruct (len =? 0); rewrite ?take_nil. }
  rewrite (u64_small (n - off)) by (unfold is_u64, two64; lia).
  destruct (Z.eqb_spec len 0) as [->|Hne]; cbn [orb].
  - rewrite (proj2 (Z.ltb_ge 281474976710656 (n - off))) by lia. erewrite bind_run by done.
    rewrite i64_small by lia. rewrite (readAt_read _ _ _ _ _ Hoff Hb). unfold read_at.
    rewrite take_ge; [done|]. rewrite length_drop. lia.
  - destruct (Z.ltb_spec n (off + len)).
    + rewrite (proj2 (Z.ltb_ge 281474976710656 (n - off))) by lia. erewrite bind_run by done.
      rewrite i64_small by lia. rewrite (readAt_read _ _ _ _ _ Hoff Hb). unfold read_at.
      by rewrite !take_ge by (rewrite length_drop; lia).
    + rewrite (proj2 (Z.ltb_ge 281474976710656 len)) by lia. erewrite bind_run by done.
      rewrite i64_small by lia. by rewrite (readAt_read _ _ _ _ _ Hoff Hb).
Qed.

Lemma file_child_refreshed w w1 p pi name l i :
  refreshed w w1 → file_child (srv w) p pi name l i →
  ∃ pi' i', file_child (srv w1) p pi' name l i' ∧ iFID pi' = iFID pi ∧ iOSPath i' = iOSPath i.
Proof.
  intros (h & -> & Hh) ([Hpk Hph] & Hin & [Hlk Hlh] & Hn & Ht & Hpar & Hne).
  pose proof (Hh p) as H1. rewrite Hph in H1. destruct (h !! p) as [pi'|] eqn:Hp'; [|done].
  pose proof (Hh l) as H2. rewrite Hlh in H2. destruct (h !! l) as [i'|] eqn:Hl'; [|done].
  apply (inj Some) in H1, H2. exists pi', i'.
  destruct pi, pi', i, i'; simpl in *; simplify_eq. by split_and!.
Qed.

Lemma range_write_at off data (b : bytes) :
  0 ≤ off → data ≠ [] →
  range off (Z.of_nat (length data)) (write_at (Z.to_nat off) data b) = data.
Proof.
  intros Ho Hne. unfold range, write_at. destruct (Z.eqb_spec (Z.of_nat (length data)) 0) as [H0|_].
  { destruct data; [done|simpl in H0; lia]. }
  rewrite drop_app_le, drop_ge; [|rewrite length_take, length_app, length_replicate; lia..].
  by rewrite Nat2Z.id, app_nil_l, take_app_length.
Qed.

(** C12. Reads see writes: after a successful write, ending below 2^63, into a file that held
    the bytes [b], every read of that file whose offset and length add up to less than
    2^64 returns exactly the
    requested range of [b] overwritten at the offset of the write (with zeros in a
    gap), changes nothing, and never panics, as long as the file fits a slice; in
    particular reading the range that was written gives back the data.  A read that
    wraps panics ([ReadFile_wrapped_length_panics]). *)
Theorem Read_after_Write R w p pi name off data (b : bytes) w' :
  server_wf R (srv w) → live (srv w) p pi → sizes_ok (srv w) →
  0 ≤ off → off + Z.of_nat (length data) < two63 →
  (∀ l i, file_child (srv w) p pi name l i → os_ReadFile (iOSPath i) (disk w) = inr b) →
  let b' := write_at (Z.to_nat off) data b in Z.of_nat (length b') ≤ max_slice →
  WriteFile (Some (iFID pi)) name off data w = (w', Ok tt) →
  (∀ o len, 0 ≤ o → 0 ≤ len → o + len < two64 →
     ReadFile (Some (iFID pi)) name o len w' = (w', Ok (range o len b')))
  ∧ (data ≠ [] → ReadFile (Some (iFID pi)) name off (Z.of_nat (length data)) w' = (w', Ok data)).
Proof.
  intros Hwf Hp Hs Hoff Hlim Hb b' Hmax Hrun.
  pose proof (WriteFile_wp w p pi name off data (s_tree R _ Hwf) Hp Hs Hoff Hlim) as Hwp.
  unfold wp in Hwp. rewrite Hrun in Hwp. destruct Hwp as (l & i & Hc & Hw & _).
  pose proof (wrote_wf R w l i off data w' Hwf Hw) as Hwf'.
  destruct Hw as (d & h & Hdisk & -> & Hres).
  destruct (file_child_refreshed w (with_heap h w) p pi name l i) as (pi' & i' & Hc' & Hf & Hpath);
    [exists h; split; [done|apply Hres]|done|].
  destruct (read_WriteAt _ _ _ _ _ _ Hdisk (Hb l i Hc)) as [_ Hread].
  assert (∀ o len, 0 ≤ o → 0 ≤ len → o + len < two64 →
     ReadFile (Some (iFID pi)) name o len (set_disk d (with_heap h w))
     = (set_disk d (with_heap h w), Ok (range o len b'))) as Hall.
  { intros o len Ho Hlen Hlt. rewrite <-Hf.
    apply (ReadFile_run R _ p pi' name l i'); try done. by rewrite Hpath. }
  split; [done|]. intros Hne. rewrite Hall; [|lia..|unfold two63, two64 in *; lia].
  unfold b'. by rewrite range_write_at.
Qed.

(** A length that wraps the end of the range around 2^64 passes the bound and asks
    for a slice no program can make. *)
Theorem ReadFile_wrapped_length_panics R w p pi name l i (b : bytes) off len :
  server_wf R (srv w) → file_child (srv w) p pi name l i →
  os_ReadFile (iOSPath i) (disk w) = inr b → Z.of_nat (length b) < two63 →
  0 ≤ off < Z.of_nat (length b) → two64 ≤ off + len → len < two64 → max_slice < len →
  ReadFile (Some (iFID pi)) name off len w = (w, Panic "makeslice: len out of range").
Proof.
  intros Hwf Hc Hb Hmax Hoff Hw Hlim Hbig. unfold ReadFile.
  erewrite bind_run by by eapply file_in_run. pose proof Hc as (_ & _ & Hl & _).
  erewrite bind_run by by apply run_deref_live. erewrite bind_run by done.
  rewrite (openRead_read _ _ _ Hb). erewrite bind_run by done.
  erewrite bind_run by done. rewrite (stat_read _ _ _ Hb). erewrite bind_run by done. cbv zeta.
  unfold max_slice, two63, two64 in *. set (n := Z.of_nat (length b)) in *.
  rewrite (u64_small n) by (unfold is_u64, two64; lia).
  rewrite (proj2 (Z.leb_gt n off)) by lia.
  assert (u64 (off + len) = off + len - two64) as ->.
  { unfold u64, two64. symmetry. apply (Zmod_unique _ _ 1); lia. }
  rewrite (proj2 (Z.eqb_neq len 0)) by lia. cbn [orb].
  rewrite (proj2 (Z.ltb_ge n (off + len - two64))) by (unfold two64; lia).
  by rewrite (proj2 (Z.ltb_lt 281474976710656 len)) by lia.
Qed.
End write.

(** ** The theorems on a concrete server *)

Definition sizes_okb s : bool :=
  forallb (λ kl, match heap s !! kl.2 with
                 | Some i => (0 <=? iSize i) && (iSize i <? two63)
                 | None => true
                 end) (map_to_list (inodes s))
  && bool_decide (quotas s = ∅).

Lemma sizes_okb_sound s : sizes_okb s = true → sizes_ok s.
Proof.
  intros [Hall Hq]%andb_prop. apply bool_decide_eq_true in Hq. split.
  - intros l i [Hk Hl]. rewrite forallb_forall in Hall.
    specialize (Hall (FID_String (iFID i), l)). simpl in Hall. rewrite Hl in Hall.
    assert ((0 <=? iSize i) && (iSize i <? two63) = true) as [H1 H2]%andb_prop.
    { apply Hall, list_elem_of_In, elem_of_map_to_list. exact Hk. }
    lia.
  - intros u q. by rewrite Hq, lookup_empty.
Qed.

Definition hello : bytes := [x68; x65; x6c; x6c; x6f].

Lemma demo_file_child : file_child (srv demo) doc_loc doc_inode "f" file_loc file_inode.
Proof.
  split; [exact demo_doc_live|]. split; [apply (bool_decide_unpack _); vm_compute; exact I|].
  split; [exact demo_file_live|]. split_and!; (vm_compute; (reflexivity || discriminate)).
Qed.


Lemma Read_after_Write_witness :
  ∃ w', WriteFile (Some doc_fid) "f" 3 hello demo = (w', Ok tt)
    ∧ ReadFile (Some doc_fid) "f" 3 5 w' = (w', Ok hello)
    ∧ ReadFile (Some doc_fid) "f" 0 0 w' = (w', Ok ([x00; x00; x00] ++ hello)).
Proof.
  assert ((WriteFile (Some doc_fid) "f" 3 hello demo).2 = Ok tt) as Hr by (vm_compute; reflexivity).
  destruct (WriteFile (Some doc_fid) "f" 3 hello demo) as [w' r] eqn:Hrun. simpl in Hr. subst r.
  exists w'. split; [reflexivity|].
  destruct (Read_after_Write ["srv"] demo doc_loc doc_inode "f" 3 hello [] w' demo_server_wf
    demo_doc_live ltac:(apply sizes_okb_sound; vm_compute; reflexivity) ltac:(lia)
    ltac:(vm_compute; reflexivity)) as [Hall Hback].
  - intros l i Hc.
    destruct (file_child_fun ["srv"] (srv demo) doc_loc doc_inode "f" file_loc file_inode l i
      demo_server_wf demo_file_child Hc) as [_ ->]. vm_compute. reflexivity.
  - vm_compute. discriminate.
  - exact Hrun.
  - split; [apply Hback; discriminate|]. change (Some doc_fid) with (Some (iFID doc_inode)).
    rewrite (Hall 0 0); [|lia|lia|reflexivity].
    assert (range 0 0 (write_at (Z.to_nat 3) hello []) = [x00; x00; x00] ++ hello) as ->
      by (vm_compute; reflexivity). reflexivity.
Defined.

Lemma ReadFile_wrapped_length_panics_witness :
  ∃ w', WriteFile (Some doc_fid) "f" 0 hello demo = (w', Ok tt)
    ∧ ReadFile (Some doc_fid) "f" 1 18446744073709551615 w' = (w', Panic "makeslice: len out of range").
Proof.
  assert ((WriteFile (Some doc_fid) "f" 0 hello demo).2 = Ok tt) as Hr by (vm_compute; reflexivity).
  assert (server_wf ["srv"] (srv (WriteFile (Some doc_fid) "f" 0 hello demo).1)) as Hwf
    by (apply (server_wfb_sound _ Pos.to_nat); vm_compute; reflexivity).
  set (w := (WriteFile (Some doc_fid) "f" 0 hello demo).1) in *.
  exists w. split.
  { unfold w. destruct (WriteFile (Some doc_fid) "f" 0 hello demo). simpl in *. by subst. }
  apply (ReadFile_wrapped_length_panics ["srv"] w doc_loc (inode_of w doc_loc) "f" file_loc
    (inode_of w file_loc) hello 1 18446744073709551615 Hwf).
  - split; [split; vm_compute; reflexivity|].
    split; [apply (bool_decide_unpack _); vm_compute; exact I|].
    split; [split; vm_compute; reflexivity|]. split_and!; (vm_compute; (reflexivity || discriminate)).
  - vm_compute. reflexivity.
  - vm_compute. reflexivity.
  - split; [discriminate|vm_compute; reflexivity].
  - vm_compute. discriminate.
  - vm_compute. reflexivity.
  - vm_compute. reflexivity.
Defined.
