(* ===== verification/DeleteSpec.v ===== *)
(** * Deletion removes exactly a subtree

    [DeleteFile]: who may delete what, the inodes, trash records, index entries and
    shares that go, the sizes of the ancestors, and the invariant of the server. *)
From S2P Require Import FileServer Persist Tree TreeWf TreeRun Frames Invariant Removal Share.
From S2P Require Import FileOps Grow Demo.

Implicit Types (s : FileServer) (l p x : loc) (i j : Inode) (f : FID).

Section delete.
Context {D : Type} `{Env D}.
Implicit Types (w : Server D).

(** ** Who may delete what *)

(** The test for the trash directory of a user. *)
Definition named_trash s (user : string) i : Prop :=
  iName i = trashDirName
  ∧ ∃ r ri, users s !! user = Some (iFID ri) ∧ live s r ri ∧ iParent i = Some r.

Lemma isTrashDir_run w user l i R :
  server_wf R (srv w) → live (srv w) l i →
  ∃ b, isTrashDirForUser l user w = (w, Ok b) ∧ (b = true ↔ named_trash (srv w) user i).
Proof.
  intros Hwf Hl. unfold isTrashDirForUser. erewrite bind_run by by apply run_deref_live.
  case_decide as Hn.
  { exists false. split; [done|]. split; [done|]. by intros []. }
  assert (iName i = trashDirName) as Hname by (by destruct (decide (iName i = trashDirName))).
  destruct (t_parent _ (s_tree R _ Hwf) l i Hl) as (p & pi & Hp & Hpl & _).
  unfold root_inode. destruct (users (srv w) !! user) as [rf|] eqn:Hu.
  2:{ exists false. split.
      - unfold gsrv, gets, mbind, M_bind. by rewrite Hu.
      - split; [done|]. intros (_ & r & ri & Hur & _). congruence. }
  destruct (s_user R _ Hwf user rf Hu) as (r & ri & Hr & <- & Hrp & Hrt & Hrn).
  assert ((fid ← gsrv (λ s, users s !! user);
           match fid with None => mret None | Some f => find (FID_String f) end) w
          = (w, Ok (Some r))) as Hroot.
  { unfold gsrv, gets, mbind, M_bind. simpl. rewrite Hu. simpl. unfold find, gsrv, gets.
    by rewrite (proj1 Hr). }
  erewrite bind_run by exact Hroot. rewrite Hp.
  erewrite bind_run by by apply run_deref_live. erewrite bind_run by by apply run_deref_live.
  eexists. split; [done|]. rewrite bool_decide_eq_true. split.
  - intros Heq%FID_String_inj. split; [done|]. exists r, ri. split_and!; try done.
    by rewrite <-(live_loc_fun _ _ _ _ _ Hpl Hr Heq).
  - intros (_ & r' & ri' & Hur & Hr' & Hpr). rewrite Hp in Hpr. injection Hpr as ->.
    rewrite (live_fun _ _ _ _ Hpl Hr'). congruence.
Qed.

(** The user owns everything that would go. *)
Definition owns_below s (user : string) l : Prop :=
  ∀ x xi, below s l x → live s x xi → Owner (iACL xi) = user.

Lemma owns_child s user l i f c :
  tree_wf s → live s l i → f ∈ iChildren i → inodes s !! FID_String f = Some c →
  owns_below s user l → owns_below s user c.
Proof.
  intros Hwf Hl Hf Hc Hown x xi Hb. apply Hown.
  destruct (child_at s l i f c Hwf Hl Hf Hc) as (ci & Hcl & Hcf & _).
  by apply (below_child s l i f c ci).
Qed.

Lemma validate_children w user l i fs (visit : loc → M (Server D) unit) :
  tree_wf (srv w) → live (srv w) l i → (∀ f, f ∈ fs → f ∈ iChildren i) →
  (∀ c ci, live (srv w) c ci → iParent ci = Some l → c ≠ l →
     wp (visit c) (λ _ w', w' = w ∧ owns_below (srv w) user c)
       (λ _ w', w' = w ∧ ¬ owns_below (srv w) user c) w) →
  wp (for_each fs (λ f, o ← find (FID_String f); match o with None => mret tt | Some c => visit c end))
    (λ _ w', w' = w ∧ ∀ f c, f ∈ fs → inodes (srv w) !! FID_String f = Some c →
                             owns_below (srv w) user c)
    (λ _ w', w' = w ∧ ¬ owns_below (srv w) user l) w.
Proof.
  intros Hwf Hl Hfs Hv. induction fs as [|f fs IH]; simpl.
  { apply wp_ret. split; [done|]. intros f c Hf. by apply elem_of_nil in Hf. }
  destruct (find_child _ l i f Hwf Hl) as (c & ci & Hc & Hcl & Hcf & Hcp & Hne);
    [apply Hfs, list_elem_of_here|].
  apply wp_bind. eapply wp_run; [apply run_find|]. rewrite Hc.
  eapply wp_mono; [by apply (Hv c ci)| |].
  - intros [] w' [-> Hown]. eapply wp_mono; [apply IH| |done].
    { intros g Hg. by apply Hfs, list_elem_of_further. }
    intros _ w' [-> Hrest]. split; [done|]. intros g d [Hgf|Hg]%elem_of_cons Hd; [|eauto].
    assert (d = c) as -> by congruence. exact Hown.
  - intros e w' [-> Hno]. split; [done|]. intros Hown. apply Hno.
    apply (owns_child _ user l i f c); try done. apply Hfs, list_elem_of_here.
Qed.

Lemma validate_run rank n w l i user rec :
  tree_wf (srv w) → ranked (srv w) rank → live (srv w) l i →
  (depth_left (srv w) rank l ≤ n)%nat → (rec = true ∨ iChildren i = []) →
  wp (validate_delete n l user rec)
    (λ _ w', w' = w ∧ owns_below (srv w) user l)
    (λ _ w', w' = w ∧ ¬ owns_below (srv w) user l) w.
Proof.
  intros Hwf Hr. revert l i. induction n as [|n IH]; intros l i Hl Hn Hrec.
  { pose proof (depth_left_pos _ _ _ _ Hr Hl). lia. }
  simpl. eapply wp_run; [by apply run_deref_live|]. case_decide as Ho.
  { apply wp_throw. split; [done|]. intros Hown. apply Ho. apply (Hown l); [constructor|done]. }
  assert (Owner (iACL i) = user) as Hown0 by (by destruct (decide (Owner (iACL i) = user))).
  case_decide as Hd.
  - destruct Hrec as [->|Hnil]; [|tauto]. simpl.
    eapply wp_mono; [apply (validate_children w user l i (iChildren i)); try done| |done].
    + intros c ci Hc Hcp Hne. apply (IH c ci Hc); [|by left].
      pose proof (depth_left_child _ _ _ _ _ Hr Hc Hcp Hne). lia.
    + intros _ w' [-> Hch]. split; [done|]. intros x xi Hb Hx.
      apply (below_inv _ l i) in Hb as [->|(c & ci & Hc & Hin & _ & _ & Hb)]; try done.
      * by rewrite (live_fun _ _ _ _ Hx Hl).
      * apply (Hch (iFID ci) c Hin (proj1 Hc) x xi Hb Hx).
  - apply wp_ret. split; [done|]. intros x xi Hb Hx.
    apply (below_inv _ l i) in Hb as [->|(c & ci & Hc & Hin & _)]; try done.
    + by rewrite (live_fun _ _ _ _ Hx Hl).
    + destruct (t_child _ Hwf l i _ Hl Hin) as [Ht _]. destruct Hd. split; [done|].
      intros Hnil. rewrite Hnil in Hin. by apply elem_of_nil in Hin.
Qed.

(** The permission to delete: the whole subtree is owned, and a directory that is
    not empty goes only recursively. *)
Lemma validateDelete_wp w l i user rec :
  tree_wf (srv w) → live (srv w) l i →
  wp (validateDeletePermissions l user rec)
    (λ _ w', w' = w ∧ owns_below (srv w) user l ∧ (rec = true ∨ iChildren i = []))
    (λ _ w', w' = w ∧ ¬ (owns_below (srv w) user l ∧ (rec = true ∨ iChildren i = []))) w.
Proof.
  intros Hwf Hl. destruct (bounded_rank _ Hwf) as [rank Hr].
  unfold validateDeletePermissions. eapply wp_run; [apply run_fuel|].
  destruct (decide (rec = true ∨ iChildren i = [])) as [Hrec|Hrec].
  - eapply wp_mono; [by apply (validate_run rank _ w l i); try done; apply fuel_enough| |].
    + intros _ w' [-> ?]. tauto.
    + intros _ w' [-> ?]. tauto.
  - assert (rec = false) as -> by (destruct rec; tauto).
    assert (fuel_of (srv w) = S (Nat.pred (fuel_of (srv w)))) as -> by (unfold fuel_of; lia).
    simpl. eapply wp_run; [by apply run_deref_live|].
    case_decide as Ho; [apply wp_throw; tauto|].
    case_decide as Hd; [apply wp_throw; tauto|]. exfalso.
    destruct (iChildren i) as [|f fs] eqn:Hc; [tauto|].
    assert (f ∈ iChildren i) as Hf by (rewrite Hc; apply list_elem_of_here).
    destruct (t_child _ Hwf l i f Hl Hf) as [Ht _]. tauto.
Qed.

(** ** The disk and the sizes *)

Lemma remove_on_disk_wp w L :
  (∀ x, x ∈ L → ∃ xi, heap (srv w) !! x = Some xi) →
  wp (for_each L remove_on_disk) (λ _ w', ∃ d, w' = set_disk d w)
    (λ _ w', ∃ d, w' = set_disk d w) w.
Proof.
  intros HL. apply (wp_for_each (λ L' w', (∃ d, w' = set_disk d w)
    ∧ ∀ x, x ∈ L' → ∃ xi, heap (srv w) !! x = Some xi)).
  - split; [exists (disk w); by rewrite set_disk_id|done].
  - intros x L' w1 _ [[d ->] Hall]. destruct (Hall x) as [xi Hx]; [apply list_elem_of_here|].
    unfold remove_on_disk. eapply wp_run; [by apply (run_deref _ x xi)|].
    apply wp_os; [|intros d' _; by exists d']. intros d' _. split; [by exists d'|].
    intros y Hy. apply Hall. by apply list_elem_of_further.
  - by intros w1 [? _].
Qed.

(** The size of an ancestor after an inode of size [k] is gone. *)
Definition deduct (k : Z) (i : Inode) : Inode :=
  set_iSize (if k <=? iSize i then iSize i - k else 0) i.

(** The sizes at and above [p] are reduced, nothing else changes. *)
Definition deducted s (p : loc) (k : Z) (h : gmap loc Inode) : Prop := resized s p (deduct k) h.

(** The loop never meets the inode it started from. *)
Lemma deduct_up_eq rank n w l p pi k :
  tree_wf (srv w) → ranked (srv w) rank → live (srv w) p pi → (rank p < rank l)%nat →
  deduct_up n l p k w = resize_up n p (deduct k) w.
Proof.
  revert w p pi. induction n as [|n IH]; intros w p pi Hwf Hr Hp Hpl; [done|]. simpl.
  rewrite decide_False by (intros ->; lia).
  set (h1 := alter (deduct k) p (heap (srv w))). set (w1 := with_heap h1 w).
  assert (same_skel (srv w) (srv w1)) as Hsk by by apply (same_skel_alter _ p (deduct k)).
  assert (live (srv w1) p (deduct k pi)) as Hp1.
  { split; [apply Hp|]. simpl. unfold h1. rewrite lookup_alter_eq. by rewrite (proj2 Hp). }
  rewrite (bind_run _ _ _ _ _ (run_assign w p (deduct k))).
  rewrite (bind_run _ _ _ _ _ (run_assign w p (deduct k))).
  rewrite (bind_run _ _ _ _ _ (run_deref_live w1 p _ Hp1)).
  rewrite (bind_run _ _ _ _ _ (run_deref_live w1 p _ Hp1)).
  destruct (t_parent _ Hwf p pi Hp) as (q & qi & Hq & Hql & _).
  change (iParent (deduct k pi)) with (iParent pi). rewrite Hq. case_decide as Hqp; [done|].
  destruct (live_skel _ _ _ _ Hsk Hql) as (qi' & Hq1 & _).
  pose proof (proj2 Hr p pi q Hp Hq Hqp). apply (IH w1 q qi'); try done; [| |lia].
  - by eapply tree_wf_skel.
  - by eapply ranked_skel.
Qed.

Lemma deduct_up_run rank n w l p pi k :
  tree_wf (srv w) → ranked (srv w) rank → live (srv w) p pi →
  (rank p < n)%nat → (rank p < rank l)%nat →
  ∃ h, deduct_up n l p k w = (with_heap h w, Ok tt) ∧ deducted (srv w) p k h.
Proof.
  intros Hwf Hr Hp Hn Hpl. rewrite (deduct_up_eq rank n w l p pi k) by done.
  by apply (resize_up_run (deduct k) (λ _, eq_refl) rank n w p pi).
Qed.

(** ** Forgetting the inodes *)

(** The server without the inode [i] at the path [ns]. *)
Definition forget_one (ns : list string) i s : FileServer :=
  set_inodeStore (Remove (rel_path ns) <$> inodeStore s)
    (set_trashMeta (delete (FID_String (iFID i)) (trashMeta s))
       (set_inodes (delete (FID_String (iFID i)) (inodes s)) s)).

(** What the loop needs of an inode it forgets. *)
Definition forgettable (R : list string) s x : Prop :=
  ∃ xi ns, heap s !! x = Some xi ∧ at_path R ns xi
    ∧ (∀ k, inodes s !! k = Some x → k = FID_String (iFID xi))
    ∧ ∀ y, inodes s !! FID_String (iFID xi) = Some y → y = x.

(** The keys and the relative paths of the inodes of a list. *)
Definition keys_of s (L : list loc) : list string :=
  omap (λ x, (λ xi, FID_String (iFID xi)) <$> heap s !! x) L.
Definition rels_of s (L : list loc) : list string :=
  omap (λ x, xi ← heap s !! x; Rel (rootDir s) (iOSPath xi)) L.

Record forgotten (R : list string) s (L : list loc) s' : Prop := {
  fo_users : users s' = users s;
  fo_dir : rootDir s' = rootDir s;
  fo_id : serverID s' = serverID s;
  fo_heap : heap s' = heap s;
  fo_shared : Shared s' = Shared s;
  fo_ms : msAddr s' = msAddr s;
  fo_inodes k x : inodes s' !! k = Some x ↔ inodes s !! k = Some x ∧ x ∉ L;
  fo_trash k : trashMeta s' !! k = if decide (k ∈ keys_of s L) then None else trashMeta s !! k;
  fo_index st : inodeStore s = Some st → index_wf (isData st) →
    ∃ st', inodeStore s' = Some st' ∧ index_wf (isData st')
      ∧ NextInodeID (isData st') = NextInodeID (isData st)
      ∧ ∀ ms, ms ≠ [] → Forall name_ok ms →
          Get (rel_path ms) st'
          = if decide (rel_path ms ∈ rels_of s L) then None else Get (rel_path ms) st;
}.

Lemma Get_Remove (p q : string) st :
  Get q (Remove p st) = if decide (normalizePath q = normalizePath p) then None else Get q st.
Proof.
  unfold Get, Remove. simpl. case_decide as Heq.
  - by rewrite Heq, lookup_delete_eq.
  - by rewrite lookup_delete_ne.
Qed.

Lemma Get_Remove_path ns ms st :
  ns ≠ [] → ms ≠ [] → Forall name_ok ns → Forall name_ok ms →
  Get (rel_path ms) (Remove (rel_path ns) st)
  = if decide (ms = ns) then None else Get (rel_path ms) st.
Proof.
  intros Hn Hm Hno Hmo. rewrite Get_Remove. unfold rel_path. rewrite !normalizePath_names by done.
  destruct (decide (ms = ns)) as [->|Hne]; [by rewrite decide_True|].
  rewrite decide_False; [done|]. intros Heq. by apply Hne, SJoin_names_inj.
Qed.

Lemma forget_inode_run R w x xi ns :
  rootDir (srv w) = abs_path R → Forall comp_ok R → heap (srv w) !! x = Some xi →
  at_path R ns xi →
  forget_inode x w = (set_srv (forget_one ns xi (srv w)) w, Ok tt).
Proof.
  intros Hdir HR Hx (Hne & Hok & Hpath). unfold forget_inode.
  erewrite bind_run by by apply run_deref.
  erewrite bind_run by done. erewrite bind_run by done. simpl.
  unfold gsrv, gets, mbind at 1, M_bind at 1. simpl.
  destruct (inodeStore (srv w)) as [st|] eqn:Hst.
  - unfold rel, gsrv, gets, mbind at 1, M_bind at 1. simpl. rewrite Hdir, Hpath, Rel_abs_path.
    + unfold forget_one. rewrite Hst. unfold on_index, usrv, modify. simpl. by rewrite Hst.
    + apply Forall_app. split; [done|by apply names_comp_ok].
    + done.
  - unfold forget_one. rewrite Hst. do 2 f_equal. destruct w as [s ? ? ?]. simpl in *.
    by destruct s; simpl in *; subst.
Qed.

Lemma forgettable_next R s xi ns y : forgettable R s y → forgettable R (forget_one ns xi s) y.
Proof.
  intros (yi & ms & Hy & Hms & Hk & Hu). exists yi, ms. split_and!; [done|done| |]; simpl.
  - intros k [_ Hk']%lookup_delete_Some. by apply Hk.
  - intros z [_ Hz]%lookup_delete_Some. by apply Hu.
Qed.

Lemma forgotten_cons R s x xi ns L s' :
  rootDir s = abs_path R → Forall comp_ok R →
  heap s !! x = Some xi → at_path R ns xi →
  (∀ k, inodes s !! k = Some x → k = FID_String (iFID xi)) →
  (∀ y, inodes s !! FID_String (iFID xi) = Some y → y = x) →
  forgotten R (forget_one ns xi s) L s' → forgotten R s (x :: L) s'.
Proof.
  intros Hdir HR Hx (Hne & Hok & Hpath) Hk Hu [F1 F2 F3 F4 F5 F6 F7 F8 F9]. simpl in *. split; try done.
  - intros k y. rewrite F7, lookup_delete_Some, not_elem_of_cons. split.
    + intros [[Hkey Hy] HL]. split_and!; try done. intros ->. by apply Hkey, symmetry, Hk.
    + intros [Hy [Hxy HL]]. split_and!; try done. intros <-. by apply Hxy, Hu.
  - intros k. rewrite F8. unfold keys_of. simpl. rewrite Hx. simpl.
    destruct (decide (k ∈ omap _ L)) as [Hin|Hin].
    + by rewrite decide_True by (by apply list_elem_of_further).
    + destruct (decide (k = FID_String (iFID xi))) as [->|Hkx].
      * rewrite lookup_delete_eq, decide_True; [done|apply list_elem_of_here].
      * rewrite lookup_delete_ne, decide_False by (by rewrite ?not_elem_of_cons). done.
  - intros st Hst Hix. destruct (F9 (Remove (rel_path ns) st)) as (st' & Hst' & Hix' & Hnext & Hget).
    { by rewrite Hst. } { by apply Remove_wf. }
    exists st'. split_and!; try done. intros ms Hm Hmo. rewrite Hget by done.
    unfold rels_of. simpl. rewrite Hx. simpl. rewrite Hdir, Hpath, Rel_abs_path; [|apply Forall_app;
      split; [done|by apply names_comp_ok]|done].
    rewrite Get_Remove_path by done. fold (rel_path ns).
    destruct (decide (rel_path ms ∈ omap _ L)) as [Hin|Hin].
    + by rewrite decide_True by (by apply list_elem_of_further).
    + destruct (decide (ms = ns)) as [->|Hmn].
      * rewrite decide_True; [done|apply list_elem_of_here].
      * rewrite decide_False; [done|]. rewrite not_elem_of_cons. split; [|done].
        intros Heq. by apply Hmn, SJoin_names_inj.
Qed.

Lemma forget_all_run R w L :
  rootDir (srv w) = abs_path R → Forall comp_ok R →
  (∀ x, x ∈ L → forgettable R (srv w) x) →
  ∃ s', for_each L forget_inode w = (set_srv s' w, Ok tt) ∧ forgotten R (srv w) L s'.
Proof.
  intros Hdir HR. revert w Hdir. induction L as [|x L IH]; intros w Hdir HL; simpl.
  - exists (srv w). split; [by destruct w|]. split; try done.
    + intros k x. split; [|tauto]. intros ?. split; [done|]. intros Hin. by apply elem_of_nil in Hin.
    + intros st Hst Hix. exists st. split_and!; try done.
  - destruct (HL x) as (xi & ns & Hx & Hns & Hk & Hu); [apply list_elem_of_here|].
    erewrite bind_run by by apply (forget_inode_run R w x xi ns).
    destruct (IH (set_srv (forget_one ns xi (srv w)) w)) as (s' & Hrun & Hf); [done| |].
    { intros y Hy. apply forgettable_next, HL. by apply list_elem_of_further. }
    exists s'. split; [exact Hrun|]. by apply (forgotten_cons R (srv w) x xi ns).
Qed.

(** ** The shares and the parent *)

Lemma collect_paths s base k :
  base ≠ "" → k ∈ snapPath <$> collectSharedSnapshots s base
    ↔ is_Some (Shared s !! k) ∧ snap_under base k = true.
Proof.
  intros Hb. unfold collectSharedSnapshots. rewrite decide_False by done.
  rewrite list_elem_of_fmap. setoid_rewrite (elem_of_Permutation_proper _ _ _ (merge_sort_Permutation _ _)).
  split.
  - intros (snap & -> & Hs). apply list_elem_of_fmap in Hs as ([k us] & -> & Hin).
    apply list_elem_of_filter in Hin as [Hu Hin%elem_of_map_to_list]. simpl in *. by rewrite Hin.
  - intros [[us Hk] Hu]. exists (mkSnap k us). split; [done|]. apply list_elem_of_fmap.
    exists (k, us). split; [done|]. apply list_elem_of_filter. split; [done|].
    by apply elem_of_map_to_list.
Qed.

(** The shares after those at and below a path are gone. *)
Definition shares_without (m : gmap string (list string)) (base : string)
    (m' : gmap string (list string)) : Prop :=
  ∀ k, m' !! k = if snap_under base k then None else m !! k.

Lemma drop_shares s base :
  base ≠ "" →
  shares_without (Shared s) base
    (foldl (λ m snap, delete (snapPath snap) m) (Shared s) (collectSharedSnapshots s base)).
Proof.
  intros Hb k.
  assert (∀ (l : list sharedDirSnapshot) (m : gmap string (list string)),
    foldl (λ m snap, delete (snapPath snap) m) m l !! k
    = if decide (k ∈ snapPath <$> l) then None else m !! k) as Hf.
  { induction l as [|snap l IH]; intros m; [done|].
    - cbn [foldl]. rewrite IH, fmap_cons. destruct (decide (k ∈ snapPath <$> l)) as [Hin|Hin].
      + by rewrite decide_True by (by apply list_elem_of_further).
      + destruct (decide (k = snapPath snap)) as [->|Hne].
        * rewrite lookup_delete_eq, decide_True; [done|apply list_elem_of_here].
        * rewrite lookup_delete_ne, decide_False; [done| |done]. by rewrite not_elem_of_cons. }
  rewrite Hf. case_decide as Hin.
  - apply collect_paths in Hin as [_ ->]; done.
  - destruct (snap_under base k) eqn:Hu; [|done]. destruct (Shared s !! k) eqn:Hk; [|done].
    destruct Hin. apply collect_paths; [done|]. by rewrite Hk.
Qed.

(** Unlinking an inode its parent lists. *)
Lemma removeFromParent_run w l i p pi :
  heap (srv w) !! l = Some i → iParent i = Some p → heap (srv w) !! p = Some pi →
  iFID pi ≠ iFID i → iFID i ∈ iChildren pi →
  removeFromParent l w
  = (with_heap (alter (λ j, set_iChildren (drop_child (FID_String (iFID i)) (iChildren j)) j) p
       (heap (srv w))) w, Ok tt).
Proof.
  intros Hl Hp Hpi Hne Hin. unfold removeFromParent.
  erewrite bind_run by by apply run_deref. rewrite Hp.
  erewrite bind_run by by apply run_deref. rewrite decide_False by (by intros ?%FID_String_inj).
  erewrite bind_run by exact (run_assign w p _).
  assert (lists_child (FID_String (iFID i)) (iChildren pi) = true) as ->; [|done].
  unfold lists_child. apply existsb_exists. exists (iFID i). split; [by apply list_elem_of_In|].
  by apply bool_decide_eq_true.
Qed.

Lemma outbox_id w : set_outbox (outbox w) w = w.
Proof. by destruct w. Qed.

(** What the metaserver is told about the shares that go. *)
Definition unshare_calls (user : string) (snaps : list sharedDirSnapshot) : list MSCall :=
  snaps ≫= λ snap, (λ u, RootUnshareCall user (snapPath snap) u (Base (snapPath snap))) <$> snapUsers snap.
Definition sent_all w (cs : list MSCall) : list MSCall :=
  if decide (msAddr (srv w) = "") then outbox w else outbox w ++ cs.

Lemma notify_run w user snap :
  notify_unshare user snap w
  = (set_outbox (sent_all w (unshare_calls user [snap])) w, Ok tt).
Proof.
  unfold notify_unshare, unshare_calls. simpl. rewrite app_nil_r.
  generalize (snapUsers snap) as us. intros us. revert w.
  induction us as [|u us IH]; intros w; simpl.
  - unfold sent_all. case_decide; by rewrite ?app_nil_r, outbox_id.
  - erewrite bind_run by apply ignore_ms_call. rewrite IH.
    unfold sent_all, sent. simpl. destruct (decide _) as [Hm|Hm]; [done|].
    by rewrite <-app_assoc.
Qed.

Lemma notify_all_run w user snaps :
  for_each snaps (notify_unshare user) w
  = (set_outbox (sent_all w (unshare_calls user snaps)) w, Ok tt).
Proof.
  revert w. induction snaps as [|snap snaps IH]; intros w; simpl.
  - unfold sent_all. case_decide; by rewrite ?app_nil_r, outbox_id.
  - erewrite bind_run by apply notify_run. rewrite IH. unfold sent_all, unshare_calls. simpl.
    rewrite app_nil_r. destruct (decide _) as [Hm|Hm]; [done|]. by rewrite <-app_assoc.
Qed.

(** ** The whole call *)

Record deletable s (user : string) (rec : bool) l i : Prop := {
  dl_root : users s !! user ≠ Some (iFID i);
  dl_trash : ¬ named_trash s user i;
  dl_owns : owns_below s user l;
  dl_rec : rec = true ∨ iChildren i = [];
}.

Lemma deletable_parent R s user rec l i :
  server_wf R s → live s l i → deletable s user rec l i → ∃ p, iParent i = Some p ∧ p ≠ l.
Proof.
  intros Hwf Hl [Hr _ Ho _]. destruct (t_parent s (s_tree R s Hwf) l i Hl) as (p & pi & Hp & _).
  exists p. split; [done|]. intros ->. destruct (s_root R s Hwf l i Hl Hp) as (Hu & Hown & _).
  apply Hr. rewrite <-(Ho l i (below_refl _ _) Hl), Hown. done.
Qed.

(** The size of an inode at or above [p] once [k] bytes below it are gone. *)
Definition shrunk (k : Z) (i : Inode) : Inode := if 0 <? k then deduct k i else i.

Definition sized s (p : loc) (k : Z) (h : gmap loc Inode) : Prop :=
  (∀ x xi, live s x xi → below s x p → h !! x = Some (shrunk k xi))
  ∧ (∀ x, ¬ below s x p → h !! x = heap s !! x)
  ∧ ∀ x, set_iSize 0 <$> h !! x = set_iSize 0 <$> heap s !! x.

Lemma sizes_run w l i p :
  tree_wf (srv w) → live (srv w) l i → iParent i = Some p → p ≠ l →
  ∃ h, (if 0 <? iSize i then
          match iParent i with
          | Some p => n ← fuel; deduct_up n l p (iSize i)
          | None => mret tt
          end
        else mret tt) w = (with_heap h w, Ok tt) ∧ sized (srv w) p (iSize i) h.
Proof.
  intros Hwf Hl Hp Hne. destruct (t_parent _ Hwf l i Hl) as (q & pi & Hq & Hpl & _).
  rewrite Hp in Hq. injection Hq as <-. unfold sized, shrunk. destruct (0 <? iSize i).
  - rewrite Hp. destruct (bounded_rank _ Hwf) as [rank Hr].
    erewrite bind_run by apply run_fuel.
    destruct (deduct_up_run rank (fuel_of (srv w)) w l p pi (iSize i)) as (h & Hrun & Hd); try done.
    + pose proof (proj1 Hr p pi Hpl). unfold fuel_of. lia.
    + apply (proj2 Hr l i p Hl Hp Hne).
    + by exists h.
  - exists (heap (srv w)). rewrite with_heap_id. split; [done|]. split_and!; try done.
    intros x xi [_ Hx] _. done.
Qed.

Lemma sized_shape R w p k h :
  sized (srv w) p k h → server_wf R (srv w) → server_wf R (srv (with_heap h w)).
Proof.
  intros (_ & _ & Hh) Hwf. apply server_wf_shape; [|done]. intros x. specialize (Hh x).
  destruct (h !! x) as [i|], (heap (srv w) !! x) as [j|]; try done. simpl in *.
  apply (inj Some) in Hh. f_equal. change (shape (set_iSize 0 i) = shape (set_iSize 0 j)).
  by rewrite Hh.
Qed.

Lemma sized_skel w p k h : sized (srv w) p k h → same_skel (srv w) (srv (with_heap h w)).
Proof. intros (_ & _ & Hh). apply refreshed_skel. by exists h. Qed.

Lemma size_free_eq i j :
  set_iSize 0 i = set_iSize 0 j →
  iFID i = iFID j ∧ iType i = iType j ∧ iName i = iName j ∧ iOSPath i = iOSPath j
  ∧ iParent i = iParent j ∧ iChildren i = iChildren j ∧ bare i = bare j.
Proof. destruct i, j; simpl. intros [= -> -> -> -> -> -> ->]. done. Qed.

(** The live inodes with their new sizes, and no other. *)
Lemma sized_live w p k h :
  sized (srv w) p k h →
  (∀ x xi, live (srv w) x xi → ∃ xi', live (srv (with_heap h w)) x xi'
     ∧ set_iSize 0 xi' = set_iSize 0 xi
     ∧ (below (srv w) x p → iSize xi' = iSize (shrunk k xi))
     ∧ (¬ below (srv w) x p → iSize xi' = iSize xi))
  ∧ ∀ x xi', live (srv (with_heap h w)) x xi' → ∃ xi, live (srv w) x xi.
Proof.
  intros (Hin & Hout & Hsame). split.
  - intros x xi Hx. pose proof (Hsame x) as Hs. rewrite (proj2 Hx) in Hs.
    destruct (h !! x) as [xi'|] eqn:Hxi'; [|done]. apply (inj Some) in Hs. exists xi'.
    assert (iFID xi' = iFID xi) as Hf by (by apply size_free_eq in Hs as (?&_)).
    split_and!; try done.
    + split; [rewrite Hf; apply Hx|done].
    + intros Hb. pose proof (Hin x xi Hx Hb) as Hh. rewrite Hxi' in Hh. by injection Hh as ->.
    + intros Hb. pose proof (Hout x Hb) as Hh. rewrite Hxi', (proj2 Hx) in Hh. by injection Hh as ->.
  - intros x xi' [Hk Hx]. simpl in *. pose proof (Hsame x) as Hs. rewrite Hx in Hs.
    destruct (heap (srv w) !! x) as [xi|] eqn:Hxi; [|done]. apply (inj Some) in Hs. exists xi.
    apply size_free_eq in Hs as (Hf&_). split; [by rewrite <-Hf|done].
Qed.

(** Every live inode can be forgotten. *)
Lemma live_forgettable R s x xi : server_wf R s → live s x xi → forgettable R s x.
Proof.
  intros Hwf Hx. destruct (live_path R s Hwf x xi Hx) as [ns Hns]. exists xi, ns.
  split_and!; [apply Hx|done| |].
  - intros k Hk. destruct (t_key s (s_tree R s Hwf) k x Hk) as (xj & Hxj & ->).
    by rewrite (live_fun s x xj xi Hxj Hx).
  - intros y Hy. destruct Hx as [Hk _]. congruence.
Qed.

(** The state after the deletion of [l], whose parent is [p], at the path [ns]. *)
Record deleted (R : list string) w (user : string) l p (key : string) (ns : list string) (k : Z) w' :
    Prop := {
  d_wf : server_wf R (srv w');
  d_users : users (srv w') = users (srv w);
  d_kept x xi : live (srv w) x xi → ¬ below (srv w) l x →
    ∃ xi', live (srv w') x xi' ∧ bare xi' = bare xi
      ∧ iChildren xi' = kept_children p key x (iChildren xi)
      ∧ (below (srv w) x p → iSize xi' = iSize (shrunk k xi))
      ∧ (¬ below (srv w) x p → iSize xi' = iSize xi);
  d_only x xi' : live (srv w') x xi' → ∃ xi, live (srv w) x xi ∧ ¬ below (srv w) l x;
  d_trash x xi : live (srv w) x xi → below (srv w) l x →
    trashMeta (srv w') !! FID_String (iFID xi) = None;
  d_trash_kept q : (∀ x xi, live (srv w) x xi → below (srv w) l x → FID_String (iFID xi) ≠ q) →
    trashMeta (srv w') !! q = trashMeta (srv w) !! q;
  d_index x xi ms st' : live (srv w) x xi → below (srv w) l x → at_path R ms xi →
    inodeStore (srv w') = Some st' → Get (rel_path ms) st' = None;
  d_next st st' : inodeStore (srv w) = Some st → inodeStore (srv w') = Some st' →
    NextInodeID (isData st') = NextInodeID (isData st);
  d_shares : shares_without (Shared (srv w)) (rel_path ns) (Shared (srv w'));
  d_outbox : outbox w' = sent_all w (unshare_calls user (collectSharedSnapshots (srv w) (rel_path ns)));
}.

(** The steps after the disk: from the sizes to the metaserver. *)
Definition delete_commit (l : loc) (i : Inode) (user : string) (toDelete : list loc) :
    M (Server D) unit :=
  (if 0 <? iSize i then
     match iParent i with
     | Some p => n ← fuel; deduct_up n l p (iSize i)
     | None => mret tt
     end
   else mret tt) ;;
  for_each toDelete forget_inode ;;
  store_Save ;;
  target ← rel (iOSPath i);
  let targetRelPath := default "" target in
  snaps ← gsrv (λ s, collectSharedSnapshots s targetRelPath);
  usrv (λ s, set_dirShares (foldl (λ m snap, delete (snapPath snap) m) (Shared s) snaps) s) ;;
  (if decide (snaps ≠ []) then ignore SaveDirShares else mret tt) ;;
  ignore (removeFromParent l) ;;
  for_each snaps (notify_unshare user).

Lemma ignore_ok {A} (m : M (Server D) A) w w' a : m w = (w', Ok a) → ignore m w = (w', Ok tt).
Proof. unfold ignore. by intros ->. Qed.
Lemma rel_known w q t : Rel (rootDir (srv w)) q = Some t → rel q w = (w, Ok (Some t)).
Proof. unfold rel, gsrv, gets. by intros ->. Qed.
Lemma gsrv_known {A} w (g : FileServer → A) a : g (srv w) = a → gsrv g w = (w, Ok a).
Proof. unfold gsrv, gets. by intros ->. Qed.

Definition unlink (key : string) (i : Inode) : Inode :=
  set_iChildren (drop_child key (iChildren i)) i.

Lemma delete_commit_state R w user l i p ns L :
  server_wf R (srv w) → live (srv w) l i → iParent i = Some p → p ≠ l → at_path R ns i →
  (∀ x, x ∈ L ↔ below (srv w) l x) →
  ∃ h s3 m' w', delete_commit l i user L w = (w', Ok tt)
    ∧ sized (srv w) p (iSize i) h ∧ forgotten R (srv (with_heap h w)) L s3
    ∧ shares_without (Shared (srv w)) (rel_path ns) m'
    ∧ srv w' = set_heap (alter (unlink (FID_String (iFID i))) p h) (set_dirShares m' s3)
    ∧ outbox w' = sent_all w (unshare_calls user (collectSharedSnapshots (srv w) (rel_path ns))).
Proof.
  intros Hwf Hl Hp Hne Hns HL. pose proof (s_tree R _ Hwf) as Ht.
  destruct (s_dir R _ Hwf) as (Hdir & HRne & HR).
  destruct (sizes_run w l i p Ht Hl Hp Hne) as (h & Hrun1 & Hsz).
  pose proof (sized_shape R w p _ h Hsz Hwf) as Hwf1. pose proof (sized_skel w p _ h Hsz) as Hsk.
  set (w1 := with_heap h w) in *.
  destruct (forget_all_run R w1 L) as (s3 & Hrun2 & Hfo); [done|done| |].
  { intros x [xi Hx]%HL%(below_live _ _ _ i). 2: done.
    destruct (live_skel _ _ _ _ Hsk Hx) as (xi' & Hx' & _). by apply (live_forgettable R _ x xi'). }
  destruct (store_Save_run (set_srv s3 w1)) as [d Hrun3].
  assert (heap s3 = h) as Hh3 by apply (fo_heap _ _ _ _ Hfo).
  assert (Shared s3 = Shared (srv w)) as Hsh3 by apply (fo_shared _ _ _ _ Hfo).
  assert (msAddr s3 = msAddr (srv w)) as Hms3 by apply (fo_ms _ _ _ _ Hfo).
  assert (Rel (rootDir s3) (iOSPath i) = Some (rel_path ns)) as Hrel.
  { assert (rootDir s3 = rootDir (srv w)) as -> by apply (fo_dir _ _ _ _ Hfo).
    by apply (Rel_at_path R _ Hwf). }
  assert (rel_path ns ≠ "") as Hnil.
  { destruct Hns as (Hn & Hok%names_comp_ok & _). destruct ns as [|n ns]; [done|].
    inversion_clear Hok as [|?? (Hn0&_) _]. by destruct n, ns. }
  assert (collectSharedSnapshots s3 (rel_path ns) = collectSharedSnapshots (srv w) (rel_path ns)) as Hsn.
  { unfold collectSharedSnapshots. by rewrite Hsh3. }
  set (snaps := collectSharedSnapshots (srv w) (rel_path ns)) in *.
  set (m' := foldl (λ m snap, delete (snapPath snap) m) (Shared s3) snaps).
  set (w4 := set_srv (set_dirShares m' s3) (set_disk d w1)).
  assert (∃ d', (if decide (snaps ≠ []) then ignore SaveDirShares else mret tt) w4
                = (set_disk d' w4, Ok tt)) as [d' Hrun4].
  { case_decide; [apply ignore_disk, SaveDirShares_disk|]. exists (disk w4). by rewrite set_disk_id. }
  destruct (live_skel _ _ _ _ Hsk Hl) as (i1 & Hl1 & (Hf1&_&_&_&Hp1&_)%skel_eq).
  destruct (t_parent _ Ht l i Hl) as (q & pi & Hq & Hpl & Hin). rewrite Hp in Hq. injection Hq as <-.
  destruct (live_skel _ _ _ _ Hsk Hpl) as (pi1 & Hpl1 & (Hpf1&_&_&Hpc1&_)%skel_eq).
  exists h, s3, m'. eexists. split_and!.
  - unfold delete_commit. erewrite bind_run by exact Hrun1. erewrite bind_run by exact Hrun2.
    erewrite bind_run by exact Hrun3.
    erewrite bind_run by (by apply (rel_known _ _ (rel_path ns))).
    cbv zeta. change (default "" (Some (rel_path ns))) with (rel_path ns).
    erewrite bind_run by (by apply (gsrv_known _ _ snaps)).
    erewrite bind_run by done. 
    change (set_srv _ (set_disk d (set_srv s3 w1))) with w4.
    erewrite bind_run by exact Hrun4. erewrite bind_run; [apply notify_all_run|].
    apply (ignore_ok _ _ _ tt), (removeFromParent_run _ l i1 p pi1).
    + simpl. rewrite Hh3. apply Hl1.
    + congruence.
    + simpl. rewrite Hh3. apply Hpl1.
    + rewrite Hpf1, Hf1. intros Heq. by apply Hne, (live_loc_fun _ _ _ _ _ Hpl Hl).
    + rewrite Hpc1, Hf1. by destruct Hin.
  - done.
  - done.
  - unfold m'. rewrite Hsh3. by apply drop_shares.
  - simpl. by rewrite Hh3, Hf1.
  - unfold sent_all. simpl. by rewrite Hms3.
Qed.

Lemma keys_in R s L x xi :
  server_wf R s → (∀ x, x ∈ L → ∃ xi, live s x xi) → live s x xi →
  FID_String (iFID xi) ∈ keys_of s L ↔ x ∈ L.
Proof.
  intros Hwf HL Hx. unfold keys_of. rewrite list_elem_of_omap. split.
  - intros (y & Hy & Hk). destruct (HL y Hy) as [yi Hyi]. rewrite (proj2 Hyi) in Hk. simpl in Hk.
    injection Hk as Hk%FID_String_inj. by rewrite <-(live_loc_fun s y x yi xi Hyi Hx Hk).
  - intros Hin. exists x. split; [done|]. by rewrite (proj2 Hx).
Qed.

Lemma rels_in R s L x xi ns :
  server_wf R s → (∀ x, x ∈ L → ∃ xi, live s x xi) → live s x xi → at_path R ns xi →
  rel_path ns ∈ rels_of s L ↔ x ∈ L.
Proof.
  intros Hwf HL Hx Hns. unfold rels_of. rewrite list_elem_of_omap. split.
  - intros (y & Hy & Hk). destruct (HL y Hy) as [yi Hyi]. rewrite (proj2 Hyi) in Hk. simpl in Hk.
    destruct (live_path R s Hwf y yi Hyi) as [ms Hms]. rewrite (Rel_at_path R s Hwf yi ms Hms) in Hk.
    injection Hk as Hk. destruct Hns as (Hn & Hno & Hnp), Hms as (Hm & Hmo & Hmp).
    apply SJoin_names_inj in Hk as ->; try done.
    assert (y = x) as ->; [|done]. by apply (at_path_inj R s Hwf y yi x xi ns).
  - intros Hin. exists x. split; [done|]. rewrite (proj2 Hx). simpl. by apply (Rel_at_path R s Hwf).
Qed.

(** The subtree is pruned from the server with the new sizes. *)
Lemma commit_pruned R s l i p L s3 s' :
  server_wf R s → live s l i → iParent i = Some p → p ≠ l →
  (∀ x, x ∈ L ↔ below s l x) → forgotten R s L s3 →
  inodes s' = inodes s3 → users s' = users s3 → rootDir s' = rootDir s3 →
  serverID s' = serverID s3 → heap s' = alter (unlink (FID_String (iFID i))) p (heap s3) →
  pruned s s' l p (FID_String (iFID i)).
Proof.
  intros Hwf Hl Hp Hne HL Hfo Hi Hu Hd Hid Hh. split.
  - by rewrite Hu, (fo_users _ _ _ _ Hfo).
  - by rewrite Hd, (fo_dir _ _ _ _ Hfo).
  - by rewrite Hid, (fo_id _ _ _ _ Hfo).
  - intros k x. by rewrite Hi, (fo_inodes _ _ _ _ Hfo), HL.
  - intros x xi [_ Hx] Hb. rewrite Hh, (fo_heap _ _ _ _ Hfo). unfold kept_children.
    case_decide as Hxp; [subst x|].
    + exists (unlink (FID_String (iFID i)) xi). rewrite lookup_alter_eq, Hx. by split_and!.
    + exists xi. by rewrite lookup_alter_ne.
Qed.

(** The invariant, the index and the trash records after the commit. *)
Lemma commit_index R s l i p L s3 s' :
  server_wf R s → live s l i → iParent i = Some p → p ≠ l →
  (∀ x, x ∈ L ↔ below s l x) → forgotten R s L s3 → pruned s s' l p (FID_String (iFID i)) →
  inodeStore s' = inodeStore s3 →
  server_wf R s'
  ∧ (∀ x xi ms st', live s x xi → below s l x → at_path R ms xi → inodeStore s' = Some st' →
       Get (rel_path ms) st' = None)
  ∧ ∀ st st', inodeStore s = Some st → inodeStore s' = Some st' →
      NextInodeID (isData st') = NextInodeID (isData st).
Proof.
  intros Hwf Hl Hp Hne HL Hfo Hpr Hix.
  assert (∀ x, x ∈ L → ∃ xi, live s x xi) as HLl by (intros x Hx%HL; by eapply below_live).
  destruct (s_index R s Hwf) as (st & Hst & Hwi & Hg).
  destruct (fo_index _ _ _ _ Hfo st Hst Hwi) as (st' & Hst' & Hwi' & Hnext & Hget).
  rewrite Hix. split_and!.
  - apply (prune_wf R s s' Hwf l p i Hl Hp Hne Hpr st'); [congruence|done|].
    intros x xi ns Hx Hb (Hn & Ho & Hpath). rewrite Hget, decide_False; try done.
    + apply (Hg x xi ns Hx). done.
    + rewrite (rels_in R s L x xi ns), HL; done.
  - intros x xi ms st2 Hx Hb Hms Hst2. assert (st2 = st') as -> by congruence.
    destruct Hms as (Hn & Ho & Hpath). rewrite Hget, decide_True; try done.
    rewrite (rels_in R s L x xi ms), HL; done.
  - intros st1 st2 Hst1 Hst2. congruence.
Qed.

Lemma delete_commit_run R w user l i p ns L :
  server_wf R (srv w) → live (srv w) l i → iParent i = Some p → p ≠ l → at_path R ns i →
  (∀ x, x ∈ L ↔ below (srv w) l x) →
  ∃ w', delete_commit l i user L w = (w', Ok tt)
        ∧ deleted R w user l p (FID_String (iFID i)) ns (iSize i) w'.
Proof.
  intros Hwf Hl Hp Hne Hns HL.
  destruct (delete_commit_state R w user l i p ns L Hwf Hl Hp Hne Hns HL)
    as (h & s3 & m' & w' & Hrun & Hsz & Hfo & Hsh & Hsrv & Hout).
  exists w'. split; [exact Hrun|].
  pose proof (sized_shape R w p _ h Hsz Hwf) as Hwf1. pose proof (sized_skel w p _ h Hsz) as Hsk.
  destruct (sized_live w p _ h Hsz) as [Hfwd Hbwd]. set (s1 := srv (with_heap h w)) in *.
  assert (∀ x, below (srv w) l x ↔ below s1 l x) as Hbel by (intros; by apply below_skel_iff).
  destruct (Hfwd l i Hl) as (i1 & Hl1 & Heq1 & _). apply size_free_eq in Heq1 as (Hf1&_&_&Hpa1&Hp1&_).
  assert (pruned s1 (srv w') l p (FID_String (iFID i1))) as Hpr.
  { apply (commit_pruned R s1 l i1 p L s3); try (by rewrite Hsrv); try congruence.
    - intros x. by rewrite HL.
    - rewrite Hsrv. simpl. by rewrite (fo_heap _ _ _ _ Hfo), Hf1. }
  destruct (commit_index R s1 l i1 p L s3 (srv w')) as (Hwf' & Hidx & Hnext); try congruence.
  { intros x. by rewrite HL. } { by rewrite Hsrv. }
  assert (∀ x, x ∈ L → ∃ xi, live s1 x xi) as HLl.
  { intros x Hx%HL%Hbel. by eapply below_live. }
  split; try done.
  - by rewrite Hsrv; simpl; rewrite (fo_users _ _ _ _ Hfo).
  - intros x xi Hx Hb. destruct (Hfwd x xi Hx) as (xj & Hxj & Heq & Hs1 & Hs2).
    destruct (prune_keep s1 (srv w') l p i1 Hpr x xj) as (xk & Hxk & Hbare & Hch).
    { done. } { by rewrite <-Hbel. }
    assert (iSize xk = iSize xj) as Hsize.
    { destruct Hxk as [_ Hk], Hxj as [_ Hj]. rewrite Hsrv in Hk. simpl in Hk, Hj.
      destruct (decide (x = p)) as [->|Hxp].
      - rewrite lookup_alter_eq, Hj in Hk. by injection Hk as <-.
      - rewrite lookup_alter_ne in Hk by done. congruence. }
    apply size_free_eq in Heq as (_&_&_&_&_&Hcj&Hbj).
    exists xk. rewrite Hsize, Hbare, Hch, Hcj, Hf1. by split_and!.
  - intros x xi' Hx. destruct (prune_live R s1 (srv w') Hwf1 l p i1 Hpr x xi' Hx) as (xj & Hxj & Hb & _).
    destruct (Hbwd x xj Hxj) as [xi Hxi]. exists xi. by rewrite Hbel.
  - intros x xi Hx Hb. destruct (Hfwd x xi Hx) as (xj & Hxj & Heq & _).
    apply size_free_eq in Heq as (<-&_). rewrite Hsrv. simpl. rewrite (fo_trash _ _ _ _ Hfo).
    rewrite decide_True; [done|]. apply (keys_in R s1 L x xj Hwf1 HLl Hxj). by rewrite HL.
  - intros q Hq. rewrite Hsrv. simpl. rewrite (fo_trash _ _ _ _ Hfo). rewrite decide_False; [done|].
    intros Hin. apply list_elem_of_omap in Hin as (x & Hx & Hk). destruct (HLl x Hx) as [xj Hxj].
    rewrite (proj2 Hxj) in Hk. simpl in Hk. injection Hk as Hk. destruct (Hbwd x xj Hxj) as [xi Hxi].
    destruct (Hfwd x xi Hxi) as (xj' & Hxj' & Heq & _). apply size_free_eq in Heq as (Heq&_).
    rewrite (live_fun _ _ _ _ Hxj' Hxj) in Heq. apply (Hq x xi Hxi); [by apply HL|congruence].
  - intros x xi ms st' Hx Hb (Hm1&Hm2&Hm3) Hst'. destruct (Hfwd x xi Hx) as (xj & Hxj & Heq & _).
    apply size_free_eq in Heq as (_&_&_&Hpa&_).
    apply (Hidx x xj ms st' Hxj); [by apply Hbel| |done]. split_and!; [done|done|congruence].
  - rewrite Hsrv. exact Hsh.
Qed.

Lemma refreshed_srv w w' :
  refreshed w w' → users (srv w') = users (srv w) ∧ outbox w' = outbox w ∧ disk w' = disk w
  ∧ Shared (srv w') = Shared (srv w) ∧ msAddr (srv w') = msAddr (srv w)
  ∧ trashMeta (srv w') = trashMeta (srv w) ∧ inodeStore (srv w') = inodeStore (srv w)
  ∧ rootDir (srv w') = rootDir (srv w).
Proof. intros (h & -> & _). by split_and!. Qed.

Lemma deletable_refreshed w w1 user rec l i i1 :
  refreshed w w1 → tree_wf (srv w) → live (srv w) l i → live (srv w1) l i1 →
  set_iSize 0 i1 = set_iSize 0 i →
  deletable (srv w) user rec l i ↔
  users (srv w1) !! user ≠ Some (iFID i1) ∧ ¬ named_trash (srv w1) user i1
  ∧ owns_below (srv w1) user l ∧ (rec = true ∨ iChildren i1 = []).
Proof.
  intros Href Hwf Hl Hl1 Heq. pose proof (refreshed_skel _ _ Href) as Hsk.
  destruct (refreshed_srv _ _ Href) as (Hu & _). apply size_free_eq in Heq as (Hf&_&Hn&_&Hp&Hc&_).
  rewrite Hu, Hf, Hc.
  assert (named_trash (srv w1) user i1 ↔ named_trash (srv w) user i) as ->.
  { unfold named_trash. rewrite Hu, Hn, Hp. split; intros (? & r & ri & Hur & Hr & ?); split; try done.
    - destruct (live_skel _ _ _ _ (symmetry Hsk) Hr) as (rj & Hrj & (Hrf&_)%skel_eq).
      exists r, rj. by rewrite Hrf.
    - destruct (live_skel _ _ _ _ Hsk Hr) as (rj & Hrj & (Hrf&_)%skel_eq).
      exists r, rj. by rewrite Hrf. }
  assert (owns_below (srv w1) user l ↔ owns_below (srv w) user l) as ->.
  { split; intros Ho x xi Hb Hx.
    - destruct (live_skel _ _ _ _ Hsk Hx) as (xj & Hxj & (_&_&_&_&_&<-)%skel_eq).
      apply (Ho x xj); [by apply (below_skel _ _ _ _ Hsk)|done].
    - destruct (live_skel _ _ _ _ (symmetry Hsk) Hx) as (xj & Hxj & (_&_&_&_&_&<-)%skel_eq).
      apply (Ho x xj); [by apply (below_skel_iff _ _ _ _ Hsk)|done]. }
  split; [by intros []|]. intros (?&?&?&?). by split.
Qed.

Lemma collect_all_run w l i :
  tree_wf (srv w) → live (srv w) l i →
  ∃ L, (below ← (if decide (iType i = InodeTypeDirectory ∧ iChildren i ≠ [])
                 then collectInodesToDelete l else mret []); mret (below ++ [l])) w = (w, Ok (L ++ [l]))
       ∧ (if decide (iType i = InodeTypeDirectory ∧ iChildren i ≠ [])
          then collectInodesToDelete l else mret []) w = (w, Ok L)
       ∧ ∀ x, x ∈ L ++ [l] ↔ below (srv w) l x.
Proof.
  intros Hwf Hl. case_decide as Hd.
  - destruct (collectInodesToDelete_run w l i Hwf Hl) as (L & Hrun & HL). exists L.
    split_and!; [by erewrite bind_run|done|]. intros x.
    rewrite elem_of_app, HL, list_elem_of_singleton.
    destruct (decide (x = l)) as [->|]; split; try tauto. intros _. constructor.
  - exists []. split_and!; [done|done|]. intros x. cbn [app]. rewrite list_elem_of_singleton. split.
    + intros ->. constructor.
    + intros [->|(c & ci & _ & Hin & _)]%(below_inv _ l i); try done.
      destruct (t_child _ Hwf l i _ Hl Hin) as [? _]. destruct Hd. split; [done|].
      intros Hnil. rewrite Hnil in Hin. by apply elem_of_nil in Hin.
Qed.

Lemma refreshed_live w w1 x xi :
  refreshed w w1 → live (srv w) x xi →
  ∃ xj, live (srv w1) x xj ∧ set_iSize 0 xj = set_iSize 0 xi.
Proof.
  intros (h & -> & Hh) [Hk Hx]. specialize (Hh x). rewrite Hx in Hh.
  destruct (h !! x) as [xj|] eqn:Hxj; [|done]. apply (inj Some) in Hh. exists xj.
  split; [|done]. apply size_free_eq in Hh as (Hf&_). split; [by rewrite Hf|done].
Qed.

(** The lookup before a deletion changes no inode that stays. *)
Lemma deleted_back R w w1 d user l p key ns k w' :
  refreshed w w1 → (∀ x, x ≠ l → heap (srv w1) !! x = heap (srv w) !! x) →
  deleted R (set_disk d w1) user l p key ns k w' → deleted R w user l p key ns k w'.
Proof.
  intros Href Hother [D1 D2 D3 D4 D5 D6 D7 D8 D9 D10]. pose proof (refreshed_skel _ _ Href) as Hsk.
  destruct (refreshed_srv _ _ Href) as (Hu & Ho & Hd & Hsh & Hms & Htr & Hix & Hrd). simpl in *.
  assert (∀ a x, below (srv w1) a x ↔ below (srv w) a x) as Hb.
  { intros a x. symmetry. by apply below_skel_iff. }
  split; try done.
  - congruence.
  - intros x xi Hx Hbx. destruct (D3 x xi) as (xi' & ?&?&?&?&?); [|by rewrite Hb|].
    + destruct Hx as [Hk Hh]. split; [by rewrite (proj1 Hsk)|]. rewrite Hother; [done|].
      intros ->. apply Hbx. constructor.
    + rewrite Hb in *. by exists xi'.
  - intros x xi' Hx. destruct (D4 x xi' Hx) as (xj & Hxj & Hbx). rewrite Hb in Hbx.
    destruct (live_skel _ _ _ _ (symmetry Hsk) Hxj) as (xi & Hxi & _). by exists xi.
  - intros x xi Hx Hbx. destruct (refreshed_live _ _ _ _ Href Hx) as (xj & Hxj & (<-&_)%size_free_eq).
    apply (D5 x xj Hxj). by rewrite Hb.
  - intros q Hq. rewrite D6, Htr; [done|]. intros x xj Hxj Hbx.
    destruct (live_skel _ _ _ _ (symmetry Hsk) Hxj) as (xi & Hxi & (<-&_)%skel_eq).
    apply (Hq x xi Hxi). by rewrite <-Hb.
  - intros x xi ms st' Hx Hbx Hms'. destruct (refreshed_live _ _ _ _ Href Hx)
      as (xj & Hxj & (_&_&_&Hpa&_)%size_free_eq).
    apply (D7 x xj ms st' Hxj); [by rewrite Hb|]. unfold at_path in *. by rewrite Hpa.
  - intros st st'. rewrite <-Hix. apply D8.
  - by rewrite <-Hsh.
  - rewrite D10. unfold sent_all. simpl. rewrite Hms, Ho.
    assert (collectSharedSnapshots (srv w1) (rel_path ns) = collectSharedSnapshots (srv w) (rel_path ns))
      as ->; [|done]. unfold collectSharedSnapshots. by rewrite Hsh.
Qed.

Lemma DeleteFile_wp R w user rec l i :
  server_wf R (srv w) → live (srv w) l i →
  wp (DeleteFile (Some (iFID i)) user rec)
    (λ _ w', deletable (srv w) user rec l i
       ∧ ∃ p ns k, iParent i = Some p ∧ p ≠ l ∧ at_path R ns i ∧ (iType i = InodeTypeDirectory → k = iSize i)
                   ∧ deleted R w user l p (FID_String (iFID i)) ns k w')
    (λ _ w', ∃ d w1, refreshed w w1 ∧ w' = set_disk d w1
                     ∧ (d = disk w ∨ deletable (srv w) user rec l i)) w.
Proof.
  intros Hwf Hl. unfold DeleteFile. eapply wp_run; [done|].
  destruct (GetInode_run w (iFID i) l i Hl eq_refl)
    as (w1 & i1 & Hget & Href & Hl1 & Heq & Hother & Hdir).
  eapply wp_run; [unfold catch; by rewrite Hget|]. cbv beta iota.
  pose proof (refreshed_wf _ _ _ Href Hwf) as Hwf1. pose proof (s_tree R _ Hwf1) as Ht1.
  pose proof (deletable_refreshed w w1 user rec l i i1 Href (s_tree R _ Hwf) Hl Hl1 Heq) as Hdel.
  destruct (refreshed_srv _ _ Href) as (Hu & Ho & Hd & Hsh & Hms & Htr & Hix & Hrd).
  apply size_free_eq in Heq as (Hf & Hty & Hn & Hpath & Hpar & Hch & Hbare).
  assert (∃ d w2, refreshed w w2 ∧ w1 = set_disk d w2
            ∧ (d = disk w ∨ deletable (srv w) user rec l i)) as Hsame.
  { exists (disk w), w1. split_and!; [done| |by left]. rewrite <-Hd. by rewrite set_disk_id. }
  eapply wp_run; [done|]. case_decide as Hroot; [by apply wp_throw|].
  assert (users (srv w1) !! user ≠ Some (iFID i1)) as Hnr.
  { intros Hur. apply Hroot. by rewrite Hur, Hf. }
  destruct (isTrashDir_run w1 user l i1 R Hwf1 Hl1) as (b & Hrun & Hb).
  eapply wp_run; [exact Hrun|]. destruct b; [by apply wp_throw|].
  assert (¬ named_trash (srv w1) user i1) as Hnt by (intros Hx; by apply Hb in Hx).
  apply wp_bind. eapply wp_mono; [by apply (validateDelete_wp w1 l i1)| |].
  2:{ intros e w' [-> _]. exact Hsame. }
  intros _ w' [-> Hown]. assert (deletable (srv w) user rec l i) as Hdl by by apply Hdel.
  eapply wp_run; [by apply run_deref_live|].
  destruct (collect_all_run w1 l i1 Ht1 Hl1) as (L & _ & Hrun2 & HL).
  eapply wp_run; [exact Hrun2|]. cbv zeta.
  destruct (deletable_parent R _ user rec l i Hwf Hl Hdl) as (p & Hp & Hne).
  destruct (live_path R _ Hwf1 l i1 Hl1) as [ns Hns].
  apply wp_bind. eapply wp_mono; [apply remove_on_disk_wp| |].
  { intros x [xi [_ Hx]]%HL%(below_live _ _ _ i1); [by exists xi|done]. }
  2:{ intros e w' [d ->]. exists d, w1. split_and!; auto. }
  intros _ w' [d ->].
  destruct (delete_commit_run R (set_disk d w1) user l i1 p ns (L ++ [l])) as (w2 & Hrun3 & Hdone);
    try done; [congruence|].
  match goal with |- wp ?m ?Q ?E ?v => change (wp (delete_commit l i1 user (L ++ [l])) Q E v) end.
  unfold wp. rewrite Hrun3. split; [done|]. exists p, ns, (iSize i1). split_and!; try done.
  { unfold at_path in *. by rewrite <-Hpath. } { intros Hdt. by destruct (Hdir Hdt) as [_ ->]. }
  rewrite <-Hf. by apply (deleted_back R w w1 d).
Qed.

(** C7. [DeleteFile] never panics on an inode that exists.  It succeeds only for an
    inode that is neither the root nor the trash of the user, whose whole subtree
    the user owns, and that is empty unless the call is recursive.  It then removes
    exactly that subtree: the inodes not below stay as they were, but for the entry
    in the list of the parent and the sizes above it; the trash records, index
    entries and shares of the subtree go, ids are not given back, the metaserver is
    told of every share that went, and the invariant of the server holds.  A call
    that fails leaves the server as it was, and one that is refused the disk too. *)
Theorem DeleteFile_exact R w user rec l i :
  server_wf R (srv w) → live (srv w) l i →
  let '(w', r) := DeleteFile (Some (iFID i)) user rec w in
  match r with
  | Ok _ => deletable (srv w) user rec l i
      ∧ ∃ p ns k, iParent i = Some p ∧ p ≠ l ∧ at_path R ns i
          ∧ (iType i = InodeTypeDirectory → k = iSize i)
          ∧ deleted R w user l p (FID_String (iFID i)) ns k w'
  | Err _ => ∃ d w1, refreshed w w1 ∧ w' = set_disk d w1
                     ∧ (d = disk w ∨ deletable (srv w) user rec l i)
  | Panic _ => False
  end.
Proof.
  intros Hwf Hl. pose proof (DeleteFile_wp R w user rec l i Hwf Hl) as Hwp. unfold wp in Hwp.
  by destruct (DeleteFile _ _ _ _) as [w' [[]|e|m]].
Qed.
End delete.

Lemma DeleteFile_exact_witness :
  server_wf ["srv"] (srv demo) ∧ live (srv demo) doc_loc doc_inode
  ∧ ∃ w' p ns k, DeleteFile (Some doc_fid) "ann" true demo = (w', Ok tt)
                 ∧ deleted ["srv"] demo "ann" doc_loc p (FID_String doc_fid) ns k w'.
Proof.
  split; [exact demo_server_wf|]. split; [exact demo_doc_live|].
  pose proof (DeleteFile_exact ["srv"] demo "ann" true doc_loc doc_inode demo_server_wf
                demo_doc_live) as Hd.
  assert ((DeleteFile (Some (iFID doc_inode)) "ann" true demo).2 = Ok tt) as Hr
    by (vm_compute; reflexivity).
  destruct (DeleteFile (Some (iFID doc_inode)) "ann" true demo) as [w' r] eqn:Hrun.
  simpl in Hr. subst r. destruct Hd as (_ & p & ns & k & _ & _ & _ & _ & Hdel).
  exists w', p, ns, k. split; [exact Hrun|exact Hdel].
Defined.
