(* ===== verification/TrashSpec.v ===== *)
(** * Trashing and restoring move a subtree

    [TrashFile] and [RestoreFile]: what they refuse, where the subtree goes, that
    the ids, the trash records and the shares follow it, that the invariant of the
    server survives, and that a restore undoes a trash. *)
From S2P Require Import FileServer Persist Tree TreeWf TreeRun Frames Invariant Removal Move.
From S2P Require Import Share Trash FileOps Grow Demo DeleteSpec.

Implicit Types (s : FileServer) (l p t x : loc) (i j : Inode) (f : FID).

Section trash.
Context {D : Type} `{Env D}.
Implicit Types (w : Server D).

(** ** Relinking *)

Section relink.
Context (R : list string) (w : Server D) (Hwf : server_wf R (srv w)).
Context (l p t : loc) (i ti : Inode) (n newPath : string).
Context (Hl : live (srv w) l i) (Hp : iParent i = Some p) (Hpl : p ≠ l).
Context (Hti : live (srv w) t ti) (Htd : iType ti = InodeTypeDirectory).
Context (Htb : ¬ below (srv w) l t) (Htp : t ≠ p).

(** The heap before the paths are rewritten. *)
Definition relink_heap : gmap loc Inode :=
  alter (λ j, set_iChildren (iChildren j ++ [iFID i]) j) t
    (alter (set_iName n) l
       (alter (λ j, set_iParent (Some t) j) l
          (alter (unlink (FID_String (iFID i))) p (heap (srv w))))).

Lemma relink_tl : t ≠ l.
Proof. intros ->. apply Htb. constructor. Qed.

Lemma relink_moved : moved (λ _ xi xi', iOSPath xi' = iOSPath xi)
  (srv w) (set_heap relink_heap (srv w)) l p t (iFID i) n.
Proof.
  pose proof relink_tl as Htl. split; try done. intros x xi [Hk Hx]. unfold relink_heap, moved_children. simpl.
  destruct (decide (x = t)) as [->|Hxt].
  - rewrite lookup_alter_eq, !lookup_alter_ne by done. rewrite Hx. simpl. eexists. split; [done|].
    rewrite !(decide_False (P := t = _)) by done. by split_and!.
  - rewrite lookup_alter_ne by done. destruct (decide (x = l)) as [->|Hxl].
    + rewrite !lookup_alter_eq, lookup_alter_ne by done. rewrite Hx. simpl. eexists. split; [done|].
      rewrite decide_False by done. by split_and!.
    + rewrite !lookup_alter_ne by done. destruct (decide (x = p)) as [->|Hxp].
      * rewrite lookup_alter_eq, Hx. simpl. eexists. split; [done|]. by split_and!.
      * rewrite lookup_alter_ne by done. rewrite Hx. eexists. split; [done|]. by split_and!.
Qed.

Let s4 := set_heap relink_heap (srv w).

Lemma relink_tree : tree_wf s4.
Proof.
  destruct (below_dec w l i (s_tree R _ Hwf) Hl) as [L HL].
  apply (move_tree R (srv w) s4 Hwf l p t i ti n L Hl Hp Hpl Hti Htd Htb Htp HL _ relink_moved).
Qed.

(** The way down from [l] is the same after the links changed. *)
Lemma relink_trail a ms x :
  below (srv w) l a → trail (srv w) a ms x → trail s4 a ms x.
Proof.
  intros Ha Ht. induction Ht as [a|a c ci ms x Hc Hcp Hne Ht IH]; [constructor|].
  pose proof (s_tree R _ Hwf) as Hwt.
  assert (below (srv w) l c) as Hlc by (by apply (below_step _ l a c ci)).
  assert (c ≠ l) as Hcl.
  { intros ->. apply Hne. apply (below_antisym (srv w) _ _ Hwt); [|done].
    by apply (below_of_child _ _ _ ci). }
  destruct (move_fwd (srv w) s4 l p t i n _ relink_moved c ci Hc)
    as (ci' & Hc' & _ & _ & _ & Hn' & Hpar & _).
  rewrite decide_False in Hn' by done. rewrite decide_False in Hpar by done.
  rewrite <-Hn'. apply (trail_cons s4 a c ci' ms x); [done|congruence|done|]. by apply IH.
Qed.

Lemma relink_below x : below s4 l x → below (srv w) l x.
Proof.
  induction 1 as [|q x xi' Hb IH Hx Hq Hqx]; [constructor|].
  destruct (move_live R (srv w) s4 Hwf l p t i n _ relink_moved x xi' Hx)
    as (xi & Hxi & _ & _ & _ & _ & Hpar & _). rewrite Hpar in Hq.
  destruct (decide (x = l)) as [->|Hxl]; [constructor|]. by apply (below_step _ l q x xi).
Qed.

Lemma relink_run :
  ∃ h, relink l t n newPath w = (with_heap h w, Ok tt)
    ∧ moved (repathed (srv w) l newPath) (srv w) (set_heap h (srv w)) l p t (iFID i) n.
Proof.
  pose proof (s_tree R _ Hwf) as Hwt. pose proof relink_tl as Htl.
  destruct (t_parent _ Hwt l i Hl) as (q & pi & Hq & Hpi & Hin). rewrite Hp in Hq. injection Hq as <-.
  destruct Hin as [?|Hin]; [done|].
  set (h1 := alter (unlink (FID_String (iFID i))) p (heap (srv w))).
  set (h2 := alter (λ j, set_iParent (Some t) j) l h1). set (h3 := alter (set_iName n) l h2).
  destruct (move_fwd (srv w) s4 l p t i n _ relink_moved l i Hl) as (i4 & Hl4 & Hf4 & _).
  destruct (updateSubtreePaths_run (with_heap relink_heap w) l i4 newPath relink_tree Hl4)
    as (h & Hrun & [Hin5 Hout5] & Hsame).
  exists h. split.
  - unfold relink.
    erewrite bind_run by exact (ignore_ok _ _ _ tt (removeFromParent_run w l i p pi (proj2 Hl) Hp
      (proj2 Hpi) ltac:(intros Heq; by apply Hpl, (live_loc_fun _ _ _ _ _ Hpi Hl)) Hin)).
    erewrite bind_run by exact (run_assign (with_heap h1 w) l _).
    erewrite bind_run by exact (run_assign (with_heap h2 w) l _).
    assert (h3 !! l = Some (set_iName n (set_iParent (Some t) i))) as Hh3.
    { unfold h3, h2, h1. rewrite !lookup_alter_eq, lookup_alter_ne by done. by rewrite (proj2 Hl). }
    erewrite bind_run by exact (run_deref (with_heap h3 w) l _ Hh3).
    erewrite bind_run by exact (run_assign (with_heap h3 w) t _). exact Hrun.
  - split; try done. intros x xi Hx.
    destruct (mv_heap _ _ _ _ _ _ _ _ relink_moved x xi Hx) as (xj & Hxj & Hf & Hty & Ha & Hs & Hn & Hpar & Hch & Hpath).
    pose proof (Hsame x) as Hsx. simpl in Hxj, Hsx. rewrite Hxj in Hsx.
    destruct (h !! x) as [xi'|] eqn:Hxi'; [|done]. apply (inj Some) in Hsx. exists xi'.
    assert (iFID xi' = iFID xj ∧ iType xi' = iType xj ∧ iACL xi' = iACL xj ∧ iSize xi' = iSize xj
            ∧ iName xi' = iName xj ∧ iParent xi' = iParent xj ∧ iChildren xi' = iChildren xj)
      as (->&->&->&->&->&->&->) by (destruct xi', xj; simpl in *; by simplify_eq).
    split_and!; try done. split.
    + intros Hb. assert (h !! x = relink_heap !! x) as Hh.
      { apply (Hout5 x). intros ?%relink_below. done. }
      rewrite Hxi', Hxj in Hh. by injection Hh as ->.
    + intros ms Htr. pose proof (Hin5 x ms (relink_trail l ms x (below_refl _ _) Htr)) as Hh.
      simpl in Hh. rewrite Hxi', Hxj in Hh. by injection Hh as ->.
Qed.
End relink.

(** ** Names *)

Definition suffixed (name : string) (id : Z) : string := name +:+ "__" +:+ pretty id.

Lemma suffixed_has name id : Contains (suffixed name id) underscore = true.
Proof. unfold suffixed. rewrite !Contains_app. by rewrite orb_true_r. Qed.

Lemma suffixed_ok name id : name_ok name → name_ok (suffixed name id).
Proof.
  intros [(_&_&_&Hf) Hb]. unfold sep_free in Hf.
  assert (∀ c, c ≠ underscore → not_numeric c → Contains name c = false →
            Contains (suffixed name id) c = false) as Hfree.
  { intros c Hc Hn Hname. unfold suffixed. rewrite !Contains_app, Hname, (pretty_Z_free c id Hn).
    by rewrite !Contains_cons, !bool_decide_false by (by apply not_eq_sym). }
  pose proof (suffixed_has name id) as Hu.
  split; [split_and!|]; try (intros Heq; by rewrite Heq in Hu).
  - apply Hfree; [done|by apply (bool_decide_unpack _)|done].
  - apply Hfree; [done|by apply (bool_decide_unpack _)|done].
Qed.

(** The name an inode gets in a directory: its own, or the suffixed one when it is
    taken. *)
Lemma uniqueName_run w t ti name id :
  tree_wf (srv w) → live (srv w) t ti →
  ∃ r, uniqueNameInDirLocked t name id w = (w, Ok r)
    ∧ ((r = name ∧ ∀ c ci, live (srv w) c ci → iFID ci ∈ iChildren ti → iName ci ≠ name)
       ∨ (r = suffixed name id ∧ ∃ c ci, live (srv w) c ci ∧ iParent ci = Some t ∧ c ≠ t
                                         ∧ iName ci = name)).
Proof.
  intros Hwf Ht. unfold uniqueNameInDirLocked, nameExistsInDirLocked.
  destruct (child_by_name_run w t ti (iChildren ti) name Hwf Ht) as (o & Hrun & Ho); [done|].
  assert ((d ← deref t; o ← child_by_name (iChildren d) name; mret (bool_decide (is_Some o))) w
          = (w, Ok (bool_decide (is_Some o)))) as Hex.
  { erewrite bind_run by by apply run_deref_live. by erewrite bind_run by exact Hrun. }
  erewrite bind_run by exact Hex. destruct o as [c|].
  - destruct Ho as (ci & Hc & _ & Hn & Hp & Hne). eexists. split; [done|]. right.
    split; [done|]. by exists c, ci.
  - eexists. split; [done|]. by left.
Qed.

(** Detaching the shares of a path. *)
Lemma detach_loop_run w user snaps :
  for_each snaps (λ snap,
    usrv (λ s, set_dirShares (delete (snapPath snap) (Shared s)) s) ;; notify_unshare user snap) w
  = (set_outbox (sent_all w (unshare_calls user snaps))
       (set_srv (set_dirShares (foldl (λ m snap, delete (snapPath snap) m) (Shared (srv w)) snaps)
                   (srv w)) w), Ok tt).
Proof.
  revert w. induction snaps as [|snap snaps IH]; intros w.
  - unfold sent_all. simpl. rewrite app_nil_r.
    destruct w as [[] ? ? ?]. simpl. by case_decide.
  - cbn [for_each]. erewrite bind_run.
    2:{ erewrite bind_run by done. apply notify_run. }
    rewrite IH. unfold sent_all, unshare_calls. simpl. rewrite app_nil_r.
    destruct (decide (msAddr (srv w) = "")); [done|]. by rewrite <-app_assoc.
Qed.

Lemma detach_run w user snaps :
  ∃ d, detachSharedSnapshotsLocked user snaps w
  = (set_disk d (set_outbox (sent_all w (unshare_calls user snaps))
       (set_srv (set_dirShares (foldl (λ m snap, delete (snapPath snap) m) (Shared (srv w)) snaps)
                   (srv w)) w)), Ok tt).
Proof.
  unfold detachSharedSnapshotsLocked. case_decide as Hs.
  - subst snaps. exists (disk w). unfold sent_all. simpl. rewrite app_nil_r.
    destruct w as [[] ? ? ?]. simpl. by case_decide.
  - erewrite bind_run by exact (detach_loop_run w user snaps).
    apply ignore_disk, SaveDirShares_disk.
Qed.

Lemma rename_index_run w o n :
  o ≠ "" → ∃ d, rename_index (Some o) (Some n) w
    = (set_disk d (set_srv (set_inodeStore (RenamePrefix o n <$> inodeStore (srv w)) (srv w)) w), Ok tt).
Proof.
  intros Ho. unfold rename_index. rewrite decide_False by done.
  erewrite bind_run by done. apply store_Save_run.
Qed.

(** The invariant after the links, the paths and the index moved. *)
Lemma move_commit_wf R w h l p t i ti n os nt :
  server_wf R (srv w) → live (srv w) l i → iParent i = Some p → p ≠ l → live (srv w) t ti →
  iType ti = InodeTypeDirectory → ¬ below (srv w) l t → t ≠ p → name_ok n → at_path R os i →
  at_path R nt ti → (∀ x xi, live (srv w) x xi → ¬ at_path R (nt ++ [n]) xi) →
  moved (repathed (srv w) l (Join [iOSPath ti; n])) (srv w) (set_heap h (srv w)) l p t (iFID i) n →
  let s' := set_inodeStore (RenamePrefix (rel_path os) (rel_path (nt ++ [n])) <$> inodeStore (srv w))
              (set_heap h (srv w)) in
  server_wf R s' ∧ moved (repathed (srv w) l (Join [iOSPath ti; n])) (srv w) s' l p t (iFID i) n
  ∧ rel_path os ≠ "" ∧ Rel (rootDir s') (iOSPath i) = Some (rel_path os)
  ∧ Rel (rootDir s') (Join [iOSPath ti; n]) = Some (rel_path (nt ++ [n])).
Proof.
  intros Hwf Hl Hp Hpl Ht Hd Hb Htp Hn Hos Hnt Hfree Hmv. simpl.
  destruct (below_dec w l i (s_tree R _ Hwf) Hl) as [L HL].
  match goal with |- server_wf R ?s ∧ _ => set (s' := s) end.
  assert (moved (repathed (srv w) l (Join [iOSPath ti; n])) (srv w) s' l p t (iFID i) n) as Hmv'.
  { split; try done. apply (mv_heap _ _ _ _ _ _ _ _ Hmv). }
  split_and!; [|done| | |].
  - by apply (move_wf R (srv w) s' Hwf l p t i ti n L Hl Hp Hpl Ht Hd Hb Htp HL _ Hmv' os nt).
  - apply rel_path_nonempty; apply Hos.
  - by apply (Rel_at_path R _ Hwf).
  - by apply (Rel_child R _ ti nt n Hwf).
Qed.

(** The trash directory is neither the inode nor below it. *)
Lemma trash_not_below R w user l i t :
  server_wf R (srv w) → live (srv w) l i → users (srv w) !! user ≠ Some (iFID i) →
  ¬ named_trash (srv w) user i → is_trash (srv w) user t → ¬ below (srv w) l t.
Proof.
  intros Hwf Hl Hnr Hnt (r & ri & ti & Hu & Hr & Ht & Htr & Htp & Htn & Htt) Hb.
  assert (l ≠ t) as Hlt.
  { intros <-. rewrite (live_fun _ _ _ _ Ht Hl) in *. apply Hnt.
    split; [done|]. by exists r, ri. }
  destruct Hb as [|q t ti' Hb Ht' Hq Hqt]; [done|]. rewrite (live_fun _ _ _ _ Ht' Ht) in Hq.
  rewrite Htp in Hq. injection Hq as <-.
  destruct (s_user R _ Hwf user (iFID ri) Hu) as (r' & ri' & Hr' & Hf & Hrp & _).
  pose proof (live_loc_fun _ _ _ _ _ Hr' Hr Hf) as ->.
  assert (l = r) as ->.
  { destruct Hb as [|q r rj Hb Hrj Hq Hqr]; [done|].
    rewrite (live_fun _ _ _ _ Hrj Hr') in Hq. congruence. }
  rewrite (live_fun _ _ _ _ Hl Hr) in *. apply Hnr. congruence.
Qed.

(** No entry of the trash has the name a clash would be resolved to. *)
Definition suffix_free s (user name : string) (id : Z) : Prop :=
  ∀ t c ci, is_trash s user t → live s c ci → iParent ci = Some t → iName ci ≠ suffixed name id.

Lemma suffix_free_grows R s s' user name id n :
  server_wf R s → grows (eq trashDirName) n s s' →
  suffix_free s user name id → suffix_free s' user name id.
Proof.
  intros Hwf Hg Hfree t c ci (r & ri & ti & Hu & Hr & Ht & Htr & Htp & Htn & Htt) Hc Hcp Hname.
  destruct (g_new _ _ _ _ Hg c ci Hc) as [[cj Hcj]|Hn].
  2:{ rewrite Hname in Hn. pose proof (suffixed_has name id) as Hs. by rewrite <-Hn in Hs. }
  destruct (g_live _ _ _ _ Hg c cj Hcj) as (ck & Hck & (_&_&Hn&_&_&_&Hp)%links_eq & _).
  rewrite (live_fun _ _ _ _ Hc Hck) in *.
  destruct (t_parent s (s_tree R s Hwf) c cj Hcj) as (q & qi & Hq & Hql & _).
  assert (q = t) as -> by congruence.
  destruct (g_live _ _ _ _ Hg t qi Hql) as (tj & Htj & (_&Htt'&Htn'&_&_&_&Htp')%links_eq & _).
  rewrite (live_fun _ _ _ _ Ht Htj) in *. rewrite (g_users _ _ _ _ Hg) in Hu.
  destruct (s_user R s Hwf user (iFID ri) Hu) as (r0 & rj & Hrj & Hf & _).
  destruct (g_live _ _ _ _ Hg r0 rj Hrj) as (rk & Hrk & (Hfk&_)%links_eq & _).
  assert (r0 = r) as -> by (apply (live_loc_fun _ _ _ rk ri Hrk Hr); congruence).
  apply (Hfree t c cj); [|done|congruence|congruence].
  exists r, rj, qi. split_and!; try done; congruence.
Qed.

(** ** TrashFile *)

(** The end of the trashing: [w1] is the server once the trash directory exists. *)
Record trashed (R : list string) w (user : string) l i (final : string) w1 w' : Prop := {
  td_wf : server_wf R (srv w');
  td_prepared : ∃ w0, refreshed w w0 ∧ kept R w0 w1;
  td_moved : ∃ t ti p pi i1, is_trash (srv w1) user t ∧ live (srv w1) t ti
    ∧ live (srv w1) l i1 ∧ iFID i1 = iFID i ∧ iName i1 = iName i ∧ iParent i1 = Some p
    ∧ iOSPath i1 = iOSPath i ∧ iParent i = Some p ∧ p ≠ l ∧ p ≠ t ∧ live (srv w1) p pi
    ∧ ¬ below (srv w1) l t
    ∧ (final = iName i ∨ (final = suffixed (iName i) (InodeID (iFID i))
         ∧ ∃ c ci, live (srv w1) c ci ∧ iParent ci = Some t ∧ iName ci = iName i))
    ∧ moved (repathed (srv w1) l (Join [iOSPath ti; final])) (srv w1) (srv w') l p t (iFID i) final
    ∧ ∃ os, at_path R os i
      ∧ trashMeta (srv w') = <[FID_String (iFID i) :=
          mkTrashEntry (FID_String (iFID pi)) (iName i) (rel_path os)
            (collectSharedSnapshots (srv w) (rel_path os))]> (trashMeta (srv w))
      ∧ shares_without (Shared (srv w)) (rel_path os) (Shared (srv w'))
      ∧ outbox w' = sent_all w (unshare_calls user (collectSharedSnapshots (srv w) (rel_path os)));
}.

Lemma repathed_skel s s2 l np x xi xi' :
  same_skel s s2 → repathed s2 l np x xi xi' → repathed s l np x xi xi'.
Proof.
  intros Hsk [Hout Hin]. split.
  - intros Hb. apply Hout. by rewrite <-(below_skel_iff _ _ _ _ Hsk).
  - intros ms Htr. apply Hin. by apply (trail_skel _ _ _ _ _ Hsk).
Qed.

(** The steps of [TrashFile] after the move on the disk. *)
Definition trash_commit (user : string) (snaps : list sharedDirSnapshot) (key : string)
    (entry : trashEntry) (l t : loc) (final newPath orig : string) : M (Server D) string :=
  detachSharedSnapshotsLocked user snaps ;;
  usrv (λ s, set_trashMeta (<[key := entry]> (trashMeta s)) s) ;;
  relink l t final newPath ;;
  newRel ← rel newPath;
  rename_index (Some orig) newRel ;;
  mret final.

Lemma trash_commit_run R w user key entry l p t i ti n os nt :
  server_wf R (srv w) → live (srv w) l i → iParent i = Some p → p ≠ l → live (srv w) t ti →
  iType ti = InodeTypeDirectory → ¬ below (srv w) l t → t ≠ p → name_ok n → at_path R os i →
  at_path R nt ti → (∀ x xi, live (srv w) x xi → ¬ at_path R (nt ++ [n]) xi) →
  let snaps := collectSharedSnapshots (srv w) (rel_path os) in
  ∃ w', trash_commit user snaps key entry l t n (Join [iOSPath ti; n]) (rel_path os) w = (w', Ok n)
    ∧ server_wf R (srv w')
    ∧ moved (repathed (srv w) l (Join [iOSPath ti; n])) (srv w) (srv w') l p t (iFID i) n
    ∧ trashMeta (srv w') = <[key := entry]> (trashMeta (srv w))
    ∧ shares_without (Shared (srv w)) (rel_path os) (Shared (srv w'))
    ∧ outbox w' = sent_all w (unshare_calls user snaps).
Proof.
  intros Hwf Hl Hp Hpl Ht Hd Hb Htp Hn Hos Hnt Hfree snaps.
  destruct (detach_run w user snaps) as [d Hrun1].
  match type of Hrun1 with _ = (?v, _) => set (w1 := v) in * end.
  set (w2 := set_srv (set_trashMeta (<[key := entry]> (trashMeta (srv w1))) (srv w1)) w1).
  assert (server_wf R (srv w2)) as Hwf2 by (by apply (server_wf_ext R (srv w))).
  assert (same_skel (srv w) (srv w2)) as Hsk by by split_and!.
  rewrite (below_skel_iff _ _ _ _ Hsk) in Hb.
  destruct (relink_run R w2 Hwf2 l p t i ti n (Join [iOSPath ti; n]) Hl Hp Hpl Ht Hd Hb Htp)
    as (h & Hrun2 & Hmv).
  destruct (move_commit_wf R w2 h l p t i ti n os nt) as (Hwf3 & Hmv3 & Hne & Hro & Hrn); try done.
  set (w3 := with_heap h w2). destruct (rename_index_run w3 (rel_path os) (rel_path (nt ++ [n])) Hne) as [d3 Hrun3].
  eexists. split.
  { unfold trash_commit. erewrite bind_run by exact Hrun1. erewrite bind_run by done.
    erewrite bind_run by exact Hrun2.
    erewrite bind_run by (apply (rel_known w3 _ (rel_path (nt ++ [n]))); exact Hrn).
    erewrite bind_run by exact Hrun3. done. }
  split_and!; [exact Hwf3| |done| |done].
  - split; try done. intros x xi Hx.
    destruct (mv_heap _ _ _ _ _ _ _ _ Hmv3 x xi Hx) as (xi' & Hh & ?&?&?&?&?&?&?& HP).
    exists xi'. split_and!; try done. by apply (repathed_skel _ _ _ _ _ _ _ Hsk).
  - apply drop_shares, rel_path_nonempty; apply Hos.
Qed.

Lemma suffix_free_skel s s' user name id :
  same_skel s s' → suffix_free s user name id → suffix_free s' user name id.
Proof.
  intros Hsk Hfree t c ci (r & ri & ti & Hu & Hr & Ht & Htr & Htp & Htn & Htt) Hc Hcp.
  pose proof (symmetry Hsk) as Hsk'.
  destruct (live_skel _ _ _ _ Hsk' Hr) as (rj & Hrj & (Hrf&_)%skel_eq).
  destruct (live_skel _ _ _ _ Hsk' Ht) as (tj & Htj & (_&Htt'&Htn'&_&Htp'&_)%skel_eq).
  destruct (live_skel _ _ _ _ Hsk' Hc) as (cj & Hcj & (_&_&<-&_&Hcp'&_)%skel_eq).
  apply (Hfree t c cj); [|done|congruence]. exists r, rj, tj.
  destruct Hsk as (_ & Hus & _). rewrite Hus in Hu. split_and!; congruence.
Qed.

Lemma child_name_ok R s l i p :
  server_wf R s → live s l i → iParent i = Some p → p ≠ l → name_ok (iName i).
Proof.
  intros Hwf Hl Hp Hne. destruct (t_parent s (s_tree R s Hwf) l i Hl) as (q & qi & Hq & Hql & _).
  apply (s_path R s Hwf l i p qi); congruence.
Qed.

Lemma grows_below_inv R P n s s' a x xi :
  server_wf R s → grows P n s s' → live s x xi → below s' a x → below s a x.
Proof.
  intros Hwf Hg Hx Hb. revert xi Hx. induction Hb as [|q x xj Hb IH Hxj Hq Hqx]; intros xi Hx; [constructor|].
  destruct (g_live _ _ _ _ Hg x xi Hx) as (xk & Hxk & (_&_&_&_&_&_&Hp)%links_eq & _).
  rewrite (live_fun _ _ _ _ Hxj Hxk) in Hq.
  destruct (t_parent s (s_tree R s Hwf) x xi Hx) as (q' & qi & Hq' & Hql & _).
  assert (q' = q) as -> by congruence. apply (below_step s a q x xi); try congruence. by apply (IH qi).
Qed.

Lemma named_trash_grows R P n s s' user l i i' :
  server_wf R s → grows P n s s' → live s l i → live s' l i' →
  named_trash s' user i' → named_trash s user i.
Proof.
  intros Hwf Hg Hl Hl' (Hname & r & ri & Hu & Hr & Hp).
  destruct (g_live _ _ _ _ Hg l i Hl) as (j & Hj & (_&_&Hn&_&_&_&Hpj)%links_eq & _).
  rewrite (live_fun _ _ _ _ Hl' Hj) in *. rewrite (g_users _ _ _ _ Hg) in Hu.
  destruct (s_user R s Hwf user (iFID ri) Hu) as (r0 & rj & Hrj & Hf & _).
  destruct (g_live _ _ _ _ Hg r0 rj Hrj) as (rk & Hrk & (Hfk&_)%links_eq & _).
  assert (r0 = r) as -> by (apply (live_loc_fun _ _ _ rk ri Hrk Hr); congruence).
  split; [congruence|]. exists r, rj. split_and!; congruence.
Qed.

Lemma kept_refreshed R w w0 : server_wf R (srv w0) → refreshed w w0 → ∃ w0, refreshed w w0 ∧ kept R w0 w0.
Proof. intros Hwf Href. exists w0. split; [done|]. split_and!; try done. by apply grows_refl. Qed.

Lemma TrashFile_wp R w user rec l i :
  server_wf R (srv w) → ids_left (srv w) 1 → live (srv w) l i →
  suffix_free (srv w) user (iName i) (InodeID (iFID i)) →
  wp (TrashFile (Some (iFID i)) user rec)
    (λ final w', deletable (srv w) user rec l i ∧ ∃ w1, trashed R w user l i final w1 w')
    (λ _ w', server_wf R (srv w') ∧ ∃ w0, refreshed w w0 ∧ kept R w0 w') w.
Proof.
  intros Hwf Hids Hl Hsfx. unfold TrashFile.
  destruct (GetInode_run w (iFID i) l i Hl eq_refl)
    as (w0 & i0 & Hget & Href & Hl0 & Heq & _ & _).
  eapply wp_run; [unfold catch; by rewrite Hget|]. cbv beta iota.
  pose proof (refreshed_wf _ _ _ Href Hwf) as Hwf0.
  pose proof (deletable_refreshed w w0 user rec l i i0 Href (s_tree R _ Hwf) Hl Hl0 Heq) as Hdel.
  destruct (refreshed_srv _ _ Href) as (Hu & Ho & Hd & Hsh & Hms & Htr & Hix & Hrd).
  apply size_free_eq in Heq as (Hf & Hty & Hn & Hpath & Hpar & Hch & Hbare).
  assert (server_wf R (srv w0) ∧ ∃ w1, refreshed w w1 ∧ kept R w1 w0) as Hsame.
  { split; [done|]. exists w0. split; [done|]. split_and!; try done. by apply grows_refl. }
  eapply wp_run; [done|]. case_decide as Hroot; [by apply wp_throw|].
  assert (users (srv w0) !! user ≠ Some (iFID i0)) as Hnr.
  { intros Hur. apply Hroot. by rewrite Hur, Hf. }
  destruct (isTrashDir_run w0 user l i0 R Hwf0 Hl0) as (b & Hrun & Hb).
  eapply wp_run; [exact Hrun|]. destruct b; [by apply wp_throw|].
  assert (¬ named_trash (srv w0) user i0) as Hnt by (intros Hx; by apply Hb in Hx).
  apply wp_bind. eapply wp_mono; [apply (validateDelete_wp w0 l i0); [apply Hwf0|done]| |].
  2:{ by intros e w' [-> _]. }
  intros _ w' [-> Hown]. assert (deletable (srv w) user rec l i) as Hdl by by apply Hdel.
  assert (deletable (srv w0) user rec l i0) as Hdl0.
  { destruct Hown. by split. }
  apply wp_bind. eapply wp_mono; [apply (getOrCreateTrash_wp R); [done|]| |].
  { intros st Hst. apply Hids. congruence. }
  2:{ intros e w' [[d ->] _]. split; [done|]. exists w0. split; [done|]. by apply kept_disk. }
  intros t w1 (Hwf1 & Hg & Ho1 & Hc1 & Htrash & _). cbv beta.
  assert (kept R w0 w1) as Hk1 by by split_and!.
  destruct (g_live _ _ _ _ Hg l i0 Hl0) as (i1 & Hl1 & (Hf1&Hty1&Hn1&Hpath1&_&_&Hp1)%links_eq & _).
  pose proof Htrash as (r & ri & ti & Hur & Hr & Ht & Htnr & Htp & Htn & Htt).
  eapply wp_run; [by apply run_deref_live|]. eapply wp_run; [by apply run_deref_live|].
  destruct (deletable_parent R _ user rec l i Hwf Hl Hdl) as (p & Hp & Hpl).
  assert (iParent i1 = Some p) as Hpi1 by congruence.
  destruct (t_parent _ (s_tree R _ Hwf1) l i1 Hl1) as (q & pi & Hq & Hpi & _).
  rewrite Hpi1 in Hq. injection Hq as <-. rewrite Hpi1.
  eapply wp_run; [by erewrite bind_run by by apply run_deref_live|].
  case_decide as Halready.
  { apply wp_throw. split; [done|]. by exists w0. }
  assert (t ≠ p) as Htnp.
  { intros ->. apply Halready. by rewrite (live_fun _ _ _ _ Hpi Ht). }
  destruct (uniqueName_run w1 t ti (iName i1) (InodeID (iFID i1)) (s_tree R _ Hwf1) Ht)
    as (final & Hrun2 & Hfin).
  eapply wp_run; [exact Hrun2|]. cbv zeta.
  destruct (live_path R _ Hwf1 l i1 Hl1) as [os Hos], (live_path R _ Hwf1 t ti Ht) as [nt Hnts].
  eapply wp_run; [by apply rel_known, (Rel_at_path R _ Hwf1)|].
  change (default "" (Some (rel_path os))) with (rel_path os).
  eapply wp_run; [done|]. apply wp_bind, wp_os.
  2:{ intros d e. split; [done|]. exists w0. split; [done|]. by split_and!. }
  intros d _. set (v := set_disk d w1).
  assert (suffix_free (srv w1) user (iName i1) (InodeID (iFID i1))) as Hsfx1.
  { eapply (suffix_free_grows R (srv w0)); [done|exact Hg|]. rewrite Hn1, Hn, Hf1, Hf.
    apply (suffix_free_skel (srv w)); [by apply refreshed_skel|done]. }
  assert (name_ok final) as Hfok.
  { pose proof (child_name_ok R _ l i1 p Hwf1 Hl1 Hpi1 Hpl) as Hok.
    destruct Hfin as [[-> _]|[-> _]]; [done|by apply suffixed_ok]. }
  assert (∀ x xi, live (srv v) x xi → ¬ at_path R (nt ++ [final]) xi) as Hfree.
  { apply (child_path_free R _ Hwf1 t ti nt final Ht Hnts). intros c ci Hc Hin.
    destruct Hfin as [[-> Hno]|[-> _]]; [exact (Hno c ci Hc Hin)|].
    destruct (child_at _ t ti (iFID ci) c (s_tree R _ Hwf1) Ht Hin (proj1 Hc)) as (cj & Hcj & _ & Hcp & _).
    rewrite (live_fun _ _ _ _ Hcj Hc) in Hcp. by apply (Hsfx1 t c ci). }
  assert (¬ below (srv w1) l t) as Hbt.
  { apply (trash_not_below R w1 user l i1); try done.
    - rewrite (g_users _ _ _ _ Hg). congruence.
    - intros Hx. apply Hnt; exact (named_trash_grows R (eq trashDirName) 1 (srv w0) (srv w1) user l i0 i1 Hwf0 Hg Hl0 Hl1 Hx). }
  destruct (trash_commit_run R v user (FID_String (iFID i))
    (mkTrashEntry (FID_String (iFID pi)) (iName i1) (rel_path os)
       (collectSharedSnapshots (srv w1) (rel_path os))) l p t i1 ti final os nt)
    as (w' & Hrun3 & Hwf' & Hmv & Htm & Hshs & Hout); try done.
  match goal with |- wp _ ?Q ?E _ => change (wp (trash_commit user
    (collectSharedSnapshots (srv v) (rel_path os)) (FID_String (iFID i))
    (mkTrashEntry (FID_String (iFID pi)) (iName i1) (rel_path os)
       (collectSharedSnapshots (srv w1) (rel_path os))) l t final (Join [iOSPath ti; final])
    (rel_path os)) Q E v) end.
  unfold wp. rewrite Hrun3. split; [done|]. exists v. clear Hrun3.
  assert (Shared (srv v) = Shared (srv w)) as Hshv by (etrans; [apply Hg|exact Hsh]).
  assert (trashMeta (srv v) = trashMeta (srv w)) as Htrv by (etrans; [apply Hg|exact Htr]).
  split.
  - exact Hwf'.
  - exists w0. split; [done|]. by split_and!.
  - exists t, ti, p, pi, i1. split_and!; try done; [congruence|congruence|congruence|..].
    + destruct Hfin as [[-> _]|[-> (c & ci & Hc & Hcp & _ & Hcn)]]; [left; congruence|right].
      split; [congruence|]. exists c, ci. split_and!; try done. congruence.
    + rewrite <-Hf, <-Hf1. exact Hmv.
    + exists os. split; [by unfold at_path in *; rewrite <-Hpath, <-Hpath1|].
      assert (∀ o, collectSharedSnapshots (srv v) o = collectSharedSnapshots (srv w) o) as Hsnap.
      { intros o. unfold collectSharedSnapshots. by rewrite Hshv. }
      split_and!; [|by rewrite <-Hshv|].
      * rewrite Htm, Htrv, <-Hsnap. by rewrite Hn1, Hn.
      * rewrite Hout, Hsnap. unfold sent_all.
        assert (msAddr (srv v) = msAddr (srv w)) as -> by (etrans; [apply Hg|exact Hms]).
        assert (outbox v = outbox w) as -> by (etrans; [exact Ho1|exact Ho]). done.
Qed.

End trash.

(** A checker for [suffix_free]: no inode at all has the suffixed name. *)
Definition no_such_name s (name : string) : bool :=
  forallb (λ kl, match heap s !! kl.2 with
                 | Some j => negb (String.eqb (iName j) name)
                 | None => true
                 end) (map_to_list (inodes s)).

Lemma suffix_free_check s user name id :
  no_such_name s (suffixed name id) = true → suffix_free s user name id.
Proof.
  intros Hb t c ci _ [Hk Hc] _ Hn. unfold no_such_name in Hb. rewrite forallb_forall in Hb.
  specialize (Hb (FID_String (iFID ci), c)). simpl in Hb. rewrite Hc, Hn, String.eqb_refl in Hb.
  assert (false = true); [|done]. apply Hb, list_elem_of_In, elem_of_map_to_list. exact Hk.
Qed.

