(* ===== verification/RestoreSpec.v ===== *)
(** * Restoring what was trashed

    [RestoreFile]: what it refuses, where the subtree goes, that its shares come
    back under the new paths, that the invariant of the server survives, and that
    it undoes [TrashFile]. *)
From S2P Require Import FileServer Persist Tree TreeWf TreeRun Frames Invariant Removal Move.
From S2P Require Import Share Trash FileOps Grow Demo DeleteSpec TrashSpec.

Implicit Types (s : FileServer) (l p t x : loc) (i j : Inode) (f : FID).

Lemma FID_String_nonempty f : FID_String f ≠ "".
Proof. destruct f as [[|c n] q r]; done. Qed.

(** ** The trash directory that is there already *)

Lemma is_trash_back R n s s' user t ti :
  server_wf R s → grows (eq trashDirName) n s s' → live s t ti →
  is_trash s' user t → is_trash s user t.
Proof.
  intros Hwf Hg Hti (r & ri & tj & Hu & Hr & Ht & Htr & Htp & Htn & Htt).
  destruct (g_live _ _ _ _ Hg t ti Hti) as (tk & Htk & (_&Hty&Hn&_&_&_&Hp)%links_eq & _).
  rewrite (live_fun _ _ _ _ Ht Htk) in *. rewrite (g_users _ _ _ _ Hg) in Hu.
  destruct (s_user R s Hwf user (iFID ri) Hu) as (r0 & rj & Hrj & Hf & _).
  destruct (g_live _ _ _ _ Hg r0 rj Hrj) as (rk & Hrk & (Hfk&_)%links_eq & _).
  assert (r0 = r) as -> by (apply (live_loc_fun _ _ _ rk ri Hrk Hr); congruence).
  exists r, rj, ti. split_and!; try done; congruence.
Qed.

Lemma is_trash_fun R s user t t' :
  server_wf R s → is_trash s user t → is_trash s user t' → t = t'.
Proof.
  intros Hwf (r & ri & ti & Hu & Hr & Ht & Htr & Htp & Htn & _)
    (r' & ri' & ti' & Hu' & Hr' & Ht' & Htr' & Htp' & Htn' & _).
  assert (r' = r) as -> by (apply (live_loc_fun _ _ _ _ _ Hr' Hr); congruence).
  destruct (live_path R s Hwf r ri Hr) as [ns Hns].
  apply (at_path_inj R s Hwf t ti t' ti' (ns ++ [trashDirName])); try done.
  - rewrite <-Htn. by apply (at_path_child R s Hwf t ti r ri).
  - rewrite <-Htn'. by apply (at_path_child R s Hwf t' ti' r ri).
Qed.

(** The users a path is explicitly shared with. *)
Definition shared_at (m : gmap string (list string)) (k u : string) : Prop :=
  ∃ us, m !! k = Some us ∧ u ∈ us.

(** The shares of the snapshots come back under the new paths, nothing else changes. *)
Definition shares_with (old new : string) (snaps : list sharedDirSnapshot)
    (m m' : gmap string (list string)) : Prop :=
  ∀ k, (is_Some (m' !! k) ↔ is_Some (m !! k)
         ∨ ∃ snap, snap ∈ snaps ∧ map_snap_path old new (snapPath snap) = k)
     ∧ ∀ u, shared_at m' k u ↔ shared_at m k u
         ∨ ∃ snap, snap ∈ snaps ∧ map_snap_path old new (snapPath snap) = k ∧ u ∈ snapUsers snap.

Definition share_calls (user old new : string) (snaps : list sharedDirSnapshot) : list MSCall :=
  snaps ≫= λ snap, let mapped := map_snap_path old new (snapPath snap) in
    (λ u, RootShareCall user mapped u (Base mapped)) <$> snapUsers snap.

Definition add_users (k : string) (us : list string) (m : gmap string (list string)) :=
  foldl (λ m u, <[k := append_unique (default [] (m !! k)) u]> m)
        (<[k := default [] (m !! k)]> m) us.

Lemma shared_at_default m k u : shared_at m k u ↔ u ∈ default [] (m !! k).
Proof.
  unfold shared_at. destruct (m !! k); simpl; [naive_solver|]. split; [naive_solver|].
  intros []%elem_of_nil.
Qed.

Lemma add_users_fold k us m k' :
  is_Some (m !! k) →
  let m' := foldl (λ m u, <[k := append_unique (default [] (m !! k)) u]> m) m us in
  (is_Some (m' !! k') ↔ is_Some (m !! k'))
  ∧ ∀ u, shared_at m' k' u ↔ shared_at m k' u ∨ k = k' ∧ u ∈ us.
Proof.
  revert m. induction us as [|v us IH]; intros m Hk; simpl; [set_solver|].
  destruct (IH (<[k := append_unique (default [] (m !! k)) v]> m)) as [H1 H2].
  { rewrite lookup_insert_eq. eauto. }
  split.
  - rewrite H1. destruct (decide (k = k')) as [->|Hne].
    + rewrite lookup_insert_eq. naive_solver.
    + by rewrite lookup_insert_ne.
  - intros u. rewrite H2, !shared_at_default. destruct (decide (k = k')) as [->|Hne].
    + rewrite lookup_insert_eq. simpl. rewrite append_unique_elem. set_solver.
    + rewrite lookup_insert_ne by done. set_solver.
Qed.

Lemma add_users_spec k us m k' :
  (is_Some (add_users k us m !! k') ↔ is_Some (m !! k') ∨ k = k')
  ∧ ∀ u, shared_at (add_users k us m) k' u ↔ shared_at m k' u ∨ k = k' ∧ u ∈ us.
Proof.
  destruct (add_users_fold k us (<[k := default [] (m !! k)]> m) k') as [H1 H2].
  { rewrite lookup_insert_eq. eauto. }
  unfold add_users. rewrite H1. split.
  - destruct (decide (k = k')) as [->|Hne].
    + rewrite lookup_insert_eq. naive_solver.
    + rewrite lookup_insert_ne by done. naive_solver.
  - intros u. rewrite H2, !shared_at_default. destruct (decide (k = k')) as [->|Hne].
    + rewrite lookup_insert_eq. done.
    + by rewrite lookup_insert_ne.
Qed.

Lemma shares_with_foldl old new snaps m :
  shares_with old new snaps m
    (foldl (λ m snap, add_users (map_snap_path old new (snapPath snap)) (snapUsers snap) m) m snaps).
Proof.
  revert m. induction snaps as [|snap snaps IH]; intros m k; simpl; [set_solver|].
  destruct (IH (add_users (map_snap_path old new (snapPath snap)) (snapUsers snap) m) k) as [H1 H2].
  destruct (add_users_spec (map_snap_path old new (snapPath snap)) (snapUsers snap) m k) as [H3 H4].
  split.
  - rewrite H1, H3. set_solver.
  - intros u. rewrite H2, H4. set_solver.
Qed.

Section restore.
Context {D : Type} `{Env D}.
Implicit Types (w : Server D).

Lemma getOrCreateTrash_found R w user t :
  server_wf R (srv w) → is_trash (srv w) user t →
  getOrCreateTrashDirLocked user w = (w, Ok t).
Proof.
  intros Hwf (r & ri & ti & Hu & Hr & Ht & Htr & Htp & Htn & Htt).
  unfold getOrCreateTrashDirLocked. erewrite bind_run by done. rewrite Hu.
  erewrite bind_run by apply run_find. rewrite (proj1 Hr). erewrite bind_run by done.
  erewrite bind_run by by apply run_deref_live.
  destruct (child_by_name_run w r ri (iChildren ri) trashDirName (s_tree R _ Hwf) Hr)
    as (o & Hrun & Hres); [done|].
  erewrite bind_run by exact Hrun. destruct o as [c|].
  - destruct Hres as (ci & Hc & Hin & Hcn & Hcp & Hcne).
    destruct (live_path R _ Hwf r ri Hr) as [ns Hns].
    assert (c = t) as ->.
    { apply (at_path_inj R _ Hwf c ci t ti (ns ++ [trashDirName])); try done.
      - rewrite <-Hcn. by apply (at_path_child R _ Hwf c ci r ri).
      - rewrite <-Htn. by apply (at_path_child R _ Hwf t ti r ri). }
    erewrite bind_run by by apply run_deref_live.
    by rewrite decide_True by by rewrite (live_fun _ _ _ _ Hc Ht).
  - exfalso. apply (Hres t ti Ht); [|done].
    by apply (child_listed _ r ri t ti (s_tree R _ Hwf)).
Qed.

(** ** Attaching the shares again *)

Lemma reattach_users_run w user mapped us m :
  Shared (srv w) = m → is_Some (m !! mapped) →
  for_each us (λ u, add_share mapped u ;; ignore (RootShare user (Base mapped) mapped u)) w
  = (set_outbox (sent_all w ((λ u, RootShareCall user mapped u (Base mapped)) <$> us))
       (set_srv (set_dirShares
          (foldl (λ m u, <[mapped := append_unique (default [] (m !! mapped)) u]> m) m us)
          (srv w)) w), Ok tt).
Proof.
  revert w m. induction us as [|u us IH]; intros w m <- Hk.
  - unfold sent_all. simpl. rewrite app_nil_r. destruct w as [[] ? ? ?]. simpl. by case_decide.
  - cbn [for_each]. unfold add_share at 1, share_users. erewrite bind_run.
    2:{ erewrite bind_run by done. apply ignore_ms_call. }
    rewrite (IH _ _ eq_refl) by (simpl; rewrite lookup_insert_eq; eauto).
    unfold sent_all, sent. simpl. destruct (decide (msAddr (srv w) = "")); [done|].
    by rewrite <-app_assoc.
Qed.

Lemma reattach_loop_run w user old new snaps :
  for_each snaps (λ snap,
      let mapped := map_snap_path old new (snapPath snap) in
      usrv (λ s, set_dirShares (<[mapped := share_users s mapped]> (Shared s)) s) ;;
      for_each (snapUsers snap) (λ u,
        add_share mapped u ;; ignore (RootShare user (Base mapped) mapped u))) w
  = (set_outbox (sent_all w (share_calls user old new snaps))
       (set_srv (set_dirShares
          (foldl (λ m snap, add_users (map_snap_path old new (snapPath snap)) (snapUsers snap) m)
                 (Shared (srv w)) snaps) (srv w)) w), Ok tt).
Proof.
  revert w. induction snaps as [|snap snaps IH]; intros w.
  - unfold sent_all. simpl. rewrite app_nil_r. destruct w as [[] ? ? ?]. simpl. by case_decide.
  - cbn [for_each]. cbv zeta. erewrite bind_run.
    2:{ erewrite bind_run by done. apply (reattach_users_run _ _ _ _ _ eq_refl).
        simpl. rewrite lookup_insert_eq. eauto. }
    rewrite IH. unfold sent_all, share_calls. simpl.
    destruct (decide (msAddr (srv w) = "")); [done|]. by rewrite <-app_assoc.
Qed.

Lemma reattach_run w user old new snaps :
  ∃ d m, reattachSharedSnapshotsLocked user old new snaps w
    = (set_disk d (set_outbox (sent_all w (share_calls user old new snaps))
         (set_srv (set_dirShares m (srv w)) w)), Ok tt)
    ∧ shares_with old new snaps (Shared (srv w)) m.
Proof.
  unfold reattachSharedSnapshotsLocked. case_decide as Hs.
  - subst snaps. exists (disk w), (Shared (srv w)). split; [|exact (shares_with_foldl old new [] _)].
    unfold sent_all. simpl. rewrite app_nil_r. destruct w as [[] ? ? ?]. simpl. by case_decide.
  - pose proof (reattach_loop_run w user old new snaps) as Hrun.
    match type of Hrun with _ = (?v, _) =>
      destruct (ignore_disk SaveDirShares v SaveDirShares_disk) as [d Hd] end.
    eexists d, _. split; [|apply shares_with_foldl].
    erewrite bind_run by exact Hrun. exact Hd.
Qed.

(** ** What a restore needs and does *)

(** Where a record sends the inode back: the original parent while it lives, else
    the root of the user. *)
Definition target_of s (user : string) (e : trashEntry) (tg : loc) : Prop :=
  let original := if decide (originalParentFID e = "") then None else inodes s !! originalParentFID e in
  match original with
  | Some p => tg = p
  | None => ∃ rf, users s !! user = Some rf ∧ inodes s !! FID_String rf = Some tg
  end.

(** A name clash in [tg] can be resolved. *)
Definition clash_ok s (tg : loc) (name : string) (id : Z) : Prop :=
  ∀ c ci d di, live s c ci → iParent ci = Some tg → c ≠ tg → iName ci = name →
    live s d di → iParent di = Some tg → d ≠ tg → iName di ≠ suffixed name id.

(** The record of an inode of the trash makes sense: the name is one, and the place
    it goes back to is neither below it nor the trash itself. *)
Record entry_ok s (user : string) l i (e : trashEntry) : Prop := {
  eo_name : name_ok (originalName e);
  eo_target tg : target_of s user e tg →
    ¬ below s l tg ∧ ¬ is_trash s user tg ∧ clash_ok s tg (originalName e) (InodeID (iFID i));
}.

Definition requester_of (user requester : string) : string :=
  if decide (requester = "") then user else requester.

(** The shares a restore attaches again. *)
Definition shares_of (e : trashEntry) : list sharedDirSnapshot :=
  if decide (originalRelPath e = "") then [] else sharedSnapshots e.

Record restored (R : list string) w (user : string) l i (e : trashEntry) (final : string) w0 w' : Prop := {
  rs_wf : server_wf R (srv w');
  rs_prepared : refreshed w w0;
  rs_meta : trashMeta (srv w') = delete (FID_String (iFID i)) (trashMeta (srv w));
  rs_moved : ∃ t tg tgi, is_trash (srv w0) user t ∧ iParent i = Some t ∧ t ≠ l ∧ t ≠ tg
    ∧ target_of (srv w0) user e tg ∧ live (srv w0) tg tgi ∧ iType tgi = InodeTypeDirectory
    ∧ ((final = originalName e
          ∧ ∀ c ci, live (srv w0) c ci → iFID ci ∈ iChildren tgi → iName ci ≠ originalName e)
       ∨ (final = suffixed (originalName e) (InodeID (iFID i))
          ∧ ∃ c ci, live (srv w0) c ci ∧ iParent ci = Some tg ∧ c ≠ tg ∧ iName ci = originalName e))
    ∧ moved (repathed (srv w0) l (Join [iOSPath tgi; final])) (srv w0) (srv w') l t tg (iFID i) final
    ∧ ∃ nt, at_path R nt tgi
      ∧ shares_with (originalRelPath e) (rel_path (nt ++ [final])) (shares_of e)
          (Shared (srv w)) (Shared (srv w'))
      ∧ outbox w' = sent_all w (share_calls user (originalRelPath e) (rel_path (nt ++ [final]))
                                  (shares_of e));
}.

(** The steps of [RestoreFile] after the move on the disk. *)
Definition restore_commit (user key : string) (e : trashEntry) (l tg : loc)
    (final newPath oldRel : string) : M (Server D) string :=
  relink l tg final newPath ;;
  newRel ← rel newPath;
  rename_index (Some oldRel) newRel ;;
  (if decide (sharedSnapshots e ≠ [] ∧ originalRelPath e ≠ "") then
     i' ← deref l;
     p ← rel (iOSPath i');
     reattachSharedSnapshotsLocked user (originalRelPath e)
       (default (originalRelPath e) p) (sharedSnapshots e)
   else mret tt) ;;
  usrv (λ s, set_trashMeta (delete key (trashMeta s)) s) ;;
  mret final.

Lemma restore_shares_run w l i user e newPath newRel :
  heap (srv w) !! l = Some i → iOSPath i = newPath → Rel (rootDir (srv w)) newPath = Some newRel →
  ∃ d m, (if decide (sharedSnapshots e ≠ [] ∧ originalRelPath e ≠ "") then
     i' ← deref l;
     p ← rel (iOSPath i');
     reattachSharedSnapshotsLocked user (originalRelPath e)
       (default (originalRelPath e) p) (sharedSnapshots e)
   else mret tt) w
  = (set_disk d (set_outbox (sent_all w (share_calls user (originalRelPath e) newRel (shares_of e)))
       (set_srv (set_dirShares m (srv w)) w)), Ok tt)
  ∧ shares_with (originalRelPath e) newRel (shares_of e) (Shared (srv w)) m.
Proof.
  intros Hl <- Hrel. unfold shares_of. case_decide as Hc.
  - rewrite decide_False by tauto. erewrite bind_run by by apply run_deref.
    erewrite bind_run by by apply rel_known. apply reattach_run.
  - assert ((if decide (originalRelPath e = "") then [] else sharedSnapshots e) = []) as ->.
    { case_decide; [done|]. destruct (sharedSnapshots e); [done|]. exfalso. by apply Hc. }
    exists (disk w), (Shared (srv w)). split; [|exact (shares_with_foldl _ _ [] _)].
    unfold sent_all. simpl. rewrite app_nil_r. destruct w as [[] ? ? ?]. simpl. by case_decide.
Qed.

Lemma restore_commit_run R w user key e l p t i ti n os nt :
  server_wf R (srv w) → live (srv w) l i → iParent i = Some p → p ≠ l → live (srv w) t ti →
  iType ti = InodeTypeDirectory → ¬ below (srv w) l t → t ≠ p → name_ok n → at_path R os i →
  at_path R nt ti → (∀ x xi, live (srv w) x xi → ¬ at_path R (nt ++ [n]) xi) →
  ∃ w', restore_commit user key e l t n (Join [iOSPath ti; n]) (rel_path os) w = (w', Ok n)
    ∧ server_wf R (srv w')
    ∧ moved (repathed (srv w) l (Join [iOSPath ti; n])) (srv w) (srv w') l p t (iFID i) n
    ∧ trashMeta (srv w') = delete key (trashMeta (srv w))
    ∧ shares_with (originalRelPath e) (rel_path (nt ++ [n])) (shares_of e) (Shared (srv w)) (Shared (srv w'))
    ∧ outbox w' = sent_all w (share_calls user (originalRelPath e) (rel_path (nt ++ [n])) (shares_of e)).
Proof.
  intros Hwf Hl Hp Hpl Ht Hd Hb Htp Hn Hos Hnt Hfree.
  destruct (relink_run R w Hwf l p t i ti n (Join [iOSPath ti; n]) Hl Hp Hpl Ht Hd Hb Htp)
    as (h & Hrun2 & Hmv).
  destruct (move_commit_wf R w h l p t i ti n os nt) as (Hwf3 & Hmv3 & Hne & Hro & Hrn); try done.
  set (w2 := with_heap h w).
  destruct (rename_index_run w2 (rel_path os) (rel_path (nt ++ [n])) Hne) as [d3 Hrun3].
  match type of Hrun3 with _ = (?v, _) => set (w3 := v) in * end.
  destruct (mv_heap _ _ _ _ _ _ _ _ Hmv3 l i Hl) as (i' & Hl' & _ & _ & _ & _ & _ & _ & _ & _ & Hin).
  destruct (restore_shares_run w3 l i' user e (Join [iOSPath ti; n]) (rel_path (nt ++ [n])))
    as (d4 & m & Hrun4 & Hm); [done|by apply (Hin [] (trail_nil _ _))|exact Hrn|].
  eexists. split.
  { unfold restore_commit. erewrite bind_run by exact Hrun2.
    erewrite bind_run by (apply (rel_known w2 _ (rel_path (nt ++ [n]))); exact Hrn).
    erewrite bind_run by exact Hrun3. erewrite bind_run by exact Hrun4.
    by erewrite bind_run by done. }
  split_and!; [|split; try done; apply Hmv3|done|exact Hm|done].
  by apply (server_wf_ext R (srv w3)).
Qed.

Lemma is_trash_skel s s' user t : same_skel s s' → is_trash s' user t → is_trash s user t.
Proof.
  intros Hsk (r & ri & ti & Hu & Hr & Ht & Htr & Htp & Htn & Htt). pose proof (symmetry Hsk) as Hsk'.
  destruct (live_skel _ _ _ _ Hsk' Hr) as (rj & Hrj & (Hrf&_)%skel_eq).
  destruct (live_skel _ _ _ _ Hsk' Ht) as (tj & Htj & (_&Htt'&Htn'&_&Htp'&_)%skel_eq).
  exists r, rj, tj. destruct Hsk as (_ & Hus & _). rewrite Hus in Hu. split_and!; congruence.
Qed.

Lemma clash_ok_skel s s' tg name id : same_skel s s' → clash_ok s tg name id → clash_ok s' tg name id.
Proof.
  intros Hsk Hcl c ci d di Hc Hcp Hct Hcn Hd Hdp Hdt. pose proof (symmetry Hsk) as Hsk'.
  destruct (live_skel _ _ _ _ Hsk' Hc) as (cj & Hcj & (_&_&Hn1&_&Hp1&_)%skel_eq).
  destruct (live_skel _ _ _ _ Hsk' Hd) as (dj & Hdj & (_&_&<-&_&Hp2&_)%skel_eq).
  apply (Hcl c cj d dj); congruence.
Qed.

Lemma entry_ok_refreshed w w0 user l i i0 e :
  refreshed w w0 → iFID i0 = iFID i →
  entry_ok (srv w) user l i e → entry_ok (srv w0) user l i0 e.
Proof.
  intros Href Hf [Hn Ht]. pose proof (refreshed_skel _ _ Href) as Hsk. split; [done|].
  intros tg Htg. assert (target_of (srv w) user e tg) as Htg'.
  { destruct Href as (h & -> & _). exact Htg. }
  destruct (Ht tg Htg') as (Hb & Htr & Hcl). split_and!.
  - by rewrite <-(below_skel_iff _ _ _ _ Hsk).
  - intros Hx. apply Htr. by apply (is_trash_skel _ (srv w0)).
  - rewrite Hf. by apply (clash_ok_skel (srv w)).
Qed.

Lemma restore_target_run R w user e :
  server_wf R (srv w) → is_Some (users (srv w) !! user) →
  ∃ tg tgi, restore_target user e w = (w, Ok tg) ∧ live (srv w) tg tgi ∧ target_of (srv w) user e tg.
Proof.
  intros Hwf [rf Hu]. unfold restore_target, target_of.
  destruct (s_user R _ Hwf user rf Hu) as (r & ri & Hr & <- & _).
  set (o := if decide (originalParentFID e = "") then None
            else inodes (srv w) !! originalParentFID e).
  assert ((if decide (originalParentFID e = "") then mret None else find (originalParentFID e)) w
          = (w, Ok o)) as Hrun by (unfold o; by case_decide).
  erewrite bind_run by exact Hrun. destruct o as [p|] eqn:Ho; subst o.
  - assert (inodes (srv w) !! originalParentFID e = Some p) as Hp by by case_decide.
    destruct (t_key _ (s_tree R _ Hwf) _ _ Hp) as (pi & Hpi & _). by exists p, pi.
  - exists r, ri. split_and!; [|done|exists (iFID ri); by split; [|apply Hr]].
    etrans; [apply (bind_run _ _ w w (Some (iFID ri))); by apply gsrv_known|]. cbv beta iota.
    etrans; [apply (bind_run _ _ w w (Some r)); by rewrite run_find, (proj1 Hr)|]. done.
Qed.

(** ** RestoreFile *)

Definition restorable s (user requester : string) l i (e : trashEntry) : Prop :=
  userCanAccess (iACL i) (requester_of user requester) = true
  ∧ trashMeta s !! FID_String (iFID i) = Some e
  ∧ ∃ t, is_trash s user t ∧ iParent i = Some t.

(** The end of [RestoreFile], once the record [e] of the inode is found. *)
Definition restore_place (user : string) f (e : trashEntry) l i : M (Server D) string :=
  target ← restore_target user e;
  tgi ← deref target;
  if decide (iType tgi ≠ InodeTypeDirectory) then
    throw (Errorf "internal error: restore target is not a directory" [])
  else
    finalName ← uniqueNameInDirLocked target (originalName e) (InodeID (iFID i));
    let newPath := Join [iOSPath tgi; finalName] in
    oldTrashRel ← rel (iOSPath i);
    wrap "failed to restore from trash: %w" [] (os (os_Rename (iOSPath i) newPath)) ;;
    restore_commit user (FID_String f) e l target finalName newPath (default "" oldTrashRel).

Lemma restore_place_wp R w user l i t e :
  server_wf R (srv w) → live (srv w) l i → iParent i = Some t → is_trash (srv w) user t →
  entry_ok (srv w) user l i e →
  wp (restore_place user (iFID i) e l i)
    (λ final w', restored R w user l i e final w w') (λ _ w', ∃ d, w' = set_disk d w) w.
Proof.
  intros Hwf Hl Hp Htrash [Hname Htarget]. unfold restore_place.
  pose proof Htrash as (r & ri & ti & Hur & Hr & Ht & Htnr & Htp & Htn & Htt).
  assert (t ≠ l) as Htl.
  { intros ->. rewrite (live_fun _ _ _ _ Ht Hl), Hp in Htp. by injection Htp. }
  destruct (restore_target_run R w user e Hwf) as (tg & tgi & Hrun2 & Htg & Hto); [by eexists|].
  destruct (Htarget tg Hto) as (Hbt & Hntr & Hclash).
  eapply wp_run; [exact Hrun2|]. eapply wp_run; [by apply run_deref_live|].
  case_decide as Hdir; [apply wp_throw; exists (disk w); by rewrite set_disk_id|].
  assert (tg ≠ t) as Htgt by (by intros ->).
  destruct (uniqueName_run w tg tgi (originalName e) (InodeID (iFID i)) (s_tree R _ Hwf) Htg)
    as (final & Hrun3 & Hfin).
  eapply wp_run; [exact Hrun3|]. cbv zeta.
  destruct (live_path R _ Hwf l i Hl) as [os Hos], (live_path R _ Hwf tg tgi Htg) as [nt Hnts].
  eapply wp_run; [by apply rel_known, (Rel_at_path R _ Hwf)|].
  apply wp_bind, wp_os; [|by eauto]. intros d _. set (v := set_disk d w).
  assert (name_ok final) as Hfok by (destruct Hfin as [[-> _]|[-> _]]; [done|by apply suffixed_ok]).
  assert (∀ x xi, live (srv v) x xi → ¬ at_path R (nt ++ [final]) xi) as Hfree.
  { apply (child_path_free R _ Hwf tg tgi nt final Htg Hnts). intros c ci Hc Hin.
    destruct Hfin as [[-> Hno]|[-> (d' & di & Hd & Hdp & Hdt & Hdn)]]; [exact (Hno c ci Hc Hin)|].
    destruct (child_at _ tg tgi (iFID ci) c (s_tree R _ Hwf) Htg Hin (proj1 Hc)) as (cj & Hcj & _ & Hcp & Hct).
    rewrite (live_fun _ _ _ _ Hcj Hc) in Hcp. by apply (Hclash d' di c ci). }
  destruct (restore_commit_run R v user (FID_String (iFID i)) e l t tg i tgi final os nt)
    as (w' & Hrun4 & Hwf' & Hmv & Htm & Hshs & Hout); try done.
  unfold wp. simpl default. rewrite Hrun4. clear Hrun4. split; try done; [apply refreshed_refl|].
  exists t, tg, tgi. split_and!; try done. by exists nt.
Qed.

Lemma restored_back R w w0 user l i i0 e final w' :
  refreshed w w0 → iFID i0 = iFID i → iParent i0 = iParent i →
  restored R w0 user l i0 e final w0 w' → restored R w user l i e final w0 w'.
Proof.
  intros Href Hf Hp [Hwf _ Htm Hmv].
  destruct (refreshed_srv _ _ Href) as (Hu & Ho & Hd & Hsh & Hms & Htr & Hix & Hrd).
  split; [done|done|by rewrite Htm, Htr, Hf|].
  rewrite Hp, Hf, Hsh in Hmv. unfold sent_all in *. by rewrite <-Hms, <-Ho.
Qed.

Lemma RestoreFile_wp R w user requester l i :
  server_wf R (srv w) → ids_left (srv w) 1 → live (srv w) l i →
  (∀ e, trashMeta (srv w) !! FID_String (iFID i) = Some e → entry_ok (srv w) user l i e) →
  wp (RestoreFile (Some (iFID i)) user requester)
    (λ final w', ∃ e w0, restorable (srv w) user requester l i e ∧ restored R w user l i e final w0 w')
    (λ _ w', server_wf R (srv w') ∧ ∃ w0, refreshed w w0 ∧ kept R w0 w') w.
Proof.
  intros Hwf Hids Hl Hent. unfold RestoreFile.
  destruct (GetInode_run w (iFID i) l i Hl eq_refl)
    as (w0 & i0 & Hget & Href & Hl0 & Heq & _ & _).
  eapply wp_run; [unfold catch; by rewrite Hget|]. cbv beta iota.
  pose proof (refreshed_wf _ _ _ Href Hwf) as Hwf0.
  destruct (refreshed_srv _ _ Href) as (Hu & Ho & Hd & Hsh & Hms & Htr & Hix & Hrd).
  apply size_free_eq in Heq as (Hf & Hty & Hn & Hpath & Hpar & Hch & Hbare).
  assert (iACL i0 = iACL i) as Hacl by (change (iACL (bare i0) = iACL (bare i)); by rewrite Hbare).
  assert (∀ w', kept R w0 w' → server_wf R (srv w') ∧ ∃ w0, refreshed w w0 ∧ kept R w0 w') as Hsame.
  { intros w' Hk. split; [apply Hk|]. by exists w0. }
  eapply wp_run; [by apply run_deref_live|]. fold (requester_of user requester).
  destruct (userCanAccess (iACL i0) (requester_of user requester)) eqn:Hacc; simpl negb; cbv iota.
  2:{ apply wp_throw, Hsame. split_and!; try done. by apply grows_refl. }
  pose proof (getOrCreateTrash_wp R user w0 Hwf0 ltac:(intros st Hst; apply Hids; congruence)) as Hwp.
  unfold wp in Hwp. destruct (getOrCreateTrashDirLocked user w0) as [w1 [t|er|m]] eqn:Hrun; [| |done].
  2:{ destruct Hwp as [[d ->] _]. unfold wp. erewrite bind_err by exact Hrun.
      apply Hsame. by apply kept_disk. }
  eapply wp_run; [exact Hrun|]. destruct Hwp as (Hwf1 & Hg & Ho1 & Hc1 & Htrash & _).
  assert (kept R w0 w1) as Hk1 by by split_and!.
  pose proof Htrash as (r & ri & ti & Hur & Hr & Ht & Htnr & Htp & Htn & Htt).
  eapply wp_run; [by apply run_deref_live|].
  destruct (t_parent _ (s_tree R _ Hwf0) l i0 Hl0) as (p & pi & Hp & Hpi & _). rewrite Hp.
  destruct (g_live _ _ _ _ Hg p pi Hpi) as (pi1 & Hpi1 & (Hpf&_)%links_eq & _).
  eapply wp_run; [by erewrite bind_run by by apply run_deref_live|].
  case_decide as Hin; [by apply wp_throw, Hsame|].
  assert (p = t) as ->.
  { apply (live_loc_fun _ _ _ _ _ Hpi1 Ht). apply FID_String_inj.
    destruct (decide (Some (FID_String (iFID pi1)) = Some (FID_String (iFID ti)))); [congruence|done]. }
  pose proof (is_trash_back R _ _ _ user t pi Hwf0 Hg Hpi Htrash) as Htrash0.
  rewrite (getOrCreateTrash_found R w0 user t Hwf0 Htrash0) in Hrun. injection Hrun as <-.
  eapply wp_run; [by apply gsrv_known|]. rewrite Htr.
  destruct (trashMeta (srv w) !! FID_String (iFID i)) as [e|] eqn:He; [|by apply wp_throw, Hsame].
  change (wp (restore_place user (iFID i) e l i0) (λ final w', ∃ e w0,
      restorable (srv w) user requester l i e ∧ restored R w user l i e final w0 w')
    (λ _ w', server_wf R (srv w') ∧ ∃ w0, refreshed w w0 ∧ kept R w0 w') w0).
  rewrite <-Hf. eapply wp_mono;
    [apply (restore_place_wp R w0 user l i0 t e); try done; by apply (entry_ok_refreshed w w0 user l i), Hent| |].
  - intros final w' Hr'. exists e, w0. split; [|by apply (restored_back R w w0 user l i i0)].
    split_and!; [by rewrite <-Hacl|done|]. exists t. rewrite <-Hpar. split; [|done].
    by apply (is_trash_skel _ (srv w0)); [apply refreshed_skel|].
  - intros er w' [d ->]. apply Hsame. by apply kept_disk.
Qed.

(** C9. [RestoreFile] never panics on an inode that exists, whose record makes sense
    ([entry_ok]: its name is one component, the place it goes back to is neither below it
    nor the trash, and the name a clash there would be resolved to is free) while an id is
    left.  It succeeds only when the requester has access and the inode is a
    direct child of the trash of the user with a record.  It then moves exactly that
    subtree to the original parent while that one lives, else to the root of the
    user, under the original name or the suffixed one, attaches exactly the recorded
    shares under the new path, tells the metaserver, forgets the record and keeps
    the invariant.  A failure changes nothing but that the trash directory may have
    been made and recorded sizes read again. *)
Theorem RestoreFile_correct R w user requester l i :
  server_wf R (srv w) → ids_left (srv w) 1 → live (srv w) l i →
  (∀ e, trashMeta (srv w) !! FID_String (iFID i) = Some e → entry_ok (srv w) user l i e) →
  let '(w', r) := RestoreFile (Some (iFID i)) user requester w in
  match r with
  | Ok final => ∃ e w0, restorable (srv w) user requester l i e
                        ∧ restored R w user l i e final w0 w'
  | Err _ => server_wf R (srv w') ∧ ∃ w0, refreshed w w0 ∧ kept R w0 w'
  | Panic _ => False
  end.
Proof.
  intros Hwf Hids Hl He. pose proof (RestoreFile_wp R w user requester l i Hwf Hids Hl He) as Hwp.
  unfold wp in Hwp. by destruct (RestoreFile _ _ _ _) as [w' [final|e|m]].
Qed.
End restore.

(** ** Putting a subtree back *)

Lemma filter_keep {A} (P : A → Prop) `{∀ a, Decision (P a)} (k : list A) :
  (∀ a, a ∈ k → P a) → filter P k = k.
Proof.
  induction k as [|a k IH]; intros Hk; [done|].
  rewrite filter_cons_True by (apply Hk, list_elem_of_here). f_equal. apply IH. intros b Hb.
  by apply Hk, list_elem_of_further.
Qed.

(** A record of names has the same paths on both sides. *)
Lemma same_paths R s s' :
  server_wf R s → server_wf R s' →
  (∀ x xi, live s x xi → ∃ xi', live s' x xi' ∧ iName xi' = iName xi ∧ iParent xi' = iParent xi) →
  ∀ x xi ns, live s x xi → at_path R ns xi → ∃ xi', live s' x xi' ∧ at_path R ns xi'.
Proof.
  intros Hwf Hwf' Hsame x xi ns Hx Hns. destruct (t_rank s (s_tree R s Hwf)) as [rank Hr].
  remember (rank x) as n eqn:Hn. revert x xi ns Hn Hx Hns.
  induction (lt_wf n) as [n _ IH]. intros x xi ns -> Hx Hns.
  destruct (Hsame x xi Hx) as (xi' & Hx' & Hn & Hp). exists xi'. split; [done|].
  destruct (t_parent s (s_tree R s Hwf) x xi Hx) as (q & qi & Hq & Hql & _).
  destruct (decide (q = x)) as [->|Hne].
  - destruct (s_root R s Hwf x xi Hx Hq) as (_ & _ & _ & Hat).
    rewrite (at_path_fun R s Hwf xi ns _ Hns Hat), <-Hn. apply (s_root R s' Hwf' x xi' Hx'). congruence.
  - destruct (live_path R s Hwf q qi Hql) as [ms Hms].
    destruct (IH (rank q) (Hr x xi q Hx Hq Hne) q qi ms eq_refl Hql Hms) as (qi' & Hq' & Hms').
    rewrite (at_path_fun R s Hwf xi ns _ Hns (at_path_child R s Hwf x xi q qi ms Hx Hq Hne Hql Hms)).
    rewrite <-Hn. apply (at_path_child R s' Hwf' x xi' q qi'); try done. congruence.
Qed.

Section cancel.
Context (R : list string) (s s' s0 s'' : FileServer) (Hwf : server_wf R s) (Hwf'' : server_wf R s'').
Context (l p t : loc) (i : Inode) (n : string) (P1 P2 : loc → Inode → Inode → Prop).
Context (Hl : live s l i) (Hp : iParent i = Some p) (Hpl : p ≠ l) (Htp : t ≠ p) (Htl : t ≠ l).
Context (H1 : moved P1 s s' l p t (iFID i) n).
Context (Hin : inodes s0 = inodes s') (Hh : ∀ x, set_iSize 0 <$> heap s0 !! x = set_iSize 0 <$> heap s' !! x).
Context (H2 : moved P2 s0 s'' l t p (iFID i) (iName i)).

Lemma not_child_of_other x xi : live s x xi → x ≠ p → iFID i ∉ iChildren xi.
Proof.
  intros Hx Hxp Hc. destruct (find_child s x xi _ (s_tree R s Hwf) Hx Hc) as (c & ci & _ & Hcl & Hcf & Hcp & _).
  rewrite (live_loc_fun s c l ci i Hcl Hl Hcf) in Hcl. rewrite (live_fun _ _ _ _ Hcl Hl) in Hcp.
  congruence.
Qed.

Lemma cancel_fwd x xi : live s x xi → ∃ xi'', live s'' x xi''
  ∧ iFID xi'' = iFID xi ∧ iType xi'' = iType xi ∧ iACL xi'' = iACL xi ∧ iName xi'' = iName xi
  ∧ iParent xi'' = iParent xi
  ∧ iChildren xi'' = if decide (x = p) then drop_child (FID_String (iFID i)) (iChildren xi) ++ [iFID i]
                     else iChildren xi.
Proof.
  intros Hx. pose proof Hx as [Hk Hhx].
  destruct (mv_heap _ _ _ _ _ _ _ _ H1 x xi Hx) as (xi' & Hx' & Hf1 & Ht1 & Ha1 & _ & Hn1 & Hp1 & Hc1 & _).
  pose proof (Hh x) as Hhx0. rewrite Hx' in Hhx0. destruct (heap s0 !! x) as [x0|] eqn:Hx0; [|done].
  apply (inj Some), size_free_eq in Hhx0 as (Hf0 & Ht0 & Hn0 & _ & Hp0 & Hc0 & Hb0).
  assert (iACL x0 = iACL xi') as Ha0 by (change (iACL (bare x0) = iACL (bare xi')); by rewrite Hb0).
  assert (live s0 x x0) as Hl0.
  { split; [|done]. by rewrite Hin, (mv_inodes _ _ _ _ _ _ _ _ H1), Hf0, Hf1. }
  destruct (mv_heap _ _ _ _ _ _ _ _ H2 x x0 Hl0) as (x2 & Hx2 & Hf2 & Ht2 & Ha2 & _ & Hn2 & Hp2 & Hc2 & _).
  exists x2. split.
  { split; [|done]. by rewrite (mv_inodes _ _ _ _ _ _ _ _ H2), Hf2, (proj1 Hl0). }
  split_and!; try congruence.
  - rewrite Hn2, Hn0, Hn1. case_decide as Hxl; [|done]. subst x. by rewrite (live_fun _ _ _ _ Hx Hl).
  - rewrite Hp2, Hp0, Hp1. case_decide as Hxl; [|done]. subst x. by rewrite (live_fun _ _ _ _ Hx Hl).
  - rewrite Hc2, Hc0, Hc1. unfold moved_children. destruct (decide (x = p)) as [->|Hxp].
    + by rewrite decide_False by done.
    + destruct (decide (x = t)) as [->|Hxt]; [|done]. unfold drop_child.
      rewrite filter_app, filter_cons_False, filter_nil, app_nil_r by (intros Hx3; by apply Hx3).
      apply filter_keep. intros f Hf Heq%FID_String_inj. subst f.
      by apply (not_child_of_other t xi Hx Hxp).
Qed.

Lemma cancel_paths x xi : live s x xi → ∃ xi'', live s'' x xi'' ∧ iOSPath xi'' = iOSPath xi.
Proof.
  intros Hx. destruct (live_path R s Hwf x xi Hx) as [ns Hns].
  destruct (same_paths R s s'' Hwf Hwf'') with x xi ns as (xi'' & Hx'' & Hns''); try done.
  - intros y yi Hy. destruct (cancel_fwd y yi Hy) as (yi' & Hy' & _ & _ & _ & Hn & Hpar & _).
    by exists yi'.
  - exists xi''. split; [done|]. destruct Hns as (_ & _ & ->), Hns'' as (_ & _ & ->). done.
Qed.
End cancel.

(** ** The shares come back *)

(** The paths of the table of shares are those of directories. *)
Definition shares_canonical s : Prop :=
  ∀ k, is_Some (Shared s !! k) → ∃ ns, ns ≠ [] ∧ Forall name_ok ns ∧ k = rel_path ns.

Lemma Join_rel ns ms :
  ns ≠ [] → ms ≠ [] → Forall name_ok ns → Forall name_ok ms →
  Join [rel_path ns; rel_path ms] = rel_path (ns ++ ms).
Proof.
  intros Hn Hm Hno Hmo. unfold Join. rewrite decide_False by by apply rel_path_nonempty.
  change (SJoin slash [rel_path ns; rel_path ms]) with (rel_path ns +:+ "/" +:+ rel_path ms).
  rewrite <-rel_path_app by done. unfold rel_path. apply SJoin_Clean; [by destruct ns|].
  by apply names_comp_ok, Forall_app.
Qed.

Lemma map_snap_same os ns :
  os ≠ [] → Forall name_ok os → ns ≠ [] → Forall name_ok ns →
  map_snap_path (rel_path os) (rel_path os) (rel_path ns) = rel_path ns.
Proof.
  intros Ho Hoo Hn Hno. unfold map_snap_path. case_decide as Heq; [done|].
  destruct (HasPrefix (rel_path ns) (rel_path os +:+ "/")) eqn:Hpre; [|done].
  destruct (within_names os ns) as [r ->]; try done; [by apply within_spec; right|].
  assert (r ≠ []) as Hr by (intros ->; by rewrite app_nil_r in Heq).
  apply Forall_app in Hno as [_ Hr']. rewrite rel_path_app, <-string_app_assoc, TrimPrefix_app by done.
  rewrite string_app_assoc, <-rel_path_app by done. by apply Join_rel.
Qed.

Lemma collect_elem s base snap :
  base ≠ "" → snap ∈ collectSharedSnapshots s base
    ↔ Shared s !! snapPath snap = Some (snapUsers snap) ∧ snap_under base (snapPath snap) = true.
Proof.
  intros Hb. unfold collectSharedSnapshots. rewrite decide_False by done.
  rewrite (elem_of_Permutation_proper _ _ _ (merge_sort_Permutation _ _)), list_elem_of_fmap. split.
  - intros ([k us] & -> & Hin). apply list_elem_of_filter in Hin as [Hu Hin%elem_of_map_to_list]. done.
  - intros [Hk Hu]. exists (snapPath snap, snapUsers snap). destruct snap as [k us]. split; [done|].
    apply list_elem_of_filter. split; [done|]. by apply elem_of_map_to_list.
Qed.

Lemma shares_back s os m' m'' :
  shares_canonical s → os ≠ [] → Forall name_ok os →
  shares_without (Shared s) (rel_path os) m' →
  shares_with (rel_path os) (rel_path os) (collectSharedSnapshots s (rel_path os)) m' m'' →
  ∀ k u, shared_at m'' k u ↔ shared_at (Shared s) k u.
Proof.
  intros Hcan Ho Hoo Hout Hin k u. pose proof (rel_path_nonempty os Ho Hoo) as Hne.
  rewrite (proj2 (Hin k)). unfold shared_at at 1. rewrite (Hout k). split.
  - intros [(us & Hus & Hu)|(snap & Hs & Hk & Hu)].
    + destruct (snap_under _ k); [done|]. by exists us.
    + apply collect_elem in Hs as [Hs _]; [|done]. destruct (Hcan (snapPath snap)) as (ns & Hn & Hno & Hns); [eauto|].
      rewrite Hns, map_snap_same in Hk by done. rewrite Hns, Hk in Hs. by exists (snapUsers snap).
  - intros (us & Hus & Hu). destruct (snap_under (rel_path os) k) eqn:Hun; [right|left; eauto].
    exists (mkSnap k us). destruct (Hcan k) as (ns & Hn & Hno & ->); [eauto|].
    split_and!; [by apply collect_elem|by apply map_snap_same|done].
Qed.

(** ** The round trip *)

Section moved.
Context (R : list string) (s s' : FileServer) (Hwf : server_wf R s).
Context (l p t : loc) (i : Inode) (n : string) (P : loc → Inode → Inode → Prop).
Context (Hl : live s l i) (Hp : iParent i = Some p) (Hpl : p ≠ l) (Htp : t ≠ p) (Htl : t ≠ l).
Context (Hmv : moved P s s' l p t (iFID i) n).

Lemma moved_below x : below s' l x → below s l x.
Proof.
  induction 1 as [|q x xi' Hb IH Hx Hq Hqx]; [constructor|].
  destruct (move_live R s s' Hwf l p t i n P Hmv x xi' Hx)
    as (xi & Hxi & _ & _ & _ & _ & Hpar & _). rewrite Hpar in Hq.
  destruct (decide (x = l)) as [->|Hxl]; [constructor|]. by apply (below_step _ l q x xi).
Qed.

Lemma moved_is_trash user : is_trash s user t → is_trash s' user t.
Proof.
  intros (r & ri & ti & Hu & Hr & Ht & Htr & Htpar & Htn & Htt).
  destruct (move_fwd s s' l p t i n P Hmv r ri Hr) as (ri' & Hr' & Hf & _).
  destruct (move_fwd s s' l p t i n P Hmv t ti Ht) as (ti' & Ht' & _ & Hty & _ & Hn & Hpar & _).
  rewrite decide_False in Hn by done. rewrite decide_False in Hpar by done.
  exists r, ri', ti'. rewrite (mv_users _ _ _ _ _ _ _ _ Hmv). split_and!; congruence.
Qed.

(** Its name is free in the directory it left. *)
Lemma moved_no_clash c ci : live s' c ci → iParent ci = Some p → c ≠ p → iName ci ≠ iName i.
Proof.
  intros Hc Hcp Hne Hn.
  destruct (move_live R s s' Hwf l p t i n P Hmv c ci Hc) as (cj & Hcj & _ & _ & _ & Hnc & Hpar & _).
  destruct (decide (c = l)) as [->|Hcl]; [congruence|].
  destruct (t_parent s (s_tree R s Hwf) l i Hl) as (q & pi & Hq & Hpi & _).
  assert (q = p) as -> by congruence. destruct (live_path R s Hwf p pi Hpi) as [ns Hns].
  apply Hcl, (at_path_inj R s Hwf c cj l i (ns ++ [iName i])); try done.
  - rewrite <-Hn, Hnc. apply (at_path_child R s Hwf c cj p pi); try done; congruence.
  - by apply (at_path_child R s Hwf l i p pi).
Qed.
End moved.

Section roundtrip.
Context {D : Type} `{Env D}.
Implicit Types (w : Server D).

(** What [TrashFile] records makes sense, and leads back to the old parent. *)
Lemma trashed_entry_ok R w user l i final w1 w' i' :
  trashed R w user l i final w1 w' → server_wf R (srv w1) → live (srv w') l i' →
  ∀ e, trashMeta (srv w') !! FID_String (iFID i) = Some e → entry_ok (srv w') user l i' e.
Proof.
  intros [Hwf' _ (t & ti & p & pi & i1 & Htr & Ht & Hl1 & Hf1 & Hn1 & Hp1 & Hpa1 & Hp & Hpl & Hpt & Hpi
    & Hb & _ & Hmv & os & _ & Htm & _)] Hwf1 Hl' e.
  rewrite Htm, lookup_insert_eq. intros [= <-]. rewrite <-Hf1 in Hmv.
  assert (t ≠ l) as Htl by (intros ->; apply Hb; constructor).
  pose proof (child_name_ok R _ l i1 p Hwf1 Hl1 Hp1 Hpl) as Hok. split; simpl; [by rewrite <-Hn1|].
  intros tg Htg. assert (tg = p) as ->.
  { unfold target_of in Htg. simpl in Htg. rewrite decide_False in Htg.
    - by rewrite (mv_inodes _ _ _ _ _ _ _ _ Hmv), (proj1 Hpi) in Htg.
    - apply FID_String_nonempty. }
  split_and!.
  - intros Hx%(moved_below R _ _ Hwf1 l p t i1 final _ Hmv).
    apply Hpl, (below_antisym _ p l (s_tree R _ Hwf1)); [|done].
    by apply (below_of_child _ p l i1); [..|by apply not_eq_sym].
  - intros Hx. apply Hpt, (is_trash_fun R _ user p t Hwf' Hx).
    by apply (moved_is_trash (srv w1) _ l p t i1 final _ Htl Hmv).
  - intros c ci d di Hc Hcp Hcne Hcn. exfalso. rewrite <-Hn1 in Hcn. revert Hcn.
    by apply (moved_no_clash R (srv w1) (srv w') Hwf1 l p t i1 final _ Hl1 Hp1 Hpl
               (not_eq_sym Hpt) Hmv c ci).
Qed.

(** The path below the old parent is the old path. *)
Lemma old_place R s s' s0 l p t i n newPath (pi0 : Inode) nt os :
  server_wf R s → live s l i → iParent i = Some p → p ≠ l →
  moved (repathed s l newPath) s s' l p t (iFID i) n →
  (∀ x, set_iSize 0 <$> heap s0 !! x = set_iSize 0 <$> heap s' !! x) → live s0 p pi0 →
  at_path R nt pi0 → at_path R os i → nt ++ [iName i] = os.
Proof.
  intros Hwf Hl Hp Hpl Hmv Hh [_ Hp0] Hnt Hos.
  destruct (t_parent s (s_tree R s Hwf) l i Hl) as (q & pi & Hq & Hpi & _).
  assert (q = p) as -> by congruence.
  destruct (mv_heap _ _ _ _ _ _ _ _ Hmv p pi Hpi) as (pi' & Hp' & _ & _ & _ & _ & _ & _ & _ & Hout & _).
  pose proof (Hh p) as Hpp. rewrite Hp0, Hp' in Hpp.
  apply (inj Some), size_free_eq in Hpp as (_ & _ & _ & Hpath & _).
  assert (at_path R nt pi) as Hat.
  { destruct Hnt as (? & ? & Hx). split_and!; try done. rewrite <-Hx, Hpath. symmetry. apply Hout.
    intros Hb. apply Hpl, (below_antisym _ p l (s_tree R _ Hwf)); [|done].
    by apply (below_of_child _ p l i); [..|by apply not_eq_sym]. }
  apply (at_path_fun R s Hwf i); [|done]. by apply (at_path_child R s Hwf l i p pi).
Qed.

(** The server [s''] is [s] but for the place of [f] in the list of [p] and sizes. *)
Definition put_back s (p : loc) f s'' : Prop :=
  inodes s'' = inodes s ∧ users s'' = users s
  ∧ ∀ x xi, live s x xi → ∃ xi'', live s'' x xi''
      ∧ iFID xi'' = iFID xi ∧ iType xi'' = iType xi ∧ iACL xi'' = iACL xi ∧ iName xi'' = iName xi
      ∧ iParent xi'' = iParent xi ∧ iOSPath xi'' = iOSPath xi
      ∧ iChildren xi'' = if decide (x = p) then drop_child (FID_String f) (iChildren xi) ++ [f]
                         else iChildren xi.

Lemma restored_put_back R w user l i final w1 w' i' e name w0 w'' :
  trashed R w user l i final w1 w' → server_wf R (srv w1) → iFID i' = iFID i →
  trashMeta (srv w') !! FID_String (iFID i) = Some e →
  restored R w' user l i' e name w0 w'' → shares_canonical (srv w) →
  name = iName i ∧ (∀ k u, shared_at (Shared (srv w'')) k u ↔ shared_at (Shared (srv w)) k u)
  ∧ ∃ p, iParent i = Some p ∧ put_back (srv w1) p (iFID i) (srv w'').
Proof.
  intros [Hwf' _ (t & ti & p & pi & i1 & Htr & Ht & Hl1 & Hf1 & Hn1 & Hp1 & Hpa1 & Hp & Hpl & Hpt & Hpi
    & Hb & _ & Hmv & os & Hos & Htm & Hshs & _)] Hwf1 Hf'.
  rewrite Htm, lookup_insert_eq. intros [= <-].
  intros [Hwf'' Href _ (t' & tg & tgi & Htr' & Hp' & Htl' & Httg & Hto & Htg & _ & Hname & Hmv2 & nt & Hnt & Hsw & _)] Hcan.
  assert (t ≠ l) as Htl by (intros ->; apply Hb; constructor). rewrite <-Hf1 in Hmv.
  pose proof (refreshed_skel _ _ Href) as Hsk. destruct Href as (h & -> & Hh). simpl in Hname, Hto, Htg.
  assert (t' = t) as ->.
  { apply (is_trash_fun R _ user _ _ Hwf'); [by apply (is_trash_skel _ (srv (with_heap h w')))|].
    by apply (moved_is_trash (srv w1) _ l p t i1 final _ Htl Hmv). }
  assert (tg = p) as ->.
  { unfold target_of in Hto. simpl in Hto.
    rewrite decide_False in Hto by apply FID_String_nonempty.
    by rewrite (mv_inodes _ _ _ _ _ _ _ _ Hmv), (proj1 Hpi) in Hto. }
  assert (name = iName i1) as ->.
  { rewrite Hn1. destruct Hname as [[-> _]|(_ & c & ci & Hc & Hcp & Hcne & Hcn)]; [done|].
    pose proof (symmetry Hsk) as Hsk'.
    destruct (live_skel _ _ _ _ Hsk' Hc) as (cj & Hcj & (_&_&Hn2&_&Hp2&_)%skel_eq).
    exfalso. apply (moved_no_clash R (srv w1) (srv w') Hwf1 l p t i1 final _ Hl1 Hp1 Hpl
      (not_eq_sym Hpt) Hmv c cj); try done; [congruence|]. simpl in Hcn. congruence. }
  split; [done|]. split.
  { unfold shares_of in Hsw. simpl in Hsw.
    assert (at_path R os i1) as Hos1 by (unfold at_path in *; by rewrite Hpa1).
    rewrite (old_place R (srv w1) (srv w') (srv (with_heap h w')) l p t i1 final _ tgi nt os Hwf1 Hl1 Hp1
      Hpl Hmv Hh Htg Hnt Hos1) in Hsw.
    destruct Hos as (Hne & Hok & _). rewrite decide_False in Hsw by by apply rel_path_nonempty.
    by apply (shares_back (srv w) os (Shared (srv w'))). }
  exists p. split; [done|]. rewrite Hf', <-Hf1 in Hmv2. split_and!.
  - etrans; [apply (mv_inodes _ _ _ _ _ _ _ _ Hmv2)|apply (mv_inodes _ _ _ _ _ _ _ _ Hmv)].
  - etrans; [apply (mv_users _ _ _ _ _ _ _ _ Hmv2)|apply (mv_users _ _ _ _ _ _ _ _ Hmv)].
  - intros x xi Hx.
    destruct (cancel_fwd R (srv w1) (srv w') (srv (with_heap h w')) (srv w'') Hwf1 l p t i1 final _ _ Hl1 Hp1
      (not_eq_sym Hpt) Hmv eq_refl Hh Hmv2 x xi Hx) as (x2 & Hx2 & ?&?&?&?&?& Hch).
    destruct (cancel_paths R (srv w1) (srv w') (srv (with_heap h w')) (srv w'') Hwf1 Hwf'' l p t i1 final _ _ Hl1 Hp1
      (not_eq_sym Hpt) Hmv eq_refl Hh Hmv2 x xi Hx) as (x3 & Hx3 & Hpath).
    rewrite (live_fun _ _ _ _ Hx3 Hx2) in Hpath. exists x2. split_and!; try done. by rewrite <-Hf1.
Qed.

(** C10. Restoring what was trashed puts it back: when both calls go through, the
    inode has its old name, every inode is where it was, with the same FID, type,
    ACL, parent, path and children, but that the restored entry is now the last of
    its parent, and the trash directory and refreshed file sizes; the record is
    gone and the shares of every path are those there were. *)
Theorem Restore_undoes_Trash R w user rec l i w' final requester w'' name :
  server_wf R (srv w) → ids_left (srv w) 1 → live (srv w) l i →
  suffix_free (srv w) user (iName i) (InodeID (iFID i)) → shares_canonical (srv w) →
  TrashFile (Some (iFID i)) user rec w = (w', Ok final) → ids_left (srv w') 1 →
  RestoreFile (Some (iFID i)) user requester w' = (w'', Ok name) →
  name = iName i ∧ server_wf R (srv w'')
  ∧ trashMeta (srv w'') = delete (FID_String (iFID i)) (trashMeta (srv w))
  ∧ (∀ k u, shared_at (Shared (srv w'')) k u ↔ shared_at (Shared (srv w)) k u)
  ∧ ∃ w0 w1 p, refreshed w w0 ∧ kept R w0 w1 ∧ iParent i = Some p
               ∧ put_back (srv w1) p (iFID i) (srv w'').
Proof.
  intros Hwf Hids Hl Hs Hcan Hrun Hids' Hrun'.
  pose proof (TrashFile_wp R w user rec l i Hwf Hids Hl Hs) as Hwp. unfold wp in Hwp.
  rewrite Hrun in Hwp. destruct Hwp as (_ & w1 & Htd). pose proof (td_wf _ _ _ _ _ _ _ _ Htd) as Hwf'.
  destruct (td_prepared _ _ _ _ _ _ _ _ Htd) as (w0 & Href & Hk). pose proof (proj1 Hk) as Hwf1.
  pose proof Htd as [_ _ (t & ti & p & pi & i1 & Htr & Ht & Hl1 & Hf1 & Hn1 & Hp1 & Hpa1 & Hp & Hpl & Hpt
    & Hpi & Hb & _ & Hmv & os & Hos & Htm & Hshs & _)].
  destruct (move_fwd (srv w1) (srv w') l p t i1 final _ ltac:(rewrite Hf1; exact Hmv) l i1 Hl1)
    as (i' & Hl' & Hf' & _). rewrite Hf1 in Hf'.
  pose proof (RestoreFile_wp R w' user requester l i' Hwf' Hids' Hl') as Hwp.
  rewrite Hf' in Hwp. unfold wp in Hwp. rewrite Hrun' in Hwp.
  destruct Hwp as (e & w2 & (_ & He & _) & Hrs).
  { intros e He. by apply (trashed_entry_ok R w user l i final w1 w' i' Htd Hwf1 Hl'). }
  rewrite Hf' in He.
  destruct (restored_put_back R w user l i final w1 w' i' e name w2 w'' Htd Hwf1 Hf' He Hrs Hcan)
    as (-> & Hback1 & p' & Hp' & Hback).
  split; [done|]. split; [apply Hrs|].
  rewrite Htm, lookup_insert_eq in He. injection He as <-. split_and!.
  - rewrite (rs_meta _ _ _ _ _ _ _ _ _ Hrs), Htm, Hf'. by rewrite delete_insert_eq.
  - done.
  - exists w0, w1, p'. by split_and!.
Qed.
End roundtrip.

(** ** The theorems on a concrete server *)

Lemma shares_canonicalb_sound s :
  forallb (λ kv, forallb name_okb (Split slash kv.1)) (map_to_list (Shared s)) = true →
  shares_canonical s.
Proof.
  intros Hb k [us Hk]. exists (Split slash k). split_and!.
  - apply Split_nonempty.
  - rewrite forallb_forall in Hb. specialize (Hb (k, us)). simpl in Hb.
    apply Forall_forall. intros n Hn. apply name_okb_sound.
    assert (forallb name_okb (Split slash k) = true) as Hx
      by (apply Hb, list_elem_of_In, elem_of_map_to_list; exact Hk).
    rewrite forallb_forall in Hx. apply Hx, list_elem_of_In. exact Hn.
  - symmetry. apply SJoin_Split.
Qed.

(** [demo_shared] after ann trashed [doc]. *)
Definition demo_trashed : Server MemDisk :=
  Eval vm_compute in (TrashFile (Some doc_fid) "ann" true demo_shared).1.
Definition trashed_doc : Inode := Eval vm_compute in inode_of demo_trashed doc_loc.

Lemma demo_trashed_run : TrashFile (Some doc_fid) "ann" true demo_shared = (demo_trashed, Ok "doc").
Proof. vm_compute. reflexivity. Qed.

Definition shared_doc : Inode := Eval vm_compute in inode_of demo_shared doc_loc.

Lemma demo_trashed_entry :
  server_wf ["srv"] (srv demo_trashed) ∧ live (srv demo_trashed) doc_loc trashed_doc
  ∧ ∀ e, trashMeta (srv demo_trashed) !! FID_String (iFID trashed_doc) = Some e →
         entry_ok (srv demo_trashed) "ann" doc_loc trashed_doc e.
Proof.
  assert (server_wf ["srv"] (srv demo_shared)) as Hwf
    by (apply (server_wfb_sound _ Pos.to_nat); vm_compute; reflexivity).
  assert (live (srv demo_shared) doc_loc shared_doc) as Hl by (split; vm_compute; reflexivity).
  assert (live (srv demo_trashed) doc_loc trashed_doc) as Hl' by (split; vm_compute; reflexivity).
  assert (suffix_free (srv demo_shared) "ann" (iName shared_doc) (InodeID (iFID shared_doc))) as Hs
    by (apply suffix_free_check; vm_compute; reflexivity).
  pose proof (TrashFile_wp ["srv"] demo_shared "ann" true doc_loc shared_doc Hwf
    ltac:(intros st [= <-]; vm_compute; reflexivity) Hl Hs) as Hwp. unfold wp in Hwp.
  change (Some (iFID shared_doc)) with (Some doc_fid) in Hwp. rewrite demo_trashed_run in Hwp.
  destruct Hwp as (_ & w1 & Htd). split; [by apply (td_wf _ _ _ _ _ _ _ _ Htd)|]. split; [done|].
  destruct (td_prepared _ _ _ _ _ _ _ _ Htd) as (w0 & _ & Hk).
  by apply (trashed_entry_ok ["srv"] demo_shared "ann" doc_loc shared_doc "doc" w1 _ _ Htd (proj1 Hk)).
Qed.

Lemma RestoreFile_correct_witness :
  server_wf ["srv"] (srv demo_trashed) ∧ ids_left (srv demo_trashed) 1
  ∧ live (srv demo_trashed) doc_loc trashed_doc
  ∧ ∃ w' e w0, RestoreFile (Some doc_fid) "ann" "ann" demo_trashed = (w', Ok "doc")
               ∧ restored ["srv"] demo_trashed "ann" doc_loc trashed_doc e "doc" w0 w'.
Proof.
  destruct demo_trashed_entry as (Hwf & Hl & He).
  assert (ids_left (srv demo_trashed) 1) as Hids by (intros st [= <-]; vm_compute; reflexivity).
  split; [exact Hwf|]. split; [exact Hids|]. split; [exact Hl|].
  pose proof (RestoreFile_correct ["srv"] demo_trashed "ann" "ann" doc_loc trashed_doc Hwf Hids Hl He)
    as Hr.
  change (Some (iFID trashed_doc)) with (Some doc_fid) in Hr.
  assert ((RestoreFile (Some doc_fid) "ann" "ann" demo_trashed).2 = Ok "doc") as Ho
    by (vm_compute; reflexivity).
  destruct (RestoreFile (Some doc_fid) "ann" "ann" demo_trashed) as [w' r] eqn:Hrun.
  simpl in Ho. subst r. destruct Hr as (e & w0 & _ & Hr). exists w', e, w0. split; [reflexivity|exact Hr].
Defined.

Lemma Restore_undoes_Trash_witness :
  ∃ w'', RestoreFile (Some doc_fid) "ann" "ann" demo_trashed = (w'', Ok "doc")
    ∧ (∀ k u, shared_at (Shared (srv w'')) k u ↔ shared_at (Shared (srv demo_shared)) k u)
    ∧ shared_at (Shared (srv demo_shared)) "ann/doc" "bob".
Proof.
  assert (server_wf ["srv"] (srv demo_shared)) as Hwf
    by (apply (server_wfb_sound _ Pos.to_nat); vm_compute; reflexivity).
  assert (live (srv demo_shared) doc_loc shared_doc) as Hl by (split; vm_compute; reflexivity).
  assert (ids_left (srv demo_shared) 1) as Hids by (intros st [= <-]; vm_compute; reflexivity).
  assert (ids_left (srv demo_trashed) 1) as Hids' by (intros st [= <-]; vm_compute; reflexivity).
  assert (suffix_free (srv demo_shared) "ann" (iName shared_doc) (InodeID (iFID shared_doc))) as Hs
    by (apply suffix_free_check; vm_compute; reflexivity).
  assert (shares_canonical (srv demo_shared)) as Hc
    by (apply shares_canonicalb_sound; vm_compute; reflexivity).
  assert ((RestoreFile (Some doc_fid) "ann" "ann" demo_trashed).2 = Ok "doc") as Ho
    by (vm_compute; reflexivity).
  destruct (RestoreFile (Some doc_fid) "ann" "ann" demo_trashed) as [w'' r] eqn:Hrun.
  simpl in Ho. subst r. exists w''.
  destruct (Restore_undoes_Trash ["srv"] demo_shared "ann" true doc_loc shared_doc demo_trashed "doc"
    "ann" w'' "doc" Hwf Hids Hl Hs Hc demo_trashed_run Hids' Hrun) as (_ & _ & _ & Hsh & _).
  split; [reflexivity|]. split; [exact Hsh|]. exists ["bob"]. split; [vm_compute; reflexivity|].
  apply list_elem_of_here.
Defined.
