(* ===== verification/NavSpec.v ===== *)
(** * Navigation

    What [Path], [ChangeDir] and [ListDirectory] answer.  A relative path is read by
    the walk it describes in the tree, so the theorems say where a client ends up and,
    when it is refused, why; no path leads into the trash of the root it is used in. *)
From S2P Require Import FileServer Persist Tree TreeWf TreeRun Frames Invariant Grow Trash FileOps Demo WriteSpec.

Implicit Types (s : FileServer) (l p x y : loc) (i : Inode) (f : FID).

(** The steps of a relative path, one part at a time. *)
Inductive walks s : loc → list string → loc → Prop :=
  | walks_nil x : walks s x [] x
  | walks_stay x part rest y :
      part = "" ∨ part = "." → walks s x rest y → walks s x (part :: rest) y
  | walks_up x xi p rest y :
      live s x xi → iParent xi = Some p → walks s p rest y → walks s x (".." :: rest) y
  | walks_down x c ci rest y :
      live s c ci → iParent ci = Some x → c ≠ x → walks s c rest y →
      walks s x (iName ci :: rest) y.

#[export] Hint Constructors walks : dvfs.

(** The entry that guards the trash of the directory [rf]. *)
Definition trash_in s (rf : FID) (t : loc) : Prop :=
  ∃ r ri ti, live s r ri ∧ iFID ri = rf ∧ live s t ti ∧ t ≠ r ∧ iParent ti = Some r
             ∧ iName ti = trashDirName.

Lemma is_trash_in s user f t : users s !! user = Some f → is_trash s user t → trash_in s f t.
Proof. intros Hu (r & ri & ti & Hu' & ?). exists r, ri, ti. assert (f = iFID ri) by congruence. naive_solver. Qed.

(** The place is in the trash of the root, if there is a root with a trash. *)
Definition in_root_trash s (root : option FID) (x : loc) : Prop :=
  ∃ rf t, root = Some rf ∧ trash_in s rf t ∧ below s t x.

Section tree.
Context (R : list string) (s : FileServer) (Hwf : server_wf R s).

(** Two children of a directory differ in name. *)
Lemma child_name_fun p c ci c' ci' :
  live s c ci → live s c' ci' → iParent ci = Some p → iParent ci' = Some p → c ≠ p → c' ≠ p →
  iName ci = iName ci' → c = c'.
Proof.
  intros Hc Hc' Hp Hp' Hne Hne' Hn.
  destruct (t_parent s (s_tree R s Hwf) c ci Hc) as (q & pi & Hq & Hpl & _).
  assert (q = p) as -> by congruence. destruct (live_path R s Hwf p pi Hpl) as [ns Hns].
  apply (at_path_inj R s Hwf c ci c' ci' (ns ++ [iName ci])); try done.
  - by apply (at_path_child R s Hwf c ci p pi).
  - rewrite Hn. by apply (at_path_child R s Hwf c' ci' p pi).
Qed.

(** The name of a child is neither empty nor one of the two dots. *)
Lemma child_name_plain c ci p :
  live s c ci → iParent ci = Some p → c ≠ p → iName ci ≠ "" ∧ iName ci ≠ "." ∧ iName ci ≠ "..".
Proof.
  intros Hc Hp Hne. destruct (t_parent s (s_tree R s Hwf) c ci Hc) as (q & pi & Hq & Hpl & _).
  assert (q = p) as -> by congruence.
  destruct (s_path R s Hwf c ci p pi Hc Hp) as [[(?&?&?&_) _] _]; [congruence|done|done].
Qed.

Lemma walks_live x parts y xi : walks s x parts y → live s x xi → ∃ yi, live s y yi.
Proof.
  intros Hw. revert xi. induction Hw as [|x part rest y Hpart Hw IH|x xj p rest y Hx Hp Hw IH|
    x c ci rest y Hc Hcp Hne Hw IH]; intros xi Hxi; [by exists xi|by eapply IH| |by eapply IH].
  destruct (t_parent s (s_tree R s Hwf) x xj Hx) as (q & qi & Hq & Hql & _).
  assert (q = p) as -> by congruence. by eapply IH.
Qed.

(** A path leads to one place. *)
Lemma walks_fun x parts y z : walks s x parts y → walks s x parts z → y = z.
Proof.
  induction 1 as [|x part rest y Hpart Hw IH|x xi p rest y Hx Hp Hw IH|x c ci rest y Hc Hcp Hne Hw IH];
    intros Hz.
  - by inversion Hz.
  - inversion Hz as [|? ? ? ? ? Hw'|? xi p ? ? Hx Hp Hw'|? c ci ? ? Hc Hcp Hne Hw' He1 He2 He3]; subst.
    + by apply IH.
    + by destruct Hpart.
    + destruct (child_name_plain _ _ _ Hc Hcp Hne) as (?&?&?). by destruct Hpart.
  - inversion Hz as [|? ? ? ? Hpart Hw'|? xj q ? ? Hx' Hq Hw'|? c ci ? ? Hc Hcp Hne Hw' He1 He2 He3]; subst.
    + by destruct Hpart.
    + apply IH. by assert (p = q) as -> by (rewrite (live_fun _ _ _ _ Hx Hx') in Hp; congruence).
    + by destruct (child_name_plain _ _ _ Hc Hcp Hne) as (?&?&?).
  - destruct (child_name_plain _ _ _ Hc Hcp Hne) as (?&?&?).
    inversion Hz as [|? ? ? ? Hpart Hw'|? xi p ? ? Hx Hp Hw' He1|? d di ? ? Hd Hdp Hdne Hw' He1 He2 He3]; subst.
    + by destruct Hpart.
    + done.
    + apply IH. by assert (c = d) as -> by (by eapply (child_name_fun x c ci d di)).
Qed.
End tree.

Section nav.
Context {D : Type} `{Env D}.
Implicit Types (w : Server D).

(** A FID either names a live inode or is unknown. *)
Lemma known_or_not s f :
  tree_wf s → (∃ l i, live s l i ∧ iFID i = f) ∨ inodes s !! FID_String f = None.
Proof.
  intros Hwf. destruct (inodes s !! FID_String f) as [l|] eqn:Hk; [|by right].
  destruct (t_key s Hwf _ _ Hk) as (i & Hi & Heq%FID_String_inj). left. by exists l, i.
Qed.

Lemma GetInode_wp w f l i :
  live (srv w) l i → iFID i = f →
  wp (GetInode f) (λ l' w', l' = l ∧ refreshed w w' ∧ (∃ i', live (srv w') l i' ∧ set_iSize 0 i' = set_iSize 0 i)
                    ∧ (∀ x, x ≠ l → heap (srv w') !! x = heap (srv w) !! x)
                    ∧ (iType i = InodeTypeDirectory → w' = w)) (λ _ _, False) w.
Proof.
  intros Hl Hf. destruct (GetInode_run w f l i Hl Hf) as (w' & i' & Hrun & Href & Hl' & Heq & Hx & Hd).
  unfold wp. rewrite Hrun. split_and!; [done|done|by exists i'|done|]. intros Ht. by apply Hd.
Qed.

(** ** Path *)

Lemma Path_wp R w f :
  server_wf R (srv w) →
  wp (Path (Some f))
    (λ q w', w' = w ∧ ∃ l i ns, live (srv w) l i ∧ iFID i = f ∧ iType i = InodeTypeDirectory
       ∧ at_path R ns i ∧ q = rel_path ns)
    (λ _ w', refreshed w w' ∧ ¬ ∃ l i, live (srv w) l i ∧ iFID i = f ∧ iType i = InodeTypeDirectory) w.
Proof.
  intros Hwf. unfold Path. eapply wp_run; [done|].
  destruct (known_or_not (srv w) f (s_tree R _ Hwf)) as [(l & i & Hl & Hf)|Hno].
  - destruct (GetInode_run w f l i Hl Hf) as (w' & i' & Hrun & Href & Hl' & Heq & _ & Hd).
    eapply wp_run; [unfold catch; by rewrite Hrun|]. cbv beta iota.
    eapply wp_run; [by apply run_deref_live|].
    assert (iType i' = iType i) as Ht by (by apply (f_equal iType) in Heq).
    rewrite Ht. case_decide as Hdir.
    + apply wp_throw. split; [done|]. intros (l2 & i2 & Hl2 & Hf2 & Ht2).
      assert (l2 = l) as -> by (apply (live_loc_fun _ _ _ _ _ Hl2 Hl); congruence).
      by rewrite (live_fun _ _ _ _ Hl2 Hl) in Ht2.
    + destruct (Hd Hdir) as [-> ->].
      destruct (live_path R _ Hwf l i Hl) as [ns Hns]. eapply wp_run; [done|].
      apply wp_of_option; rewrite (Rel_at_path R _ Hwf i ns Hns); [|done].
      intros q [= <-]. split; [done|]. by exists l, i, ns.
  - eapply wp_run; [unfold catch; by rewrite GetInode_none|]. cbv beta iota.
    apply wp_throw. split; [apply refreshed_refl|]. intros (l & i & Hl & <- & _).
    destruct Hl as [Hk _]. congruence.
Qed.

(** ** Walking *)

Lemma walk_parts_wp R w path parts l i :
  server_wf R (srv w) → live (srv w) l i →
  wp (walk_parts path l parts)
    (λ y w', w' = w ∧ walks (srv w) l parts y ∧ ∃ yi, live (srv w) y yi)
    (λ _ w', w' = w ∧ ∀ y, ¬ walks (srv w) l parts y) w.
Proof.
  intros Hwf. revert l i. induction parts as [|part rest IH]; intros l i Hl; simpl.
  { apply wp_ret. split_and!; [done|constructor|by exists i]. }
  unfold step_dir. destruct (decide (part = "" ∨ part = ".")) as [Hs|Hs].
  { eapply wp_run; [done|]. eapply wp_mono; [by eapply IH| |].
    - intros y w' (-> & Hw & Hy). split_and!; [done|by apply walks_stay|done].
    - intros e w' [-> Hno]. split; [done|]. intros y Hy. inversion Hy; subst; [by eapply Hno| |].
      + by destruct Hs.
      + destruct (child_name_plain R _ Hwf c ci l) as (?&?&?); try done. by destruct Hs. }
  apply Decidable.not_or in Hs as [Hs1 Hs2]. destruct (decide (part = "..")) as [->|Hup].
  { destruct (t_parent _ (s_tree R _ Hwf) l i Hl) as (p & pi & Hp & Hpl & _).
    eapply wp_run; [by erewrite bind_run by by apply run_deref_live|]. rewrite Hp. simpl.
    eapply wp_mono; [by apply (IH p pi)| |].
    - intros y w' (-> & Hw & Hy). split_and!; [done|by eapply walks_up|done].
    - intros e w' [-> Hno]. split; [done|]. intros y Hy. inversion Hy as [| |? xi q ? ? Hx Hq Hw|]; subst.
      + naive_solver.
      + apply (Hno y). by rewrite (live_fun _ _ _ _ Hx Hl), Hp in Hq; simplify_eq.
      + destruct (child_name_plain R _ Hwf c ci l) as (?&?&?); try done. }
  destruct (child_by_name_run w l i (iChildren i) part (s_tree R _ Hwf) Hl) as (o & Hrun & Ho); [done|].
  destruct o as [c|].
  - destruct Ho as (ci & Hc & Hin & <- & Hcp & Hne).
    apply wp_bind. eapply wp_run; [by apply run_deref_live|]. eapply wp_run; [exact Hrun|].
    apply wp_ret. cbv beta.
    eapply wp_mono; [by apply (IH c ci)| |].
    + intros y w' (-> & Hw & Hy). split_and!; [done|by eapply walks_down|done].
    + intros e w' [-> Hno]. split; [done|]. intros y Hy.
      inversion Hy as [|? ? ? ? Hor|? ? ? ? ? ? ? ? He|? d di ? ? Hd Hdp Hdne Hw He1 He2]; subst; [naive_solver|done|].
      apply (Hno y). by assert (c = d) as -> by (by eapply (child_name_fun R _ Hwf l c ci d di)).
  - apply wp_bind. unfold wp. erewrite bind_run by by apply run_deref_live.
    erewrite bind_run by exact Hrun. simpl. split; [done|]. intros y Hy.
    inversion Hy as [|? ? ? ? Hor|? ? ? ? ? ? ? ? He|? d di ? ? Hd Hdp Hdne Hw He1 He2]; subst; [naive_solver|done|].
    eapply (Ho d di Hd); [|done]. by apply (child_listed _ l i d di (s_tree R _ Hwf)).
Qed.

(** ** The guard of the trash *)

Lemma isUnderRootTrash_run R w l i root :
  server_wf R (srv w) → live (srv w) l i →
  ∃ b, isUnderRootTrashLocked l root w = (w, Ok b) ∧ (b = true ↔ in_root_trash (srv w) root l).
Proof.
  intros Hwf Hl. unfold isUnderRootTrashLocked, in_root_trash.
  destruct root as [rf|]; [|exists false; naive_solver].
  erewrite bind_run by apply run_find.
  destruct (known_or_not (srv w) rf (s_tree R _ Hwf)) as [(r & ri & Hr & <-)|Hno].
  2:{ rewrite Hno. exists false. split; [done|]. split; [done|].
      intros (? & t & [= <-] & (r & ri & ti & [Hk _] & <- & _) & _). congruence. }
  rewrite (proj1 Hr). destruct (child_by_name_run w r ri (iChildren ri) trashDirName (s_tree R _ Hwf) Hr)
    as (o & Hrun & Ho); [done|].
  assert (catch (GetChildInodeByName r trashDirName) w
          = (w, Ok (match o with Some c => inr c
                    | None => inl (Errorf "inode not found, %s" [trashDirName]) end))) as Hget.
  { unfold catch, GetChildInodeByName. erewrite bind_run by by apply run_deref_live.
    erewrite bind_run by exact Hrun. by destruct o. }
  erewrite bind_run by exact Hget. destruct o as [t|].
  2:{ exists false. split; [done|]. split; [done|].
      intros (? & t & [= <-] & (r' & ri' & ti & Hr' & Hf & Ht & Hne & Hp & Hn) & _).
      assert (r' = r) as -> by (by apply (live_loc_fun _ _ _ _ _ Hr' Hr)).
      destruct (Ho t ti Ht); [|done]. by apply (child_listed _ r ri t ti (s_tree R _ Hwf)). }
  destruct Ho as (ti & Ht & _ & Hn & Hp & Hne). cbv beta iota.
  erewrite bind_run by by apply run_deref_live. erewrite bind_run by apply run_fuel.
  destruct (bounded_rank _ (s_tree R _ Hwf)) as [rank Hrank].
  destruct (walk_up_run rank (fuel_of (srv w)) w l i (FID_String (iFID ti)) (s_tree R _ Hwf) Hrank Hl)
    as (b & Hb & Hiff); [by eapply fuel_above|].
  exists b. split; [done|]. rewrite Hiff. split.
  - intros (x & xi & Hx & Hbelow & Hk%FID_String_inj).
    assert (x = t) as -> by (by apply (live_loc_fun _ _ _ _ _ Hx Ht)). exists (iFID ri), t.
    split; [done|]. split; [by exists r, ri, ti|done].
  - intros (? & t' & [= <-] & (r' & ri' & ti' & Hr' & Hf & Ht' & Hne' & Hp' & Hn') & Hb').
    assert (r' = r) as -> by (by apply (live_loc_fun _ _ _ _ _ Hr' Hr)).
    assert (t' = t) as ->; [|by exists t, ti].
    apply (child_name_fun R _ Hwf r t' ti' t ti); try done. congruence.
Qed.

(** ** ChangeDir *)

(** Where a path leads from [l]. *)
Definition leads s l i (path : string) (root : option FID) (res : option FID) : Prop :=
  (path = "/" ∧ res = root)
  ∨ (path = ".." ∧ ∃ p pi, iParent i = Some p ∧ live s p pi ∧ res = Some (iFID pi))
  ∨ (path ≠ "/" ∧ path ≠ ".." ∧ ∃ y yi, walks s l (Split slash path) y ∧ live s y yi
       ∧ ¬ in_root_trash s root y ∧ res = Some (iFID yi)).

(** Why a path is refused. *)
Definition refused s l i (path : string) (root : option FID) : Prop :=
  pathContainsTrashSegment path = true
  ∨ iType i ≠ InodeTypeDirectory
  ∨ (path ≠ "/" ∧ path ≠ ".." ∧ ∀ y, walks s l (Split slash path) y → in_root_trash s root y).

Lemma ChangeDir_wp R w l i path root :
  server_wf R (srv w) → live (srv w) l i →
  wp (ChangeDir (Some (iFID i)) path root)
    (λ res w', w' = w ∧ pathContainsTrashSegment path = false ∧ iType i = InodeTypeDirectory
       ∧ leads (srv w) l i path root res)
    (λ _ w', refreshed w w' ∧ refused (srv w) l i path root) w.
Proof.
  intros Hwf Hl. unfold ChangeDir, leads, refused.
  destruct (pathContainsTrashSegment path) eqn:Htr.
  { apply wp_throw. split; [apply refreshed_refl|by left]. }
  eapply wp_run; [done|].
  destruct (GetInode_run w (iFID i) l i Hl eq_refl) as (w' & i' & Hrun & Href & Hl' & Heq & _ & Hd).
  eapply wp_run; [unfold catch; by rewrite Hrun|]. cbv beta iota.
  eapply wp_run; [by apply run_deref_live|].
  assert (iType i' = iType i) as Ht by (by apply (f_equal iType) in Heq).
  rewrite Ht. destruct (decide (iType i ≠ InodeTypeDirectory)) as [Hdir|Hdir].
  { apply wp_throw. split; [done|]. by right; left. }
  apply dec_stable in Hdir. destruct (Hd Hdir) as [-> ->]. clear Hd.
  destruct (decide (path = "/")) as [->|Hs]; [apply wp_ret; split_and!; [done..|by left]|].
  destruct (decide (path = "..")) as [->|Hu].
  { destruct (t_parent _ (s_tree R _ Hwf) l i Hl) as (p & pi & Hp & Hpl & _). rewrite Hp.
    eapply wp_run; [by apply run_deref_live|]. apply wp_ret. split_and!; try done.
    right; left. split; [done|]. by exists p, pi. }
  apply wp_bind. eapply wp_mono; [by eapply walk_parts_wp| |].
  - intros y w' (-> & Hw & yi & Hy).
    destruct (isUnderRootTrash_run R w y yi root Hwf Hy) as (b & Hb & Hiff).
    eapply wp_run; [exact Hb|]. destruct b.
    + apply wp_throw. split; [apply refreshed_refl|]. right; right. split_and!; [done|done|].
      intros z Hz. rewrite (walks_fun R _ Hwf _ _ _ _ Hz Hw). by apply Hiff.
    + eapply wp_run; [by apply run_deref_live|]. apply wp_ret. split_and!; try done.
      right; right. split_and!; [done|done|]. exists y, yi. split_and!; try done.
      intros Hin%Hiff. done.
  - intros e w' [-> Hno]. split; [apply refreshed_refl|]. right; right.
    split_and!; [done|done|]. intros y Hy. by destruct (Hno y).
Qed.


(** ** ListDirectory *)

(** The entries of a listing: one live inode per link, in order. *)
Definition listing s (fs : list FID) (L : list (loc * Inode)) : Prop :=
  Forall2 (λ f e, live s e.1 e.2 ∧ iFID e.2 = f) fs L.

Lemma live_children_wp w fs :
  tree_wf (srv w) → NoDup fs → (∀ f, f ∈ fs → ∃ c ci, live (srv w) c ci ∧ iFID ci = f) →
  wp (live_children fs)
    (λ L w', refreshed w w' ∧ listing (srv w') fs L
       ∧ ∀ x xi, live (srv w) x xi → iFID xi ∉ fs → heap (srv w') !! x = heap (srv w) !! x)
    (λ _ _, False) w.
Proof.
  revert w. induction fs as [|f fs IH]; intros w Hwf Hnd Hfs; simpl.
  { apply wp_ret. split_and!; [apply refreshed_refl|constructor|done]. }
  inversion_clear Hnd as [|?? Hf Hnd']. destruct (Hfs f) as (c & ci & Hc & Hcf); [set_solver|].
  destruct (GetInode_run w f c ci Hc Hcf) as (w1 & c1 & Hrun & Href & Hc1 & Heq & Hoth & _).
  eapply wp_run; [unfold catch; by rewrite Hrun|]. cbv beta iota.
  apply wp_bind. eapply wp_run; [by apply run_deref_live|]. apply wp_ret. apply wp_bind.
  pose proof (refreshed_skel _ _ Href) as Hsk.
  eapply wp_mono; [apply IH; [by eapply tree_wf_skel|done|]| |done].
  { intros g Hg. destruct (Hfs g) as (d & di & Hd & Hdf); [set_solver|].
    destruct (live_skel _ _ _ _ Hsk Hd) as (dj & Hdj & (Hfe&_)%skel_eq). exists d, dj. split; [done|congruence]. }
  intros L w2 (Href2 & HL & Hkeep). apply wp_ret.
  assert (iFID c1 = f) as Hc1f by (apply (f_equal iFID) in Heq; simpl in Heq; congruence).
  split_and!; [by eapply refreshed_trans| |].
  - simpl. constructor; [|done]. split; [|done]. simpl. split.
    + destruct (refreshed_skel _ _ Href2) as (-> & _). apply Hc1.
    + rewrite (Hkeep c c1); [apply Hc1|done|by rewrite Hc1f].
  - intros x xi Hx Hno. apply not_elem_of_cons in Hno as [Hno1 Hno2].
    assert (x ≠ c) as Hxc. { intros ->. rewrite (live_fun _ _ _ _ Hx Hc) in Hno1. congruence. }
    rewrite <-(Hoth x Hxc). apply (Hkeep x xi); [|done]. destruct Hx as [Hk Hh]. split.
    + by destruct Hsk as (-> & _).
    + by rewrite (Hoth x Hxc).
Qed.

Lemma ListDirectory_wp R w f :
  server_wf R (srv w) →
  wp (ListDirectory (Some f))
    (λ L w', refreshed w w' ∧ ∃ l i, live (srv w) l i ∧ iFID i = f ∧ iType i = InodeTypeDirectory
       ∧ listing (srv w') (iChildren i) L)
    (λ _ w', refreshed w w' ∧ ¬ ∃ l i, live (srv w) l i ∧ iFID i = f ∧ iType i = InodeTypeDirectory) w.
Proof.
  intros Hwf. unfold ListDirectory. eapply wp_run; [done|].
  destruct (known_or_not (srv w) f (s_tree R _ Hwf)) as [(l & i & Hl & Hf)|Hno].
  2:{ eapply wp_run; [unfold catch; by rewrite GetInode_none|]. cbv beta iota.
      apply wp_throw. split; [apply refreshed_refl|]. intros (l & i & [Hk _] & <- & _). congruence. }
  destruct (GetInode_run w f l i Hl Hf) as (w' & i' & Hrun & Href & Hl' & Heq & _ & Hd).
  eapply wp_run; [unfold catch; by rewrite Hrun|]. cbv beta iota.
  eapply wp_run; [by apply run_deref_live|].
  assert (iType i' = iType i) as Ht by (by apply (f_equal iType) in Heq).
  rewrite Ht. destruct (decide (iType i ≠ InodeTypeDirectory)) as [Hdir|Hdir].
  - apply wp_throw. split; [done|]. intros (l2 & i2 & Hl2 & Hf2 & Ht2).
    assert (l2 = l) as -> by (apply (live_loc_fun _ _ _ _ _ Hl2 Hl); congruence).
    by rewrite (live_fun _ _ _ _ Hl2 Hl) in Ht2.
  - apply dec_stable in Hdir. destruct (Hd Hdir) as [-> ->].
    eapply wp_mono; [apply live_children_wp; [apply Hwf|by apply (t_nodup _ (s_tree R _ Hwf) l i)|]| |done].
    + intros g Hg. destruct (find_child _ _ _ g (s_tree R _ Hwf) Hl Hg) as (c & ci & _ & ? & ? & _). by exists c, ci.
    + intros L w'' (Href' & HL & _). split; [done|]. by exists l, i.
Qed.

(** ** ShowTrash *)

Lemma listing_elem s l i L :
  tree_wf s → live s l i → listing s (iChildren i) L →
  ∀ e, e ∈ L ↔ live s e.1 e.2 ∧ iParent e.2 = Some l ∧ e.1 ≠ l.
Proof.
  intros Hwf Hl HL e. split.
  - intros He. apply list_elem_of_lookup in He as [k Hk].
    destruct (Forall2_lookup_r _ _ _ _ _ HL Hk) as (f & Hf%list_elem_of_lookup_2 & Hlive & Heq).
    destruct (find_child s l i f Hwf Hl Hf) as (c & ci & _ & Hc & Hcf & Hp & Hne).
    assert (e.1 = c) as Hec by (apply (live_loc_fun _ _ _ _ _ Hlive Hc); congruence).
    rewrite Hec in *. by rewrite (live_fun _ _ _ _ Hlive Hc).
  - intros (Hlive & Hp & Hne).
    assert (iFID e.2 ∈ iChildren i) as Hin by (by eapply child_listed).
    apply list_elem_of_lookup in Hin as [k Hk].
    destruct (Forall2_lookup_l _ _ _ _ _ HL Hk) as (e' & He'%list_elem_of_lookup_2 & Hlive' & Heq).
    assert (e'.1 = e.1) as H1 by (by apply (live_loc_fun _ _ _ _ _ Hlive' Hlive)).
    assert (e' = e) as <-; [|done]. destruct e as [c ci], e' as [c' ci']. simpl in *. subst.
    by rewrite (live_fun _ _ _ _ Hlive' Hlive).
Qed.

Lemma ShowTrash_wp R w user requester :
  server_wf R (srv w) → ids_left (srv w) 1 →
  wp (ShowTrash user requester)
    (λ L w', ∃ w1 t, kept R w w1 ∧ refreshed w1 w' ∧ is_trash (srv w1) user t
       ∧ Sorted inode_le L
       ∧ ∀ e, e ∈ L ↔ live (srv w') e.1 e.2 ∧ iParent e.2 = Some t ∧ e.1 ≠ t
           ∧ userCanAccess (iACL e.2) (if decide (requester = "") then user else requester) = true)
    (λ _ w', kept R w w') w.
Proof.
  intros Hwf Hids. unfold ShowTrash. cbv zeta. apply wp_bind.
  eapply wp_mono; [by apply (getOrCreateTrash_wp R)| |].
  2:{ intros e w' [[d ->] _]. by apply kept_disk. }
  intros t w1 (Hwf1 & Hg & Ho & Hc & Ht & _). pose proof Ht as (r & ri & ti & _ & _ & Htl & _).
  eapply wp_run; [by apply run_deref_live|]. apply wp_bind.
  eapply wp_mono; [apply live_children_wp; [apply Hwf1|by apply (t_nodup _ (s_tree R _ Hwf1) t ti)|]| |done].
  { intros g Hin. destruct (find_child _ _ _ g (s_tree R _ Hwf1) Htl Hin) as (c & ci & _ & ? & ? & _).
    by exists c, ci. }
  intros L w2 (Href & HL & _). apply wp_ret. exists w1, t.
  pose proof (refreshed_skel _ _ Href) as Hsk.
  destruct (live_skel _ _ _ _ Hsk Htl) as (tj & Htj & (_&_&_&Hch&_)%skel_eq). rewrite <-Hch in HL.
  split_and!; [by split_and!|done|done| |].
  - apply Sorted_merge_sort. intros x y. unfold inode_le. destruct (String.leb (iName x.2) (iName y.2)) eqn:Hle; [by left|].
    right. destruct (String.leb_total (iName x.2) (iName y.2)); congruence.
  - intros e. rewrite merge_sort_Permutation, list_elem_of_filter.
    rewrite (listing_elem _ t tj L (tree_wf_skel _ _ Hsk (s_tree R _ Hwf1)) Htj HL). tauto.
Qed.

(** ** Reading a file never panics while the range does not wrap *)

(** No file of the disk is longer than a slice can be. *)
Definition files_fit w : Prop :=
  ∀ l i n, live (srv w) l i → os_Stat (iOSPath i) (disk w) = inr n → 0 ≤ n ≤ max_slice.

Lemma wp_of_sum {A} fmt args (x : error + A) (Q : A → Server D → Prop) E w :
  (∀ a, x = inr a → Q a w) → (∀ e, E e w) → wp (wrap fmt args (of_sum x)) Q E w.
Proof. intros HQ HE. unfold wp, wrap, of_sum. destruct x; [apply HE|by apply HQ]. Qed.

Lemma file_in_any R w f name :
  server_wf R (srv w) →
  wp (file_in (Some f) name) (λ l w', w' = w ∧ ∃ i, live (srv w) l i) (λ _ w', refreshed w w') w.
Proof.
  intros Hwf. destruct (known_or_not (srv w) f (s_tree R _ Hwf)) as [(l & i & Hl & <-)|Hno].
  - eapply wp_mono; [by eapply file_in_wp, Hl; apply Hwf| |done].
    intros c w' (-> & ci & (_ & _ & Hc & _)). split; [done|by exists ci].
  - unfold file_in. eapply wp_run; [done|].
    eapply wp_run; [unfold catch; by rewrite GetInode_none|]. apply wp_throw, refreshed_refl.
Qed.

Lemma ReadFile_wp R w f name off len :
  server_wf R (srv w) → files_fit w → 0 ≤ off → 0 ≤ len → off + len < two64 →
  wp (ReadFile (Some f) name off len) (λ _ w', w' = w) (λ _ w', refreshed w w') w.
Proof.
  intros Hwf Hfit Hoff Hlen Hlim. unfold ReadFile. apply wp_bind.
  eapply wp_mono; [by apply (file_in_any R)| |done]. intros l w' (-> & i & Hl).
  eapply wp_run; [by apply run_deref_live|]. eapply wp_run; [done|].
  apply wp_bind, wp_of_sum; [intros _ _|intros; apply refreshed_refl].
  eapply wp_run; [done|]. apply wp_bind, wp_of_sum; [|intros; apply refreshed_refl].
  intros n Hn. destruct (Hfit l i n Hl Hn) as [Hn0 Hn1]. cbv zeta.
  unfold max_slice in *. rewrite (u64_small n) by (unfold is_u64, two64; lia).
  rewrite (u64_small (off + len)) by (split; lia).
  destruct (Z.leb_spec n off); [by apply wp_ret|].
  rewrite (u64_small (n - off)) by (unfold is_u64, two64; lia).
  rewrite (proj2 (Z.ltb_ge 281474976710656 _)).
  2:{ destruct (Z.eqb_spec len 0), (Z.ltb_spec n (off + len)); simpl; lia. }
  eapply wp_run; [done|]. apply wp_of_sum; [done|intros; apply refreshed_refl].
Qed.

Lemma GetFileHash_wp R w f name :
  server_wf R (srv w) →
  wp (GetFileHash (Some f) name) (λ _ w', w' = w) (λ _ w', refreshed w w') w.
Proof.
  intros Hwf. unfold GetFileHash. apply wp_bind.
  eapply wp_mono; [by apply (file_in_any R)| |done]. intros l w' (-> & i & Hl).
  eapply wp_run; [by apply run_deref_live|]. eapply wp_run; [done|].
  apply wp_bind, wp_of_sum; [intros _ _|intros; apply refreshed_refl].
  eapply wp_run; [done|]. apply wp_bind, wp_of_sum; [intros b _|intros; apply refreshed_refl].
  by apply wp_ret.
Qed.
End nav.

