(* ===== verification/Reach.v ===== *)
(** * Every reachable state of the file server

    The calls on the file server as data, the states they can lead to from an empty
    root directory, and the two theorems that hold in all of them: the invariant of
    Invariant.v is never broken and no call panics; and nobody but the owner of a
    directory changes who may access what is below it.

    [admissible] is what the calls ask of the state beyond the invariant: ids left in
    the 64-bit counter, sizes and ranges that do not wrap, and, for the calls whose
    outcome depends on what a previous run left on the disk or in the trash, that it is
    coherent. *)
From S2P Require Import FileServer Persist Tree TreeWf TreeRun Frames Invariant Removal Move Grow.
From S2P Require Import Share Trash FileOps Demo PersistSpec ShareSpec CreateSpec RootSpec WriteSpec.
From S2P Require Import DeleteSpec TrashSpec RestoreSpec NavSpec.

Implicit Types (s : FileServer) (l p x : loc) (i : Inode) (f : FID).

Inductive Call :=
  | CGetUserRoot (root_path root_user : string)
  | CPath f
  | CChangeDir f (path : string) (root : option FID)
  | CListDirectory f
  | CCreateFile (parent : FID) (name root_user : string) (t : InodeType)
  | CReadFile (parent : FID) (name : string) (offset length : Z)
  | CGetFileHash (parent : FID) (name : string)
  | CWriteFile (parent : FID) (name : string) (offset : Z) (data : bytes)
  | CDeleteFile f (root_user : string) (recursive : bool)
  | CTrashFile f (root_user : string) (recursive : bool)
  | CRestoreFile f (root_user requester : string)
  | CShowTrash (root_user requester : string)
  | CShare (username share_with : string) f
  | CUnshare (username unshare_with : string) f
  | CSetUserQuota (username : string) (quota : Z).

Section reach.
Context {D : Type} `{Env D}.
Implicit Types (w : Server D) (c : Call).

Definition silent {A} (m : M (Server D) A) : M (Server D) unit := m ;; mret tt.

(** A call, its answer dropped. *)
Definition exec c : M (Server D) unit :=
  match c with
  | CGetUserRoot path user => silent (GetUserRoot path user)
  | CPath f => silent (Path (Some f))
  | CChangeDir f path root => silent (ChangeDir (Some f) path root)
  | CListDirectory f => silent (ListDirectory (Some f))
  | CCreateFile parent name user t => silent (CreateFile (Some parent) name user t)
  | CReadFile parent name off len => silent (ReadFile (Some parent) name off len)
  | CGetFileHash parent name => silent (GetFileHash (Some parent) name)
  | CWriteFile parent name off data => WriteFile (Some parent) name off data
  | CDeleteFile f user rec => DeleteFile (Some f) user rec
  | CTrashFile f user rec => silent (TrashFile (Some f) user rec)
  | CRestoreFile f user req => silent (RestoreFile (Some f) user req)
  | CShowTrash user req => silent (ShowTrash user req)
  | CShare user share_with f => Share user share_with (Some f)
  | CUnshare user unshare_with f => Unshare user unshare_with (Some f)
  | CSetUserQuota user q => SetUserQuota user q
  end.

(** What a call needs besides the invariant. *)
Definition needs w c : Prop :=
  match c with
  | CGetUserRoot _ user =>
      name_ok user ∧ (users (srv w) !! user = None → own_acl w user)
  | CReadFile _ _ off len => files_fit w ∧ 0 ≤ off ∧ 0 ≤ len ∧ off + len < two64
  | CWriteFile _ _ off data =>
      sizes_ok (srv w) ∧ 0 ≤ off ∧ off + Z.of_nat (length data) < two63
  | CTrashFile f user _ => ∀ l i, live (srv w) l i → iFID i = f →
      suffix_free (srv w) user (iName i) (InodeID f)
  | CRestoreFile f user _ => ∀ l i e, live (srv w) l i → iFID i = f →
      trashMeta (srv w) !! FID_String f = Some e → entry_ok (srv w) user l i e
  | _ => True
  end.
Definition admissible w c : Prop := ids_left (srv w) 2 ∧ needs w c.

(** A server that serves nobody yet. *)
Definition initial (R : list string) w : Prop :=
  inodes (srv w) = ∅ ∧ users (srv w) = ∅ ∧ rootDir (srv w) = abs_path R ∧ R ≠ []
  ∧ Forall comp_ok R ∧ ∃ st, inodeStore (srv w) = Some st ∧ index_wf (isData st).

Inductive reachable (R : list string) : Server D → Prop :=
  | reach_start w : initial R w → reachable R w
  | reach_call w c : reachable R w → admissible w c → reachable R (exec c w).1.

Lemma initial_wf R w : initial R w → server_wf R (srv w).
Proof.
  intros (Hi & Hu & Hd & Hne & HR & st & Hst & Hix).
  assert (∀ l i, ¬ live (srv w) l i) as Hno. { intros l i [Hk _]. by rewrite Hi in Hk. }
  split; try (intros; exfalso; by eapply Hno).
  - split; try (intros; exfalso; by eapply Hno); [intros k l; by rewrite Hi|].
    exists (λ _, O). intros l i p Hl. by destruct (Hno l i).
  - done.
  - intros u f. by rewrite Hu.
  - exists st. split_and!; [done|done|]. intros l i ns Hl. by destruct (Hno l i).
Qed.

(** ** Who may access what *)

(** Every inode that is still there has its access list. *)
Definition acls_kept w w' : Prop :=
  ∀ x xi xi', live (srv w) x xi → live (srv w') x xi' →
    iFID xi' = iFID xi ∧ iACL xi' = iACL xi.

Lemma kept_of w w' :
  (∀ x xi, live (srv w) x xi → ∃ xi', live (srv w') x xi' ∧ iACL xi' = iACL xi ∧ iFID xi' = iFID xi) →
  acls_kept w w'.
Proof.
  intros Hk x xi xi' Hx Hx'. destruct (Hk x xi Hx) as (xj & Hxj & ? & ?).
  by rewrite (live_fun _ _ _ _ Hx' Hxj).
Qed.

Lemma survives_acls w w' : survives w w' → acls_kept w w'.
Proof. intros [_ Hs]. apply kept_of. intros x xi Hx. destruct (Hs x xi Hx) as (xi' & ? & ? & ? & _). eauto. Qed.

Lemma keeps_acls w w' : keeps w w' → acls_kept w w'.
Proof. intros [_ Hs]. apply kept_of. intros x xi Hx. destruct (Hs x xi Hx) as (xi' & ? & ? & ? & _). eauto. Qed.

Lemma acls_trans w1 w2 w3 :
  (∀ x xi, live (srv w1) x xi → ∃ xi', live (srv w2) x xi') →
  acls_kept w1 w2 → acls_kept w2 w3 → acls_kept w1 w3.
Proof.
  intros Hlive H1 H2 x xi xk Hx Hxk. destruct (Hlive x xi Hx) as [xj Hxj].
  destruct (H1 x xi xj Hx Hxj) as [<- <-]. by apply (H2 x xj xk).
Qed.

Lemma moved_acls P w w' l p t f n :
  moved P (srv w) (srv w') l p t f n → acls_kept w w'.
Proof.
  intros Hm. apply kept_of. intros x xi Hx.
  destruct (mv_heap _ _ _ _ _ _ _ _ Hm x xi Hx) as (xi' & Hx' & Hf & _ & Ha & _).
  exists xi'. split_and!; [|done|done]. split; [|done].
  rewrite (mv_inodes _ _ _ _ _ _ _ _ Hm), Hf. apply Hx.
Qed.

Lemma deleted_acls R w user l p key ns k w' : deleted R w user l p key ns k w' → acls_kept w w'.
Proof.
  intros Hd x xi xi' Hx Hx'. destruct (d_only _ _ _ _ _ _ _ _ _ Hd x xi' Hx') as (xj & Hxj & Hb).
  assert (xj = xi) as -> by (by eapply live_fun).
  destruct (d_kept _ _ _ _ _ _ _ _ _ Hd x xi Hx Hb) as (xk & Hxk & Hbare & _).
  rewrite (live_fun _ _ _ _ Hx' Hxk). apply bare_eq in Hbare. naive_solver.
Qed.

(** Somebody shared or unshared a directory: who, which, and what it changed. *)
Definition share_edit w c w' : Prop :=
  ∃ user target f l i,
    (c = CShare user target f ∨ c = CUnshare user target f)
    ∧ live (srv w) l i ∧ iFID i = f ∧ Owner (iACL i) = user ∧ target ≠ user
    ∧ ∀ x xi xi', live (srv w) x xi → live (srv w') x xi' →
        iFID xi' = iFID xi ∧ Owner (iACL xi') = Owner (iACL xi)
        ∧ (∀ v, v ≠ target → v ∈ aShared (iACL xi') ↔ v ∈ aShared (iACL xi))
        ∧ (iACL xi' ≠ iACL xi → below (srv w) l x).

Definition effect R w c w' : Prop :=
  server_wf R (srv w') ∧ (acls_kept w w' ∨ share_edit w c w').

Lemma effect_refreshed R w c w' : server_wf R (srv w) → refreshed w w' → effect R w c w'.
Proof.
  intros Hwf Href. split; [by eapply refreshed_wf|left]. by apply survives_acls, refreshed_survives.
Qed.

Lemma effect_disk R w c w1 d : server_wf R (srv w) → refreshed w w1 → effect R w c (set_disk d w1).
Proof.
  intros Hwf Href. destruct (effect_refreshed R w c w1 Hwf Href) as [H1 H2]. split; [exact H1|].
  destruct H2 as [H2|H2]; [left; exact H2|right; exact H2].
Qed.

Lemma refreshed_fwd w w' x xi : refreshed w w' → live (srv w) x xi → ∃ xi', live (srv w') x xi'.
Proof. intros Href Hx. destruct (refreshed_live _ _ _ _ Href Hx) as (xj & ? & _). by exists xj. Qed.

Lemma kept_fwd R w w' x xi : kept R w w' → live (srv w) x xi → ∃ xi', live (srv w') x xi'.
Proof. intros (_ & Hg & _) Hx. destruct (g_live _ _ _ _ Hg x xi Hx) as (xi' & ? & _). by exists xi'. Qed.

Lemma kept_acls R w w' : kept R w w' → acls_kept w w'.
Proof. intros (_ & Hg & _). by eapply survives_acls, grows_survives. Qed.

Lemma prepared_acls R w w0 w' : refreshed w w0 → kept R w0 w' → acls_kept w w'.
Proof.
  intros Href Hk. apply (acls_trans w w0).
  - intros x xi. by apply refreshed_fwd.
  - by apply survives_acls, refreshed_survives.
  - by eapply kept_acls.
Qed.

Lemma effect_kept R w c w0 w' : refreshed w w0 → kept R w0 w' → effect R w c w'.
Proof. intros Href Hk. split; [apply Hk|left]. by eapply prepared_acls. Qed.

(** An edit of the lists of users of a subtree. *)
Lemma edited_effect R w w1 w' g l i table m :
  (∀ j, shape (g j) = shape j) → server_wf R (srv w) → refreshed w w1 → live (srv w) l i →
  edited w1 w' g l table m →
  server_wf R (srv w')
  ∧ ∀ x xi xi', live (srv w) x xi → live (srv w') x xi' →
      iFID xi' = iFID xi
      ∧ ((below (srv w) l x ∧ ∃ xj, iACL xj = iACL xi ∧ xi' = g xj) ∨ iACL xi' = iACL xi).
Proof.
  intros Hg Hwf Href Hl (d & h & -> & Hin & Hout). pose proof (refreshed_wf _ _ _ Href Hwf) as Hwf1.
  pose proof (refreshed_skel _ _ Href) as Hsk. destruct (live_skel _ _ _ _ Hsk Hl) as (i1 & Hl1 & _).
  assert (∀ x, h !! x = heap (srv w1) !! x ∨ (below (srv w1) l x ∧ h !! x = g <$> heap (srv w1) !! x))
    as Hcase.
  { destruct (below_dec w1 l i1 (s_tree R _ Hwf1) Hl1) as [L HL]. intros x.
    destruct (decide (x ∈ L)) as [Hb%HL|Hb]; [by auto|]. left. apply Hout. by rewrite <-HL. }
  split.
  - apply (server_wf_ext R (set_heap h (srv w1))); try done. apply server_wf_shape; [|done].
    intros x. destruct (Hcase x) as [->|[_ ->]]; [done|]. destruct (heap (srv w1) !! x); [|done].
    simpl. by rewrite Hg.
  - intros x xi xi' Hx [Hk' Hh']. simpl in Hk', Hh'.
    destruct (refreshed_live _ _ _ _ Href Hx) as (xj & [Hkj Hhj] & Heq).
    pose proof (f_equal iACL Heq) as Ha. apply size_free_eq in Heq as (Hf & _). simpl in Ha.
    destruct (Hcase x) as [He|[Hb He]]; rewrite He, Hhj in Hh'; simpl in Hh'; injection Hh' as <-.
    + split; [done|by right].
    + split.
      * rewrite <-Hf. change (iFID (shape (g xj)) = iFID (shape xj)). by rewrite Hg.
      * left. split; [by rewrite (below_skel_iff _ _ _ _ Hsk)|]. by exists xj.
Qed.

Lemma grant_effect R w w' user target l i table m :
  server_wf R (srv w) → live (srv w) l i → can_share user target i →
  edited w w' (grant_inode target) l table m →
  effect R w (CShare user target (iFID i)) w'.
Proof.
  intros Hwf Hl (_ & Ho & Hne & _) He.
  destruct (edited_effect R w w w' (grant_inode target) l i table m)
    as [Hwf' Hx]; try done; [apply refreshed_refl|].
  split; [done|right]. exists user, target, (iFID i), l, i. split_and!; try done; [by left|congruence|].
  intros x xi xi' Hlx Hlx'. destruct (Hx x xi xi' Hlx Hlx') as [Hf [(Hb & xj & Ha & ->)|Ha]].
  - split_and!; [done|simpl; by rewrite Ha| |done]. intros v Hv. simpl.
    rewrite append_unique_elem, Ha. naive_solver.
  - rewrite Ha. by split_and!.
Qed.

Lemma revoke_effect R w w1 w' user target l i table m :
  server_wf R (srv w) → live (srv w) l i → can_unshare user target i → refreshed w w1 →
  edited w1 w' (revoke_inode target) l table m →
  effect R w (CUnshare user target (iFID i)) w'.
Proof.
  intros Hwf Hl (Ho & Hne & _) Href He.
  destruct (edited_effect R w w1 w' (revoke_inode target) l i table m)
    as [Hwf' Hx]; try done.
  split; [done|right]. exists user, target, (iFID i), l, i. split_and!; try done; [by right|congruence|].
  intros x xi xi' Hlx Hlx'. destruct (Hx x xi xi' Hlx Hlx') as [Hf [(Hb & xj & Ha & ->)|Ha]].
  - split_and!; [done|simpl; by rewrite Ha| |done]. intros v Hv. simpl.
    rewrite without_elem, Ha. naive_solver.
  - rewrite Ha. by split_and!.
Qed.

(** The outcome of a call whose FID is unknown. *)
Lemma effect_same R w c : server_wf R (srv w) → effect R w c w.
Proof. intros Hwf. apply effect_refreshed; [done|apply refreshed_refl]. Qed.

Lemma silent_wp {A} (m : M (Server D) A) Q E w :
  wp m (λ _ w', Q w') E w → wp (silent m) (λ _, Q) E w.
Proof. intros Hm. apply wp_bind. by eapply wp_mono; [exact Hm| |]. Qed.

(** A call that names an inode either finds it or fails at once. *)
Lemma by_fid {A} R w f (m : M (Server D) A) c :
  server_wf R (srv w) →
  (inodes (srv w) !! FID_String f = None → ∃ e, m w = (w, Err e)) →
  (∀ l i, live (srv w) l i → iFID i = f → wp m (λ _, effect R w c) (λ _, effect R w c) w) →
  wp m (λ _, effect R w c) (λ _, effect R w c) w.
Proof.
  intros Hwf Hno Hyes. destruct (known_or_not (srv w) f (s_tree R _ Hwf)) as [(l & i & Hl & Hf)|Hn].
  - by apply (Hyes l i).
  - destruct (Hno Hn) as [e He]. unfold wp. rewrite He. by apply effect_same.
Qed.

(** The lookup in front of a call fails for an unknown FID. *)
Lemma catch_unknown w f :
  inodes (srv w) !! FID_String f = None →
  catch (GetInode f) w = (w, Ok (inl (Errorf "inode not found, %s" [FID_String f]))).
Proof. intros Hno. unfold catch. by rewrite (GetInode_none _ _ Hno). Qed.

Ltac unknown_fid Hno :=
  eexists; try erewrite bind_run by done; by erewrite bind_run by exact (catch_unknown _ _ Hno).

Lemma read_calls_wp R w c :
  server_wf R (srv w) → needs w c →
  match c with
  | CPath _ | CListDirectory _ | CReadFile _ _ _ _ | CGetFileHash _ _ | CChangeDir _ _ _ =>
      wp (exec c) (λ _, effect R w c) (λ _, effect R w c) w
  | _ => True
  end.
Proof.
  intros Hwf Hn. destruct c; try done; simpl in *; apply silent_wp.
  - eapply wp_mono; [by eapply Path_wp| |].
    + intros q w' [-> _]. by apply effect_same.
    + intros e w' [Href _]. by apply effect_refreshed.
  - apply (by_fid R w f); [done| |].
    + intros Hno. unfold ChangeDir. destruct (pathContainsTrashSegment path); [by eexists|]. unknown_fid Hno.
    + intros l i Hl <-. eapply wp_mono; [by eapply ChangeDir_wp| |].
      * intros q w' [-> _]. by apply effect_same.
      * intros e w' [Href _]. by apply effect_refreshed.
  - eapply wp_mono; [by eapply ListDirectory_wp| |]; intros q w' [Href _]; by apply effect_refreshed.
  - destruct Hn as (Hfit & ? & ? & ?). eapply wp_mono; [by eapply (ReadFile_wp R)| |].
    + intros q w' ->. by apply effect_same.
    + intros e w' Href. by apply effect_refreshed.
  - eapply wp_mono; [by eapply (GetFileHash_wp R)| |].
    + intros q w' ->. by apply effect_same.
    + intros e w' Href. by apply effect_refreshed.
Qed.

Lemma root_calls_wp R w path user :
  server_wf R (srv w) → ids_left (srv w) 2 → needs w (CGetUserRoot path user) →
  let c := CGetUserRoot path user in
  wp (exec c) (λ _, effect R w c) (λ _, effect R w c) w.
Proof.
  intros Hwf Hids [Hname Hown]. apply silent_wp.
  eapply wp_mono; [by apply (GetUserRoot_wp R)| |].
  - intros g w' (Hwf' & Hk & _). split; [done|left]. by apply keeps_acls.
  - intros e w' [Hwf' Hk]. split; [done|left]. by apply keeps_acls.
Qed.

Lemma create_call_wp R w f name user t :
  server_wf R (srv w) → ids_left (srv w) 2 →
  let c := CCreateFile f name user t in
  wp (exec c) (λ _, effect R w c) (λ _, effect R w c) w.
Proof.
  intros Hwf Hids c. apply silent_wp, (by_fid R w f); [done| |].
  - intros Hno. unfold CreateFile. destruct (valid_filename name) eqn:Hv; [|by eexists].
    destruct (reserved_filename name) eqn:Hr; [by eexists|]. cbn [negb]. unknown_fid Hno.
  - intros l i Hl <-. eapply wp_mono; [by apply (CreateFile_wp R)| |].
    + intros g w' (Hwf' & _ & Hs & _). split; [done|left]. by apply survives_acls.
    + intros e w' (Hwf' & _ & Hs & _). split; [done|left]. by apply survives_acls.
Qed.

Lemma write_call_wp R w f name off (data : bytes) :
  server_wf R (srv w) → needs w (CWriteFile f name off data) →
  let c := CWriteFile f name off data in
  wp (exec c) (λ _, effect R w c) (λ _, effect R w c) w.
Proof.
  intros Hwf (Hs & Hoff & Hlen) c. apply (by_fid R w f (WriteFile (Some f) name off data)); [done| |].
  - intros Hno. eexists. unfold WriteFile. erewrite bind_err; [done|]. unfold file_in.
    erewrite bind_run by done. by erewrite bind_run by exact (catch_unknown _ _ Hno).
  - intros l i Hl <-. eapply wp_mono; [by apply WriteFile_wp; [apply Hwf| | | |]| |].
    + intros [] w' (x & xi & Hc & Hw & _). split; [by eapply wrote_wf|left].
      destruct Hw as (d & h & _ & -> & Hres).
      destruct (resized_refreshed w x _ h d Hres) as (w1 & Href & ->).
      exact (survives_acls _ _ (refreshed_survives _ _ Href)).
    + intros e w' (d & w1 & Href & ->). by apply effect_disk.
Qed.

Lemma delete_call_wp R w f user rec :
  server_wf R (srv w) →
  let c := CDeleteFile f user rec in
  wp (exec c) (λ _, effect R w c) (λ _, effect R w c) w.
Proof.
  intros Hwf c. apply (by_fid R w f (DeleteFile (Some f) user rec)); [done| |].
  - intros Hno. unfold DeleteFile. unknown_fid Hno.
  - intros l i Hl <-. eapply wp_mono; [by apply (DeleteFile_wp R)| |].
    + intros [] w' (_ & p & ns & k & _ & _ & _ & _ & Hd).
      split; [by eapply d_wf|left]. by eapply deleted_acls.
    + intros e w' (d & w1 & Href & -> & _). by apply effect_disk.
Qed.

Lemma trash_call_wp R w f user rec :
  server_wf R (srv w) → ids_left (srv w) 2 → needs w (CTrashFile f user rec) →
  let c := CTrashFile f user rec in
  wp (exec c) (λ _, effect R w c) (λ _, effect R w c) w.
Proof.
  intros Hwf Hids Hn c. apply silent_wp, (by_fid R w f); [done| |].
  - intros Hno. unfold TrashFile. unknown_fid Hno.
  - intros l i Hl <-. eapply wp_mono; [apply (TrashFile_wp R); [done| |done|by apply (Hn l i)]| |].
    + intros st Hst. pose proof (Hids st Hst). lia.
    + intros final w' (_ & w1 & Ht). split; [by eapply td_wf|left].
      destruct (td_prepared _ _ _ _ _ _ _ _ Ht) as (w0 & Href & Hk).
      destruct (td_moved _ _ _ _ _ _ _ _ Ht) as (t & ti & p & pi & i1 & Hm). destruct_and! Hm.
      apply (acls_trans w w1); [|by eapply prepared_acls|by eapply moved_acls].
      intros x xi Hx. destruct (refreshed_fwd _ _ x xi Href Hx) as [xj Hxj]. by eapply kept_fwd.
    + intros e w' (_ & w0 & Href & Hk). by eapply effect_kept.
Qed.

Lemma restore_call_wp R w f user req :
  server_wf R (srv w) → ids_left (srv w) 2 → needs w (CRestoreFile f user req) →
  let c := CRestoreFile f user req in
  wp (exec c) (λ _, effect R w c) (λ _, effect R w c) w.
Proof.
  intros Hwf Hids Hn c. apply silent_wp, (by_fid R w f); [done| |].
  - intros Hno. unfold RestoreFile. unknown_fid Hno.
  - intros l i Hl <-. eapply wp_mono; [apply (RestoreFile_wp R); [done| |done|intros e He; by apply (Hn l i e)]| |].
    + intros st Hst. pose proof (Hids st Hst). lia.
    + intros final w' (e & w0 & _ & Hr). split; [by eapply rs_wf|left].
      pose proof (rs_prepared _ _ _ _ _ _ _ _ _ Hr) as Href.
      destruct (rs_moved _ _ _ _ _ _ _ _ _ Hr) as (t & tg & tgi & Hm). destruct_and! Hm.
      apply (acls_trans w w0); [|by apply survives_acls, refreshed_survives|by eapply moved_acls].
      intros x xi. by apply refreshed_fwd.
    + intros e w' (_ & w0 & Href & Hk). by eapply effect_kept.
Qed.

Lemma show_call_wp R w user req :
  server_wf R (srv w) → ids_left (srv w) 2 →
  let c := CShowTrash user req in
  wp (exec c) (λ _, effect R w c) (λ _, effect R w c) w.
Proof.
  intros Hwf Hids c. apply silent_wp. eapply wp_mono; [apply (ShowTrash_wp R); [done|]| |].
  - intros st Hst. pose proof (Hids st Hst). lia.
  - intros L w' (w1 & t & Hk & Href & _).
    split; [by eapply refreshed_wf; [|apply Hk]|left]. apply (acls_trans w w1).
    + intros x xi. by apply (kept_fwd R).
    + by apply (kept_acls R).
    + by apply survives_acls, refreshed_survives.
  - intros e w' Hk. apply (effect_kept R w c w); [apply refreshed_refl|done].
Qed.

Lemma share_calls_wp R w user target f :
  server_wf R (srv w) →
  wp (Share user target (Some f)) (λ _, effect R w (CShare user target f))
     (λ _, effect R w (CShare user target f)) w
  ∧ wp (Unshare user target (Some f)) (λ _, effect R w (CUnshare user target f))
       (λ _, effect R w (CUnshare user target f)) w.
Proof.
  intros Hwf. split; apply (by_fid R w f); try done.
  1,3: intros Hno; eexists; unfold Share, Unshare; erewrite bind_run by done;
       by erewrite bind_err by by apply GetInode_none.
  - intros l i Hl <-. eapply wp_mono; [by apply Share_wp; [apply Hwf| |]| |].
    + intros [] w' [Hc He]. by eapply grant_effect.
    + intros e w' [_ Href]. by apply effect_refreshed.
  - intros l i Hl <-. eapply wp_mono; [by apply Unshare_wp; [apply Hwf| |]| |].
    + intros [] w' (Hc & w1 & Href & _ & He). by eapply revoke_effect.
    + intros e w' [_ Href]. by apply effect_refreshed.
Qed.

(** Two states with the same tree. *)
Lemma effect_tree R w c w' :
  server_wf R (srv w) → inodes (srv w') = inodes (srv w) → heap (srv w') = heap (srv w) →
  users (srv w') = users (srv w) → rootDir (srv w') = rootDir (srv w) →
  serverID (srv w') = serverID (srv w) → inodeStore (srv w') = inodeStore (srv w) →
  effect R w c w'.
Proof.
  intros Hwf Hi Hh ????. split; [by apply (server_wf_ext R (srv w))|left].
  intros x xi xi' [Hk Hx] [Hk' Hx']. rewrite Hh, Hx in Hx'. by injection Hx' as <-.
Qed.

Lemma saveQuotas_disk : disk_only (D := D) saveQuotasLocked.
Proof. unfold saveQuotasLocked, gsrv. disk_only_steps. Qed.

Lemma quota_call_wp R w user q :
  server_wf R (srv w) →
  let c := CSetUserQuota user q in
  wp (exec c) (λ _, effect R w c) (λ _, effect R w c) w.
Proof.
  intros Hwf c. unfold c, exec, SetUserQuota.
  case_decide; [by apply wp_throw, effect_same|]. case_decide; [by apply wp_throw, effect_same|].
  eapply wp_run; [done|]. unfold wp.
  destruct (disk_only_wrap "failed to persist quota: %w" [] _ saveQuotas_disk
    (set_srv (set_quotas (<[user := q]> (quotas (srv w))) (srv w)) w)) as (d & r & -> & Hp).
  destruct r as [a|e|y]; [by apply effect_tree|by apply effect_tree|by destruct (Hp y)].
Qed.

Lemma call_wp R w c :
  server_wf R (srv w) → admissible w c → wp (exec c) (λ _, effect R w c) (λ _, effect R w c) w.
Proof.
  intros Hwf [Hids Hn]. pose proof (read_calls_wp R w c Hwf Hn) as Hread.
  destruct c; try exact Hread.
  - by apply root_calls_wp.
  - by apply create_call_wp.
  - by apply write_call_wp.
  - by apply delete_call_wp.
  - by apply trash_call_wp.
  - by apply restore_call_wp.
  - by apply show_call_wp.
  - by apply share_calls_wp.
  - by apply share_calls_wp.
  - by apply quota_call_wp.
Qed.

Lemma reachable_wf R w : reachable R w → server_wf R (srv w).
Proof.
  induction 1 as [w Hi|w c Hr IH Ha]; [by apply initial_wf|].
  pose proof (call_wp R w c IH Ha) as Hwp. unfold wp in Hwp.
  destruct (exec c w) as [w' [a|e|y]]; [apply Hwp|apply Hwp|done].
Qed.

(** C2. In every state that admissible calls lead to from an empty server the invariant holds:
    the links form a tree under the users' roots, paths follow names, and ids in the
    index are those of the inodes.  No admissible call panics there, whatever the disk and
    the metaserver answer.  Admissible calls ([admissible]): two ids are left in the 64-bit
    counter; a user root is asked for a name that is one component, and the access list
    the disk has for a new user is the user's own; a read ends below 2^64 and the files
    fit a slice; a write ends below 2^63, with sizes that fit; an inode is trashed when
    the name a clash would give it is free in the trash, and restored when its record
    makes sense.  Outside them the code does panic (a read that wraps) or breaks the
    invariant (a nested user name, [RootSpec.nested_name_takes_a_FID]). *)
Theorem reachable_safe R w :
  reachable R w →
  server_wf R (srv w) ∧ ∀ c, admissible w c → ∀ why, (exec c w).2 ≠ Panic why.
Proof.
  intros Hr. pose proof (reachable_wf R w Hr) as Hwf. split; [done|]. intros c Ha why.
  pose proof (call_wp R w c Hwf Ha) as Hwp. unfold wp in Hwp. by destruct (exec c w) as [w' []].
Qed.

(** C3. Access lists change only by a [Share] or [Unshare] of the owner of a directory
    above: in every state that admissible calls lead to (as in [reachable_safe]), whatever
    admissible call is made next, an inode that is still there
    afterwards keeps its owner and its FID, and if its access list changed then the
    call was such a one and only the user named in it was added or removed. *)
Theorem only_owners_change_access R w c x xi xi' :
  reachable R w → admissible w c → live (srv w) x xi → live (srv (exec c w).1) x xi' →
  iFID xi' = iFID xi ∧ Owner (iACL xi') = Owner (iACL xi)
  ∧ (iACL xi' ≠ iACL xi →
     ∃ target f l i,
       (c = CShare (Owner (iACL i)) target f ∨ c = CUnshare (Owner (iACL i)) target f)
       ∧ live (srv w) l i ∧ iFID i = f ∧ below (srv w) l x ∧ target ≠ Owner (iACL i)
       ∧ ∀ v, v ≠ target → v ∈ aShared (iACL xi') ↔ v ∈ aShared (iACL xi)).
Proof.
  intros Hr Ha Hx Hx'. pose proof (call_wp R w c (reachable_wf R w Hr) Ha) as Hwp.
  assert (effect R w c (exec c w).1) as [_ [Hk|Hs]].
  { unfold wp in Hwp. by destruct (exec c w) as [w' []]. }
  - destruct (Hk x xi xi' Hx Hx') as [-> ->]. by split_and!.
  - destruct Hs as (user & target & f & l & i & Hc & Hl & Hf & <- & Hne & Hall).
    destruct (Hall x xi xi' Hx Hx') as (-> & -> & Hv & Hb). split_and!; [done|done|].
    intros Hdiff. exists target, f, l, i. auto 10.
Qed.
End reach.

(** ** The theorems on the concrete server *)

Definition demo_calls : list Call :=
  [CGetUserRoot "ann" "ann"; CCreateFile ann_fid "doc" "ann" InodeTypeDirectory;
   CCreateFile doc_fid "f" "ann" InodeTypeFile].

(** The concrete server is the one its calls lead to. *)
Lemma demo_reached : foldl (λ w c, (exec c w).1) demo_start demo_calls = demo.
Proof. vm_compute. reflexivity. Qed.

Lemma demo_initial : initial ["srv"] demo_start.
Proof.
  split_and!; [done..| |].
  - apply Forall_singleton, name_okb_sound. vm_compute. reflexivity.
  - eexists. split; [done|]. split; simpl; [lia|done|done].
Qed.

Lemma demo_admissible_root : admissible demo_start (CGetUserRoot "ann" "ann").
Proof.
  split; [intros st [= <-]; vm_compute; reflexivity|].
  split; [apply name_okb_sound; vm_compute; reflexivity|].
  intros _ w1 id w2 acl Hp Hl.
  assert ((LoadACL "ann" "ann" (prepare_root "ann" demo_start).1).2 = Ok (mkACL "ann" [])) as Hx
    by (vm_compute; reflexivity).
  rewrite Hp in Hx. simpl in Hx. rewrite Hl in Hx. simpl in Hx. by injection Hx as ->.
Qed.

(** A counter with ids left, by evaluation. *)
Definition ids_leftb (w : Server MemDisk) (n : Z) : bool :=
  match inodeStore (srv w) with Some st => NextInodeID (isData st) + n <? two64 | None => true end.
Lemma ids_leftb_sound (w : Server MemDisk) n : ids_leftb w n = true → ids_left (srv w) n.
Proof. unfold ids_leftb, ids_left. destruct (inodeStore (srv w)); [|done]. intros Hb ? [= <-]. lia. Qed.

(** A sequence of calls, each admissible where it is made. *)
Fixpoint runs (w : Server MemDisk) (cs : list Call) : Prop :=
  match cs with [] => True | c :: cs => admissible w c ∧ runs (exec c w).1 cs end.
Lemma runs_reachable R w cs :
  reachable R w → runs w cs → reachable R (foldl (λ w c, (exec c w).1) w cs).
Proof.
  revert w. induction cs as [|c cs IH]; intros w Hr Hcs; [exact Hr|].
  destruct Hcs as [Ha Hcs]. apply IH; [|exact Hcs]. by apply reach_call.
Qed.

Lemma demo_reachable : reachable ["srv"] demo.
Proof.
  rewrite <-demo_reached. apply runs_reachable; [apply reach_start, demo_initial|].
  split; [exact demo_admissible_root|].
  split; [split; [apply ids_leftb_sound; vm_compute; reflexivity|exact I]|].
  split; [split; [apply ids_leftb_sound; vm_compute; reflexivity|exact I]|exact I].
Qed.

Lemma reachable_safe_witness :
  reachable ["srv"] demo ∧ server_wf ["srv"] (srv demo)
  ∧ admissible demo (CDeleteFile doc_fid "ann" true)
  ∧ (exec (CDeleteFile doc_fid "ann" true) demo).2 ≠ Panic "nil pointer dereference".
Proof.
  destruct (reachable_safe ["srv"] demo demo_reachable) as [Hwf Hsafe].
  assert (admissible demo (CDeleteFile doc_fid "ann" true)) as Ha.
  { split; [apply ids_leftb_sound; vm_compute; reflexivity|exact I]. }
  split; [exact demo_reachable|]. split; [exact Hwf|]. split; [exact Ha|]. by apply Hsafe.
Defined.

(** Sharing the directory [doc] with bob lets bob at the file below it. *)
Lemma only_owners_change_access_witness :
  let c := CShare "ann" "bob" doc_fid in
  let w' := (exec c demo).1 in
  reachable ["srv"] demo ∧ admissible demo c ∧ live (srv demo) file_loc file_inode
  ∧ ∃ xi', live (srv w') file_loc xi' ∧ iACL xi' ≠ iACL file_inode ∧ "bob" ∈ aShared (iACL xi')
     ∧ ∃ target f l i, c = CShare (Owner (iACL i)) target f ∧ live (srv demo) l i
         ∧ below (srv demo) l file_loc.
Proof.
  intros c w'. assert (admissible demo c) as Ha.
  { split; [apply ids_leftb_sound; vm_compute; reflexivity|exact I]. }
  assert (live (srv w') file_loc (inode_of w' file_loc)) as Hl by (split; vm_compute; reflexivity).
  assert (aShared (iACL (inode_of w' file_loc)) = ["bob"]) as Hs by (vm_compute; reflexivity).
  assert (iACL (inode_of w' file_loc) ≠ iACL file_inode) as Hne.
  { intros Heq. rewrite Heq in Hs. vm_compute in Hs. discriminate Hs. }
  split; [exact demo_reachable|]. split; [exact Ha|]. split; [exact demo_file_live|].
  exists (inode_of w' file_loc). split; [exact Hl|]. split; [exact Hne|]. split; [rewrite Hs; apply list_elem_of_here|].
  destruct (only_owners_change_access ["srv"] demo c file_loc file_inode _ demo_reachable Ha
              demo_file_live Hl) as (_ & _ & Hc).
  destruct (Hc Hne) as (target & f & l & i & [Hcs|Hcs] & Hli & _ & Hb & _); [|discriminate Hcs].
  exists target, f, l, i. split; [exact Hcs|]. split; [exact Hli|exact Hb].
Defined.
