(* ===== verification/Storage.v ===== *)
(** * The persistence seam of the cluster metadata (internal/storage/meta.go)

    [MetaStore] is the interface the metaserver writes through.  What it promises is
    stated on an abstract state of three tables, [meta_state], with one pure function
    per write; [MetaStoreLaws] says that an implementation follows them, that a failed
    write changes nothing and that the snapshot lists the tables.  Memory.v implements
    the interface; Metaserver.v and MetaSpec.v use only the laws. *)
From S2P Require Import Prelude GoStd.

(** ** Records *)

Definition ErrNotFound : error := Errorf "storage: record not found" [].
Definition LegacyNodeIDPrefix : string := "addr:".

(** [errors.Is]: the chain of wrapped errors is searched. *)
Fixpoint errors_Is (err target : error) : bool :=
  bool_decide (err = target)
  || match err with Wrapf _ _ inner => errors_Is inner target | _ => false end.

Record FileServerRecord := mkFileServerRecord {
  NodeID : string; NumericID : Z; Address : string;
  LastHeartbeatUnix : Z; Status : string }.
Record UserRecord := mkUserRecord { Username : string; HomeNodeID : string }.
Record ShareRecord := mkShareRecord {
  Grantee : string; Owner : string; Path : string; DisplayName : string }.
Record MetaSnapshot := mkMetaSnapshot {
  FileServers : list FileServerRecord; Users : list UserRecord; Shares : list ShareRecord }.

#[export] Instance FileServerRecord_eq_dec : EqDecision FileServerRecord.
Proof. solve_decision. Defined.
#[export] Instance UserRecord_eq_dec : EqDecision UserRecord.
Proof. solve_decision. Defined.
#[export] Instance ShareRecord_eq_dec : EqDecision ShareRecord.
Proof. solve_decision. Defined.

Definition set_NodeID v r :=
  mkFileServerRecord v (NumericID r) (Address r) (LastHeartbeatUnix r) (Status r).
Definition set_NumericID v r :=
  mkFileServerRecord (NodeID r) v (Address r) (LastHeartbeatUnix r) (Status r).
Definition set_LastHeartbeat v r :=
  mkFileServerRecord (NodeID r) (NumericID r) (Address r) v (Status r).
Definition set_Status v r :=
  mkFileServerRecord (NodeID r) (NumericID r) (Address r) (LastHeartbeatUnix r) v.
Definition set_SharePath v sh := mkShareRecord (Grantee sh) (Owner sh) v (DisplayName sh).

(** ** [NormalizeSharePath] *)

(** The segments of a path that are kept. *)
Definition kept_segment (s : string) : bool := negb (String.eqb s "" || String.eqb s ".").

Definition NormalizeSharePath (p : string) : string :=
  SJoin slash (List.filter kept_segment (Split slash (ReplaceAll backslash slash p))).

(** The canonical form: kept segments without separators, joined by slashes. *)
Definition segment_ok (s : string) : Prop :=
  s ≠ "" ∧ s ≠ "." ∧ sep_free slash s ∧ sep_free backslash s.
Definition canonical_share (p : string) : Prop := ∃ l, Forall segment_ok l ∧ p = SJoin slash l.

(** ** The tables and the writes *)

(** (grantee, owner, path) *)
Definition shareKey : Type := string * string * string.
Definition key_of (sh : ShareRecord) : shareKey := (Grantee sh, Owner sh, Path sh).

Record meta_state := mkMetaState {
  ns_nodes : gmap string FileServerRecord;
  ns_users : gmap string string;
  ns_shares : gmap shareKey ShareRecord }.

Definition with_nodes (f : gmap string FileServerRecord → gmap string FileServerRecord) st :=
  mkMetaState (f (ns_nodes st)) (ns_users st) (ns_shares st).
Definition with_users (f : gmap string string → gmap string string) st :=
  mkMetaState (ns_nodes st) (f (ns_users st)) (ns_shares st).
Definition with_shares (f : gmap shareKey ShareRecord → gmap shareKey ShareRecord) st :=
  mkMetaState (ns_nodes st) (ns_users st) (f (ns_shares st)).

(** The numeric id of a known node is kept; a new node gets [fresh]. *)
Definition upserted (rec : FileServerRecord) (fresh : Z) (nodes : gmap string FileServerRecord) :
    FileServerRecord :=
  set_NumericID (from_option NumericID fresh (nodes !! NodeID rec)) rec.

(** Every home at [old] becomes [new]. *)
Definition rehome (old new : string) (users : gmap string string) : gmap string string :=
  (λ home, if decide (home = old) then new else home) <$> users.

(** The node keeps its record under the new key unless that key is taken. *)
Definition rekey (old new : string) (nodes : gmap string FileServerRecord) :
    gmap string FileServerRecord :=
  match nodes !! old, delete old nodes !! new with
  | Some rec, None => <[new := set_NodeID new rec]> (delete old nodes)
  | _, _ => delete old nodes
  end.

Definition rename (old new : string) (st : meta_state) : meta_state :=
  if decide (old = new) then st else
  with_nodes (rekey old new) (with_users (rehome old new) st).

Definition assign_user (u : UserRecord) : gmap string string → gmap string string :=
  <[Username u := HomeNodeID u]>.
Definition remove_user (u : string) : gmap string string → gmap string string := delete u.
Definition add_share (sh : ShareRecord) (shares : gmap shareKey ShareRecord) :
    gmap shareKey ShareRecord :=
  let sh := set_SharePath (NormalizeSharePath (Path sh)) sh in <[key_of sh := sh]> shares.
Definition remove_share (grantee owner path : string) : gmap shareKey ShareRecord → _ :=
  delete (grantee, owner, NormalizeSharePath path).

(** A range over a list, each element updating a table. *)
Definition each {A B} (f : A → B → B) (l : list A) (b : B) : B := foldl (λ b a, f a b) b l.

Definition remove_involving (us : list string) (shares : gmap shareKey ShareRecord) :=
  filter (λ kv, ¬ (kv.1.1.1 ∈ us ∨ kv.1.1.2 ∈ us)) shares.
Definition remove_by_owner (os : list string) (shares : gmap shareKey ShareRecord) :=
  filter (λ kv, kv.1.1.2 ∉ os) shares.

(** ** The interface *)

Class MetaStore (S : Type) := {
  LoadSnapshot : M S MetaSnapshot;
  UpsertFileServer : FileServerRecord → M S Z;
  RemoveFileServer : string → M S unit;
  RenameFileServer : string → string → M S unit;
  RecordHeartbeat : string → Z → string → M S unit;
  SetFileServerStatus : string → string → M S unit;
  AssignUser : string → string → M S unit;
  AssignUsers : list UserRecord → M S unit;
  RemoveUsers : list string → M S unit;
  AddShare : ShareRecord → M S unit;
  AddShares : list ShareRecord → M S unit;
  RemoveShare : string → string → string → M S unit;
  RemoveSharesInvolving : list string → M S unit;
  RemoveSharesByOwner : list string → M S unit }.

(** Every record is stored under its own key, shares under a normalised path. *)
Definition state_ok (st : meta_state) : Prop :=
  (∀ n r, ns_nodes st !! n = Some r → NodeID r = n)
  ∧ (∀ k sh, ns_shares st !! k = Some sh → key_of sh = k).

(** The snapshot lists exactly the tables, each record once. *)
Definition lists (st : meta_state) (snap : MetaSnapshot) : Prop :=
  (∀ r, r ∈ FileServers snap ↔ ns_nodes st !! NodeID r = Some r)
  ∧ NoDup (NodeID <$> FileServers snap)
  ∧ (∀ u, u ∈ Users snap ↔ ns_users st !! Username u = Some (HomeNodeID u))
  ∧ NoDup (Username <$> Users snap)
  ∧ (∀ sh, sh ∈ Shares snap ↔ ns_shares st !! key_of sh = Some sh)
  ∧ NoDup (key_of <$> Shares snap).

Section laws.
Context {S : Type} (view : S → meta_state).

(** A write that succeeds has the effect [f] on the tables, for some value that [R]
    allows; one that fails leaves them as they were. *)
Definition implements {A} (m : M S A) (R : meta_state → A → Prop)
    (f : A → meta_state → meta_state) : Prop :=
  ∀ s, state_ok (view s) →
  wp m (λ a s', R (view s) a ∧ view s' = f a (view s)) (λ _ s', view s' = view s) s.

Definition always {A} (_ : meta_state) (_ : A) : Prop := True.

(** The record an update names is there. *)
Definition known (node : string) {A} (st : meta_state) (_ : A) : Prop :=
  is_Some (ns_nodes st !! node).

Class MetaStoreLaws `{MetaStore S} : Prop := {
  law_snapshot : implements LoadSnapshot lists (λ _ st, st);
  law_upsert rec : implements (UpsertFileServer rec)
    (λ st n, ∃ fresh, n = NumericID (upserted rec fresh (ns_nodes st)))
    (λ n, with_nodes (λ m, <[NodeID rec := upserted rec n m]> m));
  law_remove_node node : implements (RemoveFileServer node) always
    (λ _, with_nodes (delete node));
  law_rename old new : implements (RenameFileServer old new) (λ st _, old = new ∨ known old st ())
    (λ _, rename old new);
  law_rename_absent old new s s' e : RenameFileServer old new s = (s', Err e) →
    errors_Is e ErrNotFound = true → ns_nodes (view s) !! old = None;
  law_heartbeat node at' status : implements (RecordHeartbeat node at' status) (known node)
    (λ _, with_nodes (alter (λ r, let r := set_LastHeartbeat at' r in
      if String.eqb status "" then r else set_Status status r) node));
  law_status node status : implements (SetFileServerStatus node status) (known node)
    (λ _, with_nodes (alter (set_Status status) node));
  law_assign user node : implements (AssignUser user node) always
    (λ _, with_users (assign_user (mkUserRecord user node)));
  law_assign_all us : implements (AssignUsers us) always (λ _, with_users (each assign_user us));
  law_remove_users us : implements (RemoveUsers us) always (λ _, with_users (each remove_user us));
  law_add_share sh : implements (AddShare sh) always (λ _, with_shares (add_share sh));
  law_add_shares shs : implements (AddShares shs) always (λ _, with_shares (each add_share shs));
  law_remove_share g o p : implements (RemoveShare g o p) always
    (λ _, with_shares (remove_share g o p));
  law_remove_involving us : implements (RemoveSharesInvolving us) always
    (λ _, with_shares (remove_involving us));
  law_remove_by_owner os : implements (RemoveSharesByOwner os) always
    (λ _, with_shares (remove_by_owner os)) }.
End laws.

(** ** Normal forms *)

Lemma kept_segment_spec s : kept_segment s = true ↔ s ≠ "" ∧ s ≠ ".".
Proof.
  unfold kept_segment. rewrite negb_true_iff, orb_false_iff, !String.eqb_neq. done.
Qed.

Lemma kept_ok l :
  Forall (sep_free slash) l → Forall (sep_free backslash) l →
  Forall segment_ok (List.filter kept_segment l).
Proof.
  rewrite !Forall_forall. intros Hs Hb w [Hw Hk%kept_segment_spec]%list_elem_of_In%filter_In.
  rewrite <-list_elem_of_In in Hw. split_and!; naive_solver.
Qed.

Lemma filter_kept l : Forall segment_ok l → List.filter kept_segment l = l.
Proof.
  induction 1 as [|w l (Hne & Hd & _) Hl IH]; [done|]. simpl.
  rewrite (proj2 (kept_segment_spec w)) by done. by rewrite IH.
Qed.

Lemma normal_SJoin l : Forall segment_ok l → NormalizeSharePath (SJoin slash l) = SJoin slash l.
Proof.
  intros Hl. destruct l as [|w l]; [done|]. unfold NormalizeSharePath.
  rewrite ReplaceAll_none.
  2:{ apply SJoin_free; [done|]. eapply Forall_impl; [exact Hl|]. by intros ? (_ & _ & _ & ?). }
  rewrite Split_SJoin; [|done|].
  2:{ eapply Forall_impl; [exact Hl|]. by intros ? (_ & _ & ? & _). }
  by rewrite filter_kept.
Qed.

Lemma normal_canonical p : canonical_share (NormalizeSharePath p).
Proof.
  eexists. split; [|reflexivity]. apply kept_ok; [apply Split_sep_free|].
  apply Split_free. by apply ReplaceAll_free.
Qed.

Lemma normal_idem p : NormalizeSharePath (NormalizeSharePath p) = NormalizeSharePath p.
Proof. destruct (normal_canonical p) as (l & Hl & ->). by apply normal_SJoin. Qed.

(** C40. [NormalizeSharePath] maps every string to the one canonical form, segments
    that are neither empty nor ["."] and hold no separator, joined by single slashes,
    and leaves exactly the strings in that form as they are; two paths are the same
    share when they have the same segments, whichever slashes they use. *)
Theorem NormalizeSharePath_canonical p :
  canonical_share (NormalizeSharePath p)
  ∧ (canonical_share p ↔ NormalizeSharePath p = p)
  ∧ NormalizeSharePath (ReplaceAll backslash slash p) = NormalizeSharePath p
  ∧ NormalizeSharePath ("/" +:+ p) = NormalizeSharePath p
  ∧ NormalizeSharePath (p +:+ "/") = NormalizeSharePath p
  ∧ NormalizeSharePath ("./" +:+ p) = NormalizeSharePath p.
Proof.
  split; [apply normal_canonical|]. split.
  { split; [intros (l & Hl & ->); by apply normal_SJoin|]. intros <-. apply normal_canonical. }
  unfold NormalizeSharePath. split_and!; [|done| |done].
  - by rewrite (ReplaceAll_none backslash slash (ReplaceAll _ _ _)) by (by apply ReplaceAll_free).
  - assert (ReplaceAll backslash slash (p +:+ "/") = ReplaceAll backslash slash p +:+ "/") as ->
      by (induction p as [|a p IH]; [reflexivity|exact (f_equal _ IH)]).
    rewrite (Split_app_gen slash _ ""). rewrite List.filter_app. simpl. by rewrite app_nil_r.
Qed.

(** ** Effects on the tables *)

Lemma upserted_NodeID rec n m : NodeID (upserted rec n m) = NodeID rec.
Proof. done. Qed.

Lemma each_delete_lookup {B} (us : list string) (m : gmap string B) q :
  each (λ u, delete u) us m !! q = if decide (q ∈ us) then None else m !! q.
Proof.
  revert m. induction us as [|u us IH]; intros m.
  { by case_decide as H; [apply elem_of_nil in H|]. }
  change (each (λ u, delete u) us (delete u m) !! q = if decide (q ∈ u :: us) then None else m !! q).
  rewrite IH. repeat case_decide; try set_solver.
  - destruct (decide (q = u)) as [->|]; [by rewrite lookup_delete_eq|set_solver].
  - rewrite lookup_delete_ne; [done|set_solver].
Qed.

Lemma each_assign_notin us (m : gmap string string) q :
  q ∉ Username <$> us → each assign_user us m !! q = m !! q.
Proof.
  revert m. induction us as [|[u h] us IH]; intros m Hq; [done|].
  change (each assign_user us (<[u:=h]> m) !! q = m !! q). rewrite IH by set_solver.
  rewrite lookup_insert_ne; [done|set_solver].
Qed.

(** Users all assigned to one node. *)
Lemma each_assign_const (node : string) us (m : gmap string string) q :
  each assign_user ((λ u, mkUserRecord u node) <$> us) m !! q
  = if decide (q ∈ us) then Some node else m !! q.
Proof.
  revert m. induction us as [|u us IH]; intros m.
  { by case_decide as H; [apply elem_of_nil in H|]. }
  change (each assign_user ((λ u, mkUserRecord u node) <$> us) (<[u:=node]> m) !! q
          = if decide (q ∈ u :: us) then Some node else m !! q).
  rewrite IH. repeat case_decide; try set_solver.
  - destruct (decide (q = u)) as [->|]; [by rewrite lookup_insert_eq|set_solver].
  - rewrite lookup_insert_ne; [done|set_solver].
Qed.

Definition shared_key (sh : ShareRecord) : shareKey :=
  (Grantee sh, Owner sh, NormalizeSharePath (Path sh)).

Lemma add_share_lookup sh m k :
  is_Some (add_share sh m !! k) ↔ k = shared_key sh ∨ is_Some (m !! k).
Proof.
  unfold add_share, shared_key, key_of. simpl. destruct (decide (k = (Grantee sh, Owner sh, NormalizeSharePath (Path sh)))) as [->|Hne].
  - rewrite lookup_insert_eq. naive_solver.
  - rewrite lookup_insert_ne by done. naive_solver.
Qed.

Lemma each_add_share_lookup shs m k :
  is_Some (each add_share shs m !! k) ↔ k ∈ shared_key <$> shs ∨ is_Some (m !! k).
Proof.
  revert m. induction shs as [|sh shs IH]; intros m; [set_solver|].
  change (each add_share (sh :: shs) m) with (each add_share shs (add_share sh m)).
  rewrite IH, add_share_lookup, fmap_cons, elem_of_cons. tauto.
Qed.

Lemma remove_involving_lookup us m k :
  is_Some (remove_involving us m !! k) ↔ is_Some (m !! k) ∧ k.1.1 ∉ us ∧ k.1.2 ∉ us.
Proof.
  unfold remove_involving, is_Some. setoid_rewrite map_lookup_filter_Some. naive_solver.
Qed.

Lemma remove_by_owner_lookup os m k :
  is_Some (remove_by_owner os m !! k) ↔ is_Some (m !! k) ∧ k.1.2 ∉ os.
Proof.
  unfold remove_by_owner, is_Some. setoid_rewrite map_lookup_filter_Some. naive_solver.
Qed.

Lemma remove_share_lookup g o p m k :
  is_Some (remove_share g o p m !! k) ↔ is_Some (m !! k) ∧ k ≠ (g, o, NormalizeSharePath p).
Proof.
  unfold remove_share, is_Some. setoid_rewrite lookup_delete_Some. naive_solver.
Qed.

(** ** The tables stay keyed by their records *)

Definition nodes_ok (m : gmap string FileServerRecord) : Prop :=
  ∀ n r, m !! n = Some r → NodeID r = n.
Definition shares_ok (m : gmap shareKey ShareRecord) : Prop :=
  ∀ k sh, m !! k = Some sh → key_of sh = k.

Lemma state_ok_nodes f st :
  (nodes_ok (ns_nodes st) → nodes_ok (f (ns_nodes st))) → state_ok st → state_ok (with_nodes f st).
Proof. intros Hf [Hn Hs]. split; [exact (Hf Hn)|exact Hs]. Qed.
Lemma state_ok_users f st : state_ok st → state_ok (with_users f st).
Proof. done. Qed.
Lemma state_ok_shares f st :
  (shares_ok (ns_shares st) → shares_ok (f (ns_shares st))) →
  state_ok st → state_ok (with_shares f st).
Proof. intros Hf [Hn Hs]. split; [exact Hn|exact (Hf Hs)]. Qed.

Lemma nodes_ok_insert r m n : NodeID r = n → nodes_ok m → nodes_ok (<[n := r]> m).
Proof. intros <- Hm n' r' [[<- <-]|[_ Hr]]%lookup_insert_Some; [done|by apply Hm]. Qed.
Lemma nodes_ok_delete n m : nodes_ok m → nodes_ok (delete n m).
Proof. intros Hm n' r' [_ Hr]%lookup_delete_Some. by apply Hm. Qed.
Lemma nodes_ok_alter f n m :
  (∀ r, NodeID (f r) = NodeID r) → nodes_ok m → nodes_ok (alter f n m).
Proof.
  intros Hf Hm n' r' Hr. destruct (decide (n = n')) as [<-|Hne].
  - rewrite lookup_alter_eq in Hr. apply fmap_Some in Hr as (r & Hr & ->).
    rewrite Hf. by apply Hm.
  - rewrite lookup_alter_ne in Hr by done. by apply Hm.
Qed.
Lemma nodes_ok_rekey old new m : nodes_ok m → nodes_ok (rekey old new m).
Proof.
  intros Hm. unfold rekey. pose proof (nodes_ok_delete old m Hm) as Hd.
  destruct (m !! old); [|done]. destruct (delete old m !! new); [done|].
  by apply nodes_ok_insert.
Qed.
Lemma shares_ok_add sh m : shares_ok m → shares_ok (add_share sh m).
Proof.
  unfold add_share. intros Hm k sh' [[<- <-]|[_ Hr]]%lookup_insert_Some; [done|by apply Hm].
Qed.
Lemma shares_ok_adds shs m : shares_ok m → shares_ok (each add_share shs m).
Proof.
  revert m. induction shs as [|sh shs IH]; intros m Hm; [done|].
  apply (IH (add_share sh m)). by apply shares_ok_add.
Qed.
Lemma shares_ok_filter P `{∀ x, Decision (P x)} (m : gmap shareKey ShareRecord) :
  shares_ok m → shares_ok (filter P m).
Proof. intros Hm k sh [Hk _]%map_lookup_filter_Some. by apply Hm. Qed.
Lemma shares_ok_delete k m : shares_ok m → shares_ok (delete k m).
Proof. intros Hm k' sh [_ Hk]%lookup_delete_Some. by apply Hm. Qed.

#[export] Hint Resolve state_ok_nodes state_ok_users state_ok_shares nodes_ok_insert
  nodes_ok_delete nodes_ok_alter nodes_ok_rekey shares_ok_add shares_ok_adds
  shares_ok_filter shares_ok_delete : dvfs.

Lemma state_ok_rename old new st : state_ok st → state_ok (rename old new st).
Proof.
  unfold rename. case_decide; [done|]. intros Hst. apply state_ok_nodes; [|done].
  apply nodes_ok_rekey.
Qed.
#[export] Hint Resolve state_ok_rename : dvfs.

(** ** Writes as data

    The writes of the interface, to speak of sequences of them. *)
Inductive write :=
  | WUpsert (rec : FileServerRecord)
  | WRemoveNode (node : string)
  | WRename (old new : string)
  | WHeartbeat (node : string) (at' : Z) (status : string)
  | WStatus (node status : string)
  | WAssign (user node : string)
  | WAssignAll (us : list UserRecord)
  | WRemoveUsers (us : list string)
  | WAddShare (sh : ShareRecord)
  | WAddShares (shs : list ShareRecord)
  | WRemoveShare (g o p : string)
  | WRemoveInvolving (us : list string)
  | WRemoveByOwner (os : list string).

Definition exec {S} `{MetaStore S} (w : write) : M S unit :=
  match w with
  | WUpsert rec => UpsertFileServer rec ;; mret tt
  | WRemoveNode node => RemoveFileServer node
  | WRename old new => RenameFileServer old new
  | WHeartbeat node at' status => RecordHeartbeat node at' status
  | WStatus node status => SetFileServerStatus node status
  | WAssign user node => AssignUser user node
  | WAssignAll us => AssignUsers us
  | WRemoveUsers us => RemoveUsers us
  | WAddShare sh => AddShare sh
  | WAddShares shs => AddShares shs
  | WRemoveShare g o p => RemoveShare g o p
  | WRemoveInvolving us => RemoveSharesInvolving us
  | WRemoveByOwner os => RemoveSharesByOwner os
  end.

(** The effect of a range of insertions on one key. *)
Lemma each_insert_lookup {A K V} `{Countable K} (key : A → K) (val : A → V) (l : list A)
    (m : gmap K V) k :
  each (λ a, <[key a := val a]>) l m !! k
  = foldl (λ o a, if decide (key a = k) then Some (val a) else o) (m !! k) l.
Proof.
  revert m. induction l as [|a l IH]; intros m; [done|].
  change (each (λ a, <[key a := val a]>) l (<[key a := val a]> m) !! k
    = foldl (λ o a, if decide (key a = k) then Some (val a) else o)
        (if decide (key a = k) then Some (val a) else m !! k) l).
  rewrite IH. f_equal. case_decide as Hk; [by rewrite Hk, lookup_insert_eq|].
  by rewrite lookup_insert_ne.
Qed.

Lemma last_write {A K V} `{EqDecision K} (key : A → K) (val : A → V) (l : list A) k :
  (∀ o, foldl (λ o a, if decide (key a = k) then Some (val a) else o) o l = o)
  ∨ ∃ v, ∀ o, foldl (λ o a, if decide (key a = k) then Some (val a) else o) o l = Some v.
Proof.
  induction l as [|a l IH]; [by left|]. simpl.
  destruct IH as [IH|[v IH]]; [|right; by exists v].
  case_decide; [right; by exists (val a)|by left].
Qed.

(** Inserting a list of entries twice is inserting it once. *)
Lemma each_insert_idem {A K V} `{Countable K} (key : A → K) (val : A → V) (l : list A)
    (m : gmap K V) :
  each (λ a, <[key a := val a]>) l (each (λ a, <[key a := val a]>) l m)
  = each (λ a, <[key a := val a]>) l m.
Proof.
  apply map_eq. intros k. rewrite !each_insert_lookup.
  destruct (last_write key val l k) as [Hw|[v Hw]]; by rewrite !Hw.
Qed.

Lemma each_delete_idem {V} (us : list string) (m : gmap string V) :
  each (λ u, delete u) us (each (λ u, delete u) us m) = each (λ u, delete u) us m.
Proof. apply map_eq. intros q. rewrite !each_delete_lookup. by case_decide. Qed.

Lemma alter_idem {V} (f : V → V) (n : string) (m : gmap string V) :
  (∀ v, f (f v) = f v) → alter f n (alter f n m) = alter f n m.
Proof.
  intros Hf. apply map_eq. intros q. destruct (decide (q = n)) as [->|Hne].
  - rewrite !lookup_alter_eq. destruct (m !! n) as [v|]; [|done]. simpl. by rewrite Hf.
  - by rewrite !lookup_alter_ne.
Qed.

Lemma filter_idem {V} P `{∀ x, Decision (P x)} (m : gmap shareKey V) :
  filter P (filter P m) = filter P m.
Proof.
  apply map_filter_id. intros k v [_ HP]%map_lookup_filter_Some. exact HP.
Qed.

Section writes.
Context {S : Type} `{HM : MetaStore S} (view : S → meta_state) `{!MetaStoreLaws view}.

(** A lawful call whose effect is idempotent, made twice. *)
Lemma twice {A} (m : M S A) R f s s1 a :
  implements view m R f → state_ok (view s) → state_ok (view s1) →
  (∀ a' st, R st a → R (f a st) a' → f a' (f a st) = f a st) →
  m s = (s1, Ok a) →
  wp m (λ _ s2, view s2 = view s1) (λ _ s2, view s2 = view s1) s1.
Proof.
  intros Hm Hok Hok1 Hf Hr. pose proof (wp_ok _ _ _ _ _ _ (Hm s Hok) Hr) as [HR Hv].
  eapply wp_mono; [apply (Hm s1 Hok1)| |done].
  intros a' s2 [HR' Hv2]. rewrite Hv2, Hv in *. by apply Hf.
Qed.

Lemma upserted_idem rec n n' m :
  (∃ fresh, n = NumericID (upserted rec fresh m)) →
  (∃ fresh, n' = NumericID (upserted rec fresh (<[NodeID rec := upserted rec n m]> m))) →
  let m1 := <[NodeID rec := upserted rec n m]> m in
  <[NodeID rec := upserted rec n' m1]> m1 = m1.
Proof.
  intros [fr ->] [fr' ->]. simpl. apply insert_id. rewrite lookup_insert_eq. f_equal.
  unfold upserted. rewrite lookup_insert_eq. simpl. by destruct (m !! NodeID rec).
Qed.

(** Every write keeps the tables keyed by their records. *)
Lemma effect_ok {A} (m : M S A) R f s :
  implements view m R f → state_ok (view s) →
  (∀ a st, state_ok st → state_ok (f a st)) →
  wp m (λ _ s1, state_ok (view s1)) (λ _ s1, state_ok (view s1)) s.
Proof.
  intros Hm Hok Hf. eapply wp_mono; [apply (Hm s Hok)| |].
  - intros a s1 [_ ->]. by apply Hf.
  - by intros e s1 ->.
Qed.

Lemma heartbeat_NodeID at' (status : string) r :
  NodeID (let r := set_LastHeartbeat at' r in
          if String.eqb status "" then r else set_Status status r) = NodeID r.
Proof. cbv zeta. by destruct (String.eqb status ""). Qed.

Lemma exec_ok w s :
  state_ok (view s) →
  wp (exec w) (λ _ s1, state_ok (view s1)) (λ _ s1, state_ok (view s1)) s.
Proof.
  intros Hok. destruct w; simpl.
  - apply wp_bind. eapply wp_mono; [eapply effect_ok; [apply (law_upsert view)|done|]| |done].
    + intros a st. apply state_ok_nodes, nodes_ok_insert, upserted_NodeID.
    + by intros a s1 H1; apply wp_ret.
  - eapply effect_ok; [apply (law_remove_node view)|done|]. intros ? st. apply state_ok_nodes, nodes_ok_delete.
  - eapply effect_ok; [apply (law_rename view)|done|]. intros ? st. apply state_ok_rename.
  - eapply effect_ok; [apply (law_heartbeat view)|done|].
    intros ? st. apply state_ok_nodes, nodes_ok_alter, heartbeat_NodeID.
  - eapply effect_ok; [apply (law_status view)|done|]. intros ? st. by apply state_ok_nodes, nodes_ok_alter.
  - eapply effect_ok; [apply (law_assign view)|done|done].
  - eapply effect_ok; [apply (law_assign_all view)|done|done].
  - eapply effect_ok; [apply (law_remove_users view)|done|done].
  - eapply effect_ok; [apply (law_add_share view)|done|]. intros ? st. apply state_ok_shares, shares_ok_add.
  - eapply effect_ok; [apply (law_add_shares view)|done|]. intros ? st. apply state_ok_shares, shares_ok_adds.
  - eapply effect_ok; [apply (law_remove_share view)|done|]. intros ? st. apply state_ok_shares, shares_ok_delete.
  - eapply effect_ok; [apply (law_remove_involving view)|done|]. intros ? st. apply state_ok_shares, shares_ok_filter.
  - eapply effect_ok; [apply (law_remove_by_owner view)|done|]. intros ? st. apply state_ok_shares, shares_ok_filter.
Qed.

(** Every write is idempotent, in any lawful store: made again after it succeeded,
    it leaves the tables as they are, whether it succeeds or fails, and does not panic
    (a rename made again finds nothing to rename). *)
Theorem writes_idempotent w s s1 :
  state_ok (view s) → exec w s = (s1, Ok tt) →
  wp (exec w) (λ _ s2, view s2 = view s1) (λ _ s2, view s2 = view s1) s1.
Proof.
  intros Hok Hr. pose proof (wp_ok _ _ _ _ _ _ (exec_ok w s Hok) Hr) as Hok1.
  destruct w; simpl in Hr |- *.
  - apply bind_inv_ok in Hr as (s1' & n & Hr & [= ->]).
    apply wp_bind. eapply wp_mono; [eapply twice; [apply (law_upsert view)|exact Hok|exact Hok1| |exact Hr]| |].
    + intros n' st HR HR'. unfold with_nodes in *. simpl in *. f_equal. by apply upserted_idem.
    + by intros a s2 H2; apply wp_ret.
    + done.
  - eapply twice; [apply (law_remove_node view)|done..| |exact Hr]. intros ? st _ _.
    unfold with_nodes. simpl. f_equal. by rewrite delete_delete_eq.
  - eapply twice; [apply (law_rename view)|done..| |exact Hr]. unfold rename, known.
    intros ? st [->|Hk] HR; [by rewrite decide_True|]. case_decide as Hne; [done|].
    destruct HR as [|[r HR]]; [done|]. simpl in HR. unfold rekey in HR.
    destruct (ns_nodes st !! old); [|by rewrite lookup_delete_eq in HR].
    destruct (delete old (ns_nodes st) !! new); [by rewrite lookup_delete_eq in HR|].
    by rewrite lookup_insert_ne, lookup_delete_eq in HR.
  - eapply twice; [apply (law_heartbeat view)|done..| |exact Hr]. intros ? st _ _.
    unfold with_nodes. simpl. f_equal. apply alter_idem. intros r. by destruct (String.eqb status "").
  - eapply twice; [apply (law_status view)|done..| |exact Hr]. intros ? st _ _.
    unfold with_nodes. simpl. f_equal. by apply alter_idem.
  - eapply twice; [apply (law_assign view)|done..| |exact Hr]. intros ? st _ _.
    unfold with_users, assign_user. simpl. f_equal. by rewrite insert_insert_eq.
  - eapply twice; [apply (law_assign_all view)|done..| |exact Hr]. intros ? st _ _.
    unfold with_users, assign_user. simpl. f_equal. apply each_insert_idem.
  - eapply twice; [apply (law_remove_users view)|done..| |exact Hr]. intros ? st _ _.
    unfold with_users, remove_user. simpl. f_equal. apply each_delete_idem.
  - eapply twice; [apply (law_add_share view)|done..| |exact Hr]. intros ? st _ _.
    unfold with_shares, add_share. simpl. f_equal. by rewrite insert_insert_eq.
  - eapply twice; [apply (law_add_shares view)|done..| |exact Hr]. intros ? st _ _.
    unfold with_shares. simpl. f_equal. apply (each_insert_idem shared_key).
  - eapply twice; [apply (law_remove_share view)|done..| |exact Hr]. intros ? st _ _.
    unfold with_shares, remove_share. simpl. f_equal. by rewrite delete_delete_eq.
  - eapply twice; [apply (law_remove_involving view)|done..| |exact Hr]. intros ? st _ _.
    unfold with_shares, remove_involving. simpl. f_equal. apply filter_idem.
  - eapply twice; [apply (law_remove_by_owner view)|done..| |exact Hr]. intros ? st _ _.
    unfold with_shares, remove_by_owner. simpl. f_equal. apply filter_idem.
Qed.
End writes.
