(* ===== verification/Memory.v ===== *)
(** * The in-process MetaStore (internal/storage/memory/memory.go)

    Every operation first asks its context whether the request is still live; what the
    context answers to the successive operations is a list of the model's world.  The
    operations follow the code; [memory_laws] shows that they implement the interface,
    and the last section that numeric ids are never shared nor handed out twice. *)
From S2P Require Import Prelude GoStd Storage.

Record Store := mkStore {
  fileServers : gmap string FileServerRecord;
  users : gmap string string;
  shares : gmap shareKey ShareRecord;
  nextNumericID : Z;
  closed : bool }.

(** What a context can say of itself. *)
Inductive ctx_state := Live | Canceled | DeadlineExceeded.

(** The store and the state in which the operations to come find their contexts (live
    once the list is used up). *)
Record mem_world := mkMemWorld { st : Store; ctx_errs : list ctx_state }.

Definition New : Store := mkStore ∅ ∅ ∅ 0 false.

Definition ctx_Err : M mem_world unit := λ w,
  (mkMemWorld (st w) (tail (ctx_errs w)),
   match head (ctx_errs w) with
   | Some Canceled => Err (Errorf "context canceled" [])
   | Some DeadlineExceeded => Err (Errorf "context deadline exceeded" [])
   | _ => Ok tt
   end).

(** A change of the store under its lock. *)
Definition update (f : Store → Store) : M mem_world unit :=
  modify (λ w, mkMemWorld (f (st w)) (ctx_errs w)).

Definition set_fileServers f s :=
  mkStore (f (fileServers s)) (users s) (shares s) (nextNumericID s) (closed s).
Definition set_users f s :=
  mkStore (fileServers s) (f (users s)) (shares s) (nextNumericID s) (closed s).
Definition set_shares f s :=
  mkStore (fileServers s) (users s) (f (shares s)) (nextNumericID s) (closed s).
Definition set_nextNumericID v s :=
  mkStore (fileServers s) (users s) (shares s) v (closed s).
Definition set_closed s :=
  mkStore (fileServers s) (users s) (shares s) (nextNumericID s) true.

(** The orders of [sort.Slice]. *)
Definition node_le (a b : FileServerRecord) : Prop := String.le (NodeID a) (NodeID b).
Definition user_le (a b : UserRecord) : Prop := String.le (Username a) (Username b).
Definition share_le (a b : ShareRecord) : Prop :=
  if decide (Grantee a = Grantee b) then
    if decide (Owner a = Owner b) then String.le (Path a) (Path b)
    else String.le (Owner a) (Owner b)
  else String.le (Grantee a) (Grantee b).
#[export] Instance node_le_dec : RelDecision node_le.
Proof. intros a b. unfold node_le. apply _. Defined.
#[export] Instance user_le_dec : RelDecision user_le.
Proof. intros a b. unfold user_le. apply _. Defined.
#[export] Instance share_le_dec : RelDecision share_le.
Proof. intros a b. unfold share_le. repeat case_decide; apply _. Defined.

Definition LoadSnapshot : M mem_world MetaSnapshot :=
  ctx_Err ;;
  s ← gets st;
  mret (mkMetaSnapshot
    (merge_sort node_le (map_to_list (fileServers s)).*2)
    (merge_sort user_le ((λ kv, mkUserRecord kv.1 kv.2) <$> map_to_list (users s)))
    (merge_sort share_le (map_to_list (shares s)).*2)).

Definition UpsertFileServer (rec : FileServerRecord) : M mem_world Z :=
  ctx_Err ;;
  s ← gets st;
  match fileServers s !! NodeID rec with
  | Some existing =>
      let rec := set_NumericID (NumericID existing) rec in
      update (set_fileServers <[NodeID rec := rec]>) ;; mret (NumericID rec)
  | None =>
      let rec := set_NumericID (nextNumericID s) rec in
      update (set_nextNumericID (u64 (nextNumericID s + 1))) ;;
      update (set_fileServers <[NodeID rec := rec]>) ;; mret (NumericID rec)
  end.

Definition RemoveFileServer (nodeID : string) : M mem_world unit :=
  ctx_Err ;; update (set_fileServers (delete nodeID)).

Definition RecordHeartbeat (nodeID : string) (at' : Z) (status : string) : M mem_world unit :=
  ctx_Err ;;
  s ← gets st;
  rec ← of_option ErrNotFound (fileServers s !! nodeID);
  let rec := set_LastHeartbeat at' rec in
  let rec := if String.eqb status "" then rec else set_Status status rec in
  update (set_fileServers <[nodeID := rec]>).

Definition SetFileServerStatus (nodeID status : string) : M mem_world unit :=
  ctx_Err ;;
  s ← gets st;
  rec ← of_option ErrNotFound (fileServers s !! nodeID);
  update (set_fileServers <[nodeID := set_Status status rec]>).

Definition RenameFileServer (oldNodeID newNodeID : string) : M mem_world unit :=
  ctx_Err ;;
  if String.eqb oldNodeID newNodeID then mret tt else
  s ← gets st;
  rec ← of_option ErrNotFound (fileServers s !! oldNodeID);
  update (set_users (rehome oldNodeID newNodeID)) ;;
  update (set_fileServers (delete oldNodeID)) ;;
  s ← gets st;
  match fileServers s !! newNodeID with
  | None => update (set_fileServers <[newNodeID := set_NodeID newNodeID rec]>)
  | Some _ => mret tt
  end.

Definition AssignUser (username nodeID : string) : M mem_world unit :=
  ctx_Err ;; update (set_users <[username := nodeID]>).

Definition AssignUsers (us : list UserRecord) : M mem_world unit :=
  ctx_Err ;; for_each us (λ u, update (set_users <[Username u := HomeNodeID u]>)).

Definition RemoveUsers (usernames : list string) : M mem_world unit :=
  ctx_Err ;; for_each usernames (λ u, update (set_users (delete u))).

Definition put_share (sh : ShareRecord) : M mem_world unit :=
  let sh := set_SharePath (NormalizeSharePath (Path sh)) sh in
  update (set_shares <[key_of sh := sh]>).
Definition AddShare (sh : ShareRecord) : M mem_world unit := ctx_Err ;; put_share sh.
Definition AddShares (shs : list ShareRecord) : M mem_world unit :=
  ctx_Err ;; for_each shs put_share.

Definition RemoveShare (grantee owner path : string) : M mem_world unit :=
  ctx_Err ;; update (set_shares (delete (grantee, owner, NormalizeSharePath path))).

Definition RemoveSharesInvolving (usernames : list string) : M mem_world unit :=
  ctx_Err ;;
  match usernames with
  | [] => mret tt
  | _ => let set := list_to_set (C := gset string) usernames in
      update (set_shares (filter (λ kv, ¬ (kv.1.1.1 ∈ set ∨ kv.1.1.2 ∈ set))))
  end.

Definition RemoveSharesByOwner (owners : list string) : M mem_world unit :=
  ctx_Err ;;
  match owners with
  | [] => mret tt
  | _ => let set := list_to_set (C := gset string) owners in
      update (set_shares (filter (λ kv, kv.1.1.2 ∉ set)))
  end.

Definition EnsureIndexes : M mem_world unit := ctx_Err.
Definition Ping : M mem_world unit := ctx_Err.
Definition Close : M mem_world unit := update set_closed.

#[export] Instance memory_store : MetaStore mem_world := {|
  Storage.LoadSnapshot := LoadSnapshot;
  Storage.UpsertFileServer := UpsertFileServer;
  Storage.RemoveFileServer := RemoveFileServer;
  Storage.RenameFileServer := RenameFileServer;
  Storage.RecordHeartbeat := RecordHeartbeat;
  Storage.SetFileServerStatus := SetFileServerStatus;
  Storage.AssignUser := AssignUser;
  Storage.AssignUsers := AssignUsers;
  Storage.RemoveUsers := RemoveUsers;
  Storage.AddShare := AddShare;
  Storage.AddShares := AddShares;
  Storage.RemoveShare := RemoveShare;
  Storage.RemoveSharesInvolving := RemoveSharesInvolving;
  Storage.RemoveSharesByOwner := RemoveSharesByOwner |}.

(** ** It implements the interface *)

Definition view (w : mem_world) : meta_state :=
  mkMetaState (fileServers (st w)) (users (st w)) (shares (st w)).

Lemma ctx_wp {A} (k : M mem_world A) Q E w :
  (∀ w1, st w1 = st w → wp k Q E w1) →
  (∀ e w1, errors_Is e ErrNotFound = false → st w1 = st w → E e w1) →
  wp (ctx_Err ;; k) Q E w.
Proof.
  intros Hok Herr. apply wp_bind. unfold wp, ctx_Err.
  destruct (head (ctx_errs w)) as [[]|]; first [by apply Hok|by apply Herr].
Qed.

(** An operation that only asks the context and then changes the store. *)
Lemma implements_update (f : Store → Store) (g : meta_state → meta_state) :
  (∀ w, view (mkMemWorld (f (st w)) (ctx_errs w)) = g (view w)) →
  implements view (ctx_Err ;; update f) always (λ _, g).
Proof.
  intros Hf w Hok. apply ctx_wp.
  - intros w1 H1. apply wp_modify. split; [done|]. rewrite Hf. unfold view. by rewrite H1.
  - intros e w1 _ H1. unfold view. by rewrite H1.
Qed.

(** A range whose body changes the store. *)
Lemma for_each_update {A} (f : A → Store → Store) (l : list A) w :
  for_each l (λ a, update (f a)) w = (mkMemWorld (each f l (st w)) (ctx_errs w), Ok tt).
Proof.
  revert w. induction l as [|a l IH]; intros w; [by destruct w|].
  simpl. unfold mbind, M_bind, update at 1, modify. rewrite IH. done.
Qed.

Lemma implements_each {A} (f : A → Store → Store) (l : list A) (g : meta_state → meta_state) :
  (∀ w, view (mkMemWorld (each f l (st w)) (ctx_errs w)) = g (view w)) →
  implements view (ctx_Err ;; for_each l (λ a, update (f a))) always (λ _, g).
Proof.
  intros Hf w Hok. apply ctx_wp.
  - intros w1 H1. unfold wp. rewrite for_each_update. split; [done|].
    rewrite Hf. unfold view. by rewrite H1.
  - intros e w1 _ H1. unfold view. by rewrite H1.
Qed.

Lemma each_users {A} (f : A → gmap string string → gmap string string) l s :
  each (λ a, set_users (f a)) l s = set_users (each f l) s.
Proof. revert s. induction l as [|a l IH]; intros s; [by destruct s|apply (IH (set_users (f a) s))]. Qed.
Lemma each_shares {A} (f : A → gmap shareKey ShareRecord → gmap shareKey ShareRecord) l s :
  each (λ a, set_shares (f a)) l s = set_shares (each f l) s.
Proof. revert s. induction l as [|a l IH]; intros s; [by destruct s|apply (IH (set_shares (f a) s))]. Qed.

(** An update of one node: only a known node, and nothing on an error. *)
Lemma implements_node node (f : FileServerRecord → FileServerRecord) :
  implements view
    (ctx_Err ;; s ← gets st;
     rec ← of_option ErrNotFound (fileServers s !! node);
     update (set_fileServers <[node := f rec]>))
    (known node) (λ _, with_nodes (alter f node)).
Proof.
  intros w Hok. apply ctx_wp.
  2:{ intros e w1 _ H1. unfold view. by rewrite H1. }
  intros w1 H1. assert (view w = view w1) as -> by (unfold view; by rewrite H1).
  wp_step. wp_step. apply wp_bind, wp_of_option; [|done].
  intros rec Hrec. apply wp_modify. split; [by eexists|]. unfold view, with_nodes. simpl. f_equal.
  apply map_eq. intros n. destruct (decide (n = node)) as [->|Hne].
  - by rewrite lookup_insert_eq, lookup_alter_eq, Hrec.
  - by rewrite lookup_insert_ne, lookup_alter_ne.
Qed.

Lemma snapshot_lists s :
  state_ok (view s) →
  wp LoadSnapshot (λ snap s', lists (view s) snap ∧ view s' = view s) (λ _ s', view s' = view s) s.
Proof.
  intros [Hn Hs]. apply ctx_wp.
  2:{ intros e w1 _ H1. unfold view. by rewrite H1. }
  intros w1 H1. assert (view w1 = view s) as Hv by (unfold view; by rewrite H1).
  wp_step. wp_step. wp_step. split; [|exact Hv]. rewrite <-Hv in *. unfold lists. simpl.
  split_and!.
  - intros r. rewrite (elem_of_Permutation_proper _ _ _ (merge_sort_Permutation _ _)), list_elem_of_fmap. split.
    + intros ([n r'] & -> & Hr%elem_of_map_to_list). simpl. rewrite (Hn n r' Hr). exact Hr.
    + intros Hr. exists (NodeID r, r). split; [done|]. by apply elem_of_map_to_list.
  - rewrite merge_sort_Permutation, <-list_fmap_compose.
    rewrite (list_fmap_ext _ fst); [apply NoDup_fst_map_to_list|].
    intros i [n r] Hi%list_elem_of_lookup_2%elem_of_map_to_list. by apply (Hn n).
  - intros [u h]. rewrite (elem_of_Permutation_proper _ _ _ (merge_sort_Permutation _ _)), list_elem_of_fmap. simpl. split.
    + by intros ([u' h'] & [= -> ->] & Hr%elem_of_map_to_list).
    + intros Hr. exists (u, h). split; [done|]. by apply elem_of_map_to_list.
  - rewrite merge_sort_Permutation, <-list_fmap_compose. apply NoDup_fst_map_to_list.
  - intros sh. rewrite (elem_of_Permutation_proper _ _ _ (merge_sort_Permutation _ _)), list_elem_of_fmap. split.
    + intros ([k sh'] & -> & Hk%elem_of_map_to_list). simpl. rewrite (Hs k sh' Hk). exact Hk.
    + intros Hk. exists (key_of sh, sh). split; [done|]. by apply elem_of_map_to_list.
  - rewrite merge_sort_Permutation, <-list_fmap_compose.
    rewrite (list_fmap_ext _ fst); [apply NoDup_fst_map_to_list|].
    intros i [k sh] Hi%list_elem_of_lookup_2%elem_of_map_to_list. by apply (Hs k).
Qed.

Lemma view_ctx f w : view (mkMemWorld f (ctx_errs w)) = mkMetaState (fileServers f) (users f) (shares f).
Proof. done. Qed.

(** A filter by a set of names is the filter by the list; an empty list removes nothing. *)
Lemma implements_names (us : list string) (f : Store → Store) (P : list string → shareKey * ShareRecord → Prop)
    `{∀ l x, Decision (P l x)} :
  (∀ s, f s = set_shares (filter (P us)) s) →
  (us = [] → ∀ x, P us x) →
  implements view (ctx_Err ;; match us with [] => mret tt | _ => update f end)
    always (λ _, with_shares (filter (P us))).
Proof.
  intros Hf Hnil w Hok. apply ctx_wp.
  2:{ intros e w1 _ H1. unfold view. by rewrite H1. }
  intros w1 H1. assert (view w = view w1) as -> by (unfold view; by rewrite H1). destruct us as [|u us].
  - apply wp_ret. split; [done|]. unfold view, with_shares. simpl. f_equal.
    symmetry. apply map_filter_id. intros. by apply Hnil.
  - apply wp_modify. split; [done|]. by rewrite Hf.
Qed.

Lemma upsert_implements rec :
  implements view (UpsertFileServer rec)
    (λ s n, ∃ fresh, n = NumericID (upserted rec fresh (ns_nodes s)))
    (λ n, with_nodes (λ m, <[NodeID rec := upserted rec n m]> m)).
Proof.
  intros w Hok. apply ctx_wp.
  2:{ intros e w1 _ H1. unfold view. by rewrite H1. }
  intros w1 H1. assert (view w = view w1) as -> by (unfold view; by rewrite H1).
  wp_step. wp_step. destruct (fileServers (st w1) !! NodeID rec) as [old|] eqn:Hold; cbv zeta.
  - wp_step. apply wp_modify, wp_ret. split.
    + exists 0. unfold upserted. simpl. by rewrite Hold.
    + unfold view, with_nodes, upserted. simpl. by rewrite Hold.
  - wp_step. apply wp_modify. wp_step. apply wp_modify, wp_ret. split.
    + exists (nextNumericID (st w1)). unfold upserted. simpl. by rewrite Hold.
    + unfold view, with_nodes, upserted. simpl. by rewrite Hold.
Qed.

Lemma rename_implements old new :
  implements view (RenameFileServer old new) (λ s _, old = new ∨ known old s ())
    (λ _, rename old new).
Proof.
  intros w Hok. apply ctx_wp.
  2:{ intros e w1 _ H1. unfold view. by rewrite H1. }
  intros w1 H1. assert (view w = view w1) as -> by (unfold view; by rewrite H1).
  unfold rename. destruct (String.eqb_spec old new) as [->|Hne].
  { apply wp_ret. rewrite decide_True by done. auto. }
  rewrite decide_False by done. wp_step. wp_step. apply wp_bind, wp_of_option; [|done].
  intros rec Hrec. wp_step. apply wp_modify. wp_step. apply wp_modify. wp_step. wp_step. simpl.
  destruct (delete old (fileServers (st w1)) !! new) as [r'|] eqn:Hnew.
  - apply wp_ret. split; [right; by eexists|]. unfold view, with_nodes, rekey. simpl.
    by rewrite Hrec, Hnew.
  - apply wp_modify. split; [right; by eexists|]. unfold view, with_nodes, rekey. simpl.
    by rewrite Hrec, Hnew.
Qed.


Lemma rename_absent old new s s' e :
  RenameFileServer old new s = (s', Err e) → errors_Is e ErrNotFound = true →
  ns_nodes (view s) !! old = None.
Proof.
  intros Hr He.
  assert (wp (RenameFileServer old new) (λ _ _, True)
    (λ e _, errors_Is e ErrNotFound = false ∨ ns_nodes (view s) !! old = None) s) as Hwp.
  { apply ctx_wp; [|intros; by left]. intros w1 H1.
    destruct (String.eqb old new); [by apply wp_ret|].
    wp_step. wp_step. rewrite H1. apply wp_bind, wp_of_option; [|intros ?; by right].
    intros rec Hrec. repeat (wp_step || apply wp_modify); done. }
  eapply wp_err in Hwp; [|exact Hr]. destruct Hwp as [Hf|Hn]; [congruence|exact Hn].
Qed.

Lemma involving_implements us :
  implements view (RemoveSharesInvolving us) always (λ _, with_shares (remove_involving us)).
Proof.
  unfold remove_involving, RemoveSharesInvolving.
  pose proof (implements_names us (set_shares (filter (λ kv : shareKey * ShareRecord,
    ¬ (kv.1.1.1 ∈ list_to_set (C := gset string) us ∨ kv.1.1.2 ∈ list_to_set (C := gset string) us))))
    (λ us kv, ¬ (kv.1.1.1 ∈ us ∨ kv.1.1.2 ∈ us))) as Hi. apply Hi; [|set_solver].
  intros s. unfold set_shares. f_equal. apply map_filter_ext. intros k sh _. set_solver.
Qed.

Lemma by_owner_implements os :
  implements view (RemoveSharesByOwner os) always (λ _, with_shares (remove_by_owner os)).
Proof.
  unfold remove_by_owner, RemoveSharesByOwner.
  pose proof (implements_names os (set_shares (filter (λ kv : shareKey * ShareRecord,
    kv.1.1.2 ∉ list_to_set (C := gset string) os))) (λ os kv, kv.1.1.2 ∉ os)) as Hi.
  apply Hi; [|set_solver].
  intros s. unfold set_shares. f_equal. apply map_filter_ext. intros k sh _. set_solver.
Qed.

#[export] Instance memory_laws : MetaStoreLaws view.
Proof.
  split.
  - intros s Hok. apply (snapshot_lists s Hok).
  - apply upsert_implements.
  - intros node. by apply implements_update.
  - apply rename_implements.
  - apply rename_absent.
  - intros node at' status. apply (implements_node node (λ r, _)).
  - intros node status. apply implements_node.
  - intros user node. by apply implements_update.
  - intros us. apply implements_each. intros w. by rewrite each_users.
  - intros us. apply implements_each. intros w. by rewrite each_users.
  - intros sh. by apply implements_update.
  - intros shs. apply implements_each. intros w. by rewrite each_shares.
  - intros g o p. by apply implements_update.
  - apply involving_implements.
  - apply by_owner_implements.
Qed.

(** ** Numeric ids *)

(** The nodes have different ids, all below the counter. *)
Definition ids_ok (s : Store) : Prop :=
  0 ≤ nextNumericID s < two64
  ∧ (∀ n r, fileServers s !! n = Some r → 0 ≤ NumericID r < nextNumericID s)
  ∧ (∀ n n' r r', fileServers s !! n = Some r → fileServers s !! n' = Some r' →
       NumericID r = NumericID r' → n = n').

(** A sequence of writes; a failed one leaves what it leaves.  The second component
    holds the ids given to nodes that had none. *)
Definition step (wr : write) (w : mem_world) : mem_world * list Z :=
  let w' := (exec wr w).1 in
  match wr with
  | WUpsert rec =>
      match fileServers (st w) !! NodeID rec, fileServers (st w') !! NodeID rec with
      | None, Some r => (w', [NumericID r])
      | _, _ => (w', [])
      end
  | _ => (w', [])
  end.

Fixpoint steps (ws : list write) (w : mem_world) : mem_world * list Z :=
  match ws with
  | [] => (w, [])
  | wr :: ws => let '(w1, new) := step wr w in
      let '(w2, news) := steps ws w1 in (w2, new ++ news)
  end.

(** What every write but the allocation of a node keeps. *)
Definition counted (N : Z) (w : mem_world) : Prop :=
  ids_ok (st w) ∧ nextNumericID (st w) = N.

Lemma counted_ctx N : preserves (counted N) ctx_Err.
Proof. by intros w Hw. Qed.
Lemma counted_users N f : preserves (counted N) (update (set_users f)).
Proof. by intros w Hw. Qed.
Lemma counted_shares N f : preserves (counted N) (update (set_shares f)).
Proof. by intros w Hw. Qed.
Lemma counted_delete N n : preserves (counted N) (update (set_fileServers (delete n))).
Proof.
  intros w [(Hn & Hlt & Hinj) HN]. split; [|done]. split_and!; [apply Hn..| |]; simpl.
  - intros n' r [_ Hr]%lookup_delete_Some. by apply (Hlt n').
  - intros n1 n2 r1 r2 [_ H1]%lookup_delete_Some [_ H2]%lookup_delete_Some. by apply (Hinj _ _ r1 r2).
Qed.
#[local] Hint Resolve counted_ctx counted_users counted_shares counted_delete : dvfs.

(** A record is stored under a key that has its id already or that id is unused. *)
Lemma ids_ok_insert s n r :
  ids_ok s → 0 ≤ NumericID r < nextNumericID s →
  (∀ n' r', fileServers s !! n' = Some r' → NumericID r' = NumericID r → n' = n) →
  ids_ok (set_fileServers <[n := r]> s).
Proof.
  intros (Hn & Hlt & Hinj) Hr Hfree. split_and!; [apply Hn..| |]; simpl.
  - intros n' r' [[<- <-]|[_ Hr']]%lookup_insert_Some; [done|by apply (Hlt n')].
  - intros n1 n2 r1 r2 [[<- <-]|[? H1]]%lookup_insert_Some [[<- <-]|[? H2]]%lookup_insert_Some He;
      [done| | |by apply (Hinj _ _ r1 r2)].
    + symmetry. by apply (Hfree n2 r2).
    + by apply (Hfree n1 r1).
Qed.

Lemma counted_node N node (f : FileServerRecord → FileServerRecord) :
  (∀ r, NumericID (f r) = NumericID r) →
  preserves (counted N)
    (ctx_Err ;; s ← gets st;
     rec ← of_option ErrNotFound (fileServers s !! node);
     update (set_fileServers <[node := f rec]>)).
Proof.
  intros Hf. apply preserves_bind; [apply counted_ctx|]. intros _ w [Hw HN]. simpl.
  unfold mbind, M_bind, gets. simpl. destruct (fileServers (st w) !! node) as [rec|] eqn:Hrec; [|done].
  simpl. split; [|done]. pose proof Hw as (_ & Hlt & Hinj).
  apply ids_ok_insert; [done|rewrite Hf; by apply (Hlt node)|].
  intros n' r' Hr'. rewrite Hf. intros He. by apply (Hinj _ _ r' rec).
Qed.

Lemma counted_rename N old new : preserves (counted N) (RenameFileServer old new).
Proof.
  unfold RenameFileServer. apply preserves_bind; [apply counted_ctx|]. intros _.
  destruct (String.eqb_spec old new) as [|Hne]; [apply preserves_ret|].
  intros w [Hw HN]. unfold mbind, M_bind, gets. simpl.
  destruct (fileServers (st w) !! old) as [rec|] eqn:Hrec; [|done]. simpl.
  pose proof (counted_delete N old w (conj Hw HN)) as [Hd _].
  destruct (delete old (fileServers (st w)) !! new) eqn:Hnew; simpl; [done|].
  split; [|done]. pose proof Hw as (_ & Hlt & Hinj).
  apply (ids_ok_insert _ new (set_NodeID new rec)); [exact Hd|exact (Hlt old rec Hrec)|].
  intros n' r' Hr' He. simpl in Hr'. apply lookup_delete_Some in Hr' as [Hne' Hr'].
  by rewrite (Hinj _ _ _ _ Hr' Hrec He) in Hne'.
Qed.

Lemma counted_exec N wr :
  (∀ rec, wr ≠ WUpsert rec) → preserves (counted N) (exec wr).
Proof.
  intros Hne. destruct wr; simpl; try (by destruct (Hne rec)).
  3: apply (counted_node N node (λ r, _)); intros r; by destruct (String.eqb status "").
  3: by apply counted_node.
  2: apply counted_rename.
  all: try (apply preserves_bind; [apply counted_ctx|]; intros _;
    repeat case_match; subst; eauto with dvfs).
Qed.

(** What [UpsertFileServer] can do: fail, update a known node, or add one. *)
Lemma upsert_cases rec w :
  ∃ w' r, UpsertFileServer rec w = (w', r)
  ∧ ((∃ e, r = Err e) ∧ st w' = st w
     ∨ (∃ old, fileServers (st w) !! NodeID rec = Some old
          ∧ r = Ok (NumericID old)
          ∧ st w' = set_fileServers <[NodeID rec := set_NumericID (NumericID old) rec]> (st w))
     ∨ fileServers (st w) !! NodeID rec = None
       ∧ r = Ok (nextNumericID (st w))
       ∧ st w' = set_fileServers <[NodeID rec := set_NumericID (nextNumericID (st w)) rec]>
           (set_nextNumericID (u64 (nextNumericID (st w) + 1)) (st w))).
Proof.
  destruct (fileServers (st w) !! NodeID rec) as [old|] eqn:Hold;
    destruct (head (ctx_errs w)) as [[]|] eqn:Hctx;
    unfold UpsertFileServer, ctx_Err, mbind, M_bind; rewrite Hctx; simpl; rewrite ?Hold;
    do 2 eexists; (split; [reflexivity|]);
    first [left; split; [by eexists|done] | right; left; by exists old | right; right; done].
Qed.

(** One write: its new id, if any, is the counter, which moves on. *)
Lemma step_ids wr w :
  ids_ok (st w) → nextNumericID (st w) + 1 < two64 →
  let '(w', new) := step wr w in
  ids_ok (st w')
  ∧ (new = [] ∧ nextNumericID (st w') = nextNumericID (st w)
     ∨ new = [nextNumericID (st w)] ∧ nextNumericID (st w') = nextNumericID (st w) + 1).
Proof.
  intros Hw Hlim. unfold step.
  assert ((∃ rec, wr = WUpsert rec) ∨ ∀ rec, wr ≠ WUpsert rec) as [[rec ->]|Hne] by (destruct wr; naive_solver).
  2:{ pose proof (counted_exec (nextNumericID (st w)) wr Hne w (conj Hw eq_refl)) as [H1 H2].
      destruct wr; naive_solver. }
  pose proof Hw as (Hn & Hlt & Hinj).
  destruct (upsert_cases rec w) as (w' & r & Hr & Hcases).
  assert ((exec (WUpsert rec) w).1 = w') as ->.
  { simpl. unfold mbind, M_bind. rewrite Hr. by destruct r. }
  destruct Hcases as [[_ Hst]|[(old & Hold & _ & Hst)|(Hold & _ & Hst)]].
  - rewrite Hst. destruct (fileServers (st w) !! NodeID rec); rewrite Hst; auto.
  - rewrite Hold, Hst. split; [|by left]. apply ids_ok_insert; [done|exact (Hlt _ _ Hold)|].
    intros n' r' Hr' He. exact (Hinj _ _ _ _ Hr' Hold He).
  - rewrite Hold, Hst. simpl. rewrite lookup_insert_eq, Hst, u64_small by (unfold is_u64; lia).
    split; [|by right]. apply (ids_ok_insert (set_nextNumericID _ (st w))); simpl.
    + split_and!; simpl; [lia..| |done]. intros n r' Hr'. specialize (Hlt n r' Hr'). lia.
    + lia.
    + intros n' r' Hr' He. specialize (Hlt n' r' Hr'). lia.
Qed.

(** C39. In the in-process store, after any sequence of writes, failed ones included,
    no two nodes have the same numeric id, and no id is ever given to two nodes, not
    even after the first was removed or renamed, as long as fewer than 2^64 nodes are
    added. *)
Theorem numeric_ids_never_reused ws w :
  ids_ok (st w) → nextNumericID (st w) + Z.of_nat (length ws) < two64 →
  let '(w', news) := steps ws w in
  ids_ok (st w') ∧ NoDup news
  ∧ (∀ id, id ∈ news → nextNumericID (st w) ≤ id < nextNumericID (st w'))
  ∧ nextNumericID (st w) ≤ nextNumericID (st w').
Proof.
  revert w. induction ws as [|wr ws IH]; intros w Hw Hlim; simpl.
  { split_and!; [apply Hw..|apply NoDup_nil; done| |lia]. intros id []%elem_of_nil. }
  simpl in Hlim. pose proof (step_ids wr w Hw ltac:(lia)) as Hs.
  destruct (step wr w) as [w1 new]. destruct Hs as [Hw1 Hnew].
  specialize (IH w1 Hw1 ltac:(destruct Hnew as [[_ ?]|[_ ?]]; lia)).
  destruct (steps ws w1) as [w2 news]. destruct IH as (Hw2 & Hnd & Hrange & Hle).
  destruct Hnew as [[-> Heq]|[-> Heq]]; simpl; rewrite ?Heq in *.
  - split_and!; try done; apply Hw2.
  - split_and!; [apply Hw2..| | |lia].
    + apply NoDup_cons. split; [|done]. intros Hin%Hrange. lia.
    + intros id [->|Hin%Hrange]%elem_of_cons; lia.
Qed.

Definition demo_writes : list write :=
  [WUpsert (mkFileServerRecord "addr:h:1" 7 "h:1" 0 "healthy"); WRename "addr:h:1" "fs1";
   WUpsert (mkFileServerRecord "fs2" 0 "h:2" 0 "healthy"); WAssign "alice" "fs1";
   WRemoveNode "fs1"; WUpsert (mkFileServerRecord "fs1" 0 "h:1" 0 "healthy")].
Definition demo_mem : mem_world := mkMemWorld New [Live; Live; Live; Canceled].

Lemma numeric_ids_never_reused_witness :
  ids_ok (st demo_mem) ∧ (steps demo_writes demo_mem).2 = [0; 1; 2]
  ∧ NoDup (steps demo_writes demo_mem).2.
Proof.
  assert (ids_ok (st demo_mem)) as Hw by (split_and!; [done..| |]; by intros ? ?).
  pose proof (numeric_ids_never_reused demo_writes demo_mem Hw ltac:(vm_compute; reflexivity)) as Ht.
  split; [exact Hw|]. split; [vm_compute; reflexivity|].
  destruct (steps demo_writes demo_mem) as [w' news]. apply Ht.
Defined.

Lemma writes_idempotent_witness :
  state_ok (view demo_mem)
  ∧ wp (exec (WAssignAll [mkUserRecord "a" "fs1"; mkUserRecord "b" "fs1"]))
      (λ _ s2, users (st s2) = {[ "a" := "fs1"; "b" := "fs1" ]}) (λ _ _, True)
      (exec (WAssignAll [mkUserRecord "a" "fs1"; mkUserRecord "b" "fs1"]) demo_mem).1.
Proof.
  assert (state_ok (view demo_mem)) as Hok by (split; by intros ? ?).
  split; [exact Hok|].
  eapply wp_mono; [eapply (writes_idempotent view); [exact Hok|vm_compute; reflexivity]| |done].
  intros ? s2 Hv. exact (f_equal ns_users Hv).
Defined.
