(* ===== verification/Metaserver.v ===== *)
(** * The metaserver (internal/metaserver/metaserver.go, handler.go)

    The routing tables in memory and the gRPC handlers that serve and change them,
    over any [MetaStore].  A response with [Success: false] is an [Err] with the message
    of the response; handlers never return a gRPC error.  The readings of the clock are
    arguments.  Go ranges over a map in an unspecified order: [range] is the order in
    which the ranges over the file servers of a call see them, and every definition
    that depends on it takes it as an argument.  The handlers that change the routing
    hold [writeOrderMu] for the whole call, so a call is one step. *)
From S2P Require Import Prelude GoStd Storage.

Definition FileServerStatusHealthy : string := "healthy".
Definition FileServerStatusStale : string := "stale".

Record FileServerInfo := mkInfo {
  fiNodeID : string; fiAddress : string; fiUserCount : Z;
  fiLastHeartbeatUnix : Z; fiStatus : string }.

Record SharedDirEntry := mkEntry { seOwner : string; sePath : string; seDisplayName : string }.

#[export] Instance FileServerInfo_eq_dec : EqDecision FileServerInfo.
Proof. solve_decision. Defined.
#[export] Instance SharedDirEntry_eq_dec : EqDecision SharedDirEntry.
Proof. solve_decision. Defined.

Record MetaServer := mkMetaServer {
  fileservers : gmap Z FileServerInfo;
  users : gmap string Z;
  shared : gmap string (list SharedDirEntry);
  orphanedUsers : gmap string string;
  allowUserPurge : bool;
  heartbeatTimeout : Z;        (* nanoseconds *)
  heartbeatCheckInterval : Z }.

Definition set_fileservers f m :=
  mkMetaServer (f (fileservers m)) (users m) (shared m) (orphanedUsers m)
    (allowUserPurge m) (heartbeatTimeout m) (heartbeatCheckInterval m).
Definition set_users f m :=
  mkMetaServer (fileservers m) (f (users m)) (shared m) (orphanedUsers m)
    (allowUserPurge m) (heartbeatTimeout m) (heartbeatCheckInterval m).
Definition set_shared f m :=
  mkMetaServer (fileservers m) (users m) (f (shared m)) (orphanedUsers m)
    (allowUserPurge m) (heartbeatTimeout m) (heartbeatCheckInterval m).
Definition set_orphans f m :=
  mkMetaServer (fileservers m) (users m) (shared m) (f (orphanedUsers m))
    (allowUserPurge m) (heartbeatTimeout m) (heartbeatCheckInterval m).

Definition set_fiNodeID v i :=
  mkInfo v (fiAddress i) (fiUserCount i) (fiLastHeartbeatUnix i) (fiStatus i).
Definition set_fiUserCount v i :=
  mkInfo (fiNodeID i) (fiAddress i) v (fiLastHeartbeatUnix i) (fiStatus i).
Definition set_liveness hb status i :=
  mkInfo (fiNodeID i) (fiAddress i) (fiUserCount i) hb status.

(** The metaserver and the store it writes through. *)
Record world (S : Type) := mkWorld { ms : MetaServer; store : S }.
Arguments mkWorld {S} ms store.
Arguments ms {S} w.
Arguments store {S} w.

Definition second : Z := 1000000000.
Definition defaultHeartbeatTimeout : Z := 30 * second.
Definition defaultHeartbeatCheckInterval : Z := 5 * second.

(** ** Shares in memory *)

(** [ms.shared[user]] of a missing user is the empty slice. *)
Definition shared_of (m : MetaServer) (user : string) : list SharedDirEntry :=
  default [] (shared m !! user).

(** [if ms.shared[u] == nil { ms.shared[u] = []SharedDirEntry{} }] *)
Definition ensure_shared (u : string) (sh : gmap string (list SharedDirEntry)) :=
  match sh !! u with None => <[u := []]> sh | Some _ => sh end.

Fixpoint containsShare (entries : list SharedDirEntry) (owner path : string) : bool :=
  match entries with
  | [] => false
  | e :: es => (String.eqb (seOwner e) owner && String.eqb (sePath e) path) || containsShare es owner path
  end.

Definition removeShareEntry (entries : list SharedDirEntry) (owner path : string) :=
  List.filter (λ e, negb (String.eqb (seOwner e) owner && String.eqb (sePath e) path)) entries.

Definition removeSharesByOwnerLocked (rootUser : string) (sh : gmap string (list SharedDirEntry)) :=
  List.filter (λ s, negb (String.eqb (seOwner s) rootUser)) <$> sh.

Definition add_entry (grantee : string) (e : SharedDirEntry) (sh : gmap string (list SharedDirEntry)) :=
  <[grantee := default [] (sh !! grantee) ++ [e]]> sh.

(** ** Start-up *)

Definition hydrate_node (now : Z) (rec : FileServerRecord) : FileServerInfo :=
  mkInfo (NodeID rec) (Address rec) 0
    (if LastHeartbeatUnix rec =? 0 then now else LastHeartbeatUnix rec)
    (if String.eqb (Status rec) "" then FileServerStatusHealthy else Status rec).

Definition hydrate_user (nodeToNumeric : gmap string Z) (u : UserRecord)
    (acc : gmap string Z * gmap string string) : gmap string Z * gmap string string :=
  match nodeToNumeric !! HomeNodeID u with
  | None => (acc.1, <[Username u := HomeNodeID u]> acc.2)
  | Some numericID => (<[Username u := numericID]> acc.1, acc.2)
  end.

Definition count_user (numericID : Z) (fs : gmap Z FileServerInfo) : gmap Z FileServerInfo :=
  alter (λ i, set_fiUserCount (fiUserCount i + 1) i) numericID fs.

(** [hydrate] of a snapshot that was loaded. *)
Definition hydrate_from (now : Z) (snap : MetaSnapshot) (m : MetaServer) : MetaServer :=
  let fs := each (λ rec, <[NumericID rec := hydrate_node now rec]>) (FileServers snap) ∅ in
  let nodeToNumeric := each (λ rec, <[NodeID rec := NumericID rec]>) (FileServers snap) ∅ in
  let '(us, orphans) := each (hydrate_user nodeToNumeric) (Users snap) (∅, ∅) in
  let fs := each count_user (map_to_list us).*2 fs in
  let sh := each (λ s, add_entry (Grantee s) (mkEntry (Owner s) (Path s) (DisplayName s)))
              (Shares snap) ∅ in
  let sh := each ensure_shared (map_to_list us).*1 sh in
  mkMetaServer fs us sh orphans
    (allowUserPurge m) (heartbeatTimeout m) (heartbeatCheckInterval m).

Definition fresh_server : MetaServer :=
  mkMetaServer ∅ ∅ ∅ ∅ false defaultHeartbeatTimeout defaultHeartbeatCheckInterval.

(** ** Reading the tables *)

Section server.
Context {S : Type} `{MetaStore S}.

Definition on_store {A} (m : M S A) : M (world S) A := λ w,
  let '(s', r) := m (store w) in (mkWorld (ms w) s', r).
Definition on_ms (f : MetaServer → MetaServer) : M (world S) unit :=
  modify (λ w, mkWorld (f (ms w)) (store w)).

Definition hydrate (now : Z) : M (world S) unit :=
  snap ← catch (on_store LoadSnapshot);
  match snap with
  | inl err => throw (Wrapf "metaserver: load state: %w" [] err)
  | inr snap => on_ms (hydrate_from now snap)
  end.

(** [NewMetaServer] with a store. *)
Definition NewMetaServer (now : Z) (s : S) : S * res MetaServer :=
  match hydrate now (mkWorld fresh_server s) with
  | (w, Ok _) => (store w, Ok (ms w))
  | (w, Err e) => (store w, Err e)
  | (w, Panic p) => (store w, Panic p)
  end.

Definition SetHeartbeatConfig (timeout checkInterval : Z) : M (world S) unit :=
  on_ms (λ m, mkMetaServer (fileservers m) (users m) (shared m) (orphanedUsers m)
    (allowUserPurge m)
    (if 0 <? timeout then timeout else heartbeatTimeout m)
    (if 0 <? checkInterval then checkInterval else heartbeatCheckInterval m)).

Definition SetAllowUserPurge (allow : bool) : M (world S) unit :=
  on_ms (λ m, mkMetaServer (fileservers m) (users m) (shared m) (orphanedUsers m)
    allow (heartbeatTimeout m) (heartbeatCheckInterval m)).

(** The order in which the ranges of one call see the file servers. *)
Variable range : gmap Z FileServerInfo → list (Z * FileServerInfo).

Definition findFileServerByNodeIDLocked (m : MetaServer) (nodeID : string) : option Z :=
  if String.eqb nodeID "" then None else
  fst <$> List.find (λ kv, String.eqb (fiNodeID kv.2) nodeID) (range (fileservers m)).

Definition findFileServerByAddressLocked (m : MetaServer) (address : string) : option Z :=
  if String.eqb address "" then None else
  fst <$> List.find (λ kv, String.eqb (fiAddress kv.2) address) (range (fileservers m)).

Definition countUsersForFileServerLocked (m : MetaServer) (fsID : Z) : Z :=
  Z.of_nat (length (List.filter (λ kv, kv.2 =? fsID) (map_to_list (users m)))).

Definition isHealthyLocked (m : MetaServer) (i : FileServerInfo) (nowUnix : Z) : bool :=
  if negb (String.eqb (fiStatus i) FileServerStatusHealthy) then false else
  if fiLastHeartbeatUnix i =? 0 then false else
  if heartbeatTimeout m <=? 0 then true else
  nowUnix - fiLastHeartbeatUnix i <=? Z.quot (heartbeatTimeout m) second.

(** The node ids that become stale, in the order of the range, and the tables after. *)
Definition markStaleFileServersLocked (m : MetaServer) (nowUnix : Z) : list string * MetaServer :=
  let late i := negb (isHealthyLocked m i nowUnix)
                && negb (String.eqb (fiStatus i) FileServerStatusStale) in
  ((λ kv, fiNodeID kv.2) <$> List.filter (λ kv, late kv.2) (range (fileservers m)),
   set_fileservers (fmap (λ i,
     if late i then set_liveness (fiLastHeartbeatUnix i) FileServerStatusStale i else i)) m).

(** One tick of the heartbeat monitor. *)
Definition monitor_tick (now : Z) : M (world S) unit :=
  m ← gets ms;
  let '(transitioned, m') := markStaleFileServersLocked m now in
  on_ms (λ _, m') ;;
  for_each transitioned (λ nodeID,
    ignore (on_store (SetFileServerStatus nodeID FileServerStatusStale))).

(** The range keeps the first node with strictly fewer users than those before. *)
Definition least_step (m : MetaServer) (nowUnix : Z) (acc : option (Z * Z))
    (kv : Z * FileServerInfo) : option (Z * Z) :=
  if negb (isHealthyLocked m kv.2 nowUnix) then acc else
  match acc with
  | Some (_, minUsers) => if fiUserCount kv.2 <? minUsers then Some (kv.1, fiUserCount kv.2) else acc
  | None => Some (kv.1, fiUserCount kv.2)
  end.
Definition getLeastLoadedHealthyFileServerLocked (m : MetaServer) (nowUnix : Z) : option Z :=
  fst <$> foldl (least_step m nowUnix) None (range (fileservers m)).

Definition resolveNodeID (fsID address : string) : string :=
  if negb (String.eqb fsID "") then fsID else LegacyNodeIDPrefix +:+ address.

Definition adoptableLegacyNodeLocked (m : MetaServer) (address : string) : option (Z * string) :=
  legacyID ← findFileServerByAddressLocked m address;
  info ← fileservers m !! legacyID;
  if HasPrefix (fiNodeID info) LegacyNodeIDPrefix then Some (legacyID, fiNodeID info) else None.

(** ** Registration *)

Record SharedDirectory := mkSharedDirectory {
  sdOwner : string; sdPath : string; sdName : string; sdUsers : list string }.
Record RegisterRequest := mkRegisterRequest {
  rqFsId : string; rqAddress : string; rqUsers : list string; rqShared : list SharedDirectory }.

Definition user_taken (username addr : string) : error :=
  Errorf "User %s already exists in file server: %s" [username; addr].
Definition user_orphaned (username home : string) : error :=
  Errorf "User %s is assigned to file server %s, which is currently unregistered; deregister that node before another claims the user" [username; home].

(** Why one user may not be claimed by this node, if it may not.  [fsID] is the numeric
    id of the node when it exists. *)
Definition user_conflict (m : MetaServer) (nodeID : string) (fsID : option Z)
    (username : string) : option error :=
  match users m !! username with
  | Some mappedID =>
      if bool_decide (fsID = Some mappedID) then
        home ← orphanedUsers m !! username;
        if String.eqb home nodeID then None else Some (user_orphaned username home)
      else Some (user_taken username
                   (from_option fiAddress "unknown" (fileservers m !! mappedID)))
  | None =>
      home ← orphanedUsers m !! username;
      if String.eqb home nodeID then None else Some (user_orphaned username home)
  end.

Fixpoint registrationConflictLocked (m : MetaServer) (nodeID : string) (fsID : option Z)
    (us : list string) : option error :=
  match us with
  | [] => None
  | username :: us' =>
      match user_conflict m nodeID fsID username with
      | Some msg => Some msg
      | None => registrationConflictLocked m nodeID fsID us'
      end
  end.

Definition persist_failed : error := Errorf "failed to persist metaserver state" [].

(** A store call whose failure becomes [e]. *)
Definition store_or {A} (e : error) (m : M S A) : M (world S) A :=
  r ← catch (on_store m);
  match r with inl _ => throw e | inr a => mret a end.

Definition removeProvisionalNode (nodeID : string) : M (world S) unit :=
  ignore (on_store (RemoveFileServer nodeID)).

(** The node's own record. *)
Definition claim_node (nodeID address : string) (fsID heartbeat : Z) (m : MetaServer) : MetaServer :=
  set_fileservers (λ fs, <[fsID := mkInfo nodeID address
    (from_option fiUserCount 0 (fs !! fsID)) heartbeat FileServerStatusHealthy]> fs) m.

(** Users the node hosted and no longer reports. *)
Definition missing_users (fsID : Z) (incoming : list string) (m : MetaServer) : list string :=
  (List.filter (λ kv, (kv.2 =? fsID) && negb (contains kv.1 incoming)) (map_to_list (users m))).*1.

(** The user and everything shared by or with it is forgotten. *)
Definition purge_user (username : string) (m : MetaServer) : MetaServer :=
  set_shared (λ sh, removeSharesByOwnerLocked username (delete username sh))
    (set_users (delete username) m).

Definition claim_orphan (nodeID : string) (fsID : Z) (kv : string * string) (m : MetaServer) :=
  if String.eqb kv.2 nodeID then
    set_shared (ensure_shared kv.1)
      (set_users <[kv.1 := fsID]> (set_orphans (delete kv.1) m))
  else m.

Definition assign_incoming (fsID : Z) (username : string) (m : MetaServer) : MetaServer :=
  set_shared (λ sh, removeSharesByOwnerLocked username (ensure_shared username sh))
    (set_users <[username := fsID]> m).

(** The grants of a request, for the owners on this node. *)
Definition grants_of (incoming : list string) (dirs : list SharedDirectory) : list ShareRecord :=
  flat_map (λ d, if contains (sdOwner d) incoming then
      (λ u, mkShareRecord u (sdOwner d) (NormalizeSharePath (sdPath d)) (sdName d))
        <$> List.filter (λ u, negb (String.eqb u (sdOwner d))) (sdUsers d)
    else []) dirs.

Definition publish_grant (g : ShareRecord) (sh : gmap string (list SharedDirEntry)) :=
  let sh := ensure_shared (Grantee g) sh in
  if containsShare (default [] (sh !! Grantee g)) (Owner g) (Path g) then sh
  else add_entry (Grantee g) (mkEntry (Owner g) (Path g) (DisplayName g)) sh.

(** The commit in memory, under the lock. *)
Definition register_commit (nodeID : string) (fsID heartbeat : Z) (req : RegisterRequest)
    (missing incoming : list string) (m : MetaServer) : MetaServer :=
  let m := claim_node nodeID (rqAddress req) fsID heartbeat m in
  let m := each purge_user missing m in
  let m := each (claim_orphan nodeID fsID) (map_to_list (orphanedUsers m)) m in
  let m := each (assign_incoming fsID) incoming m in
  let m := set_shared (each publish_grant (grants_of incoming (rqShared req))) m in
  set_fileservers (alter (set_fiUserCount (countUsersForFileServerLocked m fsID)) fsID) m.

(** The deferred writes, in the order in which they reach the store. *)
Definition node_write (adoptFrom : option string) (nodeID address : string) (heartbeat : Z) : M S unit :=
  match adoptFrom with
  | Some old =>
      r ← catch (RenameFileServer old nodeID);
      match r with
      | inl err => if errors_Is err ErrNotFound then mret tt else throw err
      | inr _ => mret tt
      end
  | None => mret tt
  end ;;
  UpsertFileServer (mkFileServerRecord nodeID 0 address heartbeat FileServerStatusHealthy) ;;
  mret tt.

Definition purge_write (missing : list string) : M S unit :=
  RemoveUsers missing ;; RemoveSharesInvolving missing.

Definition register_writes (adoptFrom : option string) (nodeID : string) (heartbeat : Z)
    (req : RegisterRequest) (missing incoming : list string) : list (M S unit) :=
  [node_write adoptFrom nodeID (rqAddress req) heartbeat]
  ++ (match missing with [] => [] | _ => [purge_write missing] end)
  ++ [AssignUsers ((λ u, mkUserRecord u nodeID) <$> incoming) ;; RemoveSharesByOwner incoming;
      AddShares (grants_of incoming (rqShared req))].

(** From the point where the registration can no longer be refused. *)
Definition register_finish (adoptFrom : option string) (nodeID : string) (fsID heartbeat : Z)
    (req : RegisterRequest) : M (world S) unit :=
  m ← gets ms;
  let incoming := remove_dups (rqUsers req) in
  let missing := missing_users fsID incoming m in
  let missing := if allowUserPurge m then missing else [] in
  on_ms (register_commit nodeID fsID heartbeat req missing incoming) ;;
  store_or persist_failed
    (for_each (register_writes adoptFrom nodeID heartbeat req missing incoming) id).

(** The numeric id of a new node, allocated through the store. *)
Definition register_allocate (nodeID : string) (now : Z) (req : RegisterRequest) : M (world S) Z :=
  fsID ← store_or persist_failed
    (UpsertFileServer (mkFileServerRecord nodeID 0 (rqAddress req) now FileServerStatusHealthy));
  m ← gets ms;
  if bool_decide (is_Some (fileservers m !! fsID)) then
    removeProvisionalNode nodeID ;; throw persist_failed
  else
    on_ms (set_fileservers <[fsID := mkInfo nodeID "" 0 0 ""]>) ;;
    m ← gets ms;
    match registrationConflictLocked m nodeID (Some fsID) (rqUsers req) with
    | Some msg =>
        on_ms (set_fileservers (delete fsID)) ;;
        removeProvisionalNode nodeID ;; throw msg
    | None => mret fsID
    end.

(** The id is held by a node that still reports from another address. *)
Definition holder_alive (m : MetaServer) (fsID now : Z) (address : string) : option string :=
  info ← fileservers m !! fsID;
  if negb (String.eqb (fiAddress info) address) && isHealthyLocked m info now
  then Some (fiAddress info) else None.

Definition id_in_use (nodeID address : string) : error :=
  Errorf "fs_id %q is already registered from %s and still sending heartbeats; every fileserver needs a unique -id (a node that moved to a new address is accepted once the old registration expires)"
    [nodeID; address].

(** The entry a registration is about: the node's own, or the legacy one it adopts. *)
Definition register_target (m : MetaServer) (nodeID : string) (req : RegisterRequest) :
    option Z * option string :=
  match findFileServerByNodeIDLocked m nodeID with
  | Some fsID => (Some fsID, None)
  | None =>
      if String.eqb (rqFsId req) "" then (None, None) else
      match adoptableLegacyNodeLocked m (rqAddress req) with
      | Some (legacyID, legacyNodeID) => (Some legacyID, Some legacyNodeID)
      | None => (None, None)
      end
  end.

Definition RegisterFileServer (now1 now2 now3 : Z) (req : RegisterRequest) : M (world S) unit :=
  if String.eqb (rqAddress req) "" then throw (Errorf "empty file server address" []) else
  let nodeID := resolveNodeID (rqFsId req) (rqAddress req) in
  m ← gets ms;
  let '(found, adoptFrom) := register_target m nodeID req in
  match (if bool_decide (adoptFrom = None) then
           fsID ← found; holder_alive m fsID now1 (rqAddress req) else None) with
  | Some addr => throw (id_in_use nodeID addr)
  | None =>
      match registrationConflictLocked m nodeID found (rqUsers req) with
      | Some msg => throw msg
      | None =>
          fsID ← match found with
                 | Some fsID =>
                     when (bool_decide (is_Some adoptFrom))
                       (on_ms (set_fileservers (alter (set_fiNodeID nodeID) fsID))) ;;
                     mret fsID
                 | None => register_allocate nodeID now2 req
                 end;
          register_finish adoptFrom nodeID fsID now3 req
      end
  end.

(** ** Heartbeats and routing *)

Definition reregister (nodeID registered address : string) : error :=
  Errorf "fs_id %q is registered from %s, not %s; re-register (another fileserver may be running with the same -id)"
    [nodeID; registered; address].

Definition Heartbeat (now : Z) (fsId address : string) : M (world S) unit :=
  if String.eqb address "" then throw (Errorf "empty file server address" []) else
  let nodeID := resolveNodeID fsId address in
  m ← gets ms;
  fsID ← of_option (Errorf "unknown file server" []) (findFileServerByNodeIDLocked m nodeID);
  fsInfo ← of_option (Errorf "file server entry missing" []) (fileservers m !! fsID);
  if negb (String.eqb (fiAddress fsInfo) address) then
    throw (reregister nodeID (fiAddress fsInfo) address)
  else
    on_ms (set_fileservers (alter (set_liveness now FileServerStatusHealthy) fsID)) ;;
    ignore (on_store (RecordHeartbeat (fiNodeID fsInfo) now FileServerStatusHealthy)).

(** [Navigate] answers with the address of the node that hosts [rootUser]. *)
Definition Navigate (now : Z) (user rootUser : string) : M (world S) string :=
  if String.eqb user "" || String.eqb rootUser "" then
    throw (Errorf "username and root_user are required" []) else
  m ← gets ms;
  of_option (Errorf "username '%s' does not exist" [user]) (users m !! user) ;;
  fs ← of_option (Errorf "root user '%s' does not exist" [rootUser]) (users m !! rootUser);
  rootFS ← of_option (Errorf "root user '%s' is currently unavailable" [rootUser])
    (fileservers m !! fs);
  if negb (isHealthyLocked m rootFS now) then
    throw (Errorf "root user '%s' is currently unavailable" [rootUser])
  else if String.eqb user rootUser
          || existsb (λ s, String.eqb (seOwner s) rootUser) (shared_of m user)
  then mret (fiAddress rootFS)
  else throw (Errorf "user '%s' does not have access to root '%s'" [user; rootUser]).

(** ** Roots *)

Definition buildRootsLocked (m : MetaServer) (user : string) : list SharedDirEntry :=
  mkEntry user user "mydrive" :: shared_of m user.

(** A first login: the user is placed in memory, then in the store. *)
Definition place_user (user : string) (minFS : Z) : M (world S) (list SharedDirEntry) :=
  m ← gets ms;
  info ← match fileservers m !! minFS with
         | Some info => mret info
         | None => panic "nil pointer dereference"
         end;
  on_ms (λ m, set_shared <[user := []]>
    (set_fileservers (alter (λ i, set_fiUserCount (fiUserCount i + 1) i) minFS)
      (set_users <[user := minFS]> m))) ;;
  m ← gets ms;
  let roots := buildRootsLocked m user in
  r ← catch (on_store (AssignUser user (fiNodeID info)));
  match r with
  | inr _ => mret roots
  | inl _ =>
      on_ms (λ m, set_fileservers (alter (λ i,
               if 0 <? fiUserCount i then set_fiUserCount (fiUserCount i - 1) i else i) minFS)
        (set_shared (delete user) (set_users (delete user) m))) ;;
      throw persist_failed
  end.

Definition GetRoots (now : Z) (user : string) : M (world S) (list SharedDirEntry) :=
  if String.eqb user "" then throw (Errorf "username is required" []) else
  m ← gets ms;
  match users m !! user with
  | Some _ => mret (buildRootsLocked m user)
  | None =>
      match orphanedUsers m !! user with
      | Some homeNode =>
          throw (Errorf "your home file server (%s) is currently unavailable; please try again once it is back online" [homeNode])
      | None =>
          minFS ← of_option (Errorf "no healthy file server registered" [])
            (getLeastLoadedHealthyFileServerLocked m now);
          place_user user minFS
      end
  end.

(** ** Shares *)

Definition RootShare (owner rootPath name shareWith : string) : M (world S) unit :=
  let path := NormalizeSharePath rootPath in
  m ← gets ms;
  of_option (Errorf "root user '%s' does not exist" [owner]) (users m !! owner) ;;
  of_option (Errorf "target user '%s' does not exist" [shareWith]) (users m !! shareWith) ;;
  if containsShare (shared_of m shareWith) owner path then mret tt else
  on_ms (set_shared (add_entry shareWith (mkEntry owner path name))) ;;
  r ← catch (on_store (AddShare (mkShareRecord shareWith owner path name)));
  match r with
  | inr _ => mret tt
  | inl _ =>
      on_ms (λ m, set_shared <[shareWith := removeShareEntry (shared_of m shareWith) owner path]> m) ;;
      throw persist_failed
  end.

Definition RootUnshare (owner rootPath unshareWith : string) : M (world S) unit :=
  let path := NormalizeSharePath rootPath in
  m ← gets ms;
  of_option (Errorf "root user '%s' does not exist" [owner]) (users m !! owner) ;;
  of_option (Errorf "target user '%s' does not exist" [unshareWith]) (users m !! unshareWith) ;;
  on_ms (λ m, set_shared <[unshareWith := removeShareEntry (shared_of m unshareWith) owner path]> m) ;;
  store_or persist_failed (RemoveShare unshareWith owner path).

(** ** Deregistration *)

(** The node a request names, by identity when it gives one. *)
Definition deregister_target (m : MetaServer) (fsId address : string) : string * option Z :=
  if negb (String.eqb fsId "") then (fsId, findFileServerByNodeIDLocked m fsId)
  else match findFileServerByAddressLocked m address with
       | Some fsID => (from_option fiNodeID fsId (fileservers m !! fsID), Some fsID)
       | None => (fsId, None)
       end.

(** Everyone routed to this node, plus anyone orphaned on it. *)
Definition released_users (m : MetaServer) (nodeID : string) (fsID : option Z) : list string :=
  match fsID with
  | Some fsID => (List.filter (λ kv, kv.2 =? fsID) (map_to_list (users m))).*1
  | None => []
  end
  ++ (if String.eqb nodeID "" then []
      else (List.filter (λ kv, String.eqb kv.2 nodeID) (map_to_list (orphanedUsers m))).*1).

Definition release_user (u : string) (m : MetaServer) : MetaServer :=
  set_shared (λ sh, removeSharesByOwnerLocked u (delete u sh))
    (set_orphans (delete u) (set_users (delete u) m)).

(** The undo of a release: the entries the released users had, put back. *)
Definition restore_users (prev : MetaServer) (removed : list string) (m : MetaServer) : MetaServer :=
  each (λ u, set_users (λ us, from_option (λ id, <[u := id]> us) us (users prev !! u))) removed
    (each (λ u, set_orphans (λ os, from_option (λ home, <[u := home]> os) os (orphanedUsers prev !! u)))
       removed m).

Definition deregister_writes (nodeID : string) (exists' : bool) (removed : list string) : M S unit :=
  match removed with
  | [] => mret tt
  | _ => RemoveUsers removed ;; RemoveSharesInvolving removed
  end ;;
  if exists' then RemoveFileServer nodeID else mret tt.

Definition DeregisterFileServer (fsId address : string) : M (world S) unit :=
  if String.eqb fsId "" && String.eqb address "" then
    throw (Errorf "fs_id or address is required" []) else
  m ← gets ms;
  let '(nodeID, found) := deregister_target m fsId address in
  let removed := released_users m nodeID found in
  if bool_decide (found = None) && bool_decide (removed = []) then mret tt else
  on_ms (each release_user removed) ;;
  match found with
  | Some fsID => on_ms (set_fileservers (delete fsID))
  | None => mret tt
  end ;;
  r ← catch (on_store (deregister_writes nodeID (bool_decide (is_Some found)) removed));
  match r with
  | inr _ => mret tt
  | inl err =>
      match (fsID ← found; info ← fileservers m !! fsID; Some (fsID, info)) with
      | Some (fsID, info) => on_ms (set_fileservers <[fsID := info]>)
      | None => mret tt
      end ;;
      on_ms (restore_users m removed) ;;
      on_ms (set_shared (λ _, shared m)) ;;
      throw (Wrapf "failed to persist metaserver state: " [] err)
  end.
End server.
