(* ===== verification/MetaSpec.v ===== *)
(** * What the metaserver keeps true

    [mem_ok]: the tables in memory are consistent among themselves.  [agree]: they say
    what the store says, so a metaserver started on the store routes in the same way
    (MetaRestart.v).  The theorems are proved against the laws of the store, for every
    order of the ranges over the file servers; Memory.v provides the store of the
    witnesses. *)
From S2P Require Import Prelude GoStd Storage Metaserver.

(** ** The invariant *)

Definition entry_key (e : SharedDirEntry) : string * string := (seOwner e, sePath e).

(** The home of a user: the node that serves it, or the one it is orphaned on. *)
Definition home (m : MetaServer) (u : string) : option string :=
  match users m !! u with
  | Some id => fiNodeID <$> fileservers m !! id
  | None => orphanedUsers m !! u
  end.

Definition visible (m : MetaServer) (g o p : string) : Prop := (o, p) ∈ entry_key <$> shared_of m g.

Record mem_ok (m : MetaServer) : Prop := {
  mo_ids id i : fileservers m !! id = Some i → fiNodeID i ≠ "";
  mo_nodes id id' i i' : fileservers m !! id = Some i → fileservers m !! id' = Some i' →
    fiNodeID i = fiNodeID i' → id = id';
  mo_users u id : users m !! u = Some id → is_Some (fileservers m !! id);
  mo_orphans u h : orphanedUsers m !! u = Some h → users m !! u = None;
  mo_homes u h : orphanedUsers m !! u = Some h →
    h ≠ "" ∧ ∀ id i, fileservers m !! id = Some i → fiNodeID i ≠ h;
  mo_count id i : fileservers m !! id = Some i → fiUserCount i = countUsersForFileServerLocked m id;
  mo_dup g : NoDup (entry_key <$> shared_of m g) }.

Record coherent (m : MetaServer) (st : meta_state) : Prop := {
  co_memory n r : ns_nodes st !! n = Some r →
    ∃ i, fileservers m !! NumericID r = Some i ∧ fiNodeID i = n ∧ fiAddress i = Address r;
  co_store id i : fileservers m !! id = Some i →
    ∃ r, ns_nodes st !! fiNodeID i = Some r ∧ NumericID r = id;
  co_users u : ns_users st !! u = home m u;
  co_shares g o p : is_Some (ns_shares st !! (g, o, p)) ↔ visible m g o p }.

(** ** Lists of shares *)

Lemma containsShare_spec es o p : containsShare es o p = true ↔ (o, p) ∈ entry_key <$> es.
Proof.
  induction es as [|e es IH]; [set_solver|]. simpl.
  rewrite orb_true_iff, andb_true_iff, !String.eqb_eq, IH, elem_of_cons. unfold entry_key at 2.
  split; [intros [[-> ->]|?]; auto|intros [[= -> ->]|?]; auto].
Qed.

Lemma filter_keys (f : SharedDirEntry → bool) (P : string * string → Prop) es k :
  (∀ e, f e = true ↔ P (entry_key e)) →
  k ∈ entry_key <$> List.filter f es ↔ k ∈ entry_key <$> es ∧ P k.
Proof.
  intros Hf. induction es as [|e es IH]; [set_solver|]. simpl. destruct (f e) eqn:He.
  - apply Hf in He. rewrite ?fmap_cons, !elem_of_cons, IH. naive_solver.
  - rewrite ?fmap_cons, elem_of_cons, IH. split; [naive_solver|].
    intros [[->|?] HP]; [|auto]. apply Hf in HP. congruence.
Qed.

Lemma filter_NoDup (f : SharedDirEntry → bool) es :
  NoDup (entry_key <$> es) → NoDup (entry_key <$> List.filter f es).
Proof.
  induction es as [|e es IH]; [done|]. rewrite ?fmap_cons, NoDup_cons. intros [He Hes].
  simpl. destruct (f e); [|auto]. rewrite ?fmap_cons, NoDup_cons. split; [|auto].
  intros Hin. apply He. apply list_elem_of_fmap in Hin as (e' & -> & Hin).
  apply list_elem_of_fmap. exists e'. split; [done|].
  apply list_elem_of_In, filter_In in Hin as [Hin _]. by apply list_elem_of_In.
Qed.

Lemma removeShareEntry_keys es o p k :
  k ∈ entry_key <$> removeShareEntry es o p ↔ k ∈ entry_key <$> es ∧ k ≠ (o, p).
Proof.
  apply (filter_keys _ (λ k, k ≠ (o, p))). intros e.
  rewrite negb_true_iff, andb_false_iff, !String.eqb_neq. unfold entry_key.
  destruct (decide (seOwner e = o)), (decide (sePath e = p)); naive_solver.
Qed.

Lemma shared_insert m f g es :
  shared_of (set_shared <[g := es]> m) f = if decide (g = f) then es else shared_of m f.
Proof.
  unfold shared_of. simpl. case_decide as Hg; [by rewrite Hg, lookup_insert_eq|].
  by rewrite lookup_insert_ne.
Qed.

Definition lookup_shared (sh : gmap string (list SharedDirEntry)) (g : string) :=
  default [] (sh !! g).

Lemma lookup_ensure u sh g : lookup_shared (ensure_shared u sh) g = lookup_shared sh g.
Proof.
  unfold lookup_shared, ensure_shared. destruct (sh !! u) eqn:Hu; [done|].
  destruct (decide (u = g)) as [<-|]; [by rewrite lookup_insert_eq, Hu|by rewrite lookup_insert_ne].
Qed.
Lemma lookup_by_owner u sh g :
  lookup_shared (removeSharesByOwnerLocked u sh) g
  = List.filter (λ s, negb (String.eqb (seOwner s) u)) (lookup_shared sh g).
Proof. unfold lookup_shared, removeSharesByOwnerLocked. rewrite lookup_fmap. by destruct (sh !! g). Qed.
Lemma lookup_shared_delete u sh g :
  lookup_shared (delete u sh) g = if decide (u = g) then [] else lookup_shared sh g.
Proof.
  unfold lookup_shared. case_decide as Hg; [by rewrite Hg, lookup_delete_eq|].
  by rewrite lookup_delete_ne.
Qed.
Lemma lookup_add g e sh f :
  lookup_shared (add_entry g e sh) f
  = if decide (g = f) then lookup_shared sh f ++ [e] else lookup_shared sh f.
Proof.
  unfold lookup_shared, add_entry. case_decide as Hg; [by rewrite Hg, lookup_insert_eq|].
  by rewrite lookup_insert_ne.
Qed.
Lemma by_owner_keys u es k :
  k ∈ entry_key <$> List.filter (λ s, negb (String.eqb (seOwner s) u)) es
  ↔ k ∈ entry_key <$> es ∧ k.1 ≠ u.
Proof.
  apply (filter_keys _ (λ k, k.1 ≠ u)). intros e. by rewrite negb_true_iff, String.eqb_neq.
Qed.

(** ** Counting users *)

Lemma count_elem m id u :
  u ∈ (List.filter (λ kv : string * Z, kv.2 =? id) (map_to_list (users m))).*1
  ↔ users m !! u = Some id.
Proof.
  rewrite list_elem_of_fmap. split.
  - intros ([u' id'] & -> & Hin%list_elem_of_In). apply filter_In in Hin as [Hin He].
    apply list_elem_of_In, elem_of_map_to_list in Hin. simpl in *. apply Z.eqb_eq in He as ->. done.
  - intros Hu. exists (u, id). split; [done|]. apply list_elem_of_In, filter_In.
    split; [by apply list_elem_of_In, elem_of_map_to_list|]. apply Z.eqb_refl.
Qed.

Lemma filter_fst_NoDup {V} (f : string * V → bool) (l : list (string * V)) :
  NoDup l.*1 → NoDup (List.filter f l).*1.
Proof.
  induction l as [|[u v] l IH]; [done|]. simpl. rewrite NoDup_cons. intros [Hu Hl].
  destruct (f (u, v)); [|auto]. simpl. rewrite NoDup_cons. split; [|auto].
  intros ([u' v'] & -> & Hin%list_elem_of_In)%list_elem_of_fmap. apply filter_In in Hin as [Hin _].
  apply Hu, list_elem_of_fmap. exists (u', v'). split; [done|]. by apply list_elem_of_In.
Qed.

Lemma count_by (m : MetaServer) id (l : list string) :
  NoDup l → (∀ u, u ∈ l ↔ users m !! u = Some id) →
  countUsersForFileServerLocked m id = Z.of_nat (length l).
Proof.
  intros Hnd Hl. unfold countUsersForFileServerLocked. f_equal.
  rewrite <-(length_fmap fst). apply Permutation_length, NoDup_Permutation; [|done|].
  - apply filter_fst_NoDup, NoDup_fst_map_to_list.
  - intros u. by rewrite count_elem, Hl.
Qed.

(** The users of a node, each once. *)
Definition users_of (m : MetaServer) (id : Z) : list string :=
  (List.filter (λ kv : string * Z, kv.2 =? id) (map_to_list (users m))).*1.
Lemma users_of_NoDup m id : NoDup (users_of m id).
Proof. apply filter_fst_NoDup, NoDup_fst_map_to_list. Qed.

Lemma count_ext (m m' : MetaServer) id :
  (∀ u, users m !! u = Some id ↔ users m' !! u = Some id) →
  countUsersForFileServerLocked m id = countUsersForFileServerLocked m' id.
Proof.
  intros Hu. rewrite (count_by m id (users_of m' id)), (count_by m' id (users_of m' id));
    try apply users_of_NoDup; try done; intros u; rewrite ?Hu; apply count_elem.
Qed.

Lemma count_nonneg m id : 0 ≤ countUsersForFileServerLocked m id.
Proof. unfold countUsersForFileServerLocked. lia. Qed.

Lemma count_add (m m' : MetaServer) id u :
  users m !! u = None → users m' !! u = Some id →
  (∀ u', u' ≠ u → users m' !! u' = users m !! u') →
  ∀ id', countUsersForFileServerLocked m' id'
         = countUsersForFileServerLocked m id' + (if decide (id' = id) then 1 else 0).
Proof.
  intros Hn Hs Ho id'. case_decide as Hid; [subst id'|].
  - rewrite (count_by m' id (u :: users_of m id)).
    + rewrite (count_by m id _ (users_of_NoDup m id) (count_elem m id)).
      simpl. lia.
    + apply NoDup_cons. split; [|apply users_of_NoDup]. unfold users_of. rewrite count_elem. congruence.
    + intros u'. unfold users_of. rewrite elem_of_cons, count_elem. destruct (decide (u' = u)) as [->|Hne]; [naive_solver|].
      rewrite Ho by done. naive_solver.
  - rewrite Z.add_0_r. apply count_ext. intros u'.
    destruct (decide (u' = u)) as [->|Hne]; [naive_solver congruence|]. by rewrite Ho.
Qed.

(** ** Changes that keep the invariant *)

(** What the invariant sees of a node in memory, and of its record. *)
Definition static (i : FileServerInfo) : string * string * Z :=
  (fiNodeID i, fiAddress i, fiUserCount i).
Definition record_static (r : FileServerRecord) : string * Z * string :=
  (NodeID r, NumericID r, Address r).

(** Tables that say the same of nodes, users and shares; the order of the shares of a
    user, their display names and the liveness of nodes may differ. *)
Record same_routing (m m' : MetaServer) : Prop := {
  sr_nodes id : static <$> fileservers m !! id = static <$> fileservers m' !! id;
  sr_users : users m = users m';
  sr_orphans : orphanedUsers m = orphanedUsers m';
  sr_visible g o p : visible m g o p ↔ visible m' g o p }.

#[export] Instance same_routing_equiv : Equivalence same_routing.
Proof.
  split.
  - intros m. by split.
  - intros m m' []. by split.
  - intros m1 m2 m3 [H1 H2 H3 H4] [H5 H6 H7 H8]. split; intros; etrans; eauto.
Qed.

(** The home of a user depends on the routing only. *)
#[export] Instance home_proper : Proper (same_routing ==> eq ==> eq) home.
Proof.
  intros m m' Hm u _ <-. unfold home. rewrite (sr_users _ _ Hm), (sr_orphans _ _ Hm).
  destruct (users m' !! u) as [id|]; [|done].
  pose proof (sr_nodes _ _ Hm id) as Hs. unfold static in Hs.
  destruct (fileservers m !! id), (fileservers m' !! id); simplify_eq/=; congruence.
Qed.
Lemma routing_some m m' id i :
  same_routing m m' → fileservers m' !! id = Some i →
  ∃ i0, fileservers m !! id = Some i0 ∧ static i0 = static i.
Proof.
  intros Hm Hi. pose proof (sr_nodes _ _ Hm id) as Hs. rewrite Hi in Hs.
  apply fmap_Some in Hs as (i0 & Hi0 & He). by exists i0.
Qed.

Lemma routing_mem_ok m m' :
  same_routing m m' → (∀ g, NoDup (entry_key <$> shared_of m' g)) → mem_ok m → mem_ok m'.
Proof.
  intros Hm Hdup' [Hids Hnodes Husers Horph Hhomes Hcount Hdup].
  assert (∀ id i, fileservers m' !! id = Some i →
    ∃ i0, fileservers m !! id = Some i0 ∧ fiNodeID i0 = fiNodeID i ∧ fiUserCount i0 = fiUserCount i) as Hback.
  { intros id i (i0 & Hi0 & He)%(routing_some m m'); [|done]. exists i0. by inversion He. }
  split; rewrite <-?(sr_users _ _ Hm), <-?(sr_orphans _ _ Hm).
  - intros id i (i0 & Hi0 & <- & _)%Hback. by apply (Hids id).
  - intros id id' i i' (i0 & Hi0 & <- & _)%Hback (i1 & Hi1 & <- & _)%Hback. by apply (Hnodes id id').
  - intros u id [i Hi]%Husers. pose proof (sr_nodes _ _ Hm id) as Hs. rewrite Hi in Hs.
    destruct (fileservers m' !! id); [by eexists|done].
  - done.
  - intros u h [Hne Hu]%Hhomes. split; [done|]. intros id i (i0 & Hi0 & <- & _)%Hback. by apply (Hu id).
  - intros id i (i0 & Hi0 & _ & <-)%Hback. rewrite (Hcount id i0 Hi0).
    apply count_ext. by rewrite (sr_users _ _ Hm).
  - done.
Qed.

Lemma routing_coherent m m' st : same_routing m m' → coherent m st → coherent m' st.
Proof.
  intros Hm [Hmem Hst Hus Hsh]. split.
  - intros n r (i & Hi & Hn & Ha)%Hmem. symmetry in Hm.
    destruct (routing_some m' m _ _ Hm Hi) as (i' & Hi' & He). inversion He.
    exists i'. split; [done|]. split; congruence.
  - intros id i (i0 & Hi0 & He)%(routing_some m m'); [|done].
    assert (fiNodeID i0 = fiNodeID i) as <- by (by inversion He). by apply Hst.
  - intros u. by rewrite Hus, Hm.
  - intros g o p. by rewrite Hsh, (sr_visible _ _ Hm).
Qed.

(** Tables that differ at most in the liveness of nodes and in empty lists of shares. *)
Record same_tables (m m' : MetaServer) : Prop := {
  st_nodes id : static <$> fileservers m !! id = static <$> fileservers m' !! id;
  st_users : users m = users m';
  st_orphans : orphanedUsers m = orphanedUsers m';
  st_shared g : shared_of m g = shared_of m' g }.

#[export] Instance same_tables_equiv : Equivalence same_tables.
Proof.
  split.
  - intros m. by split.
  - intros m m' []. by split.
  - intros m1 m2 m3 [H1 H2 H3 H4] [H5 H6 H7 H8]. split; intros; etrans; eauto.
Qed.

#[export] Instance same_tables_routing : subrelation same_tables same_routing.
Proof. intros m m' [Hn Hu Ho Hs]. split; [done..|]. intros g o p. unfold visible. by rewrite Hs. Qed.

Lemma same_mem_ok m m' : same_tables m m' → mem_ok m → mem_ok m'.
Proof.
  intros Hm Hok. apply (routing_mem_ok m); [by apply same_tables_routing| |done].
  intros g. rewrite <-(st_shared _ _ Hm). apply (mo_dup _ Hok).
Qed.

Lemma same_coherent m m' st : same_tables m m' → coherent m st → coherent m' st.
Proof. intros Hm%same_tables_routing. by apply routing_coherent. Qed.

Lemma record_static_inv r r' :
  record_static r = record_static r' →
  NodeID r = NodeID r' ∧ NumericID r = NumericID r' ∧ Address r = Address r'.
Proof. by intros [= -> -> ->]. Qed.

(** Records that differ at most in their liveness. *)
Lemma alter_coherent m st n f :
  (∀ r, record_static (f r) = record_static r) → coherent m st →
  coherent m (with_nodes (alter f n) st).
Proof.
  intros Hf [Hmem Hst Hus Hsh]. split; [| |done|done]; simpl.
  - intros n' r Hr. rewrite lookup_alter in Hr. case_decide as Hn; [|by apply Hmem].
    apply fmap_Some in Hr as (r0 & Hr0 & ->). destruct (Hmem _ _ Hr0) as (i & Hi & He & Ha).
    destruct (record_static_inv _ _ (Hf r0)) as (_ & -> & ->). subst n'. by exists i.
  - intros id i (r & Hr & He)%Hst. rewrite lookup_alter. case_decide as Hn; [|by exists r].
    subst n. rewrite Hr. exists (f r). split; [done|].
    destruct (record_static_inv _ _ (Hf r)) as (_ & -> & _). done.
Qed.

Lemma alter_ok st n f :
  (∀ r, record_static (f r) = record_static r) → state_ok st → state_ok (with_nodes (alter f n) st).
Proof.
  intros Hf. apply state_ok_nodes, nodes_ok_alter. intros r.
  by destruct (record_static_inv _ _ (Hf r)).
Qed.

Lemma same_alter m f id :
  (∀ i, static (f i) = static i) → same_tables m (set_fileservers (alter f id) m).
Proof.
  intros Hf. split; [|done..]. intros id'. simpl. rewrite lookup_alter. case_decide; [|done].
  subst. destruct (fileservers m !! id'); [|done]. simpl. by rewrite Hf.
Qed.

(** ** Calls of the store *)

Section spec.
Context {S : Type} `{HM : MetaStore S} (view : S → meta_state) `{HL : !MetaStoreLaws view}.

Definition agree (w : world S) : Prop :=
  mem_ok (ms w) ∧ coherent (ms w) (view (store w)) ∧ state_ok (view (store w)).

Lemma on_store_wp {A} (m : M S A) R f Q E w :
  implements view m R f → state_ok (view (store w)) →
  (∀ a s', R (view (store w)) a → view s' = f a (view (store w)) → Q a (mkWorld (ms w) s')) →
  (∀ e s', view s' = view (store w) → E e (mkWorld (ms w) s')) →
  wp (on_store m) Q E w.
Proof.
  intros Hm Hok HQ HE. specialize (Hm (store w) Hok). unfold wp, on_store in *.
  destruct (m (store w)) as [s' [a|e|p]]; [|by apply HE|done].
  destruct Hm as [HR Hv]. by apply HQ.
Qed.

Lemma store_or_wp {A} err (m : M S A) R f Q E w :
  implements view m R f → state_ok (view (store w)) →
  (∀ a s', R (view (store w)) a → view s' = f a (view (store w)) → Q a (mkWorld (ms w) s')) →
  (∀ s', view s' = view (store w) → E err (mkWorld (ms w) s')) →
  wp (store_or err m) Q E w.
Proof.
  intros Hm Hok HQ HE. unfold store_or. apply wp_bind, wp_catch.
  eapply on_store_wp; [done..| |].
  - intros a s' HR Hv. apply wp_ret. by apply HQ.
  - intros e s' Hv. apply wp_throw. by apply HE.
Qed.

Lemma on_ms_wp f (Q : unit → world S → Prop) E w :
  Q tt (mkWorld (f (ms w)) (store w)) → wp (on_ms f) Q E w.
Proof. intros HQ. by apply wp_modify. Qed.

Section ranges.
Variable range : gmap Z FileServerInfo → list (Z * FileServerInfo).
Hypothesis range_perm : ∀ fs, range fs ≡ₚ map_to_list fs.

Lemma range_elem fs id i : (id, i) ∈ range fs ↔ fs !! id = Some i.
Proof. by rewrite (elem_of_Permutation_proper _ _ _ (range_perm fs)), elem_of_map_to_list. Qed.

Lemma find_range (f : FileServerInfo → bool) fs :
  match fst <$> List.find (λ kv, f kv.2) (range fs) with
  | Some id => ∃ i, fs !! id = Some i ∧ f i = true
  | None => ∀ id i, fs !! id = Some i → f i = false
  end.
Proof.
  destruct (List.find (λ kv, f kv.2) (range fs)) as [[id i]|] eqn:Hf; simpl.
  - apply find_some in Hf as [Hin Hi]. exists i. split; [|done].
    by apply range_elem, list_elem_of_In.
  - intros id i Hi. apply (find_none _ _ Hf (id, i)). by apply list_elem_of_In, range_elem.
Qed.

Lemma find_node m nodeID :
  match findFileServerByNodeIDLocked range m nodeID with
  | Some id => nodeID ≠ "" ∧ ∃ i, fileservers m !! id = Some i ∧ fiNodeID i = nodeID
  | None => nodeID = "" ∨ ∀ id i, fileservers m !! id = Some i → fiNodeID i ≠ nodeID
  end.
Proof.
  unfold findFileServerByNodeIDLocked. destruct (String.eqb_spec nodeID "") as [->|Hne]; [by left|].
  pose proof (find_range (λ i, String.eqb (fiNodeID i) nodeID) (fileservers m)) as Hf.
  destruct (fst <$> _) as [id|].
  - destruct Hf as (i & Hi & He%String.eqb_eq). eauto.
  - right. intros id i Hi. by apply String.eqb_neq, (Hf id).
Qed.
End ranges.

(** ** Liveness *)

Lemma heartbeat_static at' (status : string) r :
  record_static (let r := set_LastHeartbeat at' r in
    if String.eqb status "" then r else set_Status status r) = record_static r.
Proof. cbv zeta. by destruct (String.eqb status ""). Qed.

(** A lawful write that changes only the liveness of records. *)
Lemma liveness_write_agree {A} (m : M S A) R n f w :
  implements view m R (λ _, with_nodes (alter f n)) →
  (∀ r, record_static (f r) = record_static r) → agree w →
  wp (ignore (on_store m)) (λ _ w', ms w' = ms w ∧ agree w') (λ _ _, False) w.
Proof.
  intros Hm Hf (Hmem & Hco & Hok). apply wp_ignore. eapply on_store_wp; [done..| |].
  - intros a s' _ Hv. split; [done|]. unfold agree. simpl. rewrite Hv.
    split_and!; [done|by apply alter_coherent|by apply alter_ok].
  - intros e s' Hv. split; [done|]. unfold agree. simpl. by rewrite Hv.
Qed.

Lemma agree_same w m' : same_tables (ms w) m' → agree w → agree (mkWorld m' (store w)).
Proof.
  intros Hm (Hmem & Hco & Hok). split_and!; [by eapply same_mem_ok|by eapply same_coherent|done].
Qed.

Lemma Heartbeat_wp range now fsId address w :
  (∀ fs, range fs ≡ₚ map_to_list fs) → agree w →
  let nodeID := resolveNodeID fsId address in
  wp (Heartbeat range now fsId address)
    (λ _ w', agree w' ∧ address ≠ "" ∧ ∃ id i, fileservers (ms w) !! id = Some i
        ∧ fiNodeID i = nodeID ∧ fiAddress i = address
        ∧ ms w' = set_fileservers (alter (set_liveness now FileServerStatusHealthy) id) (ms w))
    (λ _ w', w' = w ∧ (address = "" ∨ ¬ ∃ id i, fileservers (ms w) !! id = Some i
        ∧ fiNodeID i = nodeID ∧ fiAddress i = address)) w.
Proof.
  intros Hrange Hagree nodeID.
  unfold Heartbeat. destruct (String.eqb_spec address "") as [->|Hne]; [apply wp_throw; auto|].
  wp_step. wp_step. fold nodeID. pose proof (find_node range Hrange (ms w) nodeID) as Hf.
  assert (nodeID ≠ "") as Hid.
  { unfold nodeID, resolveNodeID. by destruct (String.eqb_spec fsId ""). }
  destruct Hagree as (Hmem & Hco & Hok).
  wp_step. apply wp_of_option.
  2:{ intros Hn. rewrite Hn in Hf. split; [done|]. right. intros (id & i & Hi & Hni & _).
      destruct Hf as [?|Hf]; [done|]. by apply (Hf id i). }
  intros id Hfind. rewrite Hfind in Hf. destruct Hf as (_ & i & Hi & Hni).
  wp_step. apply wp_of_option; [|by rewrite Hi]. rewrite Hi. intros _ [= <-].
  destruct (String.eqb_spec (fiAddress i) address) as [Ha|Ha]; cbn [negb]; cycle 1.
  { apply wp_throw. split; [done|]. right. intros (id' & i' & Hi' & Hni' & Ha').
    assert (id' = id) as -> by (eapply mo_nodes; [done..|congruence]). congruence. }
  wp_step. apply on_ms_wp. eapply wp_mono.
  - eapply (liveness_write_agree _ _ (fiNodeID i)); [apply (law_heartbeat view)|apply heartbeat_static|].
    apply (agree_same w); [by apply same_alter|by split_and!].
  - intros _ w' [Hms Hagree']. simpl in Hms. split_and!; [done..|]. by exists id, i.
  - done.
Qed.

(** A heartbeat is accepted exactly from the address that a registered node has,
    under that node's identity; it marks this node alive at the time it came and
    changes no other node, user or share; a refused one changes nothing.  Memory and
    store stay in agreement whether or not the store takes the write. *)
Theorem Heartbeat_correct range now fsId address w :
  (∀ fs, range fs ≡ₚ map_to_list fs) → agree w →
  let nodeID := resolveNodeID fsId address in
  match Heartbeat range now fsId address w with
  | (w', Ok _) =>
      agree w' ∧ address ≠ "" ∧ ∃ id i, fileservers (ms w) !! id = Some i
        ∧ fiNodeID i = nodeID ∧ fiAddress i = address
        ∧ ms w' = set_fileservers (alter (set_liveness now FileServerStatusHealthy) id) (ms w)
  | (w', Err _) =>
      w' = w ∧ (address = "" ∨ ¬ ∃ id i, fileservers (ms w) !! id = Some i
        ∧ fiNodeID i = nodeID ∧ fiAddress i = address)
  | (_, Panic _) => False
  end.
Proof.
  intros Hrange Hagree nodeID. pose proof (Heartbeat_wp range now fsId address w Hrange Hagree) as Hwp.
  unfold wp in Hwp. by destruct (Heartbeat _ _ _ _ _) as [w' [a|e|p]].
Qed.

(** ** First logins *)

(** The choice so far is the least loaded healthy node of those seen. *)
Definition best (m : MetaServer) (now : Z) (seen : list (Z * FileServerInfo)) (acc : option (Z * Z)) :=
  match acc with
  | None => ∀ id i, (id, i) ∈ seen → isHealthyLocked m i now = false
  | Some (id, c) =>
      (∃ i, (id, i) ∈ seen ∧ isHealthyLocked m i now = true ∧ c = fiUserCount i)
      ∧ ∀ id' i', (id', i') ∈ seen → isHealthyLocked m i' now = true → c ≤ fiUserCount i'
  end.

Lemma best_step m now seen acc kv :
  best m now seen acc → best m now (seen ++ [kv]) (least_step m now acc kv).
Proof.
  destruct kv as [id i]. unfold least_step. simpl. intros Hb.
  destruct (isHealthyLocked m i now) eqn:Hh; simpl; destruct acc as [[id0 c0]|]; simpl in *.
  - destruct Hb as [(i0 & Hin & Hi0 & ->) Hle].
    destruct (Z.ltb_spec (fiUserCount i) (fiUserCount i0)) as [Hlt|Hge]; split.
    + exists i. set_solver.
    + intros id' i' [Hin'|[= -> ->]%list_elem_of_singleton]%elem_of_app Hh'; [|lia].
      specialize (Hle id' i' Hin' Hh'). lia.
    + exists i0. set_solver.
    + intros id' i' [Hin'|[= -> ->]%list_elem_of_singleton]%elem_of_app Hh'; [eauto|lia].
  - split; [exists i; set_solver|].
    intros id' i' [Hin'|[= -> ->]%list_elem_of_singleton]%elem_of_app Hh'; [|lia].
    rewrite (Hb id' i' Hin') in Hh'. done.
  - destruct Hb as [(i0 & Hin & Hi0 & ->) Hle]. split; [exists i0; set_solver|].
    intros id' i' [Hin'|[= -> ->]%list_elem_of_singleton]%elem_of_app Hh'; [eauto|congruence].
  - intros id' i' [Hin'|[= -> ->]%list_elem_of_singleton]%elem_of_app; eauto.
Qed.

Lemma best_fold m now l : best m now l (foldl (least_step m now) None l).
Proof.
  induction l as [|kv l IH] using rev_ind; [by intros ? ? ?%elem_of_nil|].
  rewrite foldl_app. simpl. by apply best_step.
Qed.

(** The node chosen is healthy and no healthy node has fewer users; there is one
    whenever some node is healthy. *)
Definition least_loaded (m : MetaServer) (now : Z) (id : Z) : Prop :=
  ∃ i, fileservers m !! id = Some i ∧ isHealthyLocked m i now = true
    ∧ ∀ id' i', fileservers m !! id' = Some i' → isHealthyLocked m i' now = true →
        fiUserCount i ≤ fiUserCount i'.

Lemma least_loaded_spec range m now :
  (∀ fs, range fs ≡ₚ map_to_list fs) →
  match getLeastLoadedHealthyFileServerLocked range m now with
  | Some id => least_loaded m now id
  | None => ∀ id i, fileservers m !! id = Some i → isHealthyLocked m i now = false
  end.
Proof.
  intros Hrange. unfold getLeastLoadedHealthyFileServerLocked.
  pose proof (best_fold m now (range (fileservers m))) as Hb.
  destruct (foldl _ None _) as [[id c]|]; simpl in *.
  - destruct Hb as [(i & Hin & Hh & ->) Hle]. exists i.
    split_and!; [by apply (range_elem range Hrange)|done|].
    intros id' i' Hi'. apply (Hle id'). by apply range_elem.
  - intros id i Hi. apply (Hb id). by apply range_elem.
Qed.

(** The tables after a first login. *)
Definition placed (user : string) (id : Z) (m : MetaServer) : MetaServer :=
  set_shared <[user := []]>
    (set_fileservers (alter (λ i, set_fiUserCount (fiUserCount i + 1) i) id)
      (set_users <[user := id]> m)).

(** A node of the tables after the users changed: the same but for its count. *)
Lemma placed_node user id m id' i' :
  fileservers (placed user id m) !! id' = Some i' →
  ∃ i, fileservers m !! id' = Some i ∧ fiNodeID i = fiNodeID i' ∧ fiAddress i = fiAddress i'
    ∧ fiUserCount i' = fiUserCount i + (if decide (id' = id) then 1 else 0).
Proof.
  simpl. rewrite lookup_alter. case_decide as Hid.
  - intros (i & Hi & ->)%fmap_Some. subst id'. exists i. rewrite decide_True by done. done.
  - intros Hi. exists i'. rewrite decide_False by congruence. rewrite Z.add_0_r. done.
Qed.

Lemma placed_mem_ok user id i m :
  mem_ok m → users m !! user = None → orphanedUsers m !! user = None →
  fileservers m !! id = Some i → mem_ok (placed user id m).
Proof.
  intros [Hids Hnodes Husers Horph Hhomes Hcount Hdup] Hu Ho Hi. split.
  - intros id' i' (i0 & Hi0 & <- & _)%placed_node. by apply (Hids id').
  - intros id1 id2 i1 i2 (j1 & Hj1 & <- & _)%placed_node (j2 & Hj2 & <- & _)%placed_node.
    by apply (Hnodes id1 id2).
  - intros u id'. simpl. rewrite lookup_alter_is_Some.
    intros [[<- <-]|[_ Hu']]%lookup_insert_Some; [by eexists|by apply (Husers u)].
  - intros u h Hh. simpl in *. rewrite lookup_insert_ne; [by eapply Horph|]. congruence.
  - intros u h [Hne Hh]%Hhomes. split; [done|]. intros id' i' (i0 & Hi0 & <- & _)%placed_node.
    by apply (Hh id').
  - intros id' i' (i0 & Hi0 & _ & _ & ->)%placed_node. rewrite (Hcount id' i0 Hi0).
    symmetry. apply (count_add m _ id user); [done|apply lookup_insert_eq|].
    intros u' Hne. by apply lookup_insert_ne.
  - intros g. unfold placed. rewrite shared_insert. case_decide; [apply NoDup_nil_2|apply Hdup].
Qed.

Lemma placed_coherent user id i m st :
  mem_ok m → coherent m st → users m !! user = None → fileservers m !! id = Some i →
  shared_of m user = [] →
  coherent (placed user id m) (with_users (assign_user (mkUserRecord user (fiNodeID i))) st).
Proof.
  intros Hm [Hmem Hst Hus Hsh] Hu Hi Hnil.
  assert (∀ id', fiNodeID <$> fileservers (placed user id m) !! id' = fiNodeID <$> fileservers m !! id') as Hname.
  { intros id'. simpl. rewrite lookup_alter. case_decide; [subst id'|done]. by destruct (fileservers m !! id). }
  simpl in Hname. split; simpl.
  - intros n r (i0 & Hi0 & Hn & Ha)%Hmem. rewrite lookup_alter. case_decide as Hid; [|by exists i0].
    rewrite Hid, Hi0. by eexists.
  - intros id' i' (i0 & Hi0 & <- & _)%(placed_node user id m). by apply Hst.
  - intros u. unfold assign_user, home. simpl. destruct (decide (u = user)) as [->|Hne].
    + rewrite !lookup_insert_eq. by rewrite (Hname id), Hi.
    + rewrite !lookup_insert_ne by done. rewrite Hus. unfold home.
      destruct (users m !! u); [|done]. by rewrite (Hname _).
  - intros g o p. rewrite Hsh. unfold visible. unfold placed. rewrite shared_insert.
    case_decide as Hg; [by rewrite <-Hg, Hnil|done].
Qed.

(** The undo of a placement. *)
Lemma unplaced_same user id i m :
  mem_ok m → users m !! user = None → shared_of m user = [] → fileservers m !! id = Some i →
  same_tables m (set_fileservers (alter (λ i,
      if 0 <? fiUserCount i then set_fiUserCount (fiUserCount i - 1) i else i) id)
    (set_shared (delete user) (set_users (delete user) (placed user id m)))).
Proof.
  intros Hm Hu Hnil Hi. split; simpl.
  - intros id'. rewrite !lookup_alter. case_decide as Hid; [|done]. subst id'. rewrite Hi, decide_True by done. simpl.
    pose proof (mo_count _ Hm id i Hi) as Hc. pose proof (count_nonneg m id).
    destruct (Z.ltb_spec 0 (fiUserCount i + 1)); [|lia]. unfold static. simpl.
    by rewrite Z.add_simpl_r.
  - by rewrite delete_insert_id.
  - done.
  - intros g. unfold shared_of in *. simpl. destruct (decide (g = user)) as [->|Hne].
    + rewrite lookup_delete_eq. done.
    + by rewrite lookup_delete_ne, lookup_insert_ne.
Qed.

Definition roots_given (now : Z) (user : string) (w : world S) (roots : list SharedDirEntry) (w' : world S) : Prop :=
  user ≠ "" ∧ agree w' ∧ roots = mkEntry user user "mydrive" :: shared_of (ms w) user
  ∧ (is_Some (users (ms w) !! user) ∧ w' = w
     ∨ users (ms w) !! user = None ∧ orphanedUsers (ms w) !! user = None
       ∧ ∃ id, least_loaded (ms w) now id ∧ ms w' = placed user id (ms w)).
Definition roots_refused (now : Z) (user : string) (w : world S) (e : error) (w' : world S) : Prop :=
  agree w' ∧ same_tables (ms w) (ms w')
  ∧ (w' = w ∧ (user = "" ∨ is_Some (orphanedUsers (ms w) !! user)
       ∨ ∀ id i, fileservers (ms w) !! id = Some i → isHealthyLocked (ms w) i now = false)
     ∨ e = persist_failed).

Lemma GetRoots_wp range now user w :
  (∀ fs, range fs ≡ₚ map_to_list fs) → agree w →
  (users (ms w) !! user = None → shared_of (ms w) user = []) →
  wp (GetRoots range now user) (roots_given now user w) (roots_refused now user w) w.
Proof.
  intros Hrange Hagree Hnil.
  unfold GetRoots. destruct (String.eqb_spec user "") as [->|Hne].
  { apply wp_throw. split_and!; [done..|auto]. }
  wp_step. wp_step. destruct (users (ms w) !! user) as [id0|] eqn:Hu.
  { apply wp_ret. unfold roots_given. split_and!; [done..|]. left. by split; [eexists|]. }
  destruct (orphanedUsers (ms w) !! user) as [home|] eqn:Ho.
  { apply wp_throw. unfold roots_refused. split_and!; [done..|]. left. split; [done|]. right; left. by eexists. }
  pose proof (least_loaded_spec range (ms w) now Hrange) as Hleast.
  wp_step. apply wp_of_option; [|intros Hn; rewrite Hn in Hleast; split_and!; [done..|auto 10]].
  intros id Hid. rewrite Hid in Hleast. pose proof Hleast as (i & Hi & _ & _).
  unfold place_user. wp_step. wp_step. rewrite Hi. wp_step. wp_step. wp_step. apply on_ms_wp.
  wp_step. wp_step. wp_step. wp_step. pose proof Hagree as (Hmem & Hco & Hok).
  eapply on_store_wp; [apply (law_assign view)|exact Hok| |].
  - intros [] s' _ Hv. simpl in Hv |- *. apply wp_ret. unfold roots_given. simpl. split_and!; [done| | |].
    + unfold agree. simpl. rewrite Hv. split_and!; [exact (placed_mem_ok user id i _ Hmem Hu Ho Hi)| |exact Hok].
      exact (placed_coherent user id i _ _ Hmem Hco Hu Hi (Hnil eq_refl)).
    + change (buildRootsLocked (placed user id (ms w)) user = mkEntry user user "mydrive" :: shared_of (ms w) user).
      unfold buildRootsLocked, placed. by rewrite shared_insert, decide_True, Hnil.
    + right. split_and!; [done..|]. by exists id.
  - intros e s' Hv. simpl in Hv |- *. wp_step. apply on_ms_wp. apply wp_throw. unfold roots_refused. simpl.
    pose proof (unplaced_same user id i (ms w) Hmem Hu (Hnil eq_refl) Hi) as Hsame.
    split_and!; [|exact Hsame|by right]. unfold agree. simpl. rewrite Hv.
    split_and!; [by eapply same_mem_ok|by eapply same_coherent|done].
Qed.

(** C24. While memory and store agree, and unless a share was recorded for a user who is not
    known yet, [GetRoots] gives a known user its own drive and everything shared with it and
    changes nothing.  An unknown user is refused without a change while its home node
    is unregistered or when no node is healthy; otherwise it is assigned to a healthy
    node that no other healthy node beats in number of users, for every order in which
    Go may range over the nodes, in memory and in the store; if the store fails the
    assignment is taken back.  Memory and store agree afterwards in every case.  Shares
    recorded before a first login are lost by it ([MetaDemo.first_login_drops_shares]). *)
Theorem GetRoots_correct range now user w :
  (∀ fs, range fs ≡ₚ map_to_list fs) → agree w →
  (users (ms w) !! user = None → shared_of (ms w) user = []) →
  match GetRoots range now user w with
  | (w', Ok roots) =>
      user ≠ "" ∧ agree w' ∧ roots = mkEntry user user "mydrive" :: shared_of (ms w) user
      ∧ (is_Some (users (ms w) !! user) ∧ w' = w
         ∨ users (ms w) !! user = None ∧ orphanedUsers (ms w) !! user = None
           ∧ ∃ id, least_loaded (ms w) now id ∧ ms w' = placed user id (ms w))
  | (w', Err e) =>
      agree w' ∧ same_tables (ms w) (ms w')
      ∧ (w' = w ∧ (user = "" ∨ is_Some (orphanedUsers (ms w) !! user)
           ∨ ∀ id i, fileservers (ms w) !! id = Some i → isHealthyLocked (ms w) i now = false)
         ∨ e = persist_failed)
  | (_, Panic _) => False
  end.
Proof.
  intros Hrange Hagree Hnil. pose proof (GetRoots_wp range now user w Hrange Hagree Hnil) as Hwp.
  unfold wp in Hwp. by destruct (GetRoots _ _ _ _) as [w' [a|e|p]].
Qed.
End spec.
