(* ===== verification/MetaShares.v ===== *)
(** * Sharing and routing at the metaserver

    [RootShare], [RootUnshare] and [Navigate] of internal/metaserver/handler.go, against
    the laws of the store. *)
From S2P Require Import Prelude GoStd Storage Metaserver MetaSpec.

Section spec.
Context {S : Type} `{HM : MetaStore S} (view : S → meta_state) `{HL : !MetaStoreLaws view}.

(** Tables that differ only in what is shared. *)
Definition reshared (m m' : MetaServer) : Prop :=
  fileservers m' = fileservers m ∧ users m' = users m ∧ orphanedUsers m' = orphanedUsers m.

Lemma reshared_mem_ok m m' :
  reshared m m' → (∀ g, NoDup (entry_key <$> shared_of m' g)) → mem_ok m → mem_ok m'.
Proof.
  intros (Hf & Hu & Ho) Hdup [Hids Hnodes Husers Horph Hhomes Hcount _].
  split; rewrite ?Hf, ?Hu, ?Ho; [done..| |done].
  intros id i Hi. rewrite (Hcount id i Hi). apply count_ext. by rewrite Hu.
Qed.

Lemma reshared_home m m' u : reshared m m' → home m' u = home m u.
Proof. intros (Hf & Hu & Ho). unfold home. by rewrite Hf, Hu, Ho. Qed.

Lemma reshared_coherent m m' st f :
  reshared m m' →
  (∀ g o p, is_Some (f (ns_shares st) !! (g, o, p)) ↔ visible m' g o p) →
  coherent m st → coherent m' (with_shares f st).
Proof.
  intros Hr Hsh [Hmem Hst Hus _]. pose proof Hr as (Hf & _ & _).
  split; simpl; rewrite ?Hf; [done..| |done]. intros u. by rewrite (reshared_home m m').
Qed.

(** ** [RootShare] *)

(** The list of a grantee after a grant. *)
Definition granted (g o p name : string) (m : MetaServer) : MetaServer :=
  set_shared (add_entry g (mkEntry o p name)) m.

Lemma granted_shared g o p name m f :
  shared_of (granted g o p name m) f
  = if decide (g = f) then shared_of m f ++ [mkEntry o p name] else shared_of m f.
Proof. apply (lookup_add g (mkEntry o p name) (shared m) f). Qed.

Lemma granted_visible g o p name m f o' p' :
  visible (granted g o p name m) f o' p' ↔ (f, o', p') = (g, o, p) ∨ visible m f o' p'.
Proof.
  unfold visible. rewrite granted_shared. case_decide as Hg.
  - rewrite fmap_app, elem_of_app. simpl. rewrite list_elem_of_singleton. unfold entry_key at 2. simpl.
    naive_solver.
  - naive_solver.
Qed.

Lemma granted_dup g o p name m f :
  ¬ visible m g o p → NoDup (entry_key <$> shared_of m f) →
  NoDup (entry_key <$> shared_of (granted g o p name m) f).
Proof.
  unfold visible. intros Hv Hf. rewrite granted_shared. case_decide as Hg; [subst f|done].
  rewrite fmap_app. apply NoDup_app. split_and!; [done| |apply NoDup_singleton].
  intros k Hk ->%list_elem_of_singleton. done.
Qed.

Lemma removeShareEntry_absent es o p :
  (o, p) ∉ entry_key <$> es → removeShareEntry es o p = es.
Proof.
  induction es as [|e es IH]; [done|]. rewrite fmap_cons, not_elem_of_cons. intros [Hne Hes].
  unfold removeShareEntry. simpl. destruct (String.eqb_spec (seOwner e) o) as [Ho|];
    [destruct (String.eqb_spec (sePath e) p) as [Hp|]|]; simpl; try (f_equal; by apply IH).
  destruct Hne. unfold entry_key. by rewrite Ho, Hp.
Qed.

Lemma removeShareEntry_snoc es o p name :
  (o, p) ∉ entry_key <$> es → removeShareEntry (es ++ [mkEntry o p name]) o p = es.
Proof.
  intros Hes. unfold removeShareEntry. rewrite List.filter_app. simpl.
  rewrite !String.eqb_refl. simpl. rewrite app_nil_r. by apply removeShareEntry_absent.
Qed.

Lemma granted_reshared g o p name m : reshared m (granted g o p name m).
Proof. done. Qed.

Lemma RootShare_wp owner rootPath name shareWith w :
  agree view w → let path := NormalizeSharePath rootPath in let m := ms w in
  wp (RootShare owner rootPath name shareWith)
    (λ _ w', agree view w' ∧ is_Some (users m !! owner) ∧ is_Some (users m !! shareWith)
      ∧ reshared m (ms w') ∧ (visible m shareWith owner path → w' = w)
      ∧ ∀ g o p, visible (ms w') g o p ↔ (g, o, p) = (shareWith, owner, path) ∨ visible m g o p)
    (λ e w', agree view w' ∧ same_tables m (ms w')
      ∧ (w' = w ∧ (users m !! owner = None ∨ users m !! shareWith = None) ∨ e = persist_failed)) w.
Proof.
  intros Hagree path m. pose proof Hagree as (Hmem & Hco & Hok).
  unfold RootShare. fold path. wp_step. wp_step. fold m.
  wp_step. apply wp_of_option; [|intros Hn; split_and!; [done..|auto]]. intros id1 Ho.
  wp_step. apply wp_of_option; [|intros Hn; split_and!; [done..|auto]]. intros id2 Hs.
  destruct (containsShare (shared_of m shareWith) owner path) eqn:Hc.
  { apply containsShare_spec in Hc. apply wp_ret. split_and!; try done; [by eexists..|].
    intros g o p. split; [by right|]. by intros [[= -> -> ->]|?]. }
  assert (¬ visible m shareWith owner path) as Hnv by (unfold visible; rewrite <-containsShare_spec; congruence).
  wp_step. apply on_ms_wp. wp_step. wp_step.
  assert (mem_ok (granted shareWith owner path name m)) as Hmem'.
  { apply (reshared_mem_ok m); [apply granted_reshared| |done].
    intros g. apply granted_dup; [done|by apply mo_dup]. }
  assert (coherent (granted shareWith owner path name m)
    (with_shares (add_share (mkShareRecord shareWith owner path name)) (view (store w)))) as Hco'.
  { apply (reshared_coherent m); [apply granted_reshared| |done]. intros g o p. rewrite add_share_lookup.
    rewrite granted_visible, (co_shares _ _ Hco). unfold shared_key. simpl.
    unfold path. by rewrite (normal_idem rootPath). }
  eapply on_store_wp; [apply (law_add_share view)|exact Hok| |]; simpl.
  - intros [] s' _ Hv. apply wp_ret. simpl. split_and!; [|by eexists..|done|done|apply granted_visible].
    unfold agree. simpl. rewrite Hv. split_and!; [exact Hmem'|exact Hco'|]. apply state_ok_shares; [apply shares_ok_add|done].
  - intros e s' Hv. wp_step. apply on_ms_wp. apply wp_throw. simpl.
    assert (same_tables m (set_shared <[shareWith := removeShareEntry
      (shared_of (granted shareWith owner path name m) shareWith) owner path]>
      (granted shareWith owner path name m))) as Hsame.
    { split; try done. intros g. rewrite shared_insert, !granted_shared.
      case_decide as Hg; [|done]. rewrite decide_True by done. subst g.
      symmetry. apply removeShareEntry_snoc. exact Hnv. }
    split_and!; [|exact Hsame|by right]. unfold agree. simpl. rewrite Hv.
    split_and!; [by eapply same_mem_ok|by eapply same_coherent|done].
Qed.

(** [RootShare] succeeds exactly for two users that both have a home, makes the
    normalised path visible to the grantee in memory and in the store, and nothing else
    anywhere; sharing what is already shared changes nothing; a store failure leaves
    everything as it was. *)
Theorem RootShare_correct owner rootPath name shareWith w :
  agree view w →
  let path := NormalizeSharePath rootPath in
  match RootShare owner rootPath name shareWith w with
  | (w', Ok _) =>
      agree view w' ∧ is_Some (users (ms w) !! owner) ∧ is_Some (users (ms w) !! shareWith)
      ∧ reshared (ms w) (ms w')
      ∧ (visible (ms w) shareWith owner path → w' = w)
      ∧ ∀ g o p, visible (ms w') g o p ↔ (g, o, p) = (shareWith, owner, path) ∨ visible (ms w) g o p
  | (w', Err e) =>
      agree view w' ∧ same_tables (ms w) (ms w')
      ∧ (w' = w ∧ (users (ms w) !! owner = None ∨ users (ms w) !! shareWith = None)
         ∨ e = persist_failed)
  | (_, Panic _) => False
  end.
Proof.
  intros Hagree path. pose proof (RootShare_wp owner rootPath name shareWith w Hagree) as Hwp.
  unfold wp in Hwp. by destruct (RootShare _ _ _ _ _) as [w' [a|e|y]].
Qed.

(** ** [RootUnshare] *)

Definition revoked (g o p : string) (m : MetaServer) : MetaServer :=
  set_shared <[g := removeShareEntry (shared_of m g) o p]> m.

Lemma revoked_reshared g o p m : reshared m (revoked g o p m).
Proof. done. Qed.

Lemma revoked_visible g o p m f o' p' :
  visible (revoked g o p m) f o' p' ↔ visible m f o' p' ∧ (f, o', p') ≠ (g, o, p).
Proof.
  unfold visible, revoked. rewrite shared_insert. case_decide as Hg; [|naive_solver].
  subst f. rewrite removeShareEntry_keys. naive_solver.
Qed.

Lemma revoked_dup g o p m f :
  NoDup (entry_key <$> shared_of m f) → (∀ f, NoDup (entry_key <$> shared_of m f)) →
  NoDup (entry_key <$> shared_of (revoked g o p m) f).
Proof.
  intros Hf Hall. unfold revoked. rewrite shared_insert. case_decide; [|done].
  by apply filter_NoDup.
Qed.

Lemma RootUnshare_wp owner rootPath unshareWith w :
  agree view w → let path := NormalizeSharePath rootPath in let m := ms w in
  wp (RootUnshare owner rootPath unshareWith)
    (λ _ w', agree view w' ∧ is_Some (users m !! owner) ∧ is_Some (users m !! unshareWith)
      ∧ reshared m (ms w')
      ∧ ∀ g o p, visible (ms w') g o p ↔ visible m g o p ∧ (g, o, p) ≠ (unshareWith, owner, path))
    (λ e w', w' = w ∧ (users m !! owner = None ∨ users m !! unshareWith = None)
      ∨ e = persist_failed ∧ ms w' = revoked unshareWith owner path m
        ∧ view (store w') = view (store w)) w.
Proof.
  intros (Hmem & Hco & Hok) path m.
  unfold RootUnshare. fold path. wp_step. wp_step. fold m.
  wp_step. apply wp_of_option; [|intros Hn; left; auto]. intros id1 Ho.
  wp_step. apply wp_of_option; [|intros Hn; left; auto]. intros id2 Hs.
  wp_step. apply on_ms_wp.
  eapply (store_or_wp view); [apply (law_remove_share view)|exact Hok| |]; simpl.
  - intros [] s' _ Hv. split_and!; [|by eexists..|by apply revoked_reshared|apply revoked_visible].
    unfold agree. simpl. rewrite Hv. split_and!.
    + apply (reshared_mem_ok m); [apply revoked_reshared| |done].
      intros g. apply revoked_dup; by apply mo_dup.
    + apply (reshared_coherent m); [apply revoked_reshared| |done].
      intros g o p. rewrite remove_share_lookup, (co_shares _ _ Hco).
      unfold path. rewrite (normal_idem rootPath). symmetry. apply revoked_visible.
    + apply state_ok_shares; [apply shares_ok_delete|done].
  - intros s' Hv. by right.
Qed.

(** [RootUnshare] succeeds exactly for two users that both have a home, once the
    store took the revocation, and then takes the normalised path from the grantee, in
    memory and in the store, and nothing else.  If the store fails, memory has already
    revoked it, while the store still holds the grant; a request that is refused
    changes nothing. *)
Theorem RootUnshare_correct owner rootPath unshareWith w :
  agree view w →
  let path := NormalizeSharePath rootPath in
  match RootUnshare owner rootPath unshareWith w with
  | (w', Ok _) =>
      agree view w' ∧ is_Some (users (ms w) !! owner) ∧ is_Some (users (ms w) !! unshareWith)
      ∧ reshared (ms w) (ms w')
      ∧ ∀ g o p, visible (ms w') g o p ↔ visible (ms w) g o p ∧ (g, o, p) ≠ (unshareWith, owner, path)
  | (w', Err e) =>
      w' = w ∧ (users (ms w) !! owner = None ∨ users (ms w) !! unshareWith = None)
      ∨ e = persist_failed ∧ ms w' = revoked unshareWith owner path (ms w)
        ∧ view (store w') = view (store w)
  | (_, Panic _) => False
  end.
Proof.
  intros Hagree path. pose proof (RootUnshare_wp owner rootPath unshareWith w Hagree) as Hwp.
  unfold wp in Hwp. by destruct (RootUnshare _ _ _ _) as [w' [a|e|y]].
Qed.

(** ** [Navigate] *)

(** Who may be routed to the node of [rootUser]. *)
Definition may_navigate (m : MetaServer) (user rootUser : string) : Prop :=
  user = rootUser ∨ ∃ p, visible m user rootUser p.

Lemma Navigate_pure now user rootUser (w : world S) : (Navigate now user rootUser w).1 = w.
Proof.
  unfold Navigate. destruct (String.eqb user "" || String.eqb rootUser ""); [done|].
  unfold mbind, M_bind, gets. destruct (users (ms w) !! user); [|done]. simpl.
  destruct (users (ms w) !! rootUser); [|done]. simpl.
  destruct (fileservers (ms w) !! _); [|done]. simpl.
  destruct (isHealthyLocked _ _ _); [|done]. simpl. by destruct (String.eqb user rootUser || _).
Qed.

(** C25. [Navigate] changes nothing and answers with an address exactly when both users
    have a home, the node of the root user is alive, and the caller is the root user or
    somebody with whom the root user shares something; the address is that of the node
    that hosts the root user. *)
Theorem Navigate_correct now user rootUser (w : world S) :
  let '(w', r) := Navigate now user rootUser w in
  w' = w
  ∧ ∀ addr, r = Ok addr ↔
      user ≠ "" ∧ rootUser ≠ "" ∧ is_Some (users (ms w) !! user)
      ∧ may_navigate (ms w) user rootUser
      ∧ ∃ id i, users (ms w) !! rootUser = Some id ∧ fileservers (ms w) !! id = Some i
          ∧ isHealthyLocked (ms w) i now = true ∧ fiAddress i = addr.
Proof.
  assert (existsb (λ s, String.eqb (seOwner s) rootUser) (shared_of (ms w) user) = true
          ↔ ∃ p, visible (ms w) user rootUser p) as Hex.
  { unfold visible. rewrite existsb_exists. setoid_rewrite list_elem_of_fmap. split.
    - intros (e & Hin & He%String.eqb_eq). exists (sePath e), e. unfold entry_key. rewrite He.
      split; [done|by apply list_elem_of_In].
    - intros (p & e & [= -> ->] & Hin). exists e. split; [by apply list_elem_of_In|].
      apply String.eqb_refl. }
  unfold Navigate, may_navigate. destruct (String.eqb_spec user "") as [|Hu]; simpl.
  { split; [done|]. intros addr. split; [done|]. by intros []. }
  destruct (String.eqb_spec rootUser "") as [|Hr]; simpl.
  { split; [done|]. intros addr. split; [done|]. by intros (_ & [] & _). }
  unfold mbind, M_bind, gets. destruct (users (ms w) !! user) as [idu|] eqn:Hidu; simpl.
  2:{ split; [done|]. intros addr. split; [done|]. intros (_ & _ & [] & _). done. }
  destruct (users (ms w) !! rootUser) as [id|] eqn:Hid; simpl.
  2:{ split; [done|]. intros addr. split; [done|]. by intros (_ & _ & _ & _ & ? & ? & [=] & _). }
  destruct (fileservers (ms w) !! id) as [i|] eqn:Hi; simpl.
  2:{ split; [done|]. intros addr. split; [done|]. intros (_ & _ & _ & _ & ? & ? & [= <-] & ? & _). congruence. }
  destruct (isHealthyLocked (ms w) i now) eqn:Hh; simpl.
  2:{ split; [done|]. intros addr. split; [done|]. intros (_ & _ & _ & _ & ? & ? & [= <-] & ? & ? & _). congruence. }
  destruct (String.eqb_spec user rootUser) as [He|He]; simpl.
  { split; [done|]. intros addr. split.
    2:{ intros (_ & _ & _ & _ & ? & ? & [= <-] & Hi' & _ & <-). congruence. }
    intros [= <-]. split_and!; [done..|by eexists|by left|]. by exists id, i. }
  destruct (existsb _ _) eqn:Hb; (split; [done|]); intros addr; (split; [|intros H]).
  - intros [= <-]. split_and!; [done..|by eexists|right; by apply Hex|]. by exists id, i.
  - destruct H as (_ & _ & _ & _ & ? & ? & [= <-] & Hi' & _ & <-). congruence.
  - done.
  - destruct H as (_ & _ & _ & [?|Hp] & _); [done|]. apply Hex in Hp. done.
Qed.
End spec.
