(* ===== verification/MetaNodes.v ===== *)
(** * Deregistration and registration of nodes

    [DeregisterFileServer] and [RegisterFileServer] of internal/metaserver/handler.go,
    against the laws of the store. *)
From S2P Require Import Prelude GoStd Storage Metaserver MetaSpec.

(** ** Users forgotten *)

(** What is left of the shares without some users on either side. *)
Definition drop_shares (us : list string) (sh : gmap string (list SharedDirEntry)) :=
  each (λ u sh, removeSharesByOwnerLocked u (delete u sh)) us sh.

Lemma drop_shares_keys us sh g k :
  k ∈ entry_key <$> lookup_shared (drop_shares us sh) g
  ↔ k ∈ entry_key <$> lookup_shared sh g ∧ g ∉ us ∧ k.1 ∉ us.
Proof.
  revert sh. induction us as [|u us IH]; intros sh; [set_solver|].
  change (drop_shares (u :: us) sh) with (drop_shares us (removeSharesByOwnerLocked u (delete u sh))).
  rewrite IH, lookup_by_owner, by_owner_keys, lookup_shared_delete, !not_elem_of_cons.
  case_decide as Hg; [set_solver|]. naive_solver.
Qed.

Lemma drop_shares_dup us sh g :
  NoDup (entry_key <$> lookup_shared sh g) → NoDup (entry_key <$> lookup_shared (drop_shares us sh) g).
Proof.
  revert sh. induction us as [|u us IH]; intros sh Hd; [done|].
  apply (IH (removeSharesByOwnerLocked u (delete u sh))). rewrite lookup_by_owner.
  apply filter_NoDup. rewrite lookup_shared_delete. case_decide; [apply NoDup_nil_2|done].
Qed.

Lemma each_release us m :
  each release_user us m
  = mkMetaServer (fileservers m) (each (λ u, delete u) us (users m)) (drop_shares us (shared m))
      (each (λ u, delete u) us (orphanedUsers m))
      (allowUserPurge m) (heartbeatTimeout m) (heartbeatCheckInterval m).
Proof. revert m. induction us as [|u us IH]; intros m; [by destruct m|exact (IH (release_user u m))]. Qed.

Lemma each_purge us m :
  each purge_user us m
  = mkMetaServer (fileservers m) (each (λ u, delete u) us (users m)) (drop_shares us (shared m))
      (orphanedUsers m) (allowUserPurge m) (heartbeatTimeout m) (heartbeatCheckInterval m).
Proof. revert m. induction us as [|u us IH]; intros m; [by destruct m|exact (IH (purge_user u m))]. Qed.

(** ** [DeregisterFileServer] *)

Section spec.
Context {S : Type} `{HM : MetaStore S} (view : S → meta_state) `{HL : !MetaStoreLaws view}.

(** The entry of a node, or that there is none. *)
Definition entry_of (m : MetaServer) (nodeID : string) (found : option Z) : Prop :=
  match found with
  | Some id => ∃ i, fileservers m !! id = Some i ∧ fiNodeID i = nodeID
  | None => ∀ id i, fileservers m !! id = Some i → fiNodeID i ≠ nodeID
  end.

Lemma target_entry range m fsId address :
  (∀ fs, range fs ≡ₚ map_to_list fs) → mem_ok m →
  let '(nodeID, found) := deregister_target range m fsId address in entry_of m nodeID found.
Proof.
  intros Hrange Hm. unfold deregister_target. destruct (String.eqb_spec fsId "") as [->|Hne]; cbn [negb].
  - unfold findFileServerByAddressLocked. destruct (String.eqb address "").
    { simpl. intros id i Hi. by apply (mo_ids _ Hm id). }
    pose proof (find_range range Hrange (λ i, String.eqb (fiAddress i) address) (fileservers m)) as Hf.
    destruct (fst <$> List.find _ _) as [id|]; simpl.
    + destruct Hf as (i & Hi & _). exists i. by rewrite Hi.
    + intros id i Hi. by apply (mo_ids _ Hm id).
  - pose proof (find_node range Hrange m fsId) as Hf.
    destruct (findFileServerByNodeIDLocked range m fsId) as [id|]; simpl.
    + destruct Hf as [_ Hf]. exact Hf.
    + destruct Hf as [?|Hf]; [done|exact Hf].
Qed.

Lemma released_elem m nodeID found u :
  mem_ok m → entry_of m nodeID found →
  u ∈ released_users m nodeID found ↔ home m u = Some nodeID.
Proof.
  intros Hm He. unfold released_users. rewrite elem_of_app.
  assert (u ∈ (if String.eqb nodeID "" then []
      else (List.filter (λ kv, String.eqb kv.2 nodeID) (map_to_list (orphanedUsers m))).*1)
    ↔ orphanedUsers m !! u = Some nodeID) as ->.
  { destruct (String.eqb_spec nodeID "") as [->|Hne].
    - split; [by intros ?%elem_of_nil|]. intros Hu. by destruct (mo_homes _ Hm u "" Hu) as [].
    - rewrite list_elem_of_fmap. split.
      + intros ([u' h] & -> & [Hin Hh%String.eqb_eq]%list_elem_of_In%filter_In).
        simpl in *. subst h. by apply elem_of_map_to_list, list_elem_of_In.
      + intros Hu. exists (u, nodeID). split; [done|]. apply list_elem_of_In, filter_In.
        split; [by apply list_elem_of_In, elem_of_map_to_list|]. apply String.eqb_refl. }
  assert (u ∈ match found with
      | Some fsID => (List.filter (λ kv, kv.2 =? fsID) (map_to_list (users m))).*1
      | None => [] end ↔ ∃ id, found = Some id ∧ users m !! u = Some id) as ->.
  { destruct found as [id|]; [rewrite count_elem; naive_solver|].
    split; [by intros ?%elem_of_nil|naive_solver]. }
  unfold home. destruct (users m !! u) as [id|] eqn:Hu.
  - destruct (mo_users _ Hm u id Hu) as [i Hi]. rewrite Hi. simpl. split.
    + intros [(id' & -> & [= <-])|Ho]; [|by rewrite (mo_orphans _ Hm u _ Ho) in Hu].
      destruct He as (i' & Hi' & Hn). congruence.
    + intros [= Hn]. left. exists id. split; [|done]. destruct found as [id'|]; simpl in He.
      * destruct He as (i' & Hi' & Hn'). f_equal. eapply mo_nodes; [done..|congruence].
      * by destruct (He id i Hi).
  - naive_solver.
Qed.

(** The tables without a node and the users whose home it is. *)
Definition without_node (nodeID : string) (found : option Z) (m : MetaServer) : MetaServer :=
  set_fileservers (from_option delete id found) (each release_user (released_users m nodeID found) m).

Lemma without_node_fs nodeID found m id :
  fileservers (without_node nodeID found m) !! id
  = if decide (found = Some id) then None else fileservers m !! id.
Proof.
  unfold without_node. simpl. rewrite each_release. simpl. destruct found as [id'|]; simpl.
  - case_decide as Hid; [injection Hid as ->; apply lookup_delete_eq|].
    apply lookup_delete_ne. congruence.
  - done.
Qed.

Lemma without_node_home nodeID found m u :
  mem_ok m → entry_of m nodeID found →
  home (without_node nodeID found m) u = if decide (home m u = Some nodeID) then None else home m u.
Proof.
  intros Hm He. unfold home at 1. 
  assert (∀ id, fileservers (without_node nodeID found m) !! id
    = if decide (found = Some id) then None else fileservers m !! id) as Hfs by (apply without_node_fs).
  unfold without_node in *. rewrite each_release in *. simpl in *.
  rewrite !each_delete_lookup. rewrite !(decide_ext _ _ _ _ (released_elem m nodeID found u Hm He)).
  case_decide as Hh; [done|]. unfold home in *. destruct (users m !! u) as [id|] eqn:Hu; [|done].
  rewrite Hfs. case_decide as Hf; [|done]. subst found. destruct He as (i & Hi & Hn).
  rewrite Hi in Hh. simpl in Hh. congruence.
Qed.

Lemma without_node_visible nodeID found m g o p :
  mem_ok m → entry_of m nodeID found →
  visible (without_node nodeID found m) g o p
  ↔ visible m g o p ∧ home m g ≠ Some nodeID ∧ home m o ≠ Some nodeID.
Proof.
  intros Hm He. rewrite <-!(released_elem m nodeID found _ Hm He).
  unfold visible, without_node. rewrite each_release. apply (drop_shares_keys _ (shared m) g (o, p)).
Qed.

Lemma without_node_mem_ok nodeID found m :
  mem_ok m → entry_of m nodeID found → mem_ok (without_node nodeID found m).
Proof.
  intros Hm He. pose proof (without_node_fs nodeID found m) as Hfs.
  assert (∀ id i, fileservers (without_node nodeID found m) !! id = Some i →
    fileservers m !! id = Some i ∧ found ≠ Some id) as Hback.
  { intros id i. rewrite Hfs. by case_decide. }
  assert (∀ u, users (without_node nodeID found m) !! u
    = if decide (home m u = Some nodeID) then None else users m !! u) as Hus.
  { intros u. unfold without_node. rewrite each_release. simpl. rewrite each_delete_lookup.
    apply decide_ext, released_elem; done. }
  assert (∀ u, orphanedUsers (without_node nodeID found m) !! u
    = if decide (home m u = Some nodeID) then None else orphanedUsers m !! u) as Hos.
  { intros u. unfold without_node. rewrite each_release. simpl. rewrite each_delete_lookup.
    apply decide_ext, released_elem; done. }
  split.
  - intros id i [Hi _]%Hback. by apply (mo_ids _ Hm id).
  - intros id1 id2 i1 i2 [H1 _]%Hback [H2 _]%Hback. by apply (mo_nodes _ Hm).
  - intros u id. rewrite Hus, Hfs. case_decide as Hh; [done|]. intros Hu.
    destruct (mo_users _ Hm u id Hu) as [i Hi]. case_decide as Hf; [|by exists i].
    subst found. destruct He as (i' & Hi' & Hn). unfold home in Hh. rewrite Hu, Hi' in Hh. simpl in Hh. congruence.
  - intros u h. rewrite Hos, Hus. case_decide; [done|]. apply (mo_orphans _ Hm).
  - intros u h. rewrite Hos. case_decide; [done|]. intros [Hne Hh]%(mo_homes _ Hm). split; [done|].
    intros id i [Hi _]%Hback. by apply (Hh id).
  - intros id i [Hi Hf]%Hback. rewrite (mo_count _ Hm id i Hi). apply count_ext. intros u. rewrite Hus.
    case_decide as Hh; [|done]. split; [|done]. intros Hu. unfold home in Hh. rewrite Hu, Hi in Hh.
    injection Hh as Hn. destruct found as [id'|]; [|by destruct (He id i Hi)].
    destruct He as (i' & Hi' & Hn'). destruct Hf. f_equal. eapply (mo_nodes _ Hm); [done..|congruence].
  - intros g. unfold shared_of, without_node. rewrite each_release. apply drop_shares_dup, (mo_dup _ Hm g).
Qed.

(** What the writes of a deregistration leave in the store. *)
Definition without_node_stored (nodeID : string) (found : option Z) (removed : list string) (st : meta_state) :=
  mkMetaState (if found then delete nodeID (ns_nodes st) else ns_nodes st)
    (each remove_user removed (ns_users st)) (remove_involving removed (ns_shares st)).

Lemma remove_involving_nil shs : remove_involving [] shs = shs.
Proof. apply map_filter_id. set_solver. Qed.

(** Tables with fewer users and shares and the same nodes. *)
Definition fewer (st st' : meta_state) : Prop :=
  ns_nodes st' = ns_nodes st ∧ ns_users st' ⊆ ns_users st ∧ ns_shares st' ⊆ ns_shares st.

Lemma each_delete_subseteq (us : list string) (m : gmap string string) :
  each remove_user us m ⊆ m.
Proof.
  apply map_subseteq_spec. intros u h. unfold remove_user. rewrite each_delete_lookup. by case_decide.
Qed.

(** A lawful write followed by another. *)
Lemma write_wp {A} (m : M S A) R f (Q : A → S → Prop) (E : error → S → Prop) s :
  implements view m R f → state_ok (view s) →
  (∀ a s', R (view s) a → view s' = f a (view s) → Q a s') →
  (∀ e s', view s' = view s → E e s') → wp m Q E s.
Proof.
  intros Hm Hok HQ HE. eapply wp_mono; [apply (Hm s Hok)| |by apply HE].
  intros a s' [HR Hv]. by apply HQ.
Qed.

Lemma deregister_writes_wp nodeID found removed s :
  state_ok (view s) →
  wp (deregister_writes nodeID (bool_decide (is_Some found)) removed)
    (λ _ s', view s' = without_node_stored nodeID found removed (view s))
    (λ _ s', fewer (view s) (view s')) s.
Proof.
  intros Hok. unfold deregister_writes. apply wp_bind.
  apply (wp_mono _ (λ _ s1, view s1 = without_node_stored nodeID None removed (view s)) _
    (λ _ s1, fewer (view s) (view s1))); [|intros [] s1 Hv1|done].
  - destruct removed as [|u us].
    { apply wp_ret. unfold without_node_stored. rewrite remove_involving_nil. by destruct (view s). }
    apply wp_bind. eapply write_wp; [apply (law_remove_users view)|done| |by intros e s' ->].
    intros [] s1 _ Hv1. eapply write_wp; [apply (law_remove_involving view)|by rewrite Hv1| |].
    + intros [] s2 _ Hv2. by rewrite Hv2, Hv1.
    + intros e s2 Hv2. unfold fewer. rewrite Hv2, Hv1. simpl. split_and!; [done| |done].
      exact (each_delete_subseteq (u :: us) _).
  - assert (state_ok (view s1)) as Hok1.
    { rewrite Hv1. destruct Hok as [Hn Hs]. split; [done|]. intros k sh Hk.
      apply map_lookup_filter_Some in Hk as [Hk _]. by apply Hs. }
    assert (fewer (view s) (view s1)) as Hfew.
    { rewrite Hv1. split_and!; [done|apply each_delete_subseteq|apply map_filter_subseteq]. }
    destruct found as [id|]; simpl.
    + eapply write_wp; [apply (law_remove_node view)|done| |].
      * intros [] s2 _ Hv2. by rewrite Hv2, Hv1.
      * intros e s2 Hv2. by rewrite Hv2.
    + apply wp_ret. exact Hv1.
Qed.

Lemma without_node_coherent nodeID found m st :
  mem_ok m → coherent m st → entry_of m nodeID found →
  coherent (without_node nodeID found m)
    (without_node_stored nodeID found (released_users m nodeID found) st).
Proof.
  intros Hm [Hmem Hst Hus Hsh] He. pose proof (without_node_fs nodeID found m) as Hfs.
  assert (∀ n, (if found then delete nodeID (ns_nodes st) else ns_nodes st) !! n
    = if decide (n = nodeID) then None else ns_nodes st !! n) as Hnodes.
  { intros n. destruct found as [id|].
    - case_decide as Hn; [by rewrite Hn, lookup_delete_eq|by rewrite lookup_delete_ne].
    - case_decide as Hn; [subst n|done]. destruct (ns_nodes st !! nodeID) as [r|] eqn:Hr; [|done].
      destruct (Hmem _ _ Hr) as (i & Hi & Hn & _). by destruct (He _ i Hi). }
  split; simpl.
  - intros n r. rewrite Hnodes. case_decide as Hn; [done|]. intros (i & Hi & Hni & Ha)%Hmem.
    exists i. rewrite Hfs. case_decide as Hf; [|done]. subst found. destruct He as (i' & Hi' & Hn').
    congruence.
  - intros id i. rewrite Hfs. case_decide as Hf; [done|]. intros Hi. rewrite Hnodes.
    case_decide as Hn; [|by apply Hst]. destruct found as [id'|]; [|by destruct (He id i Hi)].
    destruct He as (i' & Hi' & Hn'). destruct Hf. f_equal. eapply (mo_nodes _ Hm); [done..|congruence].
  - intros u. unfold remove_user. rewrite each_delete_lookup, (without_node_home nodeID found m u Hm He), Hus.
    by apply decide_ext, released_elem.
  - intros g o p. rewrite remove_involving_lookup, Hsh. simpl.
    rewrite (without_node_visible nodeID found m g o p Hm He).
    by rewrite !(released_elem m nodeID found _ Hm He).
Qed.

(** ** The undo of a failed deregistration *)

Definition put_back {V} (prev : gmap string V) (u : string) (m : gmap string V) : gmap string V :=
  from_option (λ v, <[u := v]> m) m (prev !! u).

Lemma each_put_back {V} (prev : gmap string V) us m q :
  (∀ q, m !! q = None ∨ m !! q = prev !! q) → (q ∉ us → m !! q = prev !! q) →
  each (put_back prev) us m !! q = prev !! q.
Proof.
  revert m. induction us as [|u us IH]; intros m Hm Hq; [apply Hq; set_solver|].
  apply (IH (put_back prev u m)).
  - intros q'. unfold put_back. destruct (prev !! u) as [v|] eqn:Hu; simpl; [|apply Hm].
    destruct (decide (q' = u)) as [->|]; [right; by rewrite lookup_insert_eq|].
    rewrite lookup_insert_ne by done. apply Hm.
  - intros Hn. unfold put_back. destruct (decide (q = u)) as [->|Hne].
    + destruct (prev !! u) as [v|] eqn:Hu; simpl; [by rewrite lookup_insert_eq|].
      destruct (Hm u) as [?|?]; congruence.
    + destruct (prev !! u) as [v|] eqn:Hu; simpl; [rewrite lookup_insert_ne by done|]; apply Hq; set_solver.
Qed.

Lemma restore_users_eq prev removed m :
  restore_users prev removed m
  = mkMetaServer (fileservers m) (each (put_back (users prev)) removed (users m)) (shared m)
      (each (put_back (orphanedUsers prev)) removed (orphanedUsers m))
      (allowUserPurge m) (heartbeatTimeout m) (heartbeatCheckInterval m).
Proof.
  unfold restore_users.
  assert (∀ us m, each (λ u, set_orphans (λ os, from_option (λ home, <[u := home]> os) os (orphanedUsers prev !! u))) us m
    = set_orphans (each (put_back (orphanedUsers prev)) us) m) as ->.
  { clear m. intros us. induction us as [|u us IH]; intros m; [by destruct m|].
    exact (IH (set_orphans (put_back (orphanedUsers prev) u) m)). }
  assert (∀ us m, each (λ u, set_users (λ us, from_option (λ id, <[u := id]> us) us (users prev !! u))) us m
    = set_users (each (put_back (users prev)) us) m) as ->; [|done].
  clear m. intros us. induction us as [|u us IH]; intros m; [by destruct m|].
  exact (IH (set_users (put_back (users prev) u) m)).
Qed.

(** The undo gives the memory back as it was. *)
Lemma undo_deregister nodeID found m :
  mem_ok m → entry_of m nodeID found →
  set_shared (λ _, shared m)
    (restore_users m (released_users m nodeID found)
      (from_option (λ kv, set_fileservers <[kv.1 := kv.2]>) id
         (fsID ← found; info ← fileservers m !! fsID; Some (fsID, info))
         (without_node nodeID found m))) = m.
Proof.
  intros Hm He. rewrite restore_users_eq. set (l := released_users m nodeID found).
  assert (∀ (V : Type) (prev : gmap string V),
    each (put_back prev) l (each (λ u, delete u) l prev) = prev) as Hback.
  { intros V prev. apply map_eq. intros q. apply each_put_back; intros; rewrite each_delete_lookup;
      case_decide; auto; done. }
  unfold without_node. fold l. rewrite each_release.
  destruct found as [fsID|]; simpl.
  - destruct He as (i & Hi & Hn). rewrite Hi. simpl. rewrite !Hback.
    rewrite insert_delete_id by done. by destruct m.
  - rewrite !Hback. by destruct m.
Qed.

Lemma without_nobody nodeID m : released_users m nodeID None = [] → without_node nodeID None m = m.
Proof. unfold without_node. intros ->. by destruct m. Qed.

Lemma DeregisterFileServer_wp range fsId address w :
  (∀ fs, range fs ≡ₚ map_to_list fs) → agree view w →
  let '(nodeID, found) := deregister_target range (ms w) fsId address in
  wp (DeregisterFileServer range fsId address)
    (λ _ w', agree view w' ∧ ms w' = without_node nodeID found (ms w))
    (λ _ w', ms w' = ms w ∧ fewer (view (store w)) (view (store w'))) w.
Proof.
  intros Hrange Hagree. pose proof Hagree as (Hm & Hco & Hok).
  pose proof (target_entry range (ms w) fsId address Hrange Hm) as He.
  unfold DeregisterFileServer.
  destruct (deregister_target range (ms w) fsId address) as [nodeID found] eqn:Ht.
  destruct (String.eqb fsId "" && String.eqb address ""); [by apply wp_throw|].
  wp_step. wp_step. rewrite Ht. set (l := released_users (ms w) nodeID found).
  destruct (bool_decide (found = None) && bool_decide (l = [])) eqn:Hnone.
  { apply andb_prop in Hnone as [->%bool_decide_eq_true Hl%bool_decide_eq_true].
    apply wp_ret. split; [done|]. by rewrite without_nobody. }
  wp_step. apply on_ms_wp. wp_step.
  eapply (wp_mono _ (λ _ w1, w1 = mkWorld (without_node nodeID found (ms w)) (store w)) _ (λ _ _, False));
    [|intros [] w1 ->|done].
  { destruct found as [id|]; [by apply on_ms_wp|]. apply wp_ret. unfold without_node. fold l.
    simpl. rewrite each_release. done. }
  wp_step. wp_step.
  pose proof (deregister_writes_wp nodeID found l (store w) Hok) as Hw. unfold wp, on_store in *.
  simpl in *. destruct (deregister_writes _ _ _ _) as [s' [a|e|y]]; simpl; [| |done].
  - split; [|done]. unfold agree. simpl. rewrite Hw. split_and!.
    + by apply without_node_mem_ok.
    + by apply without_node_coherent.
    + destruct Hok as [Hn Hs]. split; simpl.
      * destruct found; [by apply nodes_ok_delete|done].
      * apply (shares_ok_filter _ _ Hs).
  - pose proof (undo_deregister nodeID found (ms w) Hm He) as Hundo. fold l in Hundo.
    destruct found as [id|]; simpl in *.
    + destruct He as (i & Hi & _). rewrite Hi in *. simpl in *. by rewrite Hundo.
    + by rewrite Hundo.
Qed.

(** [DeregisterFileServer] that succeeds has removed the node it names, by identity
    if the request gives one, and exactly the users whose home it was, routed or
    orphaned, with every share they gave or received, in memory and in the store; when
    nothing matches it changes nothing.  A failure, of the request or of the store,
    leaves the memory as it was, and in the store the nodes and at most fewer users and
    shares. *)
Theorem DeregisterFileServer_correct range fsId address w :
  (∀ fs, range fs ≡ₚ map_to_list fs) → agree view w →
  let '(nodeID, found) := deregister_target range (ms w) fsId address in
  match DeregisterFileServer range fsId address w with
  | (w', Ok _) =>
      agree view w' ∧ entry_of (ms w) nodeID found
      ∧ (∀ id, fileservers (ms w') !! id
           = if decide (found = Some id) then None else fileservers (ms w) !! id)
      ∧ (∀ u, home (ms w') u
           = if decide (home (ms w) u = Some nodeID) then None else home (ms w) u)
      ∧ ∀ g o p, visible (ms w') g o p ↔
          visible (ms w) g o p ∧ home (ms w) g ≠ Some nodeID ∧ home (ms w) o ≠ Some nodeID
  | (w', Err _) => ms w' = ms w ∧ fewer (view (store w)) (view (store w'))
  | (_, Panic _) => False
  end.
Proof.
  intros Hrange Hagree. pose proof (DeregisterFileServer_wp range fsId address w Hrange Hagree) as Hwp.
  destruct Hagree as (Hm & _). pose proof (target_entry range (ms w) fsId address Hrange Hm) as He.
  destruct (deregister_target range (ms w) fsId address) as [nodeID found].
  unfold wp in Hwp. destruct (DeregisterFileServer _ _ _ _) as [w' [a|e|y]]; [|done..].
  destruct Hwp as [Hagree' ->]. split_and!; [done|exact He|apply without_node_fs| |].
  - intros u. by apply without_node_home.
  - intros g o p. by apply without_node_visible.
Qed.
End spec.
