(* ===== verification/MetaRegister.v ===== *)
(** * Registration of nodes

    [RegisterFileServer] of internal/metaserver/handler.go: what the commit in memory
    and the writes to the store make of the tables, that they make the same of both, and
    that a registration the metaserver refuses changes nothing. *)
From S2P Require Import Prelude GoStd Storage Metaserver MetaSpec MetaNodes.

(** ** The steps of the commit *)

Section commit.
Context (nodeID : string) (fsID : Z).

Lemma each_claim_spec l m :
  let m' := each (claim_orphan nodeID fsID) l m in
  fileservers m' = fileservers m
  ∧ (∀ u, users m' !! u = if decide ((u, nodeID) ∈ l) then Some fsID else users m !! u)
  ∧ (∀ u, orphanedUsers m' !! u = if decide ((u, nodeID) ∈ l) then None else orphanedUsers m !! u)
  ∧ (∀ g, shared_of m' g = shared_of m g)
  ∧ allowUserPurge m' = allowUserPurge m ∧ heartbeatTimeout m' = heartbeatTimeout m.
Proof.
  revert m. induction l as [|[v h] l IH]; intros m.
  { split_and!; try done; intros u; by case_decide as H; [apply elem_of_nil in H|]. }
  destruct (IH (claim_orphan nodeID fsID (v, h) m)) as (H1 & H2 & H3 & H4 & H5 & H6).
  change (each (claim_orphan nodeID fsID) ((v, h) :: l) m)
    with (each (claim_orphan nodeID fsID) l (claim_orphan nodeID fsID (v, h) m)).
  cbv zeta. rewrite H1, H5, H6. unfold claim_orphan in *. simpl in *.
  destruct (String.eqb_spec h nodeID) as [->|Hne]; simpl in *; split_and!; try done.
  - intros u. rewrite H2. destruct (decide (u = v)) as [->|Huv].
    + rewrite lookup_insert_eq. rewrite (decide_True (P := (v, nodeID) ∈ (v, nodeID) :: l)) by set_solver.
      by case_decide.
    + rewrite lookup_insert_ne by done. apply decide_ext. set_solver.
  - intros u. rewrite H3. destruct (decide (u = v)) as [->|Huv].
    + rewrite lookup_delete_eq. rewrite (decide_True (P := (v, nodeID) ∈ (v, nodeID) :: l)) by set_solver.
      by case_decide.
    + rewrite lookup_delete_ne by done. apply decide_ext. set_solver.
  - intros g. rewrite H4. apply lookup_ensure.
  - intros u. rewrite H2. apply decide_ext. set_solver.
  - intros u. rewrite H3. apply decide_ext. set_solver.
Qed.

Lemma each_assign_spec l m :
  let m' := each (assign_incoming fsID) l m in
  fileservers m' = fileservers m ∧ orphanedUsers m' = orphanedUsers m
  ∧ (∀ u, users m' !! u = if decide (u ∈ l) then Some fsID else users m !! u)
  ∧ (∀ g k, k ∈ entry_key <$> shared_of m' g ↔ k ∈ entry_key <$> shared_of m g ∧ k.1 ∉ l)
  ∧ (∀ g, NoDup (entry_key <$> shared_of m g) → NoDup (entry_key <$> shared_of m' g)).
Proof.
  revert m. induction l as [|v l IH]; intros m.
  { split_and!; try done. set_solver. }
  destruct (IH (assign_incoming fsID v m)) as (H1 & H2 & H3 & H4 & H5).
  change (each (assign_incoming fsID) (v :: l) m) with (each (assign_incoming fsID) l (assign_incoming fsID v m)).
  assert (∀ g, shared_of (assign_incoming fsID v m) g
    = List.filter (λ s, negb (String.eqb (seOwner s) v)) (shared_of m g)) as Hsh.
  { intros g. unfold shared_of, assign_incoming. simpl. etrans; [apply lookup_by_owner|].
    by rewrite lookup_ensure. }
  cbv zeta. rewrite H1, H2. split_and!; try done.
  - intros u. rewrite H3. simpl. destruct (decide (u = v)) as [->|Huv].
    + rewrite lookup_insert_eq, (decide_True (P := v ∈ v :: l)) by set_solver. by case_decide.
    + rewrite lookup_insert_ne by done. apply decide_ext. set_solver.
  - intros g k. rewrite H4, Hsh, by_owner_keys. set_solver.
  - intros g Hg. apply H5. rewrite Hsh. by apply filter_NoDup.
Qed.

Definition grant_key (g : ShareRecord) : shareKey := (Grantee g, Owner g, Path g).

Lemma publish_one_keys gr sh g o p :
  (o, p) ∈ entry_key <$> lookup_shared (publish_grant gr sh) g
  ↔ (g, o, p) = grant_key gr ∨ (o, p) ∈ entry_key <$> lookup_shared sh g.
Proof.
  unfold publish_grant, grant_key. rewrite <-(lookup_ensure (Grantee gr) sh g).
  generalize (ensure_shared (Grantee gr) sh) as sh'. intros sh'.
  change (default [] (sh' !! Grantee gr)) with (lookup_shared sh' (Grantee gr)).
  destruct (containsShare _ _ _) eqn:Hc.
  - apply containsShare_spec in Hc. naive_solver.
  - rewrite lookup_add. case_decide as Hg; [|naive_solver].
    rewrite fmap_app, elem_of_app. simpl. rewrite list_elem_of_singleton.
    unfold entry_key at 2. simpl. naive_solver.
Qed.

Lemma publish_one_dup gr sh g :
  NoDup (entry_key <$> lookup_shared sh g) →
  NoDup (entry_key <$> lookup_shared (publish_grant gr sh) g).
Proof.
  unfold publish_grant. rewrite <-(lookup_ensure (Grantee gr) sh g).
  generalize (ensure_shared (Grantee gr) sh) as sh'. intros sh' Hd.
  change (default [] (sh' !! Grantee gr)) with (lookup_shared sh' (Grantee gr)).
  destruct (containsShare _ _ _) eqn:Hc; [done|]. rewrite lookup_add. case_decide as Hg; [|done].
  rewrite fmap_app. apply NoDup_app. split_and!; [done| |apply NoDup_singleton].
  subst g. intros k Hk ->%list_elem_of_singleton.
  apply not_true_iff_false in Hc. apply Hc, containsShare_spec, Hk.
Qed.

Lemma publish_keys gs sh g o p :
  (o, p) ∈ entry_key <$> lookup_shared (each publish_grant gs sh) g
  ↔ (g, o, p) ∈ grant_key <$> gs ∨ (o, p) ∈ entry_key <$> lookup_shared sh g.
Proof.
  revert sh. induction gs as [|gr gs IH]; intros sh; [set_solver|].
  change (each publish_grant (gr :: gs) sh) with (each publish_grant gs (publish_grant gr sh)).
  rewrite IH, publish_one_keys, fmap_cons, elem_of_cons. tauto.
Qed.

Lemma publish_dup gs sh g :
  NoDup (entry_key <$> lookup_shared sh g) →
  NoDup (entry_key <$> lookup_shared (each publish_grant gs sh) g).
Proof.
  revert sh. induction gs as [|gr gs IH]; intros sh Hd; [done|].
  apply (IH (publish_grant gr sh)). by apply publish_one_dup.
Qed.

(** The grants hold normalised paths. *)
Lemma grants_normal incoming dirs :
  shared_key <$> grants_of incoming dirs = grant_key <$> grants_of incoming dirs.
Proof.
  apply list_fmap_ext. intros i g Hg%list_elem_of_lookup_2. unfold shared_key, grant_key.
  assert (NormalizeSharePath (Path g) = Path g) as ->; [|done].
  unfold grants_of in Hg. apply list_elem_of_In, in_flat_map in Hg as (d & _ & Hg).
  destruct (contains (sdOwner d) incoming); [|done].
  apply list_elem_of_In, list_elem_of_fmap in Hg as (u & -> & _). apply normal_idem.
Qed.

(** ** What the commit leaves *)

(** Nobody in the request belongs to another node. *)
Definition claimable (m : MetaServer) (incoming : list string) : Prop :=
  ∀ u, u ∈ incoming →
    (users m !! u = None ∨ users m !! u = Some fsID)
    ∧ (orphanedUsers m !! u = None ∨ orphanedUsers m !! u = Some nodeID).

(** The invariant while a node is being registered: its orphans are still there. *)
Record mem_pre (m : MetaServer) : Prop := {
  mp_ids id i : fileservers m !! id = Some i → fiNodeID i ≠ "";
  mp_nodes id id' i i' : fileservers m !! id = Some i → fileservers m !! id' = Some i' →
    fiNodeID i = fiNodeID i' → id = id';
  mp_users u id : users m !! u = Some id → is_Some (fileservers m !! id);
  mp_orphans u h : orphanedUsers m !! u = Some h → users m !! u = None;
  mp_homes u h : orphanedUsers m !! u = Some h →
    h ≠ "" ∧ (h = nodeID ∨ ∀ id i, fileservers m !! id = Some i → fiNodeID i ≠ h);
  mp_count id i : id ≠ fsID → fileservers m !! id = Some i →
    fiUserCount i = countUsersForFileServerLocked m id;
  mp_dup g : NoDup (entry_key <$> shared_of m g);
  mp_node : ∃ i, fileservers m !! fsID = Some i ∧ fiNodeID i = nodeID }.

(** The users and shares after a commit from [m]. *)
Record committed (missing incoming : list string) (gs : list ShareRecord) (m m' : MetaServer) : Prop := {
  cm_nodes id : id ≠ fsID → fileservers m' !! id = fileservers m !! id;
  cm_node i : fileservers m !! fsID = Some i →
    fileservers m' !! fsID = Some (set_fiUserCount (countUsersForFileServerLocked m' fsID) i);
  cm_users u : users m' !! u =
    if decide (u ∈ incoming ∨ orphanedUsers m !! u = Some nodeID) then Some fsID
    else if decide (u ∈ missing) then None else users m !! u;
  cm_orphans u : orphanedUsers m' !! u =
    if decide (orphanedUsers m !! u = Some nodeID) then None else orphanedUsers m !! u;
  cm_visible g o p : visible m' g o p ↔
    (g, o, p) ∈ grant_key <$> gs
    ∨ visible m g o p ∧ g ∉ missing ∧ o ∉ missing ∧ o ∉ incoming;
  cm_dup g : NoDup (entry_key <$> shared_of m g) → NoDup (entry_key <$> shared_of m' g) }.

(** The commit without its first step. *)
Definition commit_rest (req : RegisterRequest) (missing incoming : list string) (m : MetaServer) :=
  let m := each purge_user missing m in
  let m := each (claim_orphan nodeID fsID) (map_to_list (orphanedUsers m)) m in
  let m := each (assign_incoming fsID) incoming m in
  let m := set_shared (each publish_grant (grants_of incoming (rqShared req))) m in
  set_fileservers (alter (set_fiUserCount (countUsersForFileServerLocked m fsID)) fsID) m.

Lemma commit_rest_spec req missing incoming m :
  committed missing incoming (grants_of incoming (rqShared req)) m (commit_rest req missing incoming m).
Proof.
  unfold commit_rest. rewrite each_purge. set (m1 := mkMetaServer _ _ _ _ _ _ _). cbv zeta.
  destruct (each_claim_spec (map_to_list (orphanedUsers m1)) m1) as (Hf2 & Hu2 & Ho2 & Hs2 & _).
  set (m2 := each (claim_orphan nodeID fsID) _ m1) in *.
  destruct (each_assign_spec incoming m2) as (Hf3 & Ho3 & Hu3 & Hs3 & Hd3).
  set (m3 := each (assign_incoming fsID) incoming m2) in *.
  assert (∀ u, (u, nodeID) ∈ map_to_list (orphanedUsers m1) ↔ orphanedUsers m !! u = Some nodeID) as Horph
    by (intros u; apply elem_of_map_to_list).
  split; simpl.
  - intros id Hid. rewrite lookup_alter_ne by congruence. by rewrite Hf3, Hf2.
  - intros i Hi. rewrite lookup_alter_eq, Hf3, Hf2. simpl. rewrite Hi. done.
  - intros u. rewrite Hu3, Hu2. simpl. rewrite each_delete_lookup.
    rewrite (decide_ext _ _ _ _ (Horph u)).
    destruct (decide (u ∈ incoming)) as [Hin|Hin].
    { by rewrite decide_True by auto. }
    destruct (decide (orphanedUsers m !! u = Some nodeID)) as [Ho|Ho].
    + by rewrite decide_True by auto.
    + rewrite (decide_False (P := u ∈ incoming ∨ _)) by tauto. done.
  - intros u. rewrite Ho3, Ho2. apply (decide_ext _ _ _ _ (Horph u)).
  - intros g o p. unfold visible. etrans; [apply publish_keys|]. fold (shared_of m3 g). 
    change (lookup_shared (shared m3) g) with (shared_of m3 g). rewrite Hs3, Hs2.
    unfold m1, shared_of at 1. simpl. rewrite (drop_shares_keys missing (shared m) g (o, p)). tauto.
  - intros g Hg. apply publish_dup. change (lookup_shared (shared m3) g) with (shared_of m3 g).
    apply Hd3. rewrite Hs2. by apply drop_shares_dup.
Qed.
End commit.

(** ** The commit keeps the invariant *)

Section committed.
Context (nodeID : string) (fsID : Z) (missing incoming : list string) (gs : list ShareRecord).
Context (m m' : MetaServer) (Hpre : mem_pre nodeID fsID m)
  (Hcm : committed nodeID fsID missing incoming gs m m').
Hypothesis Hclaim : claimable nodeID fsID m incoming.
Hypothesis Hmiss : ∀ u, u ∈ missing → users m !! u = Some fsID ∧ u ∉ incoming.

Lemma committed_back id i' :
  fileservers m' !! id = Some i' →
  ∃ i, fileservers m !! id = Some i ∧ fiNodeID i = fiNodeID i' ∧ fiAddress i = fiAddress i'.
Proof.
  intros Hi'. destruct (decide (id = fsID)) as [->|Hid].
  - destruct (mp_node _ _ _ Hpre) as (i & Hi & Hn). exists i. split; [done|].
    rewrite (cm_node _ _ _ _ _ _ _ Hcm i Hi) in Hi'. by injection Hi' as <-.
  - rewrite (cm_nodes _ _ _ _ _ _ _ Hcm id Hid) in Hi'. by exists i'.
Qed.

Lemma committed_fwd id i :
  fileservers m !! id = Some i →
  ∃ i', fileservers m' !! id = Some i' ∧ fiNodeID i' = fiNodeID i ∧ fiAddress i' = fiAddress i.
Proof.
  intros Hi. destruct (decide (id = fsID)) as [->|Hid].
  - eexists. split; [by apply (cm_node _ _ _ _ _ _ _ Hcm)|done].
  - exists i. by rewrite (cm_nodes _ _ _ _ _ _ _ Hcm).
Qed.

(** Users of other nodes stay where they are. *)
Lemma committed_other u id :
  id ≠ fsID → users m' !! u = Some id ↔ users m !! u = Some id.
Proof.
  intros Hid. rewrite (cm_users _ _ _ _ _ _ _ Hcm). case_decide as Hc.
  - split; [congruence|]. intros Hu. destruct Hc as [Hin|Ho].
    + destruct (Hclaim u Hin) as [[?|?] _]; congruence.
    + rewrite (mp_orphans _ _ _ Hpre u _ Ho) in Hu. done.
  - case_decide as Hm; [|done]. split; [done|]. intros Hu. apply Hmiss in Hm as [Hm _]. congruence.
Qed.

Lemma committed_mem_ok : mem_ok m'.
Proof.
  pose proof (cm_users _ _ _ _ _ _ _ Hcm) as Hus. pose proof (cm_orphans _ _ _ _ _ _ _ Hcm) as Hos.
  split.
  - intros id i' (i & Hi & <- & _)%committed_back. by apply (mp_ids _ _ _ Hpre id).
  - intros id1 id2 i1 i2 (j1 & H1 & <- & _)%committed_back (j2 & H2 & <- & _)%committed_back.
    by apply (mp_nodes _ _ _ Hpre).
  - intros u id Hu. assert (is_Some (fileservers m !! id)) as [i Hi].
    { rewrite Hus in Hu. case_decide; [|case_decide; [done|by apply (mp_users _ _ _ Hpre u)]].
      injection Hu as <-. destruct (mp_node _ _ _ Hpre) as (i & Hi & _). by exists i. }
    destruct (committed_fwd id i Hi) as (i' & Hi' & _). by exists i'.
  - intros u h. rewrite Hos, Hus. case_decide as Ho; [done|]. intros Hu.
    pose proof (mp_orphans _ _ _ Hpre u h Hu) as Hn. rewrite decide_False; [by case_decide|].
    intros [Hin|?]; [|done]. destruct (Hclaim u Hin) as [_ [?|?]]; congruence.
  - intros u h. rewrite Hos. case_decide as Ho; [done|]. intros Hu.
    destruct (mp_homes _ _ _ Hpre u h Hu) as [Hne [->|Hh]]; [done|]. split; [done|].
    intros id i' (i & Hi & <- & _)%committed_back. by apply (Hh id).
  - intros id i' Hi'. destruct (decide (id = fsID)) as [->|Hid].
    + destruct (mp_node _ _ _ Hpre) as (i & Hi & _).
      rewrite (cm_node _ _ _ _ _ _ _ Hcm i Hi) in Hi'. by injection Hi' as <-.
    + rewrite (cm_nodes _ _ _ _ _ _ _ Hcm id Hid) in Hi'.
      rewrite (mp_count _ _ _ Hpre id i' Hid Hi'). apply count_ext. intros u. by rewrite committed_other.
  - intros g. apply (cm_dup _ _ _ _ _ _ _ Hcm), (mp_dup _ _ _ Hpre).
Qed.

Lemma committed_home u :
  home m' u = if decide (u ∈ incoming) then Some nodeID
    else if decide (u ∈ missing) then None else home m u.
Proof.
  destruct (mp_node _ _ _ Hpre) as (i & Hi & Hn).
  destruct (committed_fwd fsID i Hi) as (i' & Hi' & Hn' & _).
  unfold home. rewrite (cm_users _ _ _ _ _ _ _ Hcm), (cm_orphans _ _ _ _ _ _ _ Hcm).
  destruct (decide (u ∈ incoming)) as [Hin|Hin].
  { rewrite decide_True by auto. rewrite Hi'. simpl. congruence. }
  destruct (decide (orphanedUsers m !! u = Some nodeID)) as [Ho|Ho].
  - rewrite decide_True by auto. rewrite Hi', (mp_orphans _ _ _ Hpre u _ Ho), Ho. simpl.
    rewrite decide_False; [congruence|]. intros [Hu _]%Hmiss.
    rewrite (mp_orphans _ _ _ Hpre u _ Ho) in Hu. done.
  - rewrite (decide_False (P := u ∈ incoming ∨ _)) by tauto. case_decide as Hm.
    + apply Hmiss in Hm as [Hm _]. destruct (orphanedUsers m !! u) as [h|] eqn:Hh; [|done].
      rewrite (mp_orphans _ _ _ Hpre u _ Hh) in Hm. done.
    + destruct (users m !! u) as [id|] eqn:Hu; [|done].
      destruct (mp_users _ _ _ Hpre u id Hu) as [j Hj].
      destruct (committed_fwd id j Hj) as (j' & Hj' & Hjn & _). rewrite Hj, Hj'. simpl. congruence.
Qed.

(** What the writes make of the tables. *)
Definition registered_stored (st : meta_state) : meta_state :=
  mkMetaState (ns_nodes st)
    (each assign_user ((λ u, mkUserRecord u nodeID) <$> incoming) (each remove_user missing (ns_users st)))
    (each add_share gs (remove_by_owner incoming (remove_involving missing (ns_shares st)))).

Lemma committed_coherent st :
  shared_key <$> gs = grant_key <$> gs → coherent m st → coherent m' (registered_stored st).
Proof.
  intros Hgs [Hmem Hst Hus Hsh]. split; simpl.
  - intros n r (i & Hi & Hn & Ha)%Hmem. destruct (committed_fwd _ _ Hi) as (i' & Hi' & Hn' & Ha').
    exists i'. split_and!; [done|congruence|congruence].
  - intros id i' (i & Hi & <- & _)%committed_back. by apply Hst.
  - intros u. unfold remove_user. rewrite each_assign_const, each_delete_lookup, Hus.
    symmetry. apply committed_home.
  - intros g o p. rewrite each_add_share_lookup, remove_by_owner_lookup, remove_involving_lookup.
    rewrite Hgs, Hsh, (cm_visible _ _ _ _ _ _ _ Hcm). simpl. tauto.
Qed.
End committed.

(** ** The writes *)

Section spec.
Context {S : Type} `{HM : MetaStore S} (view : S → meta_state) `{HL : !MetaStoreLaws view}.

Definition rehomed (adoptFrom : option string) (nodeID : string) (us : gmap string string) :=
  from_option (λ old, rehome old nodeID us) us adoptFrom.

(** Memory and store when the registration can no longer be refused: they agree but for
    the node itself, which the store has under its old identity. *)
Record ready (adoptFrom : option string) (nodeID : string) (fsID : Z) (m : MetaServer)
    (st : meta_state) : Prop := {
  rd_pre : mem_pre nodeID fsID m;
  rd_node : ∃ r, ns_nodes st !! default nodeID adoptFrom = Some r ∧ NumericID r = fsID;
  rd_fresh old : adoptFrom = Some old → old ≠ nodeID ∧ ns_nodes st !! nodeID = None;
  rd_memory n r : ns_nodes st !! n = Some r → n ≠ default nodeID adoptFrom →
    ∃ i, fileservers m !! NumericID r = Some i ∧ fiNodeID i = n ∧ fiAddress i = Address r;
  rd_store id i : id ≠ fsID → fileservers m !! id = Some i →
    fiNodeID i ≠ default nodeID adoptFrom ∧
    ∃ r, ns_nodes st !! fiNodeID i = Some r ∧ NumericID r = id;
  rd_users u : rehomed adoptFrom nodeID (ns_users st) !! u = home m u;
  rd_shares g o p : is_Some (ns_shares st !! (g, o, p)) ↔ visible m g o p }.

Section claim.
Context (nodeID address : string) (fsID heartbeat : Z) (m : MetaServer).
Hypothesis Hpre : mem_pre nodeID fsID m.
#[local] Abbreviation claimed := (claim_node nodeID address fsID heartbeat m).

Lemma claimed_fs id : fileservers claimed !! id =
  if decide (id = fsID) then Some (mkInfo nodeID address
    (from_option fiUserCount 0 (fileservers m !! fsID)) heartbeat FileServerStatusHealthy)
  else fileservers m !! id.
Proof.
  simpl. case_decide as Hid; [by rewrite Hid, lookup_insert_eq|by rewrite lookup_insert_ne].
Qed.

Lemma claimed_name id : fiNodeID <$> fileservers claimed !! id = fiNodeID <$> fileservers m !! id.
Proof.
  rewrite claimed_fs. case_decide as Hid; [|done]. subst id.
  destruct (mp_node _ _ _ Hpre) as (i & -> & Hn). simpl. by rewrite Hn.
Qed.

Lemma claimed_some id i : fileservers claimed !! id = Some i →
  ∃ i0, fileservers m !! id = Some i0 ∧ fiNodeID i0 = fiNodeID i.
Proof.
  intros Hi. pose proof (claimed_name id) as Hn. rewrite Hi in Hn. simpl in Hn.
  symmetry in Hn. apply fmap_Some in Hn as (i0 & Hi0 & He). by exists i0.
Qed.

Lemma claimed_home u : home claimed u = home m u.
Proof.
  unfold home. change (users claimed) with (users m).
  change (orphanedUsers claimed) with (orphanedUsers m).
  destruct (users m !! u); [apply claimed_name|done].
Qed.

Lemma claimed_pre : mem_pre nodeID fsID claimed.
Proof.
  split.
  - intros id i (i0 & Hi0 & <-)%claimed_some. by apply (mp_ids _ _ _ Hpre id).
  - intros id1 id2 i1 i2 (j1 & H1 & <-)%claimed_some (j2 & H2 & <-)%claimed_some.
    by apply (mp_nodes _ _ _ Hpre).
  - intros u id [i Hi]%(mp_users _ _ _ Hpre u). pose proof (claimed_name id) as Hn.
    rewrite Hi in Hn. apply fmap_Some in Hn as (i' & Hi' & _). by exists i'.
  - apply (mp_orphans _ _ _ Hpre).
  - intros u h [Hne Hh]%(mp_homes _ _ _ Hpre u). split; [done|].
    destruct Hh as [?|Hh]; [by left|right]. intros id i (i0 & Hi0 & <-)%claimed_some. by apply (Hh id).
  - intros id i Hid. rewrite claimed_fs, decide_False by done. apply (mp_count _ _ _ Hpre id i Hid).
  - apply (mp_dup _ _ _ Hpre).
  - eexists. split; [by rewrite claimed_fs, decide_True|done].
Qed.

(** The tables once the node has its record. *)
Lemma claimed_coherent adoptFrom st st' r :
  ready adoptFrom nodeID fsID m st →
  NumericID r = fsID → Address r = address →
  (∀ n, ns_nodes st' !! n = if decide (n = nodeID) then Some r
     else if decide (n = default nodeID adoptFrom) then None else ns_nodes st !! n) →
  ns_users st' = rehomed adoptFrom nodeID (ns_users st) → ns_shares st' = ns_shares st →
  coherent claimed st'.
Proof.
  intros Hrd Hid Ha Hnodes Hus Hsh. split.
  - intros n r'. rewrite Hnodes. case_decide as Hn.
    + intros [= <-]. rewrite Hid, claimed_fs, decide_True by done. eexists. split; [done|]. simpl. auto.
    + case_decide as Ho; [done|]. intros Hr'.
      destruct (rd_memory _ _ _ _ _ Hrd n r' Hr' Ho) as (i & Hi & Hni & Hai). exists i.
      rewrite claimed_fs, decide_False; [done|]. intros He.
      destruct (mp_node _ _ _ Hpre) as (j & Hj & Hjn). congruence.
  - intros id i Hi. rewrite Hnodes. destruct (decide (id = fsID)) as [->|Hne].
    + rewrite claimed_fs, decide_True in Hi by done. injection Hi as <-. simpl.
      rewrite decide_True by done. by exists r.
    + rewrite claimed_fs, decide_False in Hi by done.
      destruct (rd_store _ _ _ _ _ Hrd id i Hne Hi) as (Hno & r' & Hr' & Hid').
      rewrite decide_False, decide_False by
        first [done|intros Hn; destruct (mp_node _ _ _ Hpre) as (j & Hj & Hjn);
               by apply Hne, (mp_nodes _ _ _ Hpre id fsID i j); [..|congruence]].
      by exists r'.
  - intros u. rewrite Hus, claimed_home. apply (rd_users _ _ _ _ _ Hrd).
  - intros g o p. rewrite Hsh. apply (rd_shares _ _ _ _ _ Hrd).
Qed.
End claim.

Lemma upserted_known rec fresh nodes r :
  nodes !! NodeID rec = Some r → NumericID (upserted rec fresh nodes) = NumericID r.
Proof. intros Hr. unfold upserted. by rewrite Hr. Qed.

Lemma node_write_wp adoptFrom nodeID address fsID heartbeat m s :
  state_ok (view s) → ready adoptFrom nodeID fsID m (view s) →
  wp (node_write adoptFrom nodeID address heartbeat)
    (λ _ s', coherent (claim_node nodeID address fsID heartbeat m) (view s') ∧ state_ok (view s'))
    (λ _ _, True) s.
Proof.
  intros Hok Hrd. pose proof (rd_node _ _ _ _ _ Hrd) as (r & Hr & Hid).
  set (rec := mkFileServerRecord nodeID 0 address heartbeat FileServerStatusHealthy).
  assert (∀ s1, state_ok (view s1) →
    (∃ r1, ns_nodes (view s1) !! nodeID = Some r1 ∧ NumericID r1 = fsID) →
    (∀ n, n ≠ nodeID → ns_nodes (view s1) !! n =
       if decide (n = default nodeID adoptFrom) then None else ns_nodes (view s) !! n) →
    ns_users (view s1) = rehomed adoptFrom nodeID (ns_users (view s)) →
    ns_shares (view s1) = ns_shares (view s) →
    wp (UpsertFileServer rec ;; mret tt)
      (λ _ s', coherent (claim_node nodeID address fsID heartbeat m) (view s') ∧ state_ok (view s'))
      (λ _ _, True) s1) as Hup.
  { intros s1 Hok1 (r1 & Hr1 & Hid1) Hnodes Hus Hsh. apply wp_bind.
    eapply (write_wp view); [apply (law_upsert view)|done| |done].
    intros n s2 [fresh ->] Hv. apply wp_ret. rewrite Hv.
    split; [|apply state_ok_nodes; [apply nodes_ok_insert, upserted_NodeID|done]].
    apply (claimed_coherent nodeID address fsID heartbeat m (rd_pre _ _ _ _ _ Hrd) adoptFrom (view s) _
      (upserted rec (NumericID (upserted rec fresh (ns_nodes (view s1)))) (ns_nodes (view s1)))); try done.
    - etrans; [by apply (upserted_known rec _ _ r1)|done].
    - intros n. simpl. case_decide as Hn; [by rewrite Hn, lookup_insert_eq|].
      rewrite lookup_insert_ne by done. by apply Hnodes. }
  unfold node_write. fold rec. apply wp_bind. destruct adoptFrom as [old|]; simpl in *.
  2:{ apply wp_ret, Hup; [done|by exists r| |done|done]. intros n Hn. by rewrite decide_False. }
  destruct (rd_fresh _ _ _ _ _ Hrd old eq_refl) as [Hne Hnone].
  assert (wp (RenameFileServer old nodeID) (λ _ s1, view s1 = rename old nodeID (view s))
    (λ e _, errors_Is e ErrNotFound = false) s) as Hren.
  { pose proof (law_rename view old nodeID s Hok) as Hw. unfold wp in Hw |- *.
    destruct (RenameFileServer old nodeID s) as [s1 [a|e|y]] eqn:Hrun; [by destruct Hw| |done].
    destruct (errors_Is e ErrNotFound) eqn:He; [|done].
    pose proof (law_rename_absent view old nodeID s s1 e Hrun He). congruence. }
  apply wp_bind, wp_catch. eapply wp_mono; [exact Hren| |].
  - intros [] s1 Hv. apply wp_ret, Hup.
    + rewrite Hv. by apply state_ok_rename.
    + rewrite Hv. unfold rename. rewrite decide_False by done. simpl. unfold rekey. rewrite Hr.
      rewrite lookup_delete_ne, Hnone by done. rewrite lookup_insert_eq. by eexists.
    + intros n Hn. rewrite Hv. unfold rename. rewrite decide_False by done. simpl. unfold rekey.
      rewrite Hr, lookup_delete_ne, Hnone by done. rewrite lookup_insert_ne by done.
      case_decide as Ho; [by rewrite Ho, lookup_delete_eq|by rewrite lookup_delete_ne].
    + rewrite Hv. unfold rename. by rewrite decide_False.
    + rewrite Hv. unfold rename. by rewrite decide_False.
  - intros e s1 He. cbv beta. rewrite He. by apply wp_throw.
Qed.

(** The writes of a whole registration, from a store that is ready. *)
Lemma register_writes_wp adoptFrom nodeID fsID heartbeat req missing incoming m m' s :
  state_ok (view s) → ready adoptFrom nodeID fsID m (view s) →
  (∀ st, coherent (claim_node nodeID (rqAddress req) fsID heartbeat m) st →
     coherent m' (registered_stored nodeID missing incoming (grants_of incoming (rqShared req)) st)) →
  wp (for_each (register_writes adoptFrom nodeID heartbeat req missing incoming) id)
    (λ _ s', coherent m' (view s') ∧ state_ok (view s')) (λ _ _, True) s.
Proof.
  intros Hok Hrd Hfin. unfold register_writes. cbn [for_each app].
  apply wp_bind. eapply wp_mono; [by apply node_write_wp| |done].
  intros [] s1 [Hco1 Hok1]. set (gs := grants_of incoming (rqShared req)) in *.
  assert (∀ s2, view s2 = mkMetaState (ns_nodes (view s1)) (each remove_user missing (ns_users (view s1)))
      (remove_involving missing (ns_shares (view s1))) →
    wp (for_each [AssignUsers ((λ u, mkUserRecord u nodeID) <$> incoming) ;; RemoveSharesByOwner incoming;
                  AddShares gs] id)
      (λ _ s', coherent m' (view s') ∧ state_ok (view s')) (λ _ _, True) s2) as Hrest.
  { intros s2 Hv2. assert (state_ok (view s2)) as Hok2.
    { rewrite Hv2. destruct Hok1 as [Hn Hs]. split; [exact Hn|exact (shares_ok_filter _ _ Hs)]. }
    cbn [for_each]. unfold id. apply wp_bind, wp_bind.
    eapply (write_wp view); [apply (law_assign_all view)|done| |done]. intros [] s3 _ Hv3.
    assert (state_ok (view s3)) as Hok3 by (by rewrite Hv3).
    eapply (write_wp view); [apply (law_remove_by_owner view)|done| |done]. intros [] s4 _ Hv4.
    assert (state_ok (view s4)) as Hok4.
    { rewrite Hv4. apply state_ok_shares; [apply shares_ok_filter|done]. }
    apply wp_bind.
    eapply (write_wp view); [apply (law_add_shares view)|done| |done]. intros [] s5 _ Hv5.
    apply wp_ret. rewrite Hv5. split; [|apply state_ok_shares; [apply shares_ok_adds|done]].
    rewrite Hv4, Hv3, Hv2. exact (Hfin (view s1) Hco1). }
  destruct missing as [|u us].
  - apply Hrest. rewrite (remove_involving_nil view). by destruct (view s1).
  - cbn [for_each app]. apply wp_bind. change (id (purge_write (u :: us))) with (purge_write (u :: us)).
    unfold purge_write. apply wp_bind.
    eapply (write_wp view); [apply (law_remove_users view)|done| |done]. intros [] s2 _ Hv2.
    eapply (write_wp view); [apply (law_remove_involving view)|by rewrite Hv2| |done].
    intros [] s3 _ Hv3. apply Hrest. by rewrite Hv3, Hv2.
Qed.

(** The users a registration purges. *)
Definition purged (m : MetaServer) (fsID : Z) (req : RegisterRequest) : list string :=
  if allowUserPurge m then missing_users fsID (remove_dups (rqUsers req)) m else [].

Lemma purged_spec m fsID req u :
  u ∈ purged m fsID req ↔
  allowUserPurge m = true ∧ users m !! u = Some fsID ∧ u ∉ rqUsers req.
Proof.
  unfold purged, missing_users. destruct (allowUserPurge m); [|set_solver].
  rewrite list_elem_of_fmap. split.
  - intros ([u' id] & -> & [Hin [Hid%Z.eqb_eq Hn%negb_true_iff]%andb_prop]%list_elem_of_In%filter_In).
    simpl in *. subst id. split_and!; [done| |].
    + by apply elem_of_map_to_list, list_elem_of_In.
    + apply contains_false in Hn. by rewrite elem_of_remove_dups in Hn.
  - intros (_ & Hu & Hn). exists (u, fsID). split; [done|]. apply list_elem_of_In, filter_In.
    split; [by apply list_elem_of_In, elem_of_map_to_list|]. simpl. rewrite Z.eqb_refl. simpl.
    apply negb_true_iff, contains_false. by rewrite elem_of_remove_dups.
Qed.

(** Memory after a registration that went through: from [m], where the node has its
    identity and its place. *)
Definition registered (nodeID : string) (fsID heartbeat : Z) (req : RegisterRequest) (m m' : MetaServer) : Prop :=
  let incoming := remove_dups (rqUsers req) in
  committed nodeID fsID (purged m fsID req) incoming (grants_of incoming (rqShared req))
    (claim_node nodeID (rqAddress req) fsID heartbeat m) m'.

Lemma register_finish_wp adoptFrom nodeID fsID heartbeat req w :
  state_ok (view (store w)) → ready adoptFrom nodeID fsID (ms w) (view (store w)) →
  claimable nodeID fsID (ms w) (rqUsers req) →
  wp (register_finish adoptFrom nodeID fsID heartbeat req)
    (λ _ w', agree view w' ∧ registered nodeID fsID heartbeat req (ms w) (ms w'))
    (λ e w', e = persist_failed ∧ mem_ok (ms w') ∧ registered nodeID fsID heartbeat req (ms w) (ms w')) w.
Proof.
  intros Hok Hrd Hclaim. unfold register_finish. wp_step. wp_step.
  set (incoming := remove_dups (rqUsers req)). fold (purged (ms w) fsID req).
  set (missing := purged (ms w) fsID req). wp_step. apply on_ms_wp.
  set (m2 := claim_node nodeID (rqAddress req) fsID heartbeat (ms w)).
  set (m' := register_commit nodeID fsID heartbeat req missing incoming (ms w)).
  assert (registered nodeID fsID heartbeat req (ms w) m') as Hreg by apply commit_rest_spec.
  pose proof (claimed_pre nodeID (rqAddress req) fsID heartbeat (ms w) (rd_pre _ _ _ _ _ Hrd)) as Hpre.
  fold m2 in Hpre. assert (claimable nodeID fsID m2 incoming) as Hcl2.
  { intros u Hu. apply Hclaim. unfold incoming in Hu. by rewrite elem_of_remove_dups in Hu. }
  assert (∀ u, u ∈ missing → users m2 !! u = Some fsID ∧ u ∉ incoming) as Hmiss.
  { intros u (_ & Hu & Hn)%purged_spec. split; [done|]. by unfold incoming; rewrite elem_of_remove_dups. }
  assert (mem_ok m') as Hmem
    by (eapply (committed_mem_ok nodeID fsID missing incoming _ m2 m'); [exact Hpre|exact Hreg|exact Hcl2|exact Hmiss]).
  pose proof (register_writes_wp adoptFrom nodeID fsID heartbeat req missing incoming (ms w) m'
    (store w) Hok Hrd) as Hw.
  unfold store_or. apply wp_bind, wp_catch. unfold wp, on_store in *. cbn [ms store].
  destruct (for_each _ _ _) as [s' [[]|e|y]]; simpl; [|done|].
  - split; [|done]. unfold agree. simpl. destruct Hw as [Hco' Hok']; [|done].
    intros st Hco. eapply committed_coherent; [exact Hpre|exact Hreg|exact Hmiss| |exact Hco].
    apply grants_normal.
  - apply Hw. intros st Hco.
    eapply committed_coherent; [exact Hpre|exact Hreg|exact Hmiss| |exact Hco].
    apply grants_normal.
Qed.

(** ** The three ways to a node that is ready *)

(** The memory once the node has its identity and its place: the users, shares and other
    nodes are as before. *)
Record prepared (nodeID : string) (fsID : Z) (m m1 : MetaServer) : Prop := {
  pr_other id : id ≠ fsID → fileservers m1 !! id = fileservers m !! id;
  pr_node : ∃ i, fileservers m1 !! fsID = Some i ∧ fiNodeID i = nodeID;
  pr_users : users m1 = users m;
  pr_orphans : orphanedUsers m1 = orphanedUsers m;
  pr_shared : shared m1 = shared m;
  pr_purge : allowUserPurge m1 = allowUserPurge m }.

Lemma prepared_home nodeID fsID m m1 u :
  prepared nodeID fsID m m1 →
  home m1 u = if decide (users m !! u = Some fsID) then Some nodeID else home m u.
Proof.
  intros Hp. unfold home. rewrite (pr_users _ _ _ _ Hp), (pr_orphans _ _ _ _ Hp).
  case_decide as Hu.
  - rewrite Hu. destruct (pr_node _ _ _ _ Hp) as (i & -> & Hn). simpl. by rewrite Hn.
  - destruct (users m !! u) as [id|]; [|done]. rewrite (pr_other _ _ _ _ Hp); [done|congruence].
Qed.

Lemma prepared_pre nodeID fsID m m1 :
  prepared nodeID fsID m m1 → mem_ok m → nodeID ≠ "" →
  (∀ id i, id ≠ fsID → fileservers m !! id = Some i → fiNodeID i ≠ nodeID) →
  mem_pre nodeID fsID m1.
Proof.
  intros Hp Hm Hne Hfree. pose proof (pr_node _ _ _ _ Hp) as (j & Hj & Hjn).
  assert (∀ id i, fileservers m1 !! id = Some i →
    id = fsID ∧ fiNodeID i = nodeID ∨ id ≠ fsID ∧ fileservers m !! id = Some i) as Hcase.
  { intros id i Hi. destruct (decide (id = fsID)) as [->|Hid].
    - left. rewrite Hj in Hi. by injection Hi as <-.
    - right. by rewrite (pr_other _ _ _ _ Hp) in Hi. }
  split; rewrite ?(pr_users _ _ _ _ Hp), ?(pr_orphans _ _ _ _ Hp).
  - intros id i [[-> ->]|[_ Hi]]%Hcase; [done|by apply (mo_ids _ Hm id)].
  - intros id1 id2 i1 i2 [[-> H1]|[Hn1 H1]]%Hcase [[-> H2]|[Hn2 H2]]%Hcase He; [done| | |].
    + destruct (Hfree _ _ Hn2 H2). congruence.
    + destruct (Hfree _ _ Hn1 H1). congruence.
    + by apply (mo_nodes _ Hm id1 id2 i1 i2).
  - intros u id Hu. destruct (decide (id = fsID)) as [->|Hid]; [by exists j|].
    rewrite (pr_other _ _ _ _ Hp) by done. by apply (mo_users _ Hm u).
  - apply (mo_orphans _ Hm).
  - intros u h [Hh Ho]%(mo_homes _ Hm). split; [done|].
    destruct (decide (h = nodeID)) as [->|Hn]; [by left|right].
    intros id i [[-> ->]|[_ Hi]]%Hcase; [congruence|by apply (Ho id)].
  - intros id i Hid [[-> _]|[_ Hi]]%Hcase; [done|]. rewrite (mo_count _ Hm id i Hi).
    apply count_ext. by rewrite (pr_users _ _ _ _ Hp).
  - intros g. unfold shared_of. rewrite (pr_shared _ _ _ _ Hp). apply (mo_dup _ Hm).
  - by exists j.
Qed.

Lemma prepared_visible nodeID fsID m m1 g o p :
  prepared nodeID fsID m m1 → visible m1 g o p ↔ visible m g o p.
Proof. intros Hp. unfold visible, shared_of. by rewrite (pr_shared _ _ _ _ Hp). Qed.

(** A node that is registered already. *)
Lemma ready_known nodeID fsID i w :
  agree view w → fileservers (ms w) !! fsID = Some i → fiNodeID i = nodeID →
  prepared nodeID fsID (ms w) (ms w) ∧ ready None nodeID fsID (ms w) (view (store w)).
Proof.
  intros (Hm & Hco & Hok) Hi Hn. assert (prepared nodeID fsID (ms w) (ms w)) as Hp.
  { split; try done. by exists i. }
  split; [done|]. assert (∀ id i', id ≠ fsID → fileservers (ms w) !! id = Some i' → fiNodeID i' ≠ nodeID) as Hfree.
  { intros id i' Hid Hi' He. apply Hid. eapply (mo_nodes _ Hm); [done..|congruence]. }
  split; simpl.
  - apply (prepared_pre nodeID fsID (ms w) (ms w)); [done|done| |done].
    rewrite <-Hn. by apply (mo_ids _ Hm fsID).
  - rewrite <-Hn. by apply (co_store _ _ Hco).
  - done.
  - intros n r Hr _. by apply (co_memory _ _ Hco).
  - intros id i' Hid Hi'. split; [by apply (Hfree id)|]. by apply (co_store _ _ Hco).
  - apply (co_users _ _ Hco).
  - apply (co_shares _ _ Hco).
Qed.

(** A node registered under its address takes its identity. *)
Lemma ready_adopted nodeID fsID i w :
  agree view w → fileservers (ms w) !! fsID = Some i → nodeID ≠ "" →
  (∀ id j, fileservers (ms w) !! id = Some j → fiNodeID j ≠ nodeID) →
  let m1 := set_fileservers (alter (set_fiNodeID nodeID) fsID) (ms w) in
  prepared nodeID fsID (ms w) m1 ∧ ready (Some (fiNodeID i)) nodeID fsID m1 (view (store w)).
Proof.
  intros (Hm & Hco & Hok) Hi Hne Hfree m1. assert (prepared nodeID fsID (ms w) m1) as Hp.
  { split; try done; simpl.
    - intros id Hid. by rewrite lookup_alter_ne.
    - rewrite lookup_alter_eq, Hi. by eexists. }
  split; [done|].
  assert (ns_nodes (view (store w)) !! nodeID = None) as Hnone.
  { destruct (ns_nodes (view (store w)) !! nodeID) as [r|] eqn:Hr; [|done].
    destruct (co_memory _ _ Hco _ _ Hr) as (j & Hj & Hjn & _). by destruct (Hfree _ _ Hj). }
  split; simpl.
  - apply (prepared_pre nodeID fsID (ms w)); [done..|]. intros id j _. apply Hfree.
  - by apply (co_store _ _ Hco).
  - intros old [= <-]. split; [by apply (Hfree fsID)|done].
  - intros n r Hr Hn. destruct (co_memory _ _ Hco _ _ Hr) as (j & Hj & Hjn & Hja). exists j.
    rewrite lookup_alter_ne; [done|]. intros He. rewrite <-He in Hj. simpl in Hn. congruence.
  - intros id j Hid. rewrite lookup_alter_ne by done. intros Hj.
    split; [|by apply (co_store _ _ Hco)].
    intros He. apply Hid. by eapply (mo_nodes _ Hm).
  - intros u. rewrite (prepared_home nodeID fsID (ms w) m1 u Hp).
    unfold rehome. rewrite lookup_fmap, (co_users _ _ Hco). unfold home.
    destruct (users (ms w) !! u) as [id|] eqn:Hu.
    + destruct (mo_users _ Hm u id Hu) as [j Hj]. rewrite Hj. simpl.
      destruct (decide (id = fsID)) as [->|Hid].
      * rewrite Hi in Hj. injection Hj as <-. by rewrite !decide_True.
      * rewrite !decide_False; [done|congruence|]. intros He. apply Hid. by eapply (mo_nodes _ Hm).
    + rewrite decide_False by done. destruct (orphanedUsers (ms w) !! u) as [h|] eqn:Ho; [|done].
      simpl. destruct (mo_homes _ Hm u h Ho) as [_ Hh]. rewrite decide_False; [done|].
      intros He. by apply (Hh fsID i Hi).
  - intros g o p. rewrite (co_shares _ _ Hco). symmetry. by apply (prepared_visible nodeID fsID).
Qed.

(** A new node, allocated through the store. *)
Lemma ready_new nodeID fsID r w s1 :
  agree view w → fileservers (ms w) !! fsID = None → nodeID ≠ "" →
  (∀ id j, fileservers (ms w) !! id = Some j → fiNodeID j ≠ nodeID) →
  NumericID r = fsID → view s1 = with_nodes <[nodeID := r]> (view (store w)) →
  let m1 := set_fileservers <[fsID := mkInfo nodeID "" 0 0 ""]> (ms w) in
  prepared nodeID fsID (ms w) m1 ∧ ready None nodeID fsID m1 (view s1).
Proof.
  intros (Hm & Hco & Hok) Hfs Hne Hfree Hid Hv m1. rewrite Hv.
  assert (prepared nodeID fsID (ms w) m1) as Hp.
  { split; try done; simpl.
    - intros id Hn. by rewrite lookup_insert_ne.
    - rewrite lookup_insert_eq. by eexists. }
  split; [done|]. split; simpl.
  - apply (prepared_pre nodeID fsID (ms w)); [done..|]. intros id j _. apply Hfree.
  - rewrite lookup_insert_eq. by exists r.
  - done.
  - intros n r' Hr Hn. rewrite lookup_insert_ne in Hr by done.
    destruct (co_memory _ _ Hco _ _ Hr) as (j & Hj & Hjn & Hja). exists j.
    rewrite lookup_insert_ne; [done|]. intros He. rewrite <-He in Hj. congruence.
  - intros id j Hn. rewrite lookup_insert_ne by done. intros Hj. split; [by apply (Hfree id)|].
    rewrite lookup_insert_ne by (intros He; by destruct (Hfree id j Hj)). by apply (co_store _ _ Hco).
  - intros u. rewrite (prepared_home nodeID fsID (ms w) m1 u Hp), (co_users _ _ Hco).
    rewrite decide_False; [done|]. intros [j Hj]%(mo_users _ Hm). congruence.
  - intros g o p. rewrite (co_shares _ _ Hco). symmetry. by apply (prepared_visible nodeID fsID).
Qed.

(** ** [RegisterFileServer] *)

Lemma conflict_none m nodeID found us :
  registrationConflictLocked m nodeID found us = None ↔
  ∀ u, u ∈ us → user_conflict m nodeID found u = None.
Proof.
  induction us as [|u us IH]; simpl; [set_solver|].
  destruct (user_conflict m nodeID found u) eqn:Hu; [|set_solver].
  split; [done|]. intros Hall. rewrite (Hall u) in Hu by set_solver. done.
Qed.

Lemma user_conflict_none m nodeID found u :
  user_conflict m nodeID found u = None ↔
  (users m !! u = None ∨ users m !! u = found)
  ∧ (orphanedUsers m !! u = None ∨ orphanedUsers m !! u = Some nodeID).
Proof.
  unfold user_conflict.
  assert ((home ← orphanedUsers m !! u;
           if String.eqb home nodeID then None else Some (user_orphaned u home)) = None
    ↔ orphanedUsers m !! u = None ∨ orphanedUsers m !! u = Some nodeID) as Ho.
  { destruct (orphanedUsers m !! u) as [h|]; simpl; [|naive_solver].
    destruct (String.eqb_spec h nodeID); naive_solver. }
  destruct (users m !! u) as [id|]; [|rewrite Ho; naive_solver].
  case_bool_decide as Hf; [rewrite Ho; naive_solver|]. naive_solver.
Qed.

Lemma conflict_claimable m nodeID fsID us :
  registrationConflictLocked m nodeID (Some fsID) us = None ↔ claimable nodeID fsID m us.
Proof. rewrite conflict_none. unfold claimable. by setoid_rewrite user_conflict_none. Qed.

Lemma claimable_new m nodeID fsID us :
  registrationConflictLocked m nodeID None us = None → claimable nodeID fsID m us.
Proof.
  rewrite conflict_none. intros Hc u Hu. destruct (proj1 (user_conflict_none _ _ _ _) (Hc u Hu)) as [H1 H2].
  split; [left; naive_solver|done].
Qed.

Lemma claimable_prepared nodeID fsID m m1 us :
  prepared nodeID fsID m m1 → claimable nodeID fsID m us → claimable nodeID fsID m1 us.
Proof.
  intros Hp Hc u Hu. rewrite (pr_users _ _ _ _ Hp), (pr_orphans _ _ _ _ Hp). by apply Hc.
Qed.

Lemma register_allocate_wp nodeID now req w :
  agree view w → nodeID ≠ "" →
  (∀ id j, fileservers (ms w) !! id = Some j → fiNodeID j ≠ nodeID) →
  registrationConflictLocked (ms w) nodeID None (rqUsers req) = None →
  wp (register_allocate nodeID now req)
    (λ fsID w1, prepared nodeID fsID (ms w) (ms w1) ∧ fileservers (ms w) !! fsID = None
       ∧ ready None nodeID fsID (ms w1) (view (store w1)) ∧ state_ok (view (store w1)))
    (λ e w1, e = persist_failed ∧ ms w1 = ms w) w.
Proof.
  intros Hagree Hne Hfree Hc. pose proof Hagree as (Hm & Hco & Hok). unfold register_allocate.
  apply wp_bind. eapply (store_or_wp view); [apply (law_upsert view)|done| |done].
  intros n s1 [fresh ->] Hv. set (rec := mkFileServerRecord _ _ _ _ _) in *.
  set (n := NumericID (upserted rec fresh (ns_nodes (view (store w))))) in *.
  wp_step. wp_step. cbn [ms]. case_bool_decide as Hcol.
  { wp_step. unfold removeProvisionalNode. wp_step.
    eapply (on_store_wp view); [apply (law_remove_node view)| |..].
    - simpl. rewrite Hv. by apply state_ok_nodes; [apply nodes_ok_insert, upserted_NodeID|].
    - intros [] s2 _ _. by apply wp_throw.
    - intros e s2 _. by apply wp_throw. }
  assert (fileservers (ms w) !! n = None) as Hnone
    by (by destruct (fileservers (ms w) !! n); [destruct Hcol; eexists|]).
  destruct (ready_new nodeID n (upserted rec n (ns_nodes (view (store w)))) w s1) as [Hp Hrd];
    try done.
  { unfold n. unfold upserted. simpl. by destruct (ns_nodes _ !! _). }
  wp_step. apply on_ms_wp. wp_step. wp_step. cbn [ms store].
  set (m1 := set_fileservers _ _) in *.
  assert (registrationConflictLocked m1 nodeID (Some n) (rqUsers req) = None) as ->.
  { apply conflict_claimable. eapply claimable_prepared; [exact Hp|]. by apply claimable_new. }
  apply wp_ret. simpl. split_and!; [done..|]. rewrite Hv.
  by apply state_ok_nodes; [apply nodes_ok_insert, upserted_NodeID|].
Qed.

(** A user the registration purges, and a grant the request publishes. *)
Definition is_purged (m : MetaServer) (fsID : Z) (req : RegisterRequest) (u : string) : Prop :=
  allowUserPurge m = true ∧ users m !! u = Some fsID ∧ u ∉ rqUsers req.
#[local] Instance is_purged_dec m fsID req u : Decision (is_purged m fsID req u).
Proof. unfold is_purged. apply _. Defined.

Definition published (req : RegisterRequest) (g o p : string) : Prop :=
  o ∈ rqUsers req ∧ g ≠ o ∧
  ∃ d, d ∈ rqShared req ∧ sdOwner d = o ∧ g ∈ sdUsers d ∧ NormalizeSharePath (sdPath d) = p.

Lemma published_spec req g o p :
  (g, o, p) ∈ grant_key <$> grants_of (remove_dups (rqUsers req)) (rqShared req) ↔ published req g o p.
Proof.
  rewrite list_elem_of_fmap. unfold grants_of, published. split.
  - intros (gr & Hk & (d & Hd & Hg)%list_elem_of_In%in_flat_map). unfold grant_key in Hk.
    destruct (contains _ _) eqn:Hc; [|done]. apply contains_spec in Hc. rewrite elem_of_remove_dups in Hc.
    apply list_elem_of_In, list_elem_of_fmap in Hg as (u & -> & Hu%list_elem_of_In). simpl in Hk.
    injection Hk as -> -> ->. apply filter_In in Hu as [Hu Hne%negb_true_iff%String.eqb_neq].
    split_and!; [done|done|]. exists d. split_and!; [by apply list_elem_of_In|done|by apply list_elem_of_In|done].
  - intros (Ho & Hne & d & Hd & <- & Hg & <-).
    exists (mkShareRecord g (sdOwner d) (NormalizeSharePath (sdPath d)) (sdName d)). split; [done|].
    apply list_elem_of_In, in_flat_map. exists d. split; [by apply list_elem_of_In|].
    rewrite (proj2 (contains_spec _ _)) by by rewrite elem_of_remove_dups.
    apply list_elem_of_In, list_elem_of_fmap. exists g. split; [done|].
    apply list_elem_of_In, filter_In. split; [by apply list_elem_of_In|].
    by apply negb_true_iff, String.eqb_neq.
Qed.

(** What a registration does to the memory. *)
Record register_effect (nodeID : string) (fsID heartbeat : Z) (req : RegisterRequest)
    (m m' : MetaServer) : Prop := {
  re_node : ∃ i, fileservers m' !! fsID = Some i ∧ fiNodeID i = nodeID
    ∧ fiAddress i = rqAddress req ∧ fiStatus i = FileServerStatusHealthy
    ∧ fiLastHeartbeatUnix i = heartbeat;
  re_others id : id ≠ fsID → fileservers m' !! id = fileservers m !! id;
  re_home u : home m' u =
    if decide (u ∈ rqUsers req) then Some nodeID
    else if decide (is_purged m fsID req u) then None
    else if decide (users m !! u = Some fsID) then Some nodeID else home m u;
  re_visible g o p : visible m' g o p ↔
    published req g o p
    ∨ visible m g o p ∧ o ∉ rqUsers req ∧ ¬ is_purged m fsID req g ∧ ¬ is_purged m fsID req o }.

Lemma registered_effect nodeID fsID heartbeat req m m1 m' :
  prepared nodeID fsID m m1 → mem_pre nodeID fsID m1 →
  registered nodeID fsID heartbeat req m1 m' → register_effect nodeID fsID heartbeat req m m'.
Proof.
  intros Hp Hpre Hreg. unfold registered in Hreg.
  set (m2 := claim_node nodeID (rqAddress req) fsID heartbeat m1) in *.
  pose proof (claimed_pre nodeID (rqAddress req) fsID heartbeat m1 Hpre) as Hpre2. fold m2 in Hpre2.
  assert (∀ u, u ∈ purged m1 fsID req ↔ is_purged m fsID req u) as Hpu.
  { intros u. rewrite purged_spec. unfold is_purged.
    by rewrite (pr_users _ _ _ _ Hp), (pr_purge _ _ _ _ Hp). }
  assert (∀ u, u ∈ purged m1 fsID req → users m2 !! u = Some fsID ∧ u ∉ remove_dups (rqUsers req)) as Hmiss.
  { intros u (_ & Hu & Hn)%purged_spec. by rewrite elem_of_remove_dups. }
  split.
  - eexists. split; [apply (cm_node _ _ _ _ _ _ _ Hreg), lookup_insert_eq|done].
  - intros id Hid. rewrite (cm_nodes _ _ _ _ _ _ _ Hreg id Hid). simpl.
    rewrite lookup_insert_ne by done. by apply (pr_other _ _ _ _ Hp).
  - intros u. rewrite (committed_home _ _ _ _ _ _ _ Hpre2 Hreg Hmiss).
    rewrite (decide_ext _ (u ∈ rqUsers req)) by apply elem_of_remove_dups.
    rewrite (decide_ext _ _ _ _ (Hpu u)). case_decide; [done|]. case_decide; [done|].
    unfold m2. rewrite claimed_home by done. by apply prepared_home.
  - intros g o p. rewrite (cm_visible _ _ _ _ _ _ _ Hreg), published_spec, !Hpu, elem_of_remove_dups.
    change (visible m2 g o p) with (visible m1 g o p).
    rewrite (prepared_visible nodeID fsID m m1 g o p Hp). tauto.
Qed.

(** The node whose identity a registration takes over: one that was registered under the
    address alone, when no node has the new identity yet. *)
Definition taken_over range (m : MetaServer) (req : RegisterRequest) : option string :=
  (register_target range m (resolveNodeID (rqFsId req) (rqAddress req)) req).2.

(** When a registration is refused. *)
Definition refused range (m : MetaServer) (now : Z) (req : RegisterRequest) : Prop :=
  let nodeID := resolveNodeID (rqFsId req) (rqAddress req) in
  rqAddress req = ""
  ∨ (∃ id i, fileservers m !! id = Some i ∧ fiNodeID i = nodeID
       ∧ fiAddress i ≠ rqAddress req ∧ isHealthyLocked m i now = true)
  ∨ ∃ u h, u ∈ rqUsers req ∧ home m u = Some h ∧ h ≠ nodeID ∧ taken_over range m req ≠ Some h.

(** The entry a registration is about, if there is one. *)
Definition targets (m : MetaServer) (nodeID : string) (found : option Z) (adopt : option string) : Prop :=
  match found, adopt with
  | Some id, None => ∃ i, fileservers m !! id = Some i ∧ fiNodeID i = nodeID
  | Some id, Some name =>
      (∃ i, fileservers m !! id = Some i ∧ fiNodeID i = name)
      ∧ ∀ id i, fileservers m !! id = Some i → fiNodeID i ≠ nodeID
  | None, None => ∀ id i, fileservers m !! id = Some i → fiNodeID i ≠ nodeID
  | None, Some _ => False
  end.

Lemma adoptable_spec range m address id name :
  adoptableLegacyNodeLocked range m address = Some (id, name) →
  ∃ i, fileservers m !! id = Some i ∧ fiNodeID i = name.
Proof.
  unfold adoptableLegacyNodeLocked. destruct (findFileServerByAddressLocked _ _ _) as [id'|]; [|done].
  simpl. destruct (fileservers m !! id') as [i|] eqn:Hi; [|done]. simpl.
  destruct (HasPrefix _ _); [|done]. intros [= <- <-]. by exists i.
Qed.

Lemma register_targets range m nodeID req :
  (∀ fs, range fs ≡ₚ map_to_list fs) → nodeID ≠ "" →
  let '(found, adopt) := register_target range m nodeID req in targets m nodeID found adopt.
Proof.
  intros Hrange Hne. unfold register_target. pose proof (find_node range Hrange m nodeID) as Hf.
  destruct (findFileServerByNodeIDLocked range m nodeID) as [id|]; [by destruct Hf|].
  destruct Hf as [?|Hf]; [done|]. destruct (String.eqb (rqFsId req) ""); [done|].
  destruct (adoptableLegacyNodeLocked _ _ _) as [[id name]|] eqn:Had; [|done].
  split; [by eapply adoptable_spec|done].
Qed.

Lemma targets_found m nodeID found adopt id i :
  mem_ok m → targets m nodeID found adopt → fileservers m !! id = Some i →
  found = Some id ↔ fiNodeID i = nodeID ∨ adopt = Some (fiNodeID i).
Proof.
  intros Hm Ht Hi. unfold targets in Ht. destruct found as [id'|], adopt as [name|]; try done.
  - destruct Ht as [(j & Hj & <-) Hno]. split; [intros [= ->]; right; congruence|].
    intros [He|[= He]]; [by destruct (Hno id i)|]. f_equal. by eapply (mo_nodes _ Hm).
  - destruct Ht as (j & Hj & <-). split; [intros [= ->]; left; congruence|].
    intros [He|?]; [|done]. f_equal. by eapply (mo_nodes _ Hm).
  - split; [done|]. intros [He|?]; [by destruct (Ht id i)|done].
Qed.

(** A user conflicts with a registration when its home is another node. *)
Lemma user_conflict_home m nodeID found adopt u :
  mem_ok m → targets m nodeID found adopt →
  user_conflict m nodeID found u = None ↔ ∀ h, home m u = Some h → h = nodeID ∨ adopt = Some h.
Proof.
  intros Hm Ht. rewrite user_conflict_none. unfold home. destruct (users m !! u) as [id|] eqn:Hid.
  - destruct (mo_users _ Hm u id Hid) as [i Hi]. rewrite Hi. simpl.
    pose proof (targets_found m nodeID found adopt id i Hm Ht Hi) as Hf.
    assert (orphanedUsers m !! u = None) as Ho.
    { destruct (orphanedUsers m !! u) as [h|] eqn:Ho; [|done]. by rewrite (mo_orphans _ Hm u h Ho) in Hid. }
    rewrite Ho. split.
    + intros [[?|He] _] h [= <-]; [done|]. by apply Hf.
    + intros Hh. split; [|by left]. right. symmetry. by apply Hf, Hh.
  - destruct (orphanedUsers m !! u) as [h|] eqn:Ho; [|naive_solver].
    destruct (mo_homes _ Hm u h Ho) as [_ Hfree].
    assert (adopt ≠ Some h) as Hna.
    { intros ->. unfold targets in Ht. destruct found as [id|]; [|done].
      destruct Ht as [(i & Hi & Hn) _]. by destruct (Hfree id i Hi). }
    split; [|intros Hh; destruct (Hh h eq_refl); [subst|done]; naive_solver].
    intros [_ [?|[= ->]]] h' [= <-]; [done|by left].
Qed.

(** A conflict is a user of the request at home elsewhere, and the other way round. *)
Lemma conflict_elsewhere m nodeID found adopt us :
  mem_ok m → targets m nodeID found adopt →
  (∃ u h, u ∈ us ∧ home m u = Some h ∧ h ≠ nodeID ∧ adopt ≠ Some h)
  ↔ registrationConflictLocked m nodeID found us ≠ None.
Proof.
  intros Hm Ht. split.
  - intros (u & h & Hu & Hh & Hn & Ha) Hc. rewrite conflict_none in Hc. specialize (Hc u Hu).
    rewrite (user_conflict_home m nodeID found adopt) in Hc by done. by destruct (Hc h Hh).
  - intros Hc. assert (∃ u, u ∈ us ∧ user_conflict m nodeID found u ≠ None) as (u & Hu & Hn).
    { induction us as [|u us IH]; simpl in Hc; [done|].
      destruct (user_conflict m nodeID found u) eqn:Hu; [exists u; set_solver|].
      destruct (IH Hc) as (v & Hv & ?). exists v. set_solver. }
    rewrite (user_conflict_home m nodeID found adopt) in Hn by done. exists u.
    destruct (home m u) as [h|]; [|by destruct Hn].
    destruct (decide (h = nodeID)) as [->|Hne]; [destruct Hn; intros ? [= <-]; by left|].
    destruct (decide (adopt = Some h)) as [->|Hna]; [destruct Hn; intros ? [= <-]; by right|].
    by exists h.
Qed.

(** Where a registration leaves the memory, depending on the outcome. *)
Definition register_ok range (now1 now3 : Z) (req : RegisterRequest) (w w' : world S) : Prop :=
  ¬ refused range (ms w) now1 req ∧ agree view w' ∧ ∃ fsID,
    register_effect (resolveNodeID (rqFsId req) (rqAddress req)) fsID now3 req (ms w) (ms w').
Definition register_err range (now1 now3 : Z) (req : RegisterRequest) (w : world S) (e : error) (w' : world S) : Prop :=
  w' = w ∧ refused range (ms w) now1 req
  ∨ e = persist_failed ∧ ¬ refused range (ms w) now1 req ∧ mem_ok (ms w')
    ∧ (ms w' = ms w ∨ ∃ fsID,
         register_effect (resolveNodeID (rqFsId req) (rqAddress req)) fsID now3 req (ms w) (ms w')).

(** From a node that is ready to the end. *)
Lemma finish_from range now1 now3 req adoptFrom fsID w w1 :
  let nodeID := resolveNodeID (rqFsId req) (rqAddress req) in
  agree view w → prepared nodeID fsID (ms w) (ms w1) → ready adoptFrom nodeID fsID (ms w1) (view (store w1)) →
  state_ok (view (store w1)) → claimable nodeID fsID (ms w) (rqUsers req) →
  ¬ refused range (ms w) now1 req →
  wp (register_finish adoptFrom nodeID fsID now3 req)
    (λ _ w', register_ok range now1 now3 req w w') (register_err range now1 now3 req w) w1.
Proof.
  intros nodeID Hagree Hp Hrd Hok Hclaim Hnr.
  pose proof (claimable_prepared _ _ _ _ _ Hp Hclaim) as Hclaim1.
  eapply wp_mono; [by apply register_finish_wp| |].
  - intros [] w' [Hagree' Hreg]. split; [done|]. split; [done|]. exists fsID.
    eapply registered_effect; [exact Hp|apply (rd_pre _ _ _ _ _ Hrd)|exact Hreg].
  - intros e w' (-> & Hmem & Hreg). right. split_and!; [done..|]. right. exists fsID.
    eapply registered_effect; [exact Hp|apply (rd_pre _ _ _ _ _ Hrd)|exact Hreg].
Qed.

(** What the two tests of a registration decide. *)
Lemma checks_refuse range m now req found adopt :
  let nodeID := resolveNodeID (rqFsId req) (rqAddress req) in
  mem_ok m → rqAddress req ≠ "" → register_target range m nodeID req = (found, adopt) →
  targets m nodeID found adopt →
  let held := if bool_decide (adopt = None) then fsID ← found; holder_alive m fsID now (rqAddress req)
              else None in
  refused range m now req
  ↔ held ≠ None ∨ registrationConflictLocked m nodeID found (rqUsers req) ≠ None.
Proof.
  intros nodeID Hm Hne Heq Ht held.
  assert ((∃ id i, fileservers m !! id = Some i ∧ fiNodeID i = nodeID
       ∧ fiAddress i ≠ rqAddress req ∧ isHealthyLocked m i now = true) ↔ held ≠ None) as Hheld.
  { assert (∀ id i, fileservers m !! id = Some i →
      holder_alive m id now (rqAddress req) ≠ None ↔ fiAddress i ≠ rqAddress req ∧ isHealthyLocked m i now = true) as Hal.
    { intros id i Hi. unfold holder_alive. rewrite Hi. simpl.
      destruct (String.eqb_spec (fiAddress i) (rqAddress req)), (isHealthyLocked m i now); simpl; naive_solver. }
    unfold held, targets in *. destruct adopt as [name|]; destruct found as [id|]; try done; simpl.
    - destruct Ht as [_ Hno]. split; [|done]. intros (id' & i & Hi & Hn & _). by destruct (Hno id' i).
    - destruct Ht as (i & Hi & Hn). rewrite (Hal id i Hi). split; [|intros []; by exists id, i].
      intros (id' & j & Hj & Hjn & Hx). assert (id' = id) as -> by (eapply (mo_nodes _ Hm); [done..|congruence]).
      congruence.
    - split; [|done]. intros (id' & i & Hi & Hn & _). by destruct (Ht id' i). }
  unfold refused, taken_over. fold nodeID. rewrite Heq. cbn [snd].
  rewrite Hheld, (conflict_elsewhere m nodeID found adopt); [|done..]. tauto.
Qed.

Lemma RegisterFileServer_wp range now1 now2 now3 req w :
  (∀ fs, range fs ≡ₚ map_to_list fs) → agree view w →
  wp (RegisterFileServer range now1 now2 now3 req)
    (λ _ w', register_ok range now1 now3 req w w') (register_err range now1 now3 req w) w.
Proof.
  intros Hrange Hagree. pose proof Hagree as (Hm & Hco & Hok). unfold RegisterFileServer.
  destruct (String.eqb_spec (rqAddress req) "") as [Ha|Ha]; [apply wp_throw; left; by split; [|left]|].
  set (nodeID := resolveNodeID _ _). assert (nodeID ≠ "") as Hne.
  { unfold nodeID, resolveNodeID. by destruct (String.eqb_spec (rqFsId req) ""). }
  wp_step. wp_step. pose proof (register_targets range (ms w) nodeID req Hrange Hne) as Ht.
  destruct (register_target range (ms w) nodeID req) as [found adopt] eqn:Heq.
  pose proof (checks_refuse range (ms w) now1 req found adopt Hm Ha Heq Ht) as Hchk. cbv zeta in Hchk.
  fold nodeID in Hchk.
  destruct (if bool_decide (adopt = None) then _ else None) as [addr|].
  { apply wp_throw. left. split; [done|]. apply Hchk. by left. }
  destruct (registrationConflictLocked (ms w) nodeID found (rqUsers req)) as [msg|] eqn:Hc.
  { apply wp_throw. left. split; [done|]. apply Hchk. by right. }
  assert (¬ refused range (ms w) now1 req) as Hnr by (rewrite Hchk; by intros []).
  destruct found as [fsID|], adopt as [name|]; try done; simpl targets in Ht.
  - rewrite bool_decide_true by by eexists. destruct Ht as [(i & Hi & <-) Hf].
    apply wp_bind, wp_bind, on_ms_wp, wp_ret.
    destruct (ready_adopted nodeID fsID i w Hagree Hi Hne Hf) as [Hp Hrd].
    apply finish_from; try done. by apply conflict_claimable.
  - rewrite bool_decide_false by (by intros []). destruct Ht as (i & Hi & Hn).
    apply wp_bind, wp_bind, wp_ret, wp_ret.
    destruct (ready_known nodeID fsID i w Hagree Hi Hn) as [Hp Hrd].
    apply finish_from; try done. by apply conflict_claimable.
  - apply wp_bind. eapply wp_mono; [by apply register_allocate_wp| |].
    + intros fsID w1 (Hp & _ & Hrd & Hok1). apply finish_from; try done. by apply claimable_new.
    + intros e w1 [-> Hms]. right. split_and!; [done|done|by rewrite Hms|by left].
Qed.

(** C23. When memory and store agree, a registration is refused, with nothing changed, exactly
    for an empty address, while a live node holds the identity at another address, or when
    a user of the request has its home on another node (the node whose identity the request
    takes over aside): no such request is ever accepted or reaches the store.  One that
    succeeds gives the node its address and makes it
    the home of exactly the users of the request and those it had or had orphaned (less
    the ones it no longer reports when purging is allowed); it replaces the shares its
    users publish by those of the request and leaves other nodes, users and shares as
    they were, for every order of the ranges; memory and store agree afterwards, also
    when a legacy node took a new identity or a new node was allocated.  When the store
    fails, the memory is consistent, and has done nothing or the whole registration. *)
Theorem RegisterFileServer_correct range now1 now2 now3 req w :
  (∀ fs, range fs ≡ₚ map_to_list fs) → agree view w →
  match RegisterFileServer range now1 now2 now3 req w with
  | (w', Ok _) => ¬ refused range (ms w) now1 req ∧ agree view w' ∧ ∃ fsID,
      register_effect (resolveNodeID (rqFsId req) (rqAddress req)) fsID now3 req (ms w) (ms w')
  | (w', Err e) =>
      w' = w ∧ refused range (ms w) now1 req
      ∨ e = persist_failed ∧ ¬ refused range (ms w) now1 req ∧ mem_ok (ms w')
        ∧ (ms w' = ms w ∨ ∃ fsID,
             register_effect (resolveNodeID (rqFsId req) (rqAddress req)) fsID now3 req (ms w) (ms w'))
  | (_, Panic _) => False
  end.
Proof.
  intros Hrange Hagree.
  pose proof (RegisterFileServer_wp range now1 now2 now3 req w Hrange Hagree) as Hwp.
  unfold wp in Hwp. by destruct (RegisterFileServer _ _ _ _ _ _) as [w' [a|e|y]].
Qed.
End spec.
