(* ===== verification/MetaRestart.v ===== *)
(** * Restarting the metaserver

    A metaserver started on the store of another that agrees with it routes as the other
    did ([hydrate] in internal/metaserver/metaserver.go), and every world the handlers
    can reach from an empty store is in agreement, so a restart never changes where users
    and shares are. *)
From S2P Require Import Prelude GoStd Storage Metaserver MetaSpec MetaShares MetaNodes MetaRegister.

(** ** Tables built by ranges *)

Lemma each_insert_NoDup {A K V} `{Countable K} (key : A → K) (val : A → V) (l : list A) (m : gmap K V) k v :
  NoDup (key <$> l) → (∀ a, a ∈ l → m !! key a = None) →
  each (λ a, <[key a := val a]>) l m !! k = Some v ↔
  (∃ a, a ∈ l ∧ key a = k ∧ val a = v) ∨ m !! k = Some v.
Proof.
  revert m. induction l as [|a l IH]; intros m Hnd Hm; [set_solver|].
  rewrite fmap_cons, NoDup_cons in Hnd. destruct Hnd as [Ha Hnd].
  change (each (λ a, <[key a := val a]>) (a :: l) m) with (each (λ a, <[key a := val a]>) l (<[key a := val a]> m)).
  rewrite IH; [|done|].
  - rewrite lookup_insert_Some. setoid_rewrite elem_of_cons. split.
    + intros [(b & ? & ? & ?)|[[? ?]|[? ?]]]; [left; exists b; auto|left; exists a; auto|by right].
    + intros [(b & [->|?] & ? & ?)|Hk]; [auto|left; exists b; auto|].
      right. right. split; [|done]. intros He. rewrite <-He, (Hm a) in Hk by set_solver. done.
  - intros b Hb. rewrite lookup_insert_ne; [apply Hm; set_solver|].
    intros He. apply Ha. rewrite He. apply list_elem_of_fmap. by exists b.
Qed.

(** How often a value occurs. *)
Definition occurrences (id : Z) (l : list Z) : Z := Z.of_nat (length (List.filter (λ x, x =? id) l)).

Lemma each_count l fs id :
  each count_user l fs !! id = (λ i, set_fiUserCount (fiUserCount i + occurrences id l) i) <$> fs !! id.
Proof.
  revert fs. induction l as [|x l IH]; intros fs.
  { unfold occurrences. simpl. destruct (fs !! id) as [[]|]; [|done]. simpl. unfold set_fiUserCount. simpl.
    by rewrite Z.add_0_r. }
  change (each count_user (x :: l) fs) with (each count_user l (count_user x fs)). rewrite IH.
  unfold count_user, occurrences. simpl. destruct (Z.eqb_spec x id) as [->|Hne].
  - rewrite lookup_alter_eq. destruct (fs !! id) as [i|]; [|done]. simpl.
    unfold set_fiUserCount. simpl. do 2 f_equal. lia.
  - by rewrite lookup_alter_ne.
Qed.

Lemma occurrences_values (m : MetaServer) id :
  occurrences id (map_to_list (users m)).*2 = countUsersForFileServerLocked m id.
Proof.
  unfold occurrences, countUsersForFileServerLocked. f_equal.
  induction (map_to_list (users m)) as [|[u x] l IH]; [done|]. simpl.
  destruct (x =? id); simpl; [f_equal|]; exact IH.
Qed.

Lemma each_hydrate_user n2n l us os :
  each (hydrate_user n2n) l (us, os)
  = (each (λ u m, from_option (λ id, <[Username u := id]> m) m (n2n !! HomeNodeID u)) l us,
     each (λ u m, from_option (λ _, m) (<[Username u := HomeNodeID u]> m) (n2n !! HomeNodeID u)) l os).
Proof.
  revert us os. induction l as [|u l IH]; intros us os; [done|].
  change (each (hydrate_user n2n) (u :: l) (us, os)) with (each (hydrate_user n2n) l (hydrate_user n2n u (us, os))).
  unfold hydrate_user at 2. simpl. unfold each in *. simpl. destruct (n2n !! HomeNodeID u); simpl; apply IH.
Qed.

(** A range that inserts only for some elements. *)
Lemma each_maybe {A V} (key : A → string) (val : A → option V) (l : list A) (m : gmap string V) k v :
  NoDup (key <$> l) → (∀ a, a ∈ l → m !! key a = None) →
  each (λ a m, from_option (λ v, <[key a := v]> m) m (val a)) l m !! k = Some v ↔
  (∃ a, a ∈ l ∧ key a = k ∧ val a = Some v) ∨ m !! k = Some v.
Proof.
  revert m. induction l as [|a l IH]; intros m Hnd Hm; [set_solver|].
  rewrite fmap_cons, NoDup_cons in Hnd. destruct Hnd as [Ha Hnd].
  set (m1 := from_option (λ v, <[key a := v]> m) m (val a)).
  change (each _ (a :: l) m) with (each (λ a m, from_option (λ v, <[key a := v]> m) m (val a)) l m1).
  assert (∀ q w, m1 !! q = Some w ↔ q = key a ∧ val a = Some w ∨ m !! q = Some w) as Hm1.
  { intros q w. unfold m1. destruct (val a) as [x|] eqn:Hx; simpl; [|naive_solver].
    rewrite lookup_insert_Some. split; [naive_solver|]. intros [[-> [= ->]]|Hq]; [by left|].
    right. split; [|done]. intros He. rewrite <-He, (Hm a) in Hq by set_solver. done. }
  rewrite IH; [|done|].
  - rewrite Hm1. setoid_rewrite elem_of_cons. split.
    + intros [(b & ? & ? & ?)|[[-> ?]|?]]; [left; exists b; auto|left; exists a; auto|by right].
    + intros [(b & [->|?] & ? & ?)|?]; [right; left; auto|left; exists b; auto|by right; right].
  - intros b Hb. destruct (m1 !! key b) as [w|] eqn:Hw; [|done].
    apply Hm1 in Hw as [[He _]|Hw]; [|by rewrite (Hm b) in Hw by set_solver].
    destruct Ha. rewrite <-He. apply list_elem_of_fmap. by exists b.
Qed.

Definition entry_of_share (sh : ShareRecord) : SharedDirEntry := mkEntry (Owner sh) (Path sh) (DisplayName sh).

Lemma each_add_entry l sh g :
  lookup_shared (each (λ s, add_entry (Grantee s) (entry_of_share s)) l sh) g
  = lookup_shared sh g ++ (entry_of_share <$> filter (λ s, Grantee s = g) l).
Proof.
  revert sh. induction l as [|s l IH]; intros sh; [by rewrite app_nil_r|].
  change (each _ (s :: l) sh) with (each (λ s, add_entry (Grantee s) (entry_of_share s)) l
    (add_entry (Grantee s) (entry_of_share s) sh)).
  rewrite IH, lookup_add, filter_cons. case_decide; [|done]. simpl. by rewrite <-(assoc_L (++)).
Qed.

Lemma each_ensure us sh g : lookup_shared (each ensure_shared us sh) g = lookup_shared sh g.
Proof.
  revert sh. induction us as [|u us IH]; intros sh; [done|].
  etrans; [apply (IH (ensure_shared u sh))|apply lookup_ensure].
Qed.

Lemma entry_keys_NoDup l g :
  NoDup (key_of <$> l) → NoDup (entry_key <$> (entry_of_share <$> filter (λ s, Grantee s = g) l)).
Proof.
  induction l as [|s l IH]; [intros _; apply NoDup_nil_2|]. rewrite fmap_cons, NoDup_cons. intros [Hs Hl].
  rewrite filter_cons. case_decide as Hg; [|auto]. simpl. rewrite NoDup_cons. split; [|auto].
  rewrite <-list_fmap_compose. intros (s' & He & [Hg' Hs']%list_elem_of_filter)%list_elem_of_fmap. apply Hs.
  apply list_elem_of_fmap. exists s'. split; [|done]. unfold key_of. simpl in He.
  unfold entry_key, entry_of_share in He. simpl in He. congruence.
Qed.

(** ** A restart *)

(** Who may be routed where depends on the routing only. *)
#[export] Instance may_navigate_proper : Proper (same_routing ==> eq ==> eq ==> iff) may_navigate.
Proof.
  intros m m' Hm u _ <- r _ <-. unfold may_navigate. by setoid_rewrite (sr_visible _ _ Hm).
Qed.

Section spec.
Context {S : Type} `{HM : MetaStore S} (view : S → meta_state) `{HL : !MetaStoreLaws view}.

Section hydrate.
Context (m m0 : MetaServer) (st : meta_state) (snap : MetaSnapshot) (now : Z).
Hypothesis Hm : mem_ok m.
Hypothesis Hco : coherent m st.
Hypothesis Hok : state_ok st.
Hypothesis Hls : lists st snap.

(** The nodes of the snapshot by numeric id and by identity. *)
Lemma snap_ids : NoDup (NumericID <$> FileServers snap).
Proof.
  destruct Hls as (Hfs & Hnd & _). revert Hnd.
  assert (∀ r r', r ∈ FileServers snap → r' ∈ FileServers snap → NumericID r = NumericID r' → r = r') as Hinj.
  { intros r r' Hr%Hfs Hr'%Hfs He.
    destruct (co_memory _ _ Hco _ _ Hr) as (i & Hi & Hn & _), (co_memory _ _ Hco _ _ Hr') as (i' & Hi' & Hn' & _).
    rewrite He in Hi. rewrite Hi in Hi'. injection Hi' as <-. congruence. }
  generalize dependent (FileServers snap). clear. intros l _ Hinj Hnd.
  induction l as [|r l IH]; [apply NoDup_nil_2|]. simpl in Hnd |- *. apply NoDup_cons in Hnd as [Hr Hnd].
  apply NoDup_cons. split; [|apply IH; [|done]; intros r1 r2 H1 H2; apply Hinj; set_solver].
  intros (r' & He & Hr')%list_elem_of_fmap. apply Hr. apply list_elem_of_fmap. exists r'.
  split; [|done]. f_equal. apply Hinj; set_solver.
Qed.

Let fs0 := each (λ rec, <[NumericID rec := hydrate_node now rec]>) (FileServers snap)
  (∅ : gmap Z FileServerInfo).
Let n2n := each (λ rec, <[NodeID rec := NumericID rec]>) (FileServers snap) (∅ : gmap string Z).

Lemma hydrated_nodes id i' :
  fs0 !! id = Some i' ↔ ∃ r, ns_nodes st !! NodeID r = Some r ∧ NumericID r = id ∧ hydrate_node now r = i'.
Proof.
  unfold fs0. rewrite each_insert_NoDup; [|apply snap_ids|intros; apply lookup_empty].
  rewrite lookup_empty. destruct Hls as (Hfs & _). setoid_rewrite Hfs. naive_solver.
Qed.

Lemma hydrated_numbers n id :
  n2n !! n = Some id ↔ ∃ r, ns_nodes st !! n = Some r ∧ NumericID r = id.
Proof.
  destruct Hls as (Hfs & Hnd & _).
  unfold n2n. rewrite each_insert_NoDup; [|done|intros; apply lookup_empty].
  rewrite lookup_empty. setoid_rewrite Hfs. split.
  - intros [(r & Hr & <- & <-)|?]; [by exists r|done].
  - intros (r & Hr & <-). left. exists r. by rewrite (proj1 Hok _ _ Hr).
Qed.

Lemma hydrated_users u id :
  each (λ u m, from_option (λ id, <[Username u := id]> m) m (n2n !! HomeNodeID u)) (Users snap)
    (∅ : gmap string Z) !! u = Some id
  ↔ users m !! u = Some id.
Proof.
  destruct Hls as (_ & _ & Hus & Hnd & _).
  rewrite (each_maybe Username (λ u, n2n !! HomeNodeID u)); [|done|intros; apply lookup_empty].
  rewrite lookup_empty. setoid_rewrite Hus. setoid_rewrite hydrated_numbers.
  setoid_rewrite (co_users _ _ Hco). unfold home. split.
  - intros [([u' h] & Hh & Hu & r & Hr & Hid)|?]; [|done]. simpl in *. subst u' id.
    destruct (co_memory _ _ Hco _ _ Hr) as (i & Hi & Hn & _).
    destruct (users m !! u) as [id'|] eqn:Hid'.
    + destruct (mo_users _ Hm u id' Hid') as [i' Hi']. rewrite Hi' in Hh. simpl in Hh. injection Hh as Hn'.
      f_equal. apply (mo_nodes _ Hm _ _ i' i); [done..|congruence].
    + destruct (mo_homes _ Hm u h Hh) as [_ Ho]. by destruct (Ho _ _ Hi).
  - intros Hid. left. destruct (mo_users _ Hm u id Hid) as [i Hi].
    exists (mkUserRecord u (fiNodeID i)). simpl. rewrite Hid, Hi. split_and!; [done..|].
    by apply (co_store _ _ Hco).
Qed.

Lemma hydrated_orphans u h :
  each (λ u m, from_option (λ _, m) (<[Username u := HomeNodeID u]> m) (n2n !! HomeNodeID u)) (Users snap)
    (∅ : gmap string string) !! u = Some h
  ↔ orphanedUsers m !! u = Some h.
Proof.
  destruct Hls as (_ & _ & Hus & Hnd & _).
  assert (∀ (l : list UserRecord) (m : gmap string string),
    each (λ u m, from_option (λ _, m) (<[Username u := HomeNodeID u]> m) (n2n !! HomeNodeID u)) l m
    = each (λ u m, from_option (λ h, <[Username u := h]> m) m
        (if n2n !! HomeNodeID u then None else Some (HomeNodeID u))) l m) as ->.
  { clear. intros l. induction l as [|u l IH]; intros m; [done|]. unfold each in *. simpl. rewrite <-IH.
    by destruct (n2n !! HomeNodeID u). }
  rewrite (each_maybe Username (λ u, if n2n !! HomeNodeID u then None else Some (HomeNodeID u)));
    [|done|intros; apply lookup_empty].
  rewrite lookup_empty. setoid_rewrite Hus. setoid_rewrite (co_users _ _ Hco). unfold home. split.
  - intros [([u' h'] & Hh & Hu & Hn)|?]; [|done]. simpl in *. subst u'.
    destruct (n2n !! h') as [id|] eqn:Hn2n; [done|]. injection Hn as <-.
    destruct (users m !! u) as [id'|] eqn:Hid'; [|done].
    destruct (mo_users _ Hm u id' Hid') as [i' Hi']. rewrite Hi' in Hh. simpl in Hh. injection Hh as Hn'.
    destruct (co_store _ _ Hco _ _ Hi') as (r & Hr & Hrid). rewrite Hn' in Hr.
    assert (n2n !! h' = Some id') as He by (apply hydrated_numbers; by exists r). congruence.
  - intros Hh. left. exists (mkUserRecord u h). simpl. rewrite (mo_orphans _ Hm u h Hh), Hh.
    split_and!; [done..|]. destruct (n2n !! h) as [id|] eqn:Hn2n; [|done].
    apply hydrated_numbers in Hn2n as (r & Hr & Hid).
    destruct (co_memory _ _ Hco _ _ Hr) as (i & Hi & Hn & _).
    destruct (mo_homes _ Hm u h Hh) as [_ Ho]. by destruct (Ho _ _ Hi).
Qed.

Lemma hydrate_same :
  let m' := hydrate_from now snap m0 in
  same_routing m m' ∧ ∀ g, NoDup (entry_key <$> shared_of m' g).
Proof.
  unfold hydrate_from. fold fs0. fold n2n. rewrite each_hydrate_user.
  assert (each (λ u m, from_option (λ id, <[Username u := id]> m) m (n2n !! HomeNodeID u)) (Users snap)
    (∅ : gmap string Z) = users m) as -> by (apply map_eq; intros u; apply option_eq; intros id; apply hydrated_users).
  assert (each (λ u m, from_option (λ _, m) (<[Username u := HomeNodeID u]> m) (n2n !! HomeNodeID u)) (Users snap)
    (∅ : gmap string string) = orphanedUsers m) as -> by (apply map_eq; intros u; apply option_eq; intros id; apply hydrated_orphans).
  cbv zeta. destruct Hls as (_ & _ & _ & _ & Hsh & Hshnd).
  assert (∀ g, lookup_shared (each ensure_shared (map_to_list (users m)).*1
      (each (λ s, add_entry (Grantee s) (mkEntry (Owner s) (Path s) (DisplayName s))) (Shares snap) ∅)) g
    = entry_of_share <$> filter (λ s, Grantee s = g) (Shares snap)) as Hshared.
  { intros g. rewrite each_ensure. etrans; [apply (each_add_entry (Shares snap) ∅ g)|].
    unfold lookup_shared. by rewrite lookup_empty. }
  split; [split; simpl; [|done..|]|].
  - intros id. rewrite each_count, occurrences_values. unfold static.
    destruct (fileservers m !! id) as [i|] eqn:Hi; simpl.
    + destruct (co_store _ _ Hco _ _ Hi) as (r & Hr & Hrid).
      destruct (co_memory _ _ Hco _ _ Hr) as (i' & Hi' & Hn & Ha). rewrite Hrid, Hi in Hi'. injection Hi' as <-.
      assert (NodeID r = fiNodeID i) as Hrn by apply (proj1 Hok _ _ Hr).
      assert (fs0 !! id = Some (hydrate_node now r)) as ->
        by (apply hydrated_nodes; exists r; by rewrite Hrn).
      simpl. rewrite (mo_count _ Hm id i Hi), Hrn, Ha. done.
    + destruct (fs0 !! id) as [j|] eqn:Hj; [|done].
      apply hydrated_nodes in Hj as (r & Hr & <- & _).
      destruct (co_memory _ _ Hco _ _ Hr) as (i & Hi' & _). congruence.
  - intros g o p. rewrite <-(co_shares _ _ Hco). unfold visible at 1.
    match goal with |- context [shared_of ?m' g] => change (shared_of m' g) with (lookup_shared (shared m') g) end.
    simpl. rewrite Hshared, <-list_fmap_compose, list_elem_of_fmap. split.
    + intros [sh Hk]. pose proof (proj2 Hok _ _ Hk) as He. exists sh.
      unfold key_of in He. simplify_eq. split; [done|]. apply list_elem_of_filter. split; [done|].
      by apply Hsh.
    + intros (sh & He & [Hg Hin%Hsh]%list_elem_of_filter). unfold key_of in Hin.
      unfold entry_key, entry_of_share in He. simpl in He. simplify_eq. by exists sh.
  - intros g. match goal with |- context [shared_of ?m' g] => change (shared_of m' g) with (lookup_shared (shared m') g) end.
    simpl. rewrite Hshared. by apply entry_keys_NoDup.
Qed.
End hydrate.

Lemma NewMetaServer_wp now m s :
  agree view (mkWorld m s) →
  wp (NewMetaServer now) (λ m' s', same_routing m m' ∧ agree view (mkWorld m' s'))
    (λ _ s', view s' = view s) s.
Proof.
  intros (Hm & Hco & Hok). simpl in *. pose proof (law_snapshot view s Hok) as Hl.
  unfold wp, NewMetaServer, hydrate, mbind, M_bind, catch, on_store in *. simpl.
  destruct (LoadSnapshot s) as [s' [snap|e|y]]; simpl; [| |done].
  - destruct Hl as [Hls Hv]. destruct (hydrate_same m fresh_server _ snap now Hm Hco Hok Hls) as [Hsame Hdup].
    split; [done|]. unfold agree. simpl. rewrite Hv.
    split_and!; [by eapply routing_mem_ok|by eapply routing_coherent|done].
  - done.
Qed.

(** ** The monitor *)

Lemma mark_stale_same range m now m' l :
  markStaleFileServersLocked range m now = (l, m') → same_tables m m'.
Proof.
  unfold markStaleFileServersLocked. intros [= <- <-]. split; try done. intros id. simpl.
  rewrite lookup_fmap. destruct (fileservers m !! id) as [i|]; [|done]. simpl. by case_match.
Qed.

Lemma monitor_tick_wp range now w :
  agree view w →
  wp (monitor_tick range now) (λ _ w', agree view w' ∧ same_tables (ms w) (ms w')) (λ _ _, False) w.
Proof.
  intros Hagree. unfold monitor_tick. wp_step. wp_step.
  destruct (markStaleFileServersLocked range (ms w) now) as [l m'] eqn:Hmark.
  pose proof (mark_stale_same _ _ _ _ _ Hmark) as Hsame. wp_step. apply on_ms_wp.
  apply (wp_for_each (λ _ w', agree view w' ∧ same_tables (ms w) (ms w'))).
  - split; [|done]. by apply (agree_same view w).
  - intros n l' w1 _ [Hagree1 Hsame1]. eapply wp_mono.
    + eapply (liveness_write_agree view _ _ n); [apply (law_status view)|done|done].
    + intros _ w2 [Hms Hagree2]. split; [done|]. by rewrite Hms.
    + done.
  - done.
Qed.

(** ** Everything that can happen to a metaserver *)

(** The worlds reached from an empty store by starts, calls and ticks of the monitor, as
    long as the store takes the writes of registrations, deregistrations and
    revocations, and no share is recorded for a user before its first login. *)
Inductive served (range : gmap Z FileServerInfo → list (Z * FileServerInfo)) : world S → Prop :=
  | served_start now s s' m :
      view s = mkMetaState ∅ ∅ ∅ → NewMetaServer now s = (s', Ok m) → served range (mkWorld m s')
  | served_restart now w s' m :
      served range w → NewMetaServer now (store w) = (s', Ok m) → served range (mkWorld m s')
  | served_register n1 n2 n3 req w w' r :
      served range w → RegisterFileServer range n1 n2 n3 req w = (w', r) →
      r ≠ Err persist_failed → served range w'
  | served_deregister fsId address w w' :
      served range w → DeregisterFileServer range fsId address w = (w', Ok tt) → served range w'
  | served_heartbeat now fsId address w w' r :
      served range w → Heartbeat range now fsId address w = (w', r) → served range w'
  | served_roots now user w w' r :
      served range w → (users (ms w) !! user = None → shared_of (ms w) user = []) →
      GetRoots range now user w = (w', r) → served range w'
  | served_navigate now user root w w' r :
      served range w → Navigate now user root w = (w', r) → served range w'
  | served_share owner path name grantee w w' r :
      served range w → RootShare owner path name grantee w = (w', r) → served range w'
  | served_unshare owner path grantee w w' r :
      served range w → RootUnshare owner path grantee w = (w', r) →
      r ≠ Err persist_failed → served range w'
  | served_tick now w w' r :
      served range w → monitor_tick range now w = (w', r) → served range w'
  | served_purge allow w w' r :
      served range w → SetAllowUserPurge allow w = (w', r) → served range w'
  | served_config timeout interval w w' r :
      served range w → SetHeartbeatConfig timeout interval w = (w', r) → served range w'.

Lemma fresh_agree s : view s = mkMetaState ∅ ∅ ∅ → agree view (mkWorld fresh_server s).
Proof.
  intros Hv. unfold agree. simpl. rewrite Hv.
  assert (∀ g, shared_of fresh_server g = []) as Hnil by (intros g; unfold shared_of; simpl; by rewrite lookup_empty).
  split_and!.
  - split; simpl; intros *; rewrite ?lookup_empty; try done.
    rewrite Hnil. apply NoDup_nil_2.
  - split; simpl; intros *; rewrite ?lookup_empty; try done.
    unfold visible. rewrite Hnil. split; [by intros []|by intros ?%elem_of_nil].
  - split; simpl; intros *; by rewrite lookup_empty.
Qed.

(** The whole of a completed call, from its weakest precondition. *)
Lemma run_wp {A} (c : M (world S) A) Q E (P : world S → Prop) w w' r :
  wp c Q E w → c w = (w', r) → (∀ a, r = Ok a → Q a w' → P w') → (∀ e, r = Err e → E e w' → P w') → P w'.
Proof. unfold wp. intros Hwp Hr HQ HE. rewrite Hr in Hwp. destruct r as [a|e|y]; [eauto..|done]. Qed.

Lemma served_agree range w :
  (∀ fs, range fs ≡ₚ map_to_list fs) → served range w → agree view w.
Proof.
  intros Hrange. induction 1 as [now s s' m Hv Hr|now w s' m _ IH Hr|n1 n2 n3 req w w' r _ IH Hr Hne
    |fsId address w w' _ IH Hr|now fsId address w w' r _ IH Hr|now user w w' r _ IH Hnil Hr
    |now user root w w' r _ IH Hr|owner path name g w w' r _ IH Hr|owner path g w w' r _ IH Hr Hne
    |now w w' r _ IH Hr|allow w w' r _ IH Hr|timeout interval w w' r _ IH Hr].
  - pose proof (NewMetaServer_wp now fresh_server s (fresh_agree s Hv)) as Hwp.
    unfold wp in Hwp. rewrite Hr in Hwp. apply Hwp.
  - destruct w as [m0 s0]. pose proof (NewMetaServer_wp now m0 s0 IH) as Hwp.
    unfold wp in Hwp. simpl in Hr. rewrite Hr in Hwp. apply Hwp.
  - eapply run_wp; [by apply (RegisterFileServer_wp view range n1 n2 n3 req w)|exact Hr| |].
    + intros _ _ (_ & Hagree & _). exact Hagree.
    + intros e -> [[-> _]|[-> _]]; [done|by destruct Hne].
  - pose proof (DeregisterFileServer_wp view range fsId address w Hrange IH) as Hwp.
    destruct (deregister_target _ _ _ _) as [nodeID found]. unfold wp in Hwp. rewrite Hr in Hwp. apply Hwp.
  - eapply run_wp; [by apply (Heartbeat_wp view range now fsId address w)|exact Hr| |].
    + intros _ _ [Hagree _]. exact Hagree.
    + by intros e _ [-> _].
  - eapply run_wp; [by apply (GetRoots_wp view range now user w)|exact Hr| |].
    + intros _ _ (_ & Hagree & _). exact Hagree.
    + intros e _ [Hagree _]. exact Hagree.
  - pose proof (Navigate_pure now user root w) as Hp. rewrite Hr in Hp. simpl in Hp. by subst w'.
  - eapply run_wp; [by apply (RootShare_wp view owner path name g w)|exact Hr| |].
    + intros _ _ [Hagree _]. exact Hagree.
    + intros e _ [Hagree _]. exact Hagree.
  - eapply run_wp; [by apply (RootUnshare_wp view owner path g w)|exact Hr| |].
    + intros _ _ [Hagree _]. exact Hagree.
    + intros e -> [[-> _]|[-> _]]; [done|by destruct Hne].
  - eapply run_wp; [by apply (monitor_tick_wp range now w)|exact Hr| |].
    + intros _ _ [Hagree _]. exact Hagree.
    + done.
  - injection Hr as <- _. by apply (agree_same view w).
  - injection Hr as <- _. by apply (agree_same view w).
Qed.

End spec.
