(* ===== verification/MetaDemo.v ===== *)
(** * A metaserver over the in-process store, on concrete inputs

    The witnesses of the properties of the metaserver, and two runs that show where
    memory and store part. *)
From S2P Require Import Prelude GoStd Storage Memory Metaserver MetaSpec MetaShares MetaNodes MetaRegister.
From S2P Require Import MetaRestart.

(** One of the orders in which Go may range. *)
Definition rng : gmap Z FileServerInfo → list (Z * FileServerInfo) := map_to_list.

Lemma rng_perm fs : rng fs ≡ₚ map_to_list fs.
Proof. done. Qed.

(** A start, a node with two users and a share, and a second node. *)
Definition req1 : RegisterRequest :=
  mkRegisterRequest "fs1" "h:1" ["alice"; "bob"] [mkSharedDirectory "alice" "alice/proj" "proj" ["bob"]].
Definition req2 : RegisterRequest := mkRegisterRequest "fs2" "h:2" [] [].
Definition store0 : mem_world := mkMemWorld New [].
Definition meta0 : world mem_world := mkWorld fresh_server store0.
Definition meta1 : world mem_world := (RegisterFileServer rng 100 100 100 req1 meta0).1.
Definition meta2 : world mem_world := (RegisterFileServer rng 101 101 101 req2 meta1).1.

Lemma meta0_served : served view rng meta0.
Proof.
  assert (NewMetaServer 100 store0 = (store0, Ok fresh_server)) as Hr by (vm_compute; reflexivity).
  exact (served_start view rng 100 store0 store0 fresh_server eq_refl Hr).
Qed.

Lemma meta1_served : served view rng meta1.
Proof.
  eapply (served_register view rng 100 100 100 req1 meta0); [apply meta0_served|apply surjective_pairing|].
  assert ((RegisterFileServer rng 100 100 100 req1 meta0).2 = Ok tt) as -> by (vm_compute; reflexivity). done.
Qed.

Lemma meta2_served : served view rng meta2.
Proof.
  eapply (served_register view rng 101 101 101 req2 meta1); [apply meta1_served|apply surjective_pairing|].
  assert ((RegisterFileServer rng 101 101 101 req2 meta1).2 = Ok tt) as -> by (vm_compute; reflexivity). done.
Qed.

Lemma meta2_agree : agree view meta2.
Proof. exact (served_agree view rng meta2 rng_perm meta2_served). Qed.

(** ** Witnesses *)

Lemma Heartbeat_correct_witness :
  agree view meta2 ∧ ∃ w', Heartbeat rng 130 "fs1" "h:1" meta2 = (w', Ok tt) ∧ agree view w'.
Proof.
  split; [exact meta2_agree|].
  pose proof (Heartbeat_correct view rng 130 "fs1" "h:1" meta2 rng_perm meta2_agree) as Ht. cbv zeta in Ht.
  assert ((Heartbeat rng 130 "fs1" "h:1" meta2).2 = Ok tt) as Hr by (vm_compute; reflexivity).
  destruct (Heartbeat rng 130 "fs1" "h:1" meta2) as [w' r]. simpl in Hr. subst r.
  exists w'. split; [reflexivity|apply Ht].
Defined.

Lemma GetRoots_correct_witness :
  agree view meta2 ∧ ∃ w' roots, GetRoots rng 130 "carol" meta2 = (w', Ok roots)
    ∧ agree view w' ∧ roots = [mkEntry "carol" "carol" "mydrive"] ∧ home (ms w') "carol" = Some "fs2".
Proof.
  split; [exact meta2_agree|].
  assert (users (ms meta2) !! "carol" = None → shared_of (ms meta2) "carol" = []) as Hnil
    by (intros _; vm_compute; reflexivity).
  pose proof (GetRoots_correct view rng 130 "carol" meta2 rng_perm meta2_agree Hnil) as Ht.
  assert ((GetRoots rng 130 "carol" meta2).2 = Ok [mkEntry "carol" "carol" "mydrive"]) as Hr
    by (vm_compute; reflexivity).
  assert (home (ms (GetRoots rng 130 "carol" meta2).1) "carol" = Some "fs2") as Hh by (vm_compute; reflexivity).
  destruct (GetRoots rng 130 "carol" meta2) as [w' r]. simpl in Hr, Hh. subst r.
  exists w', [mkEntry "carol" "carol" "mydrive"]. split; [reflexivity|]. split; [apply Ht|]. split; [reflexivity|exact Hh].
Defined.

Lemma RootShare_correct_witness :
  agree view meta2 ∧ ∃ w', RootShare "bob" "/bob\pics/" "pics" "alice" meta2 = (w', Ok tt)
    ∧ agree view w' ∧ visible (ms w') "alice" "bob" "bob/pics".
Proof.
  split; [exact meta2_agree|].
  pose proof (RootShare_correct view "bob" "/bob\pics/" "pics" "alice" meta2 meta2_agree) as Ht. cbv zeta in Ht.
  assert ((RootShare "bob" "/bob\pics/" "pics" "alice" meta2).2 = Ok tt) as Hr by (vm_compute; reflexivity).
  destruct (RootShare _ _ _ _ meta2) as [w' r]. simpl in Hr. subst r.
  exists w'. split; [reflexivity|]. destruct Ht as (Ha & _ & _ & _ & _ & Hv). split; [exact Ha|].
  apply Hv. left. reflexivity.
Defined.

Lemma RootUnshare_correct_witness :
  agree view meta2 ∧ visible (ms meta2) "bob" "alice" "alice/proj"
  ∧ ∃ w', RootUnshare "alice" "alice/proj" "bob" meta2 = (w', Ok tt)
    ∧ agree view w' ∧ ¬ visible (ms w') "bob" "alice" "alice/proj".
Proof.
  split; [exact meta2_agree|]. split; [apply containsShare_spec; vm_compute; reflexivity|].
  pose proof (RootUnshare_correct view "alice" "alice/proj" "bob" meta2 meta2_agree) as Ht. cbv zeta in Ht.
  assert ((RootUnshare "alice" "alice/proj" "bob" meta2).2 = Ok tt) as Hr by (vm_compute; reflexivity).
  destruct (RootUnshare _ _ _ meta2) as [w' r]. simpl in Hr. subst r.
  exists w'. split; [reflexivity|]. destruct Ht as (Ha & _ & _ & _ & Hv). split; [exact Ha|].
  intros Hx. apply Hv in Hx as [_ Hx]. apply Hx. reflexivity.
Defined.

Lemma DeregisterFileServer_correct_witness :
  agree view meta2 ∧ home (ms meta2) "alice" = Some "fs1"
  ∧ ∃ w', DeregisterFileServer rng "fs1" "" meta2 = (w', Ok tt) ∧ agree view w' ∧ home (ms w') "alice" = None.
Proof.
  split; [exact meta2_agree|]. split; [vm_compute; reflexivity|].
  pose proof (DeregisterFileServer_correct view rng "fs1" "" meta2 rng_perm meta2_agree) as Ht.
  assert (deregister_target rng (ms meta2) "fs1" "" = ("fs1", Some 0)) as Htgt by (vm_compute; reflexivity).
  rewrite Htgt in Ht.
  assert ((DeregisterFileServer rng "fs1" "" meta2).2 = Ok tt) as Hr by (vm_compute; reflexivity).
  destruct (DeregisterFileServer rng "fs1" "" meta2) as [w' r]. simpl in Hr. subst r.
  exists w'. split; [reflexivity|]. destruct Ht as (Ha & _ & _ & Hh & _). split; [exact Ha|].
  rewrite Hh. assert (home (ms meta2) "alice" = Some "fs1") as -> by (vm_compute; reflexivity). reflexivity.
Defined.

Lemma RegisterFileServer_correct_witness :
  agree view meta1 ∧ ∃ w', RegisterFileServer rng 101 101 101 req2 meta1 = (w', Ok tt) ∧ agree view w'.
Proof.
  pose proof (served_agree view rng meta1 rng_perm meta1_served) as Hagree. split; [exact Hagree|].
  pose proof (RegisterFileServer_correct view rng 101 101 101 req2 meta1 rng_perm Hagree) as Ht.
  assert ((RegisterFileServer rng 101 101 101 req2 meta1).2 = Ok tt) as Hr by (vm_compute; reflexivity).
  destruct (RegisterFileServer rng 101 101 101 req2 meta1) as [w' r]. simpl in Hr. subst r.
  exists w'. split; [reflexivity|apply Ht].
Defined.


(** ** Where memory and store part *)

(** Alice's node registers while dave, with whom she shares, has never logged in. *)
Definition req_pending : RegisterRequest :=
  mkRegisterRequest "fs1" "h:1" ["alice"] [mkSharedDirectory "alice" "alice/proj" "proj" ["dave"]].
Definition pending : world mem_world := (RegisterFileServer rng 100 100 100 req_pending meta0).1.

(** A share published before the first login of its grantee is lost in memory at
    that login: the user is given no shared root and may not navigate to the owner,
    while the store still holds the grant and a restart brings it back. *)
Theorem first_login_drops_shares :
  served view rng pending
  ∧ visible (ms pending) "dave" "alice" "alice/proj"
  ∧ let '(w', r) := GetRoots rng 101 "dave" pending in
    r = Ok [mkEntry "dave" "dave" "mydrive"]
    ∧ ¬ visible (ms w') "dave" "alice" "alice/proj"
    ∧ (Navigate 101 "dave" "alice" w').2
      = Err (Errorf "user '%s' does not have access to root '%s'" ["dave"; "alice"])
    ∧ is_Some (ns_shares (view (store w')) !! ("dave", "alice", "alice/proj"))
    ∧ match NewMetaServer 102 (store w') with
      | (_, Ok m') => visible m' "dave" "alice" "alice/proj"
      | _ => False
      end.
Proof.
  split.
  { eapply (served_register view rng 100 100 100 req_pending meta0); [apply meta0_served|apply surjective_pairing|].
    assert ((RegisterFileServer rng 100 100 100 req_pending meta0).2 = Ok tt) as -> by (vm_compute; reflexivity).
    done. }
  split; [apply containsShare_spec; vm_compute; reflexivity|].
  assert ((GetRoots rng 101 "dave" pending).2 = Ok [mkEntry "dave" "dave" "mydrive"]) as Hr by (vm_compute; reflexivity).
  destruct (GetRoots rng 101 "dave" pending) as [w' r] eqn:Hrun. simpl in Hr. split; [done|].
  apply (f_equal fst) in Hrun. cbn [fst] in Hrun. subst w'. split_and!.
  - unfold visible. rewrite <-containsShare_spec. vm_compute. discriminate.
  - vm_compute. reflexivity.
  - vm_compute. by eexists.
  - assert (is_ok (NewMetaServer 102 (store (GetRoots rng 101 "dave" pending).1)).2 = true
      ∧ containsShare (match (NewMetaServer 102 (store (GetRoots rng 101 "dave" pending).1)).2 with
          Ok m' => shared_of m' "dave" | _ => [] end) "alice" "alice/proj" = true) as [Hok Hc]
      by (vm_compute; done).
    destruct (NewMetaServer 102 _) as [s' [m'|e|y]]; [|done..]. by apply containsShare_spec.
Qed.

(** A node that registered under its address with two users reports its new identity,
    and one user, while the store does not answer; then it tries again. *)
Definition req_legacy : RegisterRequest := mkRegisterRequest "" "h:1" ["carol"; "erin"] [].
Definition req_named : RegisterRequest := mkRegisterRequest "fs1" "h:1" ["carol"] [].
Definition legacy : world mem_world := (RegisterFileServer rng 100 100 100 req_legacy meta0).1.
Definition slow (w : world mem_world) : world mem_world :=
  mkWorld (ms w) (mkMemWorld (st (store w)) [DeadlineExceeded]).
Definition failed_once : world mem_world := (RegisterFileServer rng 110 110 110 req_named (slow legacy)).1.
Definition retried : world mem_world := (RegisterFileServer rng 120 120 120 req_named failed_once).1.

(** A registration that adopts a legacy node and whose first write fails is not
    completed by its retry, although the retry succeeds: the rename of the stored node
    is never made again, so the store keeps the old identity as the home of the users
    not reported, and a restart leaves them on a node that no longer exists. *)
Theorem adoption_retry_diverges :
  (RegisterFileServer rng 110 110 110 req_named (slow legacy)).2 = Err persist_failed
  ∧ (RegisterFileServer rng 120 120 120 req_named failed_once).2 = Ok tt
  ∧ home (ms retried) "erin" = Some "fs1"
  ∧ ns_users (view (store retried)) !! "erin" = Some "addr:h:1"
  ∧ is_Some (ns_nodes (view (store retried)) !! "addr:h:1")
  ∧ match NewMetaServer 130 (store retried) with
    | (_, Ok m') => home m' "erin" = Some "addr:h:1" ∧ home m' "carol" = Some "fs1"
    | _ => False
    end.
Proof.
  split; [vm_compute; reflexivity|]. split; [vm_compute; reflexivity|]. split; [vm_compute; reflexivity|].
  split; [vm_compute; reflexivity|]. split; [vm_compute; by eexists|]. vm_compute. done.
Qed.
