(* ===== verification/Scanner.v ===== *)
(** * Start-up: loading the tree from the disk

    Models [internal/fileserver/filescanner.go] and [NewFileServer]: the breadth-first
    scan of every user directory, the sizes of the directories, and the order in
    which the persistent documents are read. *)
From S2P Require Import FileServer Persist Tree.

Definition entry_le (x y : DirEntry) : Prop := String.leb (deName x) (deName y) = true.
#[export] Instance entry_le_dec x y : Decision (entry_le x y).
Proof. unfold entry_le. apply _. Defined.

Section scanner.
Context {D : Type} `{Env D}.
Abbreviation S' := (Server D).

(** The ACL of a scanned item: any failure falls back to the default. *)
Definition scan_acl (username path : string) : M S' ACL :=
  r ← catch (LoadACL username path);
  match r with
  | inr acl => mret acl
  | inl _ => mret (mkACL username [])
  end.

(** One entry of a scanned directory; a directory joins the queue. *)
Definition scan_entry (username userDir : string) (parent : loc) (e : DirEntry) :
    M S' (option (string * loc)) :=
  if decide (deName e = ".acl") then mret None
  else
    let itemPath := Join [userDir; deName e] in
    p ← rel itemPath;
    relPath ← of_option (Errorf "failed to calculate relative path: %w" []) p;
    id ← assign_id relPath;
    sid ← gsrv serverID;
    let newFID := mkFID sid id 1 in
    let t := if deIsDir e then InodeTypeDirectory else InodeTypeFile in
    acl ← scan_acl username relPath;
    l ← new_inode (λ _, mkInode newFID t (deName e) itemPath acl []
                          (if deIsDir e then 0 else u64 (deSize e)) (Some parent));
    usrv (λ s, set_inodes (<[FID_String newFID := l]> (inodes s)) s) ;;
    assign parent (λ i, set_iChildren (iChildren i ++ [newFID]) i) ;;
    mret (if deIsDir e then Some (itemPath, l) else None).

Fixpoint scan_entries (username userDir : string) (parent : loc) (es : list DirEntry) :
    M S' (list (string * loc)) :=
  match es with
  | [] => mret []
  | e :: rest =>
      q ← scan_entry username userDir parent e;
      more ← scan_entries username userDir parent rest;
      mret (match q with Some x => x :: more | None => more end)
  end.

(** The queue of directories still to read; [n] bounds their number. *)
Fixpoint scan_queue (n : nat) (username : string) (queue : list (string * loc)) : M S' unit :=
  match queue with
  | [] => mret tt
  | (dirPath, l) :: rest =>
      match n with
      | O => overflow
      | S n =>
          r ← osread (os_ReadDir dirPath);
          es ← wrap "failed to read user directory: %w" [] (of_sum r);
          found ← scan_entries username dirPath l (merge_sort entry_le es);
          scan_queue n username (rest ++ found)
      end
  end.

(** Sizes of the directories, bottom up, with wrapping sums. *)
Fixpoint sum_children (visit : loc → M S' Z) (children : list FID) : M S' Z :=
  match children with
  | [] => mret 0
  | f :: rest =>
      o ← find (FID_String f);
      c ← of_option (Errorf "child inode not found for FID: %s" [FID_String f]) o;
      size ← visit c;
      more ← sum_children visit rest;
      mret (u64 (size + more))
  end.
Fixpoint calculateSize (n : nat) (l : loc) : M S' Z :=
  match n with
  | O => overflow
  | S n =>
      i ← deref l;
      if decide (iType i = InodeTypeFile) then mret (iSize i)
      else
        total ← sum_children (calculateSize n) (iChildren i);
        assign l (set_iSize total) ;;
        mret total
  end.

(** One user directory. *)
Definition scan_user (n : nat) (e : DirEntry) : M S' unit :=
  if negb (deIsDir e) || HasPrefix (deName e) "." then mret tt
  else
    let username := deName e in
    userDir ← gsrv (λ s, Join [rootDir s; username]);
    acl ← scan_acl username username;
    id ← assign_id username;
    sid ← gsrv serverID;
    let rootFID := mkFID sid id 1 in
    usrv (λ s, set_users (<[username := rootFID]> (users s)) s) ;;
    l ← new_inode (λ l, mkInode rootFID InodeTypeDirectory username userDir acl [] 0 (Some l));
    usrv (λ s, set_inodes (<[FID_String rootFID := l]> (inodes s)) s) ;;
    wrap "failed to scan user directory %s: %w" [username]
      (scan_queue n username [(userDir, l)]) ;;
    m ← fuel;
    wrap "failed to calculate directory sizes for user %s: %w" [username]
      (calculateSize m l) ;;
    mret tt.

Definition loadExistingData (n : nat) : M S' unit :=
  root ← gsrv rootDir;
  r ← osread (os_ReadDir root);
  es ← wrap "failed to read root directory: %w" [] (of_sum r);
  for_each (merge_sort entry_le es) (scan_user n) ;;
  sync_next_id ;;
  store_Save.

(** [NewFileServer]: [n] bounds the number of directories of one user. *)
Definition NewFileServer (n : nat) : M S' unit :=
  ignore loadQuotas ;;
  root ← gsrv rootDir;
  wrap "failed to create root dir: %w" [] (os (os_MkdirAll root)) ;;
  st ← osread (NewInodeStore root);
  st ← wrap "failed to initialize inode store: %w" [] (of_sum st);
  usrv (set_inodeStore (Some st)) ;;
  usrv (set_nextInodeID (NextInodeID (isData st))) ;;
  wrap "failed to load existing data: %w" [] (loadExistingData n) ;;
  sh ← catch LoadDirShares;
  match sh with
  | inr _ => mret tt
  | inl _ => usrv (set_dirShares ∅)
  end.
End scanner.
