(* ===== verification/Callback.v ===== *)
(** * Client activity and invalidation callbacks

    Models [internal/fileserver/callback_server.go]: the last known activity of each
    user, who is told of a change in a directory, and the pruning of clients that
    cannot be reached.  The clock reading of a call is an argument; a callback is
    sent on a goroutine of its own, so sending appends it to the callbacks of the
    server and its outcome comes back through [recordCallbackResult]. *)
From S2P Require Import FileServer.

Definition activeSessionTTL : Z := 45 * Session.second.
Definition maxCallbackFailures : Z := 3.
Definition callbackEventFileUpdated : Z := 1.
Definition callbackEventDirNewFile : Z := 2.
Definition callbackEventFileDeleted : Z := 3.

Definition set_lastSeenAt v c :=
  mkClientSession (csUsername c) (callbackAddress c) (csRootFID c) (currentDirFID c) v
    (consecutiveFailures c).
Definition set_currentDirFID v c :=
  mkClientSession (csUsername c) (callbackAddress c) (csRootFID c) v (lastSeenAt c)
    (consecutiveFailures c).
Definition set_failures v c :=
  mkClientSession (csUsername c) (callbackAddress c) (csRootFID c) (currentDirFID c)
    (lastSeenAt c) v.

Definition on_sessions (f : gmap string clientSession → gmap string clientSession)
    (s : FileServer) : FileServer := set_fsSessions (f (fsSessions s)) s.

Definition RemoveClientSession (username : string) (s : FileServer) : FileServer :=
  if decide (username = "") then s else on_sessions (delete username) s.

Definition UpsertClientSession (username callbackAddr : string) (rootFID : option FID) (now : Z)
    (s : FileServer) : FileServer :=
  if decide (username = "") then s
  else
    let old := default (mkClientSession username "" "" "" 0 0) (fsSessions s !! username) in
    let addr := if decide (callbackAddr = "") then callbackAddress old else callbackAddr in
    let '(root, cur) := match rootFID with
                        | Some f => (FID_String f, FID_String f)
                        | None => (csRootFID old, currentDirFID old)
                        end in
    on_sessions <[username := mkClientSession (csUsername old) addr root cur now 0]> s.

Definition TouchClientActivity (username : string) (now : Z) (s : FileServer) : FileServer :=
  if decide (username = "") then s else on_sessions (alter (set_lastSeenAt now) username) s.

Definition TouchClientActivityByRootFID (rootFID : option FID) (now : Z) (s : FileServer) :
    FileServer :=
  match rootFID with
  | None => s
  | Some f =>
      on_sessions (fmap (λ c, if decide (csRootFID c = FID_String f) then set_lastSeenAt now c
                              else c)) s
  end.

Definition UpdateClientCurrentDirByRootFID (rootFID cur : option FID) (now : Z)
    (s : FileServer) : FileServer :=
  match rootFID, cur with
  | Some f, Some d =>
      on_sessions (fmap (λ c, if decide (csRootFID c = FID_String f)
                              then set_lastSeenAt now (set_currentDirFID (FID_String d) c)
                              else c)) s
  | _, _ => s
  end.

Definition isSessionActive (c : clientSession) (now : Z) : bool :=
  negb (lastSeenAt c =? 0) && (now - lastSeenAt c <=? activeSessionTTL).

(** Who hears of a change in a directory. *)
Definition is_target (dir origin : string) (now : Z) (c : clientSession) : bool :=
  negb (String.eqb (callbackAddress c) "") && negb (String.eqb (csUsername c) origin)
  && isSessionActive c now && String.eqb (currentDirFID c) dir.

Definition snapshotNotifyTargets (dir origin : string) (now : Z) (s : FileServer) :
    list clientSession :=
  filter (λ c, is_target dir origin now c = true) (map_to_list (fsSessions s)).*2.

Definition recordCallbackResult (username : string) (success : bool) (s : FileServer) :
    FileServer :=
  if decide (username = "") then s
  else match fsSessions s !! username with
       | None => s
       | Some c =>
           if success then on_sessions <[username := set_failures 0 c]> s
           else
             let n := consecutiveFailures c + 1 in
             if maxCallbackFailures <=? n then on_sessions (delete username) s
             else on_sessions <[username := set_failures n c]> s
       end.

Section notify.
Context {D : Type} `{Env D}.
Abbreviation S' := (Server D).

(** [go fs.sendInvalidate(...)] for every target. *)
Definition send_all (targets : list clientSession) (fid : FID) (event : Z) : M S' unit :=
  modify (λ s, set_callbacks (callbacks s ++ map (λ c, mkCallback c fid event) targets) s).

Definition NotifyFileUpdated (parentFID : option FID) (name origin : string) (now : Z) :
    M S' unit :=
  match parentFID with
  | None => mret tt
  | Some pf =>
      if decide (name = "") then mret tt
      else
        r ← catch (GetInode pf);
        match r with
        | inl _ => mret tt
        | inr parent =>
            c ← catch (GetChildInodeByName parent name);
            match c with
            | inl _ => mret tt
            | inr l =>
                i ← deref l;
                targets ← gsrv (snapshotNotifyTargets (FID_String pf) origin now);
                send_all targets (iFID i) callbackEventFileUpdated
            end
        end
  end.

(** [NotifyNewFileInDir] and [NotifyFileDeletedInDir] differ by the event. *)
Definition notify_dir (event : Z) (parentFID : option FID) (name origin : string) (now : Z) :
    M S' unit :=
  match parentFID with
  | None => mret tt
  | Some pf =>
      if decide (name = "") then mret tt
      else
        targets ← gsrv (snapshotNotifyTargets (FID_String pf) origin now);
        send_all targets pf event
  end.
Definition NotifyNewFileInDir := notify_dir callbackEventDirNewFile.
Definition NotifyFileDeletedInDir := notify_dir callbackEventFileDeleted.
End notify.
