(* ===== verification/Handler.v ===== *)
(** * The gRPC handlers of the file server

    Models [Authorize], the policy enforcement point of
    [internal/fileserver/fileserver.go], and the handlers of
    [internal/fileserver/handler.go].  A response with [Success: false] is the error
    it carries; the authenticated user, the peer address, the request metadata, the
    environment variables, the clock and the duration recorded in the metrics come
    in the context of the call. *)
From S2P Require Import FileServer Persist Tree Share Trash FileOps Callback.
From S2P Require Session OpMetrics.

Record Ctx := mkCtx {
  ctxSession : option Session.Session;   (* session.FromContext *)
  ctxPeer : option string;       (* peer.FromContext *)
  ctxHashes : list string;       (* x-admin-password-hash *)
  ctxPasswords : list string;    (* x-admin-password *)
  ctxAdminEmail : string;        (* DVFS_ADMIN_EMAIL *)
  ctxAdminHash : string;         (* ADMIN_PASSWORD_HASH *)
  ctxNow : Z;
  ctxDur : Z;                    (* how long the call took, in nanoseconds *)
}.

(** ** [net.ParseIP] and loopback addresses *)

Definition hex_digit (a : ascii) : option Z :=
  let n := Z.of_nat (nat_of_ascii a) in
  if (48 <=? n) && (n <=? 57) then Some (n - 48)
  else if (97 <=? n) && (n <=? 102) then Some (n - 87)
  else if (65 <=? n) && (n <=? 70) then Some (n - 55)
  else None.
Fixpoint digits (base acc : Z) (s : string) : option Z :=
  match s with
  | EmptyString => Some acc
  | String a s' =>
      match hex_digit a with
      | Some d => if d <? base then digits base (base * acc + d) s' else None
      | None => None
      end
  end.

(** One field of a dotted address: no leading zero, at most 255. *)
Definition ipv4_field (s : string) : option Z :=
  if decide (s = "") then None
  else if HasPrefix s "0" && negb (String.eqb s "0") then None
  else n ← digits 10 0 s; if n <=? 255 then Some n else None.
Definition parse_ipv4 (s : string) : option (list Z) :=
  match Split "." s with
  | [a; b; c; d] =>
      a ← ipv4_field a; b ← ipv4_field b; c ← ipv4_field c; d ← ipv4_field d; Some [a; b; c; d]
  | _ => None
  end.

Definition ipv6_group (s : string) : option Z :=
  if (String.length s =? 0)%nat || (4 <? String.length s)%nat then None else digits 16 0 s.
(** The groups between colons; a dotted address may stand for the last two. *)
Fixpoint ipv6_groups (l : list string) : option (list Z) :=
  match l with
  | [] => Some []
  | [g] =>
      match parse_ipv4 g with
      | Some [a; b; c; d] => Some [256 * a + b; 256 * c + d]
      | _ => n ← ipv6_group g; Some [n]
      end
  | g :: rest => n ← ipv6_group g; ns ← ipv6_groups rest; Some (n :: ns)
  end.
(** The fields before and after an ellipsis, which is one empty field, or two at
    an end of the address. *)
Fixpoint split_ellipsis (l : list string) : list string * option (list string) :=
  match l with
  | [] => ([], None)
  | g :: rest =>
      if decide (g = "") then ([], Some rest)
      else let '(before, after) := split_ellipsis rest in (g :: before, after)
  end.
Definition parse_ipv6 (s : string) : option (list Z) :=
  let l := Split ":" s in
  let l := match l with x :: y :: r => if decide (x = "" ∧ y = "") then y :: r else l | _ => l end in
  let l := match rev l with
           | x :: y :: r => if decide (x = "" ∧ y = "") then rev (y :: r) else l
           | _ => l
           end in
  let '(before, after) := split_ellipsis l in
  match after with
  | None => g ← ipv6_groups before; if (List.length g =? 8)%nat then Some g else None
  | Some after =>
      b ← (fix go l := match l with
                       | [] => Some []
                       | g :: r => n ← ipv6_group g; ns ← go r; Some (n :: ns)
                       end) before;
      a ← ipv6_groups after;
      let n := (List.length a + List.length b)%nat in
      if (n <=? 7)%nat then Some (b ++ replicate (8 - n) 0 ++ a) else None
  end.

(** [ip != nil && ip.IsLoopback()] for [ip := net.ParseIP(s)]. *)
Definition is_loopback_ip (s : string) : bool :=
  if Contains s ":"%char then
    match parse_ipv6 s with
    | Some g =>
        if decide (take 6 g = [0; 0; 0; 0; 0; 65535]) then nth 6 g 0 / 256 =? 127
        else bool_decide (g = [0; 0; 0; 0; 0; 0; 0; 1])
    | None => false
    end
  else match parse_ipv4 s with Some (127 :: _) => true | _ => false end.

Example is_loopback_ex :
  map is_loopback_ip
    ["127.0.0.1"; "127.9.9.9"; "::1"; "0:0:0:0:0:0:0:1"; "::ffff:127.0.0.1"; "::ffff:7f00:1";
     "10.0.0.1"; "127.0.0.01"; "127.0.0"; "1::1"; "::"; "::1::"; "localhost"; "0::1"; "1::"]
  = [true; true; true; true; true; true; false; false; false; false; false; false; false; true;
     false].
Proof. reflexivity. Qed.

(** [net.JoinHostPort] *)
Definition JoinHostPort (host port : string) : string :=
  if Contains host ":"%char then "[" +:+ host +:+ "]:" +:+ port else host +:+ ":" +:+ port.

(** [normalizeCallbackAddress]: a callback address that names the client's own
    machine is rewritten to the host the call came from. *)
Definition normalizeCallbackAddress (peer : option string) (callbackAddress : string) : string :=
  if decide (callbackAddress = "") then ""
  else match Session.SplitHostPort callbackAddress, peer with
       | Some (host, port), Some addr =>
           let remoteHost := match Session.SplitHostPort addr with
                             | Some (h, _) => h
                             | None => addr
                             end in
           if decide (remoteHost = "") then callbackAddress
           else if String.eqb host "" || EqualFold host "localhost" || String.eqb host "0.0.0.0"
                   || String.eqb host "::" || String.eqb host "::1" || is_loopback_ip host
           then JoinHostPort remoteHost port
           else callbackAddress
       | _, _ => callbackAddress
       end.

(** ** Permissions *)

Inductive Permission := PermRead | PermWrite | PermDelete | PermAdmin.

#[export] Instance Permission_eq_dec : EqDecision Permission.
Proof. solve_decision. Defined.

(** [session.UsernameFromContext] *)
Definition ctxUser (ctx : Ctx) : option string := Session.Username <$> ctxSession ctx.

(** The user a context authenticates, if any; a session without a name counts as
    none. *)
Definition caller_of (ctx : Ctx) : option string :=
  match ctxUser ctx with
  | Some u => if decide (u = "") then None else Some u
  | None => None
  end.

(** The permission test on an ACL. *)
Definition permits (ctx : Ctx) (a : ACL) (caller : string) (perm : Permission) : bool :=
  match perm with
  | PermRead | PermWrite => aclAllows a caller
  | PermDelete => String.eqb (Owner a) caller
  | PermAdmin =>
      negb (String.eqb (ctxAdminEmail ctx) "") && EqualFold caller (ctxAdminEmail ctx)
  end.

Definition denied (caller : string) (i : Inode) (perm : Permission) : error :=
  match perm with
  | PermRead =>
      StatusErrorf PermissionDenied "permission denied: user '%s' lacks READ permission on '%s'"
        [caller; iName i]
  | PermWrite =>
      StatusErrorf PermissionDenied "permission denied: user '%s' lacks WRITE permission on '%s'"
        [caller; iName i]
  | PermDelete =>
      StatusErrorf PermissionDenied "permission denied: user '%s' does not own '%s' (owner: '%s')"
        [caller; iName i; Owner (iACL i)]
  | PermAdmin =>
      StatusErrorf PermissionDenied "permission denied: user '%s' lacks administrative privileges"
        [caller]
  end.

Section handler.
Context {D : Type} `{Env D}.
Abbreviation S' := (Server D).
Implicit Types (ctx : Ctx).

(** The inode and the user the call acts for. *)
Definition Authorize ctx (fid : option FID) (perm : Permission) : M S' (loc * string) :=
  match fid with
  | None => throw (StatusErrorf InvalidArgument "authorization failed: FID cannot be nil" [])
  | Some f =>
      o ← find (FID_String f);
      match o with
      | None =>
          throw (StatusErrorf NotFound "file or directory not found for FID: %s" [FID_String f])
      | Some l =>
          i ← deref l;
          match caller_of ctx with
          | None => mret (l, Owner (iACL i))
          | Some caller =>
              if permits ctx (iACL i) caller perm then mret (l, caller)
              else throw (denied caller i perm)
          end
      end
  end.

(** ** Responses and metrics *)

Definition resp (A : Type) : Type := error + A.

Definition timed_read {A} (dur : Z) (bytes : A → Z) (m : M S' (resp A)) : M S' (resp A) :=
  r ← m;
  usrv (λ s, set_opMetrics
    (match r with
     | inr a => OpMetrics.RecordRead (bytes a) (OpMetrics.milliseconds dur) false (opMetrics s)
     | inl _ => OpMetrics.RecordRead 0 (OpMetrics.milliseconds dur) true (opMetrics s)
     end) s) ;;
  mret r.
Definition timed_write {A} (dur : Z) (bytes : A → Z) (m : M S' (resp A)) : M S' (resp A) :=
  r ← m;
  usrv (λ s, set_opMetrics
    (match r with
     | inr a => OpMetrics.RecordWrite (bytes a) (OpMetrics.milliseconds dur) false (opMetrics s)
     | inl _ => OpMetrics.RecordWrite 0 (OpMetrics.milliseconds dur) true (opMetrics s)
     end) s) ;;
  mret r.

Record Attr := mkAttr { attrName : string; attrType : Z; attrSize : Z }.
(** On the wire the FID of an entry may be missing; the handlers always give one. *)
Record Entry := mkEntry { entFid : option pbFID; entName : string; entType : Z; entSize : Z }.
Definition to_entry (x : loc * Inode) : Entry :=
  let i := x.2 in
  mkEntry (Some (FID_ToProto (iFID i))) (iName i) (InodeType_ToProto (iType i)) (iSize i).

Definition require {A} (b : bool) (msg : string) (m : M S' A) : M S' A :=
  if b then m else throw (Errorf msg []).
Definition given (s : string) : bool := negb (String.eqb s "").

Definition h_GetAttr ctx (fid : option pbFID) : M S' (resp Attr) :=
  timed_read (ctxDur ctx) (λ _, 0) (catch (
    require (bool_decide (is_Some fid)) "FID is required" (
      '(l, _) ← Authorize ctx (FIDFromProto fid) PermRead;
      i ← deref l;
      mret (mkAttr (iName i) (InodeType_ToProto (iType i)) (iSize i))))).

(** The user a share acts for: the caller, who must be the user named. *)
Definition acting_user (caller username : string) (msg : string) : M S' string :=
  if decide (caller = "") then mret username
  else if negb (EqualFold caller username) then throw (Errorf msg [])
  else mret caller.

Definition h_Share ctx (username : string) (fid : option pbFID) (share_with : string) :
    M S' (resp unit) :=
  catch (
    require (given username && bool_decide (is_Some fid) && given share_with)
      "username, user_root and share with username are required" (
      '(_, caller) ← Authorize ctx (FIDFromProto fid) PermDelete;
      user ← acting_user caller username
               "permission denied: cannot share on behalf of another user";
      Share user share_with (FIDFromProto fid))).

Definition h_Unshare ctx (username : string) (fid : option pbFID) (unshare_with : string) :
    M S' (resp unit) :=
  catch (
    require (given username && bool_decide (is_Some fid) && given unshare_with)
      "username, user_root and share with username are required" (
      '(_, caller) ← Authorize ctx (FIDFromProto fid) PermDelete;
      user ← acting_user caller username
               "permission denied: cannot unshare on behalf of another user";
      Unshare user unshare_with (FIDFromProto fid))).

(** No authorization: any FID gives its path. *)
Definition h_Path ctx (fid : option pbFID) (root_user display_name : string) :
    M S' (resp string) :=
  timed_read (ctxDur ctx) (λ _, 0) (catch (
    require (bool_decide (is_Some fid)) "FID is required" (
      p ← Path (FIDFromProto fid);
      mret (Join [display_name; default "" (Rel root_user p)])))).

Definition h_ChangeDir ctx (fid : option pbFID) (path : string) (root_fid : option pbFID) :
    M S' (resp pbFID) :=
  catch (
    require (bool_decide (is_Some fid)) "FID is required" (
      let root := FIDFromProto root_fid in
      Authorize ctx (FIDFromProto fid) PermRead ;;
      new_fid ← ChangeDir (FIDFromProto fid) path root;
      Authorize ctx new_fid PermRead ;;
      usrv (TouchClientActivityByRootFID root (ctxNow ctx)) ;;
      usrv (UpdateClientCurrentDirByRootFID root new_fid (ctxNow ctx)) ;;
      f ← non_nil new_fid;
      mret (FID_ToProto f))).

Definition h_ListDir ctx (fid : option pbFID) : M S' (resp (list Entry)) :=
  timed_read (ctxDur ctx) (λ _, 0) (catch (
    require (bool_decide (is_Some fid)) "FID is required" (
      Authorize ctx (FIDFromProto fid) PermRead ;;
      children ← ListDirectory (FIDFromProto fid);
      mret (map to_entry children)))).

Definition nested_path (name : string) : bool :=
  Contains name slash || Contains name backslash || String.eqb name ".." || String.eqb name "."
  || negb (String.eqb (Clean name) name) || IsAbs name.

Definition h_CreateFile ctx (parent : option pbFID) (name root_user : string) (t size : Z) :
    M S' (resp pbFID) :=
  timed_write (ctxDur ctx) (λ _, 0) (catch (
    require (given name && given root_user) "name and user are required" (
      checkStorageQuotaWithAdditional root_user size ;;
      require (negb (nested_path name)) "nested paths are not supported" (
        let parentFID := FIDFromProto parent in
        '(_, caller) ← Authorize ctx parentFID PermWrite;
        let user := if decide (caller = "") then root_user else caller in
        let fileType := InodeTypeFromProto t in
        fid ← CreateFile parentFID name user fileType;
        (if decide (fileType = InodeTypeFile)
         then NotifyNewFileInDir parentFID name "" (ctxNow ctx) else mret tt) ;;
        mret (FID_ToProto fid))))).

Definition h_ReadFile ctx (parent : option pbFID) (name : string) (offset length : Z) :
    M S' (resp bytes) :=
  timed_read (ctxDur ctx) (λ b, Z.of_nat (List.length b)) (catch (
    require (given name) "Name is required" (
      Authorize ctx (FIDFromProto parent) PermRead ;;
      ReadFile (FIDFromProto parent) name offset length))).

Definition h_WriteFile ctx (parent : option pbFID) (name : string) (offset : Z)
    (data : bytes) : M S' (resp unit) :=
  timed_write (ctxDur ctx) (λ _, Z.of_nat (List.length data)) (catch (
    require (given name) "Name is required" (
      let parentFID := FIDFromProto parent in
      Authorize ctx parentFID PermWrite ;;
      WriteFile parentFID name offset data ;;
      NotifyFileUpdated parentFID name "" (ctxNow ctx)))).

(** The authorized owner, or the user named when there is no caller. *)
Definition effective_user (caller root_user : string) : M S' string :=
  let user := if decide (caller = "") then root_user else caller in
  require (given user) "user is required" (mret user).

Definition h_DeleteFile ctx (fid : option pbFID) (root_user : string) (recursive : bool) :
    M S' (resp unit) :=
  timed_write (ctxDur ctx) (λ _, 0) (catch (
    require (bool_decide (is_Some fid)) "FID is required" (
      let f := FIDFromProto fid in
      '(_, caller) ← Authorize ctx f PermDelete;
      user ← effective_user caller root_user;
      f' ← non_nil f;
      r ← catch (GetInode f');
      '(parent, name) ← (match r with
                         | inl _ => mret (None, "")
                         | inr l =>
                             i ← deref l;
                             match iParent i with
                             | None => mret (None, iName i)
                             | Some p => pi ← deref p; mret (Some (iFID pi), iName i)
                             end
                         end : M S' (option FID * string));
      DeleteFile f user recursive ;;
      NotifyFileDeletedInDir parent name user (ctxNow ctx)))).

Definition h_TrashFile ctx (fid : option pbFID) (root_user : string) (recursive : bool) :
    M S' (resp string) :=
  timed_write (ctxDur ctx) (λ _, 0) (catch (
    require (bool_decide (is_Some fid)) "FID is required" (
      '(_, caller) ← Authorize ctx (FIDFromProto fid) PermDelete;
      user ← effective_user caller root_user;
      TrashFile (FIDFromProto fid) user recursive))).

(** A call on a trash: an authenticated caller must be both users named. *)
Definition own_trash {A} ctx (root_user username msg : string) (m : M S' A) : M S' A :=
  require (given root_user) "user is required" (
    require (given username) "username is required" (
      match caller_of ctx with
      | Some caller =>
          require (EqualFold caller root_user) msg (
            require (EqualFold caller username) "permission denied: username mismatch" m)
      | None => m
      end)).

Definition h_RestoreFile ctx (fid : option pbFID) (root_user username : string) :
    M S' (resp string) :=
  timed_write (ctxDur ctx) (λ _, 0) (catch (
    require (bool_decide (is_Some fid)) "FID is required" (
      own_trash ctx root_user username
        "permission denied: cannot restore files in another user's root" (
        RestoreFile (FIDFromProto fid) root_user username)))).

Definition h_ShowTrash ctx (root_user username : string) : M S' (resp (list Entry)) :=
  timed_read (ctxDur ctx) (λ _, 0) (catch (
    own_trash ctx root_user username
      "permission denied: cannot view another user's trash" (
      entries ← ShowTrash root_user username;
      mret (map to_entry entries)))).

(** ** Registration *)

Record Registered := mkRegistered {
  regRoot : pbFID;
  regToken : string;
  regExpiresAt : Z;
}.

Definition twelve_hours : Z := 12 * 3600 * Session.second.

(** The session minted for a registration; [rawSST] is the random token, [None]
    when the generator fails.  A refused session leaves the token empty. *)
Definition mint_session ctx (rawSST : option string) (username clientId addr : string)
    (rootFID : FID) : M S' (string * Z) :=
  match rawSST with
  | None => mret ("", 0)
  | Some raw =>
      r ← catch (on_store (Session.CreateSession sha256str raw username clientId
                             (default "" (ctxPeer ctx)) addr (FID_String rootFID)
                             (ctxNow ctx + twelve_hours) (ctxNow ctx)));
      match r with
      | inl _ => mret ("", 0)
      | inr sess => mret (raw, Session.AbsoluteExp sess / Session.second)
      end
  end.

Definition h_RegisterClient ctx (username root_user root_path callbackAddr clientId : string)
    (rawSST : option string) : M S' (resp Registered) :=
  catch (
    require (given username && given root_user && given root_path)
      "username and request user root are required" (
      present ← gsrv (λ s, bool_decide (is_Some (users s !! root_user)));
      if decide (username ≠ root_user ∧ present = false) then
        throw (Errorf "user root %s is not present on this fs" [root_user])
      else
        rootFID ← GetUserRoot root_path root_user;
        l ← GetInode rootFID;
        i ← deref l;
        if negb (aclAllows (iACL i) username) then
          throw (Errorf "user %s is not allowed to access root %s" [username; root_user])
        else
          let addr := normalizeCallbackAddress (ctxPeer ctx) callbackAddr in
          usrv (UpsertClientSession username addr (Some rootFID) (ctxNow ctx)) ;;
          '(token, expiresAt) ← mint_session ctx rawSST username clientId addr rootFID;
          mret (mkRegistered (FID_ToProto rootFID) token expiresAt))).

Definition h_UnregisterClient (username clientId : string) : M S' (resp unit) :=
  catch (
    require (given username) "username is required" (
      usrv (RemoveClientSession username) ;;
      if given clientId then
        usrv (λ s, set_sessionStore (Session.RevokeByClientID clientId (sessionStore s)) s)
      else mret tt)).

(** ** Streams *)

(** [RecordWriteOp] and [RecordReadOp] count a refused response and a broken
    stream alike. *)
Definition timed_op {A} (record : bool → FileServer → FileServer) (m : M S' (resp A)) :
    M S' (resp A) :=
  r ← catch m;
  usrv (record (match r with inr (inr _) => false | _ => true end)) ;;
  of_sum r.
Definition record_write_op (dur : Z) (failed : bool) (s : FileServer) : FileServer :=
  set_opMetrics (OpMetrics.RecordWriteOp (OpMetrics.milliseconds dur) failed (opMetrics s)) s.
Definition record_read_op (dur : Z) (failed : bool) (s : FileServer) : FileServer :=
  set_opMetrics (OpMetrics.RecordReadOp (OpMetrics.milliseconds dur) failed (opMetrics s)) s.

Record UploadReq := mkUploadReq {
  upParent : option pbFID;
  upName : string;
  upUser : string;
  upOffset : Z;
  upChunk : bytes;
}.
(** What [stream.Recv] gives; the end of the list is [io.EOF]. *)
Inductive Recv := RecvReq (req : UploadReq) | RecvErr (e : error).

Definition cleanupFailedUpload (parentFID : option FID) (name user : string) : M S' unit :=
  match parentFID with
  | None => mret tt
  | Some pf =>
      if decide (name = "") then mret tt
      else
        c ← catch (p ← GetInode pf; GetChildInodeByName p name);
        match c with
        | inl _ => mret tt
        | inr l => i ← deref l; ignore (DeleteFile (Some (iFID i)) user false)
        end
  end.

(** [sess.Touch(time.Now())]: the session object of the context is the one of
    the store, unless it was revoked meanwhile. *)
Definition touch_session ctx : M S' unit :=
  match ctxSession ctx with
  | None => mret tt
  | Some sess =>
      usrv (λ s, set_sessionStore
                   (Session.set_sessions
                      (alter (Session.Touch (ctxNow ctx)) (Session.HashID sess)
                         (Session.sessions (sessionStore s))) (sessionStore s)) s)
  end.

(** The first message of a stream: authorization on its directory and the hash
    of the file as it was. *)
Definition upload_open ctx (parentFID : option FID) (name user : string) : M S' string :=
  '(_, caller) ← Authorize ctx parentFID PermWrite;
  GetFileHash parentFID name ;;
  mret (if decide (caller = "") then user else caller).

Fixpoint upload_loop ctx (evs : list Recv) (first : bool) (name : string)
    (parentFID : option FID) (user : string) : M S' (resp unit) :=
  match evs with
  | [] =>
      h ← catch (GetFileHash parentFID name);
      match h with
      | inl e => mret (inl e)
      | inr _ => NotifyFileUpdated parentFID name user (ctxNow ctx) ;; mret (inr tt)
      end
  | RecvErr e :: _ =>
      (if negb first && given name then cleanupFailedUpload parentFID name user
       else mret tt) ;;
      throw e
  | RecvReq req :: rest =>
      match upParent req with
      | None => mret (inl (Errorf "missing parentFid" []))
      | Some pf =>
          let user := if decide (upUser req = "") then user else upUser req in
          usrv (if decide (upUser req = "") then id
                else TouchClientActivity user (ctxNow ctx)) ;;
          let parentFID := FIDFromProto (Some pf) in
          let name := if first then upName req else name in
          opened ← (if first then catch (upload_open ctx parentFID name user)
                    else mret (inr user));
          match opened with
          | inl e => mret (inl e)
          | inr user =>
              touch_session ctx ;;
              w ← catch (WriteFile parentFID name (upOffset req) (upChunk req));
              match w with
              | inl e => cleanupFailedUpload parentFID name user ;; mret (inl e)
              | inr _ =>
                  usrv (λ s, set_opMetrics (OpMetrics.AddBytesWritten
                               (Z.of_nat (List.length (upChunk req))) (opMetrics s)) s) ;;
                  upload_loop ctx rest false name parentFID user
              end
          end
      end
  end.
Definition h_UploadFile ctx (evs : list Recv) : M S' (resp unit) :=
  timed_op (record_write_op (ctxDur ctx)) (upload_loop ctx evs true "" None "").

Definition chunkSize : nat := Nat.mul 4 (Nat.mul 1024 1024).

(** What the read loop sends: [fuel] reads of at most [size] bytes. *)
Fixpoint chunks (fuel size : nat) (offset : Z) (b : bytes) : list (Z * bytes) :=
  match fuel, b with
  | S fuel, _ :: _ =>
      let buf := take size b in
      (offset, buf) :: chunks fuel size (u64 (offset + Z.of_nat (List.length buf))) (drop size b)
  | _, _ => []
  end.
(** The sends; [broken] is the number of them a client takes before the stream
    fails, with the error of the failing one. *)
Fixpoint send_chunks (broken : option (nat * error)) (l : list (Z * bytes)) :
    M S' (list (Z * bytes)) :=
  match l, broken with
  | [], _ => mret []
  | _, Some (O, e) => throw e
  | x :: rest, _ =>
      usrv (λ s, set_opMetrics (OpMetrics.AddBytesRead
                   (Z.of_nat (List.length x.2)) (opMetrics s)) s) ;;
      more ← send_chunks ((λ '(n, e), (pred n, e)) <$> broken) rest;
      mret (x :: more)
  end.

Definition h_DownloadFile ctx (parent : option pbFID) (name : string)
    (broken : option (nat * error)) : M S' (resp (list (Z * bytes))) :=
  timed_op (record_read_op (ctxDur ctx)) (
    let parentFID := FIDFromProto parent in
    a ← catch (Authorize ctx parentFID PermRead);
    match a with
    | inl e => mret (inl e)
    | inr _ =>
        pf ← non_nil parentFID;
        p ← GetInode pf;
        l ← GetChildInodeByName p name;
        i ← deref l;
        if decide (iType i ≠ InodeTypeFile) then
          mret (inl (Errorf "Only files can be downloaded" []))
        else
          op ← osread (os_OpenRead (iOSPath i));
          match op with
          | inl e => mret (inl e)
          | inr _ =>
              r ← osread (os_ReadFile (iOSPath i));
              b ← of_sum r;
              sent ← send_chunks broken (chunks (List.length b) chunkSize 0 b);
              mret (inr sent)
          end
    end).

(** ** Quotas *)

Definition TrimSpaceLower (s : string) : string :=
  Session.TrimSpace (ToLower s).

(** The credentials of the metadata. *)
Definition admin_password_ok ctx : bool :=
  let expectedHash := TrimSpaceLower (ctxAdminHash ctx) in
  negb (String.eqb expectedHash "")
  && (match ctxHashes ctx with h :: _ => String.eqb (ToLower h) expectedHash | [] => false end
      || match ctxPasswords ctx with
         | p :: _ => String.eqb (sha256str p) expectedHash
         | [] => false
         end).

Definition admin_email_ok ctx (caller : string) : bool :=
  let adminEmail := TrimSpaceLower (ctxAdminEmail ctx) in
  negb (String.eqb adminEmail "") && EqualFold caller adminEmail.

Definition h_SetQuota ctx (username : string) (quotaBytes : Z) : M S' (resp unit) :=
  catch (
    require (given username) "username is required" (
      require (negb (quotaBytes =? 0)) "quota must be greater than 0" (
        match caller_of ctx with
        | Some caller =>
            require (admin_password_ok ctx || admin_email_ok ctx caller)
              "permission denied: only cluster administrators can modify quotas"
              (SetUserQuota username quotaBytes)
        | None => SetUserQuota username quotaBytes
        end))).
End handler.
