(* ===== verification/HandlerSpec.v ===== *)
(** * Complete mediation, and where it fails

    Every handler that takes a FID, [Path] and [RestoreFile] aside, asks [Authorize]
    before it touches anything: an authenticated caller without the permission gets an
    error and leaves the tree, the disk and the metaserver as they were.  The calls on
    a trash ask that the caller is the user they name, and [Path] asks nothing.
    [UploadFile] asks only for the directory of its first message, while every later
    message may name another one. *)
From S2P Require Import FileServer Persist Tree TreeWf TreeRun Frames Invariant Share Trash FileOps.
From S2P Require Import Callback Handler Demo NavSpec WriteSpec.
From Stdlib Require Import Strings.Byte.

Implicit Types (s : FileServer) (l x : loc) (i : Inode) (f : FID) (ctx : Ctx).

(** The calls that name an inode, and the listing of a trash. *)
Inductive Request :=
  | QPath (fid : option pbFID) (root_user display_name : string)
  | QRestoreFile (fid : option pbFID) (root_user username : string)
  | QShowTrash (root_user username : string)
  | QGetAttr (fid : option pbFID)
  | QShare (username : string) (fid : option pbFID) (share_with : string)
  | QUnshare (username : string) (fid : option pbFID) (unshare_with : string)
  | QChangeDir (fid : option pbFID) (path : string) (root : option pbFID)
  | QListDir (fid : option pbFID)
  | QCreateFile (parent : option pbFID) (name root_user : string) (t size : Z)
  | QReadFile (parent : option pbFID) (name : string) (offset length : Z)
  | QWriteFile (parent : option pbFID) (name : string) (offset : Z) (data : bytes)
  | QDeleteFile (fid : option pbFID) (root_user : string) (recursive : bool)
  | QTrashFile (fid : option pbFID) (root_user : string) (recursive : bool)
  | QUploadFile (first : UploadReq) (rest : list Recv)
  | QDownloadFile (parent : option pbFID) (name : string) (broken : option (nat * error)).

(** What is checked: a permission on an inode, that the caller is both users named, or
    nothing beyond the session. *)
Inductive Guard :=
  | OnInode (fid : option pbFID) (perm : Permission)
  | OwnTrash (root_user username : string)
  | Unguarded.

Definition guard (q : Request) : Guard :=
  match q with
  | QPath _ _ _ => Unguarded
  | QRestoreFile _ root_user username | QShowTrash root_user username => OwnTrash root_user username
  | QGetAttr fid | QChangeDir fid _ _ | QListDir fid => OnInode fid PermRead
  | QReadFile fid _ _ _ | QDownloadFile fid _ _ => OnInode fid PermRead
  | QCreateFile fid _ _ _ _ | QWriteFile fid _ _ _ => OnInode fid PermWrite
  | QUploadFile first _ => OnInode (upParent first) PermWrite
  | QShare _ fid _ | QUnshare _ fid _ | QDeleteFile fid _ _ | QTrashFile fid _ _ => OnInode fid PermDelete
  end.

Section spec.
Context {D : Type} `{Env D}.
Implicit Types (w : Server D) (q : Request).

(** The handler of a request; of its answer only the error matters here. *)
Definition answer {A} (m : M (Server D) (resp A)) : M (Server D) (resp unit) :=
  r ← m; mret (match r with inl e => inl e | inr _ => inr tt end).
Definition serve ctx q : M (Server D) (resp unit) :=
  match q with
  | QPath fid user name => answer (h_Path ctx fid user name)
  | QRestoreFile fid root_user user => answer (h_RestoreFile ctx fid root_user user)
  | QShowTrash root_user user => answer (h_ShowTrash ctx root_user user)
  | QGetAttr fid => answer (h_GetAttr ctx fid)
  | QShare user fid v => answer (h_Share ctx user fid v)
  | QUnshare user fid v => answer (h_Unshare ctx user fid v)
  | QChangeDir fid path root => answer (h_ChangeDir ctx fid path root)
  | QListDir fid => answer (h_ListDir ctx fid)
  | QCreateFile p name user t size => answer (h_CreateFile ctx p name user t size)
  | QReadFile p name off len => answer (h_ReadFile ctx p name off len)
  | QWriteFile p name off data => answer (h_WriteFile ctx p name off data)
  | QDeleteFile fid user rec => answer (h_DeleteFile ctx fid user rec)
  | QTrashFile fid user rec => answer (h_TrashFile ctx fid user rec)
  | QUploadFile first rest => answer (h_UploadFile ctx (RecvReq first :: rest))
  | QDownloadFile p name broken => answer (h_DownloadFile ctx p name broken)
  end.

(** The caller may do what the request does to the inode or the trash it names. *)
Definition granted ctx (u : string) w (g : Guard) : Prop :=
  match g with
  | OnInode fid perm => ∃ f l i, FIDFromProto fid = Some f ∧ live (srv w) l i ∧ iFID i = f
                                 ∧ permits ctx (iACL i) u perm = true
  | OwnTrash root_user username => EqualFold u root_user = true ∧ EqualFold u username = true
  | Unguarded => True
  end.

(** Only the counters of the server and the activity of its clients changed. *)
Definition untouched w w' : Prop :=
  ∃ om ss, w' = set_srv (set_opMetrics om (set_fsSessions ss (srv w))) w.

Lemma untouched_refl w : untouched w w.
Proof. exists (opMetrics (srv w)), (fsSessions (srv w)). by destruct w as [[] ? ? ?]. Qed.
Lemma untouched_metrics w w' om :
  untouched w w' → untouched w (set_srv (set_opMetrics om (srv w')) w').
Proof. intros (om' & ss & ->). by exists om, ss. Qed.

(** [Authorize] answers with the caller or refuses, and looks only. *)
Lemma Authorize_cases ctx u w fid perm :
  tree_wf (srv w) → caller_of ctx = Some u →
  (granted ctx u w (OnInode fid perm) ∧ ∃ l, Authorize ctx (FIDFromProto fid) perm w = (w, Ok (l, u)))
  ∨ ∃ e, Authorize ctx (FIDFromProto fid) perm w = (w, Err e).
Proof.
  intros Hwf Hu. destruct fid as [p|]; [|right; eexists; reflexivity]. unfold granted. cbn [FIDFromProto].
  set (f := mkFID _ _ _). unfold Authorize.
  destruct (known_or_not (srv w) f Hwf) as [(l & i & Hl & Hf)|Hno].
  - erewrite bind_run by apply run_find. rewrite <-Hf, (proj1 Hl).
    erewrite bind_run by by apply run_deref_live. rewrite Hu.
    destruct (permits ctx (iACL i) u perm) eqn:Hp; [left|right; eexists; reflexivity].
    split; [|by eexists]. exists (iFID i), l, i. split_and!; congruence || done.
  - right. erewrite bind_run by apply run_find. rewrite Hno. eexists. reflexivity.
Qed.

(** The call fails and leaves the server as it was. *)
Definition refuses {A} (m : M (Server D) A) w : Prop := ∃ e, m w = (w, Err e).

Lemma refuses_require {A} b msg (m : M (Server D) A) w : refuses m w → refuses (require b msg m) w.
Proof. intros Hm. destruct b; [done|by eexists]. Qed.
Lemma refuses_bind {A B} (m : M (Server D) A) (k : A → M (Server D) B) w :
  refuses m w → refuses (m ≫= k) w.
Proof. intros [e He]. exists e. by apply bind_err. Qed.
Lemma refuses_look {A B} (m : M (Server D) A) (k : A → M (Server D) B) w :
  (∀ r w1, m w = (w1, r) → w1 = w ∧ ∀ why, r ≠ Panic why) → (∀ a, refuses (k a) w) →
  refuses (m ≫= k) w.
Proof.
  intros Hm Hk. unfold refuses, mbind, M_bind. destruct (m w) as [w1 [a|e|y]] eqn:Hr.
  - destruct (Hm _ _ eq_refl) as [-> _]. apply Hk.
  - destruct (Hm _ _ eq_refl) as [-> _]. by eexists.
  - destruct (Hm _ _ eq_refl) as [_ Hp]. by destruct (Hp y).
Qed.

(** What a client of a refused call sees. *)
Definition rejected {A} (m : M (Server D) (resp A)) w : Prop :=
  ∃ w' e, m w = (w', Ok (inl e)) ∧ untouched w w'.

Lemma rejected_catch {A} (m : M (Server D) A) w : refuses m w → rejected (catch m) w.
Proof.
  intros [e He]. exists w, e. split; [|apply untouched_refl]. unfold catch. by rewrite He.
Qed.
Lemma rejected_answer {A} (m : M (Server D) (resp A)) w : rejected m w → rejected (answer m) w.
Proof. intros (w' & e & He & Hu). exists w', e. split; [|done]. unfold answer. by erewrite bind_run by exact He. Qed.
Lemma rejected_read {A} dur n (m : M (Server D) (resp A)) w :
  rejected m w → rejected (timed_read dur n m) w.
Proof.
  intros (w' & e & He & Hu). eexists _, e. split; [unfold timed_read; by erewrite bind_run by exact He|].
  by apply untouched_metrics.
Qed.
Lemma rejected_write {A} dur n (m : M (Server D) (resp A)) w :
  rejected m w → rejected (timed_write dur n m) w.
Proof.
  intros (w' & e & He & Hu). eexists _, e. split; [unfold timed_write; by erewrite bind_run by exact He|].
  by apply untouched_metrics.
Qed.
Lemma rejected_op {A} dur (m : M (Server D) (resp A)) w :
  rejected m w →
  rejected (timed_op (record_write_op dur) m) w ∧ rejected (timed_op (record_read_op dur) m) w.
Proof.
  intros (w' & e & He & Hu).
  split; (eexists _, e; split; [unfold timed_op; erewrite bind_run by (unfold catch; by rewrite He); done|
                                by apply untouched_metrics]).
Qed.
End spec.

#[export] Hint Resolve rejected_catch rejected_answer rejected_read rejected_write refuses_require
  refuses_bind : dvfs.

Section mediation.
Context {D : Type} `{Env D}.
Implicit Types (w : Server D) (q : Request).

(** The test of the quota before a creation only looks. *)
Lemma checkStorageQuota_looks user n w r w1 :
  tree_wf (srv w) → checkStorageQuotaWithAdditional user n w = (w1, r) →
  w1 = w ∧ ∀ why, r ≠ Panic why.
Proof.
  intros Hwf Hrun.
  assert (wp (checkStorageQuotaWithAdditional user n) (λ _ w', w' = w) (λ _ w', w' = w) w) as Hwp.
  { unfold checkStorageQuotaWithAdditional. eapply wp_run; [done|].
    destruct (users (srv w) !! user) as [rf|]; [|by apply wp_throw].
    eapply wp_run; [apply run_find|]. destruct (inodes (srv w) !! FID_String rf) as [x|] eqn:Hk;
      [|by apply wp_throw].
    destruct (t_key _ Hwf _ _ Hk) as (xi & Hx & _). eapply wp_run; [by apply run_deref_live|].
    eapply wp_run; [done|]. case_match; [by apply wp_throw|]. case_match; [|by apply wp_ret].
    unfold check_disk_free. eapply wp_run; [done|]. eapply wp_run; [done|].
    repeat case_match; by apply wp_throw || by apply wp_ret. }
  unfold wp in Hwp. rewrite Hrun in Hwp. by destruct r.
Qed.

(** The check sees the inodes only. *)
Lemma Authorize_tree ctx fid perm w w1 :
  inodes (srv w1) = inodes (srv w) → heap (srv w1) = heap (srv w) →
  refuses (Authorize ctx fid perm) w → refuses (Authorize ctx fid perm) w1.
Proof.
  intros Hi Hh [e He]. destruct fid as [f|]; [|by eexists]. unfold Authorize in *. revert He.
  unfold refuses, find, deref, gsrv, gets, mbind, M_bind. rewrite Hi.
  destruct (inodes (srv w) !! FID_String f) as [l|]; [|by eexists]. rewrite Hh.
  destruct (heap (srv w) !! l) as [i|]; [|done]. simpl. destruct (caller_of ctx); [|done].
  destruct (permits _ _ _ _); [done|by eexists].
Qed.

Lemma untouched_server w : untouched w (set_srv (srv w) w).
Proof. exists (opMetrics (srv w)), (fsSessions (srv w)). by destruct w as [[] ? ? ?]. Qed.

Lemma touched_activity user v now w :
  let w1 := set_srv ((if decide (user = "") then id else TouchClientActivity v now) (srv w)) w in
  untouched w w1 ∧ inodes (srv w1) = inodes (srv w) ∧ heap (srv w1) = heap (srv w).
Proof.
  case_decide as Hu; [split; [apply untouched_server|done]|]. unfold TouchClientActivity.
  case_decide; [split; [apply untouched_server|done]|]. split; [|done].
  exists (opMetrics (srv w)), (alter (set_lastSeenAt now) v (fsSessions (srv w))).
  by destruct w as [[] ? ? ?].
Qed.

(** The check of a request fails. *)
Definition check_fails ctx u (g : Guard) w : Prop :=
  match g with
  | OnInode fid perm => refuses (Authorize ctx (FIDFromProto fid) perm) w
  | OwnTrash root_user username => EqualFold u root_user && EqualFold u username = false
  | Unguarded => False
  end.

Lemma own_trash_refuses {A} ctx u root_user username msg (m : M (Server D) A) w :
  caller_of ctx = Some u → EqualFold u root_user && EqualFold u username = false →
  refuses (own_trash ctx root_user username msg m) w.
Proof.
  intros Hu Hne. unfold own_trash. rewrite Hu. do 2 apply refuses_require. unfold require.
  destruct (EqualFold u root_user); simpl in Hne; [rewrite Hne|]; by eexists.
Qed.

(** A request whose check fails is rejected. *)
Lemma check_rejects ctx u q w :
  tree_wf (srv w) → caller_of ctx = Some u → check_fails ctx u (guard q) w → rejected (serve ctx q) w.
Proof.
  intros Hwf Hu Hr. destruct q; cbn [guard check_fails] in Hr; simpl; apply rejected_answer.
  - done.
  - apply rejected_write, rejected_catch, refuses_require. by eapply own_trash_refuses.
  - apply rejected_read, rejected_catch. by eapply own_trash_refuses.
  - apply rejected_read, rejected_catch, refuses_require, refuses_bind, Hr.
  - apply rejected_catch, refuses_require, refuses_bind, Hr.
  - apply rejected_catch, refuses_require, refuses_bind, Hr.
  - apply rejected_catch, refuses_require. cbv zeta. apply refuses_bind, Hr.
  - apply rejected_read, rejected_catch, refuses_require, refuses_bind, Hr.
  - apply rejected_write, rejected_catch, refuses_require, refuses_look.
    + intros r w1. by apply checkStorageQuota_looks.
    + intros _. apply refuses_require. cbv zeta. apply refuses_bind, Hr.
  - apply rejected_read, rejected_catch, refuses_require, refuses_bind, Hr.
  - apply rejected_write, rejected_catch, refuses_require. cbv zeta. apply refuses_bind, Hr.
  - apply rejected_write, rejected_catch, refuses_require. cbv zeta. apply refuses_bind, Hr.
  - apply rejected_write, rejected_catch, refuses_require, refuses_bind, Hr.
  - apply rejected_op. simpl. destruct (upParent first) as [pf|] eqn:Hp.
    2:{ eexists w, _. split; [reflexivity|apply untouched_refl]. }
    destruct first as [pf' name user off chunk]. cbn [upParent] in Hp, Hr. subst pf'. cbn [upload_loop upParent upUser upName].
    set (v := if decide (user = "") then "" else user).
    set (w1 := set_srv ((if decide (user = "") then id else TouchClientActivity v (ctxNow ctx)) (srv w)) w).
    destruct (touched_activity user v (ctxNow ctx) w) as (Hun & Hi & Hh).
    destruct (Authorize_tree ctx (FIDFromProto (Some pf)) PermWrite w w1 Hi Hh Hr) as [e He].
    exists w1, e. split; [|exact Hun]. cbv zeta. erewrite bind_run by done.
    erewrite (bind_run _ _ _ w1 (inl e)); [done|]. unfold catch, upload_open.
    by erewrite bind_err by exact He.
  - apply rejected_op. cbv zeta. destruct Hr as [e He]. exists w, e. split; [|apply untouched_refl].
    by erewrite bind_run by (unfold catch; by rewrite He).
Qed.

Lemma mediated ctx u q w :
  tree_wf (srv w) → caller_of ctx = Some u →
  granted ctx u w (guard q) ∨ rejected (serve ctx q) w.
Proof.
  intros Hwf Hu. pose proof (check_rejects ctx u q w Hwf Hu) as Hrej.
  destruct (guard q) as [fid perm|root_user username|]; [..|by left].
  - destruct (Authorize_cases ctx u w fid perm Hwf Hu) as [[Hg _]|Hr]; [by left|right]. by apply Hrej.
  - simpl in *. destruct (EqualFold u root_user); [|by right; apply Hrej].
    destruct (EqualFold u username); [by left|by right; apply Hrej].
Qed.

(** Complete mediation: an authenticated caller either has the permission the request
    needs on the inode it names, owns the trash it names, or asks for a path, or gets
    an error, and then neither the tree, nor the
    disk, the sessions, the index, the shares or the messages to the metaserver and to
    the clients changed, only the counters and the time of the last activity. *)
Theorem handlers_mediate ctx u q w :
  tree_wf (srv w) → caller_of ctx = Some u →
  granted ctx u w (guard q) ∨ rejected (serve ctx q) w.
Proof. exact (mediated ctx u q w). Qed.
End mediation.

(** ** Two users on a concrete server *)

(** bob's own directory, with a file of the name of ann's [doc/f]. *)
Definition bob_root := GetUserRoot "bob" "bob" demo.
Definition bob_fid : FID := Eval vm_compute in value no_fid bob_root.
Definition two_users : Server MemDisk :=
  Eval vm_compute in (CreateFile (Some bob_fid) "f" "bob" InodeTypeFile bob_root.1).1.
Definition bob_ctx : Ctx :=
  mkCtx (Some (Session.mkSession "h" "bob" "" "" "" "" 0 0 0)) None [] [] "" "" 0 0.
Definition text (t : string) : bytes := map Ascii.byte_of_ascii (String.list_ascii_of_string t).

Lemma two_users_wf : tree_wf (srv two_users).
Proof. apply (tree_wfb_sound Pos.to_nat). vm_compute. reflexivity. Qed.

Lemma handlers_mediate_witness :
  let q := QReadFile (Some (FID_ToProto doc_fid)) "f" 0 0 in
  tree_wf (srv two_users) ∧ caller_of bob_ctx = Some "bob"
  ∧ rejected (serve bob_ctx q) two_users.
Proof.
  intros q. split; [exact two_users_wf|]. split; [reflexivity|].
  destruct (handlers_mediate bob_ctx "bob" q two_users two_users_wf eq_refl) as [Hg|Hr]; [|exact Hr].
  exfalso. destruct Hg as (f & l & i & Hf & [Hk Hl] & Hfi & Hp).
  assert (f = doc_fid) as -> by (injection Hf as <-; reflexivity). rewrite Hfi in Hk.
  assert (inodes (srv two_users) !! FID_String doc_fid = Some doc_loc) as Hk' by (vm_compute; reflexivity).
  rewrite Hk in Hk'. injection Hk' as ->.
  assert (heap (srv two_users) !! doc_loc = Some (inode_of two_users doc_loc)) as Hl' by (vm_compute; reflexivity).
  rewrite Hl in Hl'. injection Hl' as ->. vm_compute in Hp. discriminate Hp.
Defined.

(** The check of an upload covers its first message only: bob, who may not write to
    ann's directory, opens a stream on a file of his own and names ann's directory in the
    second message; the stream succeeds and ann's file holds what he sent. *)
Theorem upload_escapes_authorization :
  let first := mkUploadReq (Some (FID_ToProto bob_fid)) "f" "" 0 [] in
  let second := mkUploadReq (Some (FID_ToProto doc_fid)) "f" "" 0 (text "pwned") in
  let '(w', r) := h_UploadFile bob_ctx [RecvReq first; RecvReq second] two_users in
  rejected (serve bob_ctx (QWriteFile (Some (FID_ToProto doc_fid)) "f" 0 (text "pwned"))) two_users
  ∧ r = Ok (inr tt)
  ∧ os_ReadFile "/srv/ann/doc/f" (disk two_users) = inr []
  ∧ os_ReadFile "/srv/ann/doc/f" (disk w') = inr (text "pwned").
Proof.
  intros first second. destruct (h_UploadFile _ _ _) as [w' r] eqn:Hrun. vm_compute in Hrun.
  injection Hrun as <- <-. split; [|split; [reflexivity|split; vm_compute; reflexivity]].
  apply (check_rejects _ "bob"); [exact two_users_wf|reflexivity|]. eexists. vm_compute. reflexivity.
Qed.
