(* ===== verification/Auth.v ===== *)
(** * Verification of Google ID tokens

    Models [VerifyToken] and [parseMockToken] of [internal/auth/google.go] with the
    cache of verified tokens.  Google's tokeninfo endpoint and the decoder of JSON
    objects are parameters; base64, the parsing of numbers and the arithmetic of
    [int64] are written out.  Times are nanoseconds; a call reads the clock once at its
    start and once later. *)
From S2P Require Import Prelude GoStd Disk.
From S2P Require Session.
From Stdlib Require Import QArith Strings.Byte.
#[global] Open Scope Z_scope.

(** ** Standard library *)

Definition is_digit (a : ascii) : bool := let n := nat_of_ascii a in (48 <=? n)%nat && (n <=? 57)%nat.
Definition digit (a : ascii) : Z := Z.of_nat (nat_of_ascii a) - 48.
(** The number at the front of a string, and what follows it. *)
Fixpoint span_digits (acc : Z) (s : string) : Z * string :=
  match s with
  | String a s' => if is_digit a then span_digits (10 * acc + digit a) s' else (acc, s)
  | EmptyString => (acc, s)
  end.
(** A sign and at least one digit, within [int64]. *)
Definition read_int (s : string) : option (Z * string) :=
  let '(neg, body) := match s with
                      | String "-" b => (true, b)
                      | String "+" b => (false, b)
                      | _ => (false, s)
                      end in
  match body with
  | String a _ =>
      if is_digit a then
        let '(n, rest) := span_digits 0 body in
        let z := if neg : bool then - n else n in
        if (-9223372036854775808 <=? z) && (z <=? 9223372036854775807) then Some (z, rest) else None
      else None
  | EmptyString => None
  end.
(** [strconv.ParseInt(s, 10, 64)] *)
Definition ParseInt (s : string) : option Z :=
  match read_int s with Some (z, EmptyString) => Some z | _ => None end.
(** [fmt.Sscanf(s, "%d", &n)] of an [n] that is zero. *)
Definition Sscanf_d (s : string) : Z :=
  match read_int (Session.trim_left [" "%char; "009"%char; "011"%char; "012"%char; "013"%char] s) with
  | Some (z, _) => z
  | None => 0
  end.

(** [int64(f)]: towards zero; what does not fit is the least integer (amd64). *)
Definition int64_of_float (q : Q) : Z :=
  let z := Z.quot (Qnum q) (Zpos (Qden q)) in
  if (-9223372036854775808 <=? z) && (z <=? 9223372036854775807) then z else -9223372036854775808.

(** The six bits a character of the URL alphabet stands for. *)
Definition b64_digit (a : ascii) : option Z :=
  let n := Z.of_nat (nat_of_ascii a) in
  if (65 <=? n) && (n <=? 90) then Some (n - 65)
  else if (97 <=? n) && (n <=? 122) then Some (n - 71)
  else if (48 <=? n) && (n <=? 57) then Some (n + 4)
  else if n =? 45 then Some 62
  else if n =? 95 then Some 63
  else None.
Definition byte_of (z : Z) : byte :=
  match Byte.of_N (Z.to_N (z mod 256)) with Some b => b | None => x00 end.
Fixpoint b64_groups (l : list Z) : option bytes :=
  match l with
  | [] => Some []
  | [_] => None
  | [a; b] => Some [byte_of (4 * a + b / 16)]
  | [a; b; c] => Some [byte_of (4 * a + b / 16); byte_of (16 * b + c / 4)]
  | a :: b :: c :: d :: l =>
      rest ← b64_groups l;
      Some (byte_of (4 * a + b / 16) :: byte_of (16 * b + c / 4) :: byte_of (64 * c + d) :: rest)
  end.
(** [base64.RawURLEncoding.DecodeString] *)
Definition b64_decode (s : string) : option bytes :=
  let chars := List.filter (λ a, negb (Ascii.eqb a "010" || Ascii.eqb a "013"))
                 (String.list_ascii_of_string s) in
  l ← mapM b64_digit chars; b64_groups l.

Example b64_ex :
  b64_decode "aGk_" = Some [x68; x69; x3f] ∧ b64_decode "aGk" = Some [x68; x69]
  ∧ b64_decode "a" = None ∧ b64_decode "aG=" = None ∧ ParseInt "-42" = Some (-42) ∧ ParseInt "4 " = None
  ∧ Sscanf_d " +17x" = 17.
Proof. repeat split. Qed.

(** [url.QueryEscape] *)
Definition hex_char (n : nat) : ascii := ascii_of_nat (if (n <? 10)%nat then 48 + n else 55 + n)%nat.
Fixpoint QueryEscape (s : string) : string :=
  match s with
  | EmptyString => ""
  | String a s' =>
      let n := nat_of_ascii a in
      let rest := QueryEscape s' in
      if is_digit a || ((65 <=? n) && (n <=? 90))%nat || ((97 <=? n) && (n <=? 122))%nat
         || (n =? 45)%nat || (n =? 95)%nat || (n =? 46)%nat || (n =? 126)%nat then String a rest
      else if (n =? 32)%nat then String "+" rest
      else String "%" (String (hex_char (n / 16)) (String (hex_char (n mod 16)) rest))
  end.

(** ** Tokens *)

(** What [encoding/json] puts in an [interface{}]. *)
Inductive jval := JBool (b : bool) | JString (s : string) | JNumber (q : Q) | JOther.

(** The answer of an HTTP request; the body may fail to arrive. *)
Inductive reply := NetErr (e : error) | Reply (status : Z) (body : error + bytes).

Record TokenClaims := mkClaims {
  cEmail : string;
  cEmailVerified : bool;
  cAudience : string;
  cExpiry : Z;
}.
Record cachedClaim := mkCached { ccClaims : TokenClaims; ccExpiry : Z }.
Abbreviation TokenCache := (gmap string cachedClaim).

Definition nanos : Z := 1000000000.
Definition hour : Z := 3600 * nanos.
(** [t.Unix()] *)
Definition Unix (t : Z) : Z := t / nanos.
Definition GoogleInfoEndpoint : string := "https://oauth2.googleapis.com/tokeninfo".

(** [v, _ := m[k].(string)] *)
Definition string_at (m : gmap string jval) (k : string) : string :=
  match m !! k with Some (JString s) => s | _ => "" end.

Section verify.
Context `{Json (gmap string jval)}.
(** [os.Getenv], and the GET request on an URL. *)
Context (getenv : string → string) (http_get : string → reply).
Abbreviation C := TokenCache.

Definition mock_enabled : bool :=
  EqualFold (getenv "DVFS_AUTH_MOCK") "true" || EqualFold (getenv "DVFS_AUTH_MOCK") "1".
Definition mock_prefix : string := "mock-jwt.".

Definition parseMockToken (rawToken : string) (later : Z) : error + TokenClaims :=
  match Split "." rawToken with
  | _ :: p1 :: more =>
      let payload := match more with
                     | p2 :: _ => if HasPrefix rawToken mock_prefix then p2 else p1
                     | [] => p1
                     end in
      match b64_decode payload with
      | None => inl (Errorf "failed to base64url decode mock payload" [])
      | Some b =>
          match unmarshal (A := gmap string jval) b with
          | None => inl (Errorf "failed to unmarshal mock claims" [])
          | Some m =>
              let expInt := match m !! "exp" with Some (JNumber q) => int64_of_float q | _ => 0 end in
              let expInt := if expInt =? 0 then Unix (later + 24 * hour) else expInt in
              inr (mkClaims (Session.TrimSpace (ToLower (string_at m "email"))) true "mock-client-id" expInt)
          end
      end
  | _ => inl (Errorf "invalid token segments" [])
  end.

(** [expectedEmail != "" && !strings.EqualFold(email, expectedEmail)] *)
Definition mismatch (email expectedEmail : string) : bool :=
  negb (String.eqb expectedEmail "") && negb (EqualFold email expectedEmail).

Definition remember (rawToken : string) (c : cachedClaim) : M C unit := modify <[rawToken := c]>.
(** A full cache drops what expired, and all of it if that is not enough. *)
Definition make_room (later : Z) : M C unit := modify (λ cache,
  if 5000 <=? Z.of_nat (size cache) then
    let live := filter (λ kv, later ≤ ccExpiry kv.2) cache in
    if 5000 <=? Z.of_nat (size live) then ∅ else live
  else cache).

(** The leeway for the skew of the clock, in seconds. *)
Definition leeway : Z :=
  if decide (getenv "DVFS_CLOCK_SKEW_SECONDS" = "") then 300
  else match ParseInt (getenv "DVFS_CLOCK_SKEW_SECONDS") with
       | Some v => if 0 <=? v then v else 300
       | None => 300
       end.

Definition verified_flag (m : gmap string jval) : bool :=
  match m !! "email_verified" with
  | Some (JBool b) => b
  | Some (JString s) => EqualFold s "true"
  | _ => false
  end.
Definition exp_claim (m : gmap string jval) : Z :=
  match m !! "exp" with
  | Some (JNumber q) => int64_of_float q
  | Some (JString s) => Sscanf_d s
  | _ => 0
  end.

Definition skew_hint (diff : Z) : string :=
  if (16000 <=? diff) && (diff <=? 22000) then
    " [HINT: server clock appears to be set to Indian Standard Time (IST) but interpreted as UTC. Check 'date -u' on server and sync with NTP/timedatectl]"
  else "".

(** The checks on the claims Google reports. *)
Definition check_claims (m : gmap string jval) (expectedEmail clientID : string) (now : Z) :
    error + TokenClaims :=
  let email := Session.TrimSpace (ToLower (string_at m "email")) in
  let expInt := exp_claim m in
  let aud := string_at m "aud" in
  if decide (email = "") then inl (Errorf "tokeninfo did not contain an email address" [])
  else if negb (verified_flag m) then inl (Errorf "google email is not verified for account %s" [email])
  else if (0 <? expInt) && (i64 (expInt + leeway) <? Unix now) then
    inl (Errorf "token has expired (expiry: %d, now: %d, skew: %ds)%s"
           [pretty expInt; pretty (Unix now); pretty (i64 (Unix now - expInt));
            skew_hint (i64 (Unix now - expInt))])
  else if decide (clientID ≠ "" ∧ aud = "") then
    inl (Errorf "token validation failed: token missing audience claim ('aud')" [])
  else if decide (clientID ≠ "" ∧ aud ≠ clientID) then
    inl (Errorf "token audience mismatch: token audience '%s' does not match configured clientID '%s'"
           [aud; clientID])
  else if decide (clientID = "") then
    inl (Errorf "server configuration error: GOOGLE_CLIENT_ID must be configured to validate token audience in production mode" [])
  else if mismatch email expectedEmail then
    inl (Errorf "authenticated email '%s' does not match expected user email '%s'" [email; expectedEmail])
  else inr (mkClaims email true aud expInt).

(** How long claims stay in the cache, in nanoseconds. *)
Definition cache_ttl (expInt now : Z) : Z :=
  if Unix now <? expInt then
    let ttl := i64 (i64 (expInt - Unix now) * nanos) in
    if 2 * hour <? ttl then 2 * hour else ttl
  else hour.

(** The request to the tokeninfo endpoint. *)
Definition query_google (rawToken expectedEmail clientID : string) (now : Z) : error + TokenClaims :=
  if decide (clientID = "") then
    inl (Errorf "server configuration error: GOOGLE_CLIENT_ID must be configured to validate token audience in production mode" [])
  else
    match http_get (GoogleInfoEndpoint +:+ "?id_token=" +:+ QueryEscape rawToken) with
    | NetErr e => inl (Wrapf "token validation network error: %w" [] e)
    | Reply _ (inl e) => inl (Wrapf "failed to read tokeninfo response: %w" [] e)
    | Reply status (inr body) =>
        if negb (status =? 200) then inl (Errorf "invalid google token (status %d): %s" [pretty status])
        else match unmarshal (A := gmap string jval) body with
             | None => inl (Errorf "failed to parse tokeninfo json" [])
             | Some m => check_claims m expectedEmail clientID now
             end
    end.

(** A mock token, allowed only where the environment says so. *)
Definition verify_mock (rawToken expectedEmail : string) (later : Z) : M C TokenClaims :=
  if negb mock_enabled then
    throw (Errorf "security violation: mock token submitted in production mode (DVFS_AUTH_MOCK is false)" [])
  else
    match parseMockToken rawToken later with
    | inl e => throw (Wrapf "mock token parse error: %w" [] e)
    | inr claims =>
        if mismatch (cEmail claims) expectedEmail then
          throw (Errorf "mock token email '%s' does not match expected email '%s'" [cEmail claims; expectedEmail])
        else
          make_room later ;;
          remember rawToken (mkCached claims (cExpiry claims * nanos)) ;;
          mret claims
    end.

Definition VerifyToken (rawToken expectedEmail clientID : string) (now later : Z) : M C TokenClaims :=
  let rawToken := Session.TrimSpace rawToken in
  let expectedEmail := Session.TrimSpace (ToLower expectedEmail) in
  if decide (rawToken = "") then throw (Errorf "empty authentication token" [])
  else
    cached ← gets (λ cache : C, cache !! rawToken);
    match (c ← cached; if now <? ccExpiry c then Some c else None) with
    | Some c =>
        if mismatch (cEmail (ccClaims c)) expectedEmail then
          throw (Errorf "token email '%s' does not match expected email '%s'"
                   [cEmail (ccClaims c); expectedEmail])
        else mret (ccClaims c)
    | None =>
        if HasPrefix rawToken mock_prefix || mock_enabled then verify_mock rawToken expectedEmail later
        else
          match query_google rawToken expectedEmail clientID now with
          | inl e => throw e
          | inr claims =>
              remember rawToken (mkCached claims (now + cache_ttl (cExpiry claims) now)) ;;
              mret claims
          end
    end.
End verify.

(** ** What a verified token proves *)

Section sound.
Context `{Json (gmap string jval)}.

(** A call with the environment and the network it met. *)
Record VerifyCall := mkVerifyCall {
  vGetenv : string → string;
  vHttp : string → reply;
  vRaw : string;
  vExpected : string;
  vClient : string;
  vNow : Z;
  vLater : Z;
}.
Definition verify (c : VerifyCall) : M TokenCache TokenClaims :=
  VerifyToken (vGetenv c) (vHttp c) (vRaw c) (vExpected c) (vClient c) (vNow c) (vLater c).
Definition production (c : VerifyCall) : Prop := mock_enabled (vGetenv c) = false.
Definition token_of (c : VerifyCall) : string := Session.TrimSpace (vRaw c).

(** In call [c] Google vouched for these claims of the token: the address is verified,
    the token was issued for the client of the call and is not older than the leeway. *)
Definition vouched (c : VerifyCall) (token : string) (claims : TokenClaims) : Prop :=
  ∃ body m,
    vHttp c (GoogleInfoEndpoint +:+ "?id_token=" +:+ QueryEscape token) = Reply 200 (inr body)
    ∧ unmarshal body = Some m
    ∧ cEmail claims = Session.TrimSpace (ToLower (string_at m "email")) ∧ cEmail claims ≠ ""
    ∧ verified_flag m = true
    ∧ string_at m "aud" = vClient c ∧ vClient c ≠ ""
    ∧ (exp_claim m ≤ 0 ∨ Unix (vNow c) ≤ i64 (exp_claim m + leeway (vGetenv c))).

Definition addressed (c : VerifyCall) (claims : TokenClaims) : Prop :=
  mismatch (cEmail claims) (Session.TrimSpace (ToLower (vExpected c))) = false.

(** The cache holds only what some call of the history was told, for two hours. *)
Definition cache_sound (calls : list VerifyCall) (cache : TokenCache) : Prop :=
  ∀ token cc, cache !! token = Some cc →
    ∃ x, x ∈ calls ∧ vouched x token (ccClaims cc) ∧ ccExpiry cc ≤ vNow x + 2 * hour.

Lemma cache_ttl_max e now : cache_ttl e now ≤ 2 * hour.
Proof.
  unfold cache_ttl. cbv zeta. repeat match goal with |- context [?a <? ?b] => destruct (Z.ltb_spec a b) end;
    unfold hour, nanos in *; lia.
Qed.

Lemma query_addressed getenv http_get token user client now claims :
  query_google getenv http_get token user client now = inr claims → mismatch (cEmail claims) user = false.
Proof.
  unfold query_google. case_decide; [done|]. destruct (http_get _) as [e|st [e|b]]; [done..|].
  destruct (negb (st =? 200)); [done|]. destruct (unmarshal b) as [m|]; [|done]. unfold check_claims. cbv zeta.
  repeat (case_decide; [done|]). destruct (negb (verified_flag m)); [done|].
  destruct ((0 <? exp_claim m) && _); [done|]. repeat (case_decide; [done|]).
  destruct (mismatch _ user) eqn:Hm; [done|]. by intros [= <-].
Qed.

Lemma query_vouched c claims :
  query_google (vGetenv c) (vHttp c) (token_of c) (Session.TrimSpace (ToLower (vExpected c))) (vClient c) (vNow c)
    = inr claims →
  vouched c (token_of c) claims ∧ addressed c claims.
Proof.
  unfold query_google, vouched, addressed. case_decide as Hc; [done|].
  destruct (vHttp c _) as [e|st [e|body]]; [done..|].
  destruct (st =? 200) eqn:Hst; simpl; [|done]. apply Z.eqb_eq in Hst as ->.
  destruct (unmarshal body) as [m|] eqn:Hm; [|done]. unfold check_claims. cbv zeta.
  case_decide as He; [done|]. destruct (verified_flag m) eqn:Hv; simpl; [|done].
  destruct ((0 <? exp_claim m) && _) eqn:Hexp; [done|]. case_decide as Ha; [done|]. case_decide as Hb; [done|].
  rewrite decide_False by done.
  destruct (mismatch _ _) eqn:Hmis; [done|]. intros [= <-]. split; [|exact Hmis].
  exists body, m. split_and!; [done..|destruct (decide (string_at m "aud" = vClient c)); tauto|done|].
  apply andb_false_iff in Hexp as [Hx|Hx]; [left; by apply Z.ltb_ge in Hx|right; by apply Z.ltb_ge in Hx].
Qed.

(** Every outcome of a call in production. *)
Lemma verify_cases c cache :
  production c →
  match verify c cache with
  | (cache', Ok claims) =>
      addressed c claims
      ∧ ((cache' = cache ∧ ∃ cc, cache !! token_of c = Some cc ∧ ccClaims cc = claims ∧ vNow c < ccExpiry cc)
         ∨ (vouched c (token_of c) claims
            ∧ cache' = <[token_of c := mkCached claims (vNow c + cache_ttl (cExpiry claims) (vNow c))]> cache))
  | (cache', Err _) => cache' = cache
  | (_, Panic _) => False
  end.
Proof.
  intros Hprod. unfold verify, VerifyToken. fold (token_of c). cbv zeta. case_decide; [done|].
  unfold gets, mbind at 1, M_bind at 1.
  destruct (c0 ← cache !! token_of c; _) as [cc|] eqn:Hcc.
  - destruct (cache !! token_of c) as [cc'|] eqn:Hget; [|done]. simpl in Hcc.
    destruct (Z.ltb_spec (vNow c) (ccExpiry cc')); [|done]. injection Hcc as ->.
    destruct (mismatch _ _) eqn:Hmis; [done|]. split; [exact Hmis|]. left. eauto.
  - unfold verify_mock. rewrite Hprod, orb_false_r. destruct (HasPrefix _ _); [done|].
    destruct (query_google _ _ _ _ _) as [e|claims] eqn:Hq; [done|].
    apply query_vouched in Hq as [Hv Ha]. simpl. auto.
Qed.

(** The cache a history of calls leaves, whatever each of them answered. *)
Definition run_verifications (calls : list VerifyCall) : TokenCache :=
  foldl (λ cache c, (verify c cache).1) ∅ calls.

Lemma run_sound calls : Forall production calls → cache_sound calls (run_verifications calls).
Proof.
  induction calls as [|c calls IH] using rev_ind; intros Hall; [intros token cc Hcc; exfalso; exact (lookup_empty_Some _ _ Hcc)|].
  apply Forall_app in Hall as [Hall Hc]. rewrite Forall_singleton in Hc. specialize (IH Hall).
  unfold run_verifications. rewrite foldl_app. fold (run_verifications calls). simpl.
  pose proof (verify_cases c (run_verifications calls) Hc) as Hrun.
  assert (cache_sound (calls ++ [c]) (run_verifications calls)) as Hup.
  { intros token cc Hcc. destruct (IH _ _ Hcc) as (x & Hx & Hrest). exists x. split; [set_solver|done]. }
  destruct (verify c _) as [cache' [claims|e|y]]; simpl; [|by subst|done].
  destruct Hrun as [_ [[-> _]|[Hv ->]]]; [done|]. intros token cc [[<- <-]|[_ Hcc]]%lookup_insert_Some.
  - exists c. split; [set_solver|]. split; [exact Hv|]. simpl. pose proof (cache_ttl_max (cExpiry claims) (vNow c)). lia.
  - by apply Hup.
Qed.
End sound.

(** C18. In production no token is accepted on its own word: whatever sequence of
    verifications filled the cache, a call that accepts a token returns claims whose
    address is the one expected (up to case), and that Google vouched for, on this
    token, for the client id of the call, in this call or in one less than two hours
    before; a call that refuses leaves the cache alone, and none panics. *)
Theorem VerifyToken_sound `{Json (gmap string jval)} calls c :
  Forall production (calls ++ [c]) →
  let cache := run_verifications calls in
  match verify c cache with
  | (_, Ok claims) =>
      addressed c claims
      ∧ ∃ x, x ∈ calls ++ [c] ∧ vouched x (token_of c) claims ∧ vNow c < vNow x + 2 * hour
  | (cache', Err _) => cache' = cache
  | (_, Panic _) => False
  end.
Proof.
  intros [Hall Hc]%Forall_app. rewrite Forall_singleton in Hc. intros cache.
  pose proof (run_sound calls Hall) as Hsound. pose proof (verify_cases c cache Hc) as Hrun.
  destruct (verify c cache) as [cache' [claims|e|y]]; [|done..]. destruct Hrun as [Ha Hcase]. split; [done|].
  destruct Hcase as [(_ & cc & Hcc & <- & Hlt)|[Hv _]].
  - destruct (Hsound _ _ Hcc) as (x & Hx & Hvx & Hle). exists x. split; [set_solver|]. split; [done|lia].
  - exists c. split; [set_solver|]. split; [done|]. unfold hour, nanos. lia.
Qed.

(** An expired token outlives its leeway: one that expired at most five minutes ago
    is accepted, and is then accepted from the cache for another hour, although Google
    no longer knows it and its expiry lies up to sixty-five minutes back. *)
Theorem expired_token_stays_cached `{Json (gmap string jval)} c c2 body m :
  production c → production c2 → vGetenv c "DVFS_CLOCK_SKEW_SECONDS" = "" →
  token_of c ≠ "" → token_of c2 = token_of c → HasPrefix (token_of c) mock_prefix = false →
  vExpected c = "" → vExpected c2 = "" →
  vHttp c (GoogleInfoEndpoint +:+ "?id_token=" +:+ QueryEscape (token_of c)) = Reply 200 (inr body) →
  unmarshal body = Some m → Session.TrimSpace (ToLower (string_at m "email")) ≠ "" → verified_flag m = true →
  string_at m "aud" = vClient c → vClient c ≠ "" →
  0 < exp_claim m → exp_claim m ≤ Unix (vNow c) ≤ exp_claim m + 300 → Unix (vNow c) + 300 < 9223372036854775808 →
  vNow c ≤ vNow c2 < vNow c + hour →
  ∃ claims cache, verify c ∅ = (cache, Ok claims) ∧ (verify c2 cache).2 = Ok claims.
Proof.
  intros Hc Hc2 Hskew Hne Htok Hmock He He2 Hhttp Hm Hemail Hver Haud Hcl Hpos Hexp Hbig Hnow.
  set (claims := mkClaims (Session.TrimSpace (ToLower (string_at m "email"))) true (string_at m "aud") (exp_claim m)).
  assert (query_google (vGetenv c) (vHttp c) (token_of c) "" (vClient c) (vNow c) = inr claims) as Hq.
  { unfold query_google. rewrite decide_False by done. rewrite Hhttp. simpl. rewrite Hm. unfold check_claims. cbv zeta.
    rewrite decide_False by done. rewrite Hver. simpl. unfold leeway. rewrite Hskew, decide_True by done.
    rewrite i64_small by lia.
    destruct (Z.ltb_spec (exp_claim m + 300) (Unix (vNow c))); [lia|]. rewrite andb_false_r.
    rewrite decide_False by (rewrite Haud; tauto). rewrite decide_False by (rewrite Haud; tauto).
    rewrite decide_False by done. reflexivity. }
  exists claims, {[token_of c := mkCached claims (vNow c + hour)]}. split.
  - unfold verify, VerifyToken. fold (token_of c). cbv zeta. rewrite decide_False by done.
    unfold gets, mbind at 1, M_bind at 1. rewrite lookup_empty. simpl. rewrite Hc, Hmock, He. simpl.
    change (Session.TrimSpace "") with "". rewrite Hq. unfold remember, modify, mbind, M_bind. simpl.
    unfold cache_ttl. destruct (Z.ltb_spec (Unix (vNow c)) (exp_claim m)); [lia|]. done.
  - unfold verify, VerifyToken. fold (token_of c2). rewrite Htok, He2. cbv zeta. rewrite decide_False by done.
    unfold gets, mbind at 1, M_bind at 1. rewrite lookup_singleton_eq. simpl.
    destruct (Z.ltb_spec (vNow c2) (vNow c + hour)); [|lia]. done.
Qed.

(** ** Two verifications of one token *)

(** An encoder that knows one object. *)
Definition demo_claims : gmap string jval :=
  <["email" := JString " Ann@Example.com"]> (<["email_verified" := JString "true"]>
    (<["aud" := JString "client"]> (<["exp" := JString "1000"]> ∅))).
#[export] Instance demo_claims_json : Json (gmap string jval) :=
  {| marshal _ := [x7b]; unmarshal b := if decide (b = [x7b]) then Some demo_claims else None |}.
Definition demo_call (answer : reply) (user : string) (now : Z) : VerifyCall :=
  mkVerifyCall (λ _, "") (λ _, answer) " eyJ.x.y" user "client" now now.
(** The token expired at 1000 s; Google still answers at 1200 s and is gone at 4000 s. *)
Definition demo_first := demo_call (Reply 200 (inr [x7b])) "" (1200 * nanos).
Definition demo_second (user : string) := demo_call (NetErr (Errorf "timeout" [])) user (4000 * nanos).

Lemma VerifyToken_sound_witness :
  Forall production ([demo_first] ++ [demo_second "ANN@example.com"])
  ∧ (verify (demo_second "ANN@example.com") (run_verifications [demo_first])).2
    = Ok (mkClaims "ann@example.com" true "client" 1000)
  ∧ addressed (demo_second "ANN@example.com") (mkClaims "ann@example.com" true "client" 1000)
  ∧ ∃ x, x ∈ [demo_first; demo_second "ANN@example.com"]
      ∧ vouched x "eyJ.x.y" (mkClaims "ann@example.com" true "client" 1000).
Proof.
  assert (Forall production ([demo_first] ++ [demo_second "ANN@example.com"])) as Hp by (repeat constructor).
  split; [exact Hp|].
  assert ((verify (demo_second "ANN@example.com") (run_verifications [demo_first])).2
          = Ok (mkClaims "ann@example.com" true "client" 1000)) as Hr by (vm_compute; reflexivity).
  pose proof (VerifyToken_sound [demo_first] (demo_second "ANN@example.com") Hp) as H. cbv zeta in H.
  destruct (verify _ _) as [cache r]. simpl in Hr. subst r.
  destruct H as [Ha (x & Hx & Hv & _)]. split; [reflexivity|]. split; [exact Ha|].
  exact (ex_intro _ x (conj Hx Hv)).
Defined.

Lemma expired_token_stays_cached_witness :
  ∃ claims cache, verify demo_first ∅ = (cache, Ok claims) ∧ (verify (demo_second "") cache).2 = Ok claims.
Proof.
  apply (expired_token_stays_cached demo_first (demo_second "") [x7b] demo_claims); try reflexivity; try discriminate.
  all: vm_compute; (split; discriminate || reflexivity) || discriminate || reflexivity.
Defined.
