(* ===== verification/Interceptor.v ===== *)
(** * Who may call the file server

    Models the interceptors of [internal/fileserver/auth_google.go], which stand before
    every handler of a build with Google authentication: [RegisterClient] needs a Google
    token, every other call a session token.  Put before the handlers of [Handler], they
    give the access control a client meets.  The interceptors of [auth_default.go] are
    nil: such a build has the handlers alone, with no session in their context.  The
    text of an inner error is left out of a status. *)
From S2P Require Import FileServer Persist Tree TreeWf TreeRun Frames Invariant Share Trash FileOps.
From S2P Require Import Callback Handler HandlerSpec Demo Auth.
From S2P Require Session.

Implicit Types (s : FileServer) (l x : loc) (i : Inode) (f : FID) (ctx : Ctx).

(** The server with the cache of verified tokens; the session store the interceptors
    use is the one of the server once [NewFileServer] has registered it. *)
Record Front (D : Type) := mkFront {
  fServer : Server D;
  fTokens : TokenCache;
  fStoreSet : bool;
}.
Arguments mkFront {D} fServer fTokens fStoreSet.
Arguments fServer {D} f.
Arguments fTokens {D} f.
Arguments fStoreSet {D} f.

(** What comes with a call beside the request and the [Ctx] of its handler. *)
Record Incoming := mkIncoming {
  inMethod : string;            (* info.FullMethod *)
  inMD : bool;                  (* metadata.FromIncomingContext *)
  inAuthorization : list string;
  inUsername : string;          (* the user of a RegisterClientRequest *)
}.

Definition method (name : string) : string := "/fileserver.FileServer/" +:+ name.

(** [LoadDesktopConfig].[ClientID] *)
Definition DefaultClientID : string :=
  "455543948524-ood3v14gdp934kgd89pheei257o8qg40.apps.googleusercontent.com".
Definition config_client (getenv : string → string) : string :=
  let clientID := Session.TrimSpace (getenv "GOOGLE_CLIENT_ID") in
  if decide (clientID = "") then Session.TrimSpace DefaultClientID else clientID.

Definition set_session (x : Session.Session) ctx : Ctx :=
  mkCtx (Some x) (ctxPeer ctx) (ctxHashes ctx) (ctxPasswords ctx) (ctxAdminEmail ctx)
    (ctxAdminHash ctx) (ctxNow ctx) (ctxDur ctx).

(** The token of the first [authorization] header. *)
Definition bearer (inc : Incoming) : option string :=
  match inAuthorization inc with
  | h :: _ => if HasPrefix h "Bearer " then Some (TrimPrefix h "Bearer ") else None
  | [] => None
  end.

Section interceptor.
Context {D : Type} `{Env D} `{Json (gmap string jval)}.
Context (getenv : string → string) (http_get : string → reply).
Abbreviation F := (Front D).

Definition on_server {A} (m : M (Server D) A) : M F A := λ w,
  let '(sv, r) := m (fServer w) in (mkFront sv (fTokens w) (fStoreSet w), r).
Definition on_tokens {A} (m : M TokenCache A) : M F A := λ w,
  let '(c, r) := m (fTokens w) in (mkFront (fServer w) c (fStoreSet w), r).
Definition refuse {A} (c : code) (fmt : string) : M F (resp A) := mret (inl (StatusErrorf c fmt [])).

Definition allow_legacy : bool :=
  String.eqb (getenv "DVFS_ALLOW_LEGACY_TOKEN_FALLBACK") "true"
  || String.eqb (getenv "DVFS_ALLOW_LEGACY_TOKEN_FALLBACK") "1".

(** The three refusals of a session, as the unary and the stream interceptor put them. *)
Definition expired_msg (stream : bool) : string :=
  if stream then "stream session has expired; please reconnect"
  else "session has expired; please reconnect".
Definition mismatch_msg (stream : bool) : string :=
  if stream then "stream transport violation: client IP mismatch"
  else "session transport violation: client IP mismatch".
Definition invalid_msg (stream : bool) : string :=
  if stream then "stream session validation failed: %v" else "invalid session token: %v".

(** A Google token in the place of a session token, which tests may allow. *)
Definition legacy_session {A} (stream : bool) (rawToken : string) ctx
    (handler : Ctx → M (Server D) (resp A)) : M F (resp A) :=
  let peerIP := default "" (ctxPeer ctx) in
  if allow_legacy then
    c ← on_tokens (catch (VerifyToken getenv http_get rawToken "" (config_client getenv) (ctxNow ctx) (ctxNow ctx)));
    match c with
    | inl _ => refuse Unauthenticated (invalid_msg stream)
    | inr claims =>
        r ← on_server (catch (on_store (Session.CreateSession sha256str rawToken (cEmail claims) "" peerIP
                                          "" "" (ctxNow ctx + hour) (ctxNow ctx))));
        on_server (handler (match r with inr x => set_session x ctx | inl _ => ctx end))
    end
  else refuse Unauthenticated (invalid_msg stream).

(** The check of a session token. *)
Definition with_session {A} (stream : bool) (rawToken : string) ctx
    (handler : Ctx → M (Server D) (resp A)) : M F (resp A) :=
  installed ← gets fStoreSet;
  if negb installed then on_server (handler ctx)
  else
    v ← on_server (catch (on_store (Session.ValidateSession sha256str rawToken (default "" (ctxPeer ctx)) (ctxNow ctx))));
    match v with
    | inr x => on_server (handler (set_session x ctx))
    | inl e =>
        if decide (e = Session.ErrSessionExpired) then refuse Unauthenticated (expired_msg stream)
        else if decide (e = Session.ErrIPMismatch) then refuse PermissionDenied (mismatch_msg stream)
        else legacy_session stream rawToken ctx handler
    end.

(** [GetServerAuthInterceptor] *)
Definition unary_interceptor {A} (inc : Incoming) ctx (handler : Ctx → M (Server D) (resp A)) : M F (resp A) :=
  if negb (inMD inc) then refuse Unauthenticated "missing authorization metadata in request"
  else if String.eqb (inMethod inc) (method "SetQuota")
          && negb (bool_decide (ctxHashes ctx = [] ∧ ctxPasswords ctx = []))
  then on_server (handler ctx)
  else match bearer inc with
       | None => refuse Unauthenticated "missing or malformed Bearer authorization header"
       | Some rawToken =>
           if String.eqb (inMethod inc) (method "RegisterClient") then
             c ← on_tokens (catch (VerifyToken getenv http_get rawToken (inUsername inc) (config_client getenv)
                                     (ctxNow ctx) (ctxNow ctx)));
             match c with
             | inl _ => refuse Unauthenticated "google handshake authentication failed: %v"
             | inr _ => on_server (handler ctx)
             end
           else with_session false rawToken ctx handler
       end.

(** [GetServerStreamAuthInterceptor] *)
Definition stream_interceptor {A} (inc : Incoming) ctx (handler : Ctx → M (Server D) (resp A)) : M F (resp A) :=
  if negb (inMD inc) then refuse Unauthenticated "missing authorization metadata in stream request"
  else match bearer inc with
       | None => refuse Unauthenticated "missing or malformed Bearer authorization header in stream"
       | Some rawToken => with_session true rawToken ctx handler
       end.

(** ** The calls as a client makes them *)

(** The name of the RPC of a request, and whether it is a stream. *)
Definition rpc_name (q : Request) : string * bool :=
  match q with
  | QPath _ _ _ => (method "Path", false)
  | QRestoreFile _ _ _ => (method "RestoreFile", false)
  | QShowTrash _ _ => (method "ShowTrash", false)
  | QGetAttr _ => (method "GetAttr", false)
  | QShare _ _ _ => (method "Share", false)
  | QUnshare _ _ _ => (method "Unshare", false)
  | QChangeDir _ _ _ => (method "ChangeDir", false)
  | QListDir _ => (method "ListDir", false)
  | QCreateFile _ _ _ _ _ => (method "CreateFile", false)
  | QReadFile _ _ _ _ => (method "ReadFile", false)
  | QWriteFile _ _ _ _ => (method "WriteFile", false)
  | QDeleteFile _ _ _ => (method "DeleteFile", false)
  | QTrashFile _ _ _ => (method "TrashFile", false)
  | QUploadFile _ _ => (method "UploadFile", true)
  | QDownloadFile _ _ _ => (method "DownloadFile", true)
  end.

(** A request with its metadata, through the interceptor to its handler. *)
Definition rpc (md : bool) (authorization : list string) ctx (q : Request) : M F (resp unit) :=
  let '(name, stream) := rpc_name q in
  let inc := mkIncoming name md authorization "" in
  if stream then stream_interceptor inc ctx (λ c, serve c q)
  else unary_interceptor inc ctx (λ c, serve c q).

(** [SetQuota] with its metadata. *)
Definition rpc_SetQuota (md : bool) (authorization : list string) ctx (user : string) (quota : Z) : M F (resp unit) :=
  unary_interceptor (mkIncoming (method "SetQuota") md authorization "") ctx (λ c, h_SetQuota c user quota).

(** [RegisterClient] with its metadata. *)
Definition rpc_RegisterClient (md : bool) (authorization : list string) ctx
    (username root_user root_path callbackAddr clientId : string) (rawSST : option string) : M F (resp Registered) :=
  unary_interceptor (mkIncoming (method "RegisterClient") md authorization username) ctx
    (λ c, h_RegisterClient c username root_user root_path callbackAddr clientId rawSST).
End interceptor.

(** ** What a caller must show *)

Section access.
Context {D : Type} `{Env D} `{Json (gmap string jval)}.
Context (getenv : string → string) (http_get : string → reply).
Implicit Types (w : Server D) (fw : Front D) (y : Session.Session).

(** The token belongs to a session that is alive and bound to the address of the call. *)
Definition live_session ctx w (token : string) y : Prop :=
  let store := sessionStore (srv w) in
  Session.sessions store !! sha256str token = Some y
  ∧ (Session.AbsoluteExp y = 0 ∨ ctxNow ctx ≤ Session.AbsoluteExp y)
  ∧ ctxNow ctx - Session.LastSeenAt y ≤ Session.idleTTL store
  ∧ (Session.ClientIP y = "" ∨ Session.extractIP (default "" (ctxPeer ctx)) = ""
     ∨ Session.ClientIP y = Session.extractIP (default "" (ctxPeer ctx))).

Definition with_store st w : Server D := set_srv (set_sessionStore st (srv w)) w.
(** Only the last-seen time of a session, the counters and the activity changed. *)
Definition undisturbed w w' : Prop := ∃ st, untouched (with_store st w) w'.

Lemma with_own_store w : with_store (sessionStore (srv w)) w = w.
Proof. by destruct w as [[] ? ? ?]. Qed.
Lemma undisturbed_refl w : undisturbed w w.
Proof. exists (sessionStore (srv w)). rewrite with_own_store. apply untouched_refl. Qed.

(** A session is found and the handler runs with it, or nothing happens. *)
Lemma with_session_cases {A} stream token ctx (handler : Ctx → M (Server D) (resp A)) fw :
  fStoreSet fw = true → allow_legacy getenv = false →
  (∃ y st, live_session ctx (fServer fw) token y
     ∧ with_session getenv http_get stream token ctx handler fw
       = on_server (handler (set_session (Session.Touch (ctxNow ctx) y) ctx))
           (mkFront (with_store st (fServer fw)) (fTokens fw) (fStoreSet fw)))
  ∨ ∃ e, with_session getenv http_get stream token ctx handler fw = (fw, Ok (inl e)).
Proof.
  intros Hset Hleg. destruct fw as [w c b]. simpl in *. subst b. unfold with_session.
  erewrite bind_ok by reflexivity. simpl.
  pose proof (Session.ValidateSession_cases sha256str token (default "" (ctxPeer ctx)) (ctxNow ctx)
                (sessionStore (srv w))) as Hv.
  destruct (Session.ValidateSession _ _ _ _ _) as [st r] eqn:Hrun.
  set (a := match r with Ok x => inr x | Err e => inl e | Panic _ => inl Session.ErrSessionNotFound end).
  assert (on_server (catch (on_store (Session.ValidateSession sha256str token (default "" (ctxPeer ctx)) (ctxNow ctx))))
            (mkFront w c true) = (mkFront (with_store st w) c true, Ok a)) as Hs.
  { unfold on_server, catch, on_store. cbn [fServer fTokens fStoreSet]. rewrite Hrun. by destruct r. }
  erewrite bind_ok by exact Hs. destruct r as [x|e|y]; [..|done]; unfold a.
  - left. destruct Hv as (_ & y & Hy & -> & Habs & Hidle & Hip & _). exists y, st. done.
  - right. destruct Hv as [-> _]. rewrite with_own_store.
    unfold legacy_session. rewrite Hleg. case_decide; [by eexists|]. case_decide; by eexists.
Qed.

Lemma refuse_run {A} c fmt fw : refuse (A := A) c fmt fw = (fw, Ok (inl (StatusErrorf c fmt []))).
Proof. done. Qed.

(** The calls that name an inode all need a session. *)
Lemma rpc_shape md authorization ctx q fw :
  (∃ e, rpc getenv http_get md authorization ctx q fw = (fw, Ok (inl e)))
  ∨ ∃ token, md = true ∧ bearer (mkIncoming "" md authorization "") = Some token
      ∧ rpc getenv http_get md authorization ctx q fw
        = with_session getenv http_get (rpc_name q).2 token ctx (λ c, serve c q) fw.
Proof.
  destruct (bearer (mkIncoming "" md authorization "")) as [token|] eqn:Hb; unfold bearer in Hb; simpl in Hb;
    (destruct md; [|left; destruct q; eexists; apply refuse_run]).
  - right. exists token. split_and!; [done..|].
    destruct q; cbn; unfold unary_interceptor, stream_interceptor; cbn; unfold bearer; cbn; by rewrite Hb.
  - left. destruct q; eexists; cbn; unfold unary_interceptor, stream_interceptor; cbn; unfold bearer; cbn;
      rewrite Hb; apply refuse_run.
Qed.

Lemma permits_session (ss : Session.Session) ctx a u perm : permits (set_session ss ctx) a u perm = permits ctx a u perm.
Proof. by destruct perm. Qed.

(** The tree a caller may act on is the one before its session was refreshed. *)
Lemma granted_with_store ctx u st w g : granted ctx u (with_store st w) g ↔ granted ctx u w g.
Proof. done. Qed.
Lemma granted_session (ss : Session.Session) ctx u w g : granted (set_session ss ctx) u w g ↔ granted ctx u w g.
Proof. destruct g; [|done..]. simpl. by setoid_rewrite permits_session. Qed.
Lemma with_store_wf st w : tree_wf (srv w) → tree_wf (srv (with_store st w)).
Proof. intros [H1 H2 H3 H4 H5]. by split. Qed.
End access.


(** C37. A quota needs no credentials: a [SetQuota] that merely carries a password header,
    whatever is in it, is let through without a session, and the handler tests the
    password only of a caller that has one.  Anybody sets the quota of any user. *)
Theorem quota_needs_no_credentials {D : Type} `{Env D} `{Json (gmap string jval)} (getenv : string → string)
    (http_get : string → reply) authorization ctx user quota (fw : Front D) :
  ctxSession ctx = None → ctxHashes ctx ≠ [] ∨ ctxPasswords ctx ≠ [] → user ≠ "" → quota ≠ 0 →
  rpc_SetQuota getenv http_get true authorization ctx user quota fw
  = on_server (catch (SetUserQuota user quota)) fw.
Proof.
  intros Hs Hpw Hu Hq. unfold rpc_SetQuota, unary_interceptor. simpl.
  rewrite bool_decide_eq_false_2 by tauto. simpl. unfold h_SetQuota, caller_of, ctxUser. rewrite Hs. simpl.
  unfold given. destruct (String.eqb_spec user "") as [|_]; [done|]. simpl.
  destruct (Z.eqb_spec quota 0); [done|]. done.
Qed.

(** ** A session on the concrete server *)

(** [two_users] after bob logged in from 10.0.0.7 with the token [sst_b]. *)
Definition bob_session : Session.Session :=
  Session.mkSession (sha256str "sst_b") "bob" "c1" "10.0.0.7" "" "" 0 0 1000.
Definition front : Front MemDisk :=
  mkFront (with_store (Session.set_sessions {[sha256str "sst_b" := bob_session]}
                         (sessionStore (srv two_users))) two_users) ∅ true.
Definition from_bob : Ctx := mkCtx None (Some "10.0.0.7:5000") [] ["guess"] "" "0123abc" 500 0.
Definition no_net (url : string) : reply := NetErr (Errorf "no network" []).

Lemma front_sessions h y :
  Session.sessions (sessionStore (srv (fServer front))) !! h = Some y → y = bob_session.
Proof.
  change (({[sha256str "sst_b" := bob_session]} : gmap string Session.Session) !! h = Some y → y = bob_session).
  by intros [_ <-]%lookup_singleton_Some.
Qed.


(** bob, without a token and with a wrong password, gives himself a byte. *)
Lemma quota_needs_no_credentials_witness :
  let '(fw', r) := rpc_SetQuota (λ _, "") no_net true [] from_bob "ann" 1 front in
  r = Ok (inr tt) ∧ getUserQuota (srv (fServer front)) "ann" = defaultStorageQuota
  ∧ getUserQuota (srv (fServer fw')) "ann" = 1.
Proof.
  rewrite (quota_needs_no_credentials (λ _, "") no_net [] from_bob "ann" 1 front);
    [|reflexivity|right; discriminate|discriminate|discriminate].
  vm_compute. split; [reflexivity|split; reflexivity].
Defined.
