(* ===== verification/MetaAuth.v ===== *)
(** * Who may call the metaserver

    Models [internal/metaserver/auth_google.go]: the calls of the cluster need a client
    certificate of a node, [DeregisterFileServer] administrator credentials or such a
    certificate, and every other call a Google token of the user it names.  The
    certificates a peer presents are those TLS has verified; the text of an inner error
    is left out of a status. *)
From S2P Require Import Prelude GoStd Disk Auth.
From S2P Require Session Handler Interceptor.

(** [strings.HasSuffix] *)
Definition HasSuffix (s suffix : string) : bool := HasPrefix (Session.string_rev s) (Session.string_rev suffix).

Record Certificate := mkCertificate { CommonName : string; DNSNames : list string }.
(** [p.AuthInfo]: none, TLS with the certificates of the peer, or another transport. *)
Inductive AuthInfo := NoAuthInfo | TLSInfo (PeerCertificates : list Certificate) | OtherAuthInfo.
Record Peer := mkPeer { pAddr : option string; pAuthInfo : AuthInfo }.

Definition isAuthorizedClusterIdentity (name : string) : bool :=
  negb (String.eqb name "")
  && (let name := ToLower (Session.TrimSpace name) in
      bool_decide (name ∈ ["localhost"; "127.0.0.1"; "fileserver"; "metaserver"; "mds"])
      || HasPrefix name "dvfs" || HasPrefix name "fs"
      || HasSuffix name ".cluster.local" || HasSuffix name ".dvfs.cluster" || HasSuffix name ".local").

Example isAuthorized_ex :
  map isAuthorizedClusterIdentity [" MDS "; "dvfs3"; "fs1.example.org"; "node7.local"; "ann"; ""; " "]
  = [true; true; true; true; false; false; false].
Proof. reflexivity. Qed.

Definition cert_authorized (c : Certificate) : bool :=
  isAuthorizedClusterIdentity (CommonName c) || existsb isAuthorizedClusterIdentity (DNSNames c).

(** What comes with a call beside its request. *)
Record MetaIncoming := mkMetaIncoming {
  miMethod : string;
  miMD : bool;
  miAuthorization : list string;
  miHashes : list string;       (* x-admin-password-hash *)
  miPasswords : list string;    (* x-admin-password *)
  miPeer : option Peer;
  miUsername : string;          (* the user of a GetRootsRequest or NavigateRequest, else empty *)
}.

Definition meta_method (name : string) : string := "/metaserver.MetaServer/" +:+ name.
Definition cluster_methods : list string :=
  [meta_method "RegisterFileServer"; meta_method "Heartbeat"; meta_method "RootShare"; meta_method "RootUnshare"].

Definition meta_bearer (inc : MetaIncoming) : option string :=
  match miAuthorization inc with
  | h :: _ => if HasPrefix h "Bearer " then Some (TrimPrefix h "Bearer ") else None
  | [] => None
  end.

Section interceptor.
Context {S : Type} `{Json (gmap string jval)}.
Context (getenv : string → string) (http_get : string → reply) (sha256str : string → string).
Implicit Types (inc : MetaIncoming).

(** The state of the server with the cache of verified tokens. *)
Abbreviation W := (S * TokenCache)%type.
Definition on_meta {A} (m : M S A) : M W A := λ w, let '(s, r) := m w.1 in ((s, w.2), r).
Definition on_cache {A} (m : M TokenCache A) : M W A := λ w, let '(c, r) := m w.2 in ((w.1, c), r).

Definition mock_peer : bool :=
  String.eqb (getenv "DVFS_AUTH_MOCK") "true" || String.eqb (getenv "DVFS_AUTH_MOCK") "1".

(** [verifyClusterPeer]: the error, if any. *)
Definition verifyClusterPeer (p : option Peer) : option error :=
  let unless_mock msg := if mock_peer then None else Some (StatusErrorf Unauthenticated msg []) in
  match p with
  | None => unless_mock "cluster RPC requires mutual TLS peer certificate"
  | Some q =>
      match pAuthInfo q with
      | NoAuthInfo => unless_mock "cluster RPC requires mutual TLS peer certificate"
      | OtherAuthInfo => unless_mock "cluster RPC requires TLS transport"
      | TLSInfo [] => unless_mock "missing peer client certificate for cluster RPC"
      | TLSInfo (cert :: _) =>
          if cert_authorized cert then None
          else Some (StatusErrorf PermissionDenied "unauthorized cluster node certificate: %s" [CommonName cert])
      end
  end.

Definition expected_hash : string := Session.TrimSpace (ToLower (getenv "ADMIN_PASSWORD_HASH")).
Definition admin_credentials inc : bool :=
  miMD inc && negb (String.eqb expected_hash "")
  && (match miHashes inc with h :: _ => String.eqb (ToLower h) expected_hash | [] => false end
      || match miPasswords inc with p :: _ => String.eqb (sha256str p) expected_hash | [] => false end).
(** Without an administrator password the machine itself may deregister. *)
Definition local_fallback inc : bool :=
  String.eqb expected_hash ""
  && match miPeer inc with
     | Some (mkPeer (Some addr) _) =>
         match Session.SplitHostPort addr with
         | Some (host, _) => Handler.is_loopback_ip host
         | None => false
         end
     | _ => false
     end.

Definition meta_interceptor {A} inc (now later : Z) (handler : M S (error + A)) : M W (error + A) :=
  if bool_decide (miMethod inc ∈ cluster_methods) then
    match verifyClusterPeer (miPeer inc) with
    | Some e => mret (inl e)
    | None => on_meta handler
    end
  else if String.eqb (miMethod inc) (meta_method "DeregisterFileServer") then
    if admin_credentials inc then on_meta handler
    else match verifyClusterPeer (miPeer inc) with
         | None => on_meta handler
         | Some _ =>
             if local_fallback inc then on_meta handler
             else mret (inl (StatusErrorf PermissionDenied
                   "unauthorized deregister request: requires valid cluster certificate or admin credentials" []))
         end
  else if negb (miMD inc) then
    mret (inl (StatusErrorf Unauthenticated "missing authorization metadata in request" []))
  else match meta_bearer inc with
       | None => mret (inl (StatusErrorf Unauthenticated "missing or malformed Bearer authorization header" []))
       | Some rawToken =>
           c ← on_cache (catch (VerifyToken getenv http_get rawToken (miUsername inc)
                                  (Interceptor.config_client getenv) now later));
           match c with
           | inl _ => mret (inl (StatusErrorf Unauthenticated "google authentication failed: %v" []))
           | inr _ => on_meta handler
           end
       end.
End interceptor.

(** ** What a caller must show *)

Section guarded.
Context {S : Type} `{Json (gmap string jval)}.
Context (getenv : string → string) (http_get : string → reply) (sha256str : string → string).

(** An accepted token is the one of the expected user, mock tokens included. *)
Lemma VerifyToken_addressed raw user client now later cache :
  match VerifyToken getenv http_get raw user client now later cache with
  | (_, Ok claims) => mismatch (cEmail claims) (Session.TrimSpace (ToLower user)) = false
  | (_, Err _) => True
  | (_, Panic _) => False
  end.
Proof.
  unfold VerifyToken. cbv zeta. set (u := Session.TrimSpace (ToLower user)). case_decide; [done|].
  unfold gets, mbind at 1, M_bind at 1. destruct (c0 ← cache !! _; _) as [c|].
  { by destruct (mismatch _ u) eqn:Hm. }
  destruct (HasPrefix _ _ || _).
  - unfold verify_mock. destruct (negb (mock_enabled getenv)); [done|]. destruct (parseMockToken _ _) as [e|claims]; [done|].
    by destruct (mismatch (cEmail claims) u) eqn:Hm.
  - destruct (query_google _ _ _ _ _ _) as [e|claims] eqn:Hq; [done|]. by apply query_addressed in Hq.
Qed.

(** The peer showed the certificate of a node, or the environment does without. *)
Definition node_peer (p : option Peer) : Prop :=
  (mock_peer getenv = true ∧ ∀ a c l, p ≠ Some (mkPeer a (TLSInfo (c :: l))))
  ∨ ∃ a cert l name, p = Some (mkPeer a (TLSInfo (cert :: l)))
      ∧ name ∈ CommonName cert :: DNSNames cert ∧ isAuthorizedClusterIdentity name = true.

Lemma verifyClusterPeer_sound p : verifyClusterPeer getenv p = None → node_peer p.
Proof.
  unfold verifyClusterPeer, node_peer. cbv zeta. destruct p as [[a [|[|cert l]|]]|]; simpl;
    try (destruct (mock_peer getenv); [left; split; [done|congruence]|done]).
  unfold cert_authorized. destruct (isAuthorizedClusterIdentity (CommonName cert)) eqn:Hcn; simpl.
  { intros _. right. exists a, cert, l, (CommonName cert). split_and!; [done|by left|done]. }
  destruct (existsb _ (DNSNames cert)) eqn:Hdns; [|done]. intros _.
  apply existsb_exists in Hdns as (name & Hin & Hname). right. exists a, cert, l, name.
  split_and!; [done|right; by apply list_elem_of_In|done].
Qed.

(** What each method asks of its caller. *)
Definition entitled (inc : MetaIncoming) now later (cache : TokenCache) : Prop :=
  if decide (miMethod inc ∈ cluster_methods) then node_peer (miPeer inc)
  else if decide (miMethod inc = meta_method "DeregisterFileServer") then
    admin_credentials getenv sha256str inc = true ∨ node_peer (miPeer inc) ∨ local_fallback getenv inc = true
  else ∃ token claims, meta_bearer inc = Some token
    ∧ (VerifyToken getenv http_get token (miUsername inc) (Interceptor.config_client getenv) now later cache).2 = Ok claims
    ∧ mismatch (cEmail claims) (Session.TrimSpace (ToLower (miUsername inc))) = false.

End guarded.

(** C20. No handler of the metaserver runs for a caller who is not entitled to it: a call
    of the cluster comes from a peer whose certificate names a node, by its common name or
    one of its DNS names, of the names the code accepts, or, in the mock
    environment, from anybody without a certificate; a deregistration from an administrator,
    such a peer or, where no password is set, any process of the machine itself; and any
    other call from the holder of
    an accepted token of the user it names, if it names one.  Everybody else gets an error,
    and the routing tables and the store are not touched. *)
Theorem meta_calls_guarded {S A : Type} `{Json (gmap string jval)} (getenv : string → string)
    (http_get : string → reply) (sha256str : string → string) inc now later
    (handler : M S (error + A)) (w : S * TokenCache) :
  let '(w', r) := meta_interceptor getenv http_get sha256str inc now later handler w in
  (∃ e, r = Ok (inl e) ∧ w'.1 = w.1)
  ∨ (entitled getenv http_get sha256str inc now later w.2 ∧ handler w.1 = (w'.1, r)).
Proof.
  destruct w as [s cache].
  assert (∀ c, ∃ w' r, on_meta handler (s, c) = (w', r) ∧ handler s = (w'.1, r)) as Hrun.
  { intros c. unfold on_meta. cbn [fst snd]. destruct (handler s) as [s' r]. by exists (s', c), r. }
  unfold meta_interceptor, entitled. case_bool_decide as Hm.
  { rewrite decide_True by done. destruct (verifyClusterPeer getenv (miPeer inc)) as [e|] eqn:Hp; [left; by exists e|].
    destruct (Hrun cache) as (w' & r & -> & Hh). right. split; [by apply verifyClusterPeer_sound|done]. }
  rewrite decide_False by done. destruct (String.eqb_spec (miMethod inc) (meta_method "DeregisterFileServer")) as [Hd|Hd].
  { rewrite decide_True by done. destruct (Hrun cache) as (w' & r & Hon & Hh).
    destruct (admin_credentials _ _ _) eqn:Ha; [rewrite Hon; right; by split; [left|]|].
    destruct (verifyClusterPeer getenv (miPeer inc)) as [e|] eqn:Hp.
    - destruct (local_fallback _ _) eqn:Hl; [rewrite Hon; right; split; [by right; right|done]|left; by eexists].
    - rewrite Hon. right. split; [right; left; by apply verifyClusterPeer_sound|done]. }
  rewrite decide_False by done. destruct (miMD inc); [|left; by eexists]. simpl.
  destruct (meta_bearer inc) as [token|]; [|left; by eexists].
  pose proof (VerifyToken_addressed getenv http_get token (miUsername inc) (Interceptor.config_client getenv) now later cache) as Hv.
  unfold on_cache, mbind at 1, M_bind at 1, catch. cbn [fst snd].
  destruct (VerifyToken _ _ _ _ _ _ _ _) as [c [claims|e|y]] eqn:Hver; [| |done].
  - destruct (Hrun c) as (w' & r & -> & Hh). right. split; [|done]. exists token, claims. simpl. by rewrite Hver.
  - left. by exists (StatusErrorf Unauthenticated "google authentication failed: %v" []).
Qed.
