(* ===== verification/Discovery.v ===== *)
(** * Finding the machines of the cluster

    Models [internal/client/discovery.go]: the list of machines published at an URL, the
    tables from host names to addresses and back, their age, and the copy of the list on
    the local disk that stands in when the network fails.  The answer of a request and
    the clock come with the call: [now] is read when it starts, [later] when a list is
    applied.  Times are nanoseconds, 0 is Go's zero time. *)
From S2P Require Import Prelude GoStd Disk Auth.
From S2P Require Session Handler.

Definition DefaultGistURL : string :=
  "https://gist.githubusercontent.com/dvfs-iitgn/6eb8da397735b83f76b54af4cca64c83/raw/machines.json".
Definition DefaultCacheTTL : Z := 5 * 60 * nanos.

Record GistNode := mkGistNode {
  gnUsername : string;
  gnMAC : string;
  gnIP : string;
  gnLastSeen : string;
}.
#[export] Instance GistNode_eq_dec : EqDecision GistNode.
Proof. solve_decision. Defined.
#[export] Program Instance GistNode_countable : Countable GistNode :=
  inj_countable' (λ n, (gnUsername n, gnMAC n, gnIP n, gnLastSeen n))
    (λ '(u, m, i, l), mkGistNode u m i l) _.
Next Obligation. by intros []. Qed.

Record DiscoveryResolver := mkResolver {
  gistURL : string;
  cacheFile : string;
  cacheTTL : Z;
  hostToIP : gmap string string;
  ipToHost : gmap string string;
  lastFetch : Z;
}.

(** The resolver with the disk its cache is on. *)
Record DiscoveryOn (D : Type) := mkDiscoveryOn { resolver : DiscoveryResolver; ddisk : D }.
Arguments mkDiscoveryOn {D} resolver ddisk.
Arguments resolver {D} d.
Arguments ddisk {D} d.

(** The names and addresses of a node, if it has both. *)
Definition named_node (n : GistNode) : option (string * string) :=
  let u := Session.TrimSpace (gnUsername n) in
  let ip := Session.TrimSpace (gnIP n) in
  if decide (u ≠ "" ∧ ip ≠ "") then Some (u, ip) else None.
Definition apply_node (t : gmap string string * gmap string string) (n : GistNode) :
    gmap string string * gmap string string :=
  match named_node n with
  | Some (u, ip) => (<[u := ip]> t.1, <[ip := u]> t.2)
  | None => t
  end.
(** The two tables a list of nodes gives. *)
Definition tables_of (nodes : list GistNode) : gmap string string * gmap string string :=
  foldl apply_node (∅, ∅) nodes.

Definition applyNodes (nodes : list GistNode) (later : Z) (r : DiscoveryResolver) : DiscoveryResolver :=
  let t := tables_of nodes in
  mkResolver (gistURL r) (cacheFile r) (cacheTTL r) t.1 t.2 later.

Definition SetNodes := applyNodes.

(** [net.ParseIP(s) != nil] *)
Definition is_ip (s : string) : bool :=
  if Contains s ":" then bool_decide (is_Some (Handler.parse_ipv6 s))
  else bool_decide (is_Some (Handler.parse_ipv4 s)).

Section discovery.
Context {D : Type} `{OS D, Json (list GistNode)}.
Abbreviation W := (DiscoveryOn D).

Definition the_res {A} (f : DiscoveryResolver → A) : M W A := gets (λ w, f (resolver w)).
Definition on_res (f : DiscoveryResolver → DiscoveryResolver) : M W unit :=
  modify (λ w, mkDiscoveryOn (f (resolver w)) (ddisk w)).
Definition on_ddisk {A} (c : OSCall D A) : M W A := λ w,
  match c (ddisk w) with
  | (d, inl e) => (mkDiscoveryOn (resolver w) d, Err e)
  | (d, inr a) => (mkDiscoveryOn (resolver w) d, Ok a)
  end.

Definition loadFromDiskCache (later : Z) : M W unit :=
  file ← the_res cacheFile;
  if decide (file = "") then throw (PathError "open" "" ENOENT)
  else
    content ← gets (λ w, os_ReadFile file (ddisk w));
    match content with
    | inl e => throw e
    | inr b =>
        match unmarshal (A := list GistNode) b with
        | None => throw (Errorf "invalid machine list" [])
        | Some nodes => on_res (applyNodes nodes later)
        end
    end.

Definition saveToDiskCache (nodes : list GistNode) : M W unit :=
  file ← the_res cacheFile;
  if decide (file = "") then mret tt
  else on_ddisk (os_MkdirAll (Dir file)) ;; on_ddisk (os_WriteFile file (marshal nodes)).

(** The list on the disk in the place of the network. *)
Definition fall_back (later : Z) (e : error) : M W (gmap string string) :=
  loaded ← catch (loadFromDiskCache later);
  hosts ← the_res hostToIP;
  match loaded with
  | inr _ => if decide (hosts = ∅) then throw e else mret hosts
  | inl _ => throw e
  end.

(** The URL is one [http.NewRequest] accepts; it refuses a malformed one before anything else. *)
Definition FetchNodes (http_get : string → reply) (later : Z) : M W (gmap string string) :=
  url ← the_res gistURL;
  match http_get url with
  | NetErr e => fall_back later (Wrapf "gist fetch failed: %w" [] e)
  | Reply status body =>
      if negb (status =? 200) then
        fall_back later (Errorf "gist returned non-200 HTTP status: %d" [pretty status])
      else
        match body with
        | inl e => throw (Wrapf "failed to decode gist JSON: %w" [] e)
        | inr b =>
            match unmarshal (A := list GistNode) b with
            | None => throw (Errorf "failed to decode gist JSON" [])
            | Some nodes =>
                on_res (applyNodes nodes later) ;;
                ignore (saveToDiskCache nodes) ;;
                the_res hostToIP
            end
        end
  end.

(** [d.lastFetch.IsZero() || time.Since(d.lastFetch) > d.cacheTTL] *)
Definition stale (now : Z) (r : DiscoveryResolver) : bool :=
  (lastFetch r =? 0) || (cacheTTL r <? now - lastFetch r).

Definition Lookup (http_get : string → reply) (now later : Z) (nodeName : string) : M W string :=
  old ← the_res (stale now);
  entry ← the_res (λ r, hostToIP r !! nodeName);
  match entry, old with
  | Some ip, false => mret ip
  | _, _ =>
      fresh ← catch (FetchNodes http_get later);
      match fresh with
      | inl e =>
          match entry with
          | Some ip => mret ip
          | None => throw (Wrapf "lookup failed for node %s: %w" [nodeName] e)
          end
      | inr table =>
          match table !! nodeName with
          | Some ip => mret ip
          | None => throw (Errorf "node %s not found in discovery list" [nodeName])
          end
      end
  end.

(** A host name that maps to something. *)
Definition mapped (o : option string) : option string :=
  match o with Some h => if decide (h = "") then None else Some h | None => None end.

Definition ResolveServerName (http_get : string → reply) (now later : Z) (address : string) : M W string :=
  let host := match Session.SplitHostPort address with Some (h, _) => h | None => address end in
  let host := Session.TrimSpace host in
  if negb (is_ip host) then mret host
  else if Handler.is_loopback_ip host then mret "localhost"
  else
    entry ← the_res (λ r, mapped (ipToHost r !! host));
    old ← the_res (stale now);
    match entry, old with
    | Some h, false => mret h
    | _, _ =>
        fresh ← catch (FetchNodes http_get later);
        match fresh with
        | inr _ => again ← the_res (λ r, mapped (ipToHost r !! host)); mret (default host again)
        | inl _ => mret (default host entry)
        end
    end.

Definition ResolveMetaAddress (http_get : string → reply) (now later : Z) (defaultPort : string) : M W string :=
  ip ← Lookup http_get now later "dvfs1";
  mret (ip +:+ ":" +:+ (if decide (defaultPort = "") then "50051" else defaultPort)).

(** A resolver with the options [WithGistURL], [WithCacheTTL] and a path for the cache;
    the cache on the disk is read at once. *)
Definition NewDiscoveryResolver (url file : string) (ttl later : Z) (d : D) : W * res unit :=
  let r := mkResolver (if decide (url = "") then DefaultGistURL else url) file
             (if 0 <? ttl then ttl else DefaultCacheTTL) ∅ ∅ 0 in
  ignore (loadFromDiskCache later) (mkDiscoveryOn r d).
End discovery.

(** ** The tables of a list *)

Lemma tables_app l n : tables_of (l ++ [n]) = apply_node (tables_of l) n.
Proof. unfold tables_of. by rewrite foldl_app. Qed.

(** Every entry of either table is a node of the list. *)
Lemma tables_sound nodes a b :
  ((tables_of nodes).1 !! a = Some b → ∃ n, n ∈ nodes ∧ named_node n = Some (a, b))
  ∧ ((tables_of nodes).2 !! b = Some a → ∃ n, n ∈ nodes ∧ named_node n = Some (a, b)).
Proof.
  induction nodes as [|n l [IH1 IH2]] using rev_ind; [split; intros H; exfalso; exact (lookup_empty_Some _ _ H)|].
  assert (∀ x, (∃ n0, n0 ∈ l ∧ named_node n0 = x) → ∃ n0, n0 ∈ l ++ [n] ∧ named_node n0 = x) as Hup.
  { intros x (n0 & Hin & Hn0). exists n0. split; [apply elem_of_app; by left|done]. }
  assert (n ∈ l ++ [n]) as Hlast by (apply elem_of_app; right; by left).
  rewrite tables_app. unfold apply_node. destruct (named_node n) as [[u ip]|] eqn:Hn; simpl; [|by auto].
  split; (intros [[<- <-]|[_ Hl]]%lookup_insert_Some; [by exists n|auto]).
Qed.

(** A later node takes the place of an earlier one. *)
Lemma tables_complete nodes n u ip :
  n ∈ nodes → named_node n = Some (u, ip) →
  is_Some ((tables_of nodes).1 !! u) ∧ is_Some ((tables_of nodes).2 !! ip).
Proof.
  intros Hin Hn. induction nodes as [|m l IH] using rev_ind; [by apply elem_of_nil in Hin|].
  rewrite tables_app. unfold apply_node. apply elem_of_app in Hin as [Hin|Hin].
  - destruct (IH Hin) as [H1 H2]. destruct (named_node m) as [[u0 ip0]|]; simpl; [|done].
    by rewrite !lookup_insert_is_Some'; auto.
  - apply list_elem_of_singleton in Hin as ->. rewrite Hn. simpl. rewrite !lookup_insert_eq. by split; eexists.
Qed.

Section spec.
Context {D : Type} `{OS D, Json (list GistNode)}.
Implicit Types (w : DiscoveryOn D).

(** The list a fetch applies: the published one, or the one on the disk when the network
    gives none; an answer that cannot be decoded gives neither. *)
Definition published (http_get : string → reply) (url : string) : option (list GistNode) :=
  match http_get url with
  | Reply status (inr b) => if status =? 200 then unmarshal b else None
  | _ => None
  end.
Definition network_down (http_get : string → reply) (url : string) : bool :=
  match http_get url with NetErr _ => true | Reply status _ => negb (status =? 200) end.
Definition on_disk (file : string) (d : D) : option (list GistNode) :=
  if decide (file = "") then None
  else match os_ReadFile file d with inr b => unmarshal b | inl _ => None end.
Definition source (http_get : string → reply) w : option (list GistNode) :=
  if network_down http_get (gistURL (resolver w)) then on_disk (cacheFile (resolver w)) (ddisk w)
  else published http_get (gistURL (resolver w)).

Lemma loadFromDiskCache_run later w :
  match on_disk (cacheFile (resolver w)) (ddisk w) with
  | Some nodes =>
      loadFromDiskCache later w = (mkDiscoveryOn (applyNodes nodes later (resolver w)) (ddisk w), Ok tt)
  | None => ∃ e, loadFromDiskCache later w = (w, Err e)
  end.
Proof.
  unfold on_disk, loadFromDiskCache. erewrite bind_ok by reflexivity. simpl.
  case_decide; [by eexists|]. erewrite bind_ok by reflexivity.
  destruct (os_ReadFile _ _) as [e|b]; [by eexists|]. destruct (unmarshal b); [done|by eexists].
Qed.

Lemma saveToDiskCache_run nodes w :
  ∃ d r, saveToDiskCache nodes w = (mkDiscoveryOn (resolver w) d, r) ∧ ∀ y, r ≠ Panic y.
Proof.
  unfold saveToDiskCache, the_res, gets, mbind, M_bind. case_decide; [by exists (ddisk w); destruct w; eexists|].
  unfold on_ddisk. destruct (os_MkdirAll _ _) as [d [e|[]]]; [by eexists _, _|]. simpl.
  destruct (os_WriteFile _ _ _) as [d2 [e|[]]]; by eexists _, _.
Qed.

Lemma fall_back_run later e w :
  ∃ w' r, fall_back later e w = (w', r)
    ∧ match on_disk (cacheFile (resolver w)) (ddisk w) with
      | Some nodes =>
          resolver w' = applyNodes nodes later (resolver w)
          ∧ (if bool_decide ((tables_of nodes).1 = ∅) then ∃ e, r = Err e else r = Ok (tables_of nodes).1)
      | None => w' = w ∧ ∃ e, r = Err e
      end.
Proof.
  unfold fall_back. pose proof (loadFromDiskCache_run later w) as Hrun. destruct (on_disk _ _) as [nodes|].
  - erewrite bind_ok by (unfold catch; by rewrite Hrun). erewrite bind_ok by reflexivity. simpl.
    case_decide; eexists _, _; (split; [done|]);
      [rewrite bool_decide_eq_true_2 by done; split; [done|by eexists]|by rewrite bool_decide_eq_false_2].
  - destruct Hrun as [e1 He1]. erewrite bind_ok by (unfold catch; by rewrite He1). erewrite bind_ok by reflexivity.
    eexists w, _. split; [done|]. split; [done|by eexists].
Qed.

(** What a fetch leaves and returns. *)
Lemma FetchNodes_run http_get later w :
  ∃ w' r, FetchNodes http_get later w = (w', r)
    ∧ match source http_get w with
      | Some nodes =>
          resolver w' = applyNodes nodes later (resolver w)
          ∧ (if network_down http_get (gistURL (resolver w)) && bool_decide ((tables_of nodes).1 = ∅)
             then ∃ e, r = Err e else r = Ok (tables_of nodes).1)
      | None => w' = w ∧ ∃ e, r = Err e
      end.
Proof.
  unfold FetchNodes, source, published, network_down. erewrite bind_ok by reflexivity.
  destruct (http_get (gistURL (resolver w))) as [e|status body]; simpl.
  { apply fall_back_run. }
  destruct (Z.eqb_spec status 200) as [->|]; simpl; [|apply fall_back_run].
  destruct body as [e|b]; [eexists w, _; split; [done|]; split; [done|by eexists]|].
  destruct (unmarshal b) as [nodes|]; [|eexists w, _; split; [done|]; split; [done|by eexists]].
  erewrite bind_ok by reflexivity.
  destruct (saveToDiskCache_run nodes (mkDiscoveryOn (applyNodes nodes later (resolver w)) (ddisk w)))
    as (d & r & Hsave & Hr).
  erewrite bind_ok by (unfold ignore; rewrite Hsave; destruct r as [| |y]; [done|done|by destruct (Hr y)]).
  by eexists _, _.
Qed.
(** The rest of a lookup, for an entry that is missing or stale. *)
Lemma lookup_slow http_get later name known w :
  let '(w', r) := (
    fresh ← catch (FetchNodes http_get later);
    match fresh with
    | inl e =>
        match known with
        | Some ip => mret ip
        | None => throw (Wrapf "lookup failed for node %s: %w" [name] e)
        end
    | inr table =>
        match table !! name with
        | Some ip => mret ip
        | None => throw (Errorf "node %s not found in discovery list" [name])
        end
    end) w in
  match source http_get w with
  | Some nodes =>
      resolver w' = applyNodes nodes later (resolver w)
      ∧ let backup := if network_down http_get (gistURL (resolver w)) && bool_decide ((tables_of nodes).1 = ∅)
                      then known else (tables_of nodes).1 !! name in
        match backup with Some ip => r = Ok ip | None => ∃ e, r = Err e end
  | None => w' = w ∧ match known with Some ip => r = Ok ip | None => ∃ e, r = Err e end
  end.
Proof.
  destruct (FetchNodes_run http_get later w) as (w1 & r1 & Hfetch & Hspec). cbv zeta.
  destruct (source http_get w) as [nodes|].
  - destruct Hspec as [Hres Hr]. destruct (network_down _ _ && _).
    + destruct Hr as [e ->]. erewrite bind_ok by (unfold catch; by rewrite Hfetch).
      destruct known; (split; [done|]); [done|by eexists].
    + subst r1. erewrite bind_ok by (unfold catch; by rewrite Hfetch). simpl.
      destruct ((tables_of nodes).1 !! name); (split; [done|]); [done|by eexists].
  - destruct Hspec as [-> [e ->]]. erewrite bind_ok by (unfold catch; by rewrite Hfetch).
    destruct known; (split; [done|]); [done|by eexists].
Qed.
End spec.

(** A lookup answers with an address of the last list the resolver saw.  A fresh entry
    is returned as it is and nothing else happens; otherwise the list published now is
    applied, or the one on the disk when the network gives none, and the answer is the
    address it gives the name; and when there is no list, or the one on the disk is
    empty, the old entry stands in if there is one.  No lookup panics. *)
Theorem Lookup_correct {D : Type} `{OS D, Json (list GistNode)} http_get now later name (w : DiscoveryOn D) :
  let '(w', r) := Lookup http_get now later name w in
  let known := hostToIP (resolver w) !! name in
  if negb (stale now (resolver w)) && bool_decide (is_Some known)
  then w' = w ∧ ∃ ip, known = Some ip ∧ r = Ok ip
  else match source http_get w with
       | Some nodes =>
           resolver w' = applyNodes nodes later (resolver w)
           ∧ let backup := if network_down http_get (gistURL (resolver w)) && bool_decide ((tables_of nodes).1 = ∅)
                           then known else (tables_of nodes).1 !! name in
             match backup with Some ip => r = Ok ip | None => ∃ e, r = Err e end
       | None => w' = w ∧ match known with Some ip => r = Ok ip | None => ∃ e, r = Err e end
       end.
Proof.
  cbv zeta. unfold Lookup. erewrite bind_ok by reflexivity. erewrite bind_ok by reflexivity.
  destruct (hostToIP (resolver w) !! name) as [ip|] eqn:Hknown, (stale now (resolver w)); simpl;
    try exact (lookup_slow http_get later name (Some ip) w); try exact (lookup_slow http_get later name None w).
  unfold mret, M_ret. split; [done|by exists ip].
Qed.

(** A list read from the disk counts as fresh however old it is: a resolver started
    while the list moved a machine answers with the old address for a whole TTL without
    asking the network.  The age of the list is not on the disk. *)
Theorem disk_list_counts_as_fresh {D : Type} `{OS D, Json (list GistNode)} url file ttl later http_get now later2
    name ip nodes (d : D) :
  0 < later → 0 < ttl → now - later ≤ ttl → on_disk file d = Some nodes → (tables_of nodes).1 !! name = Some ip →
  ∃ w, NewDiscoveryResolver url file ttl later d = (w, Ok tt)
    ∧ Lookup http_get now later2 name w = (w, Ok ip).
Proof.
  intros Hl Ht Hnow Hdisk Hip. unfold NewDiscoveryResolver. cbv zeta.
  set (w0 := mkDiscoveryOn (mkResolver _ file _ ∅ ∅ 0) d).
  pose proof (loadFromDiskCache_run later w0) as Hrun. simpl in Hrun. rewrite Hdisk in Hrun.
  eexists. split; [unfold ignore; rewrite Hrun; reflexivity|].
  unfold Lookup. erewrite bind_ok by reflexivity. erewrite bind_ok by reflexivity. simpl. rewrite Hip.
  unfold stale. simpl. destruct (Z.ltb_spec 0 ttl); [|lia]. destruct (Z.eqb_spec later 0); [lia|].
  destruct (Z.ltb_spec ttl (now - later)); [lia|]. done.
Qed.

(** What was fetched is found again by a resolver that starts without a network. *)
Theorem discovery_survives_restart {D : Type} `{OS D, DiskLaws D, Json (list GistNode), JsonLaws (list GistNode)}
    nodes url ttl later (w w1 : DiscoveryOn D) :
  cacheFile (resolver w) ≠ "" → saveToDiskCache nodes w = (w1, Ok tt) →
  ∃ w2, NewDiscoveryResolver url (cacheFile (resolver w)) ttl later (ddisk w1) = (w2, Ok tt)
    ∧ (hostToIP (resolver w2), ipToHost (resolver w2)) = tables_of nodes.
Proof.
  intros Hfile Hsave. unfold saveToDiskCache in Hsave. erewrite bind_ok in Hsave by reflexivity.
  rewrite decide_False in Hsave by done. apply bind_inv_ok in Hsave as (wd & [] & _ & Hwrite).
  unfold on_ddisk in Hwrite. destruct (os_WriteFile _ _ _) as [d [e|[]]] eqn:Hw; [done|].
  injection Hwrite as <-. simpl. apply read_WriteFile in Hw.
  unfold NewDiscoveryResolver. cbv zeta. set (w0 := mkDiscoveryOn (mkResolver _ _ _ ∅ ∅ 0) d).
  pose proof (loadFromDiskCache_run later w0) as Hrun. unfold on_disk in Hrun. simpl in Hrun.
  rewrite decide_False in Hrun by done. rewrite Hw, unmarshal_marshal in Hrun.
  eexists. split; [unfold ignore; rewrite Hrun; reflexivity|]. simpl. by destruct (tables_of nodes).
Qed.
