(* ===== verification/Ring.v ===== *)
(** * The ring buffers of the admin console

    Models [internal/admin/ringbuffer.go] and the buffer of
    [internal/admin/history.go], and shows that both are bounded queues: what they
    hold is the end of the sequence of values pushed.  Indexing, division and [make]
    panic as in Go. *)
From S2P Require Import Prelude Disk GoStd.

(** ** Slices *)

Section slice.
Context {S A : Type}.
Implicit Types (l : list A) (i n : Z).

(** [l[i]] *)
Definition index l i : M S A :=
  if i <? 0 then panic "index out of range"
  else match l !! Z.to_nat i with Some x => mret x | None => panic "index out of range" end.
(** [l[i] = x] *)
Definition store l i (x : A) : M S (list A) :=
  if (0 <=? i) && (i <? Z.of_nat (length l)) then mret (<[Z.to_nat i := x]> l)
  else panic "index out of range".
(** [a % b] *)
Definition go_rem (a b : Z) : M S Z :=
  if b =? 0 then panic "integer divide by zero" else mret (Z.rem a b).
(** [for i := 0; i < n; i++ { out[i] = f(i) }] *)
Fixpoint collect (f : Z → M S A) (k : nat) (i : Z) : M S (list A) :=
  match k with
  | O => mret []
  | Datatypes.S k => x ← f i; rest ← collect f k (i + 1); mret (x :: rest)
  end.

Lemma index_run l i x (s : S) : 0 ≤ i → l !! Z.to_nat i = Some x → index l i s = (s, Ok x).
Proof. intros Hi Hx. unfold index. by rewrite (proj2 (Z.ltb_ge i 0)), Hx. Qed.
Lemma store_run l i x (s : S) :
  0 ≤ i < Z.of_nat (length l) → store l i x s = (s, Ok (<[Z.to_nat i := x]> l)).
Proof.
  intros Hi. unfold store. by rewrite (proj2 (Z.leb_le 0 i)), (proj2 (Z.ltb_lt i _)) by lia.
Qed.
(** Below twice the modulus the remainder is one subtraction. *)
Lemma go_rem_run a b (s : S) :
  0 ≤ a < 2 * b → go_rem a b s = (s, Ok (if a <? b then a else a - b)).
Proof.
  intros Ha. unfold go_rem. rewrite (proj2 (Z.eqb_neq b 0)) by lia.
  rewrite Z.rem_mod_nonneg by lia. destruct (Z.ltb_spec a b); [by rewrite Z.mod_small by lia|].
  rewrite (Zmod_unique a b 1 (a - b)); [done|lia|lia].
Qed.
Lemma collect_run (f : Z → M S A) k i q (s : S) :
  length q = k → (∀ j x, q !! j = Some x → f (i + Z.of_nat j) s = (s, Ok x)) →
  collect f k i s = (s, Ok q).
Proof.
  revert i q. induction k as [|k IH]; intros i q Hk Hf; destruct q as [|x q]; try done.
  simpl. unfold mbind, M_bind. pose proof (Hf O x eq_refl) as H0. rewrite Z.add_0_r in H0.
  rewrite H0, (IH (i + 1) q); [done|by injection Hk|]. intros j y Hy.
  rewrite <-(Hf (Datatypes.S j) y Hy). f_equal. lia.
Qed.
End slice.

(** ** What a ring holds *)

(** The slot of the [i]-th oldest of [n] entries, the next one going to [head]. *)
Definition slot (cap head n i : Z) : Z :=
  if n =? cap then (if head + i <? cap then head + i else head + i - cap) else i.

(** [data] holds the queue [q], oldest first. *)
Record holds {A} (cap head n : Z) (data q : list A) : Prop := {
  h_cap : 0 < cap ∧ Z.of_nat (length data) = cap;
  h_head : 0 ≤ head < cap;
  h_count : n = Z.of_nat (length q) ∧ n ≤ cap;
  h_start : n < cap → head = n;
  h_data i x : q !! i = Some x → data !! Z.to_nat (slot cap head n (Z.of_nat i)) = Some x;
}.

(** A queue of at most [cap] entries that drops the oldest. *)
Definition enqueue {A} (cap : Z) (q : list A) (x : A) : list A :=
  if Z.of_nat (length q) <? cap then q ++ [x] else tail q ++ [x].

(** The head and the count after a push. *)
Definition next_head (cap head : Z) : Z := if head + 1 <? cap then head + 1 else head + 1 - cap.
Definition next_count (cap n : Z) : Z := if n <? cap then n + 1 else n.

Lemma list_lookup_insert_eq' {A} (data : list A) (i j : Z) (x : A) :
  j = i → 0 ≤ i < Z.of_nat (length data) → <[Z.to_nat i := x]> data !! Z.to_nat j = Some x.
Proof. intros -> Hi. apply list_lookup_insert_eq. lia. Qed.

Section ring.
Context {A : Type} (cap head n : Z) (data q : list A) (Hh : holds cap head n data q).

Lemma slot_bound i : 0 ≤ i < n → 0 ≤ slot cap head n i < cap.
Proof.
  intros Hi. destruct (h_head _ _ _ _ _ Hh), (h_count _ _ _ _ _ Hh). unfold slot.
  destruct (Z.eqb_spec n cap), (Z.ltb_spec (head + i) cap); lia.
Qed.

Lemma holds_empty_data (d : A) c : 0 < c → holds c 0 0 (replicate (Z.to_nat c) d) [].
Proof. intros Hc. split; simpl; try lia; try done. rewrite length_replicate. lia. Qed.

Lemma enqueue_length x : Z.of_nat (length (enqueue cap q x)) = next_count cap n.
Proof.
  destruct (h_count _ _ _ _ _ Hh) as [-> Hn], (h_cap _ _ _ _ _ Hh). unfold enqueue, next_count.
  destruct (Z.ltb_spec (Z.of_nat (length q)) cap); rewrite length_app; simpl; [lia|].
  destruct q; simpl in *; lia.
Qed.

Lemma holds_push x :
  holds cap (next_head cap head) (next_count cap n) (<[Z.to_nat head := x]> data) (enqueue cap q x).
Proof.
  pose proof (enqueue_length x) as Hlen. destruct Hh as [[Hc Hd] Hhd [Hq Hn] Hst Hdat]. split.
  - by rewrite length_insert.
  - unfold next_head. destruct (Z.ltb_spec (head + 1) cap); lia.
  - split; [done|]. unfold next_count. destruct (Z.ltb_spec n cap); lia.
  - unfold next_head, next_count. destruct (Z.ltb_spec n cap), (Z.ltb_spec (head + 1) cap); lia.
  - intros i y Hy. apply lookup_lt_Some in Hy as Hi. revert Hy. unfold enqueue. rewrite <-Hq.
    unfold next_head, next_count, slot in *. destruct (Z.ltb_spec n cap) as [Hlt|Hge].
    + rewrite (Hst Hlt) in *. intros [Hy|[Hle Hy]]%lookup_app_Some.
      * apply lookup_lt_Some in Hy as Hi'. rewrite list_lookup_insert_ne.
        2:{ destruct (Z.eqb_spec (n + 1) cap), (Z.ltb_spec (n + 1) cap);
            repeat case_match; lia. }
        rewrite <-(Hdat i y Hy). f_equal. f_equal.
        destruct (Z.eqb_spec (n + 1) cap), (Z.eqb_spec n cap), (Z.ltb_spec (n + 1) cap);
          repeat case_match; lia.
      * destruct (i - length q)%nat as [|k] eqn:Hk; [|done]. injection Hy as <-.
        rewrite (list_lookup_insert_eq' data n _ x); [done|..].
        -- destruct (Z.eqb_spec (n + 1) cap), (Z.ltb_spec (n + 1) cap); repeat case_match; lia.
        -- lia.
    + assert (n = cap) as -> by lia. rewrite Z.eqb_refl. intros Hy.
      destruct q as [|z q']; [simpl in *; lia|]. cbn [tail] in Hy. simpl length in *.
      apply lookup_app_Some in Hy as [Hy|[Hle Hy]].
      * apply lookup_lt_Some in Hy as Hi'. rewrite list_lookup_insert_ne.
        2:{ destruct (Z.ltb_spec (head + 1) cap); repeat case_match; lia. }
        rewrite <-(Hdat (Datatypes.S i) y Hy), Z.eqb_refl. f_equal. f_equal.
        destruct (Z.ltb_spec (head + 1) cap), (Z.ltb_spec (head + Z.of_nat (Datatypes.S i)) cap);
          repeat case_match; lia.
      * destruct (i - length q')%nat as [|k] eqn:Hk; [|done]. injection Hy as <-.
        rewrite (list_lookup_insert_eq' data head _ x); [done|..]; [|lia].
        destruct (Z.ltb_spec (head + 1) cap); repeat case_match; lia.
Qed.
End ring.

(** A ring that took [xs] holds the last [cap] of them. *)
Lemma enqueue_all {A} cap (xs q : list A) :
  0 < cap → Z.of_nat (length q) ≤ cap →
  foldl (enqueue cap) q xs = drop (length (q ++ xs) - Z.to_nat cap) (q ++ xs).
Proof.
  intros Hc. revert q. induction xs as [|x xs IH]; intros q Hq; simpl.
  { rewrite app_nil_r. by replace (length q - Z.to_nat cap)%nat with O by lia. }
  unfold enqueue at 2. destruct (Z.ltb_spec (Z.of_nat (length q)) cap).
  - rewrite IH; [by rewrite <-app_assoc|]. rewrite length_app. simpl. lia.
  - destruct q as [|y q]; [simpl in *; lia|]. simpl in *. rewrite IH; [|rewrite length_app; simpl; lia].
    rewrite <-app_assoc. simpl. rewrite !length_app. simpl.
    by replace (S (length q + S (length xs)) - Z.to_nat cap)%nat
      with (S (length q + S (length xs) - Z.to_nat cap)) by lia.
Qed.

(** ** [RingBuffer] *)

(** The snapshots are opaque here; a struct that is copied in and out. *)
Record RingBuffer (A : Type) := mkRingBuffer {
  rbData : list A;
  rbSize : Z;
  rbHead : Z;
  rbCount : Z;
}.
Arguments mkRingBuffer {A} rbData rbSize rbHead rbCount.
Arguments rbData {A} r.
Arguments rbSize {A} r.
Arguments rbHead {A} r.
Arguments rbCount {A} r.

Section ringbuffer.
Context {A : Type} (zero : A).

Definition NewRingBuffer (size : Z) : res (RingBuffer A) :=
  if size <? 0 then Panic "makeslice: len out of range"
  else Ok (mkRingBuffer (replicate (Z.to_nat size) zero) size 0 0).

Definition Push (s : A) : M (RingBuffer A) unit :=
  rb ← get;
  data ← store (rbData rb) (rbHead rb) s;
  modify (λ rb, mkRingBuffer data (rbSize rb) (rbHead rb) (rbCount rb)) ;;
  head ← go_rem (rbHead rb + 1) (rbSize rb);
  modify (λ rb, mkRingBuffer (rbData rb) (rbSize rb) head (rbCount rb)) ;;
  if rbCount rb <? rbSize rb then
    modify (λ rb, mkRingBuffer (rbData rb) (rbSize rb) (rbHead rb) (rbCount rb + 1))
  else mret tt.

Definition GetLast : M (RingBuffer A) (option A) :=
  rb ← get;
  if rbCount rb =? 0 then mret None
  else
    lastIdx ← go_rem (rbHead rb - 1 + rbSize rb) (rbSize rb);
    x ← index (rbData rb) lastIdx;
    mret (Some x).

Definition GetAll : M (RingBuffer A) (list A) :=
  rb ← get;
  if rbCount rb =? 0 then mret []
  else
    let start := if rbCount rb =? rbSize rb then rbHead rb else 0 in
    collect (λ i, idx ← go_rem (start + i) (rbSize rb); index (rbData rb) idx)
      (Z.to_nat (rbCount rb)) 0.

(** The buffer stands for the queue [q]. *)
Definition rb_holds (size : Z) (q : list A) (rb : RingBuffer A) : Prop :=
  rbSize rb = size ∧ holds size (rbHead rb) (rbCount rb) (rbData rb) q.

Lemma Push_run size q rb x :
  rb_holds size q rb → ∃ rb', Push x rb = (rb', Ok tt) ∧ rb_holds size (enqueue size q x) rb'.
Proof.
  intros [Hs Hh]. pose proof (holds_push _ _ _ _ _ Hh x) as Hh'.
  destruct rb as [data sz head n]. simpl in *. subst sz.
  destruct (h_cap _ _ _ _ _ Hh), (h_head _ _ _ _ _ Hh). unfold Push, get, mbind, M_bind.
  rewrite store_run by (simpl; lia). simpl. rewrite go_rem_run by lia.
  exists (mkRingBuffer (<[Z.to_nat head:=x]> data) size (next_head size head) (next_count size n)).
  split; [|by split]. unfold modify, next_head, next_count. simpl. by destruct (n <? size).
Qed.

Lemma Push_all_run size q rb xs :
  rb_holds size q rb →
  ∃ rb', for_each xs Push rb = (rb', Ok tt) ∧ rb_holds size (foldl (enqueue size) q xs) rb'.
Proof.
  revert q rb. induction xs as [|x xs IH]; intros q rb Hh; simpl; [by exists rb|].
  destruct (Push_run size q rb x Hh) as (rb1 & Hrun & Hh1).
  destruct (IH _ rb1 Hh1) as (rb2 & Hrun2 & Hh2). exists rb2. split; [|done].
  unfold mbind, M_bind. by rewrite Hrun.
Qed.

Lemma GetAll_run size q rb : rb_holds size q rb → GetAll rb = (rb, Ok q).
Proof.
  intros [Hs Hh]. destruct rb as [data sz head n]. simpl in *. subst sz.
  destruct (h_cap _ _ _ _ _ Hh) as [Hc _], (h_head _ _ _ _ _ Hh), (h_count _ _ _ _ _ Hh) as [Hq Hn].
  unfold GetAll, get, mbind at 1, M_bind at 1. simpl. destruct (Z.eqb_spec n 0) as [Hz|Hz].
  { destruct q; [done|simpl in *; lia]. }
  apply collect_run; [lia|]. intros j x Hx. apply lookup_lt_Some in Hx as Hj. unfold mbind, M_bind.
  rewrite Z.add_0_l. pose proof (h_data _ _ _ _ _ Hh j x Hx) as Hd. unfold slot in Hd.
  destruct (Z.eqb_spec n size) as [He|He].
  - rewrite go_rem_run by lia. apply index_run; [|done].
    destruct (Z.ltb_spec (head + Z.of_nat j) size); lia.
  - rewrite Z.add_0_l, go_rem_run by lia. rewrite (proj2 (Z.ltb_lt _ _)) by lia.
    by apply index_run; [lia|].
Qed.

Lemma GetLast_run size q rb : rb_holds size q rb → GetLast rb = (rb, Ok (last q)).
Proof.
  intros [Hs Hh]. destruct rb as [data sz head n]. simpl in *. subst sz.
  destruct (h_cap _ _ _ _ _ Hh) as [Hc _], (h_head _ _ _ _ _ Hh), (h_count _ _ _ _ _ Hh) as [Hq Hn].
  unfold GetLast, get, mbind, M_bind. simpl. destruct (Z.eqb_spec n 0) as [Hz|Hz].
  { destruct q; [done|simpl in *; lia]. }
  rewrite go_rem_run by lia. rewrite last_lookup.
  destruct (q !! pred (length q)) as [x|] eqn:Hx; [|apply lookup_ge_None in Hx; lia].
  pose proof (h_data _ _ _ _ _ Hh _ x Hx) as Hd. pose proof (h_start _ _ _ _ _ Hh) as Hst.
  rewrite (index_run _ _ x); [done| |].
  - destruct (Z.ltb_spec (head - 1 + size) size); lia.
  - assert (Z.of_nat (pred (length q)) = n - 1) as Hp by (destruct q; simpl in *; lia).
    rewrite <-Hd, Hp. f_equal. f_equal. unfold slot.
    destruct (Z.ltb_spec (head - 1 + size) size), (Z.eqb_spec n size); repeat case_match; lia.
Qed.

(** A ring buffer of a positive size is a queue that keeps the end of what it is
    given: however many snapshots are pushed, no index leaves the slice, [GetAll]
    returns the last [size] of them in the order they came and [GetLast] the last one. *)
Theorem RingBuffer_keeps_last size (xs : list A) :
  0 < size →
  ∃ rb0 rb, NewRingBuffer size = Ok rb0 ∧ for_each xs Push rb0 = (rb, Ok tt)
    ∧ GetAll rb = (rb, Ok (drop (length xs - Z.to_nat size) xs))
    ∧ GetLast rb = (rb, Ok (last xs)).
Proof.
  intros Hs. unfold NewRingBuffer. rewrite (proj2 (Z.ltb_ge size 0)) by lia.
  set (rb0 := mkRingBuffer _ _ _ _). assert (rb_holds size [] rb0) as H0.
  { split; [done|]. by apply holds_empty_data. }
  destruct (Push_all_run size [] rb0 xs H0) as (rb & Hrun & Hh). exists rb0, rb.
  split_and!; [done|done| |].
  - rewrite (GetAll_run _ _ _ Hh). by rewrite enqueue_all by (simpl; lia).
  - rewrite (GetLast_run _ _ _ Hh), enqueue_all by (simpl; lia). simpl.
    destruct (decide (xs = [])) as [->|Hne]; [done|]. f_equal. f_equal.
    assert (0 < length xs)%nat by (destruct xs; [done|simpl; lia]).
    set (k := (length xs - Z.to_nat size)%nat).
    assert (last xs = last (take k xs ++ drop k xs)) as -> by (by rewrite take_drop).
    rewrite last_app. destruct (last (drop k xs)) eqn:Hl; [done|]. apply last_None in Hl.
    apply (f_equal length) in Hl. rewrite length_drop in Hl. simpl in Hl. lia.
Qed.
End ringbuffer.

Lemma RingBuffer_keeps_last_witness :
  0 < 3 ∧ ∃ rb0 rb, NewRingBuffer 0 3 = Ok rb0 ∧ for_each [1; 2; 3; 4; 5] Push rb0 = (rb, Ok tt)
    ∧ GetAll rb = (rb, Ok [3; 4; 5]) ∧ GetLast rb = (rb, Ok (Some 5)).
Proof. split; [lia|]. exact (RingBuffer_keeps_last 0 3 [1; 2; 3; 4; 5] ltac:(lia)). Defined.
