(* ===== verification/History.v ===== *)
(** * The command history of the admin console

    Models [internal/admin/history.go]: a ring of command records that is written to a
    JSON file after every change and read back at start.  The map of node results of a
    record is copied with it here; the history never looks inside. *)
From S2P Require Import Prelude GoStd Disk Ring.

Record NodeResult := mkNodeResult {
  nrNodeID : string;
  nrAddress : string;
  nrExitCode : Z;
  nrOutput : string;
  nrError : string;
  nrDurationMs : Z;
}.

Record CommandRecord := mkCommandRecord {
  crID : string;
  crTimestamp : Z;
  crActionType : string;
  crCommand : string;
  crTargetNodes : list string;
  crStatus : string;
  crDurationMs : Z;
  crNodeResults : gmap string NodeResult;
}.

#[export] Instance NodeResult_eq_dec : EqDecision NodeResult.
Proof. solve_decision. Defined.
#[export] Program Instance NodeResult_countable : Countable NodeResult :=
  inj_countable' (λ r, (nrNodeID r, nrAddress r, nrExitCode r, nrOutput r, nrError r, nrDurationMs r))
    (λ '(a, b, c, d, e, f), mkNodeResult a b c d e f) _.
Next Obligation. by intros []. Qed.
#[export] Instance CommandRecord_eq_dec : EqDecision CommandRecord.
Proof. solve_decision. Defined.
#[export] Program Instance CommandRecord_countable : Countable CommandRecord :=
  inj_countable' (λ r, (crID r, crTimestamp r, crActionType r, crCommand r, crTargetNodes r,
                        crStatus r, crDurationMs r, crNodeResults r))
    (λ '(a, b, c, d, e, f, g, h), mkCommandRecord a b c d e f g h) _.
Next Obligation. by intros []. Qed.

(** [make([]CommandRecord, n)] fills with this. *)
Definition zero_record : CommandRecord := mkCommandRecord "" 0 "" "" [] "" 0 ∅.

Record CommandHistory := mkCommandHistory {
  chData : list CommandRecord;
  chCapacity : Z;
  chHead : Z;
  chCount : Z;
  chFilePath : string;
}.

(** The history and the disk it is saved on. *)
Record HistoryOn (D : Type) := mkHistoryOn {
  hist : CommandHistory;
  hdisk : D;
}.
Arguments mkHistoryOn {D} hist hdisk.
Arguments hist {D} h.
Arguments hdisk {D} h.

Definition set_ring data head count (ch : CommandHistory) : CommandHistory :=
  mkCommandHistory data (chCapacity ch) head count (chFilePath ch).

Section history.
Context {D : Type} `{OS D, Json (list CommandRecord)}.
Abbreviation W := (HistoryOn D).
Implicit Types (w : W) (r : CommandRecord) (q : list CommandRecord).

Definition on_disk {A} (c : OSCall D A) : M W A := λ w,
  match c (hdisk w) with
  | (d, inl e) => (mkHistoryOn (hist w) d, Err e)
  | (d, inr a) => (mkHistoryOn (hist w) d, Ok a)
  end.
Definition wrapped {A} (fmt : string) (m : M W A) : M W A := λ w,
  match m w with
  | (w', Err e) => (w', Err (Wrapf fmt [] e))
  | x => x
  end.
Definition set_hist (f : CommandHistory → CommandHistory) : M W unit :=
  modify (λ w, mkHistoryOn (f (hist w)) (hdisk w)).
Definition ch : M W CommandHistory := gets hist.

(** The newest record first. *)
Definition newest_first : M W (list CommandRecord) :=
  c ← ch;
  collect (λ i, idx ← go_rem (chHead c - 1 - i + chCapacity c) (chCapacity c);
                index (chData c) idx)
    (Z.to_nat (chCount c)) 0.

Definition saveLocked : M W unit :=
  c ← ch;
  let dir := Dir (chFilePath c) in
  wrapped "failed to create directory for history file: %w" (on_disk (os_MkdirAll dir)) ;;
  records ← newest_first;
  tmpPath ← wrapped "failed to create temporary history file: %w"
              (on_disk (os_CreateTemp dir "command_history_*.tmp"));
  written ← catch (on_disk (os_WriteFile tmpPath (marshal records)));
  match written with
  | inl e =>
      ignore (on_disk (os_Remove tmpPath)) ;;
      throw (Wrapf "failed to write history to temp file: %w" [] e)
  | inr _ =>
      renamed ← catch (on_disk (os_Rename tmpPath (chFilePath c)));
      match renamed with
      | inl e =>
          ignore (on_disk (os_Remove tmpPath)) ;;
          throw (Wrapf "failed to replace history file: %w" [] e)
      | inr _ => mret tt
      end
  end.
(** [if ch.filePath != "" { _ = ch.saveLocked() }] *)
Definition flush : M W unit :=
  c ← ch; if decide (chFilePath c = "") then mret tt else ignore saveLocked.

(** The part of [Push] and of [load] that enters one record. *)
Definition enter r : M W unit :=
  c ← ch;
  data ← store (chData c) (chHead c) r;
  head ← go_rem (chHead c + 1) (chCapacity c);
  set_hist (set_ring data head
    (if chCount c <? chCapacity c then chCount c + 1 else chCount c)).
Definition Push r : M W unit := enter r ;; flush.

(** The search of [Update], oldest record first, from the [i]-th on. *)
Fixpoint update_from (k : nat) (i : Z) r : M W unit :=
  match k with
  | O => mret tt
  | S k =>
      c ← ch;
      idx ← (if chCount c <? chCapacity c then mret i
             else go_rem (chHead c + i) (chCapacity c));
      x ← index (chData c) idx;
      if decide (crID x = crID r) then
        data ← store (chData c) idx r;
        set_hist (set_ring data (chHead c) (chCount c)) ;;
        flush
      else update_from k (i + 1) r
  end.
Definition Update r : M W unit := c ← ch; update_from (Z.to_nat (chCount c)) 0 r.

Definition GetAll : M W (list CommandRecord) := newest_first.

Fixpoint find_from (k : nat) (i : Z) (id : string) : M W (option CommandRecord) :=
  match k with
  | O => mret None
  | S k =>
      c ← ch;
      x ← index (chData c) i;
      if decide (crID x = id) then mret (Some x) else find_from k (i + 1) id
  end.
Definition GetByID (id : string) : M W (option CommandRecord) :=
  c ← ch; find_from (Z.to_nat (chCount c)) 0 id.

Definition Count : M W Z := c ← ch; mret (chCount c).

Definition load : M W unit :=
  c ← ch;
  st ← gets (λ w, os_Stat (chFilePath c) (hdisk w));
  if match st with inl e => os_IsNotExist e | inr _ => false end then mret tt
  else
    content ← gets (λ w, os_ReadFile (chFilePath c) (hdisk w));
    match content with
    | inl e => throw (Wrapf "failed to read history file: %w" [] e)
    | inr b =>
        match unmarshal (A := list CommandRecord) b with
        | None => throw (Errorf "corrupted history file" [])
        | Some records =>
            let records := if chCapacity c <? Z.of_nat (length records)
                           then take (Z.to_nat (chCapacity c)) records else records in
            for_each (reverse records) enter
        end
    end.

(** The history of a new process. *)
Definition NewCommandHistory (capacity : Z) (filePath : string) (d : D) : W * res unit :=
  let capacity := if capacity <=? 0 then 100 else capacity in
  let c := mkCommandHistory (replicate (Z.to_nat capacity) zero_record) capacity 0 0 filePath in
  (if decide (filePath = "") then mret tt else ignore load) (mkHistoryOn c d).
End history.

(** ** The ring again: changing an entry, and where the entries lie *)

Lemma slot_inj cap head n i j :
  n ≤ cap → 0 ≤ head < cap → 0 ≤ i < n → 0 ≤ j < n → slot cap head n i = slot cap head n j → i = j.
Proof.
  unfold slot. intros. destruct (Z.eqb_spec n cap); [|done].
  destruct (Z.ltb_spec (head + i) cap), (Z.ltb_spec (head + j) cap); lia.
Qed.

Lemma slot_surj cap head n p :
  n ≤ cap → 0 ≤ head < cap → 0 ≤ p < n → ∃ i, 0 ≤ i < n ∧ slot cap head n i = p.
Proof.
  intros Hn Hh Hp. unfold slot. destruct (Z.eqb_spec n cap) as [->|]; [|by exists p].
  destruct (Z.leb_spec head p).
  - exists (p - head). rewrite (proj2 (Z.ltb_lt _ _)) by lia. lia.
  - exists (p - head + cap). rewrite (proj2 (Z.ltb_ge _ _)) by lia. lia.
Qed.

Lemma holds_update {A} cap head n (data q : list A) i x :
  holds cap head n data q → (i < length q)%nat →
  holds cap head n (<[Z.to_nat (slot cap head n (Z.of_nat i)) := x]> data) (<[i := x]> q).
Proof.
  intros Hh Hi. pose proof (slot_bound _ _ _ _ _ Hh) as Hb.
  destruct (h_count _ _ _ _ _ Hh) as [Hn Hc], (h_head _ _ _ _ _ Hh), (h_cap _ _ _ _ _ Hh).
  split; rewrite ?length_insert; try done; [by apply Hh|].
  intros j y Hy. destruct (decide (j = i)) as [->|Hne].
  - rewrite list_lookup_insert_eq in Hy by done. injection Hy as <-.
    apply list_lookup_insert_eq. pose proof (Hb (Z.of_nat i)). lia.
  - rewrite list_lookup_insert_ne in Hy by done. apply lookup_lt_Some in Hy as Hj.
    rewrite list_lookup_insert_ne; [by apply (h_data _ _ _ _ _ Hh)|]. intros Heq.
    pose proof (Hb (Z.of_nat i)). pose proof (Hb (Z.of_nat j)).
    assert (Z.of_nat i = Z.of_nat j); [|lia]. apply (slot_inj cap head n); lia.
Qed.

(** ** What the history does *)

Section spec.
Context {D : Type} `{OS D, !DiskLaws D, Json (list CommandRecord), !JsonLaws (list CommandRecord)}.
Implicit Types (w : HistoryOn D) (r : CommandRecord) (q : list CommandRecord) (c : CommandHistory).

(** The history stands for the queue [q] of at most [cap] records. *)
Definition ch_holds (cap : Z) q c : Prop :=
  chCapacity c = cap ∧ holds cap (chHead c) (chCount c) (chData c) q.

Lemma newest_first_run cap q w :
  ch_holds cap q (hist w) → newest_first w = (w, Ok (reverse q)).
Proof.
  intros [Hs Hh]. destruct w as [[data cp head n path] d]. simpl in *. subst cp.
  destruct (h_cap _ _ _ _ _ Hh) as [Hc _], (h_head _ _ _ _ _ Hh), (h_count _ _ _ _ _ Hh) as [Hq Hn].
  unfold newest_first, ch, gets, mbind at 1, M_bind at 1. simpl.
  apply collect_run; [rewrite length_reverse; lia|]. intros j x Hx.
  apply lookup_lt_Some in Hx as Hj. rewrite length_reverse in Hj.
  rewrite reverse_lookup in Hx by done. pose proof (h_data _ _ _ _ _ Hh _ x Hx) as Hd.
  pose proof (h_start _ _ _ _ _ Hh). unfold mbind, M_bind. rewrite Z.add_0_l, go_rem_run by lia.
  apply index_run; [destruct (Z.ltb_spec (head - 1 - Z.of_nat j + cap) cap); lia|].
  rewrite <-Hd. f_equal. f_equal. unfold slot.
  destruct (Z.ltb_spec (head - 1 - Z.of_nat j + cap) cap), (Z.eqb_spec n cap),
    (Z.ltb_spec (head + Z.of_nat (length q - S j)) cap); lia.
Qed.

(** Saving changes the disk only, and never panics. *)
Lemma saveLocked_run cap q w :
  ch_holds cap q (hist w) →
  ∃ d res, saveLocked w = (mkHistoryOn (hist w) d, res) ∧ (∀ why, res ≠ Panic why)
    ∧ (res = Ok tt → os_ReadFile (chFilePath (hist w)) d = inr (marshal (reverse q))).
Proof.
  intros Hh. unfold saveLocked, ch, wrapped, on_disk, catch, ignore, gets, mbind, M_bind. simpl.
  destruct (os_MkdirAll _ (hdisk w)) as [d0 [e|[]]]; simpl; [by eexists _, _|].
  rewrite (newest_first_run cap q (mkHistoryOn (hist w) d0) Hh). simpl.
  destruct (os_CreateTemp _ _ d0) as [d1 [e|tmp]]; simpl; [by eexists _, _|].
  destruct (os_WriteFile _ _ d1) as [d2 [e|[]]] eqn:Hw; simpl.
  { destruct (os_Remove tmp d2) as [d3 [?|?]]; by eexists _, _. }
  destruct (os_Rename _ _ d2) as [d3 [e|[]]] eqn:Hr; simpl.
  { destruct (os_Remove tmp d3) as [d4 [?|?]]; by eexists _, _. }
  eexists _, _. split_and!; [done|done|]. intros _.
  by apply read_WriteFile in Hw; eapply read_Rename.
Qed.

Lemma flush_run cap q w :
  ch_holds cap q (hist w) → ∃ d, flush w = (mkHistoryOn (hist w) d, Ok tt).
Proof.
  intros Hh. unfold flush, ch, gets, mbind, M_bind. simpl.
  case_decide; [exists (hdisk w); by destruct w|].
  destruct (saveLocked_run cap q w Hh) as (d & res & Hrun & Hp & _). exists d.
  unfold ignore. rewrite Hrun. destruct res as [| |y]; [done|done|by destruct (Hp y)].
Qed.

Lemma enter_run cap q w r :
  ch_holds cap q (hist w) →
  ∃ c', enter r w = (mkHistoryOn c' (hdisk w), Ok tt) ∧ ch_holds cap (enqueue cap q r) c'
        ∧ chFilePath c' = chFilePath (hist w).
Proof.
  intros [Hs Hh]. pose proof (holds_push _ _ _ _ _ Hh r) as Hh'.
  destruct w as [[data cp head n path] d]. simpl in *. subst cp.
  destruct (h_cap _ _ _ _ _ Hh), (h_head _ _ _ _ _ Hh).
  unfold enter, ch, gets, mbind, M_bind. simpl. rewrite store_run by (simpl; lia). simpl.
  rewrite go_rem_run by lia. eexists. split_and!; [done|by split|done].
Qed.

Lemma enter_all_run cap rs q w :
  ch_holds cap q (hist w) →
  ∃ c', for_each rs enter w = (mkHistoryOn c' (hdisk w), Ok tt)
        ∧ ch_holds cap (foldl (enqueue cap) q rs) c'.
Proof.
  revert q w. induction rs as [|r rs IH]; intros q w Hh; simpl.
  { exists (hist w). split; [by destruct w|done]. }
  destruct (enter_run cap q w r Hh) as (c1 & Hrun & Hh1 & _).
  destruct (IH _ (mkHistoryOn c1 (hdisk w)) Hh1) as (c2 & Hrun2 & Hh2). exists c2. split; [|done].
  unfold mbind, M_bind. by rewrite Hrun.
Qed.

(** The entry in slot [i] of a record known by its place in the queue. *)
Lemma entry_at cap q c i x (w : HistoryOn D) :
  ch_holds cap q c → q !! i = Some x →
  index (S := HistoryOn D) (chData c) (slot cap (chHead c) (chCount c) (Z.of_nat i)) w = (w, Ok x).
Proof.
  intros [_ Hh] Hx. apply lookup_lt_Some in Hx as Hi. destruct (h_count _ _ _ _ _ Hh) as [Hq _].
  pose proof (slot_bound _ _ _ _ _ Hh (Z.of_nat i)).
  apply index_run; [lia|]. by apply (h_data _ _ _ _ _ Hh).
Qed.

(** [Update] replaces the oldest record of that id. *)
Definition replace_first r q : list CommandRecord :=
  match list_find (λ x, crID x = crID r) q with Some (i, _) => <[i := r]> q | None => q end.

Lemma update_idx cap q c i (w : HistoryOn D) :
  ch_holds cap q c → (i < length q)%nat →
  (if chCount c <? chCapacity c then mret (Z.of_nat i)
   else go_rem (S := HistoryOn D) (chHead c + Z.of_nat i) (chCapacity c)) w
  = (w, Ok (slot cap (chHead c) (chCount c) (Z.of_nat i))).
Proof.
  intros [-> Hh] Hi. destruct (h_count _ _ _ _ _ Hh) as [Hq Hn], (h_head _ _ _ _ _ Hh).
  unfold slot. destruct (Z.ltb_spec (chCount c) cap), (Z.eqb_spec (chCount c) cap); try lia; [done|].
  rewrite go_rem_run by lia. done.
Qed.

Lemma update_from_run cap q r k i w :
  ch_holds cap q (hist w) → (i + k = length q)%nat →
  (∀ j x, (j < i)%nat → q !! j = Some x → crID x ≠ crID r) →
  ∃ w', update_from k (Z.of_nat i) r w = (w', Ok tt) ∧ ch_holds cap (replace_first r q) (hist w').
Proof.
  revert i. induction k as [|k IH]; intros i Hh Hik Hno; simpl.
  { exists w. split; [done|]. unfold replace_first.
    destruct (list_find _ q) as [[j x]|] eqn:Hf; [|done].
    apply list_find_Some in Hf as (Hx & He & _). apply lookup_lt_Some in Hx as Hj.
    by destruct (Hno j x); [lia| |]. }
  destruct (lookup_lt_is_Some_2 q i) as [x Hx]; [lia|].
  unfold ch, gets, mbind at 1, M_bind at 1. cbn [fst snd].
  unfold mbind at 1, M_bind at 1. erewrite update_idx by (done || lia).
  unfold mbind at 1, M_bind at 1. rewrite (entry_at cap q (hist w) i x w Hh Hx).
  destruct (decide (crID x = crID r)) as [He|He].
  - destruct Hh as [Hs Hh]. pose proof (slot_bound _ _ _ _ _ Hh (Z.of_nat i)) as Hb.
    destruct (h_count _ _ _ _ _ Hh) as [Hq _], (h_cap _ _ _ _ _ Hh) as [_ Hcap].
    unfold mbind at 1, M_bind at 1. rewrite store_run by lia.
    set (w1 := mkHistoryOn (set_ring (<[Z.to_nat (slot cap (chHead (hist w)) (chCount (hist w)) (Z.of_nat i)) := r]>
                 (chData (hist w))) (chHead (hist w)) (chCount (hist w)) (hist w)) (hdisk w)).
    assert (ch_holds cap (replace_first r q) (hist w1)) as Hh1.
    { split; [done|]. simpl. assert (list_find (λ x, crID x = crID r) q = Some (i, x)) as Hf.
      { apply list_find_Some. split_and!; [done|done|]. intros j y Hy Hj. by apply (Hno j). }
      unfold replace_first. rewrite Hf. apply holds_update; [done|lia]. }
    destruct (flush_run cap _ w1 Hh1) as [d Hd]. exists (mkHistoryOn (hist w1) d).
    split; [|done]. unfold set_hist, modify, mbind, M_bind. exact Hd.
  - destruct (IH (Datatypes.S i) Hh) as (w' & Hrun & Hh'); [lia| |].
    + intros j y Hj Hy. destruct (decide (j = i)) as [->|]; [congruence|]. apply (Hno j); [lia|done].
    + exists w'. split; [|done]. by replace (Z.of_nat i + 1) with (Z.of_nat (Datatypes.S i)) by lia.
Qed.

Lemma Update_run cap q w r :
  ch_holds cap q (hist w) →
  ∃ w', Update r w = (w', Ok tt) ∧ ch_holds cap (replace_first r q) (hist w').
Proof.
  intros Hh. pose proof Hh as [_ Hr]. destruct (h_count _ _ _ _ _ Hr) as [Hq _].
  unfold Update, ch, gets, mbind at 1, M_bind at 1.
  apply (update_from_run cap q r _ 0 w Hh); [lia|]. intros j x Hj. lia.
Qed.

Lemma history_Push cap q w r :
  ch_holds cap q (hist w) →
  ∃ w', Push r w = (w', Ok tt) ∧ ch_holds cap (enqueue cap q r) (hist w').
Proof.
  intros Hh. destruct (enter_run cap q w r Hh) as (c1 & Hrun & Hh1 & _).
  destruct (flush_run cap _ (mkHistoryOn c1 (hdisk w)) Hh1) as [d Hd].
  exists (mkHistoryOn c1 d). split; [|done]. unfold Push, mbind, M_bind. by rewrite Hrun.
Qed.

(** The search by id covers the slots in use, in whatever order they lie. *)
Lemma find_from_run cap q id k i w :
  ch_holds cap q (hist w) → Z.of_nat (i + k) = chCount (hist w) →
  ∃ o, find_from k (Z.of_nat i) id w = (w, Ok o)
    ∧ match o with
      | Some x => x ∈ q ∧ crID x = id
      | None => ∀ p x, Z.of_nat i ≤ p < chCount (hist w) → chData (hist w) !! Z.to_nat p = Some x → crID x ≠ id
      end.
Proof.
  intros Hh. pose proof Hh as [_ Hr]. revert i. induction k as [|k IH]; intros i Hik; simpl.
  { exists None. split; [done|]. intros p x Hp. lia. }
  destruct (h_count _ _ _ _ _ Hr) as [Hq Hn].
  destruct (slot_surj cap (chHead (hist w)) (chCount (hist w)) (Z.of_nat i)) as (j & Hj & Hsl);
    [done|apply Hr|lia|].
  destruct (lookup_lt_is_Some_2 q (Z.to_nat j)) as [x Hx]; [lia|].
  pose proof (entry_at cap q (hist w) (Z.to_nat j) x w Hh Hx) as He.
  rewrite Z2Nat.id, Hsl in He by lia.
  unfold ch, gets, mbind at 1, M_bind at 1. unfold mbind at 1, M_bind at 1. rewrite He.
  destruct (decide (crID x = id)) as [Hid|Hid].
  { exists (Some x). split; [done|]. split; [by eapply list_elem_of_lookup_2|done]. }
  destruct (IH (Datatypes.S i)) as (o & Hrun & Ho); [lia|]. exists o.
  split; [by replace (Z.of_nat i + 1) with (Z.of_nat (Datatypes.S i)) by lia|].
  destruct o as [y|]; [done|]. intros p y Hp Hy. destruct (decide (p = Z.of_nat i)) as [->|].
  - pose proof (h_data _ _ _ _ _ Hr _ x Hx) as Hd. rewrite Z2Nat.id, Hsl in Hd by lia. congruence.
  - apply (Ho p); [lia|done].
Qed.

(** ** The history of a new process *)

Definition real_capacity (cap : Z) : Z := if cap <=? 0 then 100 else cap.

Lemma fresh_holds cap path :
  let c := real_capacity cap in
  ch_holds c [] (mkCommandHistory (replicate (Z.to_nat c) zero_record) c 0 0 path).
Proof.
  split; [done|]. apply holds_empty_data. unfold real_capacity. destruct (Z.leb_spec cap 0); lia.
Qed.

Lemma enqueue_bound {A} cap (xs q : list A) :
  0 < cap → Z.of_nat (length q) ≤ cap → Z.of_nat (length (foldl (enqueue cap) q xs)) ≤ cap.
Proof. intros Hc Hq. rewrite enqueue_all by done. rewrite length_drop. lia. Qed.

(** Reading the file enters its records, the newest ones that fit. *)
Lemma load_run cap w :
  ch_holds cap [] (hist w) →
  ∃ c' res q, load w = (mkHistoryOn c' (hdisk w), res) ∧ (∀ why, res ≠ Panic why)
    ∧ ch_holds cap q c'
    ∧ (∀ l, os_ReadFile (chFilePath (hist w)) (hdisk w) = inr (marshal l) →
         q = reverse (take (Z.to_nat cap) l)).
Proof.
  intros Hh. destruct w as [c d]. simpl in *. unfold load, ch, gets, mbind, M_bind. simpl.
  destruct (match os_Stat (chFilePath c) d with inl e => os_IsNotExist e | inr _ => false end) eqn:Hst.
  { exists c, (Ok tt), []. split_and!; [done|done|done|]. intros l Hl.
    rewrite (stat_read _ _ _ Hl) in Hst. done. }
  cbn [hist hdisk]. destruct (os_ReadFile (chFilePath c) d) as [e|b] eqn:Hread.
  { exists c, (Err (Wrapf "failed to read history file: %w" [] e)), []. split_and!; try done. }
  destruct (unmarshal b) as [l|] eqn:Hl.
  2:{ exists c, (Err (Errorf "corrupted history file" [])), []. split_and!; try done.
      intros l [= ->]. by rewrite unmarshal_marshal in Hl. }
  pose proof Hh as [Hs Hr]. rewrite Hs. destruct (h_cap _ _ _ _ _ Hr) as [Hc _].
  set (l' := if cap <? Z.of_nat (length l) then take (Z.to_nat cap) l else l).
  assert (l' = take (Z.to_nat cap) l) as Hl'.
  { unfold l'. destruct (Z.ltb_spec cap (Z.of_nat (length l))); [done|]. rewrite take_ge; [done|lia]. }
  destruct (enter_all_run cap (reverse l') [] (mkHistoryOn c d) Hh) as (c' & Hrun & Hh').
  exists c', (Ok tt), (reverse l'). split_and!; [exact Hrun|done| |].
  - rewrite enqueue_all in Hh' by (simpl; lia). simpl in Hh'.
    replace (length (reverse l') - Z.to_nat cap)%nat with O in Hh'; [done|].
    rewrite length_reverse, Hl', length_take. lia.
  - intros l2 [= ->]. rewrite unmarshal_marshal in Hl. injection Hl as ->. by rewrite Hl'.
Qed.

Lemma New_run cap path d :
  ∃ w q, NewCommandHistory cap path d = (w, Ok tt) ∧ ch_holds (real_capacity cap) q (hist w)
    ∧ (path = "" → q = [])
    ∧ (path ≠ "" → ∀ l, os_ReadFile path d = inr (marshal l) →
         q = reverse (take (Z.to_nat (real_capacity cap)) l)).
Proof.
  pose proof (fresh_holds cap path) as Hh. unfold NewCommandHistory, real_capacity in *. cbv zeta in *.
  set (c := mkCommandHistory _ _ _ _ path) in *. case_decide as Hp.
  - exists (mkHistoryOn c d), []. split_and!; try done.
  - destruct (load_run _ (mkHistoryOn c d) Hh) as (c' & res & q & Hrun & Hno & Hh' & Hq).
    exists (mkHistoryOn c' d), q. split_and!; try done. unfold ignore. rewrite Hrun.
    destruct res as [| |y]; [done|done|by destruct (Hno y)].
Qed.

(** The changes of a history. *)
Inductive HistOp := OpPush r | OpUpdate r.
Definition exec_op (o : HistOp) : M (HistoryOn D) unit :=
  match o with OpPush r => Push r | OpUpdate r => Update r end.
Definition apply_op (cap : Z) q (o : HistOp) : list CommandRecord :=
  match o with OpPush r => enqueue cap q r | OpUpdate r => replace_first r q end.

Lemma exec_all_run cap ops q w :
  ch_holds cap q (hist w) →
  ∃ w', for_each ops exec_op w = (w', Ok tt) ∧ ch_holds cap (foldl (apply_op cap) q ops) (hist w').
Proof.
  revert q w. induction ops as [|o ops IH]; intros q w Hh; simpl; [by exists w|].
  assert (∃ w1, exec_op o w = (w1, Ok tt) ∧ ch_holds cap (apply_op cap q o) (hist w1)) as (w1 & Hrun & Hh1).
  { destruct o as [r|r]; [by apply history_Push|by apply Update_run]. }
  destruct (IH _ w1 Hh1) as (w2 & Hrun2 & Hh2). exists w2. split; [|done].
  unfold mbind, M_bind. by rewrite Hrun.
Qed.

Lemma GetByID_run cap q id w :
  ch_holds cap q (hist w) →
  ∃ o, GetByID id w = (w, Ok o)
    ∧ match o with Some x => x ∈ q ∧ crID x = id | None => ∀ x, x ∈ q → crID x ≠ id end.
Proof.
  intros Hh. pose proof Hh as [_ Hr]. destruct (h_count _ _ _ _ _ Hr) as [Hq _].
  unfold GetByID, ch, gets, mbind at 1, M_bind at 1.
  destruct (find_from_run cap q id (Z.to_nat (chCount (hist w))) 0 w Hh) as (o & Hrun & Ho); [lia|].
  exists o. split; [done|]. destruct o as [x|]; [done|]. intros x [i Hx]%list_elem_of_lookup.
  apply lookup_lt_Some in Hx as Hi.
  assert (0 ≤ slot cap (chHead (hist w)) (chCount (hist w)) (Z.of_nat i) < chCount (hist w)) as Hb.
  { pose proof (h_head _ _ _ _ _ Hr). pose proof (h_start _ _ _ _ _ Hr).
    pose proof (slot_bound _ _ _ _ _ Hr (Z.of_nat i)). unfold slot in *.
    destruct (Z.eqb_spec (chCount (hist w)) cap); lia. }
  eapply (Ho _ x Hb). by apply (h_data _ _ _ _ _ Hr).
Qed.

(** The command history is a bounded queue with replacement: started from any file and
    whatever the disk answers, any sequence of pushes and updates runs without a panic,
    the records are those of the queue the changes describe, [GetAll] lists them newest
    first, [Count] counts them, and [GetByID] finds a record of that id exactly when
    there is one.  The file [saveLocked] writes gives, in a new process of any capacity,
    the newest records that fit. *)
Theorem CommandHistory_correct cap path d ops :
  ∃ w0 q0 w, NewCommandHistory cap path d = (w0, Ok tt) ∧ (path = "" → q0 = [])
    ∧ for_each ops exec_op w0 = (w, Ok tt)
    ∧ let q := foldl (apply_op (real_capacity cap)) q0 ops in
      Z.of_nat (length q) ≤ real_capacity cap
      ∧ GetAll w = (w, Ok (reverse q)) ∧ Count w = (w, Ok (Z.of_nat (length q)))
      ∧ (∀ id, ∃ o, GetByID id w = (w, Ok o)
           ∧ match o with Some x => x ∈ q ∧ crID x = id | None => ∀ x, x ∈ q → crID x ≠ id end)
      ∧ ∀ w', chFilePath (hist w) ≠ "" → saveLocked w = (w', Ok tt) → ∀ cap2,
          ∃ w2, NewCommandHistory cap2 (chFilePath (hist w)) (hdisk w') = (w2, Ok tt)
            ∧ GetAll w2 = (w2, Ok (take (Z.to_nat (real_capacity cap2)) (reverse q))).
Proof.
  destruct (New_run cap path d) as (w0 & q0 & Hnew & Hh0 & Hempty & _).
  destruct (exec_all_run _ ops q0 w0 Hh0) as (w & Hrun & Hh). exists w0, q0, w.
  split_and!; [done|done|done|]. intros q. fold q in Hh. pose proof Hh as [_ Hr].
  destruct (h_count _ _ _ _ _ Hr) as [Hq Hn]. split_and!.
  - lia.
  - by eapply newest_first_run.
  - unfold Count, ch, gets, mbind, M_bind. by rewrite Hq.
  - intros id. by eapply GetByID_run.
  - intros w' Hp Hsave cap2. destruct (saveLocked_run _ q w Hh) as (d' & res & Hs & _ & Hfile).
    rewrite Hsave in Hs. injection Hs as -> <-. simpl.
    destruct (New_run cap2 (chFilePath (hist w)) d') as (w2 & q2 & Hnew2 & Hh2 & _ & Hq2).
    exists w2. split; [done|]. unfold GetAll. rewrite (newest_first_run _ q2 w2 Hh2).
    rewrite (Hq2 Hp _ (Hfile eq_refl)). by rewrite reverse_involutive.
Qed.
End spec.

(** ** The theorem on the executable disk *)

#[export] Instance history_json : Json (list CommandRecord) := countable_json (list CommandRecord).
#[export] Instance history_json_laws : JsonLaws (list CommandRecord) := countable_json_laws _.

Definition demo_record (id status : string) : CommandRecord :=
  mkCommandRecord id 0 "restart" "" [] status 0 ∅.
(** Three records pass through a history of two, the last one is updated. *)
Definition demo_ops : list HistOp :=
  [OpPush (demo_record "a" "success"); OpPush (demo_record "b" "success");
   OpPush (demo_record "c" "running"); OpUpdate (demo_record "c" "failed")].

Lemma CommandHistory_correct_witness :
  ∃ w0 w : HistoryOn MemDisk,
    NewCommandHistory 2 "/var/history.json" (mkMemDisk ∅ 0 []) = (w0, Ok tt)
    ∧ for_each demo_ops exec_op w0 = (w, Ok tt)
    ∧ GetAll w = (w, Ok [demo_record "c" "failed"; demo_record "b" "success"])
    ∧ ∃ w2, NewCommandHistory 1 "/var/history.json" (hdisk (saveLocked w).1) = (w2, Ok tt)
        ∧ GetAll w2 = (w2, Ok [demo_record "c" "failed"]).
Proof.
  destruct (CommandHistory_correct 2 "/var/history.json"
              (mkMemDisk ∅ 0 []) demo_ops) as (w0 & q0 & w & Hnew & _ & Hrun & _ & Hall & _ & _ & Hsave).
  assert ((NewCommandHistory 2 "/var/history.json" (mkMemDisk ∅ 0 [])).1 = w0) as Hw0 by by rewrite Hnew.
  assert ((for_each demo_ops exec_op w0).1 = w) as Hw by by rewrite Hrun.
  exists w0, w. split; [exact Hnew|]. split; [exact Hrun|]. rewrite <-Hw0 in Hw. rewrite <-Hw in Hsave |- *.
  split; [vm_compute; reflexivity|].
  destruct (saveLocked (for_each demo_ops exec_op (NewCommandHistory 2 "/var/history.json" (mkMemDisk ∅ 0 [])).1).1)
    as [w' r] eqn:Hs.
  assert (r = Ok tt) as -> by (apply (f_equal snd) in Hs; vm_compute in Hs; congruence).
  assert (GetAll w = (w, Ok [demo_record "c" "failed"; demo_record "b" "success"])) as Hall2
    by (rewrite <-Hw; vm_compute; reflexivity).
  assert (reverse (foldl (apply_op (real_capacity 2)) q0 demo_ops)
          = [demo_record "c" "failed"; demo_record "b" "success"]) as Hq by congruence.
  destruct (Hsave w') with (cap2 := 1) as (w2 & Hnew2 & Hall3); [vm_compute; discriminate|reflexivity|].
  exists w2. split; [exact Hnew2|]. rewrite Hall3, Hq. reflexivity.
Defined.
