(* ===== verification/Node.v ===== *)
(** * What the admin console knows of a file server

    Models the data of [internal/admin/metrics.go], [server.go] and [ringbuffer.go]: the
    metrics a node reports, the rates computed from two readings, the snapshots kept in
    its ring buffer, and the state of the node.  Floating-point numbers are rationals. *)
From S2P Require Import Prelude GoStd Ring.
From Stdlib Require Import QArith.
#[global] Open Scope Z_scope.

(** [server.go]: the states of a node, by name. *)
Inductive NodeStatus := StatusOnline | StatusWarning | StatusDegraded | StatusCritical | StatusOffline.
#[export] Instance NodeStatus_eq_dec : EqDecision NodeStatus.
Proof. solve_decision. Defined.

Record FileserverMetrics := mkMetrics {
  mDiskTotalBytes : Z;
  mDiskUsedBytes : Z;
  mDiskFreeBytes : Z;
  mDiskUsagePercent : Q;
  mPerUserStorage : gmap string Z;
  mPerUserQuota : gmap string Z;
  mChunkCount : Z;
  mCPUTempCelsius : Q;
  mCPUUsagePercent : Q;
  mMemUsedBytes : Z;
  mMemTotalBytes : Z;
  mMemUsagePercent : Q;
  mLoadAvg1m : Q;
  mLoadAvg5m : Q;
  mUptimeSeconds : Q;
  mLastRestartUnix : Z;
  mActiveConnections : Z;
  mActiveUsers : list string;
  mUsersAssigned : Z;
  mBytesWrittenTotal : Z;
  mBytesReadTotal : Z;
  mWriteOpsTotal : Z;
  mReadOpsTotal : Z;
  mErrorsTotal : Z;
  mFailedWritesTotal : Z;
  mFailedReadsTotal : Z;
  mOpLatencyWriteMsP50 : Q;
  mOpLatencyWriteMsP95 : Q;
  mOpLatencyWriteMsP99 : Q;
  mOpLatencyReadMsP50 : Q;
  mOpLatencyReadMsP95 : Q;
  mOpLatencyReadMsP99 : Q;
}.

(** What the console computes from two readings. *)
Record Rates := mkRates {
  rWriteThroughputBps : Q;
  rReadThroughputBps : Q;
  rWriteMbps : Q;
  rReadMbps : Q;
  rWriteIOPS : Q;
  rReadIOPS : Q;
  rErrorRatePct : Q;
}.
Definition zero_rates : Rates := mkRates 0 0 0 0 0 0 0.

Record Snapshot := mkSnapshot {
  sTimestamp : Z;
  sMetrics : FileserverMetrics;
  sRates : Rates;
}.

Record NodeState := mkNodeState {
  nFsID : string;
  nNodeID : string;
  nDisplayID : Z;
  nDisplayName : string;
  nMachineName : string;
  nAddress : string;
  nMetricsURL : string;
  nStatus : NodeStatus;
  nLastSeen : Z;
  nMetrics : option FileserverMetrics;
  nRates : Rates;
  nHistory : RingBuffer Snapshot;
}.
