(* ===== verification/Alerts.v ===== *)
(** * The alerts of the admin console

    Models [internal/admin/alerts.go].  The log is a slice of alerts and the table of
    active conditions holds pointers to its elements, so alerts live in cells: a
    prepend allocates a new array and copies the log into new cells, while the pointers
    of the table go on naming the old ones.  Floating-point numbers are rationals, and
    are printed with the rounding of [fmt]; every reading of the clock and every UUID is
    a call of its own. *)
From S2P Require Import Prelude GoStd Disk Ring History Node.
From Stdlib Require Import QArith.
#[global] Open Scope Z_scope.

Definition SeverityInfo : string := "info".
Definition SeverityWarning : string := "warning".
Definition SeverityCritical : string := "critical".

Definition AlertTypeNodeOffline : string := "node_offline".
Definition AlertTypeNodeOnline : string := "node_online".
Definition AlertTypeStorageWarning : string := "storage_warning".
Definition AlertTypeTempWarning : string := "temp_warning".
Definition AlertTypeQuotaExceeded : string := "quota_exceeded".
Definition AlertTypeErrorSpike : string := "error_spike".
Definition AlertTypeServiceRestart : string := "service_restart".

Record Alert := mkAlert {
  alID : string;
  alTimestamp : Z;
  alSeverity : string;
  alType : string;
  alTitle : string;
  alMessage : string;
  alNodeID : string;
  alNodeName : string;
  alUsername : string;
  alResolved : bool;
  alResolvedAt : Z;
}.

#[export] Instance Alert_eq_dec : EqDecision Alert.
Proof. solve_decision. Defined.
#[export] Program Instance Alert_countable : Countable Alert :=
  inj_countable' (λ a, (alID a, alTimestamp a, alSeverity a, alType a, alTitle a, alMessage a,
                        alNodeID a, alNodeName a, alUsername a, alResolved a, alResolvedAt a))
    (λ '(a, b, c, d, e, f, g, h, i, j, k), mkAlert a b c d e f g h i j k) _.
Next Obligation. match goal with a : Alert |- _ => by destruct a end. Qed.

(** [a.Resolved = true; a.ResolvedAt = now] *)
Definition resolve (now : Z) (a : Alert) : Alert :=
  mkAlert (alID a) (alTimestamp a) (alSeverity a) (alType a) (alTitle a) (alMessage a)
    (alNodeID a) (alNodeName a) (alUsername a) true now.

Record AlertSummary := mkSummary {
  CriticalCount : Z;
  WarningCount : Z;
  InfoCount : Z;
  TotalUnresolved : Z;
}.

Record AlertFilters := mkFilters {
  fSeverity : string;
  fNodeID : string;
  fUnresolved : bool;
  fLimit : Z;
}.

Record AlertManager := mkAlertManager {
  amAlerts : list positive;
  activeConditions : gmap string positive;
  amCapacity : Z;
  amFilePath : string;
}.

(** The manager, the cells alerts live in, the disk, and how often the clock and the
    UUID generator were asked. *)
Record AlertWorld (D : Type) := mkAlertWorld {
  am : AlertManager;
  cells : gmap positive Alert;
  adisk : D;
  ticks : nat;
}.
Arguments mkAlertWorld {D} am cells adisk ticks.
Arguments am {D} a.
Arguments cells {D} a.
Arguments adisk {D} a.
Arguments ticks {D} a.

(** ** Numbers in messages *)

(** The integer nearest to [n / d], ties to the even one. *)
Definition round_even (n : Z) (d : positive) : Z :=
  let q := n / Zpos d in
  let r := 2 * (n mod Zpos d) in
  if r <? Zpos d then q else if Zpos d <? r then q + 1 else if Z.even q then q else q + 1.
(** [%.0f] *)
Definition fmt0 (x : Q) : string :=
  let n := round_even (Z.abs (Qnum x)) (Qden x) in
  (if Qnum x <? 0 then "-" else "") +:+ pretty n.
(** [%.1f] *)
Definition fmt1 (x : Q) : string :=
  let n := round_even (10 * Z.abs (Qnum x)) (Qden x) in
  (if Qnum x <? 0 then "-" else "") +:+ pretty (n / 10) +:+ "." +:+ pretty (n mod 10).

Example fmt1_ex :
  map fmt1 [(191 # 2); (1 # 4); (3 # 4); 80; (-7 # 20); (1999 # 20)]%Q
  = ["95.5"; "0.2"; "0.8"; "80.0"; "-0.4"; "100.0"].
Proof. reflexivity. Qed.

(** [x >= c] on floats *)
Definition at_least (c : Z) (x : Q) : bool := Qle_bool (inject_Z c) x.
(** [x > c] *)
Definition above (c : Z) (x : Q) : bool := negb (Qle_bool x (inject_Z c)).

(** [nodeLabel] *)
Definition node_label (n : NodeState) : string :=
  let label := if decide (nDisplayName n = "") then "FS-" +:+ nFsID n else nDisplayName n in
  if decide (nMachineName n = "") then label else label +:+ " (" +:+ nMachineName n +:+ ")".

(** [sort.Slice] leaves equal times in an unspecified order; this one is stable. *)
Definition newer (a b : Alert) : Prop := alTimestamp b ≤ alTimestamp a.
#[export] Instance newer_dec a b : Decision (newer a b).
Proof. unfold newer. apply _. Defined.

Section manager.
Context {D : Type} `{OS D, Json (list Alert)}.
(** The clock and [uuid.New().String()], by how often they were asked. *)
Context (clock : nat → Z) (uuid : nat → string).
Abbreviation W := (AlertWorld D).
Implicit Types (w : W) (n : NodeState).

Definition on_am (f : AlertManager → AlertManager) : M W unit :=
  modify (λ w, mkAlertWorld (f (am w)) (cells w) (adisk w) (ticks w)).
Definition set_alerts l := on_am (λ m, mkAlertManager l (activeConditions m) (amCapacity m) (amFilePath m)).
Definition on_conditions f :=
  on_am (λ m, mkAlertManager (amAlerts m) (f (activeConditions m)) (amCapacity m) (amFilePath m)).
Definition the {A} (f : AlertManager → A) : M W A := gets (λ w, f (am w)).

Definition tick : M W nat :=
  k ← gets ticks;
  modify (λ w, mkAlertWorld (am w) (cells w) (adisk w) (S k)) ;; mret k.
(** [time.Now().Unix()] *)
Definition time_now : M W Z := k ← tick; mret (clock k).
(** [uuid.New().String()[:8]] *)
Definition short_uuid : M W string := k ← tick; mret (String.substring 0 8 (uuid k)).

(** Reading and writing through a pointer. *)
Definition cell (l : positive) : M W Alert :=
  o ← gets (λ w, cells w !! l);
  match o with Some a => mret a | None => panic "nil pointer dereference" end.
Definition on_cell (l : positive) (f : Alert → Alert) : M W unit :=
  cell l ;; modify (λ w, mkAlertWorld (am w) (alter f l (cells w)) (adisk w) (ticks w)).
Definition new_cell (a : Alert) : M W positive :=
  l ← gets (λ w, fresh (dom (cells w)));
  modify (λ w, mkAlertWorld (am w) (<[l := a]> (cells w)) (adisk w) (ticks w)) ;; mret l.
(** A new array with these elements. *)
Fixpoint new_array (l : list Alert) : M W (list positive) :=
  match l with
  | [] => mret []
  | a :: l => p ← new_cell a; ps ← new_array l; mret (p :: ps)
  end.
(** The elements of a slice. *)
Fixpoint contents (l : list positive) : M W (list Alert) :=
  match l with
  | [] => mret []
  | p :: l => a ← cell p; more ← contents l; mret (a :: more)
  end.

(** ** Persistence *)

Definition on_adisk {A} (c : OSCall D A) : M W A := λ w,
  match c (adisk w) with
  | (d, inl e) => (mkAlertWorld (am w) (cells w) d (ticks w), Err e)
  | (d, inr a) => (mkAlertWorld (am w) (cells w) d (ticks w), Ok a)
  end.

Definition saveLocked : M W unit :=
  path ← the amFilePath;
  if decide (path = "") then mret tt
  else
    on_adisk (os_MkdirAll (Dir path)) ;;
    l ← the amAlerts;
    log ← contents l;
    on_adisk (os_WriteFile (path +:+ ".tmp") (marshal log)) ;;
    on_adisk (os_Rename (path +:+ ".tmp") path).
(** [if am.filePath != "" { _ = am.saveLocked() }] *)
Definition save : M W unit :=
  path ← the amFilePath; if decide (path = "") then mret tt else ignore saveLocked.

(** The condition an unresolved alert stands for. *)
Definition condition_of (a : Alert) : option string :=
  if decide (alType a = AlertTypeNodeOffline) then Some ("node_offline:" +:+ alNodeID a)
  else if decide (alType a = AlertTypeStorageWarning) then Some ("node_storage:" +:+ alNodeID a)
  else if decide (alType a = AlertTypeTempWarning) then Some ("node_temp:" +:+ alNodeID a)
  else if decide (alType a = AlertTypeErrorSpike) then Some ("node_error:" +:+ alNodeID a)
  else if decide (alType a = AlertTypeQuotaExceeded) then Some ("user_quota:" +:+ alUsername a)
  else None.

Definition load : M W unit :=
  path ← the amFilePath;
  content ← gets (λ w, os_ReadFile path (adisk w));
  match content with
  | inl e => if os_IsNotExist e then mret tt else throw e
  | inr b =>
      match unmarshal (A := list Alert) b with
      | None => throw (Errorf "failed to decode %s" [path])
      | Some loaded =>
          capacity ← the amCapacity;
          let sorted := merge_sort newer loaded in
          let log := if capacity <? Z.of_nat (length sorted) then take (Z.to_nat capacity) sorted
                     else sorted in
          ps ← new_array log;
          set_alerts ps ;;
          for_each ps (λ p,
            a ← cell p;
            if alResolved a then mret tt
            else match condition_of a with
                 | Some k => on_conditions <[k := p]>
                 | None => mret tt
                 end)
      end
  end.

Definition NewAlertManager (capacity : Z) (filePath : string) (d : D) : W * res unit :=
  let capacity := if capacity <=? 0 then 500 else capacity in
  (if decide (filePath = "") then mret tt else ignore load)
    (mkAlertWorld (mkAlertManager [] ∅ capacity filePath) ∅ d 0).

(** ** The log *)

(** [createAlertLocked]: the log is copied behind the new alert; the pointer returned
    names the first element of the new array. *)
Definition createAlertLocked (sev aType title message nodeID nodeName username : string) :
    M W positive :=
  id ← short_uuid;
  now ← time_now;
  let alert := mkAlert ("alt-" +:+ id) now sev aType title message nodeID nodeName username false 0 in
  old ← the amAlerts;
  log ← contents old;
  ps ← new_array (alert :: log);
  capacity ← the amCapacity;
  set_alerts (if capacity <? Z.of_nat (length ps) then take (Z.to_nat capacity) ps else ps) ;;
  l ← the amAlerts;
  match l with p :: _ => mret p | [] => panic "index out of range" end.

Definition ResolveAlert (id : string) : M W bool :=
  now ← time_now;
  l ← the amAlerts;
  log ← contents l;
  found ← (match list_find (λ a, alID a = id) log with
           | Some (i, _) =>
               match l !! i with
               | Some p => on_cell p (resolve now) ;; mret true
               | None => panic "index out of range"
               end
           | None => mret false
           end);
  conds ← the activeConditions;
  let entries := map_to_list conds in
  acts ← contents entries.*2;
  (match list_find (λ a, alID a = id) acts with
   | Some (i, _) =>
       match entries !! i with Some (k, _) => on_conditions (delete k) | None => mret tt end
   | None => mret tt
   end) ;;
  (if (found : bool) then save else mret tt) ;;
  mret found.

Fixpoint resolve_open (now : Z) (l : list positive) : M W Z :=
  match l with
  | [] => mret 0
  | p :: l =>
      a ← cell p;
      if alResolved a then resolve_open now l
      else on_cell p (resolve now) ;; n ← resolve_open now l; mret (n + 1)
  end.
Definition ResolveAll : M W Z :=
  now ← time_now;
  l ← the amAlerts;
  count ← resolve_open now l;
  on_conditions (λ _, ∅) ;;
  (if 0 <? count then save else mret tt) ;;
  mret count.

Definition passes (f : AlertFilters) (a : Alert) : bool :=
  negb (fUnresolved f && alResolved a)
  && (String.eqb (fSeverity f) "" || EqualFold (alSeverity a) (fSeverity f))
  && (String.eqb (fNodeID f) "" || String.eqb (alNodeID a) (fNodeID f)).
(** The loop stops when the result has [Limit] elements. *)
Fixpoint select (f : AlertFilters) (n : Z) (log : list Alert) : list Alert :=
  match log with
  | [] => []
  | a :: log =>
      if passes f a then
        a :: (if (0 <? fLimit f) && (fLimit f <=? n + 1) then [] else select f (n + 1) log)
      else select f n log
  end.
Definition GetAll (f : AlertFilters) : M W (list Alert) :=
  l ← the amAlerts; log ← contents l; mret (select f 0 log).

Definition count_alert (s : AlertSummary) (a : Alert) : AlertSummary :=
  if alResolved a then s
  else
    let bump x := if decide (alSeverity a = x) then 1 else 0 in
    mkSummary (CriticalCount s + bump SeverityCritical) (WarningCount s + bump SeverityWarning)
      (InfoCount s + bump SeverityInfo) (TotalUnresolved s + 1).
Definition Summary : M W AlertSummary :=
  l ← the amAlerts; log ← contents l; mret (foldl count_alert (mkSummary 0 0 0 0) log).

(** ** Conditions *)

Definition active (key : string) : M W (option positive) := the (λ m, activeConditions m !! key).

(** A condition that cleared: its alert is resolved and it is forgotten. *)
Definition clear_condition (key : string) (now : Z) : M W unit :=
  o ← active key;
  match o with
  | Some p => on_cell p (resolve now) ;; on_conditions (delete key)
  | None => mret tt
  end.

(** A condition at a level: a new alert unless one of that severity is active. *)
Definition raise_condition (key sev aType title message : string) n (now : Z) : M W unit :=
  o ← active key;
  again ← (match o with
           | None => mret true
           | Some p => a ← cell p; mret (bool_decide (alSeverity a ≠ sev))
           end);
  if (again : bool) then
    (match o with Some p => on_cell p (resolve now) | None => mret tt end) ;;
    alert ← createAlertLocked sev aType title message (nFsID n) (node_label n) "";
    on_conditions <[key := alert]>
  else mret tt.

(** One of the measured conditions of a node; no severity means below every
    threshold. *)
Definition check_level (key : string) (level : option (string * string)) (aType message : string)
    n (now : Z) : M W unit :=
  match level with
  | Some (sev, title) => raise_condition key sev aType title message n now
  | None => clear_condition key now
  end.

Definition storage_level (label : string) (pct : Q) : option (string * string) :=
  if at_least 95 pct then
    Some (SeverityCritical, "Critical Storage Full: " +:+ label +:+ " (" +:+ fmt1 pct +:+ "%)")
  else if at_least 90 pct then
    Some (SeverityWarning, "Storage Degraded: " +:+ label +:+ " (" +:+ fmt1 pct +:+ "%)")
  else if at_least 80 pct then
    Some (SeverityWarning, "Storage Warning: " +:+ label +:+ " (" +:+ fmt1 pct +:+ "%)")
  else None.
Definition temp_level (label : string) (t : Q) : option (string * string) :=
  if at_least 85 t then
    Some (SeverityCritical, "Critical CPU Temp: " +:+ label +:+ " (" +:+ fmt1 t +:+ "°C)")
  else if at_least 75 t then
    Some (SeverityWarning, "High CPU Temp: " +:+ label +:+ " (" +:+ fmt1 t +:+ "°C)")
  else if at_least 65 t then
    Some (SeverityWarning, "Elevated CPU Temp: " +:+ label +:+ " (" +:+ fmt1 t +:+ "°C)")
  else None.
Definition error_level (label : string) (pct : Q) : option (string * string) :=
  let title := "Error Rate Spike: " +:+ label +:+ " (" +:+ fmt1 pct +:+ "%)" in
  if at_least 20 pct then Some (SeverityCritical, title)
  else if at_least 5 pct then Some (SeverityWarning, title)
  else None.

(** The transition between offline and online. *)
Definition check_offline n (now : Z) : M W unit :=
  let label := node_label n in
  let key := "node_offline:" +:+ nFsID n in
  o ← active key;
  if decide (nStatus n = StatusOffline) then
    match o with
    | Some _ => mret tt
    | None =>
        let msg :=
          if nLastSeen n =? 0 then
            "Node " +:+ label +:+ " at " +:+ nAddress n
            +:+ " is unreachable and has never reported metrics."
          else "Node " +:+ label +:+ " at " +:+ nAddress n
               +:+ " has stopped responding to metrics polls (last seen: "
               +:+ pretty (now - nLastSeen n) +:+ "s ago)." in
        alert ← createAlertLocked SeverityCritical AlertTypeNodeOffline
                  ("Node Offline: " +:+ label) msg (nFsID n) label "";
        on_conditions <[key := alert]>
    end
  else
    match o with
    | None => mret tt
    | Some p =>
        on_cell p (resolve now) ;;
        on_conditions (delete key) ;;
        recovery ← createAlertLocked SeverityInfo AlertTypeNodeOnline
                     ("Node Recovered: " +:+ label)
                     ("Node " +:+ label +:+ " at " +:+ nAddress n
                      +:+ " is back online and responding to metrics polls.")
                     (nFsID n) label "";
        on_cell recovery (resolve now)
    end.

Definition check_metrics n (m : FileserverMetrics) (prevUptime : Q) (now : Z) : M W unit :=
  let label := node_label n in
  let usagePct := mDiskUsagePercent m in
  let tempC := mCPUTempCelsius m in
  let errPct := rErrorRatePct (nRates n) in
  check_level ("node_storage:" +:+ nFsID n) (storage_level label usagePct) AlertTypeStorageWarning
    ("Storage on " +:+ label +:+ " has reached " +:+ fmt1 usagePct +:+ "% ("
     +:+ pretty (mDiskUsedBytes m) +:+ " of " +:+ pretty (mDiskTotalBytes m) +:+ " bytes used).")
    n now ;;
  check_level ("node_temp:" +:+ nFsID n) (temp_level label tempC) AlertTypeTempWarning
    ("CPU temperature on " +:+ label +:+ " exceeded threshold: " +:+ fmt1 tempC +:+ "°C.") n now ;;
  check_level ("node_error:" +:+ nFsID n) (error_level label errPct) AlertTypeErrorSpike
    ("Node " +:+ label +:+ " is experiencing an elevated operation error rate of "
     +:+ fmt1 errPct +:+ "%.") n now ;;
  if above 10 prevUptime && negb (Qle_bool prevUptime (mUptimeSeconds m)) then
    alert ← createAlertLocked SeverityInfo AlertTypeServiceRestart
              ("Process Restarted: " +:+ label)
              ("Fileserver on " +:+ label +:+ " restarted (uptime reset from " +:+ fmt0 prevUptime
               +:+ "s to " +:+ fmt0 (mUptimeSeconds m) +:+ "s).")
              (nFsID n) label "";
    on_cell alert (resolve now)
  else mret tt.

Definition CheckNodeHealth (node : option NodeState) (prevLastSeen : Z) (prevUptime : Q) : M W unit :=
  match node with
  | None => mret tt
  | Some n =>
      now ← time_now;
      check_offline n now ;;
      (match nMetrics n with
       | Some m => if decide (nStatus n = StatusOffline) then mret tt
                   else check_metrics n m prevUptime now
       | None => mret tt
       end) ;;
      save
  end.

(** [float64(used) / float64(quota) * 100.0] *)
Definition percent_of (used quota : Z) : Q := (inject_Z used / inject_Z quota * 100)%Q.

Definition CheckUserQuota (username : string) (used quota : Z) (homeNodeID homeNodeLabel : string) :
    M W unit :=
  if decide (quota = 0 ∨ username = "") then mret tt
  else
    now ← time_now;
    let key := "user_quota:" +:+ username in
    o ← active key;
    if quota <=? used then
      match o with
      | Some _ => mret tt
      | None =>
          alert ← createAlertLocked SeverityWarning AlertTypeQuotaExceeded
                    ("Quota Exceeded: " +:+ username)
                    ("User '" +:+ username +:+ "' has reached " +:+ fmt1 (percent_of used quota)
                     +:+ "% of their storage quota (" +:+ pretty used +:+ " / " +:+ pretty quota
                     +:+ " bytes). New writes are blocked.")
                    homeNodeID homeNodeLabel username;
          on_conditions <[key := alert]> ;;
          save
      end
    else
      match o with
      | None => mret tt
      | Some _ => clear_condition key now ;; save
      end.
End manager.

(** ** What holds of every history of the alert log *)

Section safety.
Context {D : Type} `{OS D, Json (list Alert)}.
Context (clock : nat → Z) (uuid : nat → string).
Implicit Types (w : AlertWorld D) (n : NodeState) (p : positive).

Definition has_cell w p : Prop := is_Some (cells w !! p).

(** The log fits its capacity and every pointer names an alert. *)
Record alerts_wf w : Prop := {
  aw_cap : 0 < amCapacity (am w);
  aw_len : Z.of_nat (length (amAlerts (am w))) ≤ amCapacity (am w);
  aw_log : Forall (has_cell w) (amAlerts (am w));
  aw_active k p : activeConditions (am w) !! k = Some p → has_cell w p;
}.

(** From [w] the manager came to [w']: no alert was lost from the store. *)
Definition after w w' : Prop :=
  alerts_wf w' ∧ (∀ p, has_cell w p → has_cell w' p) ∧ amCapacity (am w') = amCapacity (am w).

Lemma after_refl w : alerts_wf w → after w w.
Proof. intros Hw. split_and!; done. Qed.
Lemma after_trans w1 w2 w3 : after w1 w2 → after w2 w3 → after w1 w3.
Proof. intros (_ & Hc & He) (Hw & Hc' & He'). split; [done|]. split; [auto|congruence]. Qed.

(** A call that runs to its end and returns no error. *)
Definition steady {A} (m : M (AlertWorld D) A) (Q : A → AlertWorld D → Prop) w : Prop :=
  wp m (λ a w', after w w' ∧ Q a w') (λ _ _, False) w.

Lemma steady_bind {A B} (m : M (AlertWorld D) A) (k : A → M (AlertWorld D) B) Q R w :
  steady m Q w → (∀ a w1, after w w1 → Q a w1 → steady (k a) R w1) → steady (m ≫= k) R w.
Proof.
  intros Hm Hk. apply wp_bind. eapply wp_mono; [exact Hm| |done]. intros a w1 [Ha HQ].
  eapply wp_mono; [by apply Hk| |done].
  intros b w2 [Hb HR]. split; [by eapply after_trans|done].
Qed.

Lemma steady_ret {A} (a : A) (Q : A → AlertWorld D → Prop) w : alerts_wf w → Q a w → steady (mret a) Q w.
Proof. intros Hw HQ. apply wp_ret. split; [by apply after_refl|done]. Qed.
Lemma steady_gets {A} (f : AlertWorld D → A) w : alerts_wf w → steady (gets f) (λ a w', a = f w ∧ w' = w) w.
Proof. intros Hw. apply wp_gets. split; [by apply after_refl|done]. Qed.
Lemma steady_mono {A} (m : M (AlertWorld D) A) (Q R : A → AlertWorld D → Prop) w :
  steady m Q w → (∀ a w', Q a w' → R a w') → steady m R w.
Proof. intros Hm HQ. eapply wp_mono; [exact Hm| |done]. intros a w' []. auto. Qed.

Lemma wf_same w w' :
  am w' = am w → (∀ p, has_cell w p → has_cell w' p) → alerts_wf w → after w w'.
Proof.
  intros Ham Hc [H1 H2 H3 H4]. split_and!; [split; rewrite ?Ham|done|by rewrite Ham]; try done.
  - by eapply Forall_impl.
  - intros k p Hk. by apply Hc, (H4 k).
Qed.

Lemma tick_steady w : alerts_wf w → steady tick (λ _ w', am w' = am w ∧ cells w' = cells w) w.
Proof.
  intros Hw. unfold steady, tick, wp. simpl. split; [by apply (wf_same w)|done].
Qed.
Lemma time_steady w : alerts_wf w → steady (time_now clock) (λ _ w', am w' = am w ∧ cells w' = cells w) w.
Proof.
  intros Hw. eapply steady_bind; [by apply tick_steady|]. intros k w1 Ha Hs.
  apply steady_ret; [apply Ha|done].
Qed.
Lemma uuid_steady w : alerts_wf w → steady (short_uuid uuid) (λ _ w', am w' = am w ∧ cells w' = cells w) w.
Proof.
  intros Hw. eapply steady_bind; [by apply tick_steady|]. intros k w1 Ha Hs.
  apply steady_ret; [apply Ha|done].
Qed.

Lemma cell_steady w p :
  alerts_wf w → has_cell w p → steady (cell p) (λ a w', cells w !! p = Some a ∧ w' = w) w.
Proof.
  intros Hw [a Ha]. unfold steady, cell, wp, gets, mbind, M_bind. rewrite Ha. simpl.
  split; [by apply after_refl|done].
Qed.

Lemma on_cell_steady w p f :
  alerts_wf w → has_cell w p → steady (on_cell p f) (λ _ w', am w' = am w ∧ cells w' = alter f p (cells w)) w.
Proof.
  intros Hw Hp. eapply steady_bind; [by apply cell_steady|]. intros a w1 Ha [_ ->].
  apply wp_modify. split; [|done]. apply (wf_same w); [done| |done].
  intros q [b Hb]. unfold has_cell. simpl. destruct (decide (q = p)) as [->|].
  - rewrite lookup_alter_eq, Hb. by eexists.
  - rewrite lookup_alter_ne by done. by rewrite Hb.
Qed.

Lemma new_array_steady w l :
  alerts_wf w →
  steady (new_array l)
    (λ ps w', am w' = am w ∧ length ps = length l ∧ Forall (has_cell w') ps
              ∧ (∀ p, has_cell w p → cells w' !! p = cells w !! p)
              ∧ Forall2 (λ p a, cells w' !! p = Some a) ps l) w.
Proof.
  revert w. induction l as [|a l IH]; intros w Hw; simpl.
  { apply steady_ret; [done|]. split_and!; done. }
  set (p := fresh (dom (cells w))).
  assert (cells w !! p = None) as Hp by apply not_elem_of_dom, is_fresh.
  set (w1 := mkAlertWorld (am w) (<[p := a]> (cells w)) (adisk w) (ticks w)).
  assert (after w w1) as Hw1.
  { apply (wf_same w); [done| |done]. intros q [b Hb]. unfold has_cell. simpl.
    destruct (decide (q = p)) as [->|]; [by rewrite lookup_insert_eq|]. rewrite lookup_insert_ne by done. by rewrite Hb. }
  apply (steady_bind _ _ (λ q w', q = p ∧ w' = w1)); [by split|].
  intros q w' _ [-> ->]. eapply steady_bind; [by apply IH, Hw1|].
  intros ps w2 Ha (Ham & Hlen & Hps & Hold & Hvals). apply steady_ret; [apply Ha|].
  assert (cells w2 !! p = Some a) as Hpa.
  { rewrite Hold; [simpl; by rewrite lookup_insert_eq|]. unfold has_cell. simpl. by rewrite lookup_insert_eq. }
  split_and!; simpl; [by rewrite Ham|by rewrite Hlen| | |].
  - constructor; [by eexists|done].
  - intros r Hr. rewrite Hold by (by apply Hw1). simpl. apply lookup_insert_ne. intros ->.
    destruct Hr. congruence.
  - by constructor.
Qed.

Lemma contents_steady w l :
  alerts_wf w → Forall (has_cell w) l →
  steady (contents l) (λ log w', Forall2 (λ p a, cells w !! p = Some a) l log ∧ w' = w) w.
Proof.
  intros Hw. induction 1 as [|p l Hp Hl IH]; simpl; [by apply steady_ret|].
  eapply steady_bind; [by apply cell_steady|]. intros a w1 _ [Ha ->].
  eapply steady_bind; [exact IH|]. intros log w1 _ [Hlog ->]. apply steady_ret; [done|]. split; [by constructor|done].
Qed.

(** The log as a list of alerts. *)
Definition log_is w (log : list Alert) : Prop :=
  Forall2 (λ p a, cells w !! p = Some a) (amAlerts (am w)) log.

Lemma log_exists w : alerts_wf w → ∃ log, log_is w log.
Proof.
  intros [_ _ Hl _]. unfold log_is. induction Hl as [|p l [a Ha] Hl [log IH]]; [by exists []|].
  exists (a :: log). by constructor.
Qed.

Lemma set_alerts_after w ps :
  alerts_wf w → Forall (has_cell w) ps → Z.of_nat (length ps) ≤ amCapacity (am w) →
  after w (set_alerts ps w).1.
Proof. intros [H1 H2 H3 H4] Hps Hlen. split; [by split|by split]. Qed.

(** A new alert in front, the rest copied; the old cells are left alone. *)
Lemma create_steady w log sev ty title msg nid nname user :
  alerts_wf w → log_is w log →
  steady (createAlertLocked clock uuid sev ty title msg nid nname user)
    (λ p w', activeConditions (am w') = activeConditions (am w)
       ∧ (∀ q, has_cell w q → cells w' !! q = cells w !! q)
       ∧ ∃ id t, let a := mkAlert id t sev ty title msg nid nname user false 0 in
           cells w' !! p = Some a ∧ log_is w' (take (Z.to_nat (amCapacity (am w))) (a :: log))) w.
Proof.
  intros Hw Hlog. unfold createAlertLocked.
  eapply steady_bind; [by apply uuid_steady|]. intros id w1 Ha1 [Ham1 Hc1].
  eapply steady_bind; [apply time_steady, Ha1|]. intros t w2 Ha2 [Ham2 Hc2]. cbv zeta.
  pose proof Ha2 as (Hw2 & _).
  eapply steady_bind; [by apply steady_gets|]. intros old w3 _ [-> ->].
  eapply steady_bind; [apply contents_steady; [done|apply Hw2]|]. intros log' w3 _ [Hlog' ->].
  assert (log' = log) as ->.
  { unfold log_is in Hlog. rewrite Ham2, Ham1, Hc2, Hc1 in Hlog'. clear -Hlog Hlog'. revert log Hlog.
    induction Hlog' as [|p a ps log' Hp Hps IH]; intros log Hlog; inversion Hlog as [|? b ? log2 Hb Hl]; subst; [done|].
    f_equal; [congruence|by apply IH]. }
  set (a := mkAlert _ t sev ty title msg nid nname user false 0).
  eapply steady_bind; [by apply new_array_steady|]. intros ps w3 Ha3 (Ham3 & Hlen & Hps & Hold & Hvals).
  pose proof Ha3 as (Hw3 & _).
  eapply steady_bind; [by apply steady_gets|]. intros cap w4 _ [-> ->].
  set (ps' := if amCapacity (am w3) <? Z.of_nat (length ps) then take (Z.to_nat (amCapacity (am w3))) ps else ps).
  assert (ps' = take (Z.to_nat (amCapacity (am w3))) ps) as Hps'.
  { unfold ps'. destruct (Z.ltb_spec (amCapacity (am w3)) (Z.of_nat (length ps))); [done|].
    rewrite take_ge; [done|lia]. }
  pose proof (aw_cap _ Hw3) as Hcap.
  assert (after w3 (set_alerts ps' w3).1) as Ha4.
  { apply set_alerts_after; [done| |]; rewrite Hps'; [by apply Forall_take|]. rewrite length_take. lia. }
  apply (steady_bind _ _ (λ _ w', w' = (set_alerts ps' w3).1)); [by split|].
  intros [] w4 _ ->. pose proof Ha4 as (Hw4 & _).
  eapply steady_bind; [by apply steady_gets|]. intros l w4 _ [-> ->]. simpl.
  assert (amCapacity (am w3) = amCapacity (am w)) as Hc by (rewrite Ham3, Ham2, Ham1; done).
  inversion Hvals as [|p ? ps0 ? Hp Hrest Heq]; subst ps.
  assert (ps' = p :: take (pred (Z.to_nat (amCapacity (am w3)))) ps0) as Hcons.
  { rewrite Hps'. destruct (Z.to_nat (amCapacity (am w3))) eqn:Hz; [lia|done]. }
  clearbody ps'. destruct ps' as [|q ps1]; [done|]. injection Hcons as -> _.
  apply steady_ret; [exact Hw4|]. split_and!.
  - simpl. by rewrite Ham3, Ham2, Ham1.
  - intros q Hq. simpl. rewrite Hold, Hc2, Hc1; [done|]. by apply Ha2, Ha1.
  - eexists _, t. split; [exact Hp|]. unfold log_is. simpl. rewrite Hps', Hc.
    by apply Forall2_take.
Qed.

Lemma save_steady w :
  alerts_wf w → steady save (λ _ w', am w' = am w ∧ cells w' = cells w) w.
Proof.
  intros Hw. unfold save. eapply steady_bind; [by apply steady_gets|]. intros path w1 _ [-> ->].
  case_decide as Hp; [by apply steady_ret|].
  assert (∀ d, after w (mkAlertWorld (am w) (cells w) d (ticks w))) as Hd by (intros d; by apply (wf_same w)).
  assert (∃ d r, saveLocked w = (mkAlertWorld (am w) (cells w) d (ticks w), r) ∧ ∀ y, r ≠ Panic y)
    as (d & r & Hrun & Hr).
  { unfold saveLocked, the, gets, mbind at 1, M_bind at 1. rewrite decide_False by done.
    unfold on_adisk, mbind, M_bind. destruct (os_MkdirAll _ (adisk w)) as [d0 [e|[]]]; [by eexists _, _|].
    destruct (log_exists w Hw) as [log Hlog].
    assert (∀ l lg w1, cells w1 = cells w → Forall2 (λ p a, cells w !! p = Some a) l lg →
              contents l w1 = (w1, Ok lg)) as Hcont.
    { intros l lg w1 Hc. induction 1 as [|p a l lg Hpa Hl IH]; [done|]. simpl.
      unfold cell, gets, mbind, M_bind. rewrite Hc, Hpa. simpl. by rewrite IH. }
    simpl. rewrite (Hcont (amAlerts (am w)) log) by done. simpl.
    destruct (os_WriteFile _ _ d0) as [d1 [e|[]]]; [by eexists _, _|]. simpl.
    destruct (os_Rename _ _ d1) as [d2 [e|[]]]; by eexists _, _. }
  unfold steady, wp, ignore. rewrite Hrun. destruct r as [| |y]; [done|done|by destruct (Hr y)].
Qed.

Lemma on_conditions_steady w g :
  alerts_wf w → (∀ k p, g (activeConditions (am w)) !! k = Some p → has_cell w p) →
  steady (on_conditions g) (λ _ w', amAlerts (am w') = amAlerts (am w) ∧ cells w' = cells w
                                    ∧ activeConditions (am w') = g (activeConditions (am w))) w.
Proof. intros [H1 H2 H3 H4] Hg. split; [|done]. split; [by split|by split]. Qed.

Lemma delete_condition_steady w k :
  alerts_wf w → steady (on_conditions (delete k))
    (λ _ w', amAlerts (am w') = amAlerts (am w) ∧ cells w' = cells w
             ∧ activeConditions (am w') = delete k (activeConditions (am w))) w.
Proof.
  intros Hw. apply on_conditions_steady; [done|]. intros k' p [_ Hp]%lookup_delete_Some.
  by eapply aw_active.
Qed.
Lemma insert_condition_steady w k p :
  alerts_wf w → has_cell w p → steady (on_conditions <[k := p]>)
    (λ _ w', amAlerts (am w') = amAlerts (am w) ∧ cells w' = cells w
             ∧ activeConditions (am w') = <[k := p]> (activeConditions (am w))) w.
Proof.
  intros Hw Hp. apply on_conditions_steady; [done|].
  intros k' q [[_ <-]|[_ Hq]]%lookup_insert_Some; [done|]. by eapply aw_active.
Qed.

(** ** Every operation runs to its end *)

Definition calm {A} (m : M (AlertWorld D) A) : Prop := ∀ w, alerts_wf w → steady m (λ _ _, True) w.

Lemma calm_ret {A} (a : A) : calm (mret a).
Proof. intros w Hw. by apply steady_ret. Qed.
Lemma calm_bind {A B} (m : M (AlertWorld D) A) (k : A → M (AlertWorld D) B) :
  calm m → (∀ a, calm (k a)) → calm (m ≫= k).
Proof.
  intros Hm Hk w Hw. eapply steady_bind; [by apply Hm|]. intros a w1 [Hw1 _] _. by apply Hk.
Qed.
Lemma calm_of {A} (m : M (AlertWorld D) A) Q : (∀ w, alerts_wf w → steady m (Q w) w) → calm m.
Proof. intros Hm w Hw. by eapply steady_mono; [apply Hm|]. Qed.
Lemma calm_save : calm save.
Proof. eapply calm_of. apply save_steady. Qed.
Lemma calm_time : calm (time_now clock).
Proof. eapply calm_of. apply time_steady. Qed.

Lemma active_steady w key :
  alerts_wf w → steady (active key) (λ o w', o = activeConditions (am w) !! key ∧ w' = w) w.
Proof. intros Hw. exact (steady_gets (λ w, activeConditions (am w) !! key) w Hw). Qed.

Lemma calm_clear key now : calm (clear_condition key now).
Proof.
  intros w Hw. unfold clear_condition. eapply steady_bind; [by apply active_steady|].
  intros o w1 _ [-> ->]. destruct (activeConditions (am w) !! key) as [p|] eqn:Hp; [|by apply steady_ret].
  eapply steady_bind; [apply on_cell_steady; [done|by eapply aw_active]|].
  intros [] w1 [Hw1 _] _. eapply steady_mono; [by apply delete_condition_steady|done].
Qed.

Lemma calm_create_then sev ty title msg nid nname user (k : positive → M (AlertWorld D) unit) w :
  alerts_wf w →
  (∀ p w1, alerts_wf w1 → has_cell w1 p → activeConditions (am w1) = activeConditions (am w) →
     steady (k p) (λ _ _, True) w1) →
  steady (p ← createAlertLocked clock uuid sev ty title msg nid nname user; k p) (λ _ _, True) w.
Proof.
  intros Hw Hk. destruct (log_exists w Hw) as [log Hlog].
  eapply steady_bind; [by eapply create_steady|]. intros p w1 [Hw1 _] (Hact & _ & id & t & Hp & _).
  apply Hk; [done|by eexists|done].
Qed.

Lemma calm_raise key sev ty title msg n now : calm (raise_condition clock uuid key sev ty title msg n now).
Proof.
  intros w Hw. unfold raise_condition. eapply steady_bind; [by apply active_steady|].
  intros o w1 _ [-> ->]. set (o := activeConditions (am w) !! key).
  assert (∀ p, o = Some p → has_cell w p) as Hcell by (intros p Hp; by eapply aw_active).
  apply (steady_bind _ _ (λ _ w', w' = w)).
  { destruct o as [p|]; [|by apply steady_ret].
    eapply steady_bind; [apply cell_steady; [done|by apply Hcell]|]. intros a w1 _ [_ ->]. by apply steady_ret. }
  intros again w1 _ ->. destruct again; [|by apply steady_ret].
  apply (steady_bind _ _ (λ _ _, True)).
  { destruct o as [p|]; [|by apply steady_ret].
    eapply steady_mono; [apply on_cell_steady; [done|by apply Hcell]|done]. }
  intros [] w1 [Hw1 _] _. apply calm_create_then; [done|]. intros p w2 Hw2 Hp _.
  eapply steady_mono; [by apply insert_condition_steady|done].
Qed.

Lemma calm_level key level ty msg n now : calm (check_level clock uuid key level ty msg n now).
Proof. destruct level as [[sev title]|]; [apply calm_raise|apply calm_clear]. Qed.

(** A recovery or restart alert is created resolved. *)
Lemma calm_resolved sev ty title msg nid nname user now :
  calm (p ← createAlertLocked clock uuid sev ty title msg nid nname user; on_cell p (resolve now)).
Proof.
  intros w Hw. apply calm_create_then; [done|]. intros p w1 Hw1 Hp _.
  eapply steady_mono; [by apply on_cell_steady|done].
Qed.

Lemma calm_offline n now : calm (check_offline clock uuid n now).
Proof.
  intros w Hw. unfold check_offline. cbv zeta. eapply steady_bind; [by apply active_steady|].
  intros o w1 _ [-> ->]. destruct (activeConditions (am w) !! _) as [p|] eqn:Hp; case_decide.
  - by apply steady_ret.
  - eapply steady_bind; [apply on_cell_steady; [done|by eapply aw_active]|]. intros [] w1 [Hw1 _] _.
    eapply steady_bind; [by apply delete_condition_steady|]. intros [] w2 [Hw2 _] _.
    by apply calm_resolved.
  - apply calm_create_then; [done|]. intros p w1 Hw1 Hc _.
    eapply steady_mono; [by apply insert_condition_steady|done].
  - by apply steady_ret.
Qed.

Lemma calm_metrics n m prev now : calm (check_metrics clock uuid n m prev now).
Proof.
  unfold check_metrics. cbv zeta.
  apply calm_bind; [apply calm_level|intros []]. apply calm_bind; [apply calm_level|intros []].
  apply calm_bind; [apply calm_level|intros []]. case_match; [apply calm_resolved|apply calm_ret].
Qed.

Lemma calm_CheckNodeHealth node seen prev : calm (CheckNodeHealth clock uuid node seen prev).
Proof.
  destruct node as [n|]; [|apply calm_ret]. apply calm_bind; [apply calm_time|intros now].
  apply calm_bind; [apply calm_offline|intros []]. apply calm_bind; [|intros []; apply calm_save].
  destruct (nMetrics n) as [m|]; [|apply calm_ret]. case_decide; [apply calm_ret|apply calm_metrics].
Qed.

Lemma calm_CheckUserQuota user used quota home label : calm (CheckUserQuota clock uuid user used quota home label).
Proof.
  unfold CheckUserQuota. case_decide; [apply calm_ret|]. apply calm_bind; [apply calm_time|intros now].
  cbv zeta. intros w Hw. eapply steady_bind; [by apply active_steady|]. intros o w1 _ [-> ->].
  destruct (quota <=? used), (activeConditions (am w) !! _) eqn:Hp; try by apply steady_ret.
  - apply calm_create_then; [done|]. intros p w1 Hw1 Hc _.
    eapply steady_bind; [by apply insert_condition_steady|]. intros [] w2 [Hw2 _] _. by apply calm_save.
  - apply calm_bind; [apply calm_clear|intros []; apply calm_save|done].
Qed.

Lemma calm_for_each {A} (l : list A) (f : A → M (AlertWorld D) unit) (Q : A → AlertWorld D → Prop) w :
  alerts_wf w → Forall (λ a, Q a w) l →
  (∀ a w w', after w w' → Q a w → Q a w') →
  (∀ a w, alerts_wf w → Q a w → steady (f a) (λ _ _, True) w) →
  steady (for_each l f) (λ _ _, True) w.
Proof.
  intros Hw Hl Hup Hf. revert w Hw Hl. induction l as [|a l IH]; intros w Hw Hl; [by apply steady_ret|].
  inversion Hl; subst. simpl. eapply steady_bind; [by apply Hf|]. intros [] w1 Ha _. apply IH; [apply Ha|].
  eapply Forall_impl; [done|]. intros c Hc. by eapply Hup.
Qed.

Lemma calm_resolve_open now l w :
  alerts_wf w → Forall (has_cell w) l → steady (resolve_open now l) (λ _ _, True) w.
Proof.
  revert w. induction l as [|p l IH]; intros w Hw Hl; [by apply steady_ret|]. inversion Hl; subst.
  simpl. eapply steady_bind; [by apply cell_steady|]. intros a w1 _ [_ ->].
  destruct (alResolved a); [by apply IH|].
  eapply steady_bind; [by apply on_cell_steady|]. intros [] w1 (Hw1 & Hup & _) _.
  eapply steady_bind; [apply IH; [done|by eapply Forall_impl]|]. intros n w2 [Hw2 _] _. by apply steady_ret.
Qed.

Lemma calm_ResolveAll : calm (ResolveAll clock).
Proof.
  intros w Hw. unfold ResolveAll. eapply steady_bind; [by apply time_steady|]. intros now w1 [Hw1 _] _.
  eapply steady_bind; [by apply steady_gets|]. intros l w2 _ [-> ->].
  eapply steady_bind; [apply calm_resolve_open; [done|apply Hw1]|]. intros n w2 [Hw2 _] _.
  eapply steady_bind; [by apply on_conditions_steady|]. intros [] w3 [Hw3 _] _.
  apply (calm_bind (if 0 <? n then save else mret tt) (λ _, mret n)); [|intros _; apply calm_ret|done].
  destruct (0 <? n); [apply calm_save|apply calm_ret].
Qed.

Lemma list_find_at {A} (P : A → Prop) `{∀ a, Decision (P a)} l i a : list_find P l = Some (i, a) → l !! i = Some a.
Proof. by intros (? & _)%list_find_Some. Qed.

Lemma calm_ResolveAlert id : calm (ResolveAlert clock id).
Proof.
  intros w Hw. unfold ResolveAlert. eapply steady_bind; [by apply time_steady|]. intros now w1 [Hw1 _] _.
  eapply steady_bind; [by apply steady_gets|]. intros l w2 _ [-> ->].
  eapply steady_bind; [apply contents_steady; [done|apply Hw1]|]. intros log w2 _ [Hlog ->].
  eapply (steady_bind _ _ (λ _ _, True)).
  { destruct (list_find _ log) as [[i a]|] eqn:Hf; [|by apply steady_ret].
    apply list_find_at in Hf. destruct (Forall2_lookup_r _ _ _ _ _ Hlog Hf) as (p & Hp & Hc). rewrite Hp.
    eapply steady_bind; [apply on_cell_steady; [done|by eexists]|]. intros [] w2 [Hw2 _] _. by apply steady_ret. }
  intros found w2 [Hw2 _] _. eapply steady_bind; [by apply steady_gets|]. intros conds w3 _ [-> ->]. cbv zeta.
  eapply steady_bind.
  { apply contents_steady; [done|]. apply Forall_fmap, Forall_forall. intros [k p] Hk%elem_of_map_to_list.
    by eapply aw_active. }
  intros acts w3 _ [Hacts ->]. eapply (steady_bind _ _ (λ _ _, True)).
  { destruct (list_find _ acts) as [[i a]|]; [|by apply steady_ret].
    destruct (map_to_list _ !! i) as [[k p]|]; [|by apply steady_ret].
    eapply steady_mono; [by apply delete_condition_steady|done]. }
  intros [] w3 [Hw3 _] _.
  apply (calm_bind (if found : bool then save else mret tt) (λ _, mret found)); [|intros _; apply calm_ret|done].
  destruct found; [apply calm_save|apply calm_ret].
Qed.

Lemma log_steady {A} (f : list Alert → A) w log :
  alerts_wf w → log_is w log →
  steady (l ← the amAlerts; log ← contents l; mret (f log)) (λ a w', a = f log ∧ w' = w) w.
Proof.
  intros Hw Hlog. eapply steady_bind; [by apply steady_gets|]. intros l w1 _ [-> ->].
  eapply steady_bind; [apply contents_steady; [done|apply Hw]|]. intros log' w1 _ [Hlog' ->].
  apply steady_ret; [done|]. split; [|done]. f_equal. unfold log_is in Hlog. revert log Hlog.
  induction Hlog' as [|p a ps l' Hp Hps IH]; intros log Hlog; inversion Hlog as [|? b ? log2 Hb Hl]; subst; [done|].
  f_equal; [congruence|by apply IH].
Qed.

(** Installing the alerts read from the file. *)
Lemma install_steady loaded w :
  alerts_wf w →
  steady (
    capacity ← the amCapacity;
    let sorted := merge_sort newer loaded in
    let log := if capacity <? Z.of_nat (length sorted) then take (Z.to_nat capacity) sorted
               else sorted in
    ps ← new_array log;
    set_alerts ps ;;
    for_each ps (λ p,
      a ← cell p;
      if alResolved a then mret tt
      else match condition_of a with
           | Some k => on_conditions <[k := p]>
           | None => mret tt
           end)) (λ _ _, True) w.
Proof.
  intros Hw. eapply steady_bind; [by apply steady_gets|]. intros cap w1 _ [-> ->]. cbv zeta.
  eapply steady_bind; [by apply new_array_steady|]. intros ps w1 Ha (Ham & Hlen & Hps & _ & _).
  pose proof Ha as (Hw1 & _). eapply (steady_bind _ _ (λ _ w', w' = (set_alerts ps w1).1)).
  { split; [|done]. apply set_alerts_after; [done|done|]. rewrite Hlen, Ham. pose proof (aw_cap _ Hw).
    destruct (Z.ltb_spec (amCapacity (am w)) (Z.of_nat (length (merge_sort newer loaded)))); [|lia].
    rewrite length_take. lia. }
  intros [] w2 [Hw2 Hup] ->. apply (calm_for_each _ _ (λ p w, has_cell w p)).
  - done.
  - by eapply Forall_impl.
  - intros p v v' Hv. apply Hv.
  - intros p v Hv Hp. eapply steady_bind; [by apply cell_steady|]. intros a v' _ [_ ->].
    destruct (alResolved a); [by apply steady_ret|]. destruct (condition_of a); [|by apply steady_ret].
    eapply steady_mono; [by apply insert_condition_steady|done].
Qed.

Lemma load_wp w : alerts_wf w → wp load (λ _ w', after w w') (λ _ w', after w w') w.
Proof.
  intros Hw. pose proof (after_refl _ Hw) as Hr. unfold load. apply wp_bind, wp_gets, wp_bind, wp_gets.
  destruct (os_ReadFile _ _) as [e|b]; [destruct (os_IsNotExist e); [by apply wp_ret|exact Hr]|].
  destruct (unmarshal b) as [loaded|]; [|exact Hr].
  eapply wp_mono; [by apply install_steady| |done]. by intros a w' [Ha _].
Qed.

(** Opening a manager, whatever its file holds. *)
Lemma NewAlertManager_run capacity path (d : D) :
  ∃ w, NewAlertManager capacity path d = (w, Ok tt) ∧ alerts_wf w
    ∧ amCapacity (am w) = (if capacity <=? 0 then 500 else capacity).
Proof.
  unfold NewAlertManager. cbv zeta. set (c := if capacity <=? 0 then 500 else capacity).
  assert (0 < c) as Hc by (unfold c; destruct (Z.leb_spec capacity 0); lia).
  set (w0 := mkAlertWorld _ _ d 0).
  assert (alerts_wf w0) as Hw0 by (split; [done|simpl; lia|constructor|intros k p Hk; simplify_map_eq]).
  pose proof (load_wp _ Hw0) as Hload. unfold wp in Hload. case_decide; [by exists w0|]. unfold ignore.
  destruct (load w0) as [w [[]|e|y]]; [..|done]; simpl in Hload; exists w; destruct Hload as (Hw & _ & He);
    (split_and!; [done..|exact He]).
Qed.

(** What the console asks of the manager, beside reading it. *)
Inductive AlertOp :=
  | HealthChecked (node : option NodeState) (prevLastSeen : Z) (prevUptime : Q)
  | QuotaChecked (username : string) (used quota : Z) (homeNodeID homeNodeLabel : string)
  | AlertResolved (id : string)
  | AllResolved.
Definition apply_op (o : AlertOp) : M (AlertWorld D) unit :=
  match o with
  | HealthChecked node seen up => CheckNodeHealth clock uuid node seen up
  | QuotaChecked u used quota home label => CheckUserQuota clock uuid u used quota home label
  | AlertResolved id => _ ← ResolveAlert clock id; mret tt
  | AllResolved => _ ← ResolveAll clock; mret tt
  end.

Lemma calm_op o : calm (apply_op o).
Proof.
  destruct o; simpl; [apply calm_CheckNodeHealth|apply calm_CheckUserQuota| |];
    (apply calm_bind; [|intros; apply calm_ret]); [apply calm_ResolveAlert|apply calm_ResolveAll].
Qed.
Lemma calm_ops ops : calm (for_each ops apply_op).
Proof.
  intros w Hw. apply (calm_for_each _ _ (λ _ _, True)); [done|by apply Forall_forall|done|].
  intros o w1 Hw1 _. by apply calm_op.
Qed.
Lemma steady_ok {A} (m : M (AlertWorld D) A) Q w :
  steady m Q w → ∃ a w', m w = (w', Ok a) ∧ after w w' ∧ Q a w'.
Proof.
  unfold steady, wp. destruct (m w) as [w' [a|e|y]]; [|done..]. intros [Ha HQ]. by exists a, w'.
Qed.
(** A node that is offline and known to be so raises nothing. *)
Lemma offline_again w log n p seen up :
  alerts_wf w → log_is w log → nStatus n = StatusOffline →
  activeConditions (am w) !! ("node_offline:" +:+ nFsID n) = Some p →
  steady (CheckNodeHealth clock uuid (Some n) seen up) (λ _ w', log_is w' log ∧ am w' = am w) w.
Proof.
  intros Hw Hlog Hoff Hp. unfold CheckNodeHealth. eapply steady_bind; [by apply time_steady|].
  intros now w1 [Hw1 _] [Ham Hc]. eapply (steady_bind _ _ (λ _ w', am w' = am w ∧ cells w' = cells w)).
  { unfold check_offline. cbv zeta. eapply steady_bind; [by apply active_steady|]. intros o w2 _ [-> ->].
    rewrite Ham, Hp, decide_True by done. by apply steady_ret. }
  intros [] w2 [Hw2 _] [Ham2 Hc2]. eapply (steady_bind _ _ (λ _ w', w' = w2)).
  { destruct (nMetrics n); [rewrite decide_True by done|]; by apply steady_ret. }
  intros [] w3 _ ->. eapply steady_mono; [by apply save_steady|]. intros [] w3 [Ham3 Hc3].
  unfold log_is. by rewrite Ham3, Ham2, Hc3, Hc2.
Qed.

(** The alert a node going offline leaves at the front of the log. *)
Definition offline_alert (fsid : string) (a : Alert) : Prop :=
  alType a = AlertTypeNodeOffline ∧ alSeverity a = SeverityCritical ∧ alNodeID a = fsid ∧ alResolved a = false.
Definition raised (fsid : string) w log w' : Prop :=
  ∃ a p, offline_alert fsid a ∧ log_is w' (take (Z.to_nat (amCapacity (am w))) (a :: log))
    ∧ activeConditions (am w') = <["node_offline:" +:+ fsid := p]> (activeConditions (am w)).

Lemma offline_first w log n seen up :
  alerts_wf w → log_is w log → nStatus n = StatusOffline →
  activeConditions (am w) !! ("node_offline:" +:+ nFsID n) = None →
  steady (CheckNodeHealth clock uuid (Some n) seen up) (λ _ w', raised (nFsID n) w log w') w.
Proof.
  intros Hw Hlog Hoff Hp. unfold CheckNodeHealth. eapply steady_bind; [by apply time_steady|].
  intros now w1 [Hw1 _] [Ham Hc].
  assert (log_is w1 log) as Hlog1 by (unfold log_is; by rewrite Ham, Hc).
  eapply (steady_bind _ _ (λ _ w', raised (nFsID n) w log w')).
  { unfold check_offline. cbv zeta. eapply steady_bind; [by apply active_steady|]. intros o w2 _ [-> ->].
    rewrite Ham, Hp, decide_True by done. eapply steady_bind; [by eapply create_steady|].
    intros p w2 [Hw2 _] (Hact & _ & id & t & Hcell & Hlog2). eapply steady_mono.
    { apply insert_condition_steady; [done|by eexists]. }
    intros [] w3 (Hal & Hc3 & Hact3). rewrite Hact, Ham in Hact3. rewrite Ham in Hlog2.
    unfold log_is in Hlog2. rewrite <-Hal, <-Hc3 in Hlog2. 
    eexists _, p. split; [|split; [exact Hlog2|exact Hact3]]. by repeat split. }
  intros [] w2 [Hw2 _] Hraised. eapply (steady_bind _ _ (λ _ w', w' = w2)).
  { destruct (nMetrics n); [rewrite decide_True by done|]; by apply steady_ret. }
  intros [] w3 _ ->. eapply steady_mono; [by apply save_steady|]. intros [] w3 [Ham3 Hc3].
  unfold raised, log_is. by rewrite Ham3, Hc3.
Qed.
End safety.

(** Whatever a manager finds in its file and whatever sequence of health checks,
    quota checks and resolutions it then serves, on any clock and whichever writes to
    the disk fail, no call fails or follows a pointer to nothing; the log never exceeds
    the capacity (500 when a non-positive one is asked for); and [GetAll] and [Summary]
    report exactly that log. *)
Theorem AlertManager_safe {D : Type} `{OS D, Json (list Alert)} (clock : nat → Z) (uuid : nat → string)
    capacity path (d : D) (ops : list AlertOp) :
  ∃ w log, for_each ops (apply_op clock uuid) (NewAlertManager capacity path d).1 = (w, Ok tt)
    ∧ log_is w log
    ∧ Z.of_nat (length log) ≤ (if capacity <=? 0 then 500 else capacity)
    ∧ (∀ f, GetAll f w = (w, Ok (select f 0 log)))
    ∧ Summary w = (w, Ok (foldl count_alert (mkSummary 0 0 0 0) log)).
Proof.
  destruct (NewAlertManager_run capacity path d) as (w0 & -> & Hw0 & Hcap).
  destruct (steady_ok _ _ _ (calm_ops clock uuid ops w0 Hw0)) as ([] & w & Hrun & (Hw & _ & He) & _).
  destruct (log_exists w Hw) as [log Hlog]. exists w, log. split_and!; [done|done| | |].
  - rewrite <-Hcap, <-He. rewrite <-(Forall2_length _ _ _ Hlog). apply Hw.
  - intros f. destruct (steady_ok _ _ _ (log_steady (select f 0) w log Hw Hlog)) as (a & w' & Hr & _ & -> & ->).
    exact Hr.
  - destruct (steady_ok _ _ _ (log_steady (foldl count_alert (mkSummary 0 0 0 0)) w log Hw Hlog))
      as (a & w' & Hr & _ & -> & ->). exact Hr.
Qed.

(** A node that goes offline raises exactly one alert, however often it is polled:
    the first health check that finds it offline puts one unresolved critical
    [node_offline] alert for it in front of the log, which otherwise only loses what no
    longer fits; every later check that finds it offline leaves the log alone. *)
Theorem offline_raises_once {D : Type} `{OS D, Json (list Alert)} (clock : nat → Z) (uuid : nat → string)
    (w : AlertWorld D) log n seen up (again : list (NodeState * Z * Q)) :
  alerts_wf w → log_is w log → nStatus n = StatusOffline →
  activeConditions (am w) !! ("node_offline:" +:+ nFsID n) = None →
  Forall (λ '(m, _, _), nFsID m = nFsID n ∧ nStatus m = StatusOffline) again →
  ∃ a w', for_each ((n, seen, up) :: again)
            (λ '(m, s, u), CheckNodeHealth clock uuid (Some m) s u) w = (w', Ok tt)
    ∧ offline_alert (nFsID n) a
    ∧ log_is w' (take (Z.to_nat (amCapacity (am w))) (a :: log)).
Proof.
  intros Hw Hlog Hoff Hnone Hagain. simpl.
  destruct (steady_ok _ _ _ (offline_first clock uuid w log n seen up Hw Hlog Hoff Hnone))
    as ([] & w1 & Hrun & (Hw1 & _) & a & p & Ha & Hlog1 & Hact).
  exists a.
  assert (activeConditions (am w1) !! ("node_offline:" +:+ nFsID n) = Some p) as Hp
    by (rewrite Hact; apply lookup_insert_eq).
  erewrite (bind_ok _ _ _ w1 tt) by exact Hrun. clear Hrun Hact Hnone.
  induction Hagain as [|[[m s] u] again [Hid Hm] Hagain IH] in w1, Hw1, Hlog1, Hp |- *; [by exists w1|].
  simpl. rewrite <-Hid in Hp.
  destruct (steady_ok _ _ _ (offline_again clock uuid w1 _ m p s u Hw1 Hlog1 Hm Hp))
    as ([] & w2 & Hrun & (Hw2 & _) & Hlog2 & Ham).
  erewrite (bind_ok _ _ _ w2 tt) by exact Hrun. apply IH; [done|done|]. by rewrite Ham, <-Hid.
Qed.

(** ** Two nodes *)

Definition demo_node (fsid : string) (status : NodeStatus) : NodeState :=
  mkNodeState fsid fsid 1 "" "" "10.0.0.1" "" status 0 None zero_rates (mkRingBuffer [] 0 0 0).
Definition demo_clock (k : nat) : Z := Z.of_nat k.
Definition demo_uuid (k : nat) : string := "00000000-0000".
#[export] Instance alerts_json : Json (list Alert) := countable_json (list Alert).

Lemma offline_raises_once_witness :
  let w0 := (NewAlertManager 2 "" (mkMemDisk ∅ 0 [])).1 in
  let n := demo_node "fs1" StatusOffline in
  ∃ a w', for_each [(n, 0, 0%Q); (n, 0, 0%Q); (n, 5, 7%Q)]
            (λ '(m, s, u), CheckNodeHealth demo_clock demo_uuid (Some m) s u) w0 = (w', Ok tt)
    ∧ offline_alert "fs1" a ∧ log_is w' [a].
Proof.
  cbv zeta.
  destruct (NewAlertManager_run 2 "" (mkMemDisk ∅ 0 [])) as (w0 & Hrun & Hwf & _).
  injection Hrun as <-.
  apply (offline_raises_once demo_clock demo_uuid (NewAlertManager 2 "" (mkMemDisk ∅ 0 [])).1 []
           (demo_node "fs1" StatusOffline) 0 0%Q
           [(demo_node "fs1" StatusOffline, 0, 0%Q); (demo_node "fs1" StatusOffline, 5, 7%Q)]).
  - exact Hwf.
  - constructor.
  - reflexivity.
  - reflexivity.
  - repeat constructor.
Defined.

(** The alert of a node that recovered stays open when another alert was raised
    meanwhile: the table of active conditions points into the array the log had when
    the alert was created, [createAlertLocked] copied the log to a new array since, and
    the recovery marks the old copy.  Here the first node is back online and no
    condition of it is active, yet its critical alert is still unresolved in the log,
    and nothing but an operator's request will ever resolve it. *)
Theorem recovered_alert_stays_open {D : Type} `{OS D, Json (list Alert)} (clock : nat → Z)
    (uuid : nat → string) (d : D) :
  ∃ w log a,
    for_each [HealthChecked (Some (demo_node "fs1" StatusOffline)) 0 0;
              HealthChecked (Some (demo_node "fs2" StatusOffline)) 0 0;
              HealthChecked (Some (demo_node "fs1" StatusOnline)) 0 0]
      (apply_op clock uuid) (NewAlertManager 500 "" d).1 = (w, Ok tt)
    ∧ log_is w log
    ∧ activeConditions (am w) !! "node_offline:fs1" = None
    ∧ a ∈ log ∧ offline_alert "fs1" a.
Proof.
  eexists _, _, _. split; [vm_compute; reflexivity|]. split; [|split; [vm_compute; reflexivity|]].
  - unfold log_is. vm_compute. repeat constructor.
  - split; [apply (list_elem_of_lookup_2 _ 2); reflexivity|]. by repeat split.
Qed.
