(* ===== verification/Console.v ===== *)
(** * The polling loop of the admin console

    Models [internal/admin/server.go], [poller.go] and [snapshot.go]: the table of
    nodes, which is filled from the metadata store and points to node records that are
    updated in place; the tombstones of removed nodes; the polls; the snapshot of the
    histories on the disk.  The console shares one disk between its alerts, its command
    history, its machine list and its own files, and one clock.  A poll is one step: the
    request runs before the lock is taken, everything else under it. *)
From S2P Require Import Prelude GoStd Disk Ring Node Alerts Storage Discovery.
From S2P Require Session Auth.
From Stdlib Require Import QArith.
#[global] Open Scope Z_scope.

Record AdminServer := mkAdmin {
  nodes : gmap string positive;
  users : gmap string string;
  snapshotPath : string;
  removedNodes : gmap string Z;
  removedNodesFile : string;
  loggedOrphans : gmap string string;
}.

(** The server with the node records its table points to, the alert manager with the
    disk and the clock, and the resolver, both of which may be missing. *)
Record Console (D : Type) := mkConsole {
  admin : AdminServer;
  records : gmap positive NodeState;
  alertw : AlertWorld D;
  has_alerts : bool;
  discovery : option DiscoveryResolver;
}.
Arguments mkConsole {D} admin records alertw has_alerts discovery.
Arguments admin {D} c.
Arguments records {D} c.
Arguments alertw {D} c.
Arguments has_alerts {D} c.
Arguments discovery {D} c.

Record NodeHistoryStore := mkStoreOf { hsFsID : string; hsSnapshots : list Snapshot }.
Record MetricsSnapshotFile := mkSnapshotFile {
  SavedAt : Z;
  NodeData : gmap string NodeHistoryStore;
}.

Record ClusterHistorySnapshot := mkClusterHistory {
  chTimestamp : Z;
  chWriteMbps : Q;
  chReadMbps : Q;
  chWriteIOPS : Q;
  chReadIOPS : Q;
  chActiveConnections : Z;
  chErrorRatePct : Q;
}.

(** The metrics and the snapshot a new ring is filled with. *)
Definition zero_metrics : FileserverMetrics :=
  mkMetrics 0 0 0 0 ∅ ∅ 0 0 0 0 0 0 0 0 0 0 0 [] 0 0 0 0 0 0 0 0 0 0 0 0 0 0.
Definition zero_snapshot : Snapshot := mkSnapshot 0 zero_metrics zero_rates.
Definition ring_size : Z := 720.
Definition new_ring : RingBuffer Snapshot :=
  mkRingBuffer (replicate (Z.to_nat ring_size) zero_snapshot) ring_size 0 0.

(** ** Pure parts *)

Definition deriveMetricsURL (address : string) : string :=
  match Session.SplitHostPort address with
  | None => ""
  | Some (host, portStr) =>
      match Auth.ParseInt portStr with
      | None => ""
      | Some port =>
          if (port <=? 41000) || (65535 <? port) then ""
          else "http://" +:+ host +:+ ":" +:+ pretty (port - 41000) +:+ "/metrics"
      end
  end.

Example deriveMetricsURL_ex :
  map deriveMetricsURL ["10.0.0.5:50052"; "10.0.0.5:41000"; "10.0.0.5"; "fs:x"; "[fe80::1]:50052"]
  = ["http://10.0.0.5:9052/metrics"; ""; ""; ""; "http://fe80::1:9052/metrics"].
Proof. reflexivity. Qed.

(** [computeNodeStatus] at the time [now]. *)
Definition computeNodeStatus (m : option FileserverMetrics) (lastSeen now : Z) : NodeStatus :=
  match m with
  | None => StatusOffline
  | Some m =>
      if lastSeen =? 0 then StatusOffline
      else if 30 <? now - lastSeen then StatusOffline
      else if above 95 (mDiskUsagePercent m) || above 85 (mCPUTempCelsius m) then StatusCritical
      else if above 90 (mDiskUsagePercent m) || above 75 (mCPUTempCelsius m) then StatusDegraded
      else if above 80 (mDiskUsagePercent m) || above 65 (mCPUTempCelsius m) then StatusWarning
      else StatusOnline
  end.

(** The growth of a counter, if it did not restart. *)
Definition growth (new old : Z) : Q := if old <=? new then inject_Z (new - old) else 0.
Definition MiB : Q := inject_Z (1024 * 1024).

(** The rates between the previous snapshot and new metrics. *)
Definition rates_between (prev : option Snapshot) (m : FileserverMetrics) (now : Z) : Rates :=
  match prev with
  | Some s =>
      if (sTimestamp s <? now) && (now - sTimestamp s <=? 60) then
        let old := sMetrics s in
        let deltaSec := inject_Z (now - sTimestamp s) in
        let bw := growth (mBytesWrittenTotal m) (mBytesWrittenTotal old) in
        let br := growth (mBytesReadTotal m) (mBytesReadTotal old) in
        let ow := growth (mWriteOpsTotal m) (mWriteOpsTotal old) in
        let orr := growth (mReadOpsTotal m) (mReadOpsTotal old) in
        let ops :=
          if (mWriteOpsTotal old <=? mWriteOpsTotal m) && (mReadOpsTotal old <=? mReadOpsTotal m)
          then u64 ((mWriteOpsTotal m - mWriteOpsTotal old) + (mReadOpsTotal m - mReadOpsTotal old))
          else 0 in
        let err :=
          if (0 <? ops) && (mErrorsTotal old <=? mErrorsTotal m)
          then (inject_Z (mErrorsTotal m - mErrorsTotal old) / inject_Z ops * 100)%Q
          else 0%Q in
        mkRates (bw / deltaSec) (br / deltaSec) (bw / deltaSec / MiB) (br / deltaSec / MiB)
          (ow / deltaSec) (orr / deltaSec) err
      else zero_rates
  | None => zero_rates
  end.

(** Updates of a node record. *)
Definition with_status v n :=
  mkNodeState (nFsID n) (nNodeID n) (nDisplayID n) (nDisplayName n) (nMachineName n) (nAddress n)
    (nMetricsURL n) v (nLastSeen n) (nMetrics n) (nRates n) (nHistory n).
Definition with_history v n :=
  mkNodeState (nFsID n) (nNodeID n) (nDisplayID n) (nDisplayName n) (nMachineName n) (nAddress n)
    (nMetricsURL n) (nStatus n) (nLastSeen n) (nMetrics n) (nRates n) v.
Definition with_identity nodeID displayID displayName machineName address url n :=
  mkNodeState (nFsID n) nodeID displayID displayName machineName address url
    (nStatus n) (nLastSeen n) (nMetrics n) (nRates n) (nHistory n).
Definition with_reading status lastSeen m r n :=
  mkNodeState (nFsID n) (nNodeID n) (nDisplayID n) (nDisplayName n) (nMachineName n) (nAddress n)
    (nMetricsURL n) status lastSeen m r (nHistory n).

(** The names a node is shown under, before the machine list is asked. *)
Definition display_id (numeric : Z) : Z := if numeric <? 2147483647 then numeric + 1 else 1.
Definition fs_name (id : Z) : string := "FS-" +:+ pretty id.
Definition dvfs_name (id : Z) : string := "dvfs" +:+ pretty id.
(** The number of a machine called [dvfs<n>], or 0. *)
Definition machine_number (name : string) : Z :=
  if HasPrefix name "dvfs" then Auth.Sscanf_d (drop_bytes 4 name) else 0.

Section console.
Context {D : Type} `{OS D, Json (list Alert), Json (list GistNode), Json (gmap string Z),
  Json MetricsSnapshotFile}.
(** The clock in seconds and in nanoseconds, the UUID generator and the answers of the
    network, by how often they were asked; the decoder of metrics; the order in which
    a map is ranged over. *)
Context (clock : nat → Z) (nano : nat → Z) (uuid : nat → string) (net : nat → string → Auth.reply)
  (decode_metrics : bytes → option FileserverMetrics)
  (range : ∀ A, gmap string A → list (string * A)).
Abbreviation W := (Console D).

Definition srv {A} (f : AdminServer → A) : M W A := gets (λ w, f (admin w)).
Definition on_admin (f : AdminServer → AdminServer) : M W unit :=
  modify (λ w, mkConsole (f (admin w)) (records w) (alertw w) (has_alerts w) (discovery w)).
Definition set_nodes f := on_admin (λ a,
  mkAdmin (f (nodes a)) (users a) (snapshotPath a) (removedNodes a) (removedNodesFile a) (loggedOrphans a)).
Definition set_users us orphans := on_admin (λ a,
  mkAdmin (nodes a) us (snapshotPath a) (removedNodes a) (removedNodesFile a) orphans).
Definition set_removed f := on_admin (λ a,
  mkAdmin (nodes a) (users a) (snapshotPath a) (f (removedNodes a)) (removedNodesFile a) (loggedOrphans a)).

(** A call of the alert manager, and of anything on its disk or clock. *)
Definition alerting {A} (m : M (AlertWorld D) A) : M W A := λ w,
  let '(v, r) := m (alertw w) in (mkConsole (admin w) (records w) v (has_alerts w) (discovery w), r).
Definition if_alerts (m : M (AlertWorld D) unit) : M W unit :=
  b ← gets has_alerts; if (b : bool) then alerting m else mret tt.
(** A call of the resolver, on the disk of the console. *)
Definition resolving {A} (r : DiscoveryResolver) (m : M (DiscoveryOn D) A) : M W A := λ w,
  let v := alertw w in
  let '(x, o) := m (mkDiscoveryOn r (adisk v)) in
  (mkConsole (admin w) (records w) (mkAlertWorld (am v) (cells v) (ddisk x) (ticks v)) (has_alerts w)
     (Some (resolver x)), o).

Definition node_at (p : positive) : M W NodeState :=
  o ← gets (λ w, records w !! p);
  match o with Some n => mret n | None => panic "nil pointer dereference" end.
Definition on_node (p : positive) (f : NodeState → NodeState) : M W unit :=
  node_at p ;;
  modify (λ w, mkConsole (admin w) (alter f p (records w)) (alertw w) (has_alerts w) (discovery w)).
Definition new_node (n : NodeState) : M W positive :=
  p ← gets (λ w, fresh (dom (records w)));
  modify (λ w, mkConsole (admin w) (<[p := n]> (records w)) (alertw w) (has_alerts w) (discovery w)) ;;
  mret p.
(** A call of the history of a node. *)
Definition on_ring {A} (p : positive) (m : M (RingBuffer Snapshot) A) : M W A :=
  n ← node_at p;
  let '(rb, r) := m (nHistory n) in
  on_node p (with_history rb) ;; lift r.

(** ** Tombstones *)

Definition saveRemovedNodesLocked : M W unit :=
  file ← srv removedNodesFile;
  if decide (file = "") then mret tt
  else removed ← srv removedNodes; ignore (alerting (on_adisk (os_WriteFile file (marshal removed)))).

Definition RecordNodeRemoval (fsID : string) (timestamp : Z) : M W unit :=
  set_removed <[fsID := timestamp]> ;; saveRemovedNodesLocked.

Definition isNodeRemovedLocked (fsID : string) (lastHeartbeatUnix : Z) : M W bool :=
  o ← srv (λ a, removedNodes a !! fsID);
  match o with
  | None => mret false
  | Some removalTime =>
      if removalTime <? lastHeartbeatUnix then
        set_removed (delete fsID) ;; saveRemovedNodesLocked ;; mret false
      else mret true
  end.
Definition IsNodeRemoved := isNodeRemovedLocked.

Definition loadRemovedNodes : M W unit :=
  file ← srv removedNodesFile;
  if decide (file = "") then mret tt
  else
    content ← gets (λ w, os_ReadFile file (adisk (alertw w)));
    match content with
    | inl _ => mret tt
    | inr b =>
        match unmarshal (A := gmap string Z) b with
        | Some loaded => set_removed (λ old, loaded ∪ old)
        | None => mret tt
        end
    end.

(** A node an administrator removed leaves the table with its users, and is remembered. *)
Definition forgetNode (fsID : string) : M W unit :=
  set_nodes (delete fsID) ;;
  now ← alerting (time_now clock);
  set_removed <[fsID := now]> ;;
  saveRemovedNodesLocked ;;
  on_admin (λ a, mkAdmin (nodes a) (filter (λ kv, kv.2 ≠ fsID) (users a)) (snapshotPath a) (removedNodes a)
                   (removedNodesFile a) (loggedOrphans a)).

(** ** The nodes of the store *)

(** The key of a node in the table. *)
Definition fs_id (rec : FileServerRecord) : string := pretty (NumericID rec).
Definition numeric_by_node_id (recs : list FileServerRecord) : gmap string string :=
  foldl (λ t rec, <[NodeID rec := fs_id rec]> t) ∅ recs.
(** The users of registered nodes, and those of nodes that are not. *)
Definition place_users (numeric : gmap string string) (us : list UserRecord) :
    gmap string string * gmap string string :=
  foldl (λ '(homes, orphans) u,
           match numeric !! HomeNodeID u with
           | Some n => (<[Username u := n]> homes, orphans)
           | None => (homes, <[Username u := HomeNodeID u]> orphans)
           end) (∅, ∅) us.

(** The display id, name and machine of a node. *)
Definition node_names (rec : FileServerRecord) : M W (Z * string * string) :=
  let id := display_id (NumericID rec) in
  let host := match Session.SplitHostPort (Address rec) with Some (h, _) => h | None => Address rec end in
  r ← gets discovery;
  match r with
  | None => mret (id, fs_name id, dvfs_name id)
  | Some r =>
      if decide (host = "") then mret (id, fs_name id, dvfs_name id)
      else
        k ← alerting tick;
        later ← alerting tick;
        resolved ← resolving r (ResolveServerName (net k) (nano k) (nano later) host);
        if decide (resolved ≠ "" ∧ resolved ≠ host ∧ resolved ≠ "localhost") then
          let num := machine_number resolved in
          if 0 <? num then mret (num, fs_name num, resolved) else mret (id, fs_name id, resolved)
        else mret (id, fs_name id, dvfs_name id)
  end.

(** One record of the store: unless the node is removed, its entry is made or updated. *)
Definition enter_record (rec : FileServerRecord) : M W unit :=
  removed ← isNodeRemovedLocked (fs_id rec) (LastHeartbeatUnix rec);
  if (removed : bool) then mret tt
  else
    names ← node_names rec;
    let '(id, name, machine) := names in
    let url := deriveMetricsURL (Address rec) in
    o ← srv (λ a, nodes a !! fs_id rec);
    match o with
    | Some p => on_node p (with_identity (NodeID rec) id name machine (Address rec) url)
    | None =>
        p ← new_node (mkNodeState (fs_id rec) (NodeID rec) id name machine (Address rec) url
                        StatusOffline 0 None zero_rates new_ring);
        set_nodes <[fs_id rec := p]>
    end.

(** One entry of the table: a removed node and one that left the store are dropped. *)
Definition prune_entry (present : gset string) (fsID : string) : M W unit :=
  removed ← isNodeRemovedLocked fsID 0;
  if (removed : bool) then set_nodes (delete fsID)
  else if decide (fsID ∈ present) then mret tt
  else set_nodes (delete fsID).

Definition default_quota : Z := 16 * 1024 * 1024 * 1024.
Definition quota_of (m : FileserverMetrics) (username : string) : Z :=
  match mPerUserQuota m !! username with
  | Some q => if 0 <? q then q else default_quota
  | None => default_quota
  end.
(** The quota of one user, on the metrics of its home. *)
Definition check_quota (u : string * string) : M W unit :=
  let '(username, home) := u in
  o ← srv (λ a, nodes a !! home);
  match o with
  | None => mret tt
  | Some p =>
      n ← node_at p;
      match nMetrics n with
      | None => mret tt
      | Some m =>
          alerting (CheckUserQuota clock uuid username (default 0 (mPerUserStorage m !! username))
                      (quota_of m username) (nFsID n) (nDisplayName n))
      end
  end.

(** [stored]: what the store answers, if there is one. *)
Definition refreshNodes (stored : option (error + MetaSnapshot)) : M W unit :=
  match stored with
  | None | Some (inl _) => mret tt
  | Some (inr snap) =>
      let numeric := numeric_by_node_id (FileServers snap) in
      let '(homes, orphans) := place_users numeric (Users snap) in
      set_users homes orphans ;;
      for_each (FileServers snap) enter_record ;;
      table ← srv nodes;
      let present : gset string := list_to_set (map fs_id (FileServers snap)) in
      for_each (range _ table).*1 (prune_entry present) ;;
      b ← gets has_alerts;
      if (b : bool) then us ← srv users; for_each (range _ us) check_quota else mret tt
  end.

(** ** Polls *)

Definition updateNodeFailure (p : positive) : M W unit :=
  n ← node_at p;
  now ← alerting (time_now clock);
  on_node p (with_reading (computeNodeStatus (nMetrics n) (nLastSeen n) now) (nLastSeen n) (nMetrics n) zero_rates) ;;
  n' ← node_at p;
  if_alerts (CheckNodeHealth clock uuid (Some n') (nLastSeen n) 0).

(** New metrics, at the time [now]. *)
Definition take_metrics (p : positive) (m : FileserverMetrics) (now : Z) : M W unit :=
  prev ← on_ring p Ring.GetLast;
  let r := rates_between prev m now in
  n ← node_at p;
  let prevUptime := match nMetrics n with Some old => mUptimeSeconds old | None => 0%Q end in
  later ← alerting (time_now clock);
  on_node p (with_reading (computeNodeStatus (Some m) now later) now (Some m) r) ;;
  on_ring p (Ring.Push (mkSnapshot now m r)) ;;
  n' ← node_at p;
  if_alerts (CheckNodeHealth clock uuid (Some n') (nLastSeen n) prevUptime).

(** The metrics of an answer of the node. *)
Definition scraped (answer : Auth.reply) : option FileserverMetrics :=
  match answer with
  | Auth.Reply status (inr b) => if status =? 200 then decode_metrics b else None
  | _ => None
  end.
Definition pollNode (p : positive) : M W unit :=
  n ← node_at p;
  if decide (nMetricsURL n = "") then on_node p (with_status StatusOffline)
  else
    k ← alerting tick;
    match scraped (net k (nMetricsURL n)) with
    | None => updateNodeFailure p
    | Some m => now ← alerting (time_now clock); take_metrics p m now
    end.
(** The polls run concurrently, each under the lock: any order of the nodes. *)
Definition pollAllNodes : M W unit := table ← srv nodes; for_each (range _ table).*2 pollNode.

(** ** Histories on the disk *)

Definition wrap_err {A} (fmt : string) (m : M W A) : M W A := λ w,
  match m w with (w', Err e) => (w', Err (Wrapf fmt [] e)) | x => x end.

(** The histories that are not empty. *)
Fixpoint histories (table : list (string * positive)) : M W (gmap string NodeHistoryStore) :=
  match table with
  | [] => mret ∅
  | (id, p) :: table =>
      snaps ← on_ring p Ring.GetAll;
      rest ← histories table;
      mret (match snaps with [] => rest | _ => <[id := mkStoreOf id snaps]> rest end)
  end.
Definition SaveMetricsSnapshot (filePath : string) : M W unit :=
  if decide (filePath = "") then mret tt
  else
    now ← alerting (time_now clock);
    table ← srv nodes;
    data ← histories (range _ table);
    wrap_err "failed to create directory for snapshot: %w" (alerting (on_adisk (os_MkdirAll (Dir filePath)))) ;;
    wrap_err "failed to write metrics snapshot tmp file: %w"
      (alerting (on_adisk (os_WriteFile (filePath +:+ ".tmp") (marshal (mkSnapshotFile now data))))) ;;
    wrap_err "failed to rename metrics snapshot: %w"
      (alerting (on_adisk (os_Rename (filePath +:+ ".tmp") filePath))).

(** [LoadMetricsSnapshot] restores these fields of the last snapshot only. *)
Definition restored_rates (r : Rates) (last : Rates) : Rates :=
  mkRates (rWriteThroughputBps r) (rReadThroughputBps r) (rWriteMbps last) (rReadMbps last)
    (rWriteIOPS last) (rReadIOPS last) (rErrorRatePct last).
(** The entry a history goes to. *)
Definition restore_target (id : string) : M W positive :=
  o ← srv (λ a, nodes a !! id);
  match o with
  | Some p => mret p
  | None =>
      p ← new_node (mkNodeState id "" 0 "" "" "" "" StatusOffline 0 None zero_rates new_ring);
      set_nodes <[id := p]> ;; mret p
  end.
Definition restore_node (entry : string * NodeHistoryStore) : M W unit :=
  let '(id, stored) := entry in
  p ← restore_target id;
  for_each (hsSnapshots stored) (λ s, on_ring p (Ring.Push s)) ;;
  match last (hsSnapshots stored) with
  | None => mret tt
  | Some s =>
      on_node p (λ n, with_reading (nStatus n) (sTimestamp s) (Some (sMetrics s))
                        (restored_rates (nRates n) (sRates s)) n)
  end.
Definition LoadMetricsSnapshot (filePath : string) : M W unit :=
  if decide (filePath = "") then mret tt
  else
    content ← gets (λ w, os_ReadFile filePath (adisk (alertw w)));
    match content with
    | inl e => if os_IsNotExist e then mret tt else throw (Wrapf "failed to read snapshot file: %w" [] e)
    | inr b =>
        match unmarshal (A := MetricsSnapshotFile) b with
        | None => throw (Errorf "failed to parse metrics snapshot file" [])
        | Some file => for_each (range _ (NodeData file)) restore_node
        end
    end.

(** ** A new console *)

(** [hasStore]: without a store nothing is kept on the disk.  [url], [cache] and [ttl]
    configure the machine list. *)
Definition NewAdminServer (hasStore : bool) (url cache : string) (ttl : Z) (d : D) : W * res unit :=
  let path s := if hasStore then s else "" in
  let '(dw, r1) := NewDiscoveryResolver url cache ttl (nano 0) d in
  let '(aw, r2) := NewAlertManager 500 (path "./bin/admin_alerts.json") (ddisk dw) in
  let a := mkAdmin ∅ ∅ (path "./bin/admin_metrics_snapshot.json") ∅ (path "./bin/admin_removed_nodes.json") ∅ in
  (lift r1 ;; lift r2 ;; ignore (LoadMetricsSnapshot (snapshotPath a)) ;; loadRemovedNodes)
    (mkConsole a ∅ aw true (Some (resolver dw))).

(** ** The history of the cluster *)

Definition bucket_of (t : Z) : Z := Z.quot t 5 * 5.
Definition add_snapshot (t : gmap Z ClusterHistorySnapshot) (s : Snapshot) : gmap Z ClusterHistorySnapshot :=
  let b := bucket_of (sTimestamp s) in
  let e := default (mkClusterHistory b 0 0 0 0 0 0) (t !! b) in
  let r := sRates s in
  <[b := mkClusterHistory b (chWriteMbps e + rWriteMbps r) (chReadMbps e + rReadMbps r)
           (chWriteIOPS e + rWriteIOPS r) (chReadIOPS e + rReadIOPS r)
           (chActiveConnections e + mActiveConnections (sMetrics s))
           (if Qle_bool (rErrorRatePct r) (chErrorRatePct e) then chErrorRatePct e else rErrorRatePct r)]> t.
Fixpoint all_snapshots (table : list positive) : M W (list Snapshot) :=
  match table with
  | [] => mret []
  | p :: table => l ← on_ring p Ring.GetAll; rest ← all_snapshots table; mret (l ++ rest)
  end.
Definition aggregateClusterHistoryLocked : M W (list ClusterHistorySnapshot) :=
  table ← srv nodes;
  snaps ← all_snapshots (range _ table).*2;
  let buckets := foldl add_snapshot ∅ snaps in
  mret (omap (λ k, buckets !! k) (merge_sort Z.le (map_to_list buckets).*1)).
End console.
