(* ===== verification/PollSpec.v ===== *)
(** * What the polling loop does

    The console's table of nodes is the list of the metadata store without the nodes an
    administrator removed; polls and refreshes never fail, whatever the network, the disk
    and the store answer; and what a poll leaves behind on every branch. *)
From S2P Require Import Prelude GoStd Disk Ring Node Alerts Storage Discovery Console.
From S2P Require Session Auth Handler.
From Stdlib Require Import QArith.
#[global] Open Scope Z_scope.

(** Resolving a name always answers, and touches the resolver and the disk only. *)
Lemma ResolveServerName_run {D : Type} `{OS D, Json (list GistNode)} http_get now later addr (w : DiscoveryOn D) :
  ∃ w' name, ResolveServerName http_get now later addr w = (w', Ok name).
Proof.
  unfold ResolveServerName. cbv zeta. destruct (negb (is_ip _)); [by eexists _, _|].
  destruct (Handler.is_loopback_ip _); [by eexists _, _|].
  erewrite bind_ok by reflexivity. erewrite bind_ok by reflexivity.
  destruct (FetchNodes_run http_get later w) as (w1 & r & Hrun & Hr).
  assert (∀ y, r ≠ Panic y) as Hp.
  { destruct (source http_get w); [destruct Hr as [_ Hr]; destruct (_ && _)|destruct Hr as [_ Hr]];
      [destruct Hr as [e ->]|subst r|destruct Hr as [e ->]]; done. }
  destruct (mapped _), (stale now (resolver w)); try (by eexists _, _);
    (destruct r as [tbl|e|y]; [..|by destruct (Hp y)];
      erewrite bind_ok by (unfold catch; by rewrite Hrun); simpl; by eexists _, _).
Qed.

Section spec.
Context {D : Type} `{OS D, Json (list Alert), Json (list GistNode), Json (gmap string Z), Json MetricsSnapshotFile}.
Context (clock nano : nat → Z) (uuid : nat → string) (net : nat → string → Auth.reply)
  (decode_metrics : bytes → option FileserverMetrics) (range : ∀ A, gmap string A → list (string * A)).
Context (range_perm : ∀ A (m : gmap string A), range A m ≡ₚ map_to_list m).
Implicit Types (w : Console D) (n : NodeState) (p : positive) (id : string) (rec : FileServerRecord).

(** Every entry of the table points to a record of its own, with a working ring. *)
Definition node_ok id n : Prop := nFsID n = id ∧ ∃ q, rb_holds ring_size q (nHistory n).
Record console_wf w : Prop := {
  cw_alerts : alerts_wf (alertw w);
  cw_nodes id p : nodes (admin w) !! id = Some p → ∃ n, records w !! p = Some n ∧ node_ok id n;
  cw_inj id1 id2 p : nodes (admin w) !! id1 = Some p → nodes (admin w) !! id2 = Some p → id1 = id2;
}.

(** What the table says of one key, and its tombstone. *)
Definition entry_of w id : option (positive * NodeState) :=
  p ← nodes (admin w) !! id; n ← records w !! p; Some (p, n).
Definition tomb w id : option Z := removedNodes (admin w) !! id.

(** Nothing but alerts, the disk, the clock and the machine list changed. *)
Definition quiet w w' : Prop :=
  admin w' = admin w ∧ records w' = records w ∧ alerts_wf (alertw w') ∧ has_alerts w' = has_alerts w.

Lemma quiet_refl w : console_wf w → quiet w w.
Proof. intros Hw. split_and!; [done..|apply Hw|done]. Qed.
Lemma quiet_trans w1 w2 w3 : quiet w1 w2 → quiet w2 w3 → quiet w1 w3.
Proof. intros (Ha & Hr & _ & Hh) (Ha2 & Hr2 & Hv & Hh2). split_and!; [congruence..|done|congruence]. Qed.
Lemma quiet_wf w w' : console_wf w → quiet w w' → console_wf w'.
Proof.
  intros [Hal Hno Hin] (Ha & Hr & Hv & _). split; [done| |].
  - intros id p Hp. rewrite Ha in Hp. rewrite Hr. by apply Hno.
  - rewrite Ha. exact Hin.
Qed.

Lemma alerting_quiet {A} (m : M (AlertWorld D) A) w :
  calm m → console_wf w → ∃ w' a, alerting m w = (w', Ok a) ∧ quiet w w'.
Proof.
  intros Hm Hw. destruct (steady_ok m _ _ (Hm _ (cw_alerts _ Hw))) as (a & v & Hrun & (Hv & _) & _).
  unfold alerting. rewrite Hrun. eexists _, a. split; [reflexivity|]. by split_and!.
Qed.
Lemma if_alerts_quiet m w : calm m → console_wf w → ∃ w', if_alerts m w = (w', Ok tt) ∧ quiet w w'.
Proof.
  intros Hm Hw. unfold if_alerts. erewrite bind_ok by reflexivity.
  destruct (has_alerts w); [|by exists w; auto using quiet_refl].
  destruct (alerting_quiet m w Hm Hw) as (w' & [] & Hrun & Hq). by exists w'.
Qed.
Lemma calm_tick : calm (D := D) tick.
Proof. eapply calm_of. apply tick_steady. Qed.

Lemma disk_quiet {A} (c : OSCall D A) w :
  console_wf w → ∃ w' r, alerting (on_adisk c) w = (w', r) ∧ quiet w w' ∧ ∀ y, r ≠ Panic y.
Proof.
  intros Hw. unfold alerting, on_adisk. destruct (cw_alerts _ Hw) as [Ha1 Ha2 Ha3 Ha4].
  destruct (c (adisk (alertw w))) as [d [e|a]]; (eexists _, _; split; [reflexivity|]; split; [|done];
    split_and!; [done..| |done]; by split).
Qed.
Lemma quiet_ignore {A} (m : M (Console D) A) w w' r :
  m w = (w', r) → (∀ y, r ≠ Panic y) → ignore m w = (w', Ok tt).
Proof. intros Hm Hr. unfold ignore. rewrite Hm. destruct r as [| |y]; [done|done|by destruct (Hr y)]. Qed.

Lemma resolving_quiet {A} r (m : M (DiscoveryOn D) A) w :
  (∀ x, ∃ x' a, m x = (x', Ok a)) → console_wf w → ∃ w' a, resolving r m w = (w', Ok a) ∧ quiet w w'.
Proof.
  intros Hm Hw. unfold resolving. destruct (Hm (mkDiscoveryOn r (adisk (alertw w)))) as (x & a & ->).
  eexists _, a. split; [reflexivity|]. destruct (cw_alerts _ Hw). by split_and!.
Qed.

Lemma save_removed_quiet w : console_wf w → ∃ w', saveRemovedNodesLocked w = (w', Ok tt) ∧ quiet w w'.
Proof.
  intros Hw. unfold saveRemovedNodesLocked. erewrite bind_ok by reflexivity.
  case_decide; [by exists w; auto using quiet_refl|]. erewrite bind_ok by reflexivity.
  destruct (disk_quiet (os_WriteFile (removedNodesFile (admin w)) (marshal (removedNodes (admin w)))) w Hw)
    as (w' & r & Hrun & Hq & Hr).
  exists w'. split; [by eapply quiet_ignore|done].
Qed.

Lemma node_names_quiet rec w :
  console_wf w → ∃ w' names, node_names nano net rec w = (w', Ok names) ∧ quiet w w'.
Proof.
  intros Hw. unfold node_names. cbv zeta. erewrite bind_ok by reflexivity.
  destruct (discovery w) as [r|]; [|by eexists w, _; split; [done|by apply quiet_refl]].
  case_decide; [by eexists w, _; split; [done|by apply quiet_refl]|].
  destruct (alerting_quiet tick w calm_tick Hw) as (w1 & k & Hrun1 & Hq1). erewrite bind_ok by exact Hrun1.
  pose proof (quiet_wf _ _ Hw Hq1) as Hw1.
  destruct (alerting_quiet tick w1 calm_tick Hw1) as (w2 & l & Hrun2 & Hq2). erewrite bind_ok by exact Hrun2.
  pose proof (quiet_wf _ _ Hw1 Hq2) as Hw2.
  match goal with |- context [resolving r ?m] => destruct (resolving_quiet r m w2) as (w3 & name & Hrun3 & Hq3) end;
    [intros x; apply ResolveServerName_run|done|]. erewrite bind_ok by exact Hrun3.
  repeat case_match; (eexists w3, _; split; [reflexivity|]; by eauto using quiet_trans).
Qed.

(** ** Tombstones *)

(** The node is still removed when its last heartbeat was at [hb]. *)
Definition still_removed (hb : Z) (t : option Z) : bool :=
  match t with Some t => hb <=? t | None => false end.

Lemma isNodeRemovedLocked_run id hb w :
  console_wf w →
  ∃ w', isNodeRemovedLocked id hb w = (w', Ok (still_removed hb (tomb w id)))
    ∧ console_wf w' ∧ records w' = records w ∧ nodes (admin w') = nodes (admin w)
    ∧ users (admin w') = users (admin w) ∧ has_alerts w' = has_alerts w
    ∧ removedNodes (admin w') = (if still_removed hb (tomb w id) then removedNodes (admin w)
                                 else delete id (removedNodes (admin w))).
Proof.
  intros Hw. unfold isNodeRemovedLocked, tomb. erewrite bind_ok by reflexivity.
  destruct (removedNodes (admin w) !! id) as [t|] eqn:Ht; simpl.
  2:{ exists w. split_and!; try done. by rewrite delete_id. }
  rewrite Z.leb_antisym. destruct (Z.ltb_spec t hb); simpl; [|by exists w; split_and!].
  erewrite bind_ok by reflexivity.
  set (w1 := mkConsole _ _ (alertw w) _ _).
  assert (console_wf w1) as Hw1 by (destruct Hw; by split).
  destruct (save_removed_quiet w1 Hw1) as (w2 & Hrun & Hq). erewrite bind_ok by exact Hrun.
  pose proof (quiet_wf _ _ Hw1 Hq). destruct Hq as (Ha & Hr & _ & Hh).
  exists w2. rewrite Ha, Hr, Hh. by split_and!.
Qed.

(** ** Entering the records of the store *)

(** The record a registered node is given: the old one under its new names, or a new
    one that was never polled. *)
Definition registered rec (old : option (positive * NodeState)) (new : positive * NodeState) : Prop :=
  ∃ i name machine, match old with
  | Some (p, n) =>
      new = (p, with_identity (NodeID rec) i name machine (Address rec) (deriveMetricsURL (Address rec)) n)
  | None =>
      new.2 = mkNodeState (fs_id rec) (NodeID rec) i name machine (Address rec) (deriveMetricsURL (Address rec))
                StatusOffline 0 None zero_rates new_ring
  end.

Lemma entry_Some w id p n :
  entry_of w id = Some (p, n) ↔ nodes (admin w) !! id = Some p ∧ records w !! p = Some n.
Proof. unfold entry_of. destruct (nodes (admin w) !! id) as [q|]; simpl; [destruct (records w !! q) eqn:?; simpl|]; naive_solver. Qed.
Lemma entry_None w id : console_wf w → entry_of w id = None ↔ nodes (admin w) !! id = None.
Proof.
  intros Hw. unfold entry_of. destruct (nodes (admin w) !! id) as [p|] eqn:Hp; simpl; [|done].
  destruct (cw_nodes _ Hw _ _ Hp) as (n & -> & _). done.
Qed.
Lemma entry_same w w' id :
  nodes (admin w') = nodes (admin w) → records w' = records w → entry_of w' id = entry_of w id.
Proof. unfold entry_of. by intros -> ->. Qed.

Lemma on_node_run p f w n :
  records w !! p = Some n →
  on_node p f w = (mkConsole (admin w) (<[p := f n]> (records w)) (alertw w) (has_alerts w) (discovery w), Ok tt).
Proof.
  intros Hn. unfold on_node, node_at, gets, mbind, M_bind. rewrite Hn. unfold modify. simpl.
  do 3 f_equal. apply map_eq. intros q. destruct (decide (q = p)) as [->|]; [by rewrite lookup_alter_eq, lookup_insert_eq, Hn|by rewrite lookup_alter_ne, lookup_insert_ne].
Qed.

(** A change of one record that keeps its key and a working ring. *)
Lemma record_step id p n w :
  console_wf w → nodes (admin w) !! id = Some p → node_ok id n →
  let w' := mkConsole (admin w) (<[p := n]> (records w)) (alertw w) (has_alerts w) (discovery w) in
  console_wf w' ∧ entry_of w' id = Some (p, n) ∧ ∀ id', id' ≠ id → entry_of w' id' = entry_of w id'.
Proof.
  intros Hw Hp Hn. cbv zeta. split_and!.
  - destruct Hw as [Hal Hno Hin]. split; [done| |done]. simpl. intros id2 q Hq.
    destruct (decide (q = p)) as [->|Hne].
    + rewrite lookup_insert_eq. exists n. split; [done|]. by rewrite <-(Hin id id2 p Hp Hq).
    + rewrite lookup_insert_ne by done. by apply Hno.
  - apply entry_Some. simpl. by rewrite lookup_insert_eq.
  - intros id' Hne. unfold entry_of. simpl. destruct (nodes (admin w) !! id') as [q|] eqn:Hq; [|done]. simpl.
    rewrite lookup_insert_ne; [done|]. intros ->. apply Hne. by apply (cw_inj _ Hw _ _ q).
Qed.

(** A record entered in a new cell. *)
Lemma insert_step id n w :
  console_wf w → nodes (admin w) !! id = None → node_ok id n →
  let p := fresh (dom (records w)) in
  let w' := (set_nodes <[id := p]> (mkConsole (admin w) (<[p := n]> (records w)) (alertw w) (has_alerts w) (discovery w))).1 in
  console_wf w' ∧ entry_of w' id = Some (p, n) ∧ ∀ id', id' ≠ id → entry_of w' id' = entry_of w id'.
Proof.
  intros Hw Hid Hn. cbv zeta. set (p := fresh (dom (records w))).
  assert (records w !! p = None) as Hp by apply not_elem_of_dom, is_fresh.
  destruct Hw as [Hal Hno Hin].
  assert (∀ id q, nodes (admin w) !! id = Some q → q ≠ p) as Hold.
  { intros id2 q Hq ->. destruct (Hno _ _ Hq) as (n2 & Hn2 & _). congruence. }
  split_and!.
  - split; [done| |]; simpl.
    + intros id2 q [[<- <-]|[Hne Hq]]%lookup_insert_Some; [rewrite lookup_insert_eq; by exists n|].
      rewrite lookup_insert_ne by (intros <-; by eapply Hold). by apply Hno.
    + intros id1 id2 q [[<- <-]|[Hne Hq]]%lookup_insert_Some [[<- Hx]|[Hne2 Hq2]]%lookup_insert_Some; try done;
        [by destruct (Hold _ _ Hq2)|by destruct (Hold _ _ Hq)|by eapply Hin].
  - apply entry_Some. simpl. by rewrite !lookup_insert_eq.
  - intros id' Hne. unfold entry_of. simpl. rewrite lookup_insert_ne by done.
    destruct (nodes (admin w) !! id') as [q|] eqn:Hq; [|done]. simpl.
    rewrite lookup_insert_ne; [done|]. intros <-. by eapply Hold.
Qed.

(** What the entry of one record does: nothing to other keys. *)
Definition enters rec w w' : Prop :=
  let id := fs_id rec in
  let gone := still_removed (LastHeartbeatUnix rec) (tomb w id) in
  removedNodes (admin w') = (if gone then removedNodes (admin w) else delete id (removedNodes (admin w)))
  ∧ (if gone then entry_of w' id = entry_of w id
     else ∃ e, entry_of w' id = Some e ∧ registered rec (entry_of w id) e)
  ∧ (∀ id', id' ≠ id → entry_of w' id' = entry_of w id')
  ∧ users (admin w') = users (admin w) ∧ has_alerts w' = has_alerts w.

Lemma new_ring_ok : rb_holds ring_size [] new_ring.
Proof. split; [done|]. by apply holds_empty_data. Qed.

Lemma enter_record_run rec w :
  console_wf w → ∃ w', enter_record nano net rec w = (w', Ok tt) ∧ console_wf w' ∧ enters rec w w'.
Proof.
  intros Hw. unfold enter_record, enters. cbv zeta.
  destruct (isNodeRemovedLocked_run (fs_id rec) (LastHeartbeatUnix rec) w Hw)
    as (w1 & Hrun1 & Hw1 & Hr1 & Hn1 & Hu1 & Hh1 & Hrm1).
  erewrite bind_ok by exact Hrun1. destruct (still_removed _ _).
  { exists w1. split_and!; try done; intros; by apply entry_same. }
  destruct (node_names_quiet rec w1 Hw1) as (w2 & [[i name] machine] & Hrun2 & Hq).
  erewrite bind_ok by exact Hrun2. pose proof (quiet_wf _ _ Hw1 Hq) as Hw2. destruct Hq as (Ha2 & Hr2 & _ & Hh2).
  assert (∀ id, entry_of w2 id = entry_of w id) as He by (intros id; apply entry_same; congruence).
  erewrite bind_ok by reflexivity. destruct (nodes (admin w2) !! fs_id rec) as [p|] eqn:Hp.
  - destruct (cw_nodes _ Hw2 _ _ Hp) as (n & Hn & Hid & Hring).
    rewrite (on_node_run p _ w2 n Hn).
    set (n' := with_identity _ _ _ _ _ _ n).
    destruct (record_step (fs_id rec) p n' w2 Hw2 Hp) as (Hw3 & He3 & Ho3); [by split|].
    eexists. split; [reflexivity|]. split; [exact Hw3|]. split_and!; simpl.
    + by rewrite Ha2, Hrm1.
    + exists (p, n'). split; [exact He3|]. exists i, name, machine. rewrite <-He.
      by rewrite (proj2 (entry_Some w2 _ p n)) by done.
    + intros id' Hne. rewrite Ho3 by done. apply He.
    + by rewrite Ha2, Hu1.
    + by rewrite Hh2, Hh1.
  - unfold new_node. set (n' := mkNodeState _ _ _ _ _ _ _ _ _ _ _ _).
    destruct (insert_step (fs_id rec) n' w2 Hw2 Hp) as (Hw3 & He3 & Ho3); [split; [done|]; exists []; apply new_ring_ok|].
    eexists. split; [reflexivity|]. split; [exact Hw3|]. split_and!; simpl.
    + by rewrite Ha2, Hrm1.
    + eexists. split; [exact He3|]. exists i, name, machine. rewrite <-He.
      by rewrite (proj2 (entry_None w2 (fs_id rec) Hw2)).
    + intros id' Hne. rewrite <-He. by apply Ho3.
    + by rewrite Ha2, Hu1.
    + by rewrite Hh2, Hh1.
Qed.

(** All records of the store, each under a key of its own. *)
Lemma enter_records_run recs w :
  console_wf w → NoDup (map fs_id recs) →
  ∃ w', for_each recs (enter_record nano net) w = (w', Ok tt) ∧ console_wf w'
    ∧ users (admin w') = users (admin w) ∧ has_alerts w' = has_alerts w
    ∧ (∀ rec, rec ∈ recs →
         let gone := still_removed (LastHeartbeatUnix rec) (tomb w (fs_id rec)) in
         tomb w' (fs_id rec) = (if gone then tomb w (fs_id rec) else None)
         ∧ (if gone then entry_of w' (fs_id rec) = entry_of w (fs_id rec)
            else ∃ e, entry_of w' (fs_id rec) = Some e ∧ registered rec (entry_of w (fs_id rec)) e))
    ∧ (∀ id, id ∉ map fs_id recs → tomb w' id = tomb w id ∧ entry_of w' id = entry_of w id).
Proof.
  revert w. induction recs as [|r recs IH]; intros w Hw Hnd; simpl.
  { exists w. split_and!; try done. by intros rec ?%elem_of_nil. }
  apply NoDup_cons in Hnd as [Hr Hnd].
  destruct (enter_record_run r w Hw) as (w1 & Hrun1 & Hw1 & Hrm1 & He1 & Ho1 & Hu1 & Hh1).
  destruct (IH w1 Hw1 Hnd) as (w2 & Hrun2 & Hw2 & Hu2 & Hh2 & Hin2 & Hout2).
  assert (∀ id, id ≠ fs_id r → tomb w1 id = tomb w id) as Ht1.
  { intros id Hne. unfold tomb. rewrite Hrm1. case_match; [done|]. by rewrite lookup_delete_ne. }
  exists w2. split; [erewrite bind_ok by exact Hrun1; exact Hrun2|].
  split_and!; [done|congruence|congruence| |].
  - intros rec [->|Hin]%elem_of_cons.
    + destruct (Hout2 _ Hr) as [-> ->]. split.
      * unfold tomb at 1. rewrite Hrm1. case_match; [done|]. by rewrite lookup_delete_eq.
      * exact He1.
    + assert (fs_id rec ≠ fs_id r) as Hne.
      { intros Heq. apply Hr. rewrite <-Heq. by apply (list_elem_of_fmap_2 fs_id). }
      specialize (Hin2 rec Hin). cbv zeta in Hin2. by rewrite Ht1, Ho1 in Hin2.
  - intros id [Hne Hid]%not_elem_of_cons. destruct (Hout2 id Hid) as [-> ->]. by rewrite Ht1, Ho1.
Qed.

(** ** Pruning the table *)

Definition keeps (present : gset string) w id : bool :=
  negb (still_removed 0 (tomb w id)) && bool_decide (id ∈ present).

Lemma delete_step id w :
  console_wf w →
  let w' := (set_nodes (delete id) w).1 in
  console_wf w' ∧ entry_of w' id = None ∧ (∀ id', id' ≠ id → entry_of w' id' = entry_of w id').
Proof.
  intros [Hal Hno Hin]. cbv zeta. split_and!.
  - split; [done| |]; simpl.
    + intros id2 p [_ Hp]%lookup_delete_Some. by apply Hno.
    + intros id1 id2 p [_ Hp]%lookup_delete_Some [_ Hp2]%lookup_delete_Some. by eapply Hin.
  - unfold entry_of. simpl. by rewrite lookup_delete_eq.
  - intros id' Hne. unfold entry_of. simpl. by rewrite lookup_delete_ne.
Qed.

Definition tombs_are_times w : Prop := ∀ id t, tomb w id = Some t → 0 ≤ t.
Lemma tombs_kept id w :
  tombs_are_times w →
  (if still_removed 0 (tomb w id) then removedNodes (admin w) else delete id (removedNodes (admin w)))
  = removedNodes (admin w).
Proof.
  intros Ht. destruct (tomb w id) as [t|] eqn:Hid; simpl; [|by apply delete_id].
  by rewrite (proj2 (Z.leb_le 0 t) (Ht _ _ Hid)).
Qed.

Lemma prune_entry_run present id w :
  console_wf w → tombs_are_times w →
  ∃ w', prune_entry present id w = (w', Ok tt) ∧ console_wf w'
    ∧ removedNodes (admin w') = removedNodes (admin w) ∧ users (admin w') = users (admin w)
    ∧ has_alerts w' = has_alerts w
    ∧ entry_of w' id = (if keeps present w id then entry_of w id else None)
    ∧ (∀ id', id' ≠ id → entry_of w' id' = entry_of w id').
Proof.
  intros Hw Ht. unfold prune_entry, keeps.
  destruct (isNodeRemovedLocked_run id 0 w Hw) as (w1 & Hrun1 & Hw1 & Hr1 & Hn1 & Hu1 & Hh1 & Hrm1).
  rewrite (tombs_kept id w Ht) in Hrm1. erewrite bind_ok by exact Hrun1.
  destruct (delete_step id w1 Hw1) as (Hw2 & He2 & Ho2).
  assert (∀ id', entry_of w1 id' = entry_of w id') as He1 by (intros; by apply entry_same).
  destruct (still_removed 0 (tomb w id)); simpl.
  - eexists. split; [reflexivity|]. split_and!; [done..|]. intros id' Hne. by rewrite <-He1, <-Ho2.
  - case_decide as Hin; [rewrite bool_decide_eq_true_2 by done; exists w1; by split_and!|].
    rewrite bool_decide_eq_false_2 by done.
    eexists. split; [reflexivity|]. split_and!; [done..|]. intros id' Hne. by rewrite <-He1, <-Ho2.
Qed.

Lemma prune_all_run present l w :
  console_wf w → tombs_are_times w → NoDup l →
  ∃ w', for_each l (prune_entry present) w = (w', Ok tt) ∧ console_wf w'
    ∧ removedNodes (admin w') = removedNodes (admin w) ∧ users (admin w') = users (admin w)
    ∧ has_alerts w' = has_alerts w
    ∧ (∀ id, id ∈ l → entry_of w' id = (if keeps present w id then entry_of w id else None))
    ∧ (∀ id, id ∉ l → entry_of w' id = entry_of w id).
Proof.
  intros Hw Ht. revert w Hw Ht. induction l as [|k l IH]; intros w Hw Ht Hnd; simpl.
  { exists w. split_and!; try done. by intros id ?%elem_of_nil. }
  apply NoDup_cons in Hnd as [Hk Hnd].
  destruct (prune_entry_run present k w Hw Ht) as (w1 & Hrun1 & Hw1 & Hrm1 & Hu1 & Hh1 & He1 & Ho1).
  assert (∀ id, tomb w1 id = tomb w id) as Ht1 by (intros id; unfold tomb; by rewrite Hrm1).
  destruct (IH w1 Hw1) as (w2 & Hrun2 & Hw2 & Hrm2 & Hu2 & Hh2 & Hin2 & Hout2);
    [intros id t; rewrite Ht1; apply Ht|done|].
  exists w2. split; [erewrite bind_ok by exact Hrun1; exact Hrun2|].
  split_and!; [done|congruence..| |].
  - intros id [->|Hin]%elem_of_cons; [by rewrite Hout2, He1|].
    rewrite Hin2 by done. unfold keeps. rewrite Ht1, Ho1; [done|]. by intros ->.
  - intros id [Hne Hid]%not_elem_of_cons. by rewrite Hout2, Ho1.
Qed.

Lemma node_at_run p w n : records w !! p = Some n → node_at p w = (w, Ok n).
Proof. intros Hn. unfold node_at, gets, mbind, M_bind. by rewrite Hn. Qed.

Lemma check_quota_run u w :
  console_wf w → ∃ w', check_quota clock uuid u w = (w', Ok tt) ∧ quiet w w'.
Proof.
  intros Hw. destruct u as [username home]. unfold check_quota. erewrite bind_ok by reflexivity.
  destruct (nodes (admin w) !! home) as [p|] eqn:Hp; [|by exists w; auto using quiet_refl].
  destruct (cw_nodes _ Hw _ _ Hp) as (n & Hn & _). erewrite bind_ok by (by apply node_at_run).
  destruct (nMetrics n); [|by exists w; auto using quiet_refl].
  match goal with |- context [alerting ?m] => destruct (alerting_quiet m w) as (w' & [] & Hrun & Hq) end;
    [apply calm_CheckUserQuota|exact Hw|].
  exists w'. split; [exact Hrun|done].
Qed.
Lemma check_quotas_run l w :
  console_wf w → ∃ w', for_each l (check_quota clock uuid) w = (w', Ok tt) ∧ quiet w w'.
Proof.
  revert w. induction l as [|u l IH]; intros w Hw; simpl; [by exists w; auto using quiet_refl|].
  destruct (check_quota_run u w Hw) as (w1 & Hrun1 & Hq1).
  destruct (IH w1) as (w2 & Hrun2 & Hq2); [by eapply quiet_wf|].
  exists w2. split; [erewrite bind_ok by exact Hrun1; exact Hrun2|by eapply quiet_trans].
Qed.

(** ** A refresh *)

(** The keys of the tables of the store. *)
Definition keyed (snap : MetaSnapshot) : Prop :=
  NoDup (map fs_id (FileServers snap)) ∧ NoDup (map NodeID (FileServers snap)) ∧ NoDup (map Username (Users snap)).

Lemma fold_insert_lookup {A} (key : A → string) (val : A → string) (l : list A) k v :
  NoDup (map key l) →
  foldl (λ t a, <[key a := val a]> t) (∅ : gmap string string) l !! k = Some v ↔ ∃ a, a ∈ l ∧ key a = k ∧ val a = v.
Proof.
  induction l as [|a l IH] using rev_ind; intros Hnd; simpl.
  { split; [intros Hk; exfalso; exact (lookup_empty_Some _ _ Hk)|]. by intros (a & ?%elem_of_nil & _). }
  rewrite foldl_app, map_app in *. simpl. apply NoDup_app in Hnd as (Hnd & Hdis & _).
  rewrite lookup_insert_Some, (IH Hnd). split.
  - intros [[<- <-]|[_ (b & Hb & <- & <-)]]; [exists a|exists b]; (split; [|done]); apply elem_of_app; [right; by left|by left].
  - intros (b & [Hb|Hb%list_elem_of_singleton]%elem_of_app & <- & <-); [|subst; by left]. right. split; [|by exists b].
    intros Heq. apply (Hdis (key b)); [by apply (list_elem_of_fmap_2 key)|]. rewrite <-Heq. by left.
Qed.

Lemma place_users_lookup numeric us u v :
  NoDup (map Username us) →
  (place_users numeric us).1 !! u = Some v
  ↔ ∃ usr, usr ∈ us ∧ Username usr = u ∧ numeric !! HomeNodeID usr = Some v.
Proof.
  unfold place_users. induction us as [|a l IH] using rev_ind; intros Hnd; simpl.
  { split; [intros Hk; exfalso; exact (lookup_empty_Some _ _ Hk)|]. by intros (a & ?%elem_of_nil & _). }
  rewrite foldl_app, map_app in *. simpl. apply NoDup_app in Hnd as (Hnd & Hdis & _). specialize (IH Hnd).
  destruct (foldl _ _ l) as [homes orphans]. simpl in IH.
  destruct (numeric !! HomeNodeID a) as [n|] eqn:Hn; simpl.
  - rewrite lookup_insert_Some, IH. split.
    + intros [[<- <-]|[_ (b & Hb & <- & Hv)]]; [exists a|exists b]; (split; [|done]); apply elem_of_app; [right; by left|by left].
    + intros (b & [Hb|Hb%list_elem_of_singleton]%elem_of_app & <- & Hv); [right|left; subst; split; [done|congruence]].
      split; [|by exists b]. intros Heq. apply (Hdis (Username b)); [by apply (list_elem_of_fmap_2 Username)|].
      rewrite <-Heq. by left.
  - rewrite IH. split; [intros (b & Hb & Hv); exists b; split; [apply elem_of_app; by left|done]|].
    intros (b & [Hb|Hb%list_elem_of_singleton]%elem_of_app & Hu & Hv); [by exists b|congruence].
Qed.

Lemma homes_lookup snap u id :
  keyed snap →
  (place_users (numeric_by_node_id (FileServers snap)) (Users snap)).1 !! u = Some id
  ↔ ∃ usr rec, usr ∈ Users snap ∧ rec ∈ FileServers snap ∧ Username usr = u ∧ NodeID rec = HomeNodeID usr ∧ fs_id rec = id.
Proof.
  intros (_ & Hn & Hu). rewrite place_users_lookup by done.
  setoid_rewrite (fold_insert_lookup NodeID fs_id (FileServers snap)); [|done]. naive_solver.
Qed.

(** What a refresh makes of the node of a record. *)
Definition refreshed rec w w' : Prop :=
  let id := fs_id rec in
  if still_removed (LastHeartbeatUnix rec) (tomb w id)
  then entry_of w' id = None ∧ tomb w' id = tomb w id
  else tomb w' id = None ∧ ∃ e, entry_of w' id = Some e ∧ registered rec (entry_of w id) e.

Lemma refresh_run snap w :
  console_wf w → tombs_are_times w → keyed snap →
  ∃ w', refreshNodes clock nano uuid net range (Some (inr snap)) w = (w', Ok tt) ∧ console_wf w'
    ∧ (∀ rec, rec ∈ FileServers snap → refreshed rec w w')
    ∧ (∀ id, id ∉ map fs_id (FileServers snap) → entry_of w' id = None ∧ tomb w' id = tomb w id)
    ∧ users (admin w') = (place_users (numeric_by_node_id (FileServers snap)) (Users snap)).1
    ∧ has_alerts w' = has_alerts w.
Proof.
  intros Hw Ht Hkeys. unfold refreshNodes. destruct (place_users _ _) as [homes orphans] eqn:Hplace.
  erewrite bind_ok by reflexivity. set (w0 := mkConsole _ (records w) (alertw w) _ _).
  assert (console_wf w0) as Hw0 by (destruct Hw; by split).
  destruct (enter_records_run (FileServers snap) w0 Hw0) as (w1 & Hrun1 & Hw1 & Hu1 & Hh1 & Hin1 & Hout1); [apply Hkeys|].
  erewrite bind_ok by exact Hrun1. erewrite bind_ok by reflexivity.
  assert (tombs_are_times w1) as Ht1.
  { intros id t Hid. destruct (decide (id ∈ map fs_id (FileServers snap))) as [(rec & -> & Hrec)%list_elem_of_fmap|Hno].
    - destruct (Hin1 rec Hrec) as [Htm _]. rewrite Htm in Hid. destruct (still_removed _ _); [by apply (Ht (fs_id rec))|done].
    - destruct (Hout1 id Hno) as [Htm _]. rewrite Htm in Hid. by apply (Ht id). }
  set (l := (range positive (nodes (admin w1))).*1).
  assert (∀ id, id ∈ l ↔ is_Some (nodes (admin w1) !! id)) as Hl.
  { intros id. unfold l. rewrite range_perm, list_elem_of_fmap. split.
    - intros ([k p] & -> & Hp%elem_of_map_to_list). by exists p.
    - intros [p Hp]. exists (id, p). split; [done|]. by apply elem_of_map_to_list. }
  assert (NoDup l) as Hnd by (unfold l; rewrite range_perm; apply NoDup_fst_map_to_list).
  destruct (prune_all_run (list_to_set (map fs_id (FileServers snap))) l w1 Hw1 Ht1 Hnd)
    as (w2 & Hrun2 & Hw2 & Hrm2 & Hu2 & Hh2 & Hin2 & Hout2).
  erewrite bind_ok by exact Hrun2. erewrite bind_ok by reflexivity.
  assert (∃ w3, (if has_alerts w2 then us ← srv users; for_each (range _ us) (check_quota clock uuid)
                 else mret tt) w2 = (w3, Ok tt) ∧ quiet w2 w3) as (w3 & Hrun3 & Hq3).
  { destruct (has_alerts w2); [|by exists w2; auto using quiet_refl]. by apply check_quotas_run. }
  exists w3. split; [exact Hrun3|]. pose proof (quiet_wf _ _ Hw2 Hq3) as Hw3.
  destruct Hq3 as (Ha3 & Hr3 & _ & Hh3).
  assert (∀ id, entry_of w3 id = if keeps (list_to_set (map fs_id (FileServers snap))) w1 id then entry_of w1 id else None) as He.
  { intros id. rewrite (entry_same w2 w3 id) by congruence. destruct (decide (id ∈ l)) as [Hid|Hid]; [by apply Hin2|].
    rewrite Hout2 by done. destruct (keeps _ w1 id); [done|]. apply entry_None; [done|]. apply eq_None_not_Some. by rewrite <-Hl. }
  assert (∀ id, tomb w3 id = tomb w1 id) as Htm by (intros id; unfold tomb; by rewrite Ha3, Hrm2).
  split_and!; [done| | |by rewrite Ha3, Hu2, Hu1|by rewrite Hh3, Hh2, Hh1].
  - intros rec Hrec. destruct (Hin1 rec Hrec) as [Htm1 He1]. unfold refreshed. rewrite He, Htm, Htm1.
    unfold keeps. rewrite Htm1. rewrite (bool_decide_eq_true_2 (_ ∈ _));
      [|apply elem_of_list_to_set; by apply (list_elem_of_fmap_2 fs_id)].
    change (tomb w0) with (tomb w) in *. change (entry_of w0) with (entry_of w) in *.
    destruct (still_removed (LastHeartbeatUnix rec) (tomb w (fs_id rec))) eqn:Hgone; [|done].
    destruct (tomb w (fs_id rec)) as [t|] eqn:Htomb; [|done]. simpl.
    by rewrite (proj2 (Z.leb_le 0 t) (Ht _ _ Htomb)).
  - intros id Hid. rewrite He, Htm. unfold keeps.
    rewrite (bool_decide_eq_false_2 (_ ∈ _)) by (by rewrite elem_of_list_to_set). rewrite andb_false_r.
    split; [done|]. by destruct (Hout1 id Hid) as [-> _].
Qed.

(** ** A poll *)

Definition set_world v w : Console D := mkConsole (admin w) (records w) v (has_alerts w) (discovery w).
Definition tocked w : Console D :=
  let v := alertw w in set_world (mkAlertWorld (am v) (cells v) (adisk v) (S (ticks v))) w.
Lemma tick_run w : alerting tick w = (tocked w, Ok (ticks (alertw w))).
Proof. done. Qed.
Lemma time_run w : alerting (time_now clock) w = (tocked w, Ok (clock (ticks (alertw w)))).
Proof. done. Qed.
Lemma tocked_wf w : console_wf w → console_wf (tocked w).
Proof. intros [[Ha1 Ha2 Ha3 Ha4] Hno Hin]. by repeat split. Qed.

Lemma on_ring_run {A} p (m : M (RingBuffer Snapshot) A) w n rb a :
  records w !! p = Some n → m (nHistory n) = (rb, Ok a) →
  on_ring p m w = (mkConsole (admin w) (<[p := with_history rb n]> (records w)) (alertw w) (has_alerts w) (discovery w), Ok a).
Proof.
  intros Hn Hm. unfold on_ring. erewrite bind_ok by (by apply node_at_run). rewrite Hm.
  erewrite bind_ok by (by apply on_node_run). done.
Qed.
(** Reading the history leaves the console as it is. *)
Lemma on_ring_read {A} p (m : M (RingBuffer Snapshot) A) w n a :
  records w !! p = Some n → m (nHistory n) = (nHistory n, Ok a) → on_ring p m w = (w, Ok a).
Proof.
  intros Hn Hm. erewrite on_ring_run by done. destruct w, n. simpl in *. do 2 f_equal. by apply insert_id.
Qed.

(** What a poll makes of a node when it asks at the time [now] and judges at [later]. *)
Definition polled (answer : Auth.reply) (now later : Z) n n' : Prop :=
  if decide (nMetricsURL n = "") then n' = with_status StatusOffline n
  else match scraped decode_metrics answer with
       | None =>
           n' = with_reading (computeNodeStatus (nMetrics n) (nLastSeen n) now) (nLastSeen n) (nMetrics n) zero_rates n
       | Some m =>
           ∀ q, rb_holds ring_size q (nHistory n) →
             let r := rates_between (last q) m now in
             ∃ rb, n' = with_history rb (with_reading (computeNodeStatus (Some m) now later) now (Some m) r n)
               ∧ rb_holds ring_size (enqueue ring_size q (mkSnapshot now m r)) rb
       end.
(** One entry changed from [n] to [n']; nothing else did but alerts, disk and clock. *)
Definition node_step id p n n' w w' : Prop :=
  console_wf w' ∧ admin w' = admin w ∧ has_alerts w' = has_alerts w
  ∧ entry_of w id = Some (p, n) ∧ entry_of w' id = Some (p, n')
  ∧ (∀ id', id' ≠ id → entry_of w' id' = entry_of w id').

Lemma node_step_record id p n n' w :
  console_wf w → entry_of w id = Some (p, n) → node_ok id n' →
  node_step id p n n' w (mkConsole (admin w) (<[p := n']> (records w)) (alertw w) (has_alerts w) (discovery w)).
Proof.
  intros Hw He Hn'. pose proof (proj1 (entry_Some w id p n) He) as [Hp _].
  destruct (record_step id p n' w Hw Hp Hn') as (Hw' & He' & Ho'). by split_and!.
Qed.
Lemma node_step_quiet id p n n' w w1 w' : node_step id p n n' w w1 → quiet w1 w' → node_step id p n n' w w'.
Proof.
  intros (Hw1 & Ha1 & Hh1 & He & He1 & Ho1) Hq. pose proof (quiet_wf _ _ Hw1 Hq) as Hw'.
  destruct Hq as (Ha & Hr & _ & Hh). split_and!; [done|congruence..|done| |].
  - rewrite <-He1. apply entry_same; congruence.
  - intros id' Hne. rewrite <-Ho1 by done. apply entry_same; congruence.
Qed.
Lemma node_step_trans id p n n1 n2 w w1 w2 :
  node_step id p n n1 w w1 → node_step id p n1 n2 w1 w2 → node_step id p n n2 w w2.
Proof.
  intros (_ & Ha1 & Hh1 & He & _ & Ho1) (Hw2 & Ha2 & Hh2 & _ & He2 & Ho2).
  split_and!; [done|congruence..|done|done|]. intros id' Hne. by rewrite Ho2, Ho1.
Qed.
Lemma node_step_tocked id p n n' w w' : node_step id p n n' (tocked w) w' → node_step id p n n' w w'.
Proof. intros Hs. exact Hs. Qed.

(** The end of every poll: the alert manager sees the node as it now is. *)
Lemma health_check_run id p n n' seen up w w1 :
  node_step id p n n' w w1 →
  ∃ w', (x ← node_at p; if_alerts (CheckNodeHealth clock uuid (Some x) seen up)) w1 = (w', Ok tt)
    ∧ node_step id p n n' w w'.
Proof.
  intros Hs. pose proof Hs as (Hw1 & _ & _ & _ & He1 & _). apply entry_Some in He1 as [_ Hn'].
  erewrite bind_ok by (by apply node_at_run).
  destruct (if_alerts_quiet (CheckNodeHealth clock uuid (Some n') seen up) w1) as (w' & Hrun & Hq);
    [apply calm_CheckNodeHealth|done|].
  exists w'. split; [exact Hrun|by eapply node_step_quiet].
Qed.

Lemma updateNodeFailure_run id p n w :
  console_wf w → entry_of w id = Some (p, n) →
  ∃ w', updateNodeFailure clock uuid p w = (w', Ok tt)
    ∧ node_step id p n (with_reading (computeNodeStatus (nMetrics n) (nLastSeen n) (clock (ticks (alertw w))))
                          (nLastSeen n) (nMetrics n) zero_rates n) w w'.
Proof.
  intros Hw He. pose proof (proj1 (entry_Some w id p n) He) as [Hp Hn]. unfold updateNodeFailure.
  erewrite bind_ok by (by apply node_at_run). erewrite bind_ok by apply time_run.
  erewrite bind_ok by (by apply on_node_run).
  destruct (cw_nodes _ Hw _ _ Hp) as (n0 & Hn0 & Hok). assert (n0 = n) as -> by congruence.
  apply health_check_run, node_step_tocked, node_step_record; [by apply tocked_wf|done|exact Hok].
Qed.

Lemma take_metrics_run id p n m now w :
  console_wf w → entry_of w id = Some (p, n) →
  ∃ w' n', take_metrics clock uuid p m now w = (w', Ok tt) ∧ node_step id p n n' w w'
    ∧ ∀ q, rb_holds ring_size q (nHistory n) →
        let r := rates_between (last q) m now in
        ∃ rb, n' = with_history rb (with_reading (computeNodeStatus (Some m) now (clock (ticks (alertw w)))) now (Some m) r n)
          ∧ rb_holds ring_size (enqueue ring_size q (mkSnapshot now m r)) rb.
Proof.
  intros Hw He. pose proof (proj1 (entry_Some w id p n) He) as [Hp Hn]. unfold take_metrics.
  destruct (cw_nodes _ Hw _ _ Hp) as (n0 & Hn0 & Hid & q & Hq). assert (n0 = n) as -> by congruence.
  erewrite bind_ok by (by eapply on_ring_read; [|apply (GetLast_run ring_size q)]). cbv zeta.
  erewrite bind_ok by (by apply node_at_run). erewrite bind_ok by apply time_run.
  set (r := rates_between (last q) m now). set (s := mkSnapshot now m r).
  erewrite bind_ok by (by apply on_node_run).
  set (n1 := with_reading _ now (Some m) r n). set (w1 := mkConsole _ _ _ _ _).
  assert (node_step id p n n1 w w1) as Hs1.
  { apply node_step_tocked, node_step_record; [by apply tocked_wf|done|]. split; [done|by exists q]. }
  pose proof Hs1 as (Hw1 & _ & _ & _ & He1 & _). pose proof (proj1 (entry_Some w1 id p n1) He1) as [_ Hn1].
  destruct (Push_run ring_size q (nHistory n) s Hq) as (rb & Hpush & Hrb).
  erewrite bind_ok by (by apply (on_ring_run p (Ring.Push s) w1 n1)).
  destruct (health_check_run id p n (with_history rb n1) (nLastSeen n)
              match nMetrics n with Some old => mUptimeSeconds old | None => 0%Q end w
              (mkConsole (admin w1) (<[p := with_history rb n1]> (records w1)) (alertw w1) (has_alerts w1) (discovery w1)))
    as (w2 & Hrun2 & Hs2).
  { eapply node_step_trans; [exact Hs1|]. apply node_step_record; [done|done|]. split; [done|by eexists]. }
  exists w2, (with_history rb n1). split; [exact Hrun2|]. split; [exact Hs2|].
  intros q2 Hq2. assert (q2 = q) as ->; [|by exists rb].
  pose proof (GetAll_run ring_size q _ Hq) as H1q. rewrite (GetAll_run ring_size q2 _ Hq2) in H1q. congruence.
Qed.

Lemma pollNode_run id p n w :
  console_wf w → entry_of w id = Some (p, n) →
  let k := ticks (alertw w) in
  ∃ w' n', pollNode clock uuid net decode_metrics p w = (w', Ok tt) ∧ node_step id p n n' w w'
    ∧ polled (net k (nMetricsURL n)) (clock (S k)) (clock (S (S k))) n n'.
Proof.
  intros Hw He. cbv zeta. pose proof (proj1 (entry_Some w id p n) He) as [Hp Hn]. unfold pollNode, polled.
  destruct (cw_nodes _ Hw _ _ Hp) as (n0 & Hn0 & Hok). assert (n0 = n) as -> by congruence.
  erewrite bind_ok by (by apply node_at_run). case_decide as Hurl.
  - eexists _, _. split; [by apply on_node_run|]. split; [by apply node_step_record|done].
  - erewrite bind_ok by apply tick_run. destruct (scraped _ _) as [m|].
    + erewrite bind_ok by apply time_run.
      destruct (take_metrics_run id p n m (clock (ticks (alertw (tocked w)))) (tocked (tocked w)))
        as (w' & n' & Hrun & Hs & Hspec); [by do 2 apply tocked_wf|done|].
      exists w', n'. split; [exact Hrun|]. split; [exact Hs|exact Hspec].
    + destruct (updateNodeFailure_run id p n (tocked w)) as (w' & Hrun & Hs); [by apply tocked_wf|done|].
      eexists w', _. split; [exact Hrun|]. split; [exact Hs|done].
Qed.

(** ** All nodes, and whole runs of the console *)

Lemma pollAll_run l w :
  console_wf w → NoDup l → (∀ p, p ∈ l → ∃ id n, entry_of w id = Some (p, n)) →
  ∃ w', for_each l (pollNode clock uuid net decode_metrics) w = (w', Ok tt) ∧ console_wf w'
    ∧ admin w' = admin w ∧ has_alerts w' = has_alerts w
    ∧ ∀ id p n, entry_of w id = Some (p, n) →
        if decide (p ∈ l) then ∃ k n', entry_of w' id = Some (p, n')
          ∧ polled (net k (nMetricsURL n)) (clock (S k)) (clock (S (S k))) n n'
        else entry_of w' id = Some (p, n).
Proof.
  revert w. induction l as [|q l IH]; intros w Hw Hnd Hl; simpl.
  { exists w. by split_and!. }
  apply NoDup_cons in Hnd as [Hq Hnd].
  destruct (Hl q) as (id0 & n0 & He0); [by left|].
  destruct (pollNode_run id0 q n0 w Hw He0) as (w1 & n1 & Hrun1 & (Hw1 & Ha1 & Hh1 & _ & He1 & Ho1) & Hp1).
  assert (∀ id p n, entry_of w id = Some (p, n) → p ≠ q → entry_of w1 id = Some (p, n)) as Hkeep.
  { intros id p n He Hne. rewrite Ho1; [done|]. intros ->. congruence. }
  destruct (IH w1 Hw1 Hnd) as (w2 & Hrun2 & Hw2 & Ha2 & Hh2 & Hspec).
  { intros p Hp. destruct (Hl p) as (id & n & He); [by right|]. exists id, n. apply Hkeep; [done|by intros ->]. }
  exists w2. split; [erewrite bind_ok by exact Hrun1; exact Hrun2|]. split_and!; [done|congruence..|].
  intros id p n He. destruct (decide (p = q)) as [->|Hne].
  - rewrite decide_True by (by left).
    assert (id = id0) as ->.
    { apply entry_Some in He as [He _]. apply entry_Some in He0 as [He0 _]. by apply (cw_inj _ Hw _ _ q). }
    assert (n = n0) as -> by congruence. exists (ticks (alertw w)), n1. split; [|done].
    specialize (Hspec _ _ _ He1). by rewrite decide_False in Hspec.
  - specialize (Hspec _ _ _ (Hkeep _ _ _ He Hne)).
    destruct (decide (p ∈ l)); [rewrite decide_True by (by right); done|].
    rewrite decide_False; [done|]. by intros [|]%elem_of_cons.
Qed.

Lemma table_pointers w :
  console_wf w →
  let l := (range positive (nodes (admin w))).*2 in
  NoDup l ∧ (∀ p, p ∈ l → ∃ id n, entry_of w id = Some (p, n)) ∧ (∀ id p n, entry_of w id = Some (p, n) → p ∈ l).
Proof.
  intros Hw. cbv zeta.
  assert (∀ x, x ∈ range positive (nodes (admin w)) ↔ x ∈ map_to_list (nodes (admin w))) as Hin by (intros x; by rewrite range_perm).
  split_and!.
  - rewrite range_perm. assert (∀ m : list (string * positive), NoDup m.*1 → (∀ a b, a ∈ m → b ∈ m → a.2 = b.2 → a.1 = b.1) → NoDup m.*2) as Hgen.
    { clear. induction m as [|[k p] m IH]; intros Hnd Hinj; simpl; [constructor|].
      apply NoDup_cons in Hnd as [Hk Hnd]. apply NoDup_cons. split.
      - intros ([k2 p2] & Heq & Hin)%list_elem_of_fmap. simpl in Heq. subst p2. apply Hk.
        assert (k = k2) as -> by (apply (Hinj (k, p) (k2, p)); [by left|by right|done]).
        by apply (list_elem_of_fmap_2 fst) in Hin.
      - apply IH; [done|]. intros a b Ha Hb. apply Hinj; by right. }
    apply Hgen; [apply NoDup_fst_map_to_list|].
    intros [k1 p1] [k2 p2] H1p%elem_of_map_to_list H2p%elem_of_map_to_list. simpl. intros ->. by apply (cw_inj _ Hw _ _ p2).
  - intros p ([id q] & -> & Hp%Hin%elem_of_map_to_list)%list_elem_of_fmap.
    destruct (cw_nodes _ Hw _ _ Hp) as (n & Hn & _). exists id, n. by apply entry_Some.
  - intros id p n [He _]%entry_Some. apply elem_of_map_to_list, Hin in He. by apply (list_elem_of_fmap_2 snd) in He.
Qed.

Lemma pollAllNodes_run w :
  console_wf w →
  ∃ w', pollAllNodes clock uuid net decode_metrics range w = (w', Ok tt) ∧ console_wf w'
    ∧ admin w' = admin w ∧ has_alerts w' = has_alerts w
    ∧ ∀ id p n, entry_of w id = Some (p, n) →
        ∃ k n', entry_of w' id = Some (p, n') ∧ polled (net k (nMetricsURL n)) (clock (S k)) (clock (S (S k))) n n'.
Proof.
  intros Hw. destruct (table_pointers w Hw) as (Hnd & Hl & Hall). unfold pollAllNodes. erewrite bind_ok by reflexivity.
  destruct (pollAll_run _ w Hw Hnd Hl) as (w' & Hrun & Hw' & Ha & Hh & Hspec).
  exists w'. split_and!; [done..|]. intros id p n He. specialize (Hspec _ _ _ He).
  rewrite decide_True in Hspec by (by eapply Hall). done.
Qed.
Lemma entry_alive w w' id :
  console_wf w → console_wf w' → admin w' = admin w → entry_of w' id = None ↔ entry_of w id = None.
Proof. intros Hw Hw' Ha. by rewrite !entry_None, Ha. Qed.

(** Reading the histories leaves the console as it is. *)
Lemma histories_run l w :
  console_wf w → (∀ id p, (id, p) ∈ l → nodes (admin w) !! id = Some p) →
  ∃ data, histories l w = (w, Ok data)
    ∧ ∀ id, data !! id =
        if decide (id ∈ l.*1)
        then match entry_of w id with
             | Some (_, n) => match (Ring.GetAll (nHistory n)).2 with
                              | Ok (s :: q) => Some (mkStoreOf id (s :: q))
                              | _ => None
                              end
             | None => None
             end
        else None.
Proof.
  intros Hw. induction l as [|[k p] l IH]; intros Hl; simpl; [by exists ∅|].
  destruct IH as (data & Hrun & Hdata); [intros id q Hq; apply Hl; by right|].
  assert (nodes (admin w) !! k = Some p) as Hp by (apply Hl; by left).
  destruct (cw_nodes _ Hw _ _ Hp) as (n & Hn & _ & q & Hq).
  pose proof (GetAll_run ring_size q _ Hq) as Hget.
  erewrite bind_ok by (by apply (on_ring_read p Ring.GetAll w n q)). erewrite bind_ok by exact Hrun.
  eexists. split; [reflexivity|]. intros id. destruct (decide (id = k)) as [->|Hne].
  - rewrite decide_True by (by left). rewrite (proj2 (entry_Some w k p n)) by done. rewrite Hget. simpl.
    destruct q; [|by rewrite lookup_insert_eq]. rewrite Hdata. case_decide; [|done].
    rewrite (proj2 (entry_Some w k p n)) by done. by rewrite Hget.
  - transitivity (data !! id); [by destruct q; [|rewrite lookup_insert_ne]|]. rewrite Hdata.
    assert (id ∈ k :: l.*1 ↔ id ∈ l.*1) as Hiff by (rewrite elem_of_cons; naive_solver).
    do 2 case_decide; [done|tauto..|done].
Qed.

Lemma range_in {A} (m : gmap string A) k a : (k, a) ∈ range A m ↔ m !! k = Some a.
Proof. rewrite range_perm. apply elem_of_map_to_list. Qed.
Lemma range_keys {A} (m : gmap string A) k : k ∈ (range A m).*1 ↔ is_Some (m !! k).
Proof.
  rewrite list_elem_of_fmap. split; [intros ([k' a] & -> & Ha%range_in); by exists a|].
  intros [a Ha%range_in]. by exists (k, a).
Qed.

(** The histories of the console, by node. *)
Definition histories_of w (data : gmap string NodeHistoryStore) : Prop :=
  ∀ id, data !! id =
    match entry_of w id with
    | Some (_, n) => match (Ring.GetAll (nHistory n)).2 with
                     | Ok (s :: q) => Some (mkStoreOf id (s :: q))
                     | _ => None
                     end
    | None => None
    end.

Lemma SaveMetricsSnapshot_run path w :
  console_wf w →
  ∃ w' r, SaveMetricsSnapshot clock range path w = (w', r) ∧ quiet w w' ∧ (∀ y, r ≠ Panic y)
    ∧ (DiskLaws D → r = Ok tt → path ≠ "" →
       ∃ data, histories_of w data
         ∧ os_ReadFile path (adisk (alertw w')) = inr (marshal (mkSnapshotFile (clock (ticks (alertw w))) data))).
Proof.
  intros Hw. unfold SaveMetricsSnapshot. case_decide; [exists w; eexists; split_and!; auto using quiet_refl; done|].
  erewrite bind_ok by apply time_run. erewrite bind_ok by reflexivity.
  pose proof (tocked_wf _ Hw) as Hw0. set (w0 := tocked w) in *.
  destruct (histories_run (range positive (nodes (admin w0))) w0 Hw0) as (data & Hrun & Hdata).
  { by intros id p ?%range_in. }
  assert (histories_of w data) as Hof.
  { intros id. rewrite Hdata. change (entry_of w0 id) with (entry_of w id). case_decide as Hid; [done|].
    destruct (entry_of w id) as [[p n]|] eqn:He; [|done]. exfalso. apply Hid, range_keys. exists p.
    by apply entry_Some in He as [? _]. }
  erewrite bind_ok by exact Hrun. clear Hrun Hdata.
  assert (quiet w w0) as Hq0 by (split_and!; [done..|apply Hw0|done]).
  destruct (alertw w0) as [m c d t] eqn:Hv.
  assert (∀ d', quiet w0 (set_world (mkAlertWorld m c d' t) w0)) as Hd.
  { intros d'. destruct (cw_alerts _ Hw0) as [Hb1 Hb2 Hb3 Hb4]. rewrite Hv in *. split_and!; [done..| |done]. by split. }
  unfold wrap_err, alerting, on_adisk, mbind, M_bind. rewrite Hv. simpl.
  destruct (os_MkdirAll (Dir path) d) as [d1 [e|[]]];
    [eexists _, _; split; [reflexivity|]; split_and!; [exact (quiet_trans _ _ _ Hq0 (Hd d1))|done|done]|]. simpl.
  destruct (os_WriteFile _ _ d1) as [d2 [e|[]]] eqn:Hwr;
    [eexists _, _; split; [reflexivity|]; split_and!; [exact (quiet_trans _ _ _ Hq0 (Hd d2))|done|done]|]. simpl.
  destruct (os_Rename _ _ d2) as [d3 [e|[]]] eqn:Hren;
    (eexists _, _; split; [reflexivity|]; split_and!; [exact (quiet_trans _ _ _ Hq0 (Hd d3))|done|]); [done|].
  intros Hlaws _ _. exists data. split; [done|]. simpl. eapply read_Rename; [done|]. by apply read_WriteFile in Hwr.
Qed.

(** ** What any sequence of requests leaves *)

Inductive ConsoleOp :=
  | Refreshed (stored : option (error + MetaSnapshot))
  | Polled
  | Forgotten (fsID : string)
  | Recorded (fsID : string) (timestamp : Z)
  | Saved.
Definition console_op (o : ConsoleOp) : M (Console D) unit :=
  match o with
  | Refreshed stored => refreshNodes clock nano uuid net range stored
  | Polled => pollAllNodes clock uuid net decode_metrics range
  | Forgotten id => forgetNode clock id
  | Recorded id t => RecordNodeRemoval id t
  | Saved => path ← srv snapshotPath; ignore (SaveMetricsSnapshot clock range path)
  end.

Lemma admin_step a w :
  console_wf w → nodes a = nodes (admin w) →
  console_wf (mkConsole a (records w) (alertw w) (has_alerts w) (discovery w)).
Proof.
  intros [Hal Hno Hin] Hf. split; [done|..]; simpl; rewrite Hf; [exact Hno|exact Hin].
Qed.

Lemma RecordNodeRemoval_run id t w :
  console_wf w →
  ∃ w', RecordNodeRemoval id t w = (w', Ok tt) ∧ console_wf w' ∧ (∀ k, entry_of w' k = entry_of w k)
    ∧ removedNodes (admin w') = <[id := t]> (removedNodes (admin w)) ∧ users (admin w') = users (admin w).
Proof.
  intros Hw. unfold RecordNodeRemoval. erewrite bind_ok by reflexivity.
  set (w1 := mkConsole _ (records w) (alertw w) _ _).
  assert (console_wf w1) as Hw1 by (by apply admin_step).
  destruct (save_removed_quiet w1 Hw1) as (w2 & Hrun & Hq). exists w2. split; [exact Hrun|].
  pose proof (quiet_wf _ _ Hw1 Hq) as Hw2. destruct Hq as (Ha & Hr & _). split; [done|].
  split; [intros k; apply entry_same; [by rewrite Ha|by rewrite Hr]|by rewrite Ha].
Qed.

Lemma forgetNode_run id w :
  console_wf w →
  ∃ w', forgetNode clock id w = (w', Ok tt) ∧ console_wf w' ∧ entry_of w' id = None
    ∧ (∀ k, k ≠ id → entry_of w' k = entry_of w k)
    ∧ removedNodes (admin w') = <[id := clock (ticks (alertw w))]> (removedNodes (admin w))
    ∧ users (admin w') = filter (λ kv, kv.2 ≠ id) (users (admin w)).
Proof.
  intros Hw. unfold forgetNode. erewrite bind_ok by reflexivity.
  destruct (delete_step id w Hw) as (Hw1 & He1 & Ho1). set (w1 := (set_nodes (delete id) w).1) in *.
  erewrite bind_ok by apply time_run.
  pose proof (RecordNodeRemoval_run id (clock (ticks (alertw w1))) (tocked w1) (tocked_wf _ Hw1))
    as (w2 & Hrun2 & Hw2 & He2 & Hr2 & Hu2).
  unfold RecordNodeRemoval in Hrun2. apply bind_inv_ok in Hrun2 as (w3 & [] & Hset & Hsave).
  erewrite bind_ok by exact Hset. erewrite bind_ok by exact Hsave.
  eexists. split; [reflexivity|]. split; [by apply admin_step|]. split_and!; simpl.
  - rewrite <-He1. exact (He2 id).
  - intros k Hne. rewrite <-(Ho1 k Hne). exact (He2 k).
  - exact Hr2.
  - by rewrite Hu2.
Qed.

Lemma prune_entry_wf present id w :
  console_wf w → ∃ w', prune_entry present id w = (w', Ok tt) ∧ console_wf w'.
Proof.
  intros Hw. unfold prune_entry.
  destruct (isNodeRemovedLocked_run id 0 w Hw) as (w1 & Hrun1 & Hw1 & _). erewrite bind_ok by exact Hrun1.
  destruct (delete_step id w1 Hw1) as (Hw2 & _).
  destruct (still_removed _ _); [by eexists|]. case_decide; [by exists w1|by eexists].
Qed.

Lemma for_each_wf {A} (f : A → M (Console D) unit) l w :
  (∀ a w, console_wf w → ∃ w', f a w = (w', Ok tt) ∧ console_wf w') → console_wf w →
  ∃ w', for_each l f w = (w', Ok tt) ∧ console_wf w'.
Proof.
  intros Hf. revert w. induction l as [|a l IH]; intros w Hw; simpl; [by exists w|].
  destruct (Hf a w Hw) as (w1 & Hrun & Hw1). erewrite bind_ok by exact Hrun. by apply IH.
Qed.

Lemma refresh_wf stored w :
  console_wf w → ∃ w', refreshNodes clock nano uuid net range stored w = (w', Ok tt) ∧ console_wf w'.
Proof.
  intros Hw. unfold refreshNodes. destruct stored as [[e|snap]|]; [by exists w| |by exists w].
  destruct (place_users _ _) as [homes orphans]. erewrite bind_ok by reflexivity.
  set (w0 := mkConsole _ (records w) (alertw w) _ _). assert (console_wf w0) as Hw0 by (by apply admin_step).
  destruct (for_each_wf (enter_record nano net) (FileServers snap) w0) as (w1 & Hrun1 & Hw1); [|done|].
  { intros rec v Hv. destruct (enter_record_run rec v Hv) as (v' & Hrun & Hv' & _). by exists v'. }
  erewrite bind_ok by exact Hrun1. erewrite bind_ok by reflexivity.
  destruct (for_each_wf (prune_entry (list_to_set (map fs_id (FileServers snap)))) (range positive (nodes (admin w1))).*1 w1)
    as (w2 & Hrun2 & Hw2); [intros; by apply prune_entry_wf|done|].
  erewrite bind_ok by exact Hrun2. erewrite bind_ok by reflexivity.
  destruct (has_alerts w2); [|by exists w2]. erewrite bind_ok by reflexivity.
  destruct (check_quotas_run (range string (users (admin w2))) w2 Hw2) as (w3 & Hrun3 & Hq).
  exists w3. split; [exact Hrun3|by eapply quiet_wf].
Qed.

Lemma console_op_run o w : console_wf w → ∃ w', console_op o w = (w', Ok tt) ∧ console_wf w'.
Proof.
  intros Hw. destruct o as [stored| |id|id t|]; simpl.
  - by apply refresh_wf.
  - destruct (pollAllNodes_run w Hw) as (w' & Hrun & Hw' & _). by exists w'.
  - destruct (forgetNode_run id w Hw) as (w' & Hrun & Hw' & _). by exists w'.
  - destruct (RecordNodeRemoval_run id t w Hw) as (w' & Hrun & Hw' & _). by exists w'.
  - erewrite bind_ok by reflexivity.
    destruct (SaveMetricsSnapshot_run (snapshotPath (admin w)) w Hw) as (w' & r & Hrun & Hq & Hr & _).
    exists w'. split; [by eapply quiet_ignore|by eapply quiet_wf].
Qed.

(** ** Starting from the disk *)

Definition holds_of (e : option (positive * NodeState)) (q : list Snapshot) : Prop :=
  match e with Some (_, n) => rb_holds ring_size q (nHistory n) | None => q = [] end.

Lemma push_all_run l id p n q w :
  console_wf w → entry_of w id = Some (p, n) → rb_holds ring_size q (nHistory n) →
  ∃ w' n', for_each l (λ s, on_ring p (Ring.Push s)) w = (w', Ok tt) ∧ node_step id p n n' w w'
    ∧ alertw w' = alertw w ∧ rb_holds ring_size (foldl (enqueue ring_size) q l) (nHistory n').
Proof.
  revert q n w. induction l as [|s l IH]; intros q n w Hw He Hq; simpl.
  { exists w, n. split; [done|]. split; [by split_and!|done]. }
  pose proof (proj1 (entry_Some w id p n) He) as [Hp Hn].
  destruct (cw_nodes _ Hw _ _ Hp) as (n0 & Hn0 & Hid & _). assert (n0 = n) as -> by congruence.
  destruct (Push_run ring_size q (nHistory n) s Hq) as (rb & Hpush & Hrb).
  erewrite bind_ok by (by apply (on_ring_run p (Ring.Push s) w n)).
  assert (node_step id p n (with_history rb n) w
            (mkConsole (admin w) (<[p := with_history rb n]> (records w)) (alertw w) (has_alerts w) (discovery w))) as Hs.
  { apply node_step_record; [done|done|]. split; [done|by eexists]. }
  pose proof Hs as (Hw1 & _ & _ & _ & He1 & _).
  destruct (IH _ _ _ Hw1 He1 Hrb) as (w2 & n2 & Hrun2 & Hs2 & Hv2 & Hq2). exists w2, n2.
  split; [exact Hrun2|]. split; [by eapply node_step_trans|done].
Qed.

(** The entry a history is restored into. *)
Lemma restore_entry_run id w :
  console_wf w →
  ∃ w' p n, restore_target id w = (w', Ok p)
    ∧ console_wf w' ∧ alertw w' = alertw w ∧ removedNodes (admin w') = removedNodes (admin w)
    ∧ removedNodesFile (admin w') = removedNodesFile (admin w)
    ∧ (∀ k, k ≠ id → entry_of w' k = entry_of w k)
    ∧ entry_of w' id = Some (p, n) ∧ (∀ q, holds_of (entry_of w id) q → rb_holds ring_size q (nHistory n)).
Proof.
  intros Hw. unfold restore_target. erewrite bind_ok by reflexivity. destruct (nodes (admin w) !! id) as [p|] eqn:Hp.
  - destruct (cw_nodes _ Hw _ _ Hp) as (n & Hn & _). exists w, p, n.
    assert (entry_of w id = Some (p, n)) as He by by apply entry_Some.
    split_and!; [done..|]. by rewrite He.
  - unfold new_node. set (n := mkNodeState _ _ _ _ _ _ _ _ _ _ _ _).
    destruct (insert_step id n w Hw Hp) as (Hw1 & He1 & Ho1); [split; [done|]; exists []; apply new_ring_ok|].
    eexists _, _, n. split; [reflexivity|]. split; [exact Hw1|]. split_and!; try done.
    rewrite (proj2 (entry_None w id Hw) Hp). intros q ->. apply new_ring_ok.
Qed.

Lemma restore_node_run id stored w :
  console_wf w →
  ∃ w', restore_node (id, stored) w = (w', Ok tt) ∧ console_wf w' ∧ alertw w' = alertw w
    ∧ removedNodes (admin w') = removedNodes (admin w) ∧ removedNodesFile (admin w') = removedNodesFile (admin w)
    ∧ (∀ k, k ≠ id → entry_of w' k = entry_of w k)
    ∧ ∃ p n, entry_of w' id = Some (p, n)
        ∧ (∀ q, holds_of (entry_of w id) q → rb_holds ring_size (foldl (enqueue ring_size) q (hsSnapshots stored)) (nHistory n))
        ∧ (∀ s, last (hsSnapshots stored) = Some s → nLastSeen n = sTimestamp s ∧ nMetrics n = Some (sMetrics s)).
Proof.
  intros Hw. unfold restore_node.
  destruct (restore_entry_run id w Hw) as (w1 & p & n1 & Hrun1 & Hw1 & Hv1 & Hr1 & Hf1 & Ho1 & He1 & Hq1).
  erewrite bind_ok by exact Hrun1.
  pose proof (proj1 (entry_Some w1 id p n1) He1) as [Hp1 Hn1].
  destruct (cw_nodes _ Hw1 _ _ Hp1) as (n0 & Hn0 & _ & q0 & Hq0). assert (n0 = n1) as -> by congruence.
  destruct (push_all_run (hsSnapshots stored) id p n1 q0 w1 Hw1 He1 Hq0)
    as (w2 & n2 & Hrun2 & (Hw2 & Ha2 & _ & _ & He2 & Ho2) & Hv2 & Hq2).
  erewrite bind_ok by exact Hrun2.
  assert (∀ q, holds_of (entry_of w id) q → rb_holds ring_size (foldl (enqueue ring_size) q (hsSnapshots stored)) (nHistory n2)) as Hq.
  { intros q Hq. apply Hq1 in Hq. pose proof (GetAll_run ring_size q _ Hq) as Hg.
    rewrite (GetAll_run ring_size q0 _ Hq0) in Hg. injection Hg as <-. done. }
  pose proof (proj1 (entry_Some w2 id p n2) He2) as [Hp2 Hn2].
  destruct (last (hsSnapshots stored)) as [s|].
  - rewrite (on_node_run p _ w2 n2) by done. set (n3 := with_reading _ _ _ _ n2).
    destruct (cw_nodes _ Hw2 _ _ Hp2) as (n4 & Hn4 & Hok). assert (n4 = n2) as -> by congruence.
    destruct (node_step_record id p n2 n3 w2 Hw2 He2 Hok) as (Hw3 & _ & _ & _ & He3 & Ho3).
    eexists. split; [reflexivity|]. split; [exact Hw3|]. simpl. split_and!; try congruence.
    + intros k Hne. rewrite Ho3, Ho2 by done. by apply Ho1.
    + exists p, n3. split; [exact He3|]. split; [exact Hq|]. by intros s' [= <-].
  - eexists. split; [reflexivity|]. split; [done|]. split_and!; try congruence.
    + intros k Hne. rewrite Ho2 by done. by apply Ho1.
    + exists p, n2. by split_and!.
Qed.

Lemma restore_all_run l w :
  console_wf w → NoDup l.*1 →
  ∃ w', for_each l restore_node w = (w', Ok tt) ∧ console_wf w' ∧ alertw w' = alertw w
    ∧ removedNodes (admin w') = removedNodes (admin w) ∧ removedNodesFile (admin w') = removedNodesFile (admin w)
    ∧ (∀ id, id ∉ l.*1 → entry_of w' id = entry_of w id)
    ∧ ∀ id stored, (id, stored) ∈ l → ∃ p n, entry_of w' id = Some (p, n)
        ∧ (∀ q, holds_of (entry_of w id) q → rb_holds ring_size (foldl (enqueue ring_size) q (hsSnapshots stored)) (nHistory n))
        ∧ (∀ s, last (hsSnapshots stored) = Some s → nLastSeen n = sTimestamp s ∧ nMetrics n = Some (sMetrics s)).
Proof.
  revert w. induction l as [|[k sk] l IH]; intros w Hw Hnd; simpl.
  { exists w. split_and!; try done. by intros id stored ?%elem_of_nil. }
  apply NoDup_cons in Hnd as [Hk Hnd].
  destruct (restore_node_run k sk w Hw) as (w1 & Hrun1 & Hw1 & Hv1 & Hr1 & Hf1 & Ho1 & Hs1).
  destruct (IH w1 Hw1 Hnd) as (w2 & Hrun2 & Hw2 & Hv2 & Hr2 & Hf2 & Ho2 & Hs2).
  exists w2. split; [erewrite bind_ok by exact Hrun1; exact Hrun2|]. split_and!; [done|congruence..| |].
  - intros id [Hne Hid]%not_elem_of_cons. by rewrite Ho2, Ho1.
  - intros id stored [[= -> ->]|Hin]%elem_of_cons.
    + destruct Hs1 as (p & n & He & Hspec). exists p, n. by rewrite Ho2.
    + destruct (Hs2 id stored Hin) as (p & n & He & Hspec). exists p, n. split; [done|].
      rewrite <-Ho1; [done|]. intros ->. apply Hk. by apply (list_elem_of_fmap_2 fst) in Hin.
Qed.

(** Opening the managers reads the disk and writes nothing. *)
Lemma new_array_disk (d : D) l : preserves (λ v : AlertWorld D, adisk v = d) (new_array l).
Proof.
  induction l as [|a l IH]; simpl; [apply preserves_ret|].
  apply preserves_bind; [|intros; apply preserves_bind; [done|intros; apply preserves_ret]].
  unfold new_cell. preserves_steps.
Qed.
Lemma NewAlertManager_disk capacity path (d : D) : adisk (NewAlertManager capacity path d).1 = d.
Proof.
  unfold NewAlertManager. cbv zeta. case_decide; [done|].
  apply (preserves_ignore (λ v : AlertWorld D, adisk v = d) Alerts.load); [|done].
  unfold Alerts.load, the. apply preserves_bind; [apply preserves_gets|]. intros p.
  apply preserves_bind; [apply preserves_gets|]. intros [e|b]; [destruct (os_IsNotExist e); preserves_steps|].
  destruct (unmarshal b) as [loaded|]; [|apply preserves_throw].
  apply preserves_bind; [apply preserves_gets|]. intros c. apply preserves_bind; [apply new_array_disk|]. intros ps.
  apply preserves_bind; [apply preserves_modify; by intros|]. intros _.
  apply preserves_for_each. intros q _. unfold cell, on_conditions, on_am. preserves_steps.
Qed.

Lemma NewDiscoveryResolver_disk url cache ttl later (d : D) :
  ∃ r, NewDiscoveryResolver url cache ttl later d = (mkDiscoveryOn r d, Ok tt).
Proof.
  unfold NewDiscoveryResolver. cbv zeta. set (w0 := mkDiscoveryOn _ d).
  pose proof (loadFromDiskCache_run later w0) as Hrun.
  destruct (on_disk _ _); [|destruct Hrun as [e Hrun]]; eexists; unfold ignore; rewrite Hrun; done.
Qed.

(** What a new console makes of its files. *)
Definition stored_histories (d : D) (path : string) : gmap string NodeHistoryStore :=
  if decide (path = "") then ∅
  else match os_ReadFile path d with
       | inr b => match unmarshal (A := MetricsSnapshotFile) b with Some f => NodeData f | None => ∅ end
       | inl _ => ∅
       end.
Definition stored_tombs (d : D) (path : string) : gmap string Z :=
  if decide (path = "") then ∅
  else match os_ReadFile path d with
       | inr b => default ∅ (unmarshal (A := gmap string Z) b)
       | inl _ => ∅
       end.

Lemma loadRemovedNodes_run w :
  console_wf w →
  ∃ w', loadRemovedNodes w = (w', Ok tt) ∧ console_wf w' ∧ (∀ id, entry_of w' id = entry_of w id)
    ∧ removedNodes (admin w') = stored_tombs (adisk (alertw w)) (removedNodesFile (admin w)) ∪ removedNodes (admin w).
Proof.
  intros Hw. unfold loadRemovedNodes, stored_tombs. erewrite bind_ok by reflexivity.
  case_decide; [exists w; split_and!; [done..|]; by rewrite (left_id_L ∅ (∪))|].
  erewrite bind_ok by reflexivity.
  destruct (os_ReadFile _ _) as [e|b]; [exists w; split_and!; [done..|]; by rewrite (left_id_L ∅ (∪))|].
  destruct (unmarshal b) as [loaded|]; simpl;
    [|exists w; split_and!; [done..|]; by rewrite (left_id_L ∅ (∪))].
  eexists. split; [reflexivity|]. split; [by apply admin_step|]. split; [|done]. intros id. by apply entry_same.
Qed.

Lemma NewAdminServer_run hasStore url cache ttl (d : D) :
  let path s := if (hasStore : bool) then s else "" in
  ∃ w, NewAdminServer nano range hasStore url cache ttl d = (w, Ok tt) ∧ console_wf w
    ∧ removedNodes (admin w) = stored_tombs d (path "./bin/admin_removed_nodes.json")
    ∧ (∀ id, stored_histories d (path "./bin/admin_metrics_snapshot.json") !! id = None → entry_of w id = None)
    ∧ ∀ id st, stored_histories d (path "./bin/admin_metrics_snapshot.json") !! id = Some st →
        ∃ p n, entry_of w id = Some (p, n)
          ∧ rb_holds ring_size (foldl (enqueue ring_size) [] (hsSnapshots st)) (nHistory n)
          ∧ (∀ s, last (hsSnapshots st) = Some s → nLastSeen n = sTimestamp s ∧ nMetrics n = Some (sMetrics s)).
Proof.
  cbv zeta. unfold NewAdminServer. set (path := λ s : string, if hasStore then s else "").
  destruct (NewDiscoveryResolver_disk url cache ttl (nano 0) d) as [r ->]. simpl.
  pose proof (NewAlertManager_disk 500 (path "./bin/admin_alerts.json") d) as Hd.
  destruct (NewAlertManager_run 500 (path "./bin/admin_alerts.json") d) as (v & Hv & Hvw & _).
  fold (path "./bin/admin_alerts.json"). rewrite Hv in *. simpl in Hd.
  fold (path "./bin/admin_metrics_snapshot.json") (path "./bin/admin_removed_nodes.json").
  set (w0 := mkConsole _ ∅ v true (Some r)).
  assert (console_wf w0) as Hw0 by (split; [done|intros ? ?; simpl; by rewrite lookup_empty|intros ? ? ?; simpl; by rewrite lookup_empty]).
  assert (∀ id, entry_of w0 id = None) as He0 by (intros id; unfold entry_of; simpl; by rewrite lookup_empty).
  set (data := stored_histories d (path "./bin/admin_metrics_snapshot.json")).
  destruct (restore_all_run (range _ data) w0 Hw0) as (w1 & Hrun1 & Hw1 & Hv1 & Hr1 & Hf1 & Ho1 & Hs1);
    [rewrite range_perm; apply NoDup_fst_map_to_list|].
  assert (ignore (LoadMetricsSnapshot range (path "./bin/admin_metrics_snapshot.json")) w0 = (w1, Ok tt)) as Hload.
  { unfold ignore, LoadMetricsSnapshot. revert Hrun1. unfold data, stored_histories.
    destruct (decide (path _ = "")).
    - assert (range NodeHistoryStore ∅ = []) as -> by (apply Permutation_nil; by rewrite range_perm, map_to_list_empty).
      simpl. by intros [= <-].
    - erewrite bind_ok by reflexivity. replace (adisk (alertw w0)) with d by done.
      destruct (os_ReadFile _ d) as [e|b]; [|destruct (unmarshal b) as [f|]; [by intros ->|]];
        (assert (range NodeHistoryStore ∅ = []) as -> by (apply Permutation_nil; by rewrite range_perm, map_to_list_empty));
        simpl; intros [= <-]; [by destruct (os_IsNotExist e)|done]. }
  destruct (loadRemovedNodes_run w1 Hw1) as (w2 & Hrun2 & Hw2 & He2 & Hr2). exists w2.
  split; [unfold lift; erewrite bind_ok by reflexivity; erewrite bind_ok by reflexivity;
          erewrite bind_ok by exact Hload; exact Hrun2|].
  split; [done|]. split_and!.
  - rewrite Hr2, Hv1, Hf1, Hr1. simpl. rewrite Hd. by rewrite (right_id_L ∅ (∪)).
  - intros id Hid. rewrite He2, Ho1; [apply He0|]. rewrite range_keys, Hid. by intros [].
  - intros id st Hst. destruct (Hs1 id st) as (p & n & He & Hq & Hlast); [by apply range_in|].
    exists p, n. rewrite He2. split; [done|]. split; [|done]. apply Hq. by rewrite He0.
Qed.

(** ** A removed node *)

(** The node is out of the table and its removal at [t] is remembered. *)
Definition hidden id t w : Prop :=
  console_wf w ∧ tombs_are_times w ∧ tomb w id = Some t ∧ entry_of w id = None.
(** Requests that tell of no heartbeat of the node after [t]. *)
Definition no_news id t (o : ConsoleOp) : Prop :=
  match o with
  | Refreshed (Some (inr snap)) =>
      keyed snap ∧ ∀ rec, rec ∈ FileServers snap → fs_id rec = id → LastHeartbeatUnix rec ≤ t
  | Forgotten k => k ≠ id
  | Recorded k t' => k ≠ id ∧ 0 ≤ t'
  | _ => True
  end.

Lemma quiet_hidden id t w w' : hidden id t w → quiet w w' → hidden id t w'.
Proof.
  intros (Hw & Ht & Hid & He) Hq. pose proof (quiet_wf _ _ Hw Hq) as Hw'. destruct Hq as (Ha & Hr & _).
  split; [done|]. unfold tombs_are_times, tomb in *. rewrite Ha. split_and!; [done..|].
  rewrite <-He. apply entry_same; congruence.
Qed.
Lemma insert_hidden id t k t' w w' :
  hidden id t w → console_wf w' → k ≠ id → 0 ≤ t' → entry_of w' id = None →
  removedNodes (admin w') = <[k := t']> (removedNodes (admin w)) → hidden id t w'.
Proof.
  intros (Hw & Ht & Hid & He) Hw' Hne Ht' He' Hr. split; [done|]. unfold tombs_are_times, tomb in *. rewrite Hr. split_and!.
  - intros k2 t2 [[<- <-]|[_ Hk]]%lookup_insert_Some; [done|by eapply Ht].
  - by rewrite lookup_insert_ne.
  - done.
Qed.
Lemma refreshed_tombs snap w w' :
  tombs_are_times w → (∀ rec, rec ∈ FileServers snap → refreshed rec w w') →
  (∀ id, id ∉ map fs_id (FileServers snap) → entry_of w' id = None ∧ tomb w' id = tomb w id) → tombs_are_times w'.
Proof.
  intros Ht Hin Hout id t Hid. destruct (decide (id ∈ map fs_id (FileServers snap))) as [(rec & -> & Hrec)%list_elem_of_fmap|Hno].
  - specialize (Hin rec Hrec). unfold refreshed in Hin. destruct (still_removed _ _).
    + destruct Hin as [_ Heq]. apply (Ht (fs_id rec)). congruence.
    + destruct Hin as [Heq _]. congruence.
  - destruct (Hout id Hno) as [_ Heq]. apply (Ht id). congruence.
Qed.

Lemma hidden_step id t o w :
  (∀ k, 0 ≤ clock k) → hidden id t w → no_news id t o → ∃ w', console_op o w = (w', Ok tt) ∧ hidden id t w'.
Proof.
  intros Hclock Hh Ho. pose proof Hh as (Hw & Ht & Hid & He). destruct o as [[[e|snap]|]| |k|k t'|]; simpl in *.
  - by exists w.
  - destruct Ho as [Hkeys Hnews].
    destruct (refresh_run snap w Hw Ht Hkeys) as (w' & Hrun & Hw' & Hin & Hout & _). exists w'. split; [exact Hrun|].
    split; [done|]. split; [by eapply refreshed_tombs|].
    destruct (decide (id ∈ map fs_id (FileServers snap))) as [(rec & -> & Hrec)%list_elem_of_fmap|Hno].
    + specialize (Hin rec Hrec). specialize (Hnews rec Hrec eq_refl). unfold refreshed in Hin. rewrite Hid in Hin.
      simpl in Hin. rewrite (proj2 (Z.leb_le _ t) Hnews) in Hin. by destruct Hin.
    + destruct (Hout id Hno) as [Hn Heq]. split; [by rewrite Heq|done].
  - by exists w.
  - destruct (pollAllNodes_run w Hw) as (w' & Hrun & Hw' & Ha & _). exists w'. split; [exact Hrun|]. split; [done|].
    unfold tombs_are_times, tomb in *. rewrite Ha. split_and!; [done..|]. by apply (entry_alive w w').
  - destruct (forgetNode_run k w Hw) as (w' & Hrun & Hw' & _ & Hoth & Hr & _). exists w'. split; [exact Hrun|].
    eapply (insert_hidden id t k); [done..|apply Hclock| |exact Hr]. by rewrite Hoth.
  - destruct Ho as [Hne Ht']. destruct (RecordNodeRemoval_run k t' w Hw) as (w' & Hrun & Hw' & Hoth & Hr & _).
    exists w'. split; [exact Hrun|]. eapply (insert_hidden id t k); [done..| |exact Hr]. by rewrite Hoth.
  - erewrite bind_ok by reflexivity.
    destruct (SaveMetricsSnapshot_run (snapshotPath (admin w)) w Hw) as (w' & r & Hrun & Hq & Hr & _).
    exists w'. split; [by eapply quiet_ignore|by eapply quiet_hidden].
Qed.
Lemma hidden_steps id t ops w :
  (∀ k, 0 ≤ clock k) → hidden id t w → Forall (no_news id t) ops →
  ∃ w', for_each ops console_op w = (w', Ok tt) ∧ hidden id t w'.
Proof.
  intros Hclock Hh Hops. induction Hops as [|o ops Ho Hops IH] in w, Hh |- *; simpl; [by exists w|].
  destruct (hidden_step id t o w Hclock Hh Ho) as (w1 & Hrun & Hh1). erewrite bind_ok by exact Hrun. by apply IH.
Qed.
End spec.

(** ** The properties *)

Section properties.
Context {D : Type} `{OS D, Json (list Alert), Json (list GistNode), Json (gmap string Z), Json MetricsSnapshotFile}.
Context (clock nano : nat → Z) (uuid : nat → string) (net : nat → string → Auth.reply)
  (decode_metrics : bytes → option FileserverMetrics) (range : ∀ A, gmap string A → list (string * A)).
Implicit Types (w : Console D) (id : string) (rec : FileServerRecord).

(** A refresh makes the table of nodes the list of the store without the removed
    nodes, for every order of the ranges and whatever the network and the disk answer.
    A node that was removed and has no heartbeat since is not in the table and stays
    removed; every other node of the store is in it under its numeric id, with the
    identity, the address and the metrics URL of the store, keeping the record and the
    history it had, or never polled yet when it is new; nodes that left the store are
    gone; and the users are exactly those whose home is a node of the store. *)
Theorem refreshNodes_correct (range_perm : ∀ A (m : gmap string A), range A m ≡ₚ map_to_list m) snap w :
  console_wf w → tombs_are_times w → keyed snap →
  ∃ w', refreshNodes clock nano uuid net range (Some (inr snap)) w = (w', Ok tt) ∧ console_wf w'
    ∧ (∀ rec, rec ∈ FileServers snap → refreshed rec w w')
    ∧ (∀ id, id ∉ map fs_id (FileServers snap) → entry_of w' id = None ∧ tomb w' id = tomb w id)
    ∧ ∀ u id, users (admin w') !! u = Some id ↔
        ∃ usr rec, usr ∈ Users snap ∧ rec ∈ FileServers snap ∧ Username usr = u
          ∧ NodeID rec = HomeNodeID usr ∧ fs_id rec = id.
Proof.
  intros Hw Ht Hkeys. destruct (refresh_run clock nano uuid net range range_perm snap w Hw Ht Hkeys)
    as (w' & Hrun & Hw' & Hin & Hout & Hus & _).
  exists w'. split_and!; [done..|]. intros u id. rewrite Hus. by apply homes_lookup.
Qed.

(** C36. A removed node comes back, and only after a heartbeat.  From the removal on,
    through any refreshes, failed ones included, polls, saves and removals of other
    nodes, the node is not in the table as long as the store knows of no heartbeat after
    the removal; the first refresh that does puts it back as a node never polled and
    forgets the removal. *)
Theorem removed_node_comes_back (range_perm : ∀ A (m : gmap string A), range A m ≡ₚ map_to_list m)
    ops snap rec w :
  let id := fs_id rec in
  let t := clock (ticks (alertw w)) in
  (∀ k, 0 ≤ clock k) → console_wf w → tombs_are_times w → Forall (no_news id t) ops →
  keyed snap → rec ∈ FileServers snap → t < LastHeartbeatUnix rec →
  ∃ w1 w2 p n,
    for_each (Forgotten id :: ops) (console_op clock nano uuid net decode_metrics range) w = (w1, Ok tt)
    ∧ entry_of w1 id = None ∧ tomb w1 id = Some t
    ∧ refreshNodes clock nano uuid net range (Some (inr snap)) w1 = (w2, Ok tt)
    ∧ entry_of w2 id = Some (p, n) ∧ registered rec None (p, n) ∧ tomb w2 id = None.
Proof.
  cbv zeta. intros Hclock Hw Ht Hops Hkeys Hrec Hnew. set (id := fs_id rec) in *. set (t := clock _) in *.
  destruct (forgetNode_run clock id w Hw) as (w0 & Hrun0 & Hw0 & He0 & _ & Hr0 & _).
  assert (hidden id t w0) as Hh0.
  { split; [done|]. unfold tombs_are_times, tomb in *. rewrite Hr0. split_and!; [|by rewrite lookup_insert_eq|done].
    intros k t' [[<- <-]|[_ Hk]]%lookup_insert_Some; [apply Hclock|by eapply Ht]. }
  destruct (hidden_steps clock nano uuid net decode_metrics range range_perm id t ops w0 Hclock Hh0 Hops)
    as (w1 & Hrun1 & Hw1 & Ht1 & Hid1 & He1).
  destruct (refresh_run clock nano uuid net range range_perm snap w1 Hw1 Ht1 Hkeys) as (w2 & Hrun2 & _ & Hin & _).
  specialize (Hin rec Hrec). unfold refreshed in Hin. fold id in Hin. rewrite Hid1, He1 in Hin. simpl in Hin.
  rewrite (proj2 (Z.leb_gt _ t) Hnew) in Hin. destruct Hin as [Htomb ((p & n) & He & Hreg)].
  exists w1, w2, p, n. split; [simpl; erewrite bind_ok by exact Hrun0; exact Hrun1|]. by split_and!.
Qed.

(** What one poll of a node does, on every branch.  A node without a metrics URL is
    marked offline; one that does not answer with metrics keeps what was known of it,
    with its state judged by the age of that and its rates zero; metrics become the
    latest reading and the newest entry of its history of 720, with the rates since the
    entry before.  The poll never fails, and touches no other node, no user and no
    tombstone. *)
Theorem pollNode_correct id p n w :
  console_wf w → entry_of w id = Some (p, n) →
  let k := ticks (alertw w) in
  ∃ w' n', pollNode clock uuid net decode_metrics p w = (w', Ok tt) ∧ console_wf w' ∧ admin w' = admin w
    ∧ entry_of w' id = Some (p, n') ∧ (∀ id', id' ≠ id → entry_of w' id' = entry_of w id')
    ∧ polled decode_metrics (net k (nMetricsURL n)) (clock (S k)) (clock (S (S k))) n n'.
Proof.
  intros Hw He. destruct (pollNode_run clock uuid net decode_metrics id p n w Hw He)
    as (w' & n' & Hrun & (Hw' & Ha & _ & _ & He' & Ho) & Hp).
  exists w', n'. by split_and!.
Qed.

(** Whatever a console finds on its disk and whatever sequence of refreshes, polls,
    removals and saves follows, on any clock, order of the ranges and answers of the
    store, the network and the disk, no request fails or follows a pointer to nothing,
    every node of the table has a record and a working history of its own, and the log
    of alerts fits its capacity. *)
Theorem console_safe (range_perm : ∀ A (m : gmap string A), range A m ≡ₚ map_to_list m)
    hasStore url cache ttl (d : D) ops :
  ∃ w0 w, NewAdminServer nano range hasStore url cache ttl d = (w0, Ok tt)
    ∧ for_each ops (console_op clock nano uuid net decode_metrics range) w0 = (w, Ok tt) ∧ console_wf w.
Proof.
  destruct (NewAdminServer_run nano range range_perm hasStore url cache ttl d) as (w0 & Hrun0 & Hw0 & _).
  destruct (for_each_wf (console_op clock nano uuid net decode_metrics range) ops w0) as (w & Hrun & Hw);
    [intros o v Hv; by apply console_op_run|done|].
  by exists w0, w.
Qed.

(** The histories survive a restart: after a save that succeeded, a new console on
    the disk has for every node with a history the same history, and takes the time and
    the metrics of its last entry for what was last seen of the node. *)
Theorem histories_survive_restart `{!DiskLaws D, !JsonLaws MetricsSnapshotFile}
    (range_perm : ∀ A (m : gmap string A), range A m ≡ₚ map_to_list m) url cache ttl w w1 id p n q s :
  let path := "./bin/admin_metrics_snapshot.json" in
  console_wf w → SaveMetricsSnapshot clock range path w = (w1, Ok tt) →
  entry_of w id = Some (p, n) → rb_holds ring_size q (nHistory n) → last q = Some s →
  ∃ w2 p2 n2, NewAdminServer nano range true url cache ttl (adisk (alertw w1)) = (w2, Ok tt)
    ∧ entry_of w2 id = Some (p2, n2) ∧ rb_holds ring_size q (nHistory n2)
    ∧ nLastSeen n2 = sTimestamp s ∧ nMetrics n2 = Some (sMetrics s).
Proof.
  cbv zeta. intros Hw Hsave He Hq Hs.
  destruct (SaveMetricsSnapshot_run clock range range_perm "./bin/admin_metrics_snapshot.json" w Hw)
    as (w' & r & Hrun & _ & _ & Hread).
  rewrite Hsave in Hrun. injection Hrun as <- <-. destruct (Hread _ eq_refl) as (data & Hdata & Hfile); [done|].
  destruct (NewAdminServer_run nano range range_perm true url cache ttl (adisk (alertw w1))) as (w2 & Hrun2 & _ & _ & _ & Hst).
  destruct (Hst id (mkStoreOf id q)) as (p2 & n2 & He2 & Hq2 & Hlast).
  { unfold stored_histories. rewrite decide_False by done. rewrite Hfile, unmarshal_marshal. simpl.
    rewrite Hdata, He, (GetAll_run ring_size q _ Hq). simpl. by destruct q. }
  exists w2, p2, n2. split; [done|]. split; [done|]. split; [|by apply Hlast]. simpl in Hq2.
  destruct Hq as [_ Hq]. destruct (h_count _ _ _ _ _ Hq) as [Hc Hle].
  rewrite enqueue_all in Hq2 by (unfold ring_size; simpl; lia). simpl in Hq2.
  replace (length q - Z.to_nat ring_size)%nat with O in Hq2 by lia. exact Hq2.
Qed.

(** A node whose address gives no metrics URL goes offline without a word: the health
    check that raises the alert of a node that stopped answering is not made. *)
Theorem silent_without_url p n w :
  records w !! p = Some n → nMetricsURL n = "" →
  pollNode clock uuid net decode_metrics p w
  = (mkConsole (admin w) (<[p := with_status StatusOffline n]> (records w)) (alertw w) (has_alerts w) (discovery w), Ok tt).
Proof.
  intros Hn Hurl. unfold pollNode. erewrite bind_ok by (by apply node_at_run). rewrite decide_True by done.
  by apply on_node_run.
Qed.
End properties.

(** At exactly 80% of the disk a node is shown online, and its storage alert is raised. *)
Example thresholds_disagree m now :
  mDiskUsagePercent m = 80%Q → mCPUTempCelsius m = 0%Q → 0 < now →
  computeNodeStatus (Some m) now now = StatusOnline ∧ is_Some (storage_level "n" (mDiskUsagePercent m)).
Proof.
  intros Hd Ht Hnow. unfold computeNodeStatus. rewrite Hd, Ht, Z.sub_diag.
  rewrite (proj2 (Z.eqb_neq now 0)) by lia. split; [reflexivity|by eexists].
Qed.

(** ** One node *)

#[export] Instance tombs_json : Json (gmap string Z) := countable_json (gmap string Z).
#[export] Instance machines_json : Json (list GistNode) := countable_json (list GistNode).
#[export] Instance Q_eq_dec : EqDecision Q.
Proof. solve_decision. Defined.
#[export] Program Instance Q_countable : Countable Q :=
  inj_countable' (λ q, (Qnum q, Qden q)) (λ '(a, b), Qmake a b) _.
Next Obligation. intros; by match goal with x : _ |- _ => destruct x end. Qed.
#[export] Instance Metrics_eq_dec : EqDecision FileserverMetrics.
Proof. solve_decision. Defined.
#[export] Program Instance Metrics_countable : Countable FileserverMetrics :=
  inj_countable'
    (λ m, ((mDiskTotalBytes m, mDiskUsedBytes m, mDiskFreeBytes m, mDiskUsagePercent m, mPerUserStorage m,
            mPerUserQuota m, mChunkCount m, mCPUTempCelsius m, mCPUUsagePercent m, mMemUsedBytes m, mMemTotalBytes m),
           (mMemUsagePercent m, mLoadAvg1m m, mLoadAvg5m m, mUptimeSeconds m, mLastRestartUnix m,
            mActiveConnections m, mActiveUsers m, mUsersAssigned m, mBytesWrittenTotal m, mBytesReadTotal m),
           (mWriteOpsTotal m, mReadOpsTotal m, mErrorsTotal m, mFailedWritesTotal m, mFailedReadsTotal m,
            mOpLatencyWriteMsP50 m, mOpLatencyWriteMsP95 m, mOpLatencyWriteMsP99 m,
            mOpLatencyReadMsP50 m, mOpLatencyReadMsP95 m, mOpLatencyReadMsP99 m)))
    (λ '((a1, a2, a3, a4, a5, a6, a7, a8, a9, a10, a11), (b1, b2, b3, b4, b5, b6, b7, b8, b9, b10),
         (c1, c2, c3, c4, c5, c6, c7, c8, c9, c10, c11)),
       mkMetrics a1 a2 a3 a4 a5 a6 a7 a8 a9 a10 a11 b1 b2 b3 b4 b5 b6 b7 b8 b9 b10 c1 c2 c3 c4 c5 c6 c7 c8 c9 c10 c11) _.
Next Obligation. intros; by match goal with x : _ |- _ => destruct x end. Qed.
#[export] Instance Rates_eq_dec : EqDecision Rates.
Proof. solve_decision. Defined.
#[export] Instance Snapshot_eq_dec : EqDecision Snapshot.
Proof. solve_decision. Defined.
#[export] Program Instance Snapshot_countable : Countable Snapshot :=
  inj_countable' (λ s, (sTimestamp s, sMetrics s, let r := sRates s in
      (rWriteThroughputBps r, rReadThroughputBps r, rWriteMbps r, rReadMbps r, rWriteIOPS r, rReadIOPS r, rErrorRatePct r)))
    (λ '(t, m, (a, b, c, d, e, f, g)), mkSnapshot t m (mkRates a b c d e f g)) _.
Next Obligation. intros; match goal with x : Snapshot |- _ => by destruct x as [? ? []] end. Qed.
#[export] Instance HistoryStore_eq_dec : EqDecision NodeHistoryStore.
Proof. solve_decision. Defined.
#[export] Program Instance HistoryStore_countable : Countable NodeHistoryStore :=
  inj_countable' (λ h, (hsFsID h, hsSnapshots h)) (λ '(a, b), mkStoreOf a b) _.
Next Obligation. intros; by match goal with x : _ |- _ => destruct x end. Qed.
#[export] Instance SnapshotFile_eq_dec : EqDecision MetricsSnapshotFile.
Proof. solve_decision. Defined.
#[export] Program Instance SnapshotFile_countable : Countable MetricsSnapshotFile :=
  inj_countable' (λ f, (SavedAt f, NodeData f)) (λ '(a, b), mkSnapshotFile a b) _.
Next Obligation. intros; by match goal with x : _ |- _ => destruct x end. Qed.
#[export] Instance snapshots_json : Json MetricsSnapshotFile := countable_json MetricsSnapshotFile.
#[export] Instance snapshots_json_laws : JsonLaws MetricsSnapshotFile := countable_json_laws MetricsSnapshotFile.

Definition demo_nano (k : nat) : Z := Z.of_nat k * 1000000000.
Definition demo_net (k : nat) (url : string) : Auth.reply := Auth.Reply 200 (inr []).
Definition demo_decode (b : bytes) : option FileserverMetrics := Some zero_metrics.
Definition demo_range (A : Type) (m : gmap string A) : list (string * A) := map_to_list m.
Definition demo_record (heartbeat : Z) : FileServerRecord :=
  mkFileServerRecord "node-a" 0 "10.0.0.5:50052" heartbeat "active".
Definition demo_snap (heartbeat : Z) : MetaSnapshot :=
  mkMetaSnapshot [demo_record heartbeat] [mkUserRecord "alice" "node-a"] [].
Definition demo_console : Console MemDisk :=
  (NewAdminServer demo_nano demo_range true "" "" 0 (mkMemDisk ∅ 0 [])).1.
Definition demo_listed : Console MemDisk :=
  (refreshNodes demo_clock demo_nano demo_uuid demo_net demo_range (Some (inr (demo_snap 100))) demo_console).1.
Definition demo_polled : Console MemDisk :=
  (pollAllNodes demo_clock demo_uuid demo_net demo_decode demo_range demo_listed).1.

Lemma demo_range_perm A (m : gmap string A) : demo_range A m ≡ₚ map_to_list m.
Proof. done. Qed.
Lemma demo_keyed heartbeat : keyed (demo_snap heartbeat).
Proof. split_and!; simpl; apply NoDup_singleton. Qed.
Lemma demo_console_ok : console_wf demo_console ∧ tombs_are_times demo_console.
Proof.
  destruct (NewAdminServer_run demo_nano demo_range demo_range_perm true "" "" 0 (mkMemDisk ∅ 0 []))
    as (w & Hrun & Hw & Hr & _).
  unfold demo_console. rewrite Hrun. split; [done|]. intros id t. unfold tomb. simpl. rewrite Hr.
  intros Ht. exfalso. revert Ht. vm_compute. discriminate.
Qed.
Lemma demo_listed_ok :
  console_wf demo_listed ∧ ∃ p n, entry_of demo_listed "0" = Some (p, n) ∧ registered (demo_record 100) None (p, n).
Proof.
  destruct demo_console_ok as [Hw Ht].
  destruct (refresh_run demo_clock demo_nano demo_uuid demo_net demo_range demo_range_perm (demo_snap 100) demo_console Hw Ht)
    as (w & Hrun & Hw' & Hin & _); [apply demo_keyed|].
  unfold demo_listed. rewrite Hrun. split; [done|]. specialize (Hin (demo_record 100)).
  assert (refreshed (demo_record 100) demo_console w) as Href by (apply Hin; by left).
  unfold refreshed in Href. 
  replace (tomb demo_console (fs_id (demo_record 100))) with (@None Z) in Href by (vm_compute; reflexivity).
  replace (entry_of demo_console (fs_id (demo_record 100))) with (@None (positive * NodeState)) in Href by (vm_compute; reflexivity).
  destruct Href as (_ & [p n] & He & Hreg). exists p, n. split; [exact He|exact Hreg].
Qed.
Lemma demo_polled_ok : console_wf demo_polled.
Proof.
  destruct demo_listed_ok as [Hw _].
  destruct (pollAllNodes_run demo_clock demo_uuid demo_net demo_decode demo_range demo_range_perm demo_listed Hw)
    as (w & Hrun & Hw' & _).
  unfold demo_polled. by rewrite Hrun.
Qed.

Lemma refreshNodes_correct_witness :
  ∃ w', refreshNodes demo_clock demo_nano demo_uuid demo_net demo_range (Some (inr (demo_snap 100))) demo_console = (w', Ok tt)
    ∧ refreshed (demo_record 100) demo_console w' ∧ users (admin w') !! "alice" = Some "0".
Proof.
  destruct (refreshNodes_correct demo_clock demo_nano demo_uuid demo_net demo_range demo_range_perm (demo_snap 100)
              demo_console (proj1 demo_console_ok) (proj2 demo_console_ok) (demo_keyed 100))
    as (w' & Hrun & _ & Hin & _ & Hus).
  exists w'. split; [exact Hrun|]. split; [apply Hin; by left|]. apply Hus.
  exists (mkUserRecord "alice" "node-a"), (demo_record 100). split_and!; try reflexivity; by left.
Defined.

Lemma removed_node_comes_back_witness :
  ∃ w1 w2 p n,
    for_each [Forgotten "0"; Refreshed (Some (inr (demo_snap 0))); Polled; Refreshed (Some (inl ErrNotFound)); Saved]
      (console_op demo_clock demo_nano demo_uuid demo_net demo_decode demo_range) demo_console = (w1, Ok tt)
    ∧ entry_of w1 "0" = None
    ∧ refreshNodes demo_clock demo_nano demo_uuid demo_net demo_range (Some (inr (demo_snap 100))) w1 = (w2, Ok tt)
    ∧ entry_of w2 "0" = Some (p, n).
Proof.
  assert (ticks (alertw demo_console) = O) as Hticks by (vm_compute; reflexivity).
  destruct (removed_node_comes_back demo_clock demo_nano demo_uuid demo_net demo_decode demo_range demo_range_perm
              [Refreshed (Some (inr (demo_snap 0))); Polled; Refreshed (Some (inl ErrNotFound)); Saved]
              (demo_snap 100) (demo_record 100) demo_console)
    as (w1 & w2 & p & n & Hrun & He1 & _ & Hrun2 & He2 & _).
  - intros k. unfold demo_clock. lia.
  - apply demo_console_ok.
  - apply demo_console_ok.
  - rewrite Hticks. constructor; [|by repeat constructor]. split; [apply demo_keyed|].
    intros rec Hrec _. apply list_elem_of_singleton in Hrec as ->. simpl. unfold demo_clock. lia.
  - apply demo_keyed.
  - by left.
  - rewrite Hticks. simpl. unfold demo_clock. lia.
  - exists w1, w2, p, n. split; [exact Hrun|]. split; [exact He1|]. split; [exact Hrun2|exact He2].
Defined.

Lemma pollNode_correct_witness :
  ∃ p n w' n', entry_of demo_listed "0" = Some (p, n)
    ∧ pollNode demo_clock demo_uuid demo_net demo_decode p demo_listed = (w', Ok tt)
    ∧ entry_of w' "0" = Some (p, n') ∧ nMetrics n' = Some zero_metrics.
Proof.
  destruct (proj2 demo_listed_ok) as (p & n & He & i & name & machine & Hn). simpl in Hn.
  destruct (pollNode_correct demo_clock demo_uuid demo_net demo_decode "0" p n demo_listed (proj1 demo_listed_ok) He)
    as (w' & n' & Hrun & _ & _ & He' & _ & Hp).
  exists p, n, w', n'. split_and!; [exact He|exact Hrun|exact He'|].
  unfold polled in Hp. rewrite Hn in Hp. rewrite decide_False in Hp by (vm_compute; discriminate).
  destruct (Hp [] new_ring_ok) as (rb & -> & _). reflexivity.
Defined.

Lemma histories_survive_restart_witness :
  ∃ w1 w2 p n, SaveMetricsSnapshot demo_clock demo_range "./bin/admin_metrics_snapshot.json" demo_polled = (w1, Ok tt)
    ∧ NewAdminServer demo_nano demo_range true "" "" 0 (adisk (alertw w1)) = (w2, Ok tt)
    ∧ entry_of w2 "0" = Some (p, n) ∧ nMetrics n = Some zero_metrics.
Proof.
  set (w1 := (SaveMetricsSnapshot demo_clock demo_range "./bin/admin_metrics_snapshot.json" demo_polled).1).
  assert (SaveMetricsSnapshot demo_clock demo_range "./bin/admin_metrics_snapshot.json" demo_polled = (w1, Ok tt)) as Hsave.
  { rewrite (surjective_pairing (SaveMetricsSnapshot _ _ _ _)). apply (f_equal (pair w1)). vm_compute. reflexivity. }
  destruct (entry_of demo_polled "0") as [[p n]|] eqn:He; [|exfalso; revert He; vm_compute; discriminate].
  assert (∃ s, (Ring.GetLast (nHistory n)).2 = Ok (Some s) ∧ sMetrics s = zero_metrics) as (s & Hlast & Hm).
  { assert (match entry_of demo_polled "0" with
            | Some (_, n) => match (Ring.GetLast (nHistory n)).2 with
                             | Ok (Some s) => Some (sMetrics s)
                             | _ => None
                             end
            | None => None
            end = Some zero_metrics) as Hd by (vm_compute; reflexivity).
    rewrite He in Hd. destruct (Ring.GetLast (nHistory n)).2 as [[s|]| |]; [|done..]. exists s.
    split; [reflexivity|by injection Hd]. }
  destruct (cw_nodes _ demo_polled_ok "0" p) as (n1 & Hn1 & _ & q & Hq); [by apply entry_Some in He as [? _]|].
  assert (n1 = n) as -> by (apply entry_Some in He as [_ ?]; congruence).
  rewrite (GetLast_run ring_size q _ Hq) in Hlast. injection Hlast as Hlast.
  destruct (histories_survive_restart demo_clock demo_nano demo_range demo_range_perm "" "" 0 demo_polled w1 "0" p n q s
              demo_polled_ok Hsave He Hq Hlast) as (w2 & p2 & n2 & Hrun & He2 & _ & _ & Hm2).
  exists w1, w2, p2, n2. split_and!; [exact Hsave|exact Hrun|exact He2|]. by rewrite Hm2, Hm.
Defined.
