(* ===== verification/Orchestrator.v ===== *)
(** * The actions of the admin console

    Models [internal/admin/actions.go] and [logs.go]: what is run on the machines of the
    cluster, on whose request, and what is recorded of it.  The SSH executor is a
    parameter: its answers come by how often it was asked.  Commands are run without a
    listener for live events, as the HTTP interface runs them; the nodes of an action
    are visited one after the other, in any order. *)
From S2P Require Import Prelude GoStd Disk Ring History Node Alerts Storage Discovery Console.
From S2P Require Session Auth.
From Stdlib Require Import QArith.
#[global] Open Scope Z_scope.

Definition cats (l : list string) : string := foldr String.append "" l.

(** ** Quoting and masking *)

Definition squote : ascii := "'".
(** [strings.ReplaceAll(s, "'", `'\''`)] *)
Fixpoint escape_quotes (s : string) : string :=
  match s with
  | EmptyString => ""
  | String a s' => if decide (a = squote) then "'\''" +:+ escape_quotes s' else String a (escape_quotes s')
  end.
Definition shellQuote (s : string) : string := "'" +:+ escape_quotes s +:+ "'".

Definition is_space (a : ascii) : bool :=
  let n := nat_of_ascii a in (n =? 32)%nat || ((9 <=? n) && (n <=? 13) && negb (n =? 11))%nat.
(** The longest prefix of characters outside a set, and the rest. *)
Fixpoint span_not (stop : ascii → bool) (s : string) : string * string :=
  match s with
  | EmptyString => ("", "")
  | String a s' => if stop a then ("", s) else let '(w, r) := span_not stop s' in (String a w, r)
  end.
Definition stops_user (a : ascii) : bool :=
  is_space a || bool_decide (a = ":"%char ∨ a = "/"%char ∨ a = "@"%char ∨ a = squote).
Definition stops_password (a : ascii) : bool := is_space a || bool_decide (a = "@"%char ∨ a = squote).
(** The match of [mongoCredentialRE] at the front: what is kept, and what follows it. *)
Definition credential (s : string) : option (string * string) :=
  if HasPrefix s "mongodb" then
    let s1 := drop_bytes 7 s in
    let '(srv, s2) := if HasPrefix s1 "+srv" then ("+srv", drop_bytes 4 s1) else ("", s1) in
    if HasPrefix s2 "://" then
      let '(user, s3) := span_not stops_user (drop_bytes 3 s2) in
      if decide (user = "") then None
      else match s3 with
           | String ":" s4 =>
               match (span_not stops_password s4).2 with
               | String "@" s5 => Some ("mongodb" +:+ srv +:+ "://" +:+ user, s5)
               | _ => None
               end
           | _ => None
           end
    else None
  else None.
(** [redactMongoURI]; every match is shorter than the string, so its length is enough. *)
Fixpoint redact (fuel : nat) (s : string) : string :=
  match fuel, s with
  | S fuel, String a s' =>
      match credential s with
      | Some (kept, rest) => kept +:+ ":***@" +:+ redact fuel rest
      | None => String a (redact fuel s')
      end
  | _, _ => s
  end.
Definition redactMongoURI (s : string) : string := redact (String.length s) s.

Example redactMongoURI_ex :
  map redactMongoURI ["run mongodb://root:s3cret@db:27017/x now"; "mongodb+srv://u:p@h"; "mongodb://h/x:y@z"; "mongodb://u:pw"]
  = ["run mongodb://root:***@db:27017/x now"; "mongodb+srv://u:***@h"; "mongodb://h/x:y@z"; "mongodb://u:pw"].
Proof. reflexivity. Qed.

(** ** Requests *)

Definition ActionPull : string := "pull".
Definition ActionBuild : string := "build".
Definition ActionRestart : string := "restart".
Definition ActionReboot : string := "reboot".
Definition ActionApt : string := "apt".
Definition ActionLogs : string := "logs".
Definition ActionCustom : string := "custom".

Record NodeRestartParams := mkParams {
  prFsID : string;
  prAddress : string;
  prHost : string;
  prPort : Z;
  prSSHPort : Z;
  prSSHUser : string;
  prMetaAddr : string;
  prOwnIP : string;
  prDataDir : string;
}.

Record ActionRequest := mkActionRequest {
  aqActionType : string;
  aqTargetNodeIDs : list string;
  aqCustomCommand : string;
  aqRepoPath : string;
  aqGitBranch : string;
  aqMakeTarget : string;
  aqTargetService : string;
  aqAptMode : string;
  aqTimeoutSeconds : Z;
  aqSSHPort : Z;
  aqLogLines : Z;
  aqLogPath : string;
  aqRestartMode : string;
  aqLogMode : string;
  aqRestartParams : gmap string NodeRestartParams;
  aqSSHUser : string;
  aqSSHKeyPath : string;
}.

Record Orchestrator := mkOrchestrator {
  defaultSSHUser : string;
  defaultSSHKey : string;
  defaultRepoPath : string;
  defaultSSHPort : Z;
  activeNodes : gmap string string;
}.
(** [defaultSSHPort ...int]: the first one counts when positive. *)
Definition NewOrchestrator (user key repo : string) (ports : list Z) : Orchestrator :=
  mkOrchestrator user key repo
    match ports with p :: _ => if 0 <? p then p else 22 | [] => 22 end ∅.

(** A field, or its default when it is empty. *)
Definition or_else (s d : string) : string := if decide (s = "") then d else s.

(** ** Commands *)

Definition loadLoginEnv : string := ". ~/.profile 2>/dev/null; . ~/.bashrc 2>/dev/null; ".
Definition dq : string := String (ascii_of_nat 34) "".
Definition requireMongoURI : string :=
  cats ["[ -n "; dq; "$MONGO_URI"; dq; " ] || { echo "; dq;
        "MONGO_URI is not set in this host's login environment (~/.profile or /etc/environment); not starting a binary that would exit on it";
        dq; " >&2; exit 1; }; "].

(** The restart of a binary on the host [p] describes. *)
Definition binary_command (service repoPath : string) (p : NodeRestartParams) : string :=
  let fsIDArg := shellQuote (prFsID p) in
  let killPattern := shellQuote ("fileserver -id=" +:+ prFsID p) in
  let dataDir := or_else (prDataDir p) "./fileserver_data" in
  let metaAddr := or_else (prMetaAddr p) "127.0.0.1:50051" in
  let ownIP := or_else (prOwnIP p) (prHost p) in
  let port := pretty (prPort p) in
  if decide (service = "metaserver") then
    cats [loadLoginEnv; requireMongoURI;
          "fuser -k 50051/tcp 2>/dev/null || pkill -f 'metaserver' || true; sleep 1; nohup "; repoPath;
          "/bin/metaserver -port=50051 > "; repoPath; "/metaserver.log 2>&1 < /dev/null &"]
  else if decide (service = "admin") then
    cats [loadLoginEnv; requireMongoURI;
          "fuser -k 8080/tcp 2>/dev/null || pkill -f 'bin/admin' || true; sleep 1; nohup "; repoPath;
          "/bin/admin -port=8080 > "; repoPath; "/admin.log 2>&1 < /dev/null &"]
  else if decide (service = "all") then
    cats [loadLoginEnv; requireMongoURI;
          "fuser -k "; port; "/tcp 50051/tcp 8080/tcp 2>/dev/null || pkill -f "; killPattern;
          " || pkill -f 'metaserver' || pkill -f 'bin/admin' || true; sleep 1; nohup "; repoPath;
          "/bin/metaserver -port=50051 > "; repoPath; "/metaserver.log 2>&1 < /dev/null & nohup "; repoPath;
          "/bin/fileserver -id="; fsIDArg; " -port="; port; " -data="; dataDir; " -meta_addr="; metaAddr;
          " -own_ip="; ownIP; " > "; repoPath; "/fileserver.log 2>&1 < /dev/null & nohup "; repoPath;
          "/bin/admin -port=8080 > "; repoPath; "/admin.log 2>&1 < /dev/null &"]
  else
    cats ["fuser -k "; port; "/tcp 2>/dev/null || pkill -f "; killPattern;
          " || true; sleep 1; nohup "; repoPath; "/bin/fileserver -id="; fsIDArg; " -port="; port;
          " -data="; dataDir; " -meta_addr="; metaAddr; " -own_ip="; ownIP; " > "; repoPath;
          "/fileserver.log 2>&1 < /dev/null &"].
Definition systemd_command (service : string) : string :=
  if decide (service = "metaserver") then "sudo -n systemctl restart dvfs-metaserver"
  else if decide (service = "admin") then "sudo -n systemctl restart dvfs-admin"
  else if decide (service = "all") then "sudo -n systemctl restart dvfs-metaserver dvfs-fileserver dvfs-admin"
  else "sudo -n systemctl restart dvfs-fileserver".

(** The unit and the log file of a service. *)
Definition service_names (service : string) : string * string :=
  if decide (service = "metaserver") then ("dvfs-metaserver", "metaserver.log")
  else if decide (service = "admin") then ("dvfs-admin", "admin.log")
  else ("dvfs-fileserver", "fileserver.log").
Definition logs_command (req : ActionRequest) (repoPath : string) : string :=
  let lines := pretty (if aqLogLines req <=? 0 then 50 else aqLogLines req) in
  let '(serviceName, logFileName) := service_names (or_else (aqTargetService req) "fileserver") in
  if decide (aqLogMode req = "tail") then
    cats ["tail -n "; lines; " "; or_else (aqLogPath req) (repoPath +:+ "/" +:+ logFileName)]
  else cats ["journalctl -u "; serviceName; " -n "; lines; " --no-pager"].

(** The restart of a binary reads the parameters of the node; a nil pointer panics. *)
Definition FormatCommand {S} (o : Orchestrator) (req : ActionRequest) (params : option NodeRestartParams) : M S string :=
  let repoPath := or_else (aqRepoPath req) (or_else (defaultRepoPath o) "~/Distributed-Virtual-File-System") in
  let custom := aqCustomCommand req in
  if decide (aqActionType req = ActionPull) then
    mret (or_else custom (cats ["git -C "; repoPath; " pull origin "; or_else (aqGitBranch req) "main"]))
  else if decide (aqActionType req = ActionBuild) then
    let target := aqMakeTarget req in
    mret (cats [". ~/.profile 2>/dev/null; . ~/.bashrc 2>/dev/null; export PATH="; dq;
                "$PATH:/usr/local/go/bin:/snap/bin:$HOME/go/bin"; dq; "; make -C "; repoPath;
                if decide (target = "") then "" else " " +:+ target])
  else if decide (aqActionType req = ActionRestart) then
    if decide (custom ≠ "") then mret custom
    else
      let service := or_else (aqTargetService req) "fileserver" in
      if decide (aqRestartMode req = "binary") then
        match params with
        | None => panic "nil pointer dereference"
        | Some p => mret (binary_command service repoPath p)
        end
      else mret (systemd_command service)
  else if decide (aqActionType req = ActionReboot) then
    mret (or_else custom "nohup sh -c 'sleep 2 && sudo -n reboot' >/dev/null 2>&1 & echo 'System reboot scheduled in 2 seconds (machine will restart shortly)'")
  else if decide (aqActionType req = ActionApt) then
    mret (or_else custom
      (if decide (aqAptMode req = "update_only") then "sudo -n DEBIAN_FRONTEND=noninteractive apt-get update"
       else "sudo -n DEBIAN_FRONTEND=noninteractive apt-get update && sudo -n DEBIAN_FRONTEND=noninteractive apt-get upgrade -y"))
  else if decide (aqActionType req = ActionLogs) then mret (or_else custom (logs_command req repoPath))
  else mret custom.

(** ** Durations in messages *)

(** Nine digits, without the zeros at the end. *)
Fixpoint trim_zeros (s : string) : string :=
  match s with
  | EmptyString => ""
  | String a s' => let r := trim_zeros s' in if decide (a = "0"%char ∧ r = "") then "" else String a r
  end.
Definition pad9 (n : Z) : string := drop_bytes 1 (pretty (1000000000 + n)).
(** [%v] of a duration of a second or more. *)
Definition fmt_duration (d : Z) : string :=
  let secs := d / 1000000000 in
  let frac := d mod 1000000000 in
  let s := pretty (secs mod 60) +:+ (if frac =? 0 then "" else "." +:+ trim_zeros (pad9 frac)) +:+ "s" in
  let h := secs / 3600 in
  let m := pretty (secs / 60 mod 60) +:+ "m" in
  if 0 <? h then pretty h +:+ "h" +:+ m +:+ s else if secs <? 60 then s else m +:+ s.
Example fmt_duration_ex :
  map fmt_duration [300000000000; 45000000000; 3600000000000; 1500000000; 3661000000000]
  = ["5m0s"; "45s"; "1h0m0s"; "1.5s"; "1h1m1s"].
Proof. reflexivity. Qed.

(** [time.Duration(n) * time.Second], or the default of the action. *)
Definition timeout_of (req : ActionRequest) : Z :=
  let t := i64 (aqTimeoutSeconds req * 1000000000) in
  if t <=? 0 then (if decide (aqActionType req = ActionApt) then 600 else 300) * 1000000000 else t.

(** ** Runs on the machines *)

(** One run over SSH as the program asked for it, and the answer. *)
Record SSHRun := mkSSHRun {
  srHost : string;
  srPort : Z;
  srUser : string;
  srKey : string;
  srCommand : string;
}.
Record SSHAnswer := mkSSHAnswer {
  saExitCode : Z;
  saError : option string;
  saDeadline : bool;
  saStdout : string;
  saStderr : string;
}.

Definition host_of (address : string) : string :=
  match Session.SplitHostPort address with Some (h, _) => h | None => address end.

(** What a restart of the node would use. *)
Definition preset_of (o : Orchestrator) (fsID : string) (n : NodeState) : NodeRestartParams :=
  let restartID :=
    if decide (nNodeID n = "" ∨ HasPrefix (nNodeID n) LegacyNodeIDPrefix = true) then fsID else nNodeID n in
  let '(host, port) :=
    match Session.SplitHostPort (nAddress n) with
    | Some (h, p) => (h, default 50052 (Auth.ParseInt p))
    | None => (nAddress n, 50052)
    end in
  let user :=
    if decide (nMachineName n ≠ "") then nMachineName n
    else if decide (defaultSSHUser o = "" ∨ HasPrefix (defaultSSHUser o) "dvfs" = true) then
      match Auth.ParseInt fsID with Some num => dvfs_name (num + 1) | None => defaultSSHUser o end
    else defaultSSHUser o in
  mkParams restartID (nAddress n) host port (defaultSSHPort o) user "127.0.0.1:50051" host
    ("./fileserver_data_" +:+ fsID).

(** The output of a run, and its error message. *)
Definition node_output (a : SSHAnswer) : string :=
  if decide (saStderr a = "") then saStdout a
  else cats [saStdout a; if decide (saStdout a = "") then "" else String (ascii_of_nat 10) "";
             "[STDERR]"; String (ascii_of_nat 10) ""; saStderr a].
Definition run_error (req : ActionRequest) (a : SSHAnswer) : string :=
  match saError a with
  | None => ""
  | Some e => if saDeadline a then "command timed out after " +:+ fmt_duration (timeout_of req) else e
  end.
(** A run that failed. *)
Definition run_failed (a : SSHAnswer) : bool :=
  match saError a with Some _ => true | None => negb (saExitCode a =? 0) end.

(** Where, as whom and what to run on a node. *)
Definition ssh_port (o : Orchestrator) (req : ActionRequest) (params : option NodeRestartParams) : Z :=
  let p := aqSSHPort req in
  let p := if p <=? 0 then match params with Some q => if 0 <? prSSHPort q then prSSHPort q else p | None => p end else p in
  let p := if (p <=? 0) && (0 <? defaultSSHPort o) then defaultSSHPort o else p in
  if p <=? 0 then 22 else p.
(** The user set in some parameters, if any. *)
Definition user_in (params : option NodeRestartParams) : option string :=
  match params with Some q => if decide (prSSHUser q = "") then None else Some (prSSHUser q) | None => None end.
Definition ssh_user (req : ActionRequest) (sshUser nID : string) (n : NodeState) (params : option NodeRestartParams) : string :=
  match user_in (aqRestartParams req !! nID), user_in params with
  | Some u, _ => u
  | None, Some u => u
  | None, None =>
      if decide (nMachineName n ≠ "") then nMachineName n
      else if decide (aqSSHUser req ≠ "") then aqSSHUser req
      else if decide (sshUser = "" ∨ HasPrefix sshUser "dvfs" = true) then
        match Auth.ParseInt nID with Some num => dvfs_name (num + 1) | None => sshUser end
      else sshUser
  end.

(** ** The console with its orchestrator *)

(** The orchestrator may be missing; the history is the one it shares with the console.
    [sent] is what was run on other machines, oldest first. *)
Record Site (D : Type) := mkSite {
  console : Console D;
  orchestrator : option Orchestrator;
  commands : CommandHistory;
  sent : list SSHRun;
}.
Arguments mkSite {D} console orchestrator commands sent.
Arguments console {D} s.
Arguments orchestrator {D} s.
Arguments commands {D} s.
Arguments sent {D} s.

Section site.
Context {D : Type} `{OS D, Json (list Alert), Json (list GistNode), Json (gmap string Z),
  Json MetricsSnapshotFile, Json (list CommandRecord)}.
Context (clock nano : nat → Z) (uuid : nat → string) (ssh : nat → SSHRun → SSHAnswer)
  (range : ∀ A, gmap string A → list (string * A)).
Abbreviation W := (Site D).

Definition on_console {A} (m : M (Console D) A) : M W A := λ w,
  let '(c, r) := m (console w) in (mkSite c (orchestrator w) (commands w) (sent w), r).
Definition on_orchestrator (f : Orchestrator → Orchestrator) : M W unit :=
  modify (λ w, mkSite (console w) (f <$> orchestrator w) (commands w) (sent w)).
Definition set_active (f : gmap string string → gmap string string) : M W unit :=
  on_orchestrator (λ o, mkOrchestrator (defaultSSHUser o) (defaultSSHKey o) (defaultRepoPath o) (defaultSSHPort o) (f (activeNodes o))).
(** A call of the command history, on the disk of the console. *)
Definition on_commands {A} (m : M (HistoryOn D) A) : M W A := λ w,
  let c := console w in
  let v := alertw c in
  let '(x, r) := m (mkHistoryOn (commands w) (adisk v)) in
  (mkSite (mkConsole (admin c) (records c) (mkAlertWorld (am v) (cells v) (hdisk x) (ticks v)) (has_alerts c) (discovery c))
     (orchestrator w) (hist x) (sent w), r).

(** One run over SSH. *)
Definition ssh_run (r : SSHRun) : M W SSHAnswer :=
  k ← gets (λ w, length (sent w));
  modify (λ w, mkSite (console w) (orchestrator w) (commands w) (sent w ++ [r])) ;; mret (ssh k r).

(** The time in nanoseconds, and a difference of times in milliseconds. *)
Definition time_ns : M W Z := k ← on_console (alerting tick); mret (nano k).
Definition Milliseconds (d : Z) : Z := Z.quot d 1000000.

(** The nodes of the table among some keys, with their records. *)
Fixpoint nodes_in (table : list (string * positive)) : M W (list (string * NodeState)) :=
  match table with
  | [] => mret []
  | (id, p) :: table => n ← on_console (node_at p); rest ← nodes_in table; mret ((id, n) :: rest)
  end.
Definition all_nodes : M W (list (string * NodeState)) :=
  table ← on_console (srv nodes); nodes_in (range _ table).
Definition GetPresets (o : Orchestrator) : M W (gmap string NodeRestartParams) :=
  l ← all_nodes; mret (list_to_map (map (λ '(id, n), (id, preset_of o id n)) l)).

(** [LoadOrStore] for every target; on a conflict the locks taken are released. *)
Fixpoint acquire (actionID : string) (taken todo : list string) : M W unit :=
  match todo with
  | [] => mret tt
  | n :: todo =>
      holder ← gets (λ w, orchestrator w ≫= λ o, activeNodes o !! n);
      match holder with
      | Some other =>
          for_each taken (λ t, set_active (delete t)) ;;
          throw (Errorf "node FS-%s is currently executing action %s" [n; other])
      | None => set_active <[n := actionID]> ;; acquire actionID (taken ++ [n]) todo
      end
  end.

(** One node of an action: the result, and whether it failed. *)
Definition run_on (o : Orchestrator) (req : ActionRequest) (sshUser sshKey : string)
    (presets : gmap string NodeRestartParams) (target : string * NodeState) : M W (NodeResult * bool) :=
  let '(nID, n) := target in
  start ← time_ns;
  let params := match aqRestartParams req !! nID with Some q => Some q | None => presets !! nID end in
  cmd ← FormatCommand o req params;
  let host := or_else (match Session.SplitHostPort (nAddress n) with Some (h, _) => h | None => "" end) (nAddress n) in
  a ← ssh_run (mkSSHRun host (ssh_port o req params) (ssh_user req sshUser nID n params) sshKey cmd);
  stop ← time_ns;
  mret (mkNodeResult nID (nAddress n) (saExitCode a) (node_output a) (run_error req a) (Milliseconds (stop - start)), run_failed a).
Fixpoint run_all (o : Orchestrator) (req : ActionRequest) (sshUser sshKey : string)
    (presets : gmap string NodeRestartParams) (targets : list (string * NodeState)) :
    M W (gmap string NodeResult * bool) :=
  match targets with
  | [] => mret (∅, false)
  | t :: targets =>
      r ← run_on o req sshUser sshKey presets t;
      rest ← run_all o req sshUser sshKey presets targets;
      mret (<[t.1 := r.1]> rest.1, r.2 || rest.2)
  end.

(** The command shown for the action: that of some target. *)
Definition display_command (o : Orchestrator) (req : ActionRequest) (presets : gmap string NodeRestartParams)
    (targets : list (string * NodeState)) : M W string :=
  cmd ← (if decide (aqCustomCommand req ≠ "") then mret (aqCustomCommand req)
         else match targets with (nID, _) :: _ => FormatCommand o req (presets !! nID) | [] => mret "" end);
  mret (redactMongoURI (or_else cmd (aqActionType req))).

(** With the locks held. *)
Definition run_action (o : Orchestrator) (req : ActionRequest) (actionID : string) (start : Z)
    (targets : list (string * NodeState)) : M W CommandRecord :=
  let sshUser := or_else (or_else (aqSSHUser req) (defaultSSHUser o)) "ubuntu" in
  let sshKey := or_else (or_else (aqSSHKeyPath req) (defaultSSHKey o)) "~/.ssh/id_rsa" in
  presets ← GetPresets o;
  shown ← display_command o req presets targets;
  results ← run_all o req sshUser sshKey presets targets;
  stop ← time_ns;
  let record := mkCommandRecord actionID (start / 1000000000) (aqActionType req) shown (aqTargetNodeIDs req)
                  (if (results.2 : bool) then "failed" else "success") (Milliseconds (stop - start)) results.1 in
  on_commands (History.Push record) ;; mret record.

(** [defer]: the locks are released however the action ends. *)
Definition deferring {A} (cleanup : M W unit) (m : M W A) : M W A := λ w,
  let '(w1, r) := m w in
  match cleanup w1 with
  | (w2, Ok _) => (w2, r)
  | (w2, Err e) => (w2, Err e)
  | (w2, Panic why) => (w2, Panic why)
  end.

Definition Execute (o : Orchestrator) (req : ActionRequest) : M W CommandRecord :=
  id ← on_console (alerting (short_uuid uuid));
  start ← time_ns;
  let actionID := "act-" +:+ id in
  let ids := aqTargetNodeIDs req in
  if decide (ids = []) then throw (Errorf "no target nodes specified" [])
  else
    table ← on_console (srv nodes);
    let found := filter (λ kv : string * positive, kv.1 ∈ ids) (range _ table) in
    targets ← nodes_in found;
    if decide (targets = []) then throw (Errorf "none of the specified target nodes were found in active cluster" [])
    else
      acquire actionID [] ids ;;
      deferring (for_each ids (λ n, set_active (delete n))) (run_action o req actionID start targets).

(** ** Logs *)

Definition shown_as (key : string) (n : NodeState) : bool :=
  EqualFold (nDisplayName n) key || String.eqb (pretty (nDisplayID n)) key.
(** A node by its key, or else by the name or the number it is shown under. *)
Definition find_node (key : string) : M W (option (string * NodeState)) :=
  o ← on_console (srv (λ a, nodes a !! key));
  match o with
  | Some p => n ← on_console (node_at p); mret (Some (key, n))
  | None =>
      l ← all_nodes;
      mret (match list_find (λ kv, shown_as key kv.2 = true) l with Some (_, kv) => Some kv | None => None end)
  end.

Record LogTailResponse := mkLogTail {
  ltNodeID : string;
  ltAddress : string;
  ltService : string;
  ltLines : Z;
  ltContent : string;
  ltTimestamp : Z;
}.

Definition tail_command (o : option Orchestrator) (service mode : string) (lines : Z) : string :=
  let '(serviceName, logFileName) := service_names service in
  let repoPath := match o with Some o => or_else (defaultRepoPath o) "~/Distributed-Virtual-File-System"
                  | None => "~/Distributed-Virtual-File-System" end in
  let repoLog := repoPath +:+ "/" +:+ logFileName in
  let n := pretty lines in
  if decide (mode = "tail") then
    cats ["tail -n "; n; " "; repoLog; " 2>/dev/null || tail -n "; n; " "; logFileName;
          " 2>/dev/null || tail -n "; n; " /var/log/"; logFileName; " 2>/dev/null || journalctl -u "; serviceName;
          " -n "; n; " --no-pager 2>/dev/null"]
  else
    cats ["(journalctl -u "; serviceName; " -n "; n; " --no-pager 2>/dev/null | grep -v '^--' | grep .) || tail -n "; n;
          " "; repoLog; " 2>/dev/null || tail -n "; n; " "; logFileName; " 2>/dev/null || journalctl -u "; serviceName;
          " -n "; n; " --no-pager"].

(** The user, key and port of a log query, with the ones the request sets. *)
Definition log_login (o : Orchestrator) (n : NodeState) (preset : option NodeRestartParams) (user key port : string) :
    string * string * Z :=
  let base :=
    match user_in preset with
    | Some u => u
    | None =>
        if decide (nMachineName n ≠ "") then nMachineName n
        else if decide (defaultSSHUser o = "" ∨ HasPrefix (defaultSSHUser o) "dvfs" = true) then
          match Auth.ParseInt (nFsID n) with Some num => dvfs_name (num + 1) | None => defaultSSHUser o end
        else defaultSSHUser o
    end in
  let p := if 0 <? defaultSSHPort o then defaultSSHPort o else 22 in
  let p := match preset with Some q => if 0 <? prSSHPort q then prSSHPort q else p | None => p end in
  (or_else user (or_else base "ubuntu"), or_else key (or_else (defaultSSHKey o) "~/.ssh/id_ed25519"),
   match Auth.ParseInt port with Some q => if 0 <? q then q else p | None => p end).
Definition log_content (n : NodeState) (a : SSHAnswer) : string :=
  let content := or_else (saStdout a) (saStderr a) in
  match saError a with
  | Some e =>
      if decide (content = "") then
        cats ["[ERROR] Failed to query logs from "; nAddress n; " (exit code "; pretty (saExitCode a); "): "; e;
              String (ascii_of_nat 10) ""; saStderr a]
      else content
  | None => content
  end.

(** [rfc3339] is the time as the diagnostic of a console without SSH prints it. *)
Definition FetchNodeLogs (rfc3339 : Z → string) (nodeID service : string) (lines : Z) (mode user key port : string) :
    M W LogTailResponse :=
  let lines := if lines <=? 0 then 100 else lines in
  let service := or_else service "fileserver" in
  let mode := or_else mode "journalctl" in
  found ← find_node nodeID;
  match found with
  | None => throw (Errorf "node %s not found" [nodeID])
  | Some (_, n) =>
      o ← gets orchestrator;
      now ← on_console (alerting (time_now clock));
      match o with
      | Some o' =>
          presets ← GetPresets o';
          let '(u, k, p) := log_login o' n (presets !! nFsID n) user key port in
          a ← ssh_run (mkSSHRun (host_of (nAddress n)) p u k (tail_command o service mode lines));
          mret (mkLogTail (nFsID n) (nAddress n) service lines (log_content n a) now)
      | None =>
          later ← on_console (alerting (time_now clock));
          mret (mkLogTail (nFsID n) (nAddress n) service lines
                  (cats ["["; rfc3339 later; "] Simulation log stream for "; service; " on "; nAddress n; " (SSH not initialized)"]) now)
      end
  end.
End site.
