(* ===== verification/OrchSpec.v ===== *)
(** * What an action does

    The quoting of node ids in shell commands, and the run of an action over the nodes
    of the cluster: when it is refused, which machines it reaches and as whom, and what is
    recorded. *)
From S2P Require Import Prelude GoStd Disk Ring History Node Alerts Storage Discovery Console PollSpec Orchestrator.
From S2P Require Session Auth.
From Stdlib Require Import QArith.
#[global] Open Scope Z_scope.

(** ** Quoting *)

(** One word of a POSIX shell: quotes are removed, a blank outside of them ends it, and
    no other character that means something to the shell may stand outside of them. *)
Definition special (a : ascii) : bool := bool_decide (a ∈ Stdlib.Strings.String.list_ascii_of_string "|&;<>()$`*?[#~=%!{}").
Definition blank (a : ascii) : bool := bool_decide (a ∈ [" "%char; "009"%char; "010"%char]).
Definition then_char (a : ascii) (o : option (string * string)) : option (string * string) :=
  match o with Some (w, r) => Some (String a w, r) | None => None end.
Fixpoint sh_word (quoted : bool) (s : string) : option (string * string) :=
  match s with
  | EmptyString => if quoted then None else Some ("", "")
  | String a s' =>
      if quoted then if decide (a = squote) then sh_word false s' else then_char a (sh_word true s')
      else if decide (a = squote) then sh_word true s'
      else if decide (a = "\"%char) then
        match s' with String b s2 => then_char b (sh_word false s2) | EmptyString => None end
      else if blank a then Some ("", s)
      else if special a || bool_decide (a = ascii_of_nat 34) then None
      else then_char a (sh_word false s')
  end.
Example sh_word_ex :
  map (sh_word false) ["'a b'\''c'd e"; "a;b"; "'x"] = [Some ("a b'cd", " e"); None; None].
Proof. reflexivity. Qed.

Lemma append_cons a s t : String a s +:+ t = String a (s +:+ t).
Proof. done. Qed.
Lemma escape_read s : sh_word true ("'\''" +:+ s) = then_char squote (sh_word true s).
Proof. done. Qed.
Lemma sh_word_escaped s rest :
  sh_word true (escape_quotes s +:+ "'" +:+ rest) = match sh_word false rest with Some (w, r) => Some (s +:+ w, r) | None => None end.
Proof.
  induction s as [|a s IH].
  - change ("" +:+ "'" +:+ rest) with (String squote rest). simpl. change ("" +:+ rest) with rest.
    by destruct (sh_word false rest) as [[]|].
  - simpl. case_decide as Ha.
    + subst a. rewrite string_app_assoc, escape_read, IH. by destruct (sh_word false rest) as [[]|].
    + rewrite append_cons. simpl. rewrite decide_False by done. rewrite IH. by destruct (sh_word false rest) as [[]|].
Qed.

(** A quoted id is one word of the shell, and the word is the id, whatever
    characters it has: the commands that restart a file server pass its id on as it is. *)
Theorem shellQuote_is_one_word s rest :
  sh_word false (shellQuote s +:+ " " +:+ rest) = Some (s, " " +:+ rest).
Proof.
  unfold shellQuote. rewrite !string_app_assoc.
  change ("'" +:+ (escape_quotes s +:+ ("'" +:+ (" " +:+ rest)))) with (String squote (escape_quotes s +:+ "'" +:+ (" " +:+ rest))).
  simpl sh_word. rewrite sh_word_escaped. simpl. f_equal. f_equal.
  apply string_app_nil_r.
Qed.

(** The address of a file server is not quoted: the part before its last colon is the
    default of [-own_ip] and stands in the command as it is. *)
Example address_reaches_the_shell :
  let n := mkNodeState "0" "fs1" 1 "FS-1" "dvfs1" "10.0.0.1;reboot #:50052" "" StatusOnline 0 None zero_rates new_ring in
  let o := NewOrchestrator "" "" "" [] in
  binary_command "fileserver" "~/d" (preset_of o "0" n)
  = cats ["fuser -k 50052/tcp 2>/dev/null || pkill -f 'fileserver -id=fs1' || true; sleep 1; nohup ~/d/bin/fileserver -id='fs1' -port=50052 -data=./fileserver_data_0 -meta_addr=127.0.0.1:50051 -own_ip=10.0.0.1;reboot # > ~/d/fileserver.log 2>&1 < /dev/null &"].
Proof. vm_compute. reflexivity. Qed.

(** ** Runs *)

Section runs.
Context {D : Type} `{OS D, !DiskLaws D, Json (list Alert), Json (list GistNode), Json (gmap string Z),
  Json MetricsSnapshotFile, Json (list CommandRecord), !JsonLaws (list CommandRecord)}.
Context (clock nano : nat → Z) (uuid : nat → string) (ssh : nat → SSHRun → SSHAnswer)
  (range : ∀ A, gmap string A → list (string * A)).
Context (range_perm : ∀ A (m : gmap string A), range A m ≡ₚ map_to_list m).
Implicit Types (w : Site D) (o : Orchestrator) (req : ActionRequest) (n : NodeState).

(** The command of a node with these parameters. *)
Definition the_command o req (p : NodeRestartParams) : string :=
  match (FormatCommand (S := unit) o req (Some p) tt).2 with Ok c => c | _ => "" end.
Lemma FormatCommand_run {S} o req p (s : S) : FormatCommand o req (Some p) s = (s, Ok (the_command o req p)).
Proof. unfold the_command, FormatCommand. repeat (case_decide; [try done; repeat (case_decide; [done|]); done|]). done. Qed.

Definition params_of o req (target : string * NodeState) : NodeRestartParams :=
  match aqRestartParams req !! target.1 with Some q => q | None => preset_of o target.1 target.2 end.
Definition login_user o req : string := or_else (or_else (aqSSHUser req) (defaultSSHUser o)) "ubuntu".
Definition login_key o req : string := or_else (or_else (aqSSHKeyPath req) (defaultSSHKey o)) "~/.ssh/id_rsa".
(** The run of an action on one of its targets. *)
Definition run_for o req (target : string * NodeState) : SSHRun :=
  let '(nID, n) := target in
  let p := params_of o req target in
  mkSSHRun (or_else (match Session.SplitHostPort (nAddress n) with Some (h, _) => h | None => "" end) (nAddress n))
    (ssh_port o req (Some p)) (ssh_user req (login_user o req) nID n (Some p)) (login_key o req) (the_command o req p).

(** Nothing of the console moved but the clock and the disk. *)
Definition still (c c' : Console D) : Prop := quiet c c' ∧ am (alertw c') = am (alertw c) ∧ cells (alertw c') = cells (alertw c).
Definition with_ticks (k : nat) w : Site D :=
  let c := console w in let v := alertw c in
  mkSite (mkConsole (admin c) (records c) (mkAlertWorld (am v) (cells v) (adisk v) k) (has_alerts c) (discovery c))
    (orchestrator w) (commands w) (sent w).

Lemma tick_site w : on_console (alerting tick) w = (with_ticks (S (ticks (alertw (console w)))) w, Ok (ticks (alertw (console w)))).
Proof. done. Qed.
Lemma time_ns_run w : ∃ t, time_ns nano w = (with_ticks (S (ticks (alertw (console w)))) w, Ok t).
Proof. unfold time_ns. erewrite bind_ok by apply tick_site. by eexists. Qed.

(** A world that agrees with another but for the clock and what was run. *)
Definition ran (runs : list SSHRun) w w' : Prop :=
  ∃ k, w' = mkSite (console (with_ticks k w)) (orchestrator w) (commands w) (sent w ++ runs).
Lemma ran_refl w : ran [] w w.
Proof. exists (ticks (alertw (console w))). destruct w as [[a r [m c d t] h di] o cm s]. simpl. by rewrite app_nil_r. Qed.
Lemma ran_trans r1 r2 w1 w2 w3 : ran r1 w1 w2 → ran r2 w2 w3 → ran (r1 ++ r2) w1 w3.
Proof. intros [k1 ->] [k2 ->]. exists k2. simpl. by rewrite app_assoc. Qed.

Lemma run_on_run o req (presets : gmap string NodeRestartParams) nID n w :
  presets !! nID = Some (preset_of o nID n) →
  let r := run_for o req (nID, n) in let a := ssh (length (sent w)) r in
  ∃ w' t, run_on nano ssh o req (login_user o req) (login_key o req) presets (nID, n) w
          = (w', Ok (mkNodeResult nID (nAddress n) (saExitCode a) (node_output a) (run_error req a) t, run_failed a))
    ∧ ran [r] w w'.
Proof.
  intros Hp. cbv zeta. unfold run_on. destruct (time_ns_run w) as [t1 Hrun1]. erewrite bind_ok by exact Hrun1. cbv zeta.
  assert (match aqRestartParams req !! nID with Some q => Some q | None => presets !! nID end = Some (params_of o req (nID, n))) as ->.
  { unfold params_of. simpl. destruct (aqRestartParams req !! nID); [done|exact Hp]. }
  erewrite bind_ok by apply FormatCommand_run. set (w1 := with_ticks _ w). set (r := run_for o req (nID, n)).
  match goal with |- context [ssh_run ssh ?x] => replace x with r by done end.
  assert (ssh_run ssh r w1 = (mkSite (console w1) (orchestrator w1) (commands w1) (sent w1 ++ [r]), Ok (ssh (length (sent w)) r))) as Hssh by done.
  erewrite bind_ok by exact Hssh. set (w2 := mkSite (console w1) _ _ _).
  destruct (time_ns_run w2) as [t2 Hrun2]. erewrite bind_ok by exact Hrun2.
  eexists _, _. split; [reflexivity|]. eexists. reflexivity.
Qed.

(** The results of the targets, each under the key of its node. *)
Definition results_ok o req (k : nat) (targets : list (string * NodeState)) (results : gmap string NodeResult) : Prop :=
  (∀ id, is_Some (results !! id) ↔ id ∈ targets.*1)
  ∧ ∀ i id n, targets !! i = Some (id, n) →
      let a := ssh (k + i) (run_for o req (id, n)) in
      ∃ t, results !! id = Some (mkNodeResult id (nAddress n) (saExitCode a) (node_output a) (run_error req a) t).
Fixpoint any_failed o req (k : nat) (targets : list (string * NodeState)) : bool :=
  match targets with
  | [] => false
  | t :: targets => run_failed (ssh k (run_for o req t)) || any_failed o req (S k) targets
  end.

Lemma run_all_run o req (presets : gmap string NodeRestartParams) targets w :
  (∀ id n, (id, n) ∈ targets → presets !! id = Some (preset_of o id n)) → NoDup targets.*1 →
  ∃ w' results, run_all nano ssh o req (login_user o req) (login_key o req) presets targets w
                = (w', Ok (results, any_failed o req (length (sent w)) targets))
    ∧ ran (map (run_for o req) targets) w w' ∧ results_ok o req (length (sent w)) targets results.
Proof.
  revert w. induction targets as [|[id n] targets IH]; intros w Hp Hnd; simpl.
  { exists w, ∅. split; [done|]. split; [apply ran_refl|]. split; [|done].
    intros id. rewrite lookup_empty. split; [by intros []|by intros ?%elem_of_nil]. }
  apply NoDup_cons in Hnd as [Hid Hnd].
  destruct (run_on_run o req presets id n w) as (w1 & t & Hrun1 & Hran1); [apply Hp; by left|].
  erewrite bind_ok by exact Hrun1.
  destruct (IH w1) as (w2 & results & Hrun2 & Hran2 & Hres); [intros id' n' Hin; apply Hp; by right|done|].
  assert (length (sent w1) = S (length (sent w))) as Hlen.
  { destruct Hran1 as [k ->]. simpl. rewrite length_app. simpl. lia. }
  erewrite bind_ok by exact Hrun2. rewrite Hlen in *. eexists _, _. split; [reflexivity|].
  split; [exact (ran_trans [_] _ _ _ _ Hran1 Hran2)|]. destruct Hres as [Hdom Hval]. split.
  - intros id'. simpl. rewrite lookup_insert_is_Some', elem_of_cons, Hdom. naive_solver.
  - intros [|i] id' n' Hi; simpl in Hi.
    + injection Hi as -> ->. exists t. simpl. rewrite Nat.add_0_r. apply lookup_insert_eq.
    + destruct (Hval i id' n' Hi) as [t' Ht']. exists t'. simpl. rewrite lookup_insert_ne.
      * replace (length (sent w) + S i)%nat with (S (length (sent w)) + i)%nat by lia. exact Ht'.
      * intros <-. apply Hid. apply list_elem_of_lookup_2 in Hi. by apply (list_elem_of_fmap_2 fst) in Hi.
Qed.
(** ** Locks *)

Definition with_locks (m : gmap string string) o : Orchestrator :=
  mkOrchestrator (defaultSSHUser o) (defaultSSHKey o) (defaultRepoPath o) (defaultSSHPort o) m.
Definition holding o (m : gmap string string) w : Site D :=
  mkSite (console w) (Some (with_locks m o)) (commands w) (sent w).
Definition locked (action : string) (ids : list string) (m : gmap string string) : gmap string string :=
  foldl (λ m id, <[id := action]> m) m ids.
Definition released (ids : list string) (m : gmap string string) : gmap string string :=
  foldl (λ m id, delete id m) m ids.
Definition free_in (m : gmap string string) (ids : list string) : Prop := ∀ id, id ∈ ids → m !! id = None.

Lemma lookup_locked action ids m k :
  locked action ids m !! k = if decide (k ∈ ids) then Some action else m !! k.
Proof.
  revert m. induction ids as [|i ids IH]; intros m; simpl; [done|]. rewrite IH.
  destruct (decide (k = i)) as [->|Hne].
  - rewrite lookup_insert_eq, (decide_True (P := i ∈ i :: ids)) by (by left). by case_decide.
  - rewrite lookup_insert_ne by done. pose proof (elem_of_cons ids k i). repeat case_decide; naive_solver.
Qed.
Lemma lookup_released ids m k : released ids m !! k = if decide (k ∈ ids) then None else m !! k.
Proof.
  revert m. induction ids as [|i ids IH]; intros m; simpl; [done|]. rewrite IH.
  destruct (decide (k = i)) as [->|Hne].
  - rewrite lookup_delete_eq, (decide_True (P := i ∈ i :: ids)) by (by left). by case_decide.
  - rewrite lookup_delete_ne by done. pose proof (elem_of_cons ids k i). repeat case_decide; naive_solver.
Qed.
Lemma released_locked action ids m : free_in m ids → released ids (locked action ids m) = m.
Proof.
  intros Hf. apply map_eq. intros k. rewrite lookup_released, lookup_locked. case_decide; [|done].
  symmetry. by apply Hf.
Qed.

Lemma set_active_run f o m w : set_active f (holding o m w) = (holding o (f m) w, Ok tt).
Proof. done. Qed.
Lemma release_run ids o m w :
  for_each ids (λ id, set_active (delete id)) (holding o m w) = (holding o (released ids m) w, Ok tt).
Proof.
  revert m. induction ids as [|i ids IH]; intros m; simpl; [done|].
  erewrite bind_ok by apply set_active_run. apply IH.
Qed.

(** All the locks are taken, or none. *)
Lemma acquire_run action todo taken o m w :
  free_in m taken → NoDup taken →
  (NoDup (taken ++ todo) ∧ free_in m todo
   ∧ acquire action taken todo (holding o (locked action taken m) w) = (holding o (locked action (taken ++ todo) m) w, Ok tt))
  ∨ (¬ (NoDup (taken ++ todo) ∧ free_in m todo)
     ∧ ∃ e, acquire action taken todo (holding o (locked action taken m) w) = (holding o m w, Err e)).
Proof.
  revert taken. induction todo as [|i todo IH]; intros taken Hf Hnd; simpl.
  { left. rewrite app_nil_r. split_and!; [done|by intros id ?%elem_of_nil|done]. }
  erewrite bind_ok by reflexivity. simpl. rewrite lookup_locked.
  destruct (decide (i ∈ taken)) as [Hi|Hi]; [|destruct (m !! i) as [other|] eqn:Hm].
  - right. split; [intros [[_ [Hd _]]%NoDup_app _]; apply (Hd i Hi); by left|].
    erewrite bind_ok by apply release_run. rewrite released_locked by done. by eexists.
  - right. split; [intros [_ Hfree]; rewrite (Hfree i) in Hm by (by left); done|].
    erewrite bind_ok by apply release_run. rewrite released_locked by done. by eexists.
  - erewrite bind_ok by apply set_active_run.
    assert (<[i := action]> (locked action taken m) = locked action (taken ++ [i]) m) as ->.
    { unfold locked. by rewrite foldl_app. }
    assert (free_in m (taken ++ [i])) as Hf'.
    { intros id [?| ->%list_elem_of_singleton]%elem_of_app; [by apply Hf|done]. }
    assert (free_in m (i :: todo) ↔ free_in m todo) as Hiff.
    { unfold free_in. setoid_rewrite elem_of_cons. naive_solver. }
    assert (NoDup (taken ++ [i])) as Hnd'.
    { apply NoDup_app. split_and!; [done| |apply NoDup_singleton]. by intros j Hj ->%list_elem_of_singleton. }
    rewrite Hiff. destruct (IH (taken ++ [i]) Hf' Hnd') as [H5|H5]; rewrite <-!app_assoc in H5; auto.
Qed.

(** ** Targets *)

Lemma nodes_in_run table w :
  (∀ id p, (id, p) ∈ table → is_Some (records (console w) !! p)) →
  ∃ l, nodes_in table w = (w, Ok l)
    ∧ Forall2 (λ t u, t.1 = u.1 ∧ records (console w) !! t.2 = Some u.2) table l.
Proof.
  induction table as [|[id p] table IH]; intros Hin; simpl; [by exists []|].
  destruct (Hin id p) as [n Hn]; [by left|].
  assert (on_console (node_at p) w = (w, Ok n)) as Hrun.
  { unfold on_console. rewrite (node_at_run _ _ _ Hn). by destruct w. }
  erewrite bind_ok by exact Hrun. destruct IH as (l & Hl & Hall); [intros id' p' ?; apply (Hin id' p'); by right|].
  erewrite bind_ok by exact Hl. eexists. split; [reflexivity|]. by constructor.
Qed.
Lemma nodes_in_keys w table (l : list (string * NodeState)) :
  Forall2 (λ t u, t.1 = u.1 ∧ records (console w) !! t.2 = Some u.2) table l → l.*1 = table.*1.
Proof. induction 1 as [|t u ? ? [Heq _]]; simpl; [done|]. by f_equal. Qed.
Lemma nodes_in_elem w table (l : list (string * NodeState)) id n :
  Forall2 (λ t u, t.1 = u.1 ∧ records (console w) !! t.2 = Some u.2) table l →
  (id, n) ∈ l ↔ ∃ p, (id, p) ∈ table ∧ records (console w) !! p = Some n.
Proof.
  induction 1 as [|[i p] [j m] table l [Heq Hrec] _ IH]; simpl in *.
  { split; [by intros ?%elem_of_nil|by intros (? & ?%elem_of_nil & _)]. }
  subst j. setoid_rewrite elem_of_cons. rewrite IH. split.
  - intros [[= -> ->]|(q & Hq & Hn)]; [exists p; by split; [left|]|exists q; by split; [right|]].
  - intros (q & [[= -> ->]|Hq] & Hn); [left; congruence|right; by exists q].
Qed.

(** The nodes of the table among some ids, in some order. *)
Definition found_in (P : string → Prop) (c : Console D) (l : list (string * NodeState)) : Prop :=
  NoDup l.*1 ∧ ∀ id n, (id, n) ∈ l ↔ P id ∧ ∃ p, entry_of c id = Some (p, n).

Lemma table_run (P : string → Prop) table w :
  console_wf (console w) → NoDup table.*1 →
  (∀ id p, (id, p) ∈ table ↔ P id ∧ nodes (admin (console w)) !! id = Some p) →
  ∃ l, nodes_in table w = (w, Ok l) ∧ found_in P (console w) l.
Proof.
  intros Hw Hnd Htable. destruct (nodes_in_run table w) as (l & Hrun & Hall).
  { intros id p [_ Hp]%Htable. destruct (cw_nodes _ Hw _ _ Hp) as (n & Hn & _). by exists n. }
  exists l. split; [exact Hrun|]. split; [by rewrite (nodes_in_keys _ _ _ Hall)|].
  intros id n. rewrite (nodes_in_elem _ _ _ _ _ Hall). setoid_rewrite Htable. setoid_rewrite entry_Some. naive_solver.
Qed.
Lemma targets_run (ids : list string) w :
  console_wf (console w) →
  ∃ l, nodes_in (filter (λ kv : string * positive, kv.1 ∈ ids) (range _ (nodes (admin (console w))))) w = (w, Ok l)
    ∧ found_in (.∈ ids) (console w) l.
Proof.
  intros Hw. apply table_run; [done| |].
  - apply (sublist_NoDup _ (range _ (nodes (admin (console w)))).*1).
    + rewrite range_perm. apply NoDup_fst_map_to_list.
    + apply (fmap_sublist fst). apply sublist_filter.
  - intros id p. by rewrite list_elem_of_filter, (range_in range range_perm).
Qed.

Lemma list_to_map_in {A} (f : string * NodeState → A) (l : list (string * NodeState)) id n :
  NoDup l.*1 → (id, n) ∈ l →
  list_to_map (M := gmap string A) (map (λ '(id, n), (id, f (id, n))) l) !! id = Some (f (id, n)).
Proof.
  induction l as [|[i m] l IH]; simpl; intros Hnd Hin; [by apply elem_of_nil in Hin|].
  apply NoDup_cons in Hnd as [Hi Hnd]. apply elem_of_cons in Hin as [[= -> ->]|Hin]; [apply lookup_insert_eq|].
  rewrite lookup_insert_ne; [by apply IH|]. intros ->. apply Hi. by apply (list_elem_of_fmap_2 fst) in Hin.
Qed.
Lemma GetPresets_run o w :
  console_wf (console w) →
  ∃ presets, GetPresets range o w = (w, Ok presets)
    ∧ ∀ id p n, entry_of (console w) id = Some (p, n) → presets !! id = Some (preset_of o id n).
Proof.
  intros Hw. destruct (table_run (λ _, True) (range _ (nodes (admin (console w)))) w) as (l & Hrun & Hnd & Hin).
  - done.
  - rewrite range_perm. apply NoDup_fst_map_to_list.
  - intros id p. rewrite (range_in range range_perm). naive_solver.
  - unfold GetPresets, all_nodes. eexists. split.
    + erewrite bind_ok; [reflexivity|]. erewrite bind_ok by (unfold on_console; simpl; destruct w; reflexivity).
      destruct w. exact Hrun.
    + intros id p n He. apply (list_to_map_in (λ '(id, n), preset_of o id n)); [done|]. apply Hin. eauto.
Qed.

(** ** The action *)

Lemma display_command_run o req (presets : gmap string NodeRestartParams) targets w :
  (∀ id n, (id, n) ∈ targets → presets !! id = Some (preset_of o id n)) →
  ∃ shown, display_command o req presets targets w = (w, Ok shown).
Proof.
  intros Hp. unfold display_command. case_decide; [by eexists|]. destruct targets as [|[id n] targets]; [by eexists|].
  rewrite (Hp id n) by (by left). erewrite bind_ok by apply FormatCommand_run. by eexists.
Qed.
Lemma on_commands_run cap q r w :
  ch_holds cap q (commands w) →
  ∃ c' d, on_commands (History.Push r) w
          = (mkSite (mkConsole (admin (console w)) (records (console w))
                (mkAlertWorld (am (alertw (console w))) (cells (alertw (console w))) d (ticks (alertw (console w))))
                (has_alerts (console w)) (discovery (console w))) (orchestrator w) c' (sent w), Ok tt)
    ∧ ch_holds cap (enqueue cap q r) c'.
Proof.
  intros Hh. destruct (history_Push cap q (mkHistoryOn (commands w) (adisk (alertw (console w)))) r Hh) as (x & Hrun & Hx).
  exists (hist x), (hdisk x). split; [|exact Hx]. unfold on_commands. cbv zeta. by rewrite Hrun.
Qed.

(** What the table, the accounts and the alerts of a console say. *)
Definition same_console (c c' : Console D) : Prop :=
  admin c' = admin c ∧ records c' = records c ∧ am (alertw c') = am (alertw c) ∧ cells (alertw c') = cells (alertw c).

Lemma run_action_run o req id start targets cap q w :
  console_wf (console w) → found_in (.∈ aqTargetNodeIDs req) (console w) targets → ch_holds cap q (commands w) →
  ∃ w' r, run_action nano ssh range o req id start targets w = (w', Ok r)
    ∧ same_console (console w) (console w') ∧ orchestrator w' = orchestrator w
    ∧ sent w' = sent w ++ map (run_for o req) targets ∧ ch_holds cap (enqueue cap q r) (commands w')
    ∧ results_ok o req (length (sent w)) targets (crNodeResults r)
    ∧ crStatus r = (if any_failed o req (length (sent w)) targets then "failed" else "success")
    ∧ crTargetNodes r = aqTargetNodeIDs req ∧ crActionType r = aqActionType req ∧ crID r = id.
Proof.
  intros Hw [Hnd Hin] Hh. unfold run_action. cbv zeta.
  destruct (GetPresets_run o w Hw) as (presets & Hpresets & Hp). erewrite bind_ok by exact Hpresets.
  assert (∀ id n, (id, n) ∈ targets → presets !! id = Some (preset_of o id n)) as Hpt.
  { intros i n [_ [p He]]%Hin. by apply (Hp i p n). }
  destruct (display_command_run o req presets targets w Hpt) as [shown Hshown]. erewrite bind_ok by exact Hshown.
  destruct (run_all_run o req presets targets w Hpt Hnd) as (w1 & results & Hrun1 & [k1 ->] & Hres).
  erewrite bind_ok by exact Hrun1. set (w1 := mkSite _ _ _ _).
  destruct (time_ns_run w1) as [t Ht]. erewrite bind_ok by exact Ht. set (r := mkCommandRecord _ _ _ _ _ _ _ _).
  destruct (on_commands_run cap q r (with_ticks (S (ticks (alertw (console w1)))) w1) Hh) as (c' & d & Hpush & Hc').
  erewrite bind_ok by exact Hpush. eexists _, r. split; [reflexivity|]. by split_and!.
Qed.

(** What an action needs: a node that is known, and every id named once and idle. *)
Definition can_run o req (c : Console D) : Prop :=
  let ids := aqTargetNodeIDs req in
  (∃ id, id ∈ ids ∧ is_Some (entry_of c id)) ∧ NoDup ids ∧ free_in (activeNodes o) ids.

(** What has been done when the call returns. *)
Definition executed o req cap q w w' (r : res CommandRecord) : Prop :=
  same_console (console w) (console w') ∧ orchestrator w' = orchestrator w ∧
  match r with
  | Ok rec =>
      can_run o req (console w) ∧
      ∃ targets, found_in (.∈ aqTargetNodeIDs req) (console w) targets
        ∧ sent w' = sent w ++ map (run_for o req) targets ∧ ch_holds cap (enqueue cap q rec) (commands w')
        ∧ results_ok o req (length (sent w)) targets (crNodeResults rec)
        ∧ crStatus rec = (if any_failed o req (length (sent w)) targets then "failed" else "success")
        ∧ crTargetNodes rec = aqTargetNodeIDs req ∧ crActionType rec = aqActionType req
  | Err e => ¬ can_run o req (console w) ∧ sent w' = sent w ∧ commands w' = commands w
  | Panic _ => False
  end.

Lemma holding_self o w : orchestrator w = Some o → holding o (activeNodes o) w = w.
Proof. intros Ho. unfold holding. destruct w as [c x h l]. simpl in Ho. subst x. by destruct o. Qed.
Lemma found_none c (ids : list string) : found_in (.∈ ids) c [] → ¬ ∃ id, id ∈ ids ∧ is_Some (entry_of c id).
Proof.
  intros [_ Hin] (id & Hid & [[p n] He]). apply (not_elem_of_nil (id, n)), Hin. split; [done|]. by exists p.
Qed.
Lemma found_some c (ids : list string) l :
  found_in (.∈ ids) c l → l ≠ [] → ∃ id, id ∈ ids ∧ is_Some (entry_of c id).
Proof.
  intros [_ Hin] Hl. destruct l as [|[id n] l]; [done|]. destruct (proj1 (Hin id n)) as (Hid & p & He); [by left|].
  exists id. by rewrite He.
Qed.

(** The part under the locks, and their release. *)
Lemma deferring_run o req id start targets cap q w :
  console_wf (console w) → orchestrator w = Some o → found_in (.∈ aqTargetNodeIDs req) (console w) targets →
  targets ≠ [] → NoDup (aqTargetNodeIDs req) → free_in (activeNodes o) (aqTargetNodeIDs req) → ch_holds cap q (commands w) →
  ∃ w' r, deferring (for_each (aqTargetNodeIDs req) (λ id, set_active (delete id))) (run_action nano ssh range o req id start targets)
            (holding o (locked id (aqTargetNodeIDs req) (activeNodes o)) w) = (w', r) ∧ executed o req cap q w w' r.
Proof.
  intros Hw Ho Hf Hne Hnd Hfree Hh. set (ids := aqTargetNodeIDs req) in *. set (m := locked id ids (activeNodes o)).
  destruct (run_action_run o req id start targets cap q (holding o m w) Hw Hf Hh)
    as (w1 & r & Hrun & Hsame & Ho1 & Hsent & Hch & Hres & Hst & Htn & Hat & _).
  assert (w1 = holding o m w1) as Hw1 by (unfold holding; destruct w1; simpl in *; by rewrite Ho1).
  assert (released ids m = activeNodes o) as Hrel by (by apply released_locked).
  assert (for_each ids (λ id, set_active (delete id)) w1 = (holding o (activeNodes o) w1, Ok tt)) as Hfree1.
  { rewrite Hw1 at 1. by rewrite release_run, Hrel. }
  exists (holding o (activeNodes o) w1), (Ok r). split.
  - unfold deferring. by rewrite Hrun, Hfree1.
  - split; [exact Hsame|]. split; [simpl; rewrite Ho; by destruct o|].
    split; [split; [by apply (found_some _ _ targets)|done]|]. by exists targets.
Qed.

(** C34. An action runs exactly when some of its nodes are known, each id is named once and
    none of them is busy; otherwise it is refused, and nothing was run or recorded.  When
    it runs, each known node gets one command, with the login, the port and the parameters
    that the request, the presets and the defaults give in this order; the record says what
    each of them answered, fails when one of them did, and is the newest of the history.
    Either way the locks are those from before, and the table and the alerts too. *)
Theorem Execute_correct o req cap q w :
  orchestrator w = Some o → console_wf (console w) → ch_holds cap q (commands w) →
  ∃ w' r, Execute nano uuid ssh range o req w = (w', r) ∧ executed o req cap q w w' r.
Proof.
  intros Ho Hw Hh. unfold Execute. cbv zeta.
  assert (on_console (alerting (short_uuid uuid)) w
    = (with_ticks (S (ticks (alertw (console w)))) w, Ok (String.substring 0 8 (uuid (ticks (alertw (console w))))))) as Hid by done.
  erewrite bind_ok by exact Hid. set (w1 := with_ticks _ w).
  destruct (time_ns_run w1) as [start Hstart]. erewrite bind_ok by exact Hstart.
  set (w2 := with_ticks _ w1). set (actionID := "act-" +:+ _). set (ids := aqTargetNodeIDs req).
  case_decide as Hids.
  { eexists _, _. split; [reflexivity|]. split; [done|]. split; [done|]. split; [|done].
    intros [(id & Hin & _) _]. fold ids in Hin. rewrite Hids in Hin. by apply elem_of_nil in Hin. }
  assert (console_wf (console w2)) as Hw2 by exact (tocked_wf _ (tocked_wf _ Hw)).
  assert (on_console (srv nodes) w2 = (w2, Ok (nodes (admin (console w2))))) as Htable by done.
  erewrite bind_ok by exact Htable. destruct (targets_run ids w2 Hw2) as (targets & Hrun & Hf).
  erewrite bind_ok by exact Hrun. case_decide as Hnone.
  { subst targets. eexists _, _. split; [reflexivity|]. split; [done|]. split; [done|]. split; [|done].
    intros [Hex _]. by apply (found_none _ _ Hf). }
  destruct (acquire_run actionID ids [] o (activeNodes o) w2) as [(Hnd & Hfree & Hacq)|(Hno & e & Hacq)];
    [by intros id ?%elem_of_nil|apply NoDup_nil_2|..]; unfold locked at 1 in Hacq; simpl in Hacq;
    rewrite (holding_self o w2 Ho) in Hacq.
  - erewrite bind_ok by exact Hacq.
    destruct (deferring_run o req actionID start targets cap q w2 Hw2 Ho Hf Hnone Hnd Hfree Hh) as (w' & r & Hd & Hex).
    exists w', r. split; [exact Hd|]. exact Hex.
  - erewrite bind_err by exact Hacq. eexists _, _. split; [reflexivity|]. split; [done|]. split; [done|]. split; [|done].
    intros (_ & Hnd & Hfree). apply Hno. by split.
Qed.
End runs.

(** ** The theorem on a console with one node *)

Definition demo_orchestrator : Orchestrator := NewOrchestrator "" "" "" [].
Definition demo_commands : CommandHistory := mkCommandHistory (replicate 2 zero_record) 2 0 0 "./bin/admin_command_history.json".
Definition demo_site : Site MemDisk := mkSite demo_listed (Some demo_orchestrator) demo_commands [].
Definition demo_ssh (k : nat) (r : SSHRun) : SSHAnswer := mkSSHAnswer 0 None false "Already up to date." "".
Definition demo_request (ids : list string) : ActionRequest :=
  mkActionRequest "pull" ids "" "" "" "" "" "" 0 0 0 "" "" "" ∅ "" "".

Lemma demo_commands_hold : ch_holds 2 [] demo_commands.
Proof. apply (fresh_holds 2 "./bin/admin_command_history.json"). Qed.
Lemma demo_ssh_fine o req k targets : any_failed demo_ssh o req k targets = false.
Proof. revert k. by induction targets as [|t targets IH]; intros k; [|exact (IH (S k))]. Qed.

Lemma demo_site_wf : console_wf (console demo_site).
Proof. exact (proj1 demo_listed_ok). Qed.
Abbreviation demo_execute := (Execute demo_nano demo_uuid demo_ssh demo_range demo_orchestrator).
Lemma Execute_correct_witness :
  (∃ w' rec, demo_execute (demo_request ["0"]) demo_site = (w', Ok rec)
     ∧ crStatus rec = "success" ∧ ch_holds 2 [rec] (commands w') ∧ orchestrator w' = Some demo_orchestrator)
  ∧ ∃ w' e, demo_execute (demo_request ["0"; "0"]) demo_site = (w', Err e) ∧ sent w' = [].
Proof.
  pose proof (λ req, Execute_correct demo_nano demo_uuid demo_ssh demo_range demo_range_perm demo_orchestrator req 2 []
    demo_site eq_refl demo_site_wf demo_commands_hold) as Hexec. split.
  - destruct (Hexec (demo_request ["0"])) as (w' & r & Hrun & Hex). destruct r as [rec|e|why].
    + exists w', rec. split; [exact Hrun|]. destruct Hex as (_ & Ho & _ & targets & _ & _ & Hch & _ & Hst & _).
      rewrite demo_ssh_fine in Hst. split; [exact Hst|]. split; [exact Hch|exact Ho].
    + exfalso. destruct Hex as (_ & _ & Hno & _). apply Hno. destruct (proj2 demo_listed_ok) as (p & n & He & _).
      split; [exists "0"; split; [by left|exists (p, n); exact He]|].
      split; [apply NoDup_singleton|]. intros id _. apply lookup_empty.
    + exfalso. apply Hex.
  - destruct (Hexec (demo_request ["0"; "0"])) as (w' & r & Hrun & Hex). destruct r as [rec|e|why].
    + exfalso. destruct Hex as (_ & _ & (_ & Hnd & _) & _). apply NoDup_cons in Hnd as [Hnd _]. apply Hnd. by left.
    + exists w', e. split; [exact Hrun|]. apply Hex.
    + exfalso. apply Hex.
Defined.
