(* ===== verification/Locks.v ===== *)
(** * The locks of actions under interleaving

    The actions of the console run at once, each in its own request; what keeps two of
    them off one node is the map of active nodes, whose calls are atomic.  This file runs
    any number of actions in any interleaving of these calls. *)
From S2P Require Import Prelude GoStd Disk Ring History Node Alerts Storage Discovery Console PollSpec Orchestrator OrchSpec.
From Stdlib Require Import QArith.
From stdpp Require Import relations.
#[global] Open Scope Z_scope.

(** Where an action is: locks taken and to take, its run, locks still to give back. *)
Inductive phase :=
  | Acquiring (taken todo : list string)
  | Running (ids : list string)
  | Releasing (ids : list string)
  | Gone.
#[export] Instance phase_eq_dec : EqDecision phase.
Proof. solve_decision. Defined.
Abbreviation locks := (gmap string string).

(** One call of an action on the map: [LoadOrStore] or [Delete]. *)
Inductive act (a : string) : locks → phase → locks → phase → Prop :=
  | act_take m n taken todo : m !! n = None →
      act a m (Acquiring taken (n :: todo)) (<[n := a]> m) (Acquiring (taken ++ [n]) todo)
  | act_busy m n b taken todo : m !! n = Some b →
      act a m (Acquiring taken (n :: todo)) m (Releasing taken)
  | act_start m taken : act a m (Acquiring taken []) m (Running taken)
  | act_stop m ids : act a m (Running ids) m (Releasing ids)
  | act_free m n ids : act a m (Releasing (n :: ids)) (delete n m) (Releasing ids)
  | act_end m : act a m (Releasing []) m Gone.

(** Any action may make the next call. *)
Definition Pool : Type := locks * list (string * phase).
Inductive pool_step : Pool → Pool → Prop :=
  | pool_act m m' l i a ph ph' : l !! i = Some (a, ph) → act a m ph m' ph' →
      pool_step (m, l) (m', <[i := (a, ph')]> l).
(** Requests come with their ids, and no lock is held. *)
Definition starting (reqs : list (string * list string)) : Pool :=
  (∅, map (λ '(a, ids), (a, Acquiring [] ids)) reqs).

Definition held (ph : phase) : list string :=
  match ph with Acquiring taken _ => taken | Running ids => ids | Releasing ids => ids | Gone => [] end.

Definition holder (s : Pool) (i : nat) : list string :=
  match s.2 !! i with Some (_, ph) => held ph | None => [] end.

(** Every lock is held by one action, once. *)
Record pool_inv (s : Pool) : Prop := {
  pi_once i : NoDup (holder s i);
  pi_one i j n : n ∈ holder s i → n ∈ holder s j → i = j;
  pi_locked n : is_Some (s.1 !! n) ↔ ∃ i, n ∈ holder s i;
}.

(** What a call does to the locks of the action. *)
Lemma act_held a m ph m' ph' :
  act a m ph m' ph' → NoDup (held ph) →
  (m' = m ∧ held ph' ≡ₚ held ph)
  ∨ (∃ n, m !! n = None ∧ m' = <[n := a]> m ∧ held ph' ≡ₚ n :: held ph)
  ∨ (∃ n, m' = delete n m ∧ held ph ≡ₚ n :: held ph').
Proof.
  intros Hact Hnd. destruct Hact; simpl; try (by left).
  - right; left. exists n. split_and!; [done|done|by rewrite Permutation_app_comm].
  - right; right. by exists n.
Qed.

Lemma initial_inv reqs : pool_inv (starting reqs).
Proof.
  assert (∀ i, holder (starting reqs) i = []) as Hh.
  { intros i. unfold holder. simpl. rewrite list_lookup_fmap. by destruct (reqs !! i) as [[b ids]|]. }
  split.
  - intros i. rewrite Hh. apply NoDup_nil_2.
  - intros i j n Hn. rewrite Hh in Hn. by apply elem_of_nil in Hn.
  - intros n. simpl. rewrite lookup_empty. split; [by intros []|]. intros (i & Hn). rewrite Hh in Hn.
    by apply elem_of_nil in Hn.
Qed.

Lemma holder_step m m' (l : list (string * phase)) i a ph ph' j :
  l !! i = Some (a, ph) → holder (m', <[i := (a, ph')]> l) j = if decide (j = i) then held ph' else holder (m, l) j.
Proof.
  intros Hi. unfold holder. simpl. case_decide as Hj.
  - subst j. by rewrite list_lookup_insert_eq by (by apply lookup_lt_Some in Hi).
  - by rewrite list_lookup_insert_ne.
Qed.

(** Taking a free lock, giving one back, and neither. *)
Lemma pool_inv_take s s' i n :
  pool_inv s → s.1 !! n = None → is_Some (s'.1 !! n) → (∀ k, k ≠ n → s'.1 !! k = s.1 !! k) →
  holder s' i ≡ₚ n :: holder s i → (∀ j, j ≠ i → holder s' j = holder s j) → pool_inv s'.
Proof.
  intros [Honce Hone Hlock] Hfree Hn Hrest Hi Hj.
  assert (∀ j, n ∉ holder s j) as Hnew.
  { intros j Hin. destruct (proj2 (Hlock n) (ex_intro _ j Hin)) as [x Hx]. congruence. }
  assert (∀ j k, k ∈ holder s' j ↔ (k = n ∧ j = i) ∨ k ∈ holder s j) as Helem.
  { intros j k. destruct (decide (j = i)) as [->|Hne]; [rewrite Hi, elem_of_cons|rewrite Hj by done]; naive_solver. }
  split.
  - intros j. destruct (decide (j = i)) as [->|Hne]; [|by rewrite Hj].
    rewrite Hi. apply NoDup_cons. split; [apply Hnew|apply Honce].
  - intros j j' k. rewrite !Helem. intros [[-> ->]|Hk] [[? ->]|Hk']; simplify_eq; try done; [by destruct (Hnew _ Hk')|by destruct (Hnew _ Hk)|].
    by apply (Hone j j' k).
  - intros k. destruct (decide (k = n)) as [->|Hne].
    + split; [intros _; exists i; rewrite Helem; auto|done].
    + rewrite Hrest, Hlock by done. setoid_rewrite Helem. naive_solver.
Qed.
Lemma pool_inv_free s s' i n :
  pool_inv s → s'.1 !! n = None → (∀ k, k ≠ n → s'.1 !! k = s.1 !! k) →
  holder s i ≡ₚ n :: holder s' i → (∀ j, j ≠ i → holder s' j = holder s j) → pool_inv s'.
Proof.
  intros [Honce Hone Hlock] Hn Hrest Hi Hj.
  assert (NoDup (n :: holder s' i)) as Hnd by (rewrite <-Hi; apply Honce).
  apply NoDup_cons in Hnd as [Hni Hnd].
  assert (∀ j k, k ∈ holder s' j ↔ k ≠ n ∧ k ∈ holder s j) as Helem.
  { intros j k. destruct (decide (j = i)) as [->|Hne].
    - rewrite Hi, elem_of_cons. split; [intros Hk; split; [by intros ->|by right]|naive_solver].
    - rewrite Hj by done. split; [|naive_solver]. intros Hk. split; [|done]. intros ->. apply Hne.
      apply (Hone j i n); [done|]. rewrite Hi. by left. }
  split.
  - intros j. destruct (decide (j = i)) as [->|Hne]; [done|by rewrite Hj].
  - intros j j' k [_ Hk]%Helem [_ Hk']%Helem. by apply (Hone j j' k).
  - intros k. setoid_rewrite Helem. destruct (decide (k = n)) as [->|Hne].
    + rewrite Hn. split; [by intros []|]. by intros (j & [] & _).
    + rewrite Hrest, Hlock by done. naive_solver.
Qed.

Lemma step_inv s s' : pool_inv s → pool_step s s' → pool_inv s'.
Proof.
  intros Hinv Hstep. destruct Hstep as [m m' l i a ph ph' Hi Hact].
  pose proof (holder_step m m' l i a ph ph') as Hh.
  assert (holder (m, l) i = held ph) as Hhi by (unfold holder; simpl; by rewrite Hi).
  assert (holder (m', <[i := (a, ph')]> l) i = held ph') as Hhi' by (rewrite Hh by done; by rewrite decide_True).
  assert (∀ j, j ≠ i → holder (m', <[i := (a, ph')]> l) j = holder (m, l) j) as Hhj.
  { intros j Hj. rewrite Hh by done. by rewrite decide_False. }
  pose proof (pi_once _ Hinv i) as Hnd. rewrite Hhi in Hnd.
  destruct (act_held _ _ _ _ _ Hact Hnd) as [[-> Hp]|[(n & Hn & -> & Hp)|(n & -> & Hp)]].
  - destruct Hinv as [Honce Hone Hlock].
    assert (∀ j k, k ∈ holder (m, <[i := (a, ph')]> l) j ↔ k ∈ holder (m, l) j) as Helem.
    { intros j k. destruct (decide (j = i)) as [->|Hne]; [by rewrite Hhi', Hp, Hhi|by rewrite Hhj]. }
    split.
    + intros j. destruct (decide (j = i)) as [->|Hne]; [by rewrite Hhi', Hp|by rewrite Hhj].
    + intros j j' k. rewrite !Helem. apply Hone.
    + intros k. setoid_rewrite Helem. apply Hlock.
  - apply (pool_inv_take (m, l) _ i n); [done|done| | |by rewrite Hhi', Hhi|done]; simpl.
    + by rewrite lookup_insert_eq.
    + intros k Hk. by rewrite lookup_insert_ne.
  - apply (pool_inv_free (m, l) _ i n); [done| | |by rewrite Hhi', Hhi|done]; simpl.
    + apply lookup_delete_eq.
    + intros k Hk. by rewrite lookup_delete_ne.
Qed.
Lemma reach_inv reqs s : rtc pool_step (starting reqs) s → pool_inv s.
Proof.
  intros Hr. assert (pool_inv (starting reqs)) as Hinv by apply initial_inv. revert Hinv.
  induction Hr as [|s1 s2 s3 Hs _ IH]; [done|]. intros Hinv. apply IH. by apply (step_inv s1).
Qed.

(** ** The end of every action *)

(** The calls an action has left. *)
Definition phase_left (ph : phase) : nat :=
  match ph with
  | Acquiring taken todo => length taken + 2 * length todo + 3
  | Running ids => length ids + 2
  | Releasing ids => length ids + 1
  | Gone => 0
  end.
Definition calls_left (s : Pool) : nat := sum_list_with (λ p, phase_left p.2) s.2.

Lemma act_left a m ph m' ph' : act a m ph m' ph' → (phase_left ph' < phase_left ph)%nat.
Proof. destruct 1; simpl; rewrite ?length_app; simpl; lia. Qed.
Lemma sum_update {A} (f : A → nat) (l : list A) i x y :
  l !! i = Some x → (sum_list_with f (<[i := y]> l) + f x = sum_list_with f l + f y)%nat.
Proof.
  revert i. induction l as [|z l IH]; intros [|i] Hi; simplify_eq/=; [lia|]. specialize (IH i Hi). lia.
Qed.
Lemma step_left s s' : pool_step s s' → (calls_left s' < calls_left s)%nat.
Proof.
  destruct 1 as [m m' l i a ph ph' Hi Hact]. unfold calls_left. simpl.
  pose proof (sum_update (λ p : string * phase, phase_left p.2) l i (a, ph) (a, ph') Hi) as Hsum. simpl in Hsum.
  pose proof (act_left _ _ _ _ _ Hact). lia.
Qed.
(** No call blocks. *)
Lemma act_total a m ph : ph ≠ Gone → ∃ m' ph', act a m ph m' ph'.
Proof.
  destruct ph as [taken [|n todo]|ids|[|n ids]|]; intros Hne; [..|done]; try (by eexists _, _; constructor).
  destruct (m !! n) as [b|] eqn:Hn; eexists _, _; [by eapply act_busy|by apply act_take].
Qed.

(** What an action has asked for. *)
Definition asked (ids : list string) (ph : phase) : Prop :=
  match ph with Acquiring taken todo => taken ++ todo = ids | Running p => p = ids | Releasing _ | Gone => True end.
Lemma act_asked a m ph m' ph' ids : act a m ph m' ph' → asked ids ph → asked ids ph'.
Proof. destruct 1; simpl; try done; by rewrite <-?app_assoc, ?app_nil_r. Qed.
Lemma reach_asked reqs s i a ph :
  rtc pool_step (starting reqs) s → s.2 !! i = Some (a, ph) → ∃ ids, reqs !! i = Some (a, ids) ∧ asked ids ph.
Proof.
  intros Hr. revert i a ph.
  refine (rtc_ind_r (R := pool_step) (λ s, ∀ i a ph, s.2 !! i = Some (a, ph) → ∃ ids, reqs !! i = Some (a, ids) ∧ asked ids ph) (starting reqs) _ _ s Hr).

  - intros i a ph Hi. simpl in Hi. rewrite list_lookup_fmap in Hi.
    destruct (reqs !! i) as [[b ids]|]; simplify_eq/=. by exists ids.
  - intros s1 s2 _ [m m' l j b p p' Hj Hact] IH i a ph. simpl in *. destruct (decide (i = j)) as [->|Hne].
    + rewrite list_lookup_insert_eq by (by apply lookup_lt_Some in Hj). intros [= <- <-].
      destruct (IH j b p Hj) as (ids & Hids & Hask). exists ids. split; [done|]. by eapply act_asked.
    + rewrite list_lookup_insert_ne by done. apply IH.
Qed.

(** C35. However the requests interleave, an action that runs holds the locks of all the nodes
    it asked for, and no other action running or about to run holds one of them. *)
Theorem one_action_per_node reqs s i a p :
  rtc pool_step (starting reqs) s → s.2 !! i = Some (a, Running p) →
  reqs !! i = Some (a, p)
  ∧ ∀ n, n ∈ p → is_Some (s.1 !! n) ∧ ∀ j b q, s.2 !! j = Some (b, q) → n ∈ held q → j = i.
Proof.
  intros Hr Hi. destruct (reach_asked _ _ _ _ _ Hr Hi) as (ids & Hids & Hask). simpl in Hask. subst ids.
  split; [done|]. intros n Hn. destruct (reach_inv _ _ Hr) as [_ Hone Hlock].
  assert (n ∈ holder s i) as Hin by (unfold holder; by rewrite Hi).
  split; [apply Hlock; by exists i|]. intros j b q Hj Hq. apply (Hone j i n); [|done].
  unfold holder. by rewrite Hj.
Qed.

(** The locks never block: whatever the requests, every interleaving comes to an end after
    boundedly many calls, where every action has ended and no lock is left. *)
Theorem actions_end reqs :
  (∀ k s, nsteps pool_step k (starting reqs) s → (k ≤ calls_left (starting reqs))%nat)
  ∧ ∀ s, rtc pool_step (starting reqs) s →
      if decide (Forall (λ p, p.2 = Gone) s.2) then s.1 = ∅ else ∃ s', pool_step s s'.
Proof.
  split.
  - intros k s Hk. assert (k + calls_left s ≤ calls_left (starting reqs))%nat; [|lia].
    induction Hk as [s|k s1 s2 s3 Hs _ IH]; [lia|]. pose proof (step_left _ _ Hs). lia.
  - intros s Hr. case_decide as Hall.
    + apply map_eq. intros n. rewrite lookup_empty. destruct (s.1 !! n) as [b|] eqn:Hn; [|done]. exfalso.
      destruct (proj1 (pi_locked _ (reach_inv _ _ Hr) n)) as [i Hi]; [by exists b|]. unfold holder in Hi.
      destruct (s.2 !! i) as [[a ph]|] eqn:Hs; [|by apply elem_of_nil in Hi].
      pose proof (Forall_lookup_1 _ _ _ _ Hall Hs) as Hg. simpl in Hg. subst ph. by apply elem_of_nil in Hi.
    + apply not_Forall_Exists in Hall; [|intros x; apply phase_eq_dec].
      apply Exists_exists in Hall as ([a ph] & Hin & Hne). apply list_elem_of_lookup in Hin as [i Hi].
      destruct s as [m l]. destruct (act_total a m ph Hne) as (m' & ph' & Hact). eexists. by econstructor.
Qed.

(** ** The calls are those of the program *)

Section acquire.
Context {D : Type} `{OS D, !DiskLaws D, Json (list Alert), Json (list GistNode), Json (gmap string Z),
  Json MetricsSnapshotFile, Json (list CommandRecord), !JsonLaws (list CommandRecord)}.
Implicit Types (w : Site D) (o : Orchestrator).

Definition one_call (a : string) (x y : locks * phase) : Prop := act a x.1 x.2 y.1 y.2.
Lemma release_calls a m ids : rtc (one_call a) (m, Releasing ids) (released ids m, Gone).
Proof.
  revert m. induction ids as [|n ids IH]; intros m; simpl.
  - apply rtc_once. constructor.
  - eapply rtc_l; [|apply IH]. constructor.
Qed.

(** An action alone makes exactly these calls: when it gets its locks the map is the one
    of an action that runs, when it is refused that of an action that is gone, and giving
    the locks back at the end is a sequence of calls too. *)
Theorem acquire_makes_calls a ids o m w :
  (∃ m', acquire a [] ids (holding o m w) = (holding o m' w, Ok tt)
     ∧ rtc (one_call a) (m, Acquiring [] ids) (m', Running ids)
     ∧ ∃ m2, for_each ids (λ n, set_active (delete n)) (holding o m' w) = (holding o m2 w, Ok tt)
         ∧ rtc (one_call a) (m', Running ids) (m2, Gone))
  ∨ (∃ m' e, acquire a [] ids (holding o m w) = (holding o m' w, Err e)
       ∧ rtc (one_call a) (m, Acquiring [] ids) (m', Gone)).
Proof.
  assert (∀ todo taken m,
    (∃ m', acquire a taken todo (holding o m w) = (holding o m' w, Ok tt)
       ∧ rtc (one_call a) (m, Acquiring taken todo) (m', Running (taken ++ todo)))
    ∨ (∃ m' e, acquire a taken todo (holding o m w) = (holding o m' w, Err e)
       ∧ rtc (one_call a) (m, Acquiring taken todo) (m', Gone))) as Hall.
  { clear m. induction todo as [|n todo IH]; intros taken m; simpl.
    - left. exists m. split; [done|]. rewrite app_nil_r. apply rtc_once. constructor.
    - erewrite bind_ok by reflexivity. simpl. destruct (m !! n) as [b|] eqn:Hn.
      + right. erewrite bind_ok by apply release_run. eexists _, _. split; [reflexivity|].
        eapply rtc_l; [|apply release_calls]. by eapply act_busy.
      + erewrite bind_ok by apply set_active_run.
        assert (one_call a (m, Acquiring taken (n :: todo)) (<[n:=a]> m, Acquiring (taken ++ [n]) todo)) as Hone by (by constructor).
        destruct (IH (taken ++ [n]) (<[n := a]> m)) as [(m' & Hrun & Hc)|(m' & e & Hrun & Hc)].
        * left. exists m'. split; [done|]. rewrite <-app_assoc in Hc. by eapply rtc_l.
        * right. exists m', e. split; [done|]. by eapply rtc_l. }
  destruct (Hall ids [] m) as [(m' & Hrun & Hc)|?]; [left|by right]. exists m'. split_and!; [done|done|].
  eexists. split; [apply release_run|]. eapply rtc_l; [|apply release_calls]. constructor.
Qed.
End acquire.

(** Two requests for the same node: one of them is refused. *)
Definition demo_race : list (string * list string) := [("act-1", ["0"; "1"]); ("act-2", ["1"])].
Lemma demo_race_step m l i a ph m' ph' :
  l !! i = Some (a, ph) → act a m ph m' ph' → pool_step (m, l) (m', <[i := (a, ph')]> l).
Proof. intros. by econstructor. Qed.
Definition demo_locks : locks := {["0" := "act-1"; "1" := "act-2"]}.
Lemma one_action_per_node_witness :
  ∃ m : locks, m !! "1" = Some "act-2" ∧ (∀ j b q, [("act-1", Releasing ["0"]); ("act-2", Running ["1"])] !! j = Some (b, q) → "1" ∈ held q → j = 1%nat).
Proof.
  exists demo_locks. split; [vm_compute; reflexivity|].
  apply (one_action_per_node demo_race (demo_locks, [("act-1", Releasing ["0"]); ("act-2", Running ["1"])]) 1 "act-2" ["1"]);
    [|reflexivity|by left].
  eapply rtc_l; [eapply (demo_race_step _ _ 0); [reflexivity|apply act_take; reflexivity]|].
  eapply rtc_l; [eapply (demo_race_step _ _ 1); [reflexivity|apply act_take; reflexivity]|].
  eapply rtc_l; [eapply (demo_race_step _ _ 1); [reflexivity|apply act_start]|].
  eapply rtc_l; [eapply (demo_race_step _ _ 0); [reflexivity|apply (act_busy _ _ _ "act-2"); reflexivity]|].
  assert (<["1" := "act-2"]> (<["0" := "act-1"]> ∅) = demo_locks) as -> by (vm_compute; reflexivity). apply rtc_refl.
Defined.
