(* ===== verification/AdminAuth.v ===== *)
(** * The administrator's sessions

    Models [internal/admin/auth.go]: the password hash read from the environment and the
    [.env] files, the session tokens of the console, and the wrapper that asks for one.
    SHA-256 and the random tokens are parameters; times are nanoseconds. *)
From S2P Require Import Prelude GoStd.
From S2P Require Session.

Definition sessionTTL : Z := 12 * 3600 * 1000000000.
Definition adminCookieName : string := "dvfs_admin_token".

(** ** The environment *)

(** [strings.SplitN(s, "=", 2)], when there is a separator. *)
Fixpoint split_eq (s : string) : option (string * string) :=
  match s with
  | EmptyString => None
  | String a s' =>
      if decide (a = "="%char) then Some ("", s')
      else match split_eq s' with Some (k, v) => Some (String a k, v) | None => None end
  end.
Definition quotes : list ascii := [ascii_of_nat 34; ascii_of_nat 39].
(** [os.Setenv], which refuses some keys and values. *)
Definition Setenv (key val : string) (env : gmap string string) : gmap string string :=
  if decide (key = "") then env
  else if Contains key "="%char || Contains key "000"%char || Contains val "000"%char then env
  else <[key := val]> env.
Definition Getenv (env : gmap string string) (key : string) : string := default "" (env !! key).

(** One line of a file; what is set already stays. *)
Definition env_line (env : gmap string string) (line : string) : gmap string string :=
  let line := Session.TrimSpace line in
  if decide (line = "") then env
  else if HasPrefix line "#" then env
  else match split_eq line with
       | None => env
       | Some (k, v) =>
           let key := Session.TrimSpace k in
           let val := Session.Trim quotes (Session.TrimSpace v) in
           if decide (Getenv env key = "") then Setenv key val env else env
       end.
(** The files in order; one that cannot be opened is skipped.  A file is read line by
    line; no line is longer than the scanner takes. *)
Definition LoadEnv (contents : list (option string)) (env : gmap string string) : gmap string string :=
  foldl (λ env o, match o with
                  | None => env
                  | Some text => foldl env_line env (Split (ascii_of_nat 10) text)
                  end) env contents.

Example LoadEnv_ex :
  let file := "# comment" +:+ String (ascii_of_nat 10) ("A = 'x=y' " +:+ String (ascii_of_nat 10) ("B=2" +:+ String (ascii_of_nat 10) "A=z")) in
  let env := LoadEnv [None; Some file] {["B" := "1"]} in (Getenv env "A", Getenv env "B") = ("x=y", "1").
Proof. reflexivity. Qed.

(** ** Sessions *)

Record AuthManager := mkAuthManager {
  hash : string;
  sessions : gmap string Z;
}.

(** The hash is printed shortened: [hash[:4]] of a shorter one panics. *)
Definition NewAuthManager (contents : list (option string)) (env : gmap string string) :
    gmap string string * res AuthManager :=
  let env := LoadEnv contents env in
  let h := Session.TrimSpace (ToLower (Getenv env "ADMIN_PASSWORD_HASH")) in
  if decide (h ≠ "" ∧ (String.length h < 4)%nat) then (env, Panic "slice bounds out of range")
  else (env, Ok (mkAuthManager h ∅)).
Definition SetHash (h : string) (m : AuthManager) : AuthManager :=
  mkAuthManager (Session.TrimSpace (ToLower h)) (sessions m).
Definition GetHash (m : AuthManager) : string := hash m.

Definition VerifyPassword (sha256_hex : string → string) (candidate : string) (m : AuthManager) : bool :=
  if decide (hash m = "") then false else String.eqb (sha256_hex candidate) (hash m).

(** [token] is the one drawn. *)
Definition CreateSession (token : string) (now : Z) (m : AuthManager) : AuthManager :=
  let live := filter (λ kv : string * Z, now ≤ kv.2) (sessions m) in
  mkAuthManager (hash m) (<[token := now + sessionTTL]> live).
Definition RevokeSession (token : string) (m : AuthManager) : AuthManager :=
  if decide (token = "") then m else mkAuthManager (hash m) (delete token (sessions m)).

(** The part of a request that carries a token. *)
Record Credentials := mkCredentials {
  authorization : string;
  cookie : option string;
  queryToken : string;
}.
Definition ExtractToken (r : Credentials) : string :=
  let bearer := if HasPrefix (authorization r) "Bearer "
                then Session.TrimSpace (TrimPrefix (authorization r) "Bearer ") else "" in
  if decide (bearer ≠ "") then bearer
  else match cookie r with
       | Some c => if decide (c ≠ "") then c else queryToken r
       | None => queryToken r
       end.

Definition IsAuthenticated (now : Z) (r : Credentials) (m : AuthManager) : AuthManager * bool :=
  let token := ExtractToken r in
  if decide (token = "") then (m, false)
  else match sessions m !! token with
       | None => (m, false)
       | Some expiry => if expiry <? now then (RevokeSession token m, false) else (m, true)
       end.

(** ** What the sessions do *)

(** A request is let in exactly when it carries the token of a session that was opened
    and neither revoked nor outlived; the check closes an outlived session and changes
    nothing else. *)
Lemma IsAuthenticated_spec now r m m' b :
  IsAuthenticated now r m = (m', b) →
  (b = true ↔ ExtractToken r ≠ "" ∧ ∃ e, sessions m !! ExtractToken r = Some e ∧ now ≤ e)
  ∧ hash m' = hash m
  ∧ (∀ t e, sessions m !! t = Some e → now ≤ e → sessions m' !! t = Some e)
  ∧ (∀ t e, sessions m' !! t = Some e → sessions m !! t = Some e).
Proof.
  unfold IsAuthenticated. case_decide as Ht.
  { intros [= <- <-]. split; [by split; [|intros []]|]. split_and!; auto. }
  destruct (sessions m !! ExtractToken r) as [e|] eqn:He.
  2:{ intros [= <- <-]. split; [split; [done|]; by intros (_ & ? & ? & _)|]. split_and!; auto. }
  destruct (Z.ltb_spec e now) as [Hlt|Hge].
  - intros [= <- <-]. unfold RevokeSession. rewrite decide_False by done. split.
    + split; [done|]. intros (_ & e' & [= <-] & Hle). lia.
    + split_and!; [done| |]; intros t e' Hl; simpl in *.
      * intros Hle. rewrite lookup_delete_ne; [done|]. intros <-. rewrite He in Hl. injection Hl as <-. lia.
      * by apply lookup_delete_Some in Hl as [_ Hl].
  - intros [= <- <-]. split; [split; [|done]; intros _; split; [done|by exists e]|]. split_and!; auto.
Qed.

(** A session opened at [t0] is accepted for twelve hours, unless it is revoked, and
    never after. *)
Theorem session_lifetime token t0 now r m :
  token ≠ "" → ExtractToken r = token →
  (IsAuthenticated now r (CreateSession token t0 m)).2 = true ↔ now ≤ t0 + sessionTTL.
Proof.
  intros Hne Ht. destruct (IsAuthenticated now r (CreateSession token t0 m)) as [m' b] eqn:Hrun.
  apply IsAuthenticated_spec in Hrun as [Hb _]. simpl. rewrite Hb, Ht. unfold CreateSession. simpl.
  rewrite lookup_insert_eq. naive_solver.
Qed.
Lemma revoked_is_out now r token m :
  token ≠ "" → ExtractToken r = token → (IsAuthenticated now r (RevokeSession token m)).2 = false.
Proof.
  intros Hne Ht. unfold IsAuthenticated, RevokeSession. rewrite Ht, !decide_False by done. simpl.
  by rewrite lookup_delete_eq.
Qed.

(** A hash of fewer than four characters in the environment stops the console at start. *)
Theorem short_hash_panics :
  NewAuthManager [] {["ADMIN_PASSWORD_HASH" := "abc"]}
  = ({["ADMIN_PASSWORD_HASH" := "abc"]}, Panic "slice bounds out of range").
Proof. reflexivity. Qed.
