(* ===== verification/OAuth.v ===== *)
(** * Logging in with Google

    Models [internal/auth/pkce.go], the login flow of [internal/auth/google.go], the login
    of [cmd/client/auth_google.go] and [handleGoogleLoginCallback] of the console: the link
    with its state and challenge, the page Google sends the browser back to, the exchange
    of the code, and the token the user pastes.  Random bytes, SHA-256, the answer to a
    form that is posted and the decoder of JSON are parameters; the encodings are written
    out.  What is posted is recorded.

    The theorems: the encodings round-trip; whatever requests reach the page, a code is
    posted only for one that carries the state of the link, with the verifier the link's
    challenge was made of; what a mock token says; what the console's page lacks. *)
From S2P Require Import Prelude GoStd Disk Auth.
From S2P Require Session AdminAuth.
From Stdlib Require Import QArith Strings.Byte.
#[global] Open Scope Z_scope.

(** ** [encoding/base64], [encoding/hex] and [net/url] *)

Definition b64_char (z : Z) : ascii :=
  ascii_of_nat (Z.to_nat (if z <? 26 then z + 65 else if z <? 52 then z + 71 else if z <? 62 then z - 4
    else if z =? 62 then 45 else 95)).
Definition byte_Z (b : byte) : Z := Z.of_N (Byte.to_N b).
Fixpoint b64_sextets (l : bytes) : list Z :=
  match l with
  | [] => []
  | [x] => let x := byte_Z x in [x / 4; 16 * (x mod 4)]
  | [x; y] => let x := byte_Z x in let y := byte_Z y in [x / 4; 16 * (x mod 4) + y / 16; 4 * (y mod 16)]
  | x :: y :: z :: l =>
      let x := byte_Z x in let y := byte_Z y in let z := byte_Z z in
      x / 4 :: 16 * (x mod 4) + y / 16 :: 4 * (y mod 16) + z / 64 :: z mod 64 :: b64_sextets l
  end.
(** [base64.RawURLEncoding.EncodeToString] *)
Definition b64_encode (b : bytes) : string := String.string_of_list_ascii (map b64_char (b64_sextets b)).
Definition hex_digit (z : Z) : ascii := ascii_of_nat (Z.to_nat (if z <? 10 then z + 48 else z + 87)).
(** [hex.EncodeToString] *)
Definition hex_encode (b : bytes) : string :=
  String.string_of_list_ascii (flat_map (λ x, [hex_digit (byte_Z x / 16); hex_digit (byte_Z x mod 16)]) b).
Definition text (s : string) : bytes := String.list_byte_of_string s.
Definition text_of (b : bytes) : string := String.string_of_list_byte b.

(** The value of a hexadecimal digit. *)
Definition unhex (a : ascii) : option nat :=
  let n := nat_of_ascii a in
  if (48 <=? n)%nat && (n <=? 57)%nat then Some (n - 48)%nat
  else if (97 <=? n)%nat && (n <=? 102)%nat then Some (n - 87)%nat
  else if (65 <=? n)%nat && (n <=? 70)%nat then Some (n - 55)%nat
  else None.
(** [url.QueryUnescape] *)
Fixpoint QueryUnescape (s : string) : option string :=
  match s with
  | EmptyString => Some ""
  | String "%" (String h (String l s)) =>
      h ← unhex h; l ← unhex l; rest ← QueryUnescape s; Some (String (ascii_of_nat (16 * h + l)) rest)
  | String "%" _ => None
  | String "+" s => rest ← QueryUnescape s; Some (String " " rest)
  | String a s => rest ← QueryUnescape s; Some (String a rest)
  end.
(** A pair of a query; one with a semicolon or a broken escape is dropped. *)
Definition parse_pair (p : string) : option (string * string) :=
  if Contains p ";" then None
  else if decide (p = "") then None
  else let '(k, v) := match AdminAuth.split_eq p with Some kv => kv | None => (p, "") end in
       k ← QueryUnescape k; v ← QueryUnescape v; Some (k, v).
(** [r.URL.Query()] *)
Definition ParseQuery (q : string) : list (string * string) := omap parse_pair (Split "&" q).
(** [url.Values.Get]: the first value. *)
Fixpoint Get (l : list (string * string)) (k : string) : string :=
  match l with [] => "" | (k', v) :: l => if decide (k' = k) then v else Get l k end.
(** [url.Values] with one value each; [Encode] sorts by key. *)
Abbreviation Values := (gmap string string).
Definition key_le (x y : string * string) : Prop := String.leb x.1 y.1 = true.
#[export] Instance key_le_dec x y : Decision (key_le x y) := decide (_ = true).
Definition sorted (m : Values) : list (string * string) := merge_sort key_le (map_to_list m).
Definition Encode (m : Values) : string :=
  SJoin "&" (map (λ kv, QueryEscape kv.1 +:+ String "=" (QueryEscape kv.2)) (sorted m)).

Example encodings :
  (b64_encode [x68; x69; x3f], hex_encode [x0f; xa0], Encode {["b" := "x y&"; "a" := "1"]},
   ParseQuery "b=x+y%26&a=1&a;b&c=%zz&d")
  = ("aGk_", "0fa0", "a=1&b=x+y%26", [("b", "x y&"); ("a", "1"); ("d", "")]).
Proof. vm_compute. reflexivity. Qed.

(** ** The flow *)

Definition DefaultRedirectURI : string := "http://localhost:38485/logincallback".
Definition GoogleAuthEndpoint : string := "https://accounts.google.com/o/oauth2/v2/auth".
Definition GoogleTokenEndpoint : string := "https://oauth2.googleapis.com/token".
Record GoogleDesktopConfig := mkDesktopConfig { ClientID : string; ClientSecret : string; RedirectURI : string; MockAuth : bool }.
Record TokenResponse := mkTokenResponse { AccessToken : string; IdToken : string; ExpiresIn : Z; TokenType : string }.
Record PKCEPair := mkPKCE { Verifier : string; Challenge : string; Method : string }.

Definition or_default (v d : string) : string := if decide (v = "") then d else v.
(** The defaults are set when the program is linked. *)
Definition LoadDesktopConfig (DefaultClientID DefaultClientSecret : string) (contents : list (option string)) (env : gmap string string) :
    gmap string string * GoogleDesktopConfig :=
  let env := AdminAuth.LoadEnv contents env in
  let get k := Session.TrimSpace (AdminAuth.Getenv env k) in
  (env, mkDesktopConfig (or_default (get "GOOGLE_CLIENT_ID") (Session.TrimSpace DefaultClientID))
          (or_default (get "GOOGLE_CLIENT_SECRET") (Session.TrimSpace DefaultClientSecret))
          (or_default (get "GOOGLE_REDIRECT_URI") DefaultRedirectURI)
          (mock_enabled (AdminAuth.Getenv env))).

(** What the random source gave, if it did not fail. *)
Definition GeneratePKCE (sha256 : bytes → bytes) (random : option bytes) : error + PKCEPair :=
  match random with
  | None => inl (Errorf "failed to generate code verifier: %w" [])
  | Some b =>
      let verifier := b64_encode b in
      inr (mkPKCE verifier (b64_encode (sha256 (text verifier))) "S256")
  end.
Definition GenerateRandomState (random : bytes) : string := hex_encode random.

Definition auth_params (cfg : GoogleDesktopConfig) (email state codeChallenge : string) : Values :=
  let params := {["client_id" := ClientID cfg; "redirect_uri" := RedirectURI cfg; "response_type" := "code";
                  "scope" := "openid email profile"; "state" := state; "prompt" := "consent"]} in
  let params := if decide (email = "") then params else <["login_hint" := Session.TrimSpace (ToLower email)]> params in
  if decide (codeChallenge = "") then params
  else <["code_challenge_method" := "S256"]> (<["code_challenge" := codeChallenge]> params).
(** Without a state one is made of [random]. *)
Definition GenerateAuthURL (cfg : GoogleDesktopConfig) (email state codeChallenge : string) (random : bytes) : string :=
  let state := if decide (state = "") then GenerateRandomState random else state in
  GoogleAuthEndpoint +:+ String "?" (Encode (auth_params cfg email state codeChallenge)).

(** A form that was posted, and where. *)
Record Post := mkPost { pUrl : string; pForm : Values }.
(** The page the browser shows. *)
Record callbackPageData := mkCallbackPage { pgEmail : string; pgToken : string; pgError : option error }.

Section flow.
Context `{Json (gmap string jval), Json TokenResponse}.
(** The answer to a body that is posted to an URL. *)
Context (http_post : string → string → reply).

Definition quote : ascii := ascii_of_nat 34.
Definition mock_header : bytes :=
  text (String.concat (String quote "") ["{"; "alg"; ":"; "RS256"; ","; "typ"; ":"; "JWT"; "}"]).
Definition mock_claims (email : string) (now now' : Z) : gmap string jval :=
  {["iss" := JString "https://accounts.google.com"; "sub" := JString "mock-sub-12345";
    "email" := JString (Session.TrimSpace (ToLower email)); "email_verified" := JBool true; "aud" := JString "mock-client-id";
    "exp" := JNumber (inject_Z (Unix (now + 24 * hour))); "iat" := JNumber (inject_Z (Unix now'))]}.
(** [now] and [now'] are the two readings of the clock. *)
Definition MockToken (email : string) (now now' : Z) : string :=
  SJoin "." ["mock-jwt"; b64_encode mock_header; b64_encode (marshal (mock_claims email now now')); b64_encode (text "mock-signature")].

Definition ExtractEmailFromToken (rawToken : string) : string :=
  match Split "." rawToken with
  | _ :: p1 :: more =>
      let payload := match more with
                     | p2 :: _ => if HasPrefix rawToken mock_prefix then p2 else p1
                     | [] => p1
                     end in
      match b64_decode payload with
      | None => ""
      | Some b => match unmarshal (A := gmap string jval) b with
                  | None => ""
                  | Some m => match m !! "email" with Some (JString e) => Session.TrimSpace (ToLower e) | _ => "" end
                  end
      end
  | _ => ""
  end.

Definition token_form (cfg : GoogleDesktopConfig) (code redirectURI codeVerifier : string) : Values :=
  let data := {["client_id" := ClientID cfg]} in
  let data := if decide (ClientSecret cfg = "") then data else <["client_secret" := ClientSecret cfg]> data in
  let data := <["redirect_uri" := redirectURI]> (<["grant_type" := "authorization_code"]> (<["code" := code]> data)) in
  if decide (codeVerifier = "") then data else <["code_verifier" := codeVerifier]> data.
Definition posted (u : string) (form : Values) : M (list Post) unit := modify (λ l, l ++ [mkPost u form]).
(** Mock codes are for a mock configuration only, and never leave the program. *)
Definition ExchangeCodeForTokens (cfg : GoogleDesktopConfig) (code redirectURI codeVerifier : string) (now now' : Z) :
    M (list Post) TokenResponse :=
  if MockAuth cfg || HasPrefix code "mock-code:" then
    if negb (MockAuth cfg) then
      throw (Errorf "security violation: mock authorization code submitted while DVFS_AUTH_MOCK is disabled" [])
    else
      let email := if HasPrefix code "mock-code:" then TrimPrefix code "mock-code:" else "user@gmail.com" in
      mret (mkTokenResponse "mock-access-token" (MockToken email now now') 3600 "Bearer")
  else
    let form := token_form cfg code (or_default redirectURI (RedirectURI cfg)) codeVerifier in
    posted GoogleTokenEndpoint form ;;
    match http_post GoogleTokenEndpoint (Encode form) with
    | NetErr e => throw (Wrapf "token exchange request failed: %w" [] e)
    | Reply _ (inl e) => throw (Wrapf "failed to read token response: %w" [] e)
    | Reply status (inr body) =>
        if negb (status =? 200) then throw (Errorf "google token exchange returned status %d: %s" [pretty status; text_of body])
        else match unmarshal (A := TokenResponse) body with
             | None => throw (Errorf "failed to parse token response: %w" [])
             | Some t => mret t
             end
    end.

Definition error_page (e : error) : callbackPageData := mkCallbackPage "" "" (Some e).
(** The handler of the page, with the raw query of the request.  An expected state or a
    verifier that is empty is none. *)
Definition logincallback (cfg : GoogleDesktopConfig) (expectedState codeVerifier : string) (query : string) (now now' : Z) :
    M (list Post) callbackPageData :=
  let get := Get (ParseQuery query) in
  if decide (get "error" ≠ "") then mret (error_page (Errorf "Google returned error: %s" [get "error"]))
  else if decide (expectedState ≠ "" ∧ get "state" ≠ expectedState) then
    mret (error_page (Errorf "CSRF state parameter mismatch. Authorization request rejected." []))
  else if decide (get "code" = "") then mret (error_page (Errorf "No authorization code found in callback query parameters." []))
  else
    r ← catch (ExchangeCodeForTokens cfg (get "code") (RedirectURI cfg) codeVerifier now now');
    match r with
    | inl e => mret (error_page (Wrapf "Failed to exchange code for token: %v" [] e))
    | inr t =>
        let token := or_default (IdToken t) (AccessToken t) in
        mret (mkCallbackPage (or_default (ExtractEmailFromToken token) "Google User") token None)
    end.
(** The console has the same page, without a state or a verifier. *)
Definition handleGoogleLoginCallback (cfg : GoogleDesktopConfig) (query : string) (now now' : Z) : M (list Post) callbackPageData :=
  logincallback cfg "" "" query now now'.

(** The lines up to an address that looks like one, and those left; the input may end. *)
Fixpoint prompt_email (lines : list string) : option (string * list string) :=
  match lines with
  | [] => None
  | line :: lines =>
      let email := Session.TrimSpace (ToLower line) in
      if decide (email = "") then prompt_email lines
      else if negb (Contains email "@") || negb (Contains email ".") then prompt_email lines
      else Some (email, lines)
  end.
Fixpoint prompt_token (lines : list string) : option string :=
  match lines with
  | [] => None
  | line :: lines => let token := Session.TrimSpace line in if decide (token = "") then prompt_token lines else Some token
  end.
(** What a login set up: the link that is shown, and what the page expects. *)
Record Login := mkLogin { lgLink : string; lgState : string; lgVerifier : string }.
Definition start_login (sha256 : bytes → bytes) (cfg : GoogleDesktopConfig) (email : string) (random : option bytes) (random' : bytes) : Login :=
  let '(challenge, verifier) := match GeneratePKCE sha256 random with inr p => (Challenge p, Verifier p) | inl _ => ("", "") end in
  let state := GenerateRandomState random' in
  mkLogin (GenerateAuthURL cfg email state challenge []) state verifier.
Definition login_page (cfg : GoogleDesktopConfig) (l : Login) (query : string) (now now' : Z) : M (list Post) callbackPageData :=
  logincallback cfg (lgState l) (lgVerifier l) query now now'.
(** The login at the terminal; the page is served meanwhile. *)
Definition performUserAuth (getenv : string → string) (http_get : string → reply) (sha256 : bytes → bytes)
    (cfg : GoogleDesktopConfig) (lines : list string) (random : option bytes) (random' : bytes) (now later : Z) :
    M TokenCache (Login * string * string) :=
  if decide (ClientID cfg = "" ∧ MockAuth cfg = false) then
    throw (Errorf "Google OAuth client ID is not configured. Please set the GOOGLE_CLIENT_ID environment variable, or supply a .env file containing GOOGLE_CLIENT_ID=<client-id>" [])
  else
    match prompt_email lines with
    | None => throw (Errorf "failed to read email: %w" [])
    | Some (email, lines) =>
        match prompt_token lines with
        | None => throw (Errorf "failed to read token: %w" [])
        | Some token =>
            r ← catch (VerifyToken getenv http_get token email (ClientID cfg) now later);
            match r with
            | inl e => throw (Wrapf "token verification failed: %w" [] e)
            | inr claims => mret (start_login sha256 cfg email random random', cEmail claims, token)
            end
        end
    end.
End flow.

(** ** The encodings round-trip *)

Lemma b64_digit_char k : 0 ≤ k < 64 → b64_digit (b64_char k) = Some k.
Proof.
  intros Hk. assert (k ∈ map Z.of_nat (seq 0 64)) as Hin.
  { apply list_elem_of_fmap. exists (Z.to_nat k). split; [lia|]. apply elem_of_seq. lia. }
  clear Hk. revert k Hin. apply Forall_forall. by repeat constructor.
Qed.
Lemma b64_char_plain k a : a ∈ ["."; "010"; "013"]%char → 0 ≤ k < 64 → b64_char k ≠ a.
Proof.
  intros Ha Hk Heq. assert (b64_digit a = Some k) as Hd by (by rewrite <- Heq, b64_digit_char).
  repeat (apply elem_of_cons in Ha as [->|Ha]; [done|]). by apply elem_of_nil in Ha.
Qed.
Lemma byte_Z_range b : 0 ≤ byte_Z b < 256.
Proof. unfold byte_Z. pose proof (Byte.to_N_bounded b). lia. Qed.
Lemma byte_of_Z b z : z mod 256 = byte_Z b → byte_of z = b.
Proof. intros Hz. unfold byte_of. rewrite Hz. unfold byte_Z. by rewrite N2Z.id, Byte.of_to_N. Qed.
Lemma sextets_range l : Forall (λ k, 0 ≤ k < 64) (b64_sextets l).
Proof.
  revert l. fix IH 1. intros [|x [|y [|z l]]]; simpl;
    try pose proof (byte_Z_range x); try pose proof (byte_Z_range y); try pose proof (byte_Z_range z);
    repeat (apply Forall_cons_2; [Z.to_euclidean_division_equations; lia|]); [done..|apply IH].
Qed.
Lemma groups_sextets l : b64_groups (b64_sextets l) = Some l.
Proof.
  revert l. fix IH 1. intros [|x [|y [|z l]]]; simpl.
  - done.
  - pose proof (byte_Z_range x). do 2 f_equal. apply byte_of_Z. Z.to_euclidean_division_equations; lia.
  - pose proof (byte_Z_range x). pose proof (byte_Z_range y).
    do 2 f_equal; [|f_equal]; apply byte_of_Z; Z.to_euclidean_division_equations; lia.
  - pose proof (byte_Z_range x). pose proof (byte_Z_range y). pose proof (byte_Z_range z). rewrite IH; simpl.
    do 2 f_equal; [|f_equal; [|f_equal]]; try apply byte_of_Z; Z.to_euclidean_division_equations; lia.
Qed.
Lemma list_of_string_of_list l : String.list_ascii_of_string (String.string_of_list_ascii l) = l.
Proof. apply String.list_ascii_of_string_of_list_ascii. Qed.
(** What is encoded is decoded again. *)
Theorem base64_roundtrip b : b64_decode (b64_encode b) = Some b.
Proof.
  unfold b64_decode, b64_encode. rewrite list_of_string_of_list. pose proof (sextets_range b) as Hr.
  assert (∀ l, Forall (λ k, 0 ≤ k < 64) l →
    mapM b64_digit (List.filter (λ a, negb (Ascii.eqb a "010" || Ascii.eqb a "013")) (map b64_char l)) = Some l) as Hl.
  { clear. intros l Hl. induction Hl as [|k l Hk Hl IH]; [done|]. simpl.
    assert (b64_char k ≠ "010"%char ∧ b64_char k ≠ "013"%char) as [H1%Ascii.eqb_neq H2%Ascii.eqb_neq].
    { split; apply b64_char_plain; [set_solver|done|set_solver|done]. }
    rewrite H1, H2. simpl. rewrite b64_digit_char by done. simpl. by rewrite IH. }
  rewrite (Hl _ Hr). apply groups_sextets.
Qed.

(** One byte of a query. *)
Definition escape (a : ascii) : string := QueryEscape (String a "").
Lemma QueryEscape_cons a s : QueryEscape (String a s) = escape a +:+ QueryEscape s.
Proof. unfold escape. simpl. by repeat case_match. Qed.
Lemma unescape_escape a t : QueryUnescape (escape a +:+ t) = rest ← QueryUnescape t; Some (String a rest).
Proof. destruct a as [[] [] [] [] [] [] [] []]; vm_compute (escape _); reflexivity. Qed.
Lemma escape_plain a c : c ∈ ["&"; "="; ";"]%char → sep_free c (escape a).
Proof.
  intros Hc. unfold sep_free. repeat (apply elem_of_cons in Hc as [->|Hc]; [destruct a as [[] [] [] [] [] [] [] []]; reflexivity|]).
  by apply elem_of_nil in Hc.
Qed.
Lemma Unescape_Escape s : QueryUnescape (QueryEscape s) = Some s.
Proof. induction s as [|a s IH]; [done|]. by rewrite QueryEscape_cons, unescape_escape, IH. Qed.
Lemma sep_free_append c s t : sep_free c s → sep_free c t → sep_free c (s +:+ t).
Proof.
  unfold sep_free. induction s as [|a s IH]; [done|]. simpl. destruct (decide (a = c)); [done|]. apply IH.
Qed.
Lemma Escape_plain s c : c ∈ ["&"; "="; ";"]%char → sep_free c (QueryEscape s).
Proof. intros Hc. induction s as [|a s IH]; [done|]. rewrite QueryEscape_cons. by apply sep_free_append; [apply escape_plain|]. Qed.
Lemma split_eq_app k v : sep_free "=" k → AdminAuth.split_eq (k +:+ String "=" v) = Some (k, v).
Proof.
  unfold sep_free. induction k as [|a k IH]; intros Hk; [done|]. simpl in *.
  destruct (decide (a = "="%char)); [done|]. by rewrite IH.
Qed.
Definition pair_of (kv : string * string) : string := QueryEscape kv.1 +:+ String "=" (QueryEscape kv.2).
Lemma pair_of_plain kv c : c ∈ ["&"; ";"]%char → sep_free c (pair_of kv).
Proof.
  intros Hc. assert (c ∈ ["&"; "="; ";"]%char) by set_solver.
  apply sep_free_append; [by apply Escape_plain|]. unfold sep_free. simpl.
  destruct (decide ("="%char = c)) as [<-|_]; [set_solver|by apply Escape_plain].
Qed.
Lemma parse_pair_of kv : parse_pair (pair_of kv) = Some kv.
Proof.
  destruct kv as [k v]. unfold parse_pair.
  pose proof (pair_of_plain (k, v) ";" ltac:(set_solver)) as Hs. unfold sep_free in Hs. rewrite Hs.
  unfold pair_of; simpl. destruct (decide _) as [He|_].
  { destruct (QueryEscape k); discriminate He. }
  rewrite split_eq_app by (apply Escape_plain; set_solver). by rewrite !Unescape_Escape.
Qed.
(** A query that was encoded is read as the pairs it was made of. *)
Theorem query_roundtrip (m : Values) : ParseQuery (Encode m) = sorted m.
Proof.
  unfold ParseQuery, Encode. change (λ kv : string * string, _) with pair_of.
  assert (omap parse_pair (map pair_of (sorted m)) = sorted m) as Hp.
  { induction (sorted m) as [|kv l IH]; [done|]. simpl. rewrite parse_pair_of. f_equal. exact IH. }
  destruct (sorted m) as [|kv l] eqn:Hl; [done|]. rewrite Split_SJoin; [done|done|].
  apply Forall_map, Forall_forall. intros x _. apply pair_of_plain. set_solver.
Qed.
Lemma Get_NoDup l k v : NoDup l.*1 → (k, v) ∈ l → Get l k = v.
Proof.
  induction l as [|[k' v'] l IH]; simpl; [by intros _ ?%elem_of_nil|]. intros [Hk' Hl]%NoDup_cons [[= -> ->]|Hin]%elem_of_cons.
  - by rewrite decide_True.
  - rewrite decide_False; [by apply IH|]. intros ->. apply Hk'. apply list_elem_of_fmap. by exists (k, v).
Qed.
Lemma Get_absent l k : k ∉ l.*1 → Get l k = "".
Proof.
  induction l as [|[k' v'] l IH]; simpl; [done|]. intros [Hne Hl]%not_elem_of_cons. rewrite decide_False by done. by apply IH.
Qed.
Corollary query_param (m : Values) k : Get (ParseQuery (Encode m)) k = default "" (m !! k).
Proof.
  rewrite query_roundtrip. assert (sorted m ≡ₚ map_to_list m) as Hp by apply merge_sort_Permutation.
  destruct (m !! k) as [v|] eqn:Hk; simpl.
  - apply Get_NoDup; [rewrite Hp; apply NoDup_fst_map_to_list|]. by rewrite Hp, elem_of_map_to_list.
  - apply Get_absent. rewrite Hp. intros ([k' v] & -> & Hin%elem_of_map_to_list)%list_elem_of_fmap. simpl in Hk. congruence.
Qed.

(** ** The name in a token *)

Definition norm (email : string) : string := Session.TrimSpace (ToLower email).
Lemma b64_encode_plain b : sep_free "." (b64_encode b).
Proof.
  unfold b64_encode. induction (sextets_range b) as [|k l Hk Hl IH]; [done|]. unfold sep_free in *. simpl.
  rewrite decide_False; [done|]. apply b64_char_plain; [set_solver|done].
Qed.
Section token.
Context `{Json (gmap string jval)}.
Lemma MockToken_parts email now now' :
  Split "." (MockToken email now now') =
  ["mock-jwt"; b64_encode mock_header; b64_encode (marshal (mock_claims email now now')); b64_encode (text "mock-signature")].
Proof. apply Split_SJoin; [done|]. repeat (apply Forall_cons_2; [apply b64_encode_plain || done|]). done. Qed.
Lemma MockToken_prefix email now now' : HasPrefix (MockToken email now now') mock_prefix = true.
Proof. reflexivity. Qed.
(** The address a mock token is made for is the one that is read in it, and the one the
    verification of mock tokens reports. *)
Theorem mock_token_names_its_user `{!JsonLaws (gmap string jval)} email now now' later :
  ExtractEmailFromToken (MockToken email now now') = norm (norm email)
  ∧ ∃ exp, parseMockToken (MockToken email now now') later = inr (mkClaims (norm (norm email)) true "mock-client-id" exp).
Proof.
  unfold ExtractEmailFromToken, parseMockToken. rewrite MockToken_parts, MockToken_prefix, base64_roundtrip, unmarshal_marshal.
  unfold mock_claims, string_at. split; [reflexivity|].
  eexists. reflexivity.
Qed.
End token.

(** ** The page *)

Section page.
Context `{Json (gmap string jval), Json TokenResponse}.
Context (http_post : string → string → reply).

(** Requests to the page one after the other, with the times they come at. *)
Fixpoint serve (cfg : GoogleDesktopConfig) (l : Login) (reqs : list (string * Z * Z)) : M (list Post) (list callbackPageData) :=
  match reqs with
  | [] => mret []
  | (q, now, now') :: reqs => p ← login_page http_post cfg l q now now'; ps ← serve cfg l reqs; mret (p :: ps)
  end.

(** What a request may have posted. *)
Definition post_for (cfg : GoogleDesktopConfig) (verifier query : string) (p : Post) : Prop :=
  MockAuth cfg = false ∧ Get (ParseQuery query) "code" ≠ ""
  ∧ p = mkPost GoogleTokenEndpoint (token_form cfg (Get (ParseQuery query) "code") (or_default (RedirectURI cfg) (RedirectURI cfg)) verifier).
Definition invited (state query : string) : Prop := state ≠ "" → Get (ParseQuery query) "state" = state.

Lemma exchange_run cfg code uri verifier now now' posts :
  ∃ r, ExchangeCodeForTokens http_post cfg code uri verifier now now' posts =
       (if MockAuth cfg || HasPrefix code "mock-code:" then posts
        else posts ++ [mkPost GoogleTokenEndpoint (token_form cfg code (or_default uri (RedirectURI cfg)) verifier)], r)
       ∧ ∀ why, r ≠ Panic why.
Proof.
  unfold ExchangeCodeForTokens. destruct (MockAuth cfg || HasPrefix code "mock-code:").
  - destruct (negb (MockAuth cfg)); by eexists.
  - unfold mbind, M_bind, posted, modify; simpl. destruct (http_post _ _) as [e|status [e|body]]; [by eexists|by eexists|].
    destruct (negb (status =? 200)); [by eexists|]. destruct (unmarshal body); by eexists.
Qed.

Lemma page_run cfg state verifier query now now' posts :
  ∃ page new, logincallback http_post cfg state verifier query now now' posts = (posts ++ new, Ok page)
    ∧ (new = [] ∨ ∃ p, new = [p] ∧ invited state query ∧ post_for cfg verifier query p)
    ∧ (pgToken page ≠ "" → invited state query ∧ pgError page = None).
Proof.
  unfold logincallback. set (get := Get (ParseQuery query)).
  destruct (decide (get "error" ≠ "")); [eexists _, []; rewrite app_nil_r; split_and!; [done|by left|done]|].
  destruct (decide (state ≠ "" ∧ get "state" ≠ state)) as [|Hst]; [eexists _, []; rewrite app_nil_r; split_and!; [done|by left|done]|].
  assert (invited state query) as Hin by (intros Hne; destruct (decide (get "state" = state)); naive_solver).
  destruct (decide (get "code" = "")) as [|Hcode]; [eexists _, []; rewrite app_nil_r; split_and!; [done|by left|done]|].
  destruct (exchange_run cfg (get "code") (RedirectURI cfg) verifier now now' posts) as (r & Hr & Hp).
  unfold mbind, M_bind, catch. rewrite Hr. set (new := if MockAuth cfg || HasPrefix (get "code") "mock-code:" then posts else _).
  assert (∃ n, new = posts ++ n ∧ (n = [] ∨ ∃ p, n = [p] ∧ invited state query ∧ post_for cfg verifier query p)) as (m & Hm & Hn).
  { subst new. destruct (MockAuth cfg) eqn:Hm; simpl; [exists []; rewrite app_nil_r; by split; [|left]|].
    destruct (HasPrefix _ _); [exists []; rewrite app_nil_r; by split; [|left]|].
    eexists. split; [done|]. right. eexists. split; [done|]. by split. }
  destruct r as [t|e|why]; [| |by destruct (Hp why)]; (eexists _, m; rewrite Hm; split; [reflexivity|split; done]).
Qed.
Lemma serve_run cfg l reqs posts :
  ∃ pages new, serve cfg l reqs posts = (posts ++ new, Ok pages)
    ∧ (length new ≤ length reqs)%nat
    ∧ (∀ p, p ∈ new → ∃ q, q ∈ reqs.*1.*1 ∧ invited (lgState l) q ∧ post_for cfg (lgVerifier l) q p)
    ∧ Forall2 (λ r page, pgToken page ≠ "" → invited (lgState l) r.1.1 ∧ pgError page = None) reqs pages.
Proof.
  revert posts. induction reqs as [|[[q now] now'] reqs IH]; intros posts; simpl.
  - exists [], []. rewrite app_nil_r. split_and!; [done|done|by intros p ?%elem_of_nil|by constructor].
  - unfold login_page. destruct (page_run cfg (lgState l) (lgVerifier l) q now now' posts) as (page & n1 & Hrun & Hn1 & Hpage).
    unfold mbind, M_bind. rewrite Hrun. destruct (IH (posts ++ n1)) as (pages & n2 & Hrest & Hlen & Hn2 & Hpages).
    rewrite Hrest. eexists _, (n1 ++ n2). rewrite <- app_assoc. split; [done|]. split; [|split].
    + rewrite length_app. destruct Hn1 as [->|(p & -> & _)]; simpl; lia.
    + intros p [Hp|Hp]%elem_of_app.
      * exists q. split; [left|]. destruct Hn1 as [->|(p' & -> & Hinv & Hpost)]; [by apply elem_of_nil in Hp|].
        by apply list_elem_of_singleton in Hp as ->.
      * destruct (Hn2 p Hp) as (q' & Hq' & ?). exists q'. split; [by right|done].
    + by constructor.
Qed.
End page.

(** ** The whole login *)

Lemma hex_encode_nonempty b : b ≠ [] → hex_encode b ≠ "".
Proof. by destruct b. Qed.
Lemma b64_encode_nonempty b : b ≠ [] → b64_encode b ≠ "".
Proof. by destruct b as [|x [|y [|z b]]]. Qed.
Lemma auth_params_state cfg email state ch : default "" (auth_params cfg email state ch !! "state") = state.
Proof. unfold auth_params. destruct (decide (email = "")), (decide (ch = "")); reflexivity. Qed.
Lemma auth_params_challenge cfg email state ch : default "" (auth_params cfg email state ch !! "code_challenge") = ch.
Proof. unfold auth_params. destruct (decide (email = "")), (decide (ch = "")) as [->|]; reflexivity. Qed.
Lemma auth_params_uri cfg email state ch : default "" (auth_params cfg email state ch !! "redirect_uri") = RedirectURI cfg.
Proof. unfold auth_params. destruct (decide (email = "")), (decide (ch = "")); reflexivity. Qed.
Lemma token_form_verifier cfg code uri v : v ≠ "" → token_form cfg code uri v !! "code_verifier" = Some v.
Proof. intros Hv. unfold token_form. destruct (decide (ClientSecret cfg = "")); by rewrite (decide_False (P := v = "")). Qed.
Lemma token_form_code cfg code uri v :
  token_form cfg code uri v !! "code" = Some code ∧ token_form cfg code uri v !! "redirect_uri" = Some uri.
Proof. unfold token_form. by destruct (decide (ClientSecret cfg = "")), (decide (v = "")). Qed.
Lemma or_default_same s : or_default s s = s.
Proof. unfold or_default. by destruct (decide (s = "")). Qed.

Section login.
Context `{Json (gmap string jval), Json TokenResponse}.
Context (http_post : string → string → reply) (sha256 : bytes → bytes).

(** C19. Whatever requests reach the page of a login, it answers each of them and posts at
    most one form for each; a code is posted only for a request that carries the state of
    the link the user was shown, to the token endpoint, with the address of the link and
    the verifier whose hash is the challenge of the link; and a page with a token is shown
    only to such a request.  With a mock configuration nothing is posted. *)
Theorem login_page_safe cfg email random random' reqs :
  random ≠ [] → random' ≠ [] →
  let l := start_login sha256 cfg email (Some random) random' in
  ∃ link posts pages,
    lgLink l = GoogleAuthEndpoint +:+ String "?" link
    ∧ serve http_post cfg l reqs [] = (posts, Ok pages)
    ∧ (length posts ≤ length reqs)%nat ∧ length pages = length reqs
    ∧ (∀ p, p ∈ posts → ∃ q v,
         q ∈ reqs.*1.*1 ∧ Get (ParseQuery q) "state" = Get (ParseQuery link) "state"
         ∧ MockAuth cfg = false ∧ pUrl p = GoogleTokenEndpoint
         ∧ pForm p !! "code" = Some (Get (ParseQuery q) "code")
         ∧ pForm p !! "redirect_uri" = Some (Get (ParseQuery link) "redirect_uri")
         ∧ pForm p !! "code_verifier" = Some v
         ∧ Get (ParseQuery link) "code_challenge" = b64_encode (sha256 (text v)))
    ∧ Forall2 (λ r page, pgToken page ≠ "" →
         Get (ParseQuery r.1.1) "state" = Get (ParseQuery link) "state" ∧ pgError page = None) reqs pages.
Proof.
  intros Hr Hr' l. pose proof (hex_encode_nonempty _ Hr') as Hst. pose proof (b64_encode_nonempty _ Hr) as Hv.
  destruct (serve_run http_post cfg l reqs []) as (pages & posts & Hrun & Hlen & Hposts & Hpages).
  set (state := hex_encode random') in *. set (v := b64_encode random) in *.
  set (link := Encode (auth_params cfg email state (b64_encode (sha256 (text v))))).
  assert (lgState l = state) as Hls by done. assert (lgVerifier l = v) as Hlv by done. rewrite Hls, ?Hlv in *.
  assert (Get (ParseQuery link) "state" = state) as Hlink by (unfold link; by rewrite query_param, auth_params_state).
  exists link, posts, pages. split.
  { unfold l, start_login, GenerateAuthURL; simpl. unfold GenerateRandomState. by rewrite decide_False by done. }
  split; [done|]. split; [done|]. split; [by apply Forall2_length in Hpages|]. split.
  - intros p Hp. destruct (Hposts p Hp) as (q & Hq & Hinv & Hmock & Hcode & ->). exists q, v. rewrite Hlink.
    destruct (token_form_code cfg (Get (ParseQuery q) "code") (or_default (RedirectURI cfg) (RedirectURI cfg)) v) as [Hc Hu].
    split; [done|]. split; [by apply Hinv|]. split; [done|]. split; [done|]. split; [done|]. split.
    + unfold link. rewrite query_param, auth_params_uri. cbn [pForm]. by rewrite Hu, or_default_same.
    + split; [by apply token_form_verifier|]. unfold link. by rewrite query_param, auth_params_challenge.
  - eapply Forall2_impl; [exact Hpages|]. intros r page Hpage Ht. rewrite Hlink. destruct (Hpage Ht) as [Hinv He].
    split; [by apply Hinv|done].
Qed.
End login.

Section terminal.
Context `{Json (gmap string jval), Json TokenResponse}.
(** A login at the terminal, in production and with nothing verified before, is in the
    name of the address that was typed, and Google vouched for the token that was pasted. *)
Theorem login_is_vouched getenv http_get sha256 cfg lines random random' now later cache l user token :
  mock_enabled getenv = false →
  performUserAuth getenv http_get sha256 cfg lines random random' now later ∅ = (cache, Ok (l, user, token)) →
  ∃ email rest claims,
    prompt_email lines = Some (email, rest) ∧ prompt_token rest = Some token ∧ user = cEmail claims
    ∧ l = start_login sha256 cfg email random random'
    ∧ let c := mkVerifyCall getenv http_get token email (ClientID cfg) now later in
      addressed c claims ∧ vouched c (token_of c) claims.
Proof.
  intros Hprod. unfold performUserAuth. destruct (decide _); [done|].
  destruct (prompt_email lines) as [[email rest]|] eqn:He; [|done].
  destruct (prompt_token rest) as [tok|] eqn:Ht; [|done].
  set (c := mkVerifyCall getenv http_get tok email (ClientID cfg) now later).
  change (VerifyToken getenv http_get tok email (ClientID cfg) now later) with (verify c).
  pose proof (verify_cases c ∅ Hprod) as Hc. unfold mbind, M_bind, catch.
  destruct (verify c ∅) as [cache' [claims|e|why]]; [|done|done]. intros [= <- <- <- <-].
  exists email, rest, claims. destruct Hc as [Ha [(_ & cc & Hcc & _)|[Hv _]]]; [by rewrite lookup_empty in Hcc|]. by split_and!.
Qed.
End terminal.

(** ** A login *)

(** A decoder that knows one answer. *)
Definition ann_token : TokenResponse := mkTokenResponse "ya29" "eyJ.eyJ.sig" 3599 "Bearer".
#[export] Instance one_response : Json TokenResponse :=
  {| marshal _ := [x74]; unmarshal b := if decide (b = [x74]) then Some ann_token else None |}.
Definition google (_ _ : string) : reply := Reply 200 (inr [x74]).
Definition own_hash (b : bytes) : bytes := rev b.
Definition desktop : GoogleDesktopConfig := mkDesktopConfig "id.apps" "s3" DefaultRedirectURI false.
Definition ann_login : Login := start_login own_hash desktop "Ann@example.com" (Some [x01; x02; x03]) [xab; xcd].
Example ann_link :
  lgLink ann_login = "https://accounts.google.com/o/oauth2/v2/auth?client_id=id.apps&code_challenge=RElRQQ"
    +:+ "&code_challenge_method=S256&login_hint=ann%40example.com&prompt=consent"
    +:+ "&redirect_uri=http%3A%2F%2Flocalhost%3A38485%2Flogincallback&response_type=code&scope=openid+email+profile&state=abcd".
Proof. vm_compute. reflexivity. Qed.
(** A forged request, one that was refused, and the one that was asked for. *)
Definition ann_requests : list (string * Z * Z) :=
  [("code=evil", 0, 0); ("error=access_denied&state=abcd", 1, 1); ("state=abcd&code=4%2F0A", 2, 2)].
Example ann_pages :
  let '(posts, r) := serve google desktop ann_login ann_requests [] in
  map (λ p, (pUrl p, pForm p !! "code", pForm p !! "code_verifier")) posts = [(GoogleTokenEndpoint, Some "4/0A", Some "AQID")]
  ∧ match r with Ok pages => map pgToken pages = [""; ""; "eyJ.eyJ.sig"] | _ => False end.
Proof. vm_compute. done. Qed.
(** The page of the console takes a code without any state, and its form has no verifier;
    Google does not exchange the code of a link with a challenge without one. *)
Example console_page_asks_for_no_state :
  let '(posts, r) := handleGoogleLoginCallback google desktop "code=evil" 0 0 [] in
  map (λ p, (pForm p !! "code", pForm p !! "code_verifier")) posts = [(Some "evil", None)]
  ∧ match r with Ok page => pgToken page = "eyJ.eyJ.sig" | _ => False end.
Proof. vm_compute. done. Qed.

Lemma login_page_safe_witness :
  ∃ posts pages, serve google desktop ann_login ann_requests [] = (posts, Ok pages) ∧ (length posts ≤ 3)%nat ∧ length pages = 3%nat.
Proof.
  destruct (login_page_safe google own_hash desktop "Ann@example.com" [x01; x02; x03] [xab; xcd] ann_requests)
    as (link & posts & pages & _ & Hrun & Hlen & Hpages & _); [discriminate|discriminate|].
  exists posts, pages. exact (conj Hrun (conj Hlen Hpages)).
Defined.
