(* ===== verification/Api.v ===== *)
(** * The HTTP interface of the admin console

    Models [internal/admin/handlers.go], [grpc_client.go] and the admission of
    [ws_handler.go]: the routes, who must be logged in for which, and what every handler
    reads, changes and answers.  Bodies of requests are decoded by parameters; a response
    is its status and the value that is encoded.  The calls on other servers are recorded
    and answered by a parameter, and so are the forms the page of a Google login posts
    (OAuth.v).  [http.ServeMux] is the standard library's. *)
From S2P Require Import Prelude GoStd Disk Ring History Node Alerts Storage Discovery Console Orchestrator AdminAuth.
From S2P Require Session Auth Handler OAuth.
From Stdlib Require Import QArith.
#[global] Open Scope Z_scope.

(** ** Requests and responses *)

Record Request := mkRequest {
  rqMethod : string;
  rqPath : string;
  rqQuery : string;           (* as it came, [r.URL.RawQuery] *)
  rqAuthorization : string;
  rqCookie : option string;
  rqTLS : bool;
  rqBody : bytes;
}.
(** [r.URL.Query().Get(k)] *)
Definition query (r : Request) (k : string) : string := OAuth.Get (OAuth.ParseQuery (rqQuery r)) k.
Definition credentials (r : Request) : Credentials :=
  mkCredentials (rqAuthorization r) (rqCookie r) (query r "token").

Record ClusterResponse := mkClusterResponse {
  crNodes : list NodeState;
  crUsers : gmap string string;
  crNodeCount : Z;
  crOnlineCount : Z;
  crActiveCount : Z;
  crTotalStorageBytes : Z;
  crUsedStorageBytes : Z;
  crTotalUsers : Z;
  crOnlineUsers : Z;
  crWriteMbps : Q;
  crReadMbps : Q;
  crWriteIOPS : Q;
  crReadIOPS : Q;
  crErrorRatePct : Q;
}.
Record NodeUserStorage := mkUserStorage {
  usFsID : string;
  usDisplayID : Z;
  usDisplayName : string;
  usMachineName : string;
  usAddress : string;
  usUsedBytes : Z;
  usQuotaBytes : Z;
}.
Record UserSummary := mkUserSummary {
  umUsername : string;
  umHomeFsID : string;
  umHomeFsDisplay : string;
  umHomeFsMachine : string;
  umHomeFsAddress : string;
  umQuotaLimit : Z;
  umQuotaUsed : Z;
  umUsagePercent : Q;
  umActiveSessions : Z;
  umIsOnline : bool;
  umNodes : list NodeUserStorage;
}.
(** The latencies are read and write, at 50, 95 and 99%. *)
Record NodePerformance := mkPerformance {
  npFsID : string;
  npDisplayID : Z;
  npDisplayName : string;
  npMachineName : string;
  npAddress : string;
  npStatus : NodeStatus;
  npRates : Q * Q * Q * Q * Q;
  npLatencyWrite : Q * Q * Q;
  npLatencyRead : Q * Q * Q;
  npActiveConnections : Z;
}.
Record PerformanceResponse := mkPerformanceResponse {
  prWriteMbps : Q;
  prReadMbps : Q;
  prWriteIOPS : Q;
  prReadIOPS : Q;
  prErrorRatePct : Q;
  prNodes : list NodePerformance;
}.
(** What the removal of a node reports. *)
Record Removal := mkRemoval {
  rmFsID : string;
  rmAddress : string;
  rmNodeID : string;
  rmDisplayName : string;
  rmWarning : string;
}.

Inductive Body :=
  | Empty
  | Text (s : string)
  | Failure (msg : string) (e : error)
  | Cluster (c : ClusterResponse)
  | NodeHistory (l : list Snapshot)
  | ClusterHistory (l : list ClusterHistorySnapshot)
  | UserList (l : list UserSummary)
  | QuotaSet (username : string) (quota : Z)
  | Removed (r : Removal)
  | Released (nodeID : string)
  | Presets (m : gmap string NodeRestartParams)
  | Records (l : list CommandRecord)
  | Action (r : CommandRecord)
  | Performance (p : PerformanceResponse)
  | Csv (filename : string) (rows : list (list string))
  | AlertList (l : list Alert)
  | AlertCounts (s : AlertSummary)
  | Resolved (success : bool) (id : string)
  | ResolvedAll (count : Z)
  | LogTail (l : LogTailResponse)
  | LoggedIn (token : string) (secure : bool)
  | LoggedOut (secure : bool)
  | LoggedStatus (authenticated : bool)
  | Upgraded
  | Static (path : string)
  | CallbackPage (p : OAuth.callbackPageData)
  | Redirect.
Record Response := mkResponse { rsStatus : Z; rsBody : Body }.
Definition ok (b : Body) : Response := mkResponse 200 b.
(** The message alone, without the JSON some handlers put around it. *)
Definition http_error (code : Z) (s : string) : Response := mkResponse code (Text s).
Definition NotFoundPage : Response := http_error 404 "404 page not found".

(** ** Calls on other servers *)

(** One attempt of a call: to whom, over TLS or not, with which password hash. *)
Inductive Call :=
  | SetQuotaCall (username : string) (quota : Z)
  | DeregisterCall (fsID fsAddress : string).
Record Attempt := mkAttempt {
  atAddress : string;
  atServerName : option string;
  atHash : option string;
  atCall : Call;
}.
Inductive Outcome :=
  | NoConnection (msg : string)
  | CallError (msg : string)
  | Replied (success : bool) (msg : string).

(** The console behind its handlers. [rpcs] are the attempts made, oldest first, [penv] the
    environment of the process and [posts] the forms it posted. *)
Record Web (D : Type) := mkWeb {
  site : Site D;
  authm : option AuthManager;
  msAddr : string;
  isTLS : bool;
  rpcs : list Attempt;
  penv : gmap string string;
  posts : list OAuth.Post;
}.
Arguments mkWeb {D} site authm msAddr isTLS rpcs penv posts.
Arguments site {D} w.
Arguments authm {D} w.
Arguments msAddr {D} w.
Arguments isTLS {D} w.
Arguments penv {D} w.
Arguments posts {D} w.
Arguments rpcs {D} w.

(** ** Numbers and orders *)

(** [%.4f] and [%.2f] *)
Definition fmt_digits (digits : nat) (scale : Z) (x : Q) : string :=
  let n := round_even (scale * Z.abs (Qnum x)) (Qden x) in
  (if Qnum x <? 0 then "-" else "") +:+ pretty (n / scale) +:+ "."
  +:+ drop_bytes 1 (pretty (scale + n mod scale)).
Definition fmt4 (x : Q) : string := fmt_digits 4 10000 x.
Definition fmt2 (x : Q) : string := fmt_digits 2 100 x.
Example fmt_ex : map fmt2 [(1 # 3); 7; (-5 # 4)]%Q = ["0.33"; "7.00"; "-1.25"] ∧ fmt4 (2 # 3) = "0.6667".
Proof. split; reflexivity. Qed.

(** The comparison by which nodes are listed: by the number shown, or else by key. *)
Definition listed_before (d1 d2 : Z) (k1 k2 : string) : bool :=
  if (0 <? d1) && (0 <? d2) && negb (d1 =? d2) then d1 <? d2
  else match Auth.ParseInt k1, Auth.ParseInt k2 with
       | Some i1, Some i2 => i1 <? i2
       | _, _ => String.ltb k1 k2
       end.
(** [sort.Slice]; it leaves equal elements in any order, this one is stable. *)
Definition not_after {A} (less : A → A → bool) (a b : A) : Prop := less b a = false.
#[export] Instance not_after_dec {A} (less : A → A → bool) a b : Decision (not_after less a b).
Proof. unfold not_after. apply _. Defined.
Definition sort_slice {A} (less : A → A → bool) (l : list A) : list A := merge_sort (not_after less) l.
Definition sort_by {A} (shown : A → Z) (key : A → string) (l : list A) : list A :=
  sort_slice (λ a b, listed_before (shown a) (shown b) (key a) (key b)) l.

Definition is_active (n : NodeState) : bool :=
  match nStatus n with StatusOffline => false | _ => true end.
Definition Qsum (l : list Q) : Q := foldl Qplus 0%Q l.
(** The error rate of the cluster, each active node weighted by its operations. *)
Definition node_ops (n : NodeState) : Q := (rWriteIOPS (nRates n) + rReadIOPS (nRates n))%Q.
Definition error_rate (active : list NodeState) : Q :=
  let total := Qsum (map node_ops active) in
  if Qle_bool total 0 then 0%Q
  else (Qsum (map (λ n, node_ops n * (rErrorRatePct (nRates n) / 100)) active) / total * 100)%Q.
(** A node as it is encoded: its history is left out. *)
Definition encoded (n : NodeState) : NodeState := with_history (mkRingBuffer [] 0 0 0) n.
(** What is withheld from a visitor. *)
Definition without_users (m : FileserverMetrics) : FileserverMetrics :=
  mkMetrics (mDiskTotalBytes m) (mDiskUsedBytes m) (mDiskFreeBytes m) (mDiskUsagePercent m) ∅ ∅
    (mChunkCount m) (mCPUTempCelsius m) (mCPUUsagePercent m) (mMemUsedBytes m) (mMemTotalBytes m)
    (mMemUsagePercent m) (mLoadAvg1m m) (mLoadAvg5m m) (mUptimeSeconds m) (mLastRestartUnix m)
    (mActiveConnections m) [] 0 (mBytesWrittenTotal m) (mBytesReadTotal m) (mWriteOpsTotal m)
    (mReadOpsTotal m) (mErrorsTotal m) (mFailedWritesTotal m) (mFailedReadsTotal m)
    (mOpLatencyWriteMsP50 m) (mOpLatencyWriteMsP95 m) (mOpLatencyWriteMsP99 m)
    (mOpLatencyReadMsP50 m) (mOpLatencyReadMsP95 m) (mOpLatencyReadMsP99 m).
Definition redacted (n : NodeState) : NodeState :=
  with_reading (nStatus n) (nLastSeen n) (without_users <$> nMetrics n) (nRates n) n.

(** The number, name and machine a node is shown under when it has none of its own. *)
Definition shown_number (displayID : Z) (key : string) : Z :=
  if 0 <? displayID then displayID
  else match Auth.ParseInt key with Some num => num + 1 | None => 1 end.

(** [handleCluster] for the nodes of the table, in any order. *)
Definition cluster_of (l : list NodeState) (us : gmap string string) (authed : bool) : ClusterResponse :=
  let active := filter (λ n, is_active n = true) l in
  let online := foldl (λ (s : gset string) n, match nMetrics n with Some m => list_to_set (mActiveUsers m) ∪ s | None => s end) ∅ active in
  let nodes := sort_by nDisplayID nFsID l in
  let rates f := Qsum (map (λ n, f (nRates n)) active) in
  let bytes f := foldl (λ t n, match nMetrics n with Some m => u64 (t + f m) | None => t end) 0 l in
  mkClusterResponse
    (map encoded (if authed then nodes else map redacted nodes))
    (if authed then us else ∅)
    (Z.of_nat (length l)) (Z.of_nat (length (filter (λ n, nStatus n = StatusOnline) l)))
    (Z.of_nat (length active)) (bytes mDiskTotalBytes) (bytes mDiskUsedBytes)
    (if authed then Z.of_nat (size us) else 0) (if authed then Z.of_nat (size online) else 0)
    (rates rWriteMbps) (rates rReadMbps) (rates rWriteIOPS) (rates rReadIOPS) (error_rate active).

(** [handlePerformance] for the nodes of the table. *)
Definition performance_node (n : NodeState) : NodePerformance :=
  let r := nRates n in
  let lat f := match nMetrics n with Some m => f m | None => 0%Q end in
  mkPerformance (nFsID n) (nDisplayID n) (nDisplayName n) (nMachineName n) (nAddress n) (nStatus n)
    (rWriteMbps r, rReadMbps r, rWriteIOPS r, rReadIOPS r, rErrorRatePct r)
    (lat mOpLatencyWriteMsP50, lat mOpLatencyWriteMsP95, lat mOpLatencyWriteMsP99)
    (lat mOpLatencyReadMsP50, lat mOpLatencyReadMsP95, lat mOpLatencyReadMsP99)
    (match nMetrics n with Some m => mActiveConnections m | None => 0 end).
Definition performance_of (l : list NodeState) : PerformanceResponse :=
  let active := filter (λ n, is_active n = true) l in
  let rates f := Qsum (map (λ n, f (nRates n)) active) in
  mkPerformanceResponse (rates rWriteMbps) (rates rReadMbps) (rates rWriteIOPS) (rates rReadIOPS) (error_rate active)
    (sort_by npDisplayID npFsID (map performance_node l)).

(** [handleUsers] for one user: its home and what it uses on every node. *)
Definition user_storage (username : string) (kv : string * NodeState) : option NodeUserStorage :=
  let '(fsID, n) := kv in
  match nMetrics n with
  | None => None
  | Some m =>
      match mPerUserStorage m !! username, mPerUserQuota m !! username with
      | None, None => None
      | used, quota =>
          let id := shown_number (nDisplayID n) fsID in
          Some (mkUserStorage fsID id (or_else (nDisplayName n) (fs_name id)) (or_else (nMachineName n) (dvfs_name id))
                  (nAddress n) (default 0 used) (default 0 quota))
      end
  end.
Definition sessions_of (username : string) (n : NodeState) : Z :=
  match nMetrics n with
  | Some m => if is_active n then Z.of_nat (length (filter (λ u, u = username) (mActiveUsers m))) else 0
  | None => 0
  end.
Definition user_summary (l : list (string * NodeState)) (u : string * string) : UserSummary :=
  let '(username, home) := u in
  let homeNode := list_find (λ kv : string * NodeState, kv.1 = home) l in
  let hn := match homeNode with Some (_, (_, n)) => Some n | None => None end in
  let id := shown_number (match hn with Some n => nDisplayID n | None => 0 end) home in
  let limit := match hn ≫= nMetrics with Some m => quota_of m username | None => default_quota end in
  let storages := omap (user_storage username) l in
  let used := foldl (λ t s, u64 (t + usUsedBytes s)) 0 storages in
  let active := foldl (λ t kv, t + sessions_of username kv.2) 0 l in
  mkUserSummary username home
    (or_else (match hn with Some n => nDisplayName n | None => "" end) (fs_name id))
    (or_else (match hn with Some n => nMachineName n | None => "" end) (dvfs_name id))
    (match hn with Some n => nAddress n | None => "" end)
    limit used (if 0 <? limit then inject_Z used / inject_Z limit * 100 else 0)%Q active (0 <? active)
    (sort_by usDisplayID usFsID storages).

(** ** The spreadsheet *)

Definition csv_header : list string :=
  ["timestamp"; "iso_time"; "node_id"; "node_display"; "machine"; "address"; "write_mbps"; "read_mbps";
   "write_iops"; "read_iops"; "error_rate_pct"; "latency_write_p50_ms"; "latency_write_p95_ms";
   "latency_write_p99_ms"; "latency_read_p50_ms"; "latency_read_p95_ms"; "latency_read_p99_ms";
   "bytes_written_total"; "bytes_read_total"; "write_ops_total"; "read_ops_total"; "errors_total";
   "active_connections"].
Definition csv_row (rfc3339 : Z → string) (row : NodeState * Snapshot) : list string :=
  let '(n, s) := row in
  let m := sMetrics s in
  let r := sRates s in
  [pretty (sTimestamp s); rfc3339 (sTimestamp s); nFsID n; nDisplayName n; nMachineName n; nAddress n;
   fmt4 (rWriteMbps r); fmt4 (rReadMbps r); fmt2 (rWriteIOPS r); fmt2 (rReadIOPS r); fmt2 (rErrorRatePct r);
   fmt2 (mOpLatencyWriteMsP50 m); fmt2 (mOpLatencyWriteMsP95 m); fmt2 (mOpLatencyWriteMsP99 m);
   fmt2 (mOpLatencyReadMsP50 m); fmt2 (mOpLatencyReadMsP95 m); fmt2 (mOpLatencyReadMsP99 m);
   pretty (mBytesWrittenTotal m); pretty (mBytesReadTotal m); pretty (mWriteOpsTotal m);
   pretty (mReadOpsTotal m); pretty (mErrorsTotal m); pretty (mActiveConnections m)].
(** Rows by time, then by node; rows equal in both stay in any order, here as they come. *)
Definition row_before (a b : NodeState * Snapshot) : bool :=
  if sTimestamp a.2 =? sTimestamp b.2 then String.ltb (nFsID a.1) (nFsID b.1)
  else sTimestamp a.2 <? sTimestamp b.2.
Definition sort_rows (l : list (NodeState * Snapshot)) : list (NodeState * Snapshot) :=
  sort_slice row_before l.

(** An alert as a visitor sees it. *)
Definition visible_alert (a : Alert) : option Alert :=
  if decide (alType a = AlertTypeQuotaExceeded) then None
  else Some (mkAlert (alID a) (alTimestamp a) (alSeverity a) (alType a) (alTitle a) (alMessage a)
               (alNodeID a) (alNodeName a) "" (alResolved a) (alResolvedAt a)).

Section web.
Context {D : Type} `{OS D, Json (list Alert), Json (list GistNode), Json (gmap string Z),
  Json MetricsSnapshotFile, Json (list CommandRecord), Json (gmap string Auth.jval), Json OAuth.TokenResponse}.
(** The clock in seconds and in nanoseconds, the generators and the network, by how often
    they were asked. *)
Context (clock nano : nat → Z) (uuid : nat → string) (net : nat → string → Auth.reply)
  (ssh : nat → SSHRun → SSHAnswer) (reach : nat → Attempt → Outcome) (random_token : nat → string).
Context (range : ∀ A, gmap string A → list (string * A)) (sha256_hex : string → string)
  (rfc3339 : Z → string).
(** The decoders of request bodies. *)
Context (quota_body : bytes → option Z) (id_body password_body : bytes → option string)
  (action_body : bytes → option ActionRequest).
(** The identity of the program at Google and what a posted form is answered. *)
Context (client_id client_secret : string) (google : nat → string → string → Auth.reply).
Abbreviation W := (Web D).

Definition on_site {A} (m : M (Site D) A) : M W A := λ w,
  let '(s, r) := m (site w) in (mkWeb s (authm w) (msAddr w) (isTLS w) (rpcs w) (penv w) (posts w), r).
Definition on_cons {A} (m : M (Console D) A) : M W A := on_site (on_console m).
Definition set_auth (f : AuthManager → AuthManager) : M W unit :=
  modify (λ w, mkWeb (site w) (f <$> authm w) (msAddr w) (isTLS w) (rpcs w) (penv w) (posts w)).
Definition the_orchestrator : M W (option Orchestrator) := gets (λ w, orchestrator (site w)).
Definition list_nodes : M W (list (string * NodeState)) := on_site (all_nodes range).
Definition now_ns : M W Z := k ← on_cons (alerting tick); mret (nano k).

(** ** Who is logged in *)

Definition logged_in (r : Request) : M W bool :=
  now ← now_ns;
  m ← gets authm;
  match m with
  | None => mret false
  | Some m =>
      let '(m', b) := IsAuthenticated now (credentials r) m in
      set_auth (λ _, m') ;; mret b
  end.
(** A console without an auth manager asks nobody to log in. *)
Definition admitted (r : Request) : M W bool :=
  m ← gets authm; match m with None => mret true | Some _ => logged_in r end.

Definition login_required : Response :=
  mkResponse 401 (Text "admin authentication required").
Definition requireAuth (h : Request → M W Response) (r : Request) : M W Response :=
  m ← gets authm;
  match m with
  | None => h r
  | Some _ =>
      if decide (rqMethod r = "OPTIONS") then h r
      else b ← logged_in r; if (b : bool) then h r else mret login_required
  end.

(** ** Calls on other servers *)

Definition attempt (a : Attempt) : M W Outcome :=
  k ← gets (λ w, length (rpcs w));
  modify (λ w, mkWeb (site w) (authm w) (msAddr w) (isTLS w) (rpcs w ++ [a]) (penv w) (posts w)) ;; mret (reach k a).

Definition resolve_name (address : string) : M W string :=
  r ← on_cons (gets discovery);
  match r with
  | None => mret ""
  | Some r =>
      k ← on_cons (alerting tick);
      later ← on_cons (alerting tick);
      on_cons (resolving r (ResolveServerName (net k) (nano k) (nano later) address))
  end.
(** Over TLS first, then in plain text; [what] is called on the [role] at [address]. *)
Definition call_over_tls_or_plain (what role address : string) (c : Call) : M W unit :=
  h ← gets (λ w, GetHash <$> authm w);
  let header := match h with Some h => if decide (h = "") then None else Some h | None => None end in
  name ← resolve_name address;
  let serverName :=
    if decide (name = "" ∨ name = address) then
      let host := host_of address in if Handler.is_loopback_ip host then "localhost" else host
    else name in
  let refused e := Errorf (cats [what; " error from "; role; ": %s"]) [e] in
  first ← attempt (mkAttempt address (Some serverName) header c);
  let plain (tls : option string) : M W unit :=
    second ← attempt (mkAttempt address None header c);
    match second, tls with
    | Replied true _, _ => mret tt
    | Replied false e, _ => throw (refused e)
    | NoConnection e, None => throw (Errorf (cats ["failed to dial "; role; " at %s: %w"]) [address; e])
    | NoConnection e, Some t =>
        throw (Errorf (cats ["failed to connect to "; role; " at %s (TLS: %v, Plaintext: %w)"]) [address; t; e])
    | CallError e, None => throw (Errorf (what +:+ " RPC failed: %w") [e])
    | CallError e, Some t => throw (Errorf (what +:+ " RPC failed on %s (TLS: %v, Plaintext: %w)") [address; t; e])
    end in
  match first with
  | Replied true _ => mret tt
  | Replied false e => throw (refused e)
  | CallError e => plain (Some e)
  | NoConnection _ => plain None
  end.
Definition CallSetQuota (address username : string) (quota : Z) : M W unit :=
  call_over_tls_or_plain "SetQuota" "fileserver" address (SetQuotaCall username quota).
Definition CallDeregisterFileServer (ms fsID fsAddress : string) : M W unit :=
  call_over_tls_or_plain "DeregisterFileServer" "metaserver" ms (DeregisterCall fsID fsAddress).

(** ** Reading the cluster *)

Definition handleCluster (r : Request) : M W Response :=
  if decide (rqMethod r ≠ "GET") then mret (http_error 405 "method not allowed")
  else
    l ← list_nodes;
    authed ← admitted r;
    us ← on_cons (srv users);
    mret (ok (Cluster (cluster_of l.*2 us authed))).

Definition handleHistory (r : Request) : M W Response :=
  if decide (rqMethod r ≠ "GET") then mret (http_error 405 "method not allowed")
  else
    let fsID := Session.TrimSpace (TrimPrefix (rqPath r) "/api/history/") in
    if decide (fsID = "cluster" ∨ fsID = "all" ∨ fsID = "") then
      h ← on_cons (aggregateClusterHistoryLocked range); mret (ok (ClusterHistory h))
    else
      found ← on_site (find_node range fsID);
      match found with
      | None => mret NotFoundPage
      | Some (_, n) => l ← lift (Ring.GetAll (nHistory n)).2; mret (ok (NodeHistory l))
      end.

Definition handleUsers (r : Request) : M W Response :=
  if decide (rqMethod r ≠ "GET") then mret (http_error 405 "method not allowed")
  else
    l ← list_nodes;
    us ← on_cons (srv users);
    mret (ok (UserList (sort_slice (λ a b, String.ltb (umUsername a) (umUsername b)) (map (user_summary l) (range _ us))))).

Definition handlePerformance (r : Request) : M W Response :=
  if decide (rqMethod r ≠ "GET") then mret (http_error 405 "method not allowed")
  else l ← list_nodes; mret (ok (Performance (performance_of l.*2))).

(** The history of every node with the node. *)
Fixpoint rows_of (l : list NodeState) : M W (list (NodeState * Snapshot)) :=
  match l with
  | [] => mret []
  | n :: l => s ← lift (Ring.GetAll (nHistory n)).2; rest ← rows_of l; mret (map (λ x, (n, x)) s ++ rest)
  end.
Definition handlePerformanceExport (r : Request) : M W Response :=
  if decide (rqMethod r ≠ "GET") then mret (http_error 405 "method not allowed")
  else
    now ← on_cons (alerting (time_now clock));
    l ← list_nodes;
    let target := query r "node_id" in
    let chosen := sort_by nDisplayID nFsID (filter (λ n, target = "" ∨ nFsID n = target) l.*2) in
    rows ← rows_of chosen;
    mret (ok (Csv ("dvfs_performance_" +:+ pretty now +:+ ".csv") (csv_header :: map (csv_row rfc3339) (sort_rows rows)))).

(** ** Quotas and removals *)

(** The quota of the newest snapshot changes with the metrics: they share their table, which
    a file server always sends. *)
Definition change_quota (username : string) (quota : Z) (m : FileserverMetrics) : FileserverMetrics :=
  mkMetrics (mDiskTotalBytes m) (mDiskUsedBytes m) (mDiskFreeBytes m) (mDiskUsagePercent m)
    (mPerUserStorage m) (<[username := quota]> (mPerUserQuota m)) (mChunkCount m) (mCPUTempCelsius m)
    (mCPUUsagePercent m) (mMemUsedBytes m) (mMemTotalBytes m) (mMemUsagePercent m) (mLoadAvg1m m)
    (mLoadAvg5m m) (mUptimeSeconds m) (mLastRestartUnix m) (mActiveConnections m) (mActiveUsers m)
    (mUsersAssigned m) (mBytesWrittenTotal m) (mBytesReadTotal m) (mWriteOpsTotal m) (mReadOpsTotal m)
    (mErrorsTotal m) (mFailedWritesTotal m) (mFailedReadsTotal m) (mOpLatencyWriteMsP50 m)
    (mOpLatencyWriteMsP95 m) (mOpLatencyWriteMsP99 m) (mOpLatencyReadMsP50 m) (mOpLatencyReadMsP95 m)
    (mOpLatencyReadMsP99 m).
Definition change_last (f : Snapshot → Snapshot) (rb : RingBuffer Snapshot) : RingBuffer Snapshot :=
  if rbCount rb =? 0 then rb
  else mkRingBuffer (alter f (Z.to_nat (Z.rem (rbHead rb - 1 + rbSize rb) (rbSize rb))) (rbData rb))
         (rbSize rb) (rbHead rb) (rbCount rb).
Definition cache_quota (username : string) (quota : Z) (n : NodeState) : NodeState :=
  match nMetrics n with
  | None => n
  | Some m =>
      with_history (change_last (λ s, mkSnapshot (sTimestamp s) (change_quota username quota (sMetrics s)) (sRates s)) (nHistory n))
        (with_reading (nStatus n) (nLastSeen n) (Some (change_quota username quota m)) (nRates n) n)
  end.

Definition handleUserQuota (r : Request) : M W Response :=
  if decide (rqMethod r = "OPTIONS") then mret (ok Empty)
  else if decide (rqMethod r ≠ "PUT" ∧ rqMethod r ≠ "POST") then mret (http_error 405 "method not allowed")
  else
    match Split slash (TrimPrefix (rqPath r) "/api/users/") with
    | username :: "quota" :: _ =>
        if decide (username = "") then mret (http_error 400 "invalid URL path, expected /api/users/{username}/quota")
        else
          match quota_body (rqBody r) with
          | None => mret (http_error 400 "invalid JSON body")
          | Some quota =>
              if quota =? 0 then mret (http_error 400 "quota_bytes must be greater than 0")
              else
                home ← on_cons (srv (λ a, users a !! username));
                match home with
                | None => mret (http_error 404 ("user '" +:+ username +:+ "' not found"))
                | Some home =>
                    o ← on_cons (srv (λ a, nodes a !! home));
                    addr ← (match o with Some p => n ← on_cons (node_at p); mret (nAddress n) | None => mret "" end);
                    if decide (addr = "") then
                      mret (http_error 502 ("home fileserver for user '" +:+ username +:+ "' not found"))
                    else
                      called ← catch (CallSetQuota addr username quota);
                      match called with
                      | inl e => mret (mkResponse 502 (Failure "failed to update quota: " e))
                      | inr _ =>
                          o ← on_cons (srv (λ a, nodes a !! home));
                          (match o with Some p => on_cons (on_node p (cache_quota username quota)) | None => mret tt end) ;;
                          mret (ok (QuotaSet username quota))
                      end
                end
          end
    | _ => mret (http_error 400 "invalid URL path, expected /api/users/{username}/quota")
    end.

Definition no_metaserver : string :=
  "no metaserver address configured (-metaserver_addr or DVFS_METASERVER_ADDR); node hidden from this console only, not deregistered from the cluster".
Definition no_identity : string :=
  "node has neither a stable id nor an address; cannot deregister it from the metaserver".
(** The metaserver to tell: the configured one, or the one the machine list names. *)
Definition metaserver_for_removal : M W string :=
  ms ← gets msAddr;
  if decide (ms ≠ "") then mret ms
  else
    r ← on_cons (gets discovery);
    match r with
    | None => mret ""
    | Some r =>
        k ← on_cons (alerting tick);
        later ← on_cons (alerting tick);
        o ← catch (on_cons (resolving r (ResolveMetaAddress (net k) (nano k) (nano later) "50051")));
        mret (match o with inr a => a | inl _ => "" end)
    end.
(** A node the console lists: the cluster first, the table once that is done. *)
Definition remove_listed (fsID : string) (n : NodeState) : M W Response :=
  ms ← metaserver_for_removal;
  called ← (if decide (ms = "") then mret (inr no_metaserver)
            else if decide (nNodeID n = "" ∧ nAddress n = "") then mret (inr no_identity)
            else o ← catch (CallDeregisterFileServer ms (nNodeID n) (nAddress n));
                 mret (match o with inl e => inl e | inr _ => inr "" end));
  match called with
  | inl e => mret (mkResponse 502 (Failure "metaserver deregister failed: " e))
  | inr warning =>
      on_cons (forgetNode clock fsID) ;;
      mret (ok (Removed (mkRemoval fsID (nAddress n) (nNodeID n) (nDisplayName n) warning)))
  end.
Definition remove_unlisted (fsID : string) : M W Response :=
  ms ← gets msAddr;
  if decide (ms = "") then mret (http_error 404 ("node '" +:+ fsID +:+ "' not found"))
  else
    called ← catch (CallDeregisterFileServer ms fsID "");
    match called with
    | inl e => mret (mkResponse 502 (Failure "metaserver deregister failed: " e))
    | inr _ => mret (ok (Released fsID))
    end.
Definition handleRemoveNode (r : Request) : M W Response :=
  if decide (rqMethod r = "OPTIONS") then mret (ok Empty)
  else if decide (rqMethod r ≠ "DELETE") then mret (http_error 405 "method not allowed")
  else
    let fsID := Session.TrimSpace (TrimPrefix (rqPath r) "/api/nodes/") in
    if decide (fsID = "") then mret (http_error 400 "missing fsID in URL")
    else
      found ← on_site (find_node range fsID);
      match found with
      | Some (id, n) => remove_listed id n
      | None => remove_unlisted fsID
      end.

(** ** Actions, alerts and logs *)

Definition handleActionPresets (r : Request) : M W Response :=
  o ← the_orchestrator;
  match o with
  | None => mret (http_error 500 "orchestrator not initialized")
  | Some o => p ← on_site (GetPresets range o); mret (ok (Presets p))
  end.
Definition handleActionHistory (r : Request) : M W Response :=
  l ← on_site (on_commands History.GetAll); mret (ok (Records l)).

Definition execute (req : ActionRequest) : M W (error + CommandRecord) :=
  o ← the_orchestrator;
  match o with
  | None => mret (inl (Errorf "orchestrator not initialized" []))
  | Some o => catch (on_site (Execute nano uuid ssh range o req))
  end.
Definition handleActionExecute (r : Request) : M W Response :=
  if decide (rqMethod r = "OPTIONS") then mret (ok Empty)
  else if decide (rqMethod r ≠ "POST") then mret (http_error 405 "method not allowed")
  else
    o ← the_orchestrator;
    match o with
    | None => mret (http_error 500 "orchestrator not initialized")
    | Some _ =>
        match action_body (rqBody r) with
        | None => mret (http_error 400 "invalid request")
        | Some req =>
            done ← execute req;
            match done with
            | inl e => mret (mkResponse 500 (Failure "execution error: " e))
            | inr record => mret (ok (Action record))
            end
        end
    end.

Definition alerts_on : M W bool := on_cons (gets has_alerts).
Definition handleAlerts (r : Request) : M W Response :=
  if decide (rqMethod r ≠ "GET") then mret (http_error 405 "method not allowed")
  else
    on ← alerts_on;
    if negb on then mret (ok (AlertList []))
    else
      let limit := match Auth.ParseInt (query r "limit") with Some l => if 0 <? l then l else 0 | None => 0 end in
      let f := mkFilters (query r "severity") (query r "node_id") (String.eqb (query r "unresolved") "true") limit in
      l ← on_cons (alerting (Alerts.GetAll f));
      authed ← admitted r;
      mret (ok (AlertList (if (authed : bool) then l else omap visible_alert l))).
Definition handleAlertSummary (r : Request) : M W Response :=
  if decide (rqMethod r ≠ "GET") then mret (http_error 405 "method not allowed")
  else
    on ← alerts_on;
    if negb on then mret (ok (AlertCounts (mkSummary 0 0 0 0)))
    else s ← on_cons (alerting Summary); mret (ok (AlertCounts s)).
Definition handleResolveAlert (r : Request) : M W Response :=
  if decide (rqMethod r ≠ "POST") then mret (http_error 405 "method not allowed")
  else
    on ← alerts_on;
    if negb on then mret (http_error 500 "alert manager not configured")
    else
      let id := or_else (default "" (id_body (rqBody r))) (query r "id") in
      if decide (id = "") then mret (http_error 400 "missing alert id")
      else b ← on_cons (alerting (ResolveAlert clock id)); mret (ok (Resolved b id)).
Definition handleResolveAllAlerts (r : Request) : M W Response :=
  if decide (rqMethod r ≠ "POST") then mret (http_error 405 "method not allowed")
  else
    on ← alerts_on;
    if negb on then mret (http_error 500 "alert manager not configured")
    else n ← on_cons (alerting (ResolveAll clock)); mret (ok (ResolvedAll n)).

Definition handleLogTail (r : Request) : M W Response :=
  if decide (rqMethod r ≠ "GET") then mret (http_error 405 "method not allowed")
  else
    table ← on_cons (srv nodes);
    let some_node := match range _ table with (id, _) :: _ => id | [] => "" end in
    let nodeID := or_else (or_else (query r "node") (query r "node_id")) some_node in
    if decide (nodeID = "") then mret (http_error 404 "no nodes available")
    else
      let lines := match Auth.ParseInt (query r "lines") with Some l => if 0 <? l then l else 100 | None => 100 end in
      out ← catch (on_site (FetchNodeLogs clock ssh range rfc3339 nodeID (query r "service") lines (query r "mode")
                              (query r "user") (query r "key") (query r "port")));
      match out with
      | inl e => mret (mkResponse 500 (Failure "" e))
      | inr l => mret (ok (LogTail l))
      end.

(** ** Logging in and out *)

Definition cookie_secure (r : Request) : M W bool := t ← gets isTLS; mret (t || rqTLS r).
Definition handleAuthLogin (r : Request) : M W Response :=
  if decide (rqMethod r = "OPTIONS") then mret (ok Empty)
  else if decide (rqMethod r ≠ "POST") then mret (http_error 405 "method not allowed")
  else
    match password_body (rqBody r) with
    | None => mret (http_error 400 "invalid request body")
    | Some password =>
        m ← gets authm;
        if negb (match m with Some m => VerifyPassword sha256_hex password m | None => false end)
        then mret (http_error 401 "invalid admin password")
        else
          k ← on_cons (alerting tick);
          now ← now_ns;
          set_auth (CreateSession (random_token k) now) ;;
          secure ← cookie_secure r;
          mret (ok (LoggedIn (random_token k) secure))
    end.
Definition handleAuthLogout (r : Request) : M W Response :=
  if decide (rqMethod r = "OPTIONS") then mret (ok Empty)
  else if decide (rqMethod r ≠ "POST") then mret (http_error 405 "method not allowed")
  else
    set_auth (RevokeSession (ExtractToken (credentials r))) ;;
    secure ← cookie_secure r;
    mret (ok (LoggedOut secure)).
Definition handleAuthStatus (r : Request) : M W Response :=
  if decide (rqMethod r = "OPTIONS") then mret (ok Empty)
  else b ← logged_in r; mret (ok (LoggedStatus b)).

(** The page Google sends a browser back to: the variables that .env files name and the
    process lacks are set, and the code of the request is exchanged, whoever asks. *)
Definition dotenv (d : D) : list (option string) :=
  map (λ p, match os_ReadFile p d with inl _ => None | inr b => Some (OAuth.text_of b) end)
    [".env"; "../.env"; "../../.env"].
Definition set_env (env : gmap string string) : M W unit :=
  modify (λ w, mkWeb (site w) (authm w) (msAddr w) (isTLS w) (rpcs w) env (posts w)).
Definition on_posts {A} (m : M (list OAuth.Post) A) : M W A := λ w,
  let '(l, r) := m (posts w) in (mkWeb (site w) (authm w) (msAddr w) (isTLS w) (rpcs w) (penv w) l, r).
Definition handleGoogleLoginCallback (r : Request) : M W Response :=
  d ← on_cons (alerting (gets adisk));
  env ← gets penv;
  let '(env, cfg) := OAuth.LoadDesktopConfig client_id client_secret (dotenv d) env in
  set_env env ;;
  now ← now_ns;
  now' ← now_ns;
  k ← gets (λ w, length (posts w));
  p ← on_posts (OAuth.handleGoogleLoginCallback (google k) cfg (rqQuery r) now now');
  mret (ok (CallbackPage p)).

(** The pages of the console. *)
Definition spa (r : Request) : M W Response :=
  if HasPrefix (rqPath r) "/api/" then mret NotFoundPage else mret (ok (Static (rqPath r))).
(** A connection for live actions, and a message on it: the login is checked when it is
    opened.  A console without an orchestrator has no such route. *)
Definition open_websocket (r : Request) : M W Response :=
  o ← the_orchestrator;
  match o with
  | None => spa r
  | Some _ => b ← admitted r; if (b : bool) then mret (ok Upgraded) else mret login_required
  end.
Definition websocket_message (b : bytes) : M W unit :=
  match action_body b with None => mret tt | Some req => ignore (execute req) end.

(** ** Routes *)

(** The paths [http.ServeMux] knows exactly, and those that stand for all below. *)
Definition exact_route (path : string) : option (Request → M W Response) :=
  if decide (path = "/api/auth/login") then Some handleAuthLogin
  else if decide (path = "/api/auth/logout") then Some handleAuthLogout
  else if decide (path = "/api/auth/status") then Some handleAuthStatus
  else if decide (path = "/api/cluster") then Some handleCluster
  else if decide (path = "/api/cluster/summary") then Some handleCluster
  else if decide (path = "/api/performance") then Some handlePerformance
  else if decide (path = "/api/performance/export") then Some handlePerformanceExport
  else if decide (path = "/api/users") then Some (requireAuth handleUsers)
  else if decide (path = "/api/actions/presets") then Some (requireAuth handleActionPresets)
  else if decide (path = "/api/actions/history") then Some (requireAuth handleActionHistory)
  else if decide (path = "/api/actions/execute") then Some (requireAuth handleActionExecute)
  else if decide (path = "/api/alerts") then Some handleAlerts
  else if decide (path = "/api/alerts/summary") then Some handleAlertSummary
  else if decide (path = "/api/alerts/resolve") then Some (requireAuth handleResolveAlert)
  else if decide (path = "/api/alerts/resolve-all") then Some (requireAuth handleResolveAllAlerts)
  else if decide (path = "/api/logs/tail") then Some (requireAuth handleLogTail)
  else if decide (path = "/ws/actions") then Some open_websocket
  else if decide (path = "/health") then Some (λ _, mret (ok (Text (cats ["{"; dq; "status"; dq; ":"; dq; "ok"; dq; "}"]))))
  else if decide (path = "/logincallback") then Some handleGoogleLoginCallback
  else None.
Definition subtree_route (path : string) : option (Request → M W Response) :=
  if HasPrefix path "/api/nodes/" then Some (requireAuth handleRemoveNode)
  else if HasPrefix path "/api/history/" then Some handleHistory
  else if HasPrefix path "/api/users/" then Some (requireAuth handleUserQuota)
  else None.
(** Paths that are not in their shortest form are redirected. *)
Definition clean_path (p : string) : bool :=
  let np := Clean p in IsAbs p && (String.eqb p np || (negb (String.eqb np "/") && String.eqb p (np +:+ "/"))).
Definition serve (r : Request) : M W Response :=
  let path := rqPath r in
  if negb (clean_path path) then mret (mkResponse 301 Redirect)
  else
    match exact_route path with
    | Some h => h r
    | None =>
        match subtree_route path, subtree_route (path +:+ "/") with
        | Some h, _ => h r
        | None, Some _ => mret (mkResponse 301 Redirect)
        | None, None => spa r
        end
    end.
End web.
