(* ===== verification/ApiSpec.v ===== *)
(** * Who may do what at the admin console

    A visitor who is not logged in changes nothing, whatever the request, but can have a
    code posted to Google through the page of a Google login; what a visitor
    is told of the cluster names no user; and what the removal of a node does. *)
From S2P Require Import Prelude GoStd Disk Ring History Node Alerts Storage Discovery Console PollSpec Orchestrator OrchSpec AdminAuth Api.
From S2P Require Session Auth OAuth.
From Stdlib Require Import QArith.
#[global] Open Scope Z_scope.

Section visitors.
Context {D : Type} `{OS D, Json (list Alert), Json (list GistNode), Json (gmap string Z),
  Json MetricsSnapshotFile, Json (list CommandRecord), Json (gmap string Auth.jval), Json OAuth.TokenResponse}.
Context (clock nano : nat → Z) (uuid : nat → string) (net : nat → string → Auth.reply)
  (ssh : nat → SSHRun → SSHAnswer) (reach : nat → Attempt → Outcome) (random_token : nat → string)
  (range : ∀ A, gmap string A → list (string * A)) (sha256_hex : string → string) (rfc3339 : Z → string)
  (quota_body : bytes → option Z) (id_body password_body : bytes → option string)
  (action_body : bytes → option ActionRequest)
  (client_id client_secret : string) (google : nat → string → string → Auth.reply).
Implicit Types (w : Web D) (r : Request).

(** Nothing happened but readings of the clock, and at most the end of the session of
    one token. *)
Definition idle_auth (token : string) (a a' : option AuthManager) : Prop :=
  match a, a' with
  | Some m, Some m' =>
      hash m' = hash m ∧ (∀ t, t ≠ token → sessions m' !! t = sessions m !! t)
      ∧ (∀ e, sessions m' !! token = Some e → sessions m !! token = Some e)
  | None, None => True
  | _, _ => False
  end.
Definition idle (token : string) w w' : Prop :=
  let v := alertw (console (site w)) in
  (∃ t, site w' = mkSite (mkConsole (admin (console (site w))) (records (console (site w)))
                            (mkAlertWorld (am v) (cells v) (adisk v) t) (has_alerts (console (site w)))
                            (discovery (console (site w))))
                    (orchestrator (site w)) (commands (site w)) (sent (site w)))
  ∧ idle_auth token (authm w) (authm w') ∧ msAddr w' = msAddr w ∧ isTLS w' = isTLS w ∧ rpcs w' = rpcs w
  ∧ penv w' = penv w ∧ posts w' = posts w.

Lemma idle_refl token w : idle token w w.
Proof.
  split; [|split_and!; try done; by destruct (authm w)]. destruct w as [[[a r [m c d t] h di] o cm s] ? ? ? ? ? ?]. by exists t.
Qed.
Lemma idle_trans token w1 w2 w3 : idle token w1 w2 → idle token w2 w3 → idle token w1 w3.
Proof.
  intros ([t1 H1s] & Ha1 & Hm1 & Ht1 & Hr1 & He1 & Hp1) ([t2 H2s] & Ha2 & Hm2 & Ht2 & Hr2 & He2 & Hp2). split_and!; try congruence.
  - exists t2. rewrite H2s, H1s. done.
  - unfold idle_auth in *. destruct (authm w1), (authm w2), (authm w3); try done.
    destruct Ha1 as (Hh1 & Ho1 & Ht1'), Ha2 as (Hh2 & Ho2 & Ht2'). split_and!; [congruence| |auto].
    intros t Ht. by rewrite Ho2, Ho1.
Qed.

(** A call that leaves the console idle from wherever it starts. *)
Definition reads {A} (token : string) (m : M (Web D) A) : Prop := ∀ w, idle token w (m w).1.
Lemma reads_preserves {A} token (m : M (Web D) A) : (∀ w0, preserves (idle token w0) m) ↔ reads token m.
Proof.
  split; [intros Hm w; by apply Hm, idle_refl|]. intros Hm w0 w Hw. eapply idle_trans; [exact Hw|apply Hm].
Qed.
Lemma reads_bind {A B} token (m : M (Web D) A) (k : A → M (Web D) B) :
  reads token m → (∀ a, reads token (k a)) → reads token (m ≫= k).
Proof.
  intros Hm Hk. apply reads_preserves. intros w0. apply preserves_bind; [by apply reads_preserves|].
  intros a. by apply reads_preserves.
Qed.
Lemma reads_same {A} token (m : M (Web D) A) : (∀ w, (m w).1 = w) → reads token m.
Proof. intros Hm w. rewrite Hm. apply idle_refl. Qed.
Lemma reads_ret {A} token (a : A) : reads token (mret a).
Proof. by apply reads_same. Qed.
Lemma reads_gets {A} token (f : Web D → A) : reads token (gets f).
Proof. by apply reads_same. Qed.
Lemma reads_lift {A} token (x : res A) : reads token (lift x).
Proof. by apply reads_same. Qed.

(** Reading the site or the console reads the web. *)
Lemma same_bind {S A B} (m : M S A) (k : A → M S B) :
  (∀ s, (m s).1 = s) → (∀ a s, (k a s).1 = s) → ∀ s, ((m ≫= k) s).1 = s.
Proof. intros Hm Hk s. unfold mbind, M_bind. specialize (Hm s). destruct (m s) as [s' [a|e|y]]; simpl in *; subst; auto. Qed.
Lemma on_site_same {A} (m : M (Site D) A) : (∀ s, (m s).1 = s) → ∀ w, (on_site m w).1 = w.
Proof. intros Hm w. unfold on_site. specialize (Hm (site w)). destruct (m (site w)); simpl in *; subst. by destruct w. Qed.
Lemma on_console_same {A} (m : M (Console D) A) : (∀ c, (m c).1 = c) → ∀ s, (on_console m s).1 = s.
Proof. intros Hm s. unfold on_console. specialize (Hm (console s)). destruct (m (console s)); simpl in *; subst. by destruct s. Qed.
Lemma alerting_same {A} (m : M (AlertWorld D) A) : (∀ v, (m v).1 = v) → ∀ c, (alerting m c).1 = c.
Proof. intros Hm c. unfold alerting. specialize (Hm (alertw c)). destruct (m (alertw c)); simpl in *; subst. by destruct c. Qed.
Lemma node_at_same p (c : Console D) : (node_at p c).1 = c.
Proof. unfold node_at, gets, mbind, M_bind. by destruct (records c !! p). Qed.

Lemma index_same {S A} (l : list A) i (s : S) : (index l i s).1 = s.
Proof. unfold index. repeat case_match; done. Qed.
Lemma collect_same {S A} (f : Z → M S A) k i (s : S) : (∀ i s, (f i s).1 = s) → (collect f k i s).1 = s.
Proof.
  intros Hf. revert i s. induction k as [|k IH]; intros i s; simpl; [done|].
  apply same_bind; [apply Hf|]. intros a s1. apply same_bind; [intros s2; apply IH|done].
Qed.
Lemma ring_GetAll_same (rb : RingBuffer Snapshot) : (Ring.GetAll rb).1 = rb.
Proof.
  unfold Ring.GetAll, get, mbind at 1, M_bind at 1. case_match; [done|]. apply collect_same.
  intros i s. apply same_bind; [|intros; apply index_same]. intros s1. unfold go_rem. by case_match.
Qed.
Lemma on_ring_same {A} p (m : M (RingBuffer Snapshot) A) (c : Console D) :
  (∀ rb, (m rb).1 = rb) → (on_ring p m c).1 = c.
Proof.
  intros Hm. unfold on_ring, node_at, gets, mbind, M_bind. destruct (records c !! p) as [n|] eqn:Hn; [|done]. simpl.
  specialize (Hm (nHistory n)). destruct (m (nHistory n)) as [rb x]. simpl in Hm. subst rb.
  rewrite (on_node_run _ _ _ n) by done. simpl. destruct c, n. simpl in *. f_equal. by apply insert_id.
Qed.

Lemma nodes_in_same l (s : Site D) : (nodes_in l s).1 = s.
Proof.
  revert s. induction l as [|[id p] l IH]; intros s; simpl; [done|].
  apply same_bind; [apply on_console_same, node_at_same|]. intros n s1. by apply same_bind.
Qed.
Lemma all_nodes_same (s : Site D) : (all_nodes range s).1 = s.
Proof. unfold all_nodes. apply same_bind; [by apply on_console_same|]. intros; apply nodes_in_same. Qed.
Lemma find_node_same key (s : Site D) : (find_node range key s).1 = s.
Proof.
  unfold find_node. apply same_bind; [by apply on_console_same|]. intros [p|] s1.
  - apply same_bind; [apply on_console_same, node_at_same|done].
  - apply same_bind; [apply all_nodes_same|done].
Qed.
Lemma GetPresets_same o (s : Site D) : (GetPresets range o s).1 = s.
Proof. unfold GetPresets. apply same_bind; [apply all_nodes_same|done]. Qed.
Lemma cluster_history_same (c : Console D) : (aggregateClusterHistoryLocked range c).1 = c.
Proof.
  unfold aggregateClusterHistoryLocked. apply same_bind; [done|]. intros t c1.
  apply same_bind; [|done]. intros c2. generalize ((range _ t).*2). intros l. revert c2.
  induction l as [|p l IH]; intros c2; simpl; [done|].
  apply same_bind; [intros; apply on_ring_same, ring_GetAll_same|]. intros x c3. by apply same_bind.
Qed.
Lemma command_list_same (s : Site D) : (on_commands History.GetAll s).1 = s.
Proof.
  unfold on_commands. destruct s as [[a rc [m c d t] h di] o cm st]. simpl.
  assert (∀ x : HistoryOn D, (History.GetAll x).1 = x) as Hg.
  { intros x. unfold History.GetAll, newest_first, ch. apply same_bind; [done|]. intros c0 x0. apply collect_same.
    intros i y. apply same_bind; [|intros; apply index_same]. intros y1. unfold go_rem. by case_match. }
  specialize (Hg (mkHistoryOn cm d)). destruct (History.GetAll (mkHistoryOn cm d)) as [x rr]. simpl in *. by subst x.
Qed.
Lemma rows_of_same l w : (rows_of (D := D) l w).1 = w.
Proof.
  revert w. induction l as [|n l IH]; intros w; simpl; [done|]. apply same_bind; [done|]. intros s w1. by apply same_bind.
Qed.
Lemma contents_same l (v : AlertWorld D) : (contents l v).1 = v.
Proof.
  revert v. induction l as [|p l IH]; intros v; simpl; [done|].
  apply same_bind; [|intros a v1; by apply same_bind]. intros v1. unfold cell, gets, mbind, M_bind.
  by destruct (cells v1 !! p).
Qed.
Lemma alert_list_same f (v : AlertWorld D) : (Alerts.GetAll f v).1 = v.
Proof. unfold Alerts.GetAll. apply same_bind; [done|]. intros l v1. apply same_bind; [apply contents_same|done]. Qed.
Lemma alert_counts_same (v : AlertWorld D) : (Summary v).1 = v.
Proof. unfold Summary. apply same_bind; [done|]. intros l v1. apply same_bind; [apply contents_same|done]. Qed.

Lemma reads_tick token : reads token (on_cons (alerting tick)).
Proof. intros w. split; [|split_and!; try done; simpl; by destruct (authm w)]. by eexists. Qed.
Lemma reads_now token : reads token (now_ns nano).
Proof. unfold now_ns. apply reads_bind; [apply reads_tick|]. intros; apply reads_ret. Qed.
Lemma reads_cons {A} token (m : M (Console D) A) : (∀ c, (m c).1 = c) → reads token (on_cons m).
Proof. intros Hm. apply reads_same. by apply on_site_same, on_console_same. Qed.
Lemma reads_site {A} token (m : M (Site D) A) : (∀ s, (m s).1 = s) → reads token (on_site m).
Proof. intros Hm. by apply reads_same, on_site_same. Qed.

(** ** A visitor *)

(** The request carries no token of a session that is still open at any reading of the
    clock. *)
Definition visitor r (a : option AuthManager) : Prop :=
  match a with
  | Some m => let token := ExtractToken (credentials r) in
              token = "" ∨ ∀ e, sessions m !! token = Some e → ∀ k, e < nano k
  | None => False
  end.
Lemma visitor_idle r w w' :
  visitor r (authm w) → idle (ExtractToken (credentials r)) w w' → visitor r (authm w').
Proof.
  intros Hv (_ & Ha & _). unfold visitor, idle_auth in *. destruct (authm w) as [m|]; [|done].
  destruct (authm w') as [m'|]; [|done]. destruct Ha as (_ & _ & Ht). destruct Hv as [|Hv]; [by left|right]. eauto.
Qed.

Lemma IsAuthenticated_idle now c m m' b :
  IsAuthenticated now c m = (m', b) → idle_auth (ExtractToken c) (Some m) (Some m').
Proof.
  unfold IsAuthenticated, RevokeSession. repeat (case_decide; [by intros [= <- <-]; split_and!|]). 
  destruct (sessions m !! ExtractToken c) as [e|]; [|by intros [= <- <-]; split_and!].
  destruct (e <? now); [|by intros [= <- <-]; split_and!]. intros [= <- <-]. simpl. split; [done|].
  split; [intros; by rewrite lookup_delete_ne|]. intros e' He. by apply lookup_delete_Some in He as [? _].
Qed.
Lemma logged_in_idle r w : idle (ExtractToken (credentials r)) w (logged_in nano r w).1.
Proof.
  unfold logged_in. pose proof (reads_now (ExtractToken (credentials r)) w) as Hnow.
  unfold mbind at 1, M_bind at 1. destruct (now_ns nano w) as [w1 [now|e|y]]; [|done..]. simpl in Hnow.
  erewrite bind_ok by reflexivity. destruct (authm w1) as [m|] eqn:Hm; [|done].
  destruct (IsAuthenticated now (credentials r) m) as [m' b] eqn:Hrun. erewrite bind_ok by reflexivity.
  eapply idle_trans; [exact Hnow|]. split; [|split_and!; try done].
  - destruct (idle_refl (ExtractToken (credentials r)) w1) as [Hsite _]. exact Hsite.
  - simpl. rewrite Hm. simpl. apply IsAuthenticated_idle in Hrun. exact Hrun.
Qed.
Lemma logged_in_visitor r w : visitor r (authm w) → ∃ w', logged_in nano r w = (w', Ok false).
Proof.
  intros Hv. unfold logged_in, now_ns, on_cons, on_site, on_console, alerting. simpl. unfold visitor in Hv.
  unfold mbind, M_bind, gets, mret, M_ret. simpl.
  destruct (authm w) as [m|]; [|done]. unfold IsAuthenticated.
  case_decide as Ht; [by eexists|]. destruct (sessions m !! _) as [e|] eqn:He; [|by eexists].
  destruct Hv as [|Hv]; [done|]. specialize (Hv e eq_refl (ticks (alertw (console (site w))))).
  rewrite (proj2 (Z.ltb_lt _ _) Hv). by eexists.
Qed.
Lemma admitted_idle r w : idle (ExtractToken (credentials r)) w (admitted nano r w).1.
Proof.
  unfold admitted. erewrite bind_ok by reflexivity. destruct (authm w); [apply logged_in_idle|apply idle_refl].
Qed.
Lemma requireAuth_visitor h r w :
  visitor r (authm w) → (rqMethod r = "OPTIONS" → reads (ExtractToken (credentials r)) (h r)) →
  idle (ExtractToken (credentials r)) w (requireAuth nano h r w).1.
Proof.
  intros Hv Hh. unfold requireAuth. erewrite bind_ok by reflexivity.
  destruct (authm w) as [m|] eqn:Hm; [|done]. case_decide as Ho; [by apply Hh|].
  pose proof (logged_in_idle r w) as Hidle.
  destruct (logged_in_visitor r w) as [w' Hrun]; [by rewrite Hm|].
  erewrite bind_ok by exact Hrun. by rewrite Hrun in Hidle.
Qed.

(** ** The handlers that only read *)

Lemma reads_cluster r : reads (ExtractToken (credentials r)) (handleCluster nano range r).
Proof.
  unfold handleCluster. case_decide; [apply reads_ret|].
  apply reads_bind; [apply reads_site, all_nodes_same|]. intros l.
  apply reads_bind; [intros w; apply admitted_idle|]. intros b.
  apply reads_bind; [by apply reads_cons|]. intros; apply reads_ret.
Qed.
Lemma reads_history token r : reads token (handleHistory range r).
Proof.
  unfold handleHistory. case_decide; [apply reads_ret|]. case_decide.
  - apply reads_bind; [apply reads_cons, cluster_history_same|]. intros; apply reads_ret.
  - apply reads_bind; [apply reads_site; intros; apply find_node_same|]. intros [[id n]|]; [|apply reads_ret].
    apply reads_bind; [apply reads_lift|]. intros; apply reads_ret.
Qed.
Lemma reads_performance token r : reads token (handlePerformance range r).
Proof.
  unfold handlePerformance. case_decide; [apply reads_ret|].
  apply reads_bind; [apply reads_site, all_nodes_same|]. intros; apply reads_ret.
Qed.
Lemma reads_export token r : reads token (handlePerformanceExport clock range rfc3339 r).
Proof.
  unfold handlePerformanceExport. case_decide; [apply reads_ret|]. apply reads_bind; [apply reads_tick|]. intros now.
  apply reads_bind; [apply reads_site, all_nodes_same|]. intros l.
  apply reads_bind; [apply reads_same; intros; apply rows_of_same|]. intros; apply reads_ret.
Qed.
Lemma reads_alerts r : reads (ExtractToken (credentials r)) (handleAlerts nano r).
Proof.
  unfold handleAlerts. case_decide; [apply reads_ret|]. apply reads_bind; [by apply reads_cons|]. intros [|]; simpl; [|apply reads_ret].
  apply reads_bind; [apply reads_cons, alerting_same, alert_list_same|]. intros l.
  apply reads_bind; [intros w; apply admitted_idle|]. intros; apply reads_ret.
Qed.
Lemma reads_counts token r : reads token (handleAlertSummary r).
Proof.
  unfold handleAlertSummary. case_decide; [apply reads_ret|]. apply reads_bind; [by apply reads_cons|]. intros [|]; simpl; [|apply reads_ret].
  apply reads_bind; [apply reads_cons, alerting_same, alert_counts_same|]. intros; apply reads_ret.
Qed.
Lemma reads_presets token r : reads token (handleActionPresets range r).
Proof.
  unfold handleActionPresets. apply reads_bind; [apply reads_gets|]. intros [o|]; [|apply reads_ret].
  apply reads_bind; [apply reads_site, GetPresets_same|]. intros; apply reads_ret.
Qed.
Lemma reads_commands token r : reads token (handleActionHistory r).
Proof.
  unfold handleActionHistory. apply reads_bind; [apply reads_site, command_list_same|]. intros; apply reads_ret.
Qed.
Lemma reads_status r : reads (ExtractToken (credentials r)) (handleAuthStatus nano r).
Proof.
  unfold handleAuthStatus. case_decide; [apply reads_ret|]. apply reads_bind; [intros w; apply logged_in_idle|].
  intros; apply reads_ret.
Qed.
Lemma reads_websocket r : reads (ExtractToken (credentials r)) (open_websocket nano r).
Proof.
  unfold open_websocket. apply reads_bind; [apply reads_gets|]. intros [o|].
  - apply reads_bind; [intros w; apply admitted_idle|]. intros [|]; apply reads_ret.
  - unfold spa. destruct (HasPrefix _ _); apply reads_ret.
Qed.
Lemma reads_logout r : reads (ExtractToken (credentials r)) (handleAuthLogout r).
Proof.
  unfold handleAuthLogout. case_decide; [apply reads_ret|]. case_decide; [apply reads_ret|].
  apply reads_bind; [|intros; apply reads_bind; [apply reads_gets|intros; apply reads_ret]].
  intros w. split; [destruct (idle_refl (ExtractToken (credentials r)) w) as [Hs _]; exact Hs|]. split_and!; try done.
  simpl. destruct (authm w) as [m|]; [|done]. simpl. unfold RevokeSession. case_decide; [by split_and!|]. simpl.
  split; [done|]. split; [intros; by rewrite lookup_delete_ne|]. intros e He. by apply lookup_delete_Some in He as [? _].
Qed.
(** Asked with the method [OPTIONS], the handlers behind the login answer without
    changing anything. *)
Lemma options_reads token r h :
  rqMethod r = "OPTIONS" →
  h ∈ [handleUsers range; handleActionPresets range; handleActionHistory;
       handleActionExecute nano uuid ssh range action_body; handleResolveAlert clock id_body;
       handleResolveAllAlerts clock; handleLogTail clock ssh range rfc3339;
       handleRemoveNode clock nano net reach range; handleUserQuota nano net reach quota_body] →
  reads token (h r).
Proof.
  intros Hm Hh. rewrite !elem_of_cons, elem_of_nil in Hh.
  destruct Hh as [->|[->|[->|[->|[->|[->|[->|[->|[->|[]]]]]]]]]];
    [|apply reads_presets|apply reads_commands|..];
    (unfold handleUsers, handleActionExecute, handleResolveAlert, handleResolveAllAlerts, handleLogTail,
       handleRemoveNode, handleUserQuota; rewrite Hm; apply reads_ret).
Qed.

(** The password of the request is not the administrator's. *)
Definition wrong_password r (a : option AuthManager) : Prop :=
  ∀ p m, password_body (rqBody r) = Some p → a = Some m → VerifyPassword sha256_hex p m = false.
Lemma login_refused r w :
  wrong_password r (authm w) →
  idle (ExtractToken (credentials r)) w (handleAuthLogin nano random_token sha256_hex password_body r w).1.
Proof.
  intros Hp. unfold handleAuthLogin. case_decide; [apply reads_ret|]. case_decide; [apply reads_ret|].
  destruct (password_body (rqBody r)) as [p|] eqn:Hb; [|apply reads_ret].
  erewrite bind_ok by reflexivity. destruct (authm w) as [m|] eqn:Hm; [|apply reads_ret].
  rewrite (Hp p m Hb eq_refl). apply reads_ret.
Qed.

Abbreviation the_exact_route := (exact_route clock nano uuid ssh random_token range sha256_hex rfc3339
                                   id_body password_body action_body client_id client_secret google).
Abbreviation the_subtree_route := (subtree_route clock nano net reach range quota_body).
Abbreviation the_serve := (serve clock nano uuid net ssh reach random_token range sha256_hex rfc3339
                             quota_body id_body password_body action_body client_id client_secret google).

(** What the page of a Google login does besides: it sets the variables that the .env files
    name and the process lacks, and posts at most one form, to Google's token endpoint,
    with the code of the request. *)
Definition exchanged r w w' : Prop :=
  let env := LoadEnv (dotenv (adisk (alertw (console (site w))))) (penv w) in
  rqPath r = "/logincallback"
  ∧ ∃ w1 new, idle (ExtractToken (credentials r)) w w1
      ∧ w' = mkWeb (site w1) (authm w1) (msAddr w1) (isTLS w1) (rpcs w1) env (posts w ++ new)
      ∧ (new = [] ∨ ∃ p, new = [p] ∧ OAuth.pUrl p = OAuth.GoogleTokenEndpoint
           ∧ query r "code" ≠ "" ∧ OAuth.pForm p !! "code" = Some (query r "code")).
Lemma now_ns_ok token w : ∃ w' n, now_ns nano w = (w', Ok n) ∧ idle token w w'.
Proof. eexists _, _. split; [reflexivity|]. apply (reads_now token w). Qed.
Lemma callback_page_visitor r w :
  rqPath r = "/logincallback" →
  exchanged r w (handleGoogleLoginCallback nano client_id client_secret google r w).1.
Proof.
  intros Hpath. unfold handleGoogleLoginCallback. set (token := ExtractToken (credentials r)).
  assert (on_cons (alerting (gets adisk)) w = (w, Ok (adisk (alertw (console (site w)))))) as Hd
    by (by destruct w as [[[a rc [m c d t] h di] o cm s] ? ? ? ? ? ?]).
  erewrite bind_ok by exact Hd. erewrite bind_ok by reflexivity.
  destruct (OAuth.LoadDesktopConfig _ _ _ _) as [env cfg] eqn:Hcfg.
  assert (env = LoadEnv (dotenv (adisk (alertw (console (site w))))) (penv w)) as Henv by (by injection Hcfg as <- _).
  set (w1 := mkWeb (site w) (authm w) (msAddr w) (isTLS w) (rpcs w) env (posts w)).
  erewrite (bind_ok _ _ w w1) by reflexivity.
  destruct (now_ns_ok token w1) as (w2 & n & Hn & Hi2). erewrite bind_ok by exact Hn.
  destruct (now_ns_ok token w2) as (w3 & n' & Hn' & Hi3). erewrite bind_ok by exact Hn'.
  pose proof (idle_trans _ _ _ _ Hi2 Hi3) as (Hsite & Ha & Hms & Htls & Hrp & He & Hpo).
  erewrite bind_ok by reflexivity. set (g := google (length (posts w3))).
  destruct (OAuth.page_run g cfg "" "" (rqQuery r) n n' (posts w3)) as (page & new & Hrun & Hnew & _).
  erewrite bind_ok by (unfold on_posts, OAuth.handleGoogleLoginCallback; by rewrite Hrun).
  split; [done|]. exists (mkWeb (site w3) (authm w3) (msAddr w3) (isTLS w3) (rpcs w3) (penv w) (posts w)), new.
  split; [by split_and!|]. rewrite Hpo, He. split; [by rewrite <-Henv|].
  destruct Hnew as [->|(p & -> & _ & _ & Hcode & ->)]; [by left|right]. eexists. split; [done|].
  split; [done|]. split; [exact Hcode|]. apply OAuth.token_form_code.
Qed.

Lemma exact_route_visitor h r w :
  the_exact_route (rqPath r) = Some h → visitor r (authm w) → wrong_password r (authm w) →
  idle (ExtractToken (credentials r)) w (h r w).1 ∨ exchanged r w (h r w).1.
Proof.
  intros Hroute Hv Hp. unfold exact_route in Hroute.
  repeat (case_decide; [injection Hroute as <-;
    first [by right; apply callback_page_visitor|left;
      first [by apply login_refused|apply reads_logout|apply reads_status|apply reads_cluster|apply reads_performance
          |apply reads_export|apply reads_alerts|apply reads_counts|apply reads_websocket|apply reads_ret
          |apply requireAuth_visitor; [exact Hv|intros Ho; eapply options_reads; [exact Ho|]; set_solver]]]|]).
  done.
Qed.
Lemma subtree_route_visitor path h r w :
  the_subtree_route path = Some h → visitor r (authm w) → idle (ExtractToken (credentials r)) w (h r w).1.
Proof.
  intros Hroute Hv. unfold subtree_route in Hroute.
  destruct (HasPrefix path "/api/nodes/"); [injection Hroute as <-|destruct (HasPrefix path "/api/history/");
    [injection Hroute as <-; apply reads_history|destruct (HasPrefix path "/api/users/"); [injection Hroute as <-|done]]];
    (apply requireAuth_visitor; [exact Hv|intros Ho; eapply options_reads; [exact Ho|]]).
  - do 7 right. by left.
  - do 8 right. by left.
Qed.
Lemma serve_visitor r w :
  visitor r (authm w) → wrong_password r (authm w) →
  idle (ExtractToken (credentials r)) w (the_serve r w).1 ∨ exchanged r w (the_serve r w).1.
Proof.
  intros Hv Hp. unfold serve. destruct (negb _); [left; apply reads_ret|].
  destruct (the_exact_route (rqPath r)) as [h|] eqn:He; [by apply exact_route_visitor|left].
  destruct (the_subtree_route (rqPath r)) as [h|] eqn:Hs; [by eapply subtree_route_visitor|].
  destruct (the_subtree_route (rqPath r +:+ "/")); [apply reads_ret|].
  unfold spa. destruct (HasPrefix _ _); apply reads_ret.
Qed.
End visitors.

(** ** What a visitor is told *)

(** The map of a sorted list is the sorted map when the comparison sees the images. *)
Section sorting.
Context {A B : Type} (f : A → B) (R : relation A) (S : relation B) `{∀ x y, Decision (R x y), ∀ x y, Decision (S x y)}.
Context (HRS : ∀ x y, R x y ↔ S (f x) (f y)).

Lemma list_merge_map l1 l2 : map f (list_merge R l1 l2) = list_merge S (map f l1) (map f l2).
Proof.
  revert l2. induction l1 as [|x l1 IH1]; intros l2; [by destruct l2|].
  induction l2 as [|y l2 IH2]; [done|]. simpl in *.
  destruct (decide (R x y)) as [Hr|Hr], (decide (S (f x) (f y))) as [Hs|Hs]; try (rewrite HRS in Hr; done).
  - simpl. f_equal. apply (IH1 (y :: l2)).
  - simpl. f_equal. exact IH2.
Qed.
Lemma merge_stack_map st : merge_stack S (map (option_map (map f)) st) = map f (merge_stack R st).
Proof.
  induction st as [|[l|] st IH]; simpl; [done| |done]. by rewrite list_merge_map, IH.
Qed.
Lemma merge_list_to_stack_map st l :
  map (option_map (map f)) (merge_list_to_stack R st l) = merge_list_to_stack S (map (option_map (map f)) st) (map f l).
Proof.
  revert l. induction st as [|[l'|] st IH]; intros l; simpl; [done| |done]. by rewrite IH, list_merge_map.
Qed.
Lemma merge_sort_map l : merge_sort S (map f l) = map f (merge_sort R l).
Proof.
  unfold merge_sort. change (@nil (option (list B))) with (map (option_map (map f)) []) at 1. generalize (@nil (option (list A))).
  induction l as [|x l IH]; intros st; simpl; [apply merge_stack_map|].
  rewrite <-IH, merge_list_to_stack_map. done.
Qed.
End sorting.

Lemma sort_by_map {A B} (f : A → B) (sa : A → Z) (ka : A → string) (sb : B → Z) (kb : B → string) l :
  (∀ x, sb (f x) = sa x) → (∀ x, kb (f x) = ka x) → sort_by sb kb (map f l) = map f (sort_by sa ka l).
Proof.
  intros Hs Hk. apply (merge_sort_map f). intros x y. unfold not_after. by rewrite !Hs, !Hk.
Qed.

Lemma filter_map_redacted l : filter (λ n, is_active n = true) (map redacted l) = map redacted (filter (λ n, is_active n = true) l).
Proof.
  induction l as [|n l IH]; [done|]. simpl. rewrite !filter_cons. change (is_active (redacted n)) with (is_active n).
  case_decide; simpl; by rewrite IH.
Qed.
Lemma without_users_twice m : without_users (without_users m) = without_users m.
Proof. done. Qed.
Lemma redacted_twice n : redacted (redacted n) = redacted n.
Proof. by destruct n as [? ? ? ? ? ? ? ? ? [m|] ? ?]. Qed.

(** The page of a visitor depends on what is left of the nodes without their users. *)
Lemma cluster_of_redacted l us : cluster_of l us false = cluster_of (map redacted l) ∅ false.
Proof.
  unfold cluster_of. rewrite filter_map_redacted, !length_map. set (a := filter (λ n, is_active n = true) l).
  assert (∀ g : NodeState → Q, (∀ n, g (redacted n) = g n) → map g (map redacted a) = map g a) as Hmap.
  { intros g Hg. rewrite map_map. apply map_ext. exact Hg. }
  assert (∀ f, (∀ m, f (without_users m) = f m) → ∀ t,
            foldl (λ t n, match nMetrics n with Some m => u64 (t + f m) | None => t end) t (map redacted l)
            = foldl (λ t n, match nMetrics n with Some m => u64 (t + f m) | None => t end) t l) as Hfold.
  { clear. intros f Hf. induction l as [|n l IH]; intros t; simpl; [done|]. rewrite <-IH. f_equal.
    destruct (nMetrics n) as [m|]; simpl; [by rewrite Hf|done]. }
  assert (length (filter (λ n, nStatus n = StatusOnline) (map redacted l)) = length (filter (λ n, nStatus n = StatusOnline) l)) as Hon.
  { clear. induction l as [|n l IH]; [done|]. simpl. rewrite !filter_cons. change (nStatus (redacted n)) with (nStatus n).
    case_decide; simpl; by rewrite IH. }
  rewrite Hon, !Hfold by done. rewrite !(Hmap (λ n, _ (nRates n))) by done. unfold error_rate.
  rewrite (Hmap node_ops), (Hmap (λ n, _)) by done.
  rewrite (sort_by_map redacted nDisplayID nFsID nDisplayID nFsID) by done.
  f_equal. f_equal. rewrite map_map. apply map_ext. intros n. by rewrite redacted_twice.
Qed.

(** What is said of an alert to a visitor does not name a user either. *)
Lemma visible_alert_no_user a b : visible_alert a = Some b → alUsername b = "" ∧ alType b ≠ AlertTypeQuotaExceeded.
Proof. unfold visible_alert. case_decide; [done|]. by intros [= <-]. Qed.

Section properties.
Context {D : Type} `{OS D, Json (list Alert), Json (list GistNode), Json (gmap string Z),
  Json MetricsSnapshotFile, Json (list CommandRecord), Json (gmap string Auth.jval), Json OAuth.TokenResponse}.
Context (clock nano : nat → Z) (uuid : nat → string) (net : nat → string → Auth.reply)
  (ssh : nat → SSHRun → SSHAnswer) (reach : nat → Attempt → Outcome) (random_token : nat → string)
  (range : ∀ A, gmap string A → list (string * A)) (sha256_hex : string → string) (rfc3339 : Z → string)
  (quota_body : bytes → option Z) (id_body password_body : bytes → option string)
  (action_body : bytes → option ActionRequest)
  (client_id client_secret : string) (google : nat → string → string → Auth.reply).
Implicit Types (w : Web D) (r : Request).
Abbreviation serve_it := (serve clock nano uuid net ssh reach random_token range sha256_hex rfc3339
                            quota_body id_body password_body action_body client_id client_secret google).

(** C33. A visitor changes nothing.  Whatever the request, method and path of somebody
    who carries no token of an open session and does not log in with the right password,
    on a console that asks for a login: the table of nodes and the records it points to,
    the users, the tombstones, the alerts, the commands and the disk stay as they are, no
    file server or metaserver is called and nothing is run on one; of the sessions at most
    that of the token presented, which has expired, is dropped.  With one exception the
    process posts nothing and keeps its environment: a request for /logincallback makes it
    set the variables its .env files name and it lacks, and post at most one form, to
    Google's token endpoint, with the code of the request. *)
Theorem visitors_change_nothing r w :
  visitor nano r (authm w) → wrong_password sha256_hex password_body r (authm w) →
  let w' := (serve_it r w).1 in
  idle (ExtractToken (credentials r)) w w'
  ∨ rqPath r = "/logincallback"
    ∧ ∃ w1 new, idle (ExtractToken (credentials r)) w w1
      ∧ w' = mkWeb (site w1) (authm w1) (msAddr w1) (isTLS w1) (rpcs w1)
               (LoadEnv (dotenv (adisk (alertw (console (site w))))) (penv w)) (posts w ++ new)
      ∧ (new = [] ∨ ∃ p, new = [p] ∧ OAuth.pUrl p = OAuth.GoogleTokenEndpoint
           ∧ query r "code" ≠ "" ∧ OAuth.pForm p !! "code" = Some (query r "code")).
Proof. apply serve_visitor. Qed.

(** What [handleCluster] answers a visitor. *)
Lemma handleCluster_visitor r w l :
  rqMethod r = "GET" → visitor nano r (authm w) → (all_nodes range (site w)).2 = Ok l →
  (handleCluster nano range r w).2 = Ok (ok (Cluster (cluster_of l.*2 (users (admin (console (site w)))) false))).
Proof.
  intros Hm Hv Hl. unfold handleCluster. rewrite decide_False by (by rewrite Hm; intros []).
  unfold list_nodes. pose proof (all_nodes_same range (site w)) as Hs.
  assert (on_site (all_nodes range) w = (w, Ok l)) as Hrun.
  { unfold on_site. destruct (all_nodes range (site w)) as [s x]. simpl in *. subst. by destruct w. }
  erewrite bind_ok by exact Hrun. pose proof (admitted_idle nano r w) as Hidle.
  assert (∃ w', admitted nano r w = (w', Ok false)) as [w' Hadm].
  { unfold admitted. erewrite bind_ok by reflexivity. destruct (authm w) eqn:Ha; [|done].
    apply logged_in_visitor. by rewrite Ha. }
  erewrite bind_ok by exact Hadm. rewrite Hadm in Hidle. destruct Hidle as ([t Hsite] & _). simpl in Hsite.
  unfold on_cons, on_site, on_console, srv, gets, mbind, M_bind. rewrite Hsite. done.
Qed.

(** The page of the cluster tells a visitor nothing of users: two consoles whose
    nodes differ only in the storage, the quotas and the activity of users, and in the
    users they know, answer the same. *)
Theorem visitors_see_no_users r w1 w2 l1 l2 :
  rqMethod r = "GET" → visitor nano r (authm w1) → visitor nano r (authm w2) →
  (all_nodes range (site w1)).2 = Ok l1 → (all_nodes range (site w2)).2 = Ok l2 →
  map redacted l1.*2 = map redacted l2.*2 →
  (handleCluster nano range r w1).2 = (handleCluster nano range r w2).2.
Proof.
  intros Hm Hv1 Hv2 Hl1 Hl2 Heq. rewrite (handleCluster_visitor r w1 l1), (handleCluster_visitor r w2 l2) by done.
  do 3 f_equal. rewrite (cluster_of_redacted l1.*2), (cluster_of_redacted l2.*2). by rewrite Heq.
Qed.

(** The history of a node is given to anybody with all it holds: the storage and the
    quota of every user, and who was active, which the page of the cluster withholds. *)
Theorem history_needs_no_login w p n q :
  entry_of (console (site w)) "0" = Some (p, n) → rb_holds ring_size q (nHistory n) →
  serve_it (mkRequest "GET" "/api/history/0" "" "" None false []) w = (w, Ok (ok (NodeHistory q))).
Proof.
  intros He Hq. apply entry_Some in He as [Hp Hn]. unfold serve.
  replace (clean_path _) with true by (vm_compute; reflexivity). simpl. unfold handleHistory. simpl.
  assert (on_site (find_node range "0") w = (w, Ok (Some ("0", n)))) as Hfind.
  { unfold on_site, find_node, on_console, srv, gets, mbind, M_bind. rewrite Hp. simpl.
    unfold node_at, gets, mbind, M_bind. rewrite Hn. simpl. destruct w as [[c o cm s] ? ? ? ? ? ?]. by destruct c. }
  replace (Session.TrimSpace _) with "0" by (vm_compute; reflexivity).
  pose proof (GetAll_run ring_size q _ Hq) as Hget. unfold mbind at 1, M_bind at 1. rewrite Hfind. cbv beta iota.
  unfold lift, mbind, M_bind. by rewrite Hget.
Qed.

(** The login is not asked of a request with the method [OPTIONS], and the handler of
    the command history does not look at the method: anybody reads every command that
    was run on the cluster with its output. *)
Theorem options_escapes_login `{!DiskLaws D, !JsonLaws (list CommandRecord)} w cap q :
  ch_holds cap q (commands (site w)) →
  serve_it (mkRequest "OPTIONS" "/api/actions/history" "" "" None false []) w = (w, Ok (ok (Records (reverse q)))).
Proof.
  intros Hq. unfold serve. replace (clean_path _) with true by (vm_compute; reflexivity). simpl.
  unfold requireAuth. erewrite bind_ok by reflexivity.
  assert (handleActionHistory (mkRequest "OPTIONS" "/api/actions/history" "" "" None false []) w
          = (w, Ok (ok (Records (reverse q))))) as Hrun.
  { unfold handleActionHistory. pose proof (command_list_same (site w)) as Hs.
    assert (on_site (on_commands History.GetAll) w = (w, Ok (reverse q))) as Hget.
    { unfold on_site. destruct (on_commands History.GetAll (site w)) as [s x] eqn:Hx. simpl in Hs. subst s.
      unfold on_commands in Hx. rewrite (newest_first_run cap q (mkHistoryOn (commands (site w)) _)) in Hx by done.
      injection Hx as _ <-. by destruct w. }
    by erewrite bind_ok by exact Hget. }
  destruct (authm w); exact Hrun.
Qed.

(** ** The removal of a node *)

(** The web around another console. *)
Definition with_console (c : Console D) w : Web D :=
  mkWeb (mkSite c (orchestrator (site w)) (commands (site w)) (sent (site w))) (authm w) (msAddr w) (isTLS w) (rpcs w) (penv w) (posts w).
Definition with_rpcs (l : list Attempt) w : Web D := mkWeb (site w) (authm w) (msAddr w) (isTLS w) l (penv w) (posts w).

(** The attempts of a call, and whether one was answered with success. *)
Definition call_result (k : nat) (tls plain : Attempt) : list Attempt * bool :=
  match reach k tls with
  | Replied b _ => ([tls], b)
  | _ => ([tls; plain], match reach (S k) plain with Replied b _ => b | _ => false end)
  end.

Lemma on_cons_run {A} (m : M (Console D) A) w c a :
  m (console (site w)) = (c, Ok a) → on_cons m w = (with_console c w, Ok a).
Proof. intros Hm. unfold on_cons, on_site, on_console. by rewrite Hm. Qed.

Lemma resolve_name_run address w :
  console_wf (console (site w)) →
  ∃ c name, resolve_name nano net address w = (with_console c w, Ok name) ∧ quiet (console (site w)) c.
Proof.
  intros Hw. unfold resolve_name. erewrite bind_ok by (by apply (on_cons_run _ w (console (site w)))).
  destruct (discovery (console (site w))) as [r|].
  2:{ exists (console (site w)), "". split; [|by apply quiet_refl]. destruct w as [[c o cm s] ? ? ? ? ? ?]. done. }
  destruct (alerting_quiet tick _ calm_tick Hw) as (c1 & k & Hrun1 & Hq1). pose proof (quiet_wf _ _ Hw Hq1) as Hw1.
  assert (with_console (console (site w)) w = w) as Hid by (by destruct w as [[c o cm s] ? ? ? ? ? ?]).
  rewrite Hid. erewrite bind_ok by (by apply on_cons_run).
  destruct (alerting_quiet tick _ calm_tick Hw1) as (c2 & l & Hrun2 & Hq2). pose proof (quiet_wf _ _ Hw1 Hq2) as Hw2.
  erewrite bind_ok by (by apply on_cons_run).
  destruct (resolving_quiet r (ResolveServerName (net k) (nano k) (nano l) address) c2) as (c3 & name & Hrun3 & Hq3);
    [intros; apply ResolveServerName_run|done|].
  exists c3, name. split; [exact (on_cons_run _ (with_console c2 (with_console c1 w)) c3 name Hrun3)|].
  eauto using quiet_trans.
Qed.

Lemma call_run what role address c w :
  console_wf (console (site w)) →
  ∃ cn name hdr, quiet (console (site w)) cn ∧
    let '(atts, b) := call_result (length (rpcs w)) (mkAttempt address (Some name) hdr c) (mkAttempt address None hdr c) in
    ∃ out, call_over_tls_or_plain nano net reach what role address c w = (with_rpcs (rpcs w ++ atts) (with_console cn w), out)
      ∧ if (b : bool) then out = Ok tt else ∃ e, out = Err e.
Proof.
  intros Hw. unfold call_over_tls_or_plain. erewrite bind_ok by reflexivity. cbv zeta.
  destruct (resolve_name_run address w Hw) as (cn & name & Hrun & Hq). erewrite bind_ok by exact Hrun.
  match goal with |- context [mkAttempt address (Some ?n) ?h c] => exists cn, n, h; set (sn := n); set (hdr := h) end.
  split; [done|]. unfold call_result. set (a1 := mkAttempt address (Some sn) hdr c). set (a2 := mkAttempt address None hdr c).
  unfold attempt at 1. unfold mbind at 1, M_bind at 1. simpl.
  destruct (reach (length (rpcs w)) a1) as [e1|e1|[] e1] eqn:H1a.
  3,4: eexists; split; [reflexivity|]; by eauto.
  all: unfold attempt, mbind, M_bind, gets, modify; simpl; rewrite length_app; simpl;
    replace (length (rpcs w) + 1)%nat with (S (length (rpcs w))) by lia; rewrite <-app_assoc; simpl;
    destruct (reach (S (length (rpcs w))) a2) as [e2|e2|[] e2]; eexists; (split; [reflexivity|]); by eauto.
Qed.

(** The removal of a listed node changes the cluster first.  With a metaserver
    configured it is asked to deregister exactly this node, over TLS and then, when that
    does not get through, in plain text; if it does not answer with success the request
    is refused and the console is as it was; if it does, the node and the users whose
    home it was leave the console, the removal is remembered with its time, and every
    other node and user stays. *)
Theorem remove_listed_correct w id p n :
  console_wf (console (site w)) → entry_of (console (site w)) id = Some (p, n) →
  msAddr w ≠ "" → nNodeID n ≠ "" ∨ nAddress n ≠ "" →
  let c := console (site w) in
  ∃ w' resp name hdr, remove_listed clock nano net reach id n w = (w', Ok resp)
    ∧ let call := DeregisterCall (nNodeID n) (nAddress n) in
      let '(atts, b) := call_result (length (rpcs w)) (mkAttempt (msAddr w) (Some name) hdr call) (mkAttempt (msAddr w) None hdr call) in
      let c' := console (site w') in
      rpcs w' = rpcs w ++ atts
      ∧ if (b : bool) then
          rsStatus resp = 200 ∧ entry_of c' id = None ∧ (∀ k, k ≠ id → entry_of c' k = entry_of c k)
          ∧ (∃ t, removedNodes (admin c') = <[id := clock t]> (removedNodes (admin c)))
          ∧ users (admin c') = filter (λ kv, kv.2 ≠ id) (users (admin c))
        else rsStatus resp = 502 ∧ admin c' = admin c ∧ records c' = records c.
Proof.
  clear sha256_hex. intros Hw He Hms Hid. cbv zeta. unfold remove_listed, metaserver_for_removal.
  assert ((ms ← gets msAddr; if decide (ms ≠ "") then mret ms else
     r ← on_cons (gets discovery);
     match r with
     | None => mret ""
     | Some r => k ← on_cons (alerting tick); later ← on_cons (alerting tick);
         o ← catch (on_cons (resolving r (ResolveMetaAddress (net k) (nano k) (nano later) "50051")));
         mret (match o with inr a => a | inl _ => "" end)
     end) w = (w, Ok (msAddr w))) as Hres by (erewrite bind_ok by reflexivity; by rewrite decide_True).
  erewrite bind_ok by exact Hres. clear Hres. rewrite (decide_False (P := msAddr w = "")) by done.
  rewrite decide_False by naive_solver.
  destruct (call_run "DeregisterFileServer" "metaserver" (msAddr w) (DeregisterCall (nNodeID n) (nAddress n)) w Hw)
    as (cn & name & hdr & Hq & Hcall).
  destruct (call_result _ _ _) as [atts b] eqn:Hres. destruct Hcall as (r & Hrun & Hr).
  pose proof (quiet_wf _ _ Hw Hq) as Hwn. destruct Hq as (Ha & Hrec & _).
  destruct b.
  - subst r. destruct (forgetNode_run clock id cn Hwn) as (c2 & Hrun2 & Hw2 & He2 & Ho2 & Ht2 & Hu2).
    eexists _, _, name, hdr. split.
    { erewrite bind_ok by (erewrite bind_ok by (unfold catch, CallDeregisterFileServer; by rewrite Hrun); reflexivity).
      cbv iota. erewrite bind_ok by (apply on_cons_run; exact Hrun2). reflexivity. }
    rewrite Hres. split; [done|]. simpl. split; [done|]. split; [done|]. split_and!.
    + intros k Hne. rewrite Ho2 by done. by apply entry_same; congruence.
    + eexists. by rewrite Ht2, Ha.
    + by rewrite Hu2, Ha.
  - destruct Hr as [e ->]. eexists _, _, name, hdr. split.
    { erewrite bind_ok by (erewrite bind_ok by (unfold catch, CallDeregisterFileServer; by rewrite Hrun); reflexivity). reflexivity. }
    rewrite Hres. by split_and!.
Qed.
End properties.

(** ** The theorems on a console with one node *)

Definition demo_hash (s : string) : string := "hash of " +:+ s.
Definition demo_web : Web MemDisk :=
  mkWeb demo_site (Some (mkAuthManager "hash of secret" {["stale" := -1]})) "10.0.0.1:50051" false [] ∅ [].
#[local] Existing Instance OAuth.one_response.
#[local] Existing Instance Auth.demo_claims_json.
Definition demo_reach (k : nat) (a : Attempt) : Outcome :=
  match atServerName a with Some _ => NoConnection "no TLS" | None => Replied true "" end.
Definition demo_token (k : nat) : string := "token".
Definition demo_visit (method path : string) : Request := mkRequest method path "" "Bearer stale" None false [].
Abbreviation demo_serve := (serve demo_clock demo_nano demo_uuid demo_net demo_ssh demo_reach demo_token demo_range demo_hash
  pretty (λ _, Some 1) (λ _, Some "0") (λ _, Some "guess") (λ _, Some (demo_request ["0"])) "id" "s3" (λ _, OAuth.google)).

Lemma demo_visitor method path : visitor demo_nano (demo_visit method path) (authm demo_web).
Proof.
  simpl. right. replace (ExtractToken _) with "stale" by (vm_compute; reflexivity). intros e.
  rewrite lookup_singleton_eq. intros [= <-] k. unfold demo_nano. lia.
Qed.
Lemma demo_wrong_password r : wrong_password demo_hash (λ _, Some "guess") r (authm demo_web).
Proof. intros p m [= <-] [= <-]. vm_compute. reflexivity. Qed.

(** The request that would run an action, and a log-in with a wrong password. *)
Lemma visitors_change_nothing_witness :
  idle "stale" demo_web (demo_serve (demo_visit "POST" "/api/actions/execute") demo_web).1
  ∧ idle "stale" demo_web (demo_serve (demo_visit "POST" "/api/auth/login") demo_web).1.
Proof.
  assert (∀ path P R, path ≠ "/logincallback" → P ∨ path = "/logincallback" ∧ R → P) as pick
    by (intros path P R Hp [?|[? _]]; [assumption|contradiction]).
  split.
  - refine (pick "/api/actions/execute" _ _ _ _); [discriminate|].
    exact (visitors_change_nothing demo_clock demo_nano demo_uuid demo_net demo_ssh demo_reach demo_token demo_range demo_hash
      pretty (λ _, Some 1) (λ _, Some "0") (λ _, Some "guess") (λ _, Some (demo_request ["0"])) "id" "s3" (λ _, OAuth.google)
      (demo_visit "POST" "/api/actions/execute") demo_web (demo_visitor _ _) (demo_wrong_password _)).
  - refine (pick "/api/auth/login" _ _ _ _); [discriminate|].
    exact (visitors_change_nothing demo_clock demo_nano demo_uuid demo_net demo_ssh demo_reach demo_token demo_range demo_hash
      pretty (λ _, Some 1) (λ _, Some "0") (λ _, Some "guess") (λ _, Some (demo_request ["0"])) "id" "s3" (λ _, OAuth.google)
      (demo_visit "POST" "/api/auth/login") demo_web (demo_visitor _ _) (demo_wrong_password _)).
Defined.

(** The exception: a code that somebody made up goes to Google, with the program's secret. *)
Theorem anybody_posts_a_code :
  let r := mkRequest "GET" "/logincallback" "code=evil" "" None false [] in
  visitor demo_nano r (authm demo_web)
  ∧ let w' := (demo_serve r demo_web).1 in
    map (λ p, (OAuth.pUrl p, OAuth.pForm p !! "code", OAuth.pForm p !! "client_secret")) (posts w')
    = [(OAuth.GoogleTokenEndpoint, Some "evil", Some "s3")].
Proof. split; [left; reflexivity|vm_compute; reflexivity]. Qed.

(** The same nodes with other users. *)
Definition demo_emptied : Web MemDisk :=
  let c := demo_listed in let a := admin c in
  mkWeb (mkSite (mkConsole (mkAdmin (nodes a) ∅ (snapshotPath a) (removedNodes a) (removedNodesFile a) ∅) (records c) (alertw c) (has_alerts c) (discovery c))
           (Some demo_orchestrator) demo_commands [])
    (authm demo_web) "10.0.0.1:50051" false [] ∅ [].
Lemma visitors_see_no_users_witness :
  users (admin (console (site demo_web))) !! "alice" = Some "0" ∧ users (admin (console (site demo_emptied))) !! "alice" = None
  ∧ (handleCluster demo_nano demo_range (demo_visit "GET" "/api/cluster") demo_web).2
    = (handleCluster demo_nano demo_range (demo_visit "GET" "/api/cluster") demo_emptied).2.
Proof.
  split; [vm_compute; reflexivity|]. split; [vm_compute; reflexivity|].
  destruct ((all_nodes demo_range (site demo_web)).2) as [l| |] eqn:Hl; [|exfalso; revert Hl; vm_compute; discriminate..].
  apply (visitors_see_no_users demo_nano demo_range (demo_visit "GET" "/api/cluster") demo_web demo_emptied l l);
    [reflexivity|apply demo_visitor|apply demo_visitor|exact Hl| |reflexivity].
  transitivity ((all_nodes demo_range (site demo_web)).2); [vm_compute; reflexivity|exact Hl].
Defined.

Definition demo_after (c : CommandHistory) : Web MemDisk :=
  mkWeb (mkSite demo_listed (Some demo_orchestrator) c []) (authm demo_web) "10.0.0.1:50051" false [] ∅ [].
Lemma options_escapes_login_witness :
  ∃ w : Web MemDisk, authm w = authm demo_web
    ∧ demo_serve (mkRequest "OPTIONS" "/api/actions/history" "" "" None false []) w
      = (w, Ok (ok (Records [History.demo_record "act-1" "success"]))).
Proof.
  destruct (history_Push 2 [] (mkHistoryOn demo_commands (mkMemDisk ∅ 0 [])) (History.demo_record "act-1" "success")
              demo_commands_hold) as (x & _ & Hx).
  exists (demo_after (hist x)).
  split; [reflexivity|].
  exact (options_escapes_login demo_clock demo_nano demo_uuid demo_net demo_ssh demo_reach demo_token demo_range demo_hash
      pretty (λ _, Some 1) (λ _, Some "0") (λ _, Some "guess") (λ _, Some (demo_request ["0"])) "id" "s3" (λ _, OAuth.google) (demo_after (hist x)) 2
      [History.demo_record "act-1" "success"] Hx).
Defined.

Lemma remove_listed_correct_witness :
  ∃ p n w' resp, entry_of demo_listed "0" = Some (p, n)
    ∧ remove_listed demo_clock demo_nano demo_net demo_reach "0" n demo_web = (w', Ok resp)
    ∧ rsStatus resp = 200 ∧ entry_of (console (site w')) "0" = None ∧ length (rpcs w') = 2%nat.
Proof.
  destruct (proj2 demo_listed_ok) as (p & n & He & i & name & machine & Hn). simpl in Hn. exists p, n.
  assert (nAddress n = "10.0.0.5:50052") as Haddr by (rewrite Hn; reflexivity).
  destruct (remove_listed_correct demo_clock demo_nano demo_net demo_reach demo_web "0" p n)
    as (w' & resp & cn & hdr & Hrun & Hres); [exact demo_site_wf|exact He|discriminate|right; rewrite Haddr; discriminate|].
  exists w', resp. split; [exact He|]. split; [exact Hrun|]. simpl in Hres. destruct Hres as (Hrpcs & Hst & Hgone & _).
  split; [exact Hst|]. split; [exact Hgone|]. rewrite Hrpcs. reflexivity.
Defined.
