(* ===== verification/Client.v ===== *)
(** * The client library

    Models [internal/client/client.go]: what the client asks the file server it is
    connected to, with which token, and what it makes of the answers, and the transfers
    of files and directories between the local disk and the server.  The file server is a
    parameter, [rpc]: it answers the calls by how many came before, so the theorems hold
    for every server.  A stream is the sequence of its messages.  TLS and dialling are
    left out, the outcome of dialling is an argument. *)
From S2P Require Import Prelude GoStd Domain Disk.
From S2P Require Handler.
#[global] Open Scope Z_scope.

(** ** Calls *)

(** What a download receives; the end of the list is [io.EOF]. *)
Inductive DownloadEvent :=
  | DownloadChunk (offset : Z) (chunk : bytes)
  | DownloadRefused (msg : string)
  | DownloadBroken (e : error).
(** The methods of the file server with what they answer. *)
Inductive Call : Type → Type :=
  | RegisterClient (clientID callbackAddress username rootUser rootPath : string) : Call (option pbFID * string)
  | UnregisterClient (clientID username : string) : Call unit
  | CallShare (username : string) (fid : pbFID) (shareWith : string) : Call unit
  | CallUnshare (username : string) (fid : pbFID) (unshareWith : string) : Call unit
  | CallPath (fid : pbFID) (displayName rootUser : string) : Call string
  | ChangeDir (fid rootFid : pbFID) (path : string) : Call (option pbFID)
  | ListDir (fid : pbFID) : Call (list Handler.Entry)
  | GetAttr (fid : pbFID) : Call (string * Z * Z)
  | CallCreateFile (name rootUser : string) (fid : pbFID) (type size : Z) : Call (option pbFID)
  | OpenUpload : Call unit
  | SendUpload (req : Handler.UploadReq) : Call unit
  | CloseUpload : Call unit
  | CallDownload (name : string) (parent : pbFID) : Call (list DownloadEvent)
  | CallReadFile (parent : pbFID) (name : string) (offset length : Z) : Call bytes
  | CallWriteFile (parent : pbFID) (name : string) (data : bytes) (offset : Z) : Call unit
  | CallDeleteFile (fid : pbFID) (rootUser : string) (recursive : bool) : Call unit
  | CallTrashFile (fid : pbFID) (rootUser : string) (recursive : bool) : Call string
  | CallRestoreFile (fid : pbFID) (rootUser username : string) : Call string
  | CallShowTrash (rootUser username : string) : Call (list Handler.Entry).
(** A failed call, a response with [Success: false], and the answer. *)
Inductive Reply (A : Type) :=
  | NoAnswer (e : error)
  | Refused (msg : string)
  | Answered (a : A).
Arguments NoAnswer {A} e.
Arguments Refused {A} msg.
Arguments Answered {A} a.

Definition is_stream {A} (c : Call A) : bool :=
  match c with OpenUpload | SendUpload _ | CloseUpload | CallDownload _ _ => true | _ => false end.
Definition is_register {A} (c : Call A) : bool := match c with RegisterClient _ _ _ _ _ => true | _ => false end.

(** A call as it was made: the token of its [authorization] header, if it has one. *)
Inductive Sent := mkSent (bearer : option string) {A : Type} (c : Call A).

(** ** The client *)

Record Client := mkClient {
  username : string;
  authToken : string;
  sessionToken : string;
  root_user : string;
  root_path : string;
  display_name : string;
  clientID : string;
  callbackAddr : string;
  rootFID : option FID;
  currentFID : option FID;
  connected : bool;
  interceptors : bool;
  listening : bool;
}.
Definition set_session (t : string) (c : Client) : Client :=
  mkClient (username c) (authToken c) t (root_user c) (root_path c) (display_name c) (clientID c) (callbackAddr c)
    (rootFID c) (currentFID c) (connected c) (interceptors c) (listening c).
Definition set_fids (root current : option FID) (c : Client) : Client :=
  mkClient (username c) (authToken c) (sessionToken c) (root_user c) (root_path c) (display_name c) (clientID c)
    (callbackAddr c) root current (connected c) (interceptors c) (listening c).
Definition set_link (addr : string) (conn inter listen : bool) (c : Client) : Client :=
  mkClient (username c) (authToken c) (sessionToken c) (root_user c) (root_path c) (display_name c) (clientID c)
    addr (rootFID c) (currentFID c) conn inter listen.
(** [stamp] makes the id of the client, [WithAuthToken] is the option that matters here. *)
Definition NewClient (user token stamp : string) : Client :=
  mkClient user token "" "" "" "" (user +:+ "-" +:+ stamp) "" None None false false false.
Definition SetRootUser (u : string) (c : Client) : Client :=
  mkClient (username c) (authToken c) (sessionToken c) u (root_path c) (display_name c) (clientID c) (callbackAddr c)
    (rootFID c) (currentFID c) (connected c) (interceptors c) (listening c).
Definition SetRootPath (name path : string) (c : Client) : Client :=
  mkClient (username c) (authToken c) (sessionToken c) (root_user c) (ReplaceAll backslash slash path) name (clientID c)
    (callbackAddr c) (rootFID c) (currentFID c) (connected c) (interceptors c) (listening c).

(** The header the interceptors add: the session token, or before there is one, and to
    [RegisterClient], the token of the login. *)
Definition bearer_of {A} (c : Client) (m : Call A) : option string :=
  if interceptors c then
    let t := if bool_decide (sessionToken c = "") || is_register m then authToken c else sessionToken c in
    if decide (t = "") then None else Some t
  else None.

(** A file or directory in the cache of the client (see Cache.v).  [children] is nil for
    some files and directories. *)
Record CNode := mkCNode {
  cnName : string;
  cnType : InodeType;
  cnFid : option FID;
  cnSize : Z;
  cnChildren : option (gmap string positive);
  contentCached : bool;
  contentUID : string;
  cnParent : option positive;
}.
Record CacheHandler := mkCacheHandler { chRoot : positive; chCurr : positive }.

(** The client with its calls, oldest first, its disk, its cache and what it told the
    user. [uuids] counts the ids generated. *)
Record Desk (D : Type) := mkDesk {
  vfs : Client;
  calls : list Sent;
  cdisk : D;
  cnodes : gmap positive CNode;
  cache : option CacheHandler;
  notes : list string;
  uuids : nat;
}.
Arguments mkDesk {D} vfs calls cdisk cnodes cache notes uuids.
Arguments vfs {D} d.
Arguments calls {D} d.
Arguments cdisk {D} d.
Arguments cnodes {D} d.
Arguments cache {D} d.
Arguments notes {D} d.
Arguments uuids {D} d.

Record FileInfo := mkFileInfo { fiFID : option FID; fiName : string; fiType : InodeType; fiSize : Z }.
Definition info_of (e : Handler.Entry) : FileInfo :=
  mkFileInfo (FIDFromProto (Handler.entFid e)) (Handler.entName e) (InodeTypeFromProto (Handler.entType e))
    (Handler.entSize e).

Definition DownloadDir : string := "./Download".
Definition hidden_path (path : string) : bool :=
  bool_decide (".trash" ∈ Split slash (ReplaceAll backslash slash path)).

(** What the client asks of its disk beyond [OS]. *)
Class LocalFS (D : Type) `{OS D} := { os_IsDir : string → D → bool }.
(** [os.Create] truncates, and a file answers to every spelling of its path. *)
Class LocalLaws (D : Type) `{OS D} := {
  read_Create p d d' : os_Create p d = (d', inr tt) → os_ReadFile p d' = inr [];
  read_spelling p q b d : comps p = comps q → os_ReadFile p d = inr b → os_ReadFile q d = inr b;
}.

Section client.
Context {D : Type} `{LocalFS D}.
Context (rpc : nat → ∀ A, Call A → Reply A).
Abbreviation W := (Desk D).

Definition me {A} (f : Client → A) : M W A := gets (λ w, f (vfs w)).
Definition on_client (f : Client → Client) : M W unit :=
  modify (λ w, mkDesk (f (vfs w)) (calls w) (cdisk w) (cnodes w) (cache w) (notes w) (uuids w)).
Definition on_disk {A} (c : OSCall D A) : M W (error + A) := λ w,
  let '(d, r) := c (cdisk w) in
  (mkDesk (vfs w) (calls w) d (cnodes w) (cache w) (notes w) (uuids w), Ok r).
Definition os_do {A} (c : OSCall D A) : M W A :=
  r ← on_disk c; match r with inl e => throw e | inr a => mret a end.
Definition look {A} (f : D → A) : M W A := gets (λ w, f (cdisk w)).

(** [fid.ToProto()], which dereferences. *)
Definition ToProto (f : option FID) : M W pbFID :=
  match f with Some f => mret (FID_ToProto f) | None => panic "nil pointer dereference" end.

(** One call; without a connection the stub is nil. *)
Definition invoke {A} (c : Call A) : M W (Reply A) := λ w,
  if connected (vfs w) then
    (mkDesk (vfs w) (calls w ++ [mkSent (bearer_of (vfs w) c) c]) (cdisk w) (cnodes w) (cache w) (notes w) (uuids w),
     Ok (rpc (length (calls w)) A c))
  else (w, Panic "nil pointer dereference").
(** The usual reading of the outcome. *)
Definition ask {A} (failed : error → error) (refused : string → error) (c : Call A) : M W A :=
  r ← invoke c;
  match r with
  | NoAnswer e => throw (failed e)
  | Refused m => throw (refused m)
  | Answered a => mret a
  end.
Definition server_error (m : string) : error := Errorf "server error: %s" [m].
Definition call {A} (what : string) (c : Call A) : M W A := ask (Wrapf (what +:+ ": %w") []) server_error c.

(** ** Directories *)

Definition ChangeDirectory (path : string) : M W FID :=
  cur ← me currentFID;
  f ← ToProto cur;
  root ← me rootFID;
  rf ← ToProto root;
  new ← call "failed to change directory" (ChangeDir f rf path);
  on_client (set_fids root (FIDFromProto new)) ;;
  match FIDFromProto new with Some fid => mret fid | None => panic "nil pointer dereference" end.
Definition ChangeCurrentFID (f : option FID) : M W unit := on_client (λ c, set_fids (rootFID c) f c).

Definition ListFilesAt (dir : option FID) : M W (list FileInfo) :=
  match dir with
  | None => throw (Errorf "invalid directory fid" [])
  | Some dir => l ← call "failed to list directory" (ListDir (FID_ToProto dir)); mret (map info_of l)
  end.
Definition ListFiles : M W (list FileInfo) := cur ← me currentFID; ListFilesAt cur.
Definition GetFileInfo : M W FileInfo :=
  cur ← me currentFID;
  f ← ToProto cur;
  '(name, t, size) ← call "failed to get attributes" (GetAttr f);
  mret (mkFileInfo cur name (InodeTypeFromProto t) size).
Definition Path : M W string :=
  cur ← me currentFID;
  f ← ToProto cur;
  c ← me id;
  call "failed to get path" (CallPath f (display_name c) (username c)).

Definition Share (user : string) : M W unit :=
  c ← me id; f ← ToProto (currentFID c); call "failed to share" (CallShare (username c) f user).
Definition Unshare (user : string) : M W unit :=
  c ← me id; f ← ToProto (currentFID c); call "failed to share" (CallUnshare (username c) f user).

Definition create (what name : string) (t : InodeType) : M W FileInfo :=
  c ← me id;
  f ← ToProto (currentFID c);
  new ← call what (CallCreateFile name (root_user c) f (InodeType_ToProto t) 0);
  mret (mkFileInfo (FIDFromProto new) name t 0).
Definition CreateFile (name : string) : M W FileInfo := create "failed to create file" name InodeTypeFile.
Definition CreateDirectory (name : string) : M W FileInfo := create "failed to create directory" name InodeTypeDirectory.

(** ** Sessions *)

Definition register : M W (Reply (option pbFID * string)) :=
  c ← me id; invoke (RegisterClient (clientID c) (callbackAddr c) (username c) (root_user c) (root_path c)).
(** [listen] and [dial] are what the callback server and the connection give. *)
Definition Connect (listen : error + string) (dial : error + unit) : M W (option FID) :=
  c ← me id;
  (if listening c then mret tt
   else match listen with
        | inl e => throw (Wrapf "failed to start callback server: %w" [] e)
        | inr a => on_client (set_link a (connected c) (interceptors c) true)
        end) ;;
  match dial with
  | inl e => throw (Wrapf "failed to connect to server: %w" [] e)
  | inr _ =>
      on_client (λ c, set_link (callbackAddr c) true (bool_decide (authToken c ≠ "" ∨ sessionToken c ≠ "")) (listening c) c) ;;
      r ← register;
      match r with
      | NoAnswer e => throw (Wrapf "failed to register: %w" [] e)
      | Refused m => throw (Errorf "registration failed: %s" [m])
      | Answered (root, token) =>
          (if decide (token ≠ "") then on_client (set_session token) else mret tt) ;;
          on_client (set_fids (FIDFromProto root) (FIDFromProto root)) ;;
          mret (FIDFromProto root)
      end
  end.

Definition on_cnode (p : positive) (f : CNode → CNode) : M W unit :=
  modify (λ w, mkDesk (vfs w) (calls w) (cdisk w) (alter f p (cnodes w)) (cache w) (notes w) (uuids w)).
Definition set_fid (fid : option FID) (n : CNode) : CNode :=
  mkCNode (cnName n) (cnType n) fid (cnSize n) (cnChildren n) (contentCached n) (contentUID n) (cnParent n).

Definition ReRegister : M W unit :=
  on ← me connected;
  if negb on then throw (Errorf "not connected to fileserver" [])
  else
    r ← register;
    match r with
    | NoAnswer e => throw (Wrapf "re-registration RPC failed: %w" [] e)
    | Refused m => throw (Errorf "re-registration failed: %s" [m])
    | Answered (root, token) =>
        match FIDFromProto root with
        | None => throw (Errorf "server returned nil root FID" [])
        | Some new =>
            (if decide (token ≠ "") then on_client (set_session token) else mret tt) ;;
            on_client (λ c, set_fids (Some new) (currentFID c) c) ;;
            h ← gets cache;
            (match h with Some h => on_cnode (chRoot h) (set_fid (Some new)) | None => mret tt end) ;;
            cur ← me currentFID;
            match cur with
            | Some f => if decide (FID_String f ≠ FID_String new) then ignore (ChangeDirectory ".") else mret tt
            | None => mret tt
            end
        end
    end.

(** Whatever becomes of the call, the link is closed; a panic in it is recovered. *)
Definition Disconnect : M W unit :=
  on_client (set_session "") ;;
  c ← me id;
  (if connected c && bool_decide (username c ≠ "") then ignore (invoke (UnregisterClient (clientID c) (username c))) else mret tt) ;;
  on_client (λ c, set_link (callbackAddr c) (connected c && bool_decide (username c = "")) (interceptors c) false c).

(** ** Uploads *)

Definition send_all (name : string) (parent : pbFID) (l : list (Z * bytes)) : M W unit :=
  user ← me username;
  for_each l (λ '(off, b), ask id server_error (SendUpload (Handler.mkUploadReq (Some parent) name user off b))).
(** The reads of the loop are those of a regular file: full buffers, then the rest. *)
Definition uploadFileInternal (path : string) (parent : option FID) : M W (option FID) :=
  opened ← look (os_OpenRead path);
  match opened with
  | inl e => throw e
  | inr _ =>
      stat ← look (os_Stat path);
      match stat with
      | inl e => throw e
      | inr size =>
          let name := Base path in
          root ← me root_user;
          pf ← ToProto parent;
          new ← ask id (λ m, Errorf "server error %s" [m]) (CallCreateFile name root pf (InodeType_ToProto InodeTypeFile) size);
          ask id server_error OpenUpload ;;
          r ← look (os_ReadFile path);
          match r with
          | inl e => throw e
          | inr b =>
              send_all name pf (Handler.chunks (length b) Handler.chunkSize 0 b) ;;
              ask id (λ m, Errorf "upload failed: %s" [m]) CloseUpload ;;
              mret (FIDFromProto new)
          end
      end
  end.

(** [fuel] is the depth of the local directory; running out stands for a loop on the
    disk, which has none. *)
Fixpoint uploadRecursive (fuel : nat) (path : string) (parent : option FID) : M W (option FID) :=
  match fuel with
  | O => panic "stack overflow"
  | S fuel =>
      let name := Base path in
      root ← me root_user;
      pf ← ToProto parent;
      new ← ask (Wrapf "failed to create directory %s: %w" [name]) (λ m, Errorf "server error creating directory %s: %s" [name; m])
              (CallCreateFile name root pf (InodeType_ToProto InodeTypeDirectory) 0);
      r ← look (os_ReadDir path);
      match r with
      | inl e => throw (Wrapf "failed to read local directory %s: %w" [path] e)
      | inr entries =>
          for_each entries (λ e,
            let full := Join [path; deName e] in
            (if deIsDir e then uploadRecursive fuel full (FIDFromProto new)
             else uploadFileInternal full (FIDFromProto new)) ;; mret tt) ;;
          mret (FIDFromProto new)
      end
  end.
Definition Upload (fuel : nat) (path : string) : M W (option FID) :=
  stat ← look (os_Stat path);
  match stat with
  | inl e => throw e
  | inr _ =>
      dir ← look (os_IsDir path);
      cur ← me currentFID;
      if (dir : bool) then uploadRecursive fuel path cur else uploadFileInternal path cur
  end.

(** ** Downloads *)

Fixpoint receive (path : string) (l : list DownloadEvent) : M W unit :=
  match l with
  | [] => mret tt
  | DownloadBroken e :: _ => throw e
  | DownloadRefused m :: _ => throw (Errorf "server error %s" [m])
  | DownloadChunk off b :: l =>
      r ← on_disk (os_WriteAt path (i64 off) b);
      match r with
      | inl e => throw (Wrapf "download failed: %w" [] e)
      | inr _ => receive path l
      end
  end.
Definition downloadFileInternalAs (parent : option FID) (name localDir saveAs : string) : M W unit :=
  pf ← ToProto parent;
  l ← ask id server_error (CallDownload name pf);
  let path := Join [localDir; saveAs] in
  os_do (os_MkdirAll localDir) ;;
  os_do (os_Create path) ;;
  receive path l.

Definition GetFIDForPath (path : string) : M W (option FID) :=
  if hidden_path path then throw (Errorf "access denied: use show_trash to view trash contents" [])
  else
    c ← me id;
    f ← ToProto (currentFID c);
    rf ← ToProto (rootFID c);
    new ← ask id (λ m, Errorf "%s" [m]) (ChangeDir f rf path);
    mret (FIDFromProto new).

(** [fuel] is the depth of the remote directory. *)
Fixpoint downloadRecursive (fuel : nat) (parent : option FID) (e : Handler.Entry) (localParent : string) : M W unit :=
  let name := Handler.entName e in
  match InodeTypeFromProto (Handler.entType e) with
  | InodeTypeFile => downloadFileInternalAs parent name localParent name
  | InodeTypeDirectory =>
      match fuel with
      | O => panic "stack overflow"
      | S fuel =>
          let dir := Join [localParent; name] in
          made ← on_disk (os_MkdirAll dir);
          match made with
          | inl e => throw (Wrapf "failed to create local directory %s: %w" [dir] e)
          | inr _ =>
              let childFID := FIDFromProto (Handler.entFid e) in
              cf ← ToProto childFID;
              l ← ask (Wrapf "failed to list directory %s: %w" [name]) (λ m, Errorf "server error listing %s: %s" [name; m])
                    (ListDir cf);
              for_each l (λ child, downloadRecursive fuel childFID child dir)
          end
      end
  end.
Definition Download (fuel : nat) (path : string) : M W unit :=
  if hidden_path path then throw (Errorf "access denied: use show_trash to view trash contents" [])
  else
    let dir := Dir path in
    let base := Base path in
    c ← me id;
    parent ← (if decide (dir ≠ "." ∧ dir ≠ "/" ∧ dir ≠ String backslash "") then
                r ← catch (GetFIDForPath dir);
                match r with inl e => throw (Wrapf "failed to resolve path %s: %w" [dir] e) | inr f => mret f end
              else if decide (dir = "/" ∨ dir = String backslash "") then mret (rootFID c) else mret (currentFID c));
    pf ← ToProto parent;
    l ← call "failed to list directory" (ListDir pf);
    match list_find (λ e, Handler.entName e = base) l with
    | None => throw (Errorf "'%s' not found" [path])
    | Some (_, e) => downloadRecursive fuel parent e DownloadDir
    end.

(** ** Files *)

Definition ReadFile (name : string) : M W bytes :=
  cur ← me currentFID; f ← ToProto cur; call "failed to read file" (CallReadFile f name 0 0).
Definition WriteFile (name : string) (data : bytes) : M W unit :=
  cur ← me currentFID; f ← ToProto cur; call "failed to write file" (CallWriteFile f name data 0).

Definition named (name : string) (l : list FileInfo) : option FID :=
  match list_find (λ f, fiName f = name) l with Some (_, f) => fiFID f | None => None end.
(** A listing, with an error that says what failed. *)
Definition wrapping {A} (what : string) (m : M W A) : M W A :=
  r ← catch m; match r with inl e => throw (Wrapf (what +:+ ": %w") [] e) | inr a => mret a end.

Definition DeleteFile (name : string) (recursive : bool) : M W unit :=
  files ← wrapping "failed to list directory" ListFiles;
  match named name files with
  | None => throw (Errorf "file or directory '%s' not found" [name])
  | Some f => root ← me root_user; call "failed to delete file" (CallDeleteFile (FID_ToProto f) root recursive)
  end.
Definition TrashFile (name : string) (recursive : bool) : M W string :=
  if decide (name = "") then throw (Errorf "name is required" [])
  else
    files ← wrapping "failed to list directory" ListFiles;
    match named name files with
    | None => throw (Errorf "file or directory '%s' not found" [name])
    | Some f => root ← me root_user; call "failed to trash" (CallTrashFile (FID_ToProto f) root recursive)
    end.
Definition ShowTrash : M W (list FileInfo) :=
  c ← me id; l ← call "failed to show trash" (CallShowTrash (root_user c) (username c)); mret (map info_of l).
Definition RestoreFile (name : string) : M W string :=
  if decide (name = "") then throw (Errorf "name is required" [])
  else
    entries ← wrapping "failed to list trash directory" ShowTrash;
    match named name entries with
    | None => throw (Errorf "'%s' not found in trash" [name])
    | Some f => c ← me id; call "failed to restore" (CallRestoreFile (FID_ToProto f) (root_user c) (username c))
    end.
Definition DeleteFromTrash (name : string) : M W unit :=
  if decide (name = "") then throw (Errorf "name is required" [])
  else
    entries ← wrapping "failed to list trash directory" ShowTrash;
    match named name entries with
    | None => throw (Errorf "'%s' not found in trash" [name])
    | Some f => root ← me root_user; call "failed to delete from trash" (CallDeleteFile (FID_ToProto f) root true)
    end.

(** [strings.Join] *)
Fixpoint join_words (sep : string) (l : list string) : string :=
  match l with [] => "" | [a] => a | a :: l => a +:+ sep +:+ join_words sep l end.
(** The names whose deletion failed and how many succeeded. *)
Fixpoint clear_all (l : list FileInfo) : M W (list string * Z) :=
  match l with
  | [] => mret ([], 0)
  | e :: l =>
      root ← me root_user;
      f ← ToProto (fiFID e);
      r ← invoke (CallDeleteFile f root true);
      rest ← clear_all l;
      mret (match r with Answered _ => (rest.1, rest.2 + 1) | _ => (fiName e :: rest.1, rest.2) end)
  end.
(** How many were deleted, and the error beside it. *)
Definition ClearTrash : M W (Z * option error) :=
  entries ← catch ShowTrash;
  match entries with
  | inl e => mret (0, Some e)
  | inr l =>
      r ← clear_all l;
      let '(failed, deleted) := r in
      mret (deleted, if decide (failed = []) then None
                     else Some (Errorf "failed to delete trash entries: %s" [join_words ", " (merge_sort String.le failed)]))
  end.
End client.
