(* ===== verification/Cache.v ===== *)
(** * The cache of the client

    Models [internal/client/cache_handler.go] and the callbacks of
    [callback_server.go]: the tree of directories a client has seen, filled from listings
    of the server, with the contents of files it has read in a local directory.  Nodes
    live in cells, because the tree has pointers down and up and a refresh keeps the nodes
    it knows.  A callback of the server runs between the calls of the user, or inside a
    read that downloads: [read_begin], [read_fetch] and [read_finish] are its parts. *)
From S2P Require Import Prelude GoStd Domain Disk Client.
From S2P Require Handler.
#[global] Open Scope Z_scope.

Definition CacheDir : string := "./.cache".

Definition with_children (m : option (gmap string positive)) (n : CNode) : CNode :=
  mkCNode (cnName n) (cnType n) (cnFid n) (cnSize n) m (contentCached n) (contentUID n) (cnParent n).
Definition with_content (cached : bool) (uid : string) (n : CNode) : CNode :=
  mkCNode (cnName n) (cnType n) (cnFid n) (cnSize n) (cnChildren n) cached uid (cnParent n).
Definition with_size (size : Z) (n : CNode) : CNode :=
  mkCNode (cnName n) (cnType n) (cnFid n) size (cnChildren n) (contentCached n) (contentUID n) (cnParent n).
(** A node the listing names again keeps its subtree and its content. *)
Definition relisted (f : FileInfo) (parent : positive) (n : CNode) : CNode :=
  mkCNode (fiName f) (fiType f) (fiFID f) (fiSize f)
    (Some (default ∅ (cnChildren n))) (contentCached n) (contentUID n) (Some parent).
Definition listed (f : FileInfo) (parent : positive) : CNode :=
  mkCNode (fiName f) (fiType f) (fiFID f) (fiSize f) (Some ∅) false "" (Some parent).
(** What an operation of this client made, without a map of children. *)
Definition bare (name : string) (t : InodeType) (fid : option FID) (size : Z) (parent : positive) : CNode :=
  mkCNode name t fid size None false "" (Some parent).

Section cache.
Context {D : Type} `{LocalFS D}.
Context (rpc : nat → ∀ A, Call A → Reply A) (uuid : nat → string)
  (range : gmap string positive → list (string * positive)).
Abbreviation W := (Desk D).

Definition node_at (p : positive) : M W CNode := λ w,
  match cnodes w !! p with Some n => (w, Ok n) | None => (w, Panic "nil pointer dereference") end.
Definition new_node (n : CNode) : M W positive := λ w,
  let p := fresh (dom (cnodes w)) in
  (mkDesk (vfs w) (calls w) (cdisk w) (<[p := n]> (cnodes w)) (cache w) (notes w) (uuids w), Ok p).
Definition handler : M W CacheHandler :=
  o ← gets cache; match o with Some h => mret h | None => panic "nil pointer dereference" end.
Definition set_curr (p : positive) : M W unit :=
  modify (λ w, mkDesk (vfs w) (calls w) (cdisk w) (cnodes w) ((λ h, mkCacheHandler (chRoot h) p) <$> cache w) (notes w) (uuids w)).
Definition notify (s : string) : M W unit :=
  modify (λ w, mkDesk (vfs w) (calls w) (cdisk w) (cnodes w) (cache w) (notes w ++ [s]) (uuids w)).
Definition next_uuid : M W string := λ w,
  (mkDesk (vfs w) (calls w) (cdisk w) (cnodes w) (cache w) (notes w) (S (uuids w)), Ok (uuid (uuids w))).

(** [node.children[name]]; a nil map has no entries, and none can be assigned. *)
Definition child (n : CNode) (name : string) : option positive := cnChildren n ≫= (.!! name).
Definition put_child (p : positive) (name : string) (q : positive) : M W unit :=
  n ← node_at p;
  match cnChildren n with
  | None => panic "assignment to entry in nil map"
  | Some m => on_cnode p (with_children (Some (<[name := q]> m)))
  end.
Definition drop_child (p : positive) (name : string) : M W unit :=
  on_cnode p (λ n, with_children (delete name <$> cnChildren n) n).

(** ** Filling the tree *)

Fixpoint place (p : positive) (old : option (gmap string positive)) (files : list FileInfo)
    (acc : gmap string positive) : M W (gmap string positive) :=
  match files with
  | [] => mret acc
  | f :: files =>
      q ← match old ≫= (.!! fiName f) with
          | Some q => on_cnode q (relisted f p) ;; mret q
          | None => new_node (listed f p)
          end;
      place p old files (<[fiName f := q]> acc)
  end.
Definition populateNodeCache (p : positive) : M W unit :=
  n ← node_at p;
  files ← ListFilesAt rpc (cnFid n);
  m ← place p (cnChildren n) files ∅;
  on_cnode p (with_children (Some m)).
Definition populateCurrentDirCache : M W unit := h ← handler; populateNodeCache (chCurr h).

(** A client whose root cannot be listed has no cache. *)
Definition NewCacheHandler (root : option FID) : M W unit :=
  r ← catch (ListFiles rpc);
  match r with
  | inl _ => modify (λ w, mkDesk (vfs w) (calls w) (cdisk w) (cnodes w) None (notes w) (uuids w))
  | inr files =>
      p ← new_node (mkCNode "mydrive" InodeTypeDirectory root 0 (Some ∅) false "" None);
      m ← place p None files ∅;
      on_cnode p (with_children (Some m)) ;;
      modify (λ w, mkDesk (vfs w) (calls w) (cdisk w) (cnodes w) (Some (mkCacheHandler p p)) (notes w) (uuids w))
  end.
(** [Refresh]: the session first, whose failure is only logged. *)
Definition Refresh : M W unit :=
  o ← gets cache;
  match o with
  | None => throw (Errorf "cache handler is not initialized" [])
  | Some _ => ignore (ReRegister rpc) ;; populateCurrentDirCache
  end.

(** ** Reading *)

Definition no_file (s : string) : error := Errorf "file '%s' not found in current directory" [s].
Definition read_cached (uid : string) : M W bytes :=
  r ← look (os_ReadFile (CacheDir +:+ "/" +:+ uid));
  match r with inl e => throw (Wrapf "error reading cached file: %v" [] e) | inr b => mret b end.
(** A content that is there, or the file to fetch with a fresh id for its content. *)
Definition read_begin (s : string) : M W (bytes + positive) :=
  h ← handler;
  cur ← node_at (chCurr h);
  match child cur s with
  | None => throw (no_file s)
  | Some q =>
      n ← node_at q;
      if decide (cnType n ≠ InodeTypeFile) then throw (no_file s)
      else if contentCached n then b ← read_cached (contentUID n); mret (inl b)
      else uid ← next_uuid; on_cnode q (λ n, with_content (contentCached n) uid n) ;; mret (inr q)
  end.
Definition read_fetch (s : string) (q : positive) : M W unit :=
  h ← handler;
  cur ← node_at (chCurr h);
  n ← node_at q;
  downloadFileInternalAs rpc (cnFid cur) s CacheDir (contentUID n).
Definition read_finish (q : positive) : M W bytes :=
  on_cnode q (λ n, with_content true (contentUID n) n) ;; n ← node_at q; read_cached (contentUID n).
Definition ReadFile (s : string) : M W bytes :=
  r ← read_begin s;
  match r with
  | inl b => mret b
  | inr q => read_fetch s q ;; read_finish q
  end.

(** ** Changing *)

Definition CreateDirectory (s : string) : M W FileInfo :=
  info ← Client.CreateDirectory rpc s;
  h ← handler;
  q ← new_node (mkCNode s InodeTypeDirectory (fiFID info) (fiSize info) (Some ∅) false "" (Some (chCurr h)));
  put_child (chCurr h) s q ;; mret info.
Definition CreateFile (s : string) : M W FileInfo :=
  info ← Client.CreateFile rpc s;
  h ← handler;
  q ← new_node (bare s InodeTypeFile (fiFID info) (fiSize info) (chCurr h));
  put_child (chCurr h) s q ;; mret info.
Definition Share (s : string) : M W unit := Client.Share rpc s.
Definition Unshare (s : string) : M W unit := Client.Unshare rpc s.
Definition Download (remote_depth : nat) (s : string) : M W unit := Client.Download rpc remote_depth s.
Definition GetFileInfo : M W FileInfo := Client.GetFileInfo rpc.

(** The sizes above a node; [fuel] is the number of nodes. *)
Fixpoint add_sizes (fuel : nat) (o : option positive) (size : Z) : M W unit :=
  match o with
  | None => mret tt
  | Some p =>
      match fuel with
      | O => panic "stack overflow"
      | S fuel => n ← node_at p; on_cnode p (with_size (u64 (cnSize n + size))) ;; add_sizes fuel (cnParent n) size
      end
  end.
Definition all_nodes : M W nat := gets (λ w, S (size (cnodes w))).
(** The entry of what was uploaded, and its size in the directories above. *)
Definition enter_upload (name : string) (dir : bool) (size : Z) (fid : option FID) : M W unit :=
  h ← handler;
  q ← new_node (bare name (if dir then InodeTypeDirectory else InodeTypeFile) fid size (chCurr h));
  put_child (chCurr h) name q ;;
  fuel ← all_nodes;
  add_sizes fuel (Some (chCurr h)) size.
(** [local_depth] is the fuel of the upload of a directory. *)
Definition Upload (local_depth : nat) (s : string) : M W unit :=
  stat ← look (os_Stat s);
  match stat with
  | inl e => throw (Wrapf "error getting local file info: %v" [] e)
  | inr size =>
      dir ← look (os_IsDir s);
      fid ← Client.Upload rpc local_depth s;
      enter_upload (Base s) dir size fid
  end.

Definition enter (p : positive) : M W unit :=
  set_curr p ;; n ← node_at p; ChangeCurrentFID (cnFid n).
Definition RETURN_TO_METASERVER : error := Errorf "RETURN_TO_METASERVER" [].
Definition ChangeDirectory (s : string) : M W unit :=
  if bool_decide (s = ".trash") || HasPrefix s ".trash/" then
    throw (Errorf "access denied: use show_trash to view trash contents" [])
  else
    h ← handler;
    if decide (s = "/") then
      Client.ChangeDirectory rpc "/" ;; enter (chRoot h) ;; populateCurrentDirCache
    else if decide (s = "..") then
      if decide (chCurr h = chRoot h) then throw RETURN_TO_METASERVER
      else
        Client.ChangeDirectory rpc ".." ;;
        n ← node_at (chCurr h);
        enter (default (chRoot h) (cnParent n)) ;; populateCurrentDirCache
    else
      cur ← node_at (chCurr h);
      match child cur s with
      | None => throw (Errorf "directory '%s' not found in current directory" [s])
      | Some q =>
          n ← node_at q;
          if decide (cnType n ≠ InodeTypeDirectory) then throw (Errorf "directory '%s' not found in current directory" [s])
          else Client.ChangeDirectory rpc s ;; enter q ;; ignore populateCurrentDirCache
      end.

(** ** The trash *)

Definition refresh_root : M W unit := h ← handler; ignore (populateNodeCache (chRoot h)).
Definition ShowTrash : M W (list FileInfo) := Client.ShowTrash rpc.
Definition ClearTrash : M W (Z * option error) := r ← Client.ClearTrash rpc; refresh_root ;; mret r.
Definition DeleteFromTrash (name : string) : M W unit :=
  r ← catch (Client.DeleteFromTrash rpc name);
  refresh_root ;; match r with inl e => throw e | inr _ => mret tt end.
Definition TrashFile (name : string) (recursive : bool) : M W string :=
  t ← Client.TrashFile rpc name recursive; h ← handler; drop_child (chCurr h) name ;; mret t.
Definition RestoreFile (name : string) : M W string :=
  t ← Client.RestoreFile rpc name;
  h ← handler;
  cur ← node_at (chCurr h);
  (if decide (cnName cur = ".trash") then drop_child (chCurr h) name else mret tt) ;;
  refresh_root ;; mret t.

(** Forgets the entries below a directory with their contents. *)
Fixpoint recursiveDelete (fuel : nat) (p : positive) : M W unit :=
  match fuel with
  | O => panic "stack overflow"
  | S fuel =>
      n ← node_at p;
      for_each (range (default ∅ (cnChildren n))) (λ kv,
        c ← node_at kv.2;
        drop_child p (cnName c) ;;
        if bool_decide (cnType c = InodeTypeFile) && contentCached c then
          r ← on_disk (os_Remove (CacheDir +:+ "/" +:+ contentUID c)); mret tt
        else if decide (cnType c = InodeTypeDirectory) then recursiveDelete fuel kv.2
        else mret tt)
  end.
Definition DeleteFile (s : string) (recursive : bool) : M W unit :=
  Client.DeleteFile rpc s recursive ;;
  h ← handler;
  cur ← node_at (chCurr h);
  match child cur s with
  | None => mret tt
  | Some q =>
      n ← node_at q;
      fuel ← all_nodes;
      (if recursive && bool_decide (cnType n = InodeTypeDirectory) then recursiveDelete fuel q else mret tt) ;;
      drop_child (chCurr h) s
  end.

(** ** Looking at the tree *)

(** The entries of the current directory, in any order. *)
Fixpoint infos (l : list (string * positive)) : M W (list FileInfo) :=
  match l with
  | [] => mret []
  | (_, q) :: l => n ← node_at q; rest ← infos l; mret (mkFileInfo (cnFid n) (cnName n) (cnType n) (cnSize n) :: rest)
  end.
Definition ListFiles : M W (list FileInfo) :=
  h ← handler; n ← node_at (chCurr h); infos (range (default ∅ (cnChildren n))).

Fixpoint names_up (fuel : nat) (root p : positive) (path : string) : M W string :=
  if decide (p = root) then mret path
  else
    match fuel with
    | O => panic "stack overflow"
    | S fuel =>
        n ← node_at p;
        match cnParent n with
        | None => panic "nil pointer dereference"
        | Some q => names_up fuel root q (cnName n +:+ "/" +:+ path)
        end
    end.
Definition Path : M W string :=
  h ← handler;
  shown ← me display_name;
  root ← node_at (chRoot h);
  let prefix := if decide (shown ≠ "") then shown else cnName root in
  if decide (chCurr h = chRoot h) then mret prefix
  else fuel ← all_nodes; path ← names_up fuel (chRoot h) (chCurr h) ""; mret (prefix +:+ "/" +:+ path).

(** The first node found for a FID, with its path; ranges come in any order. *)
Fixpoint find_in (search : positive → string → M W (option (positive * string))) (l : list (string * positive))
    (path : string) : M W (option (positive * string)) :=
  match l with
  | [] => mret None
  | (_, q) :: l =>
      c ← node_at q;
      o ← search q (path +:+ "/" +:+ cnName c);
      match o with Some x => mret (Some x) | None => find_in search l path end
  end.
Fixpoint findNodeByFID (fuel : nat) (fid : FID) (p : positive) (path : string) : M W (option (positive * string)) :=
  match fuel with
  | O => panic "stack overflow"
  | S fuel =>
      n ← node_at p;
      if bool_decide (FID_String <$> cnFid n = Some (FID_String fid)) then mret (Some (p, path))
      else find_in (findNodeByFID fuel fid) (range (default ∅ (cnChildren n))) path
  end.

(** ** Callbacks *)

Definition TrimSlash (s : string) : string :=
  match rev (Stdlib.Strings.String.list_ascii_of_string s) with "/"%char :: r => Stdlib.Strings.String.string_of_list_ascii (rev r) | _ => s end.
Definition InvalidateFileByFID (fid : FID) : M W (option string) :=
  o ← gets cache;
  match o with
  | None => mret None
  | Some h =>
      root ← node_at (chRoot h);
      fuel ← all_nodes;
      found ← findNodeByFID fuel fid (chRoot h) (cnName root);
      match found with
      | None => mret None
      | Some (p, path) =>
          n ← node_at p;
          (if decide (cnType n = InodeTypeFile) then
             (if contentCached n && bool_decide (contentUID n ≠ "") then
                r ← on_disk (os_Remove (Join [CacheDir; contentUID n])); mret tt
              else mret tt) ;;
             on_cnode p (with_content false "")
           else mret tt) ;;
          mret (Some (TrimSlash path))
      end
  end.

Definition newline : string := String (ascii_of_nat 10) "".
Definition note (parts : list string) : string := newline +:+ "[NOTIFY] " +:+ foldr String.append "" parts +:+ newline.
(** [Invalidate]: the event is 1 for a file that changed, 2 for a new file in a directory
    and 3 for a deleted one.  The answer is whether it was taken. *)
Definition Invalidate (fid : option pbFID) (event : Z) : M W bool :=
  match FIDFromProto fid with
  | None => mret false
  | Some f =>
      found ← InvalidateFileByFID f;
      notify (note
        (if event =? 2 then
           match found with
           | Some path => ["New file uploaded in directory "; path; ". Please run refresh."]
           | None => ["New file uploaded in your current directory. Please run refresh."]
           end
         else if event =? 3 then
           match found with
           | Some path => ["A file was deleted in directory "; path; ". Please run refresh."]
           | None => ["A file was deleted in your current directory. Please run refresh."]
           end
         else
           match found with
           | Some path => ["File updated by another user. Cache invalidated: "; path]
           | None => ["File updated by another user. Please refresh current view. (FID: "; FID_String f; ")"]
           end)) ;;
      mret true
  end.

(** The contents that are on the disk are removed; a name that resists stays. *)
Definition clear_dir : M W unit :=
  r ← look (os_ReadDir CacheDir);
  match r with
  | inl _ => mret tt
  | inr l => for_each l (λ e, r ← on_disk (os_Remove (CacheDir +:+ "/" +:+ deName e)); mret tt)
  end.
Definition ClearCache : M W unit :=
  stat ← look (os_Stat CacheDir);
  match stat with
  | inl e => if os_IsNotExist e then mret tt else clear_dir
  | inr _ => clear_dir
  end.

(** ** What happens to a cache *)

(** A read with the callbacks that arrive before its download starts and during it; where
    in the download they arrive makes no difference, the path was fixed at its start. *)
Definition callbacks (l : list (option pbFID * Z)) : M W unit :=
  for_each l (λ '(fid, event), Invalidate fid event ;; mret tt).
Definition ReadFile_during (early late : list (option pbFID * Z)) (s : string) : M W bytes :=
  r ← read_begin s;
  match r with
  | inl b => mret b
  | inr q => callbacks early ;; read_fetch s q ;; callbacks late ;; read_finish q
  end.

Inductive CacheOp :=
  | DoRefresh
  | DoRead (early late : list (option pbFID * Z)) (s : string)
  | DoCreateDirectory (s : string)
  | DoCreateFile (s : string)
  | DoUpload (local_depth : nat) (s : string)
  | DoChangeDirectory (s : string)
  | DoTrashFile (s : string) (recursive : bool)
  | DoRestoreFile (s : string)
  | DoDeleteFromTrash (s : string)
  | DoClearTrash
  | DoDeleteFile (s : string) (recursive : bool)
  | DoListFiles
  | DoPath
  | DoClearCache
  | DoInvalidate (fid : option pbFID) (event : Z).
Definition run_op (op : CacheOp) : M W unit :=
  match op with
  | DoRefresh => Refresh
  | DoRead early late s => ReadFile_during early late s ;; mret tt
  | DoCreateDirectory s => CreateDirectory s ;; mret tt
  | DoCreateFile s => CreateFile s ;; mret tt
  | DoUpload local_depth s => Upload local_depth s
  | DoChangeDirectory s => ChangeDirectory s
  | DoTrashFile s recursive => TrashFile s recursive ;; mret tt
  | DoRestoreFile s => RestoreFile s ;; mret tt
  | DoDeleteFromTrash s => DeleteFromTrash s
  | DoClearTrash => ClearTrash ;; mret tt
  | DoDeleteFile s recursive => DeleteFile s recursive
  | DoListFiles => ListFiles ;; mret tt
  | DoPath => Path ;; mret tt
  | DoClearCache => ClearCache
  | DoInvalidate fid event => Invalidate fid event ;; mret tt
  end.
End cache.
