(* ===== verification/CacheSpec.v ===== *)
(** * What the cache of the client keeps true

    The nodes of the cache form a tree whatever the server answers, so no walk over it
    fails or runs for ever; what a refresh, a read and a callback do to it; and where a
    read may answer with an old content. *)
From S2P Require Import Prelude GoStd Domain Disk Client Cache.
From S2P Require Handler.
#[global] Open Scope Z_scope.

Section tree.
Context {D : Type} `{LocalFS D}.
Implicit Types (w : Desk D) (p q : positive) (n : CNode) (h : CacheHandler).

(** ** The tree *)

(** Pointers up and down agree, and every node hangs on the root at its depth. *)
Record tree (cells : gmap positive CNode) (root : positive) (depth : positive → nat) : Prop := {
  t_root : ∃ n, cells !! root = Some n ∧ cnParent n = None;
  t_up p n q : cells !! p = Some n → cnParent n = Some q → is_Some (cells !! q) ∧ depth p = S (depth q);
  t_top p n : cells !! p = Some n → cnParent n = None → p = root;
  t_down p n s q : cells !! p = Some n → child n s = Some q →
    ∃ c, cells !! q = Some c ∧ cnParent c = Some p ∧ cnName c = s;
  t_fid p n : cells !! p = Some n → is_Some (cnFid n);
  t_depth : depth root = O;
}.
(** A client that is connected, with its cache. *)
Record desk_wf w : Prop := {
  d_on : connected (vfs w) = true;
  d_root : is_Some (rootFID (vfs w));
  d_cur : is_Some (currentFID (vfs w));
  d_tree : ∃ h depth, cache w = Some h ∧ tree (cnodes w) (chRoot h) depth ∧ is_Some (cnodes w !! chCurr h);
}.
(** The node [q] is called [s] and hangs on [p]. *)
Definition hung (cells : gmap positive CNode) p (s : string) q : Prop :=
  ∃ c, cells !! q = Some c ∧ cnParent c = Some p ∧ cnName c = s.
Definition hangs w : positive → string → positive → Prop := hung (cnodes w).
Definition live w p : Prop := is_Some (cnodes w !! p).
(** Nodes stay where they are, and the root is the root. *)
Definition grows w w' : Prop :=
  (∀ p, live w p → live w' p) ∧ (∀ p s q, hangs w p s q → hangs w' p s q)
  ∧ chRoot <$> cache w' = chRoot <$> cache w.
Lemma desk_grows_refl w : grows w w.
Proof. done. Qed.
Lemma desk_grows_trans w1 w2 w3 : grows w1 w2 → grows w2 w3 → grows w1 w3.
Proof. intros (Hn1 & Hh1 & Hr1) (Hn2 & Hh2 & Hr2). split_and!; [auto..|congruence]. Qed.

(** How deep a tree can be: the nodes above one are distinct. *)
Lemma ancestors cells root depth k p :
  tree cells root depth → is_Some (cells !! p) → depth p = k →
  ∃ l, length l = S k ∧ NoDup l ∧ (∀ q, q ∈ l → is_Some (cells !! q) ∧ (depth q ≤ k)%nat).
Proof.
  intros Ht. revert p. induction k as [|k IH]; intros p [n Hp] Hd.
  - exists [p]. split; [done|]. split; [apply NoDup_singleton|]. intros q ->%list_elem_of_singleton. split; [by exists n|lia].
  - destruct (cnParent n) as [q|] eqn:Hq; [|pose proof (t_top _ _ _ Ht _ _ Hp Hq); subst; rewrite (t_depth _ _ _ Ht) in Hd; done].
    destruct (t_up _ _ _ Ht _ _ _ Hp Hq) as [Hlive Hdepth]. destruct (IH q) as (l & Hlen & Hnd & Hin); [done|lia|].
    exists (p :: l). split; [simpl; lia|]. split.
    + apply NoDup_cons. split; [|done]. intros [_ Hp']%Hin. lia.
    + intros r [->|Hr]%elem_of_cons; [split; [by exists n|lia]|]. destruct (Hin r Hr). split; [done|lia].
Qed.
Lemma depth_bound cells root depth p :
  tree cells root depth → is_Some (cells !! p) → (depth p < size cells)%nat.
Proof.
  intros Ht Hp. destruct (ancestors _ _ _ _ _ Ht Hp eq_refl) as (l & Hlen & Hnd & Hin).
  assert (list_to_set l ⊆ (dom cells : gset positive)) as Hsub.
  { intros q Hq%elem_of_list_to_set. apply elem_of_dom. by apply Hin. }
  apply subseteq_size in Hsub. rewrite size_dom, size_list_to_set in Hsub by done. lia.
Qed.

(** ** Calls that keep the tree *)

Definition nil_map : string := "assignment to entry in nil map".
(** The only panic: the directory the client is in has no map for its entries. *)
Definition stuck w : Prop := ∃ h n, cache w = Some h ∧ cnodes w !! chCurr h = Some n ∧ cnChildren n = None.
(** From a good desk the call ends in one, whatever it returns. *)
Definition good {A} (m : M (Desk D) A) (Q : A → Desk D → Prop) w : Prop :=
  match m w with
  | (w', Ok a) => desk_wf w' ∧ grows w w' ∧ Q a w'
  | (w', Err _) => desk_wf w' ∧ grows w w'
  | (w', Panic why) => desk_wf w' ∧ grows w w' ∧ why = nil_map ∧ stuck w'
  end.
Lemma good_bind {A B} (m : M (Desk D) A) (k : A → M (Desk D) B) Q R w :
  good m Q w → (∀ a w', desk_wf w' → grows w w' → Q a w' → good (k a) R w') → good (m ≫= k) R w.
Proof.
  intros Hm Hk. unfold good in *. unfold mbind, M_bind. destruct (m w) as [w1 [a|e|y]]; [|done|done].
  destruct Hm as (Hw1 & Hg1 & Hq). specialize (Hk a w1 Hw1 Hg1 Hq).
  destruct (k a w1) as [w2 [b|e|y]]; intuition eauto using desk_grows_trans.
Qed.
Lemma good_mono {A} (m : M (Desk D) A) (Q R : A → Desk D → Prop) w :
  good m Q w → (∀ a w', desk_wf w' → grows w w' → Q a w' → R a w') → good m R w.
Proof. unfold good. intros Hm Hqr. destruct (m w) as [w1 [a|e|y]]; [|done|done]. naive_solver. Qed.
Lemma good_ret {A} (a : A) (Q : A → Desk D → Prop) w : desk_wf w → Q a w → good (mret a) Q w.
Proof. by split. Qed.
Lemma good_throw {A} e (Q : A → Desk D → Prop) w : desk_wf w → good (throw e) Q w.
Proof. by split. Qed.
Lemma good_gets {A} (f : Desk D → A) w : desk_wf w → good (gets f) (λ a w', w' = w ∧ a = f w) w.
Proof. intros Hw. split; [done|]. by split. Qed.
Lemma good_catch {A} (m : M (Desk D) A) w Q :
  good m Q w → good (catch m) (λ r w', match r with inr a => Q a w' | inl _ => True end) w.
Proof. unfold good, catch. destruct (m w) as [w1 [a|e|y]]; naive_solver. Qed.
Lemma good_ignore {A} (m : M (Desk D) A) w : good m (λ _ _, True) w → good (ignore m) (λ _ _, True) w.
Proof. unfold good, ignore. destruct (m w) as [w1 [a|e|y]]; naive_solver. Qed.
Lemma good_for_each {A} (f : A → M (Desk D) unit) (l : list A) (P : A → Desk D → Prop) w :
  desk_wf w → (∀ x, x ∈ l → P x w) → (∀ x w1 w2, P x w1 → desk_wf w2 → grows w1 w2 → P x w2) →
  (∀ x w', x ∈ l → desk_wf w' → P x w' → good (f x) (λ _ _, True) w') →
  good (for_each l f) (λ _ _, True) w.
Proof.
  intros Hw HP Hstable Hf. revert w Hw HP. induction l as [|x l IH]; intros w Hw HP; [by apply good_ret|]. simpl.
  eapply good_bind; [apply Hf; [by left|done|apply HP; by left]|]. intros [] w1 Hw1 Hg _.
  apply IH; [intros y w' Hy; apply Hf; by right|done|]. intros y Hy. eapply Hstable; [apply HP; by right|done|done].
Qed.

(** ** Calls that leave the client and its cache alone *)

Definition keeps w w' : Prop := vfs w' = vfs w ∧ cnodes w' = cnodes w ∧ cache w' = cache w.
Lemma desk_keeps_refl w : keeps w w.
Proof. done. Qed.
Lemma desk_keeps_trans w1 w2 w3 : keeps w1 w2 → keeps w2 w3 → keeps w1 w3.
Proof. intros (?&?&?) (?&?&?). split_and!; congruence. Qed.
Lemma keeps_wf w w' : desk_wf w → keeps w w' → desk_wf w' ∧ grows w w'.
Proof.
  intros [Hon Hr Hc Ht] (Hv & Hn & Hh). split.
  - split; try (by rewrite Hv). by rewrite Hh, Hn.
  - unfold grows, live, hangs, hung. rewrite Hn, Hh. done.
Qed.
Definition aside {A} (m : M (Desk D) A) (Q : A → Prop) w : Prop :=
  match m w with
  | (w', Ok a) => keeps w w' ∧ Q a
  | (w', Err _) => keeps w w'
  | (w', Panic _) => False
  end.
Lemma aside_bind {A B} (m : M (Desk D) A) (k : A → M (Desk D) B) Q R w :
  aside m Q w → (∀ a w', keeps w w' → Q a → aside (k a) R w') → aside (m ≫= k) R w.
Proof.
  unfold aside, mbind, M_bind. destruct (m w) as [w1 [a|e|y]]; [|done|done]. intros [Hk Hq] Hnext.
  specialize (Hnext a w1 Hk Hq). destruct (k a w1) as [w2 [b|e|y]]; [|by eapply desk_keeps_trans|done].
  split; [eapply desk_keeps_trans; [exact Hk|]; apply Hnext|apply Hnext].
Qed.
Lemma aside_mono {A} (m : M (Desk D) A) (Q R : A → Prop) w : aside m Q w → (∀ a, Q a → R a) → aside m R w.
Proof. unfold aside. destruct (m w) as [w1 [a|e|y]]; naive_solver. Qed.
Lemma aside_ret {A} (a : A) (Q : A → Prop) w : Q a → aside (mret a) Q w.
Proof. done. Qed.
Lemma aside_throw {A} e (Q : A → Prop) w : aside (throw e) Q w.
Proof. done. Qed.
Lemma aside_gets {A} (f : Desk D → A) w : aside (gets f) (λ a, a = f w) w.
Proof. done. Qed.
Lemma aside_look {A} (f : D → A) w : aside (look f) (λ _, True) w.
Proof. done. Qed.
Lemma aside_disk {A} (c : OSCall D A) w : aside (on_disk c) (λ _, True) w.
Proof. unfold aside, on_disk. by destruct (c (cdisk w)) as [d r]. Qed.
Lemma aside_os {A} (c : OSCall D A) w : aside (os_do c) (λ _, True) w.
Proof. eapply aside_bind; [apply aside_disk|]. by intros [e|a] w' _ _. Qed.
Lemma aside_catch {A} (m : M (Desk D) A) Q w :
  aside m Q w → aside (catch m) (λ r, match r with inr a => Q a | inl _ => True end) w.
Proof. unfold aside, catch. destruct (m w) as [w1 [a|e|y]]; naive_solver. Qed.
Lemma aside_for_each {A} (f : A → M (Desk D) unit) (l : list A) w :
  (∀ x w', x ∈ l → keeps w w' → aside (f x) (λ _, True) w') → aside (for_each l f) (λ _, True) w.
Proof.
  revert w. induction l as [|x l IH]; intros w Hf; [by apply aside_ret|]. simpl.
  eapply aside_bind; [apply Hf; [by left|apply desk_keeps_refl]|]. intros [] w1 Hk _. apply IH. intros y w' Hy Hk'.
  apply Hf; [by right|by eapply desk_keeps_trans].
Qed.
Lemma aside_good {A} (m : M (Desk D) A) Q w :
  desk_wf w → aside m Q w → good m (λ a w', keeps w w' ∧ Q a) w.
Proof.
  unfold aside, good. intros Hw. destruct (m w) as [w1 [a|e|y]]; [|by apply keeps_wf|done].
  intros [Hk Hq]. destruct (keeps_wf _ _ Hw Hk). by split_and!.
Qed.

Context (rpc : nat → ∀ A, Call A → Reply A).
Definition linked w : Prop := connected (vfs w) = true ∧ is_Some (rootFID (vfs w)) ∧ is_Some (currentFID (vfs w)).
Lemma desk_linked w : desk_wf w → linked w.
Proof. by intros []. Qed.
Lemma keeps_linked w w' : linked w → keeps w w' → linked w'.
Proof. unfold linked. by intros Hl (-> & _). Qed.

Lemma aside_invoke {A} (c : Call A) w :
  linked w → aside (invoke rpc c) (λ r, r = rpc (length (calls w)) A c) w.
Proof. intros [Hon _]. unfold aside, invoke. by rewrite Hon. Qed.
Lemma aside_ask {A} (f : error → error) (g : string → error) (c : Call A) w :
  linked w → aside (ask rpc f g c) (λ a, ∃ k, rpc k A c = Answered a) w.
Proof.
  intros Hl. eapply aside_bind; [by apply aside_invoke|]. intros r w1 _ ->.
  destruct (rpc _ A c) as [e|m|a] eqn:Hr; try done. apply aside_ret. by eexists.
Qed.
Lemma aside_ToProto (f : option FID) w : is_Some f → aside (ToProto f) (λ x, ∃ g, f = Some g ∧ x = FID_ToProto g) w.
Proof. intros [g ->]. apply aside_ret. by exists g. Qed.
Lemma aside_me {A} (f : Client → A) w : aside (me f) (λ a, a = f (vfs w)) w.
Proof. done. Qed.

(** The server gives a FID with every success of the calls that make or find a file, and
    with every entry of a listing, as the handlers of Handler.v do.  Without one the client
    dereferences nil. *)
Definition entries_named (l : list Handler.Entry) : Prop := Forall (λ e, is_Some (Handler.entFid e)) l.
Record gives_fids : Prop := {
  gf_cd k f r path : rpc k _ (ChangeDir f r path) ≠ Answered None;
  gf_create k name root f t size : rpc k _ (CallCreateFile name root f t size) ≠ Answered None;
  gf_list k f l : rpc k _ (ListDir f) = Answered l → entries_named l;
  gf_trash k root user l : rpc k _ (CallShowTrash root user) = Answered l → entries_named l;
}.
Context (Hgives : gives_fids).

Ltac aside_step := eapply aside_bind; [first
  [apply aside_gets|apply aside_me|apply aside_look|apply aside_disk|apply aside_os
  |apply aside_ask; [eauto using keeps_linked]|apply aside_invoke; [eauto using keeps_linked]
  |apply aside_ToProto]|].

Lemma linked_root w : linked w → is_Some (rootFID (vfs w)).
Proof. by intros (_ & ? & _). Qed.
Lemma linked_cur w : linked w → is_Some (currentFID (vfs w)).
Proof. by intros (_ & _ & ?). Qed.

Definition have_fids (l : list FileInfo) : Prop := Forall (λ f, is_Some (fiFID f)) l.
Lemma infos_have_fids l : entries_named l → have_fids (map info_of l).
Proof.
  intros Hl. apply Forall_map. eapply Forall_impl; [exact Hl|]. intros e [f Hf]. simpl. rewrite Hf. by eexists.
Qed.
Lemma aside_ListFilesAt f w : linked w → aside (ListFilesAt rpc f) have_fids w.
Proof.
  intros Hl. destruct f as [f|]; [|apply aside_throw]. unfold ListFilesAt, call. aside_step.
  intros l w1 Hk [k Hans]. by apply aside_ret, infos_have_fids, (gf_list Hgives k (FID_ToProto f)).
Qed.
Lemma aside_ListFiles w : linked w → aside (Client.ListFiles rpc) have_fids w.
Proof. intros Hl. unfold Client.ListFiles. aside_step. intros f w1 Hk _. apply aside_ListFilesAt. by eapply keeps_linked. Qed.
Lemma aside_ShowTrash w : linked w → aside (Client.ShowTrash rpc) have_fids w.
Proof.
  intros Hl. unfold Client.ShowTrash, call. aside_step. intros c w1 Hk _. aside_step. intros l w2 _ [k Hans].
  by eapply aside_ret, infos_have_fids, (gf_trash Hgives k).
Qed.
Lemma aside_wrapping {A} what (m : M (Desk D) A) Q w : aside m Q w → aside (wrapping what m) Q w.
Proof.
  intros Hm. unfold wrapping. eapply aside_bind; [by apply aside_catch|]. intros [e|a] w1 _ Hq; [apply aside_throw|by apply aside_ret].
Qed.

Lemma aside_receive path l w : aside (receive path l) (λ _, True) w.
Proof.
  revert w. induction l as [|[off b|m|e] l IH]; intros w; simpl; [done| |apply aside_throw|apply aside_throw].
  aside_step. intros [e|u] w1 _ _; [apply aside_throw|apply IH].
Qed.
Lemma aside_download parent name dir saveAs w :
  linked w → is_Some parent → aside (downloadFileInternalAs rpc parent name dir saveAs) (λ _, True) w.
Proof.
  intros Hl Hp. unfold downloadFileInternalAs. aside_step; [done|]. intros pf w1 Hk1 _. aside_step.
  intros l w2 Hk2 _. aside_step. intros u w3 _ _. aside_step. intros u' w4 _ _. apply aside_receive.
Qed.
Lemma aside_create what name t w :
  linked w → aside (create rpc what name t) (λ i, is_Some (fiFID i)) w.
Proof.
  intros Hl. unfold create, call. aside_step. intros c w1 Hk1 ->. aside_step; [by apply linked_cur|].
  intros f w2 Hk2 _. aside_step. intros new w3 _ [k Hnew].
  apply aside_ret. destruct new as [g|]; [by eexists|]. by destruct (gf_create Hgives _ _ _ _ _ _ Hnew).
Qed.

(** A local directory no deeper than [fuel]. *)
Fixpoint shallow (fuel : nat) (d : D) (path : string) : Prop :=
  match fuel with
  | O => False
  | S fuel => match os_ReadDir path d with
              | inr l => ∀ e, e ∈ l → deIsDir e = true → shallow fuel d (Join [path; deName e])
              | inl _ => True
              end
  end.
(** An upload calls the server only. *)
Definition sends {A} (m : M (Desk D) A) (Q : A → Prop) w : Prop := aside m Q w ∧ cdisk (m w).1 = cdisk w.
Lemma sends_bind {A B} (m : M (Desk D) A) (k : A → M (Desk D) B) Q R w :
  sends m Q w → (∀ a w', keeps w w' → cdisk w' = cdisk w → Q a → sends (k a) R w') → sends (m ≫= k) R w.
Proof.
  intros [Hm Hd] Hk. split.
  - unfold aside, mbind, M_bind in *. destruct (m w) as [w1 [a|e|y]]; [|done|done]. destruct Hm as [Hk1 Hq].
    destruct (Hk a w1 Hk1 Hd Hq) as [Ha _]. unfold aside in Ha. destruct (k a w1) as [w2 [b|e|y]];
      [|by eapply desk_keeps_trans|done]. split; [eapply desk_keeps_trans; [exact Hk1|]; apply Ha|apply Ha].
  - unfold aside, mbind, M_bind in *. destruct (m w) as [w1 [a|e|y]]; [|done|done]. destruct Hm as [Hk1 Hq].
    destruct (Hk a w1 Hk1 Hd Hq) as [_ Hd2]. simpl in *. congruence.
Qed.
Lemma sends_ask {A} (f : error → error) (g : string → error) (c : Call A) w :
  linked w → sends (ask rpc f g c) (λ a, ∃ k, rpc k A c = Answered a) w.
Proof.
  intros Hl. split; [by apply aside_ask|]. destruct Hl as [Hon _].
  unfold ask, invoke, mbind, M_bind. rewrite Hon. by destruct (rpc _ A c).
Qed.
Lemma sends_pure {A} (m : M (Desk D) A) Q w : aside m Q w → (m w).1 = w → sends m Q w.
Proof. intros Ha Heq. split; [done|]. by rewrite Heq. Qed.
Lemma sends_for_each {A} (f : A → M (Desk D) unit) (l : list A) w :
  (∀ x w', x ∈ l → keeps w w' → cdisk w' = cdisk w → sends (f x) (λ _, True) w') → sends (for_each l f) (λ _, True) w.
Proof.
  revert w. induction l as [|x l IH]; intros w Hf; [by apply sends_pure|]. simpl.
  eapply sends_bind; [apply Hf; [by left|apply desk_keeps_refl|done]|]. intros [] w1 Hk Hd _. apply IH. intros y w' Hy Hk' Hd'.
  apply Hf; [by right|by eapply desk_keeps_trans|congruence].
Qed.
Ltac sends_step := eapply sends_bind; [first
  [apply sends_ask; [eauto using keeps_linked]|apply sends_pure; [first [apply aside_me|apply aside_look|apply aside_ToProto]|try done]]|].

Lemma sends_new w name root f t size fe ge :
  linked w → sends (ask rpc fe ge (CallCreateFile name root f t size)) is_Some w.
Proof.
  intros Hl. destruct (sends_ask fe ge (CallCreateFile name root f t size) w Hl) as [Ha Hd]. split; [|done].
  eapply aside_mono; [exact Ha|]. intros [g|] [k Hk]; [by eexists|]. by destruct (gf_create Hgives _ _ _ _ _ _ Hk).
Qed.
Lemma sends_file path parent w :
  linked w → is_Some parent → sends (uploadFileInternal rpc path parent) is_Some w.
Proof.
  intros Hl [p ->]. unfold uploadFileInternal. sends_step. intros [e|[]] w1 Hk1 _ _; [by apply sends_pure|].
  sends_step. intros [e|size] w2 Hk2 _ _; [by apply sends_pure|]. sends_step. intros root w3 Hk3 _ _.
  eapply sends_bind; [by apply (sends_pure _ (λ _, True))|]. intros pf w4 Hk4 _ _.
  assert (linked w4) as Hl4 by eauto using keeps_linked.
  eapply sends_bind; [by apply sends_new|]. intros new w5 Hk5 _ [g ->].
  sends_step. intros [] w6 Hk6 _ _. sends_step. intros [e|b] w7 Hk7 _ _; [by apply sends_pure|].
  assert (linked w7) as Hl7 by eauto using keeps_linked.
  eapply sends_bind with (Q := λ _, True).
  { unfold send_all. sends_step. intros user w8 Hk8 _ _. apply sends_for_each. intros [off c] w9 _ Hk9 _.
    assert (linked w9) as Hl9 by eauto using keeps_linked.
    destruct (sends_ask id server_error (SendUpload (Handler.mkUploadReq (Some pf) (Base path) user off c)) w9 Hl9) as [Ha Hd].
    split; [|done]. by eapply aside_mono. }
  intros [] w8 Hk8 _ _. sends_step. intros [] w9 _ _ _. apply sends_pure; [|done]. apply aside_ret. by destruct g; eexists.
Qed.

Lemma sends_recursive fuel path parent w :
  linked w → is_Some parent → shallow fuel (cdisk w) path → sends (uploadRecursive rpc fuel path parent) is_Some w.
Proof.
  revert path parent w. induction fuel as [|fuel IH]; intros path parent w Hl [p ->] Hsh; [done|]. simpl.
  sends_step. intros root w1 Hk1 Hd1 _. eapply sends_bind; [by apply (sends_pure _ (λ _, True))|]. intros pf w2 Hk2 Hd2 _.
  assert (linked w2) as Hl2 by eauto using keeps_linked. eapply sends_bind; [by apply sends_new|].
  intros new w3 Hk3 Hd3 [g ->]. assert (cdisk w3 = cdisk w) as Hd by congruence.
  assert (linked w3) as Hl3 by eauto using keeps_linked. clear Hk1 Hk2 Hk3. simpl in Hsh.
  eapply sends_bind; [apply (sends_pure _ (λ r, r = os_ReadDir path (cdisk w3))); done|].
  intros r w4 Hk4 Hd4 ->. rewrite Hd. destruct (os_ReadDir path (cdisk w)) as [e|entries]; [by apply sends_pure|].
  assert (linked w4) as Hl4 by eauto using keeps_linked.
  eapply sends_bind; [|intros [] w5 _ _ _; apply sends_pure; [apply aside_ret; by destruct g; eexists|done]].
  apply sends_for_each. intros e w5 He Hk5 Hd5. assert (linked w5) as Hl5 by eauto using keeps_linked.
  eapply sends_bind; [|intros f w6 _ _ _; by apply (sends_pure _ (λ _, True))].
  destruct (deIsDir e) eqn:Hdir; [|apply sends_file; [done|by eexists]].
  apply IH; [done|by eexists|]. rewrite Hd5, Hd4, Hd. by apply Hsh.
Qed.
(** What an upload asks of the local disk. *)
Definition upload_fits fuel path w : Prop := os_IsDir path (cdisk w) = true → shallow fuel (cdisk w) path.
Lemma aside_Upload fuel path w :
  linked w → upload_fits fuel path w → aside (Client.Upload rpc fuel path) is_Some w.
Proof.
  intros Hl Hsh. unfold Client.Upload. apply sends_bind with (Q := λ _, True); [by apply sends_pure|].
  intros [e|size] w1 Hk1 Hd1 _; [by apply sends_pure|].
  eapply sends_bind; [apply (sends_pure _ (λ r, r = os_IsDir path (cdisk w1))); done|]. intros dir w2 Hk2 Hd2 ->.
  eapply sends_bind; [apply (sends_pure _ (λ f, f = currentFID (vfs w2))); done|]. intros cur w3 Hk3 Hd3 ->.
  assert (linked w2) as Hl2 by eauto using keeps_linked. assert (linked w3) as Hl3 by eauto using keeps_linked.
  pose proof (linked_cur _ Hl2). destruct (os_IsDir path (cdisk w1)) eqn:Hdir; [|by apply sends_file].
  apply sends_recursive; [done..|]. rewrite Hd3, Hd2, Hd1. apply Hsh. by rewrite <-Hd1.
Qed.

Lemma aside_unit {A} (c : Call A) f g w : linked w → aside (ask rpc f g c) (λ _, True) w.
Proof. intros Hl. by eapply aside_mono; [apply aside_ask|]. Qed.
(** The calls on an entry found by its name. *)
Lemma aside_DeleteFile name rec w : linked w → aside (Client.DeleteFile rpc name rec) (λ _, True) w.
Proof.
  intros Hl. unfold Client.DeleteFile. eapply aside_bind; [by apply aside_wrapping, aside_ListFiles|].
  intros l w1 Hk1 _. destruct (named name l) as [f|]; [|apply aside_throw]. aside_step. intros root w2 Hk2 _.
  apply aside_unit. eauto using keeps_linked.
Qed.
Lemma aside_TrashFile name rec w : linked w → aside (Client.TrashFile rpc name rec) (λ _, True) w.
Proof.
  intros Hl. unfold Client.TrashFile. case_decide; [apply aside_throw|]. eapply aside_bind; [by apply aside_wrapping, aside_ListFiles|].
  intros l w1 Hk1 _. destruct (named name l) as [f|]; [|apply aside_throw]. aside_step. intros root w2 Hk2 _.
  apply aside_unit. eauto using keeps_linked.
Qed.
Lemma aside_RestoreFile name w : linked w → aside (Client.RestoreFile rpc name) (λ _, True) w.
Proof.
  intros Hl. unfold Client.RestoreFile. case_decide; [apply aside_throw|]. eapply aside_bind; [by apply aside_wrapping, aside_ShowTrash|].
  intros l w1 Hk1 _. destruct (named name l) as [f|]; [|apply aside_throw]. aside_step. intros root w2 Hk2 _.
  apply aside_unit. eauto using keeps_linked.
Qed.
Lemma aside_DeleteFromTrash name w : linked w → aside (Client.DeleteFromTrash rpc name) (λ _, True) w.
Proof.
  intros Hl. unfold Client.DeleteFromTrash. case_decide; [apply aside_throw|]. eapply aside_bind; [by apply aside_wrapping, aside_ShowTrash|].
  intros l w1 Hk1 _. destruct (named name l) as [f|]; [|apply aside_throw]. aside_step. intros root w2 Hk2 _.
  apply aside_unit. eauto using keeps_linked.
Qed.
Lemma aside_clear_all l w : linked w → have_fids l → aside (clear_all rpc l) (λ _, True) w.
Proof.
  revert w. induction l as [|e l IH]; intros w Hl Hf; simpl; [done|]. apply Forall_cons in Hf as [He Hf].
  aside_step. intros root w1 Hk1 _. aside_step; [done|]. intros f w2 Hk2 _. aside_step. intros r w3 Hk3 _.
  eapply aside_bind; [apply IH; [eauto using keeps_linked|done]|]. intros rest w4 _ _. by apply aside_ret.
Qed.
Lemma aside_ClearTrash w : linked w → aside (Client.ClearTrash rpc) (λ _, True) w.
Proof.
  intros Hl. unfold Client.ClearTrash. eapply aside_bind; [by apply aside_catch, aside_ShowTrash|].
  intros [e|l] w1 Hk1 Hf; [by apply aside_ret|]. eapply aside_bind; [apply aside_clear_all; [by eapply keeps_linked|done]|].
  intros [failed deleted] w2 _ _. by apply aside_ret.
Qed.

(** ** Calls that change the tree *)

Lemma good_aside {A} (m : M (Desk D) A) Q w : desk_wf w → aside m Q w → good m (λ a _, Q a) w.
Proof. intros Hw Hm. eapply good_mono; [by apply aside_good|]. naive_solver. Qed.

Lemma good_handler w :
  desk_wf w → good handler (λ h w', w' = w ∧ cache w = Some h ∧ live w (chRoot h) ∧ live w (chCurr h)) w.
Proof.
  intros Hw. destruct (d_tree _ Hw) as (h & depth & Hh & Ht & Hc). destruct (t_root _ _ _ Ht) as (n & Hn & _).
  unfold good, handler, mbind, M_bind, gets. rewrite Hh. split; [done|]. split; [apply desk_grows_refl|]. split_and!; [done|done|by exists n|done].
Qed.
Lemma good_node_at p w : desk_wf w → live w p → good (node_at p) (λ n w', w' = w ∧ cnodes w !! p = Some n) w.
Proof. intros Hw [n Hn]. unfold good, node_at. rewrite Hn. by split; [|split]. Qed.

(** A change of a node that leaves its place alone, and lists what hangs on it only. *)
Definition mild (cells : gmap positive CNode) p (f : CNode → CNode) n : Prop :=
  cnParent (f n) = cnParent n ∧ cnName (f n) = cnName n
  ∧ (∀ s q, child (f n) s = Some q → child n s = Some q ∨ hung cells p s q) ∧ is_Some (cnFid (f n)).
Lemma tree_alter cells root depth p f :
  tree cells root depth → (∀ n, cells !! p = Some n → mild cells p f n) → tree (alter f p cells) root depth.
Proof.
  intros [(nr & Hr & Hrp) Hup Htop Hdown Hfid Hd] Hf.
  assert (∀ q n, alter f p cells !! q = Some n → ∃ n0, cells !! q = Some n0 ∧ cnParent n = cnParent n0 ∧ cnName n = cnName n0
      ∧ (∀ s r, child n s = Some r → child n0 s = Some r ∨ hung cells q s r) ∧ is_Some (cnFid n)) as Hback.
  { intros q n Hq. destruct (decide (q = p)) as [->|Hne].
    - rewrite lookup_alter_eq in Hq. destruct (cells !! p) as [n0|] eqn:Hn0; [|done]. injection Hq as <-. exists n0.
      destruct (Hf n0 eq_refl) as (? & ? & ? & ?). by split_and!.
    - rewrite lookup_alter_ne in Hq by done. exists n. split_and!; eauto. }
  assert (∀ q n0, cells !! q = Some n0 → ∃ n, alter f p cells !! q = Some n ∧ cnParent n = cnParent n0 ∧ cnName n = cnName n0) as Hforth.
  { intros q n0 Hq. destruct (decide (q = p)) as [->|Hne].
    - exists (f n0). rewrite lookup_alter_eq, Hq. destruct (Hf n0 Hq) as (? & ? & _). by split_and!.
    - exists n0. by rewrite lookup_alter_ne. }
  split.
  - destruct (Hforth _ _ Hr) as (n & Hn & Hp & _). exists n. split; [done|congruence].
  - intros q n r Hq Hp. destruct (Hback _ _ Hq) as (n0 & Hn0 & Hp0 & _). rewrite Hp0 in Hp.
    destruct (Hup _ _ _ Hn0 Hp) as [[m Hm] Hdq]. destruct (Hforth _ _ Hm) as (m' & Hm' & _). split; [by exists m'|done].
  - intros q n Hq Hp. destruct (Hback _ _ Hq) as (n0 & Hn0 & Hp0 & _). apply (Htop _ n0); congruence.
  - intros q n s r Hq Hc. destruct (Hback _ _ Hq) as (n0 & Hn0 & _ & _ & Hch & _).
    assert (hung cells q s r) as (c & Hcr & Hcp & Hcn) by (destruct (Hch s r Hc) as [Hc0|?]; [by apply (Hdown _ n0)|done]).
    destruct (Hforth _ _ Hcr) as (c' & Hc' & Hp' & Hn'). exists c'. split_and!; [done|congruence|congruence].
  - intros q n Hq. destruct (Hback _ _ Hq) as (_ & _ & _ & _ & _ & Hfq). done.
  - done.
Qed.
Lemma grows_alter w p f :
  (∀ n, cnodes w !! p = Some n → cnParent (f n) = cnParent n ∧ cnName (f n) = cnName n) → grows w (on_cnode p f w).1.
Proof.
  intros Hf. unfold grows, live, hangs, hung. simpl. split_and!; [|intros r s q (c & Hc & Hp & Hn)|done].
  - intros q [n Hn]. destruct (decide (q = p)) as [->|Hne]; [rewrite lookup_alter_eq, Hn; by eexists|rewrite lookup_alter_ne; [by eexists|done]].
  - destruct (decide (q = p)) as [->|Hne]; [|exists c; by rewrite lookup_alter_ne].
    destruct (Hf c Hc) as [Hp' Hn']. exists (f c). rewrite lookup_alter_eq, Hc. split_and!; [done|congruence|congruence].
Qed.
Lemma good_mild p f w :
  desk_wf w → (∀ n, cnodes w !! p = Some n → mild (cnodes w) p f n) → good (on_cnode p f) (λ _ w', w' = (on_cnode p f w).1) w.
Proof.
  intros Hw Hf. assert (grows w (on_cnode p f w).1) as Hg.
  { apply grows_alter. intros n Hn. destruct (Hf n Hn) as (? & ? & _). done. }
  destruct Hw as [Hon Hr Hc (h & depth & Hh & Ht & Hcur)]. split; [|by split]. split; try done.
  exists h, depth. split; [done|]. split; [by apply tree_alter|]. by apply (proj1 Hg).
Qed.

Lemma good_new_node n p w :
  desk_wf w → live w p → cnParent n = Some p → (∀ s, child n s = None) → is_Some (cnFid n) →
  good (new_node n) (λ q w', hangs w' p (cnName n) q ∧ cache w' = cache w) w.
Proof.
  intros [Hon Hr Hc (h & depth & Hh & Ht & Hcur)] Hp Hpar Hch Hfid. unfold good, new_node.
  set (q := fresh (dom (cnodes w))). assert (cnodes w !! q = None) as Hq by (apply not_elem_of_dom, is_fresh).
  assert (∀ r m, cnodes w !! r = Some m → <[q := n]> (cnodes w) !! r = Some m) as Hold.
  { intros r m Hr'. rewrite lookup_insert_ne; [done|]. intros ->. congruence. }
  set (depth' := λ r, if decide (r = q) then S (depth p) else depth r).
  assert (∀ r, is_Some (cnodes w !! r) → depth' r = depth r) as Hdep.
  { intros r [m Hm]. unfold depth'. rewrite decide_False; [done|]. intros ->. congruence. }
  destruct Ht as [(nr & Hnr & Hnrp) Hup Htop Hdown Hf Hd].
  assert (tree (<[q := n]> (cnodes w)) (chRoot h) depth') as Ht'.
  { split.
    - exists nr. split; [by apply Hold|done].
    - intros r m s Hm Hpm. apply lookup_insert_Some in Hm as [[<- <-]|[Hne Hm]].
      + assert (s = p) as -> by congruence. destruct Hp as [np Hnp]. split; [exists np; by apply Hold|].
        rewrite (Hdep p) by (by exists np). unfold depth'. by rewrite decide_True.
      + destruct (Hup _ _ _ Hm Hpm) as [[ms Hms] Hdd]. split; [exists ms; by apply Hold|].
        rewrite (Hdep r), (Hdep s) by eauto. done.
    - intros r m Hm Hpm. apply lookup_insert_Some in Hm as [[<- <-]|[Hne Hm]]; [congruence|by apply (Htop r m)].
    - intros r m s x Hm Hx. apply lookup_insert_Some in Hm as [[<- <-]|[Hne Hm]]; [by rewrite Hch in Hx|].
      destruct (Hdown _ _ _ _ Hm Hx) as (c & Hcx & ? & ?). exists c. split_and!; [by apply Hold|done|done].
    - intros r m Hm. apply lookup_insert_Some in Hm as [[<- <-]|[Hne Hm]]; [done|by apply (Hf r)].
    - by rewrite (Hdep (chRoot h)) by (by exists nr). }
  split; [split; simpl; try done; exists h, depth'; split_and!; [done|done|destruct Hcur as [m Hm]; exists m; by apply Hold]|].
  split; [|split; [exists n; split_and!; [apply lookup_insert_eq|done|done]|done]].
  split_and!; [|intros r s x (c & Hcx & ? & ?); exists c; split_and!; [by apply Hold|done|done]|done].
  intros r [m Hm]. exists m. by apply Hold.
Qed.
Lemma good_put_child h s q w :
  desk_wf w → cache w = Some h → live w (chCurr h) → hangs w (chCurr h) s q → good (put_child (chCurr h) s q) (λ _ _, True) w.
Proof.
  intros Hw Hh Hp Hq. eapply good_bind; [by apply good_node_at|]. intros n w1 Hw1 _ [-> Hn]. 
  destruct (cnChildren n) as [m|] eqn:Hm; [|by split; [|split; [apply desk_grows_refl|split; [|exists h, n]]]].
  eapply good_mono; [apply good_mild; [done|]|done]. intros n' Hn'. assert (n' = n) as -> by congruence.
  split_and!; [done|done| |]; [|destruct (d_tree _ Hw) as (h' & depth & _ & Ht & _); by apply (t_fid _ _ _ Ht _ _ Hn)].
  intros t r. unfold child. simpl. rewrite Hm. simpl. intros [[<- <-]|[Hne Ht]]%lookup_insert_Some; [by right|by left].
Qed.
Lemma good_drop_child p s w : desk_wf w → good (drop_child p s) (λ _ _, True) w.
Proof.
  intros Hw. eapply good_mono; [apply good_mild; [done|]|done]. intros n Hn. split_and!; [done|done| |].
  - intros t r. unfold child. simpl. destruct (cnChildren n) as [m|]; simpl; [|done]. intros [_ ?]%lookup_delete_Some. by left.
  - destruct (d_tree _ Hw) as (h & depth & _ & Ht & _). by apply (t_fid _ _ _ Ht _ _ Hn).
Qed.

Lemma good_frame {A} (m : M (Desk D) A) Q w (R : Desk D → Prop) :
  good m Q w → (∀ w', grows w w' → R w') → good m (λ a w', Q a w' ∧ R w') w.
Proof. intros Hm Hr. eapply good_mono; [exact Hm|]. eauto. Qed.
Lemma node_fid w p n : desk_wf w → cnodes w !! p = Some n → is_Some (cnFid n).
Proof. intros Hw Hn. destruct (d_tree _ Hw) as (h & depth & _ & Ht & _). by apply (t_fid _ _ _ Ht p). Qed.
Lemma child_hangs w p n s q : desk_wf w → cnodes w !! p = Some n → child n s = Some q → hangs w p s q.
Proof. intros Hw Hn Hc. destruct (d_tree _ Hw) as (h & depth & _ & Ht & _). by apply (t_down _ _ _ Ht p n). Qed.
Lemma hangs_live w p s q : hangs w p s q → live w q.
Proof. intros (c & Hc & _). by exists c. Qed.

Lemma good_relist p f q w :
  desk_wf w → hangs w p (fiName f) q → is_Some (fiFID f) → good (on_cnode q (relisted f p)) (λ _ w', hangs w' p (fiName f) q) w.
Proof.
  intros Hw Hq Hf. eapply good_mono.
  - eapply good_frame; [apply good_mild; [done|]|intros w' Hg; apply (proj1 (proj2 Hg)), Hq].
    intros n Hn. destruct Hq as (c & Hc & Hp & Hname). assert (c = n) as -> by congruence.
    split_and!; [done|done| |done]. intros s r. unfold child. simpl. destruct (cnChildren n) as [m|]; simpl; [by left|].
    by rewrite lookup_empty.
  - naive_solver.
Qed.
Lemma good_place p old files acc w :
  desk_wf w → live w p → have_fids files → (∀ s q, old ≫= (.!! s) = Some q → hangs w p s q) →
  (∀ s q, acc !! s = Some q → hangs w p s q) →
  good (place p old files acc) (λ m w', ∀ s q, m !! s = Some q → hangs w' p s q) w.
Proof.
  revert acc w. induction files as [|f files IH]; intros acc w Hw Hp Hf Hold Hacc; [by apply good_ret|].
  apply Forall_cons in Hf as [Hff Hf]. simpl. eapply good_bind with (Q := λ q w', hangs w' p (fiName f) q).
  - destruct (old ≫= (.!! fiName f)) as [q|] eqn:Hq.
    + eapply good_bind; [apply good_relist; [done|by apply Hold|done]|]. intros [] w1 Hw1 _ Hh. by apply good_ret.
    + eapply good_mono; [by apply (good_new_node (listed f p) p)|naive_solver].
  - intros q w1 Hw1 (Hl & Hh & _) Hq. apply IH; [done|by apply Hl|done|eauto|].
    intros s r [[<- <-]|[_ Hr]]%lookup_insert_Some; [done|eauto].
Qed.
Lemma good_set_children p m w :
  desk_wf w → (∀ s q, m !! s = Some q → hangs w p s q) → good (on_cnode p (with_children (Some m))) (λ _ _, True) w.
Proof.
  intros Hw Hm. eapply good_mono; [apply good_mild; [done|]|done]. intros n Hn. split_and!; [done|done| |].
  - intros s q Hq. right. by apply Hm.
  - exact (node_fid w p n Hw Hn).
Qed.
Lemma good_populate p w : desk_wf w → live w p → good (populateNodeCache rpc p) (λ _ _, True) w.
Proof.
  intros Hw Hp. unfold populateNodeCache. eapply good_bind; [by apply good_node_at|]. intros n w1 Hw1 _ [-> Hn].
  eapply good_bind; [apply aside_good; [done|]; by apply aside_ListFilesAt, desk_linked|].
  intros files w2 Hw2 (Hl & Hh & _) [_ Hf].
  eapply good_bind; [apply good_place; [done|by apply Hl|done| |by intros s q ?%lookup_empty_Some]|].
  { intros s q Hq. apply Hh. by apply (child_hangs w p n). }
  intros m w3 Hw3 _ Hm. by apply good_set_children.
Qed.
Lemma good_populate_cur w : desk_wf w → good (populateCurrentDirCache rpc) (λ _ _, True) w.
Proof.
  intros Hw. eapply good_bind; [by apply good_handler|]. intros h w1 Hw1 _ (-> & _ & _ & Hc). by apply good_populate.
Qed.

(** ** Sessions *)

Lemma good_on_client f w :
  desk_wf w → connected (f (vfs w)) = true → is_Some (rootFID (f (vfs w))) → is_Some (currentFID (f (vfs w))) →
  good (on_client f) (λ _ w', vfs w' = f (vfs w)) w.
Proof.
  intros Hw Hon Hr Hc. split; [|split; [|done]]; [|unfold grows; by split_and!]. split; [done..|]. apply (d_tree _ Hw).
Qed.
Lemma good_ChangeDirectory path w : desk_wf w → good (Client.ChangeDirectory rpc path) (λ _ _, True) w.
Proof.
  intros Hw. unfold Client.ChangeDirectory, call.
  eapply good_bind; [apply aside_good; [done|apply aside_me]|]. intros cur w1 Hw1 _ [_ ->].
  eapply good_bind; [apply aside_good; [done|apply aside_ToProto; by apply linked_cur, desk_linked]|]. intros f w2 Hw2 _ _.
  eapply good_bind; [apply aside_good; [done|apply aside_me]|]. intros root w3 Hw3 _ [_ ->].
  eapply good_bind; [apply aside_good; [done|apply aside_ToProto; by apply linked_root, desk_linked]|]. intros rf w4 Hw4 _ _.
  eapply good_bind; [apply aside_good; [done|apply aside_ask; by apply desk_linked]|]. intros new w5 Hw5 _ (_ & k & Hnew).
  destruct new as [g|]; [|by destruct (gf_cd Hgives _ _ _ _ Hnew)].
  eapply good_bind; [apply good_on_client; [done|exact (d_on _ Hw5)|by apply linked_root, desk_linked|by eexists]|].
  intros [] w6 Hw6 _ _. by apply good_ret.
Qed.

Lemma good_ReRegister w : desk_wf w → good (ReRegister rpc) (λ _ _, True) w.
Proof.
  intros Hw. unfold ReRegister. eapply good_bind; [apply aside_good; [done|apply aside_me]|]. intros on w1 Hw1 _ [_ ->].
  case_match; [by apply good_throw|]. unfold register.
  eapply good_bind with (Q := λ _ _, True).
  { eapply good_bind; [apply aside_good; [done|apply aside_me]|]. intros c w2 Hw2 _ _.
    apply good_aside; [done|]. eapply aside_mono; [by apply aside_invoke, desk_linked|done]. }
  intros r w2 Hw2 _ _. destruct r as [e|m|[root token]]; [by apply good_throw..|].
  destruct (FIDFromProto root) as [new|]; [|by apply good_throw].
  eapply good_bind with (Q := λ _ _, True).
  { case_decide; [|by apply good_ret]. eapply good_mono; [apply good_on_client; [done|exact (d_on _ Hw2)|by apply linked_root, desk_linked|by apply linked_cur, desk_linked]|done]. }
  intros [] w3 Hw3 _ _.
  eapply good_bind; [apply good_on_client; [done|exact (d_on _ Hw3)|by eexists|by apply linked_cur, desk_linked]|]. intros [] w4 Hw4 _ _.
  eapply good_bind; [by apply good_gets|]. intros h w5 Hw5 _ [-> ->].
  eapply good_bind with (Q := λ _ _, True).
  { destruct (cache w4) as [h|]; [|by apply good_ret]. eapply good_mono; [apply good_mild; [done|]|done].
    intros n Hn. split_and!; [done|done|by left|by eexists]. }
  intros [] w6 Hw6 _ _. eapply good_bind; [apply aside_good; [done|apply aside_me]|]. intros cur w7 Hw7 _ _.
  destruct cur as [f|]; [|by apply good_ret]. case_decide; [|by apply good_ret].
  by apply good_ignore, good_ChangeDirectory.
Qed.
Lemma good_Refresh w : desk_wf w → good (Refresh rpc) (λ _ _, True) w.
Proof.
  intros Hw. unfold Refresh. eapply good_bind; [by apply good_gets|]. intros h w1 Hw1 _ [-> ->].
  destruct (cache w); [|by apply good_throw]. eapply good_bind; [by apply good_ignore, good_ReRegister|].
  intros [] w2 Hw2 _ _. by apply good_populate_cur.
Qed.

(** ** Reading and changing *)

Lemma good_content q c u w :
  desk_wf w → good (on_cnode q (λ n, with_content (c n) (u n) n)) (λ _ _, True) w.
Proof.
  intros Hw. eapply good_mono; [apply good_mild; [done|]|done]. intros n Hn.
  split_and!; [done|done|by left|exact (node_fid w q n Hw Hn)].
Qed.
Lemma aside_read_cached uid w : aside (read_cached uid) (λ _, True) w.
Proof. eapply aside_bind; [apply aside_look|]. by intros [e|b] w1 _ _. Qed.

Context (uuid : nat → string).
Lemma good_next_uuid w : desk_wf w → good (next_uuid uuid) (λ _ _, True) w.
Proof. intros Hw. destruct (keeps_wf w (next_uuid uuid w).1 Hw) as [? ?]; [done|]. by split_and!. Qed.
Lemma good_read_begin s w :
  desk_wf w → good (read_begin uuid s) (λ r w', match r with inr q => live w' q | inl _ => True end) w.
Proof.
  intros Hw. unfold read_begin. eapply good_bind; [by apply good_handler|]. intros h w1 Hw1 _ (-> & _ & _ & Hc).
  eapply good_bind; [by apply good_node_at|]. intros cur w2 Hw2 _ [-> Hcur].
  destruct (child cur s) as [q|] eqn:Hq; [|by apply good_throw].
  assert (live w q) as Hlq by (eapply hangs_live; by eapply child_hangs).
  eapply good_bind; [by apply good_node_at|]. intros n w3 Hw3 _ [-> Hn]. case_decide; [by apply good_throw|].
  destruct (contentCached n).
  - eapply good_bind; [apply good_aside; [done|apply aside_read_cached]|]. intros b w4 Hw4 _ _. by apply good_ret.
  - eapply good_bind; [by apply good_next_uuid|]. intros uid w4 Hw4 (Hl4 & _) _.
    eapply good_bind; [by apply good_content|]. intros [] w5 Hw5 (Hl5 & _) _. apply good_ret; [done|]. by apply Hl5, Hl4.
Qed.
Lemma good_read_fetch s q w : desk_wf w → live w q → good (read_fetch rpc s q) (λ _ _, True) w.
Proof.
  intros Hw Hq. unfold read_fetch. eapply good_bind; [by apply good_handler|]. intros h w1 Hw1 _ (-> & _ & _ & Hc).
  eapply good_bind; [by apply good_node_at|]. intros cur w2 Hw2 _ [-> Hcur].
  eapply good_bind; [by apply good_node_at|]. intros n w3 Hw3 _ [-> Hn].
  apply good_aside; [done|]. apply aside_download; [by apply desk_linked|by eapply node_fid].
Qed.
Lemma good_read_finish q w : desk_wf w → live w q → good (read_finish q) (λ _ _, True) w.
Proof.
  intros Hw Hq. unfold read_finish. eapply good_bind; [by apply good_content|]. intros [] w1 Hw1 (Hl & _) _.
  eapply good_bind; [apply good_node_at; [done|by apply Hl]|]. intros n w2 Hw2 _ [-> Hn].
  apply good_aside; [done|apply aside_read_cached].
Qed.
Lemma good_ReadFile s w : desk_wf w → good (Cache.ReadFile rpc uuid s) (λ _ _, True) w.
Proof.
  intros Hw. unfold Cache.ReadFile. eapply good_bind; [by apply good_read_begin|]. intros [b|q] w1 Hw1 _ Hq; [by apply good_ret|].
  eapply good_bind; [by apply good_read_fetch|]. intros [] w2 Hw2 (Hl & _) _. apply good_read_finish; [done|by apply Hl].
Qed.
End tree.
