(* ===== verification/CacheSafe.v ===== *)
(** * Every operation of the cache of the client keeps its tree

    The remaining operations of Cache.v on a tree: those that walk it have enough fuel
    because a path is no longer than the nodes are many.  [CacheOp] is what the user and
    the server can do to the cache. *)
From S2P Require Import Prelude GoStd Domain Disk Client Cache CacheSpec.
#[global] Open Scope Z_scope.

Section safe.
Context {D : Type} `{LocalFS D}.
Implicit Types (w : Desk D) (p q : positive) (n : CNode) (h : CacheHandler).
Context (rpc : nat → ∀ A, Call A → Reply A) (Hgives : gives_fids rpc) (uuid : nat → string).
Context (range : gmap string positive → list (string * positive)).
Context (Hrange : ∀ m, range m ≡ₚ map_to_list m).
Lemma entry_in_range m kv : kv ∈ range m ↔ m !! kv.1 = Some kv.2.
Proof. rewrite (Hrange m). destruct kv. apply elem_of_map_to_list. Qed.

(** ** Depths *)

Definition deep w p (k : nat) : Prop := ∃ h depth, cache w = Some h ∧ tree (cnodes w) (chRoot h) depth ∧ depth p = k.
Lemma deep_ex w p : desk_wf w → ∃ k, deep w p k.
Proof. intros Hw. destruct (d_tree _ Hw) as (h & depth & Hh & Ht & _). by exists (depth p), h, depth. Qed.
Lemma deep_bound w p k : deep w p k → live w p → (k < size (cnodes w))%nat.
Proof. intros (h & depth & _ & Ht & <-) Hp. by eapply depth_bound. Qed.
Lemma deep_up w p n q k : deep w p k → cnodes w !! p = Some n → cnParent n = Some q → ∃ j, k = S j ∧ deep w q j ∧ live w q.
Proof.
  intros (h & depth & Hh & Ht & <-) Hn Hq. destruct (t_up _ _ _ Ht _ _ _ Hn Hq) as [Hlive Hd].
  exists (depth q). split; [done|]. split; [by exists h, depth|done].
Qed.
Lemma deep_down w p s q k : deep w p k → hangs w p s q → deep w q (S k).
Proof.
  intros (h & depth & Hh & Ht & <-) (c & Hc & Hp & _). destruct (t_up _ _ _ Ht _ _ _ Hc Hp) as [_ Hd]. by exists h, depth.
Qed.
Lemma deep_stable w w' p k : deep w p k → live w p → desk_wf w' → grows w w' → deep w' p k.
Proof.
  intros (h & depth & Hh & Ht & <-) Hp Hw' (Hl & Hhang & Hr). destruct (d_tree _ Hw') as (h' & depth' & Hh' & Ht' & _).
  exists h', depth'. split; [done|]. split; [done|]. rewrite Hh, Hh' in Hr. injection Hr as Hr.
  remember (depth p) as k eqn:Hk. revert p Hp Hk. induction k as [|k IH]; intros p [n Hn] Hk.
  - destruct (cnParent n) as [q|] eqn:Hq; [destruct (t_up _ _ _ Ht _ _ _ Hn Hq); lia|].
    rewrite (t_top _ _ _ Ht _ _ Hn Hq), <-Hr. apply (t_depth _ _ _ Ht').
  - destruct (cnParent n) as [q|] eqn:Hq; [|pose proof (t_top _ _ _ Ht _ _ Hn Hq); subst; rewrite (t_depth _ _ _ Ht) in Hk; done].
    destruct (t_up _ _ _ Ht _ _ _ Hn Hq) as [Hlq Hd]. destruct (Hhang q (cnName n) p) as (n' & Hn' & Hp' & _); [by exists n|].
    destruct (t_up _ _ _ Ht' _ _ _ Hn' Hp') as [_ Hd']. rewrite Hd', (IH q Hlq); lia.
Qed.
(** The node the client is in, and that it has not moved. *)
Definition here w p : Prop := ∃ h, cache w = Some h ∧ chCurr h = p ∧ live w p.

(** ** Walks *)

Lemma good_retouch p f w :
  desk_wf w → (∀ n, cnodes w !! p = Some n → cnParent (f n) = cnParent n ∧ cnName (f n) = cnName n
    ∧ (∀ s q, child (f n) s = Some q → child n s = Some q) ∧ cnFid (f n) = cnFid n) →
  good (on_cnode p f) (λ _ w', w' = (on_cnode p f w).1) w.
Proof.
  intros Hw Hf. apply good_mild; [done|]. intros n Hn. destruct (Hf n Hn) as (? & ? & Hch & Hfid).
  split_and!; [done|done|intros s q Hc; left; auto|rewrite Hfid; by eapply node_fid].
Qed.
Lemma good_all_nodes w : desk_wf w → good all_nodes (λ k w', w' = w ∧ k = S (size (cnodes w))) w.
Proof. intros Hw. by apply (good_gets (λ w, S (size (cnodes w)))). Qed.

Lemma good_add_sizes fuel o size w :
  desk_wf w → (∀ p, o = Some p → live w p ∧ ∃ k, deep w p k ∧ (k < fuel)%nat) →
  good (add_sizes fuel o size) (λ _ _, True) w.
Proof.
  revert o w. induction fuel as [|fuel IH]; intros [p|] w Hw Ho; simpl; try by apply good_ret.
  { destruct (Ho p eq_refl) as (_ & k & _ & Hk). lia. }
  destruct (Ho p eq_refl) as (Hp & k & Hd & Hk).
  eapply good_bind; [by apply good_node_at|]. intros n w1 Hw1 _ [-> Hn].
  eapply good_bind; [apply good_retouch; [done|by intros n' Hn']|]. intros [] w2 Hw2 Hg _. apply IH; [done|].
  intros q Hq. destruct (deep_up _ _ _ _ _ Hd Hn Hq) as (j & -> & Hdq & Hlq). split; [by apply (proj1 Hg)|].
  exists j. split; [by eapply deep_stable|lia].
Qed.

Lemma child_default n s q : default ∅ (cnChildren n) !! s = Some q → child n s = Some q.
Proof. unfold child. by destruct (cnChildren n). Qed.

(** A loop over entries that keeps [I] beside the tree. *)
Lemma good_loop {A} (f : A → M (Desk D) unit) (l : list A) (I : Desk D → Prop) w :
  desk_wf w → I w → (∀ x w', x ∈ l → desk_wf w' → grows w w' → I w' → good (f x) (λ _, I) w') → good (for_each l f) (λ _, I) w.
Proof.
  revert w. induction l as [|x l IH]; intros w Hw Hi Hf; [by apply good_ret|]. simpl.
  eapply good_bind; [apply Hf; [by left|done|apply desk_grows_refl|done]|]. intros [] w1 Hw1 Hg Hi1. apply IH; [done..|].
  intros y w2 Hy Hw2 Hg2. apply Hf; [by right|done|by eapply desk_grows_trans].
Qed.
(** Deleting below [p] takes the nodes below it, of which there are enough for the fuel. *)
Lemma good_recursiveDelete fuel p s k w :
  desk_wf w → live w p → deep w p k → size (cnodes w) = s → (s < fuel + k)%nat →
  good (recursiveDelete range fuel p) (λ _ w', size (cnodes w') = s) w.
Proof.
  revert p k w. induction fuel as [|fuel IH]; intros p k w Hw Hp Hd Hs Hf.
  { pose proof (deep_bound _ _ _ Hd Hp). lia. }
  simpl. eapply good_bind; [by apply good_node_at|]. intros n w1 Hw1 _ [-> Hn].
  apply good_loop; [done|done|]. intros [name q] w2 Hin%entry_in_range Hw2 Hg2 Hs2. simpl in *.
  assert (hangs w p name q) as Hh.
  { apply (child_hangs w p n); [done|done|by apply child_default]. }
  assert (hangs w2 p name q) as Hh2 by by apply (proj1 (proj2 Hg2)).
  eapply good_bind; [apply good_node_at; [done|by eapply hangs_live]|]. intros c w3 Hw3 _ [-> Hc].
  eapply good_bind with (Q := λ _ w', size (cnodes w') = s).
  { eapply good_mono; [apply good_retouch; [done|]|].
    - intros n' Hn'. split_and!; [done|done| |done]. unfold child. simpl. destruct (cnChildren n'); simpl; [|done].
      intros t r [_ ?]%lookup_delete_Some. done.
    - intros _ w4 _ _ ->. simpl. by rewrite <-(size_dom (D := gset positive)), dom_alter_L, size_dom. }
  intros [] w4 Hw4 Hg4 Hs4. destruct (_ && _).
  - eapply good_bind; [apply aside_good; [done|apply aside_disk]|]. intros r w5 Hw5 _ [(_ & Hn5 & _) _].
    apply good_ret; [done|congruence].
  - case_decide; [|by apply good_ret]. apply (IH q (S k)); [done| | |done|lia].
    + apply (proj1 Hg4). by eapply hangs_live.
    + eapply deep_stable; [|by eapply hangs_live|done|done]. eapply deep_down; [|done].
      by eapply deep_stable.
Qed.

(** Walks that only look. *)
Lemma good_names_up fuel h p path k w :
  desk_wf w → cache w = Some h → live w p → deep w p k → (k ≤ fuel)%nat →
  good (names_up fuel (chRoot h) p path) (λ _ w', w' = w) w.
Proof.
  intros Hw Hh. revert p path k. induction fuel as [|fuel IH]; intros p path k Hp Hd Hk; simpl.
  all: case_decide as Hroot; [by apply good_ret|]; destruct Hp as [n Hn].
  all: destruct (cnParent n) as [q|] eqn:Hq;
    [|destruct Hd as (h' & depth & Hh' & Ht & _); assert (h' = h) as -> by congruence;
      by destruct (Hroot (t_top _ _ _ Ht _ _ Hn Hq))].
  all: destruct (deep_up _ _ _ _ _ Hd Hn Hq) as (j & -> & Hdq & Hlq). 1: lia.
  eapply good_bind; [apply good_node_at; [done|by exists n]|]. intros n' w1 Hw1 _ [-> Hn'].
  assert (n' = n) as -> by congruence. rewrite Hq. apply (IH _ _ j); [done|done|lia].
Qed.
(** The nodes a walk down from [p] comes to. *)
Inductive below w : positive → positive → Prop :=
  | below_self p : below w p p
  | below_entry p n s c q : cnodes w !! p = Some n → child n s = Some c → below w c q → below w p q.
Definition has_fid w (fid : FID) q : Prop := ∃ n, cnodes w !! q = Some n ∧ FID_String <$> cnFid n = Some (FID_String fid).
(** A search that finds a node with the FID below one of [ps], or says there is none. *)
Definition searches (m : M (Desk D) (option (positive * string))) fid (ps : list positive) w : Prop :=
  ∃ r, m w = (w, Ok r) ∧ match r with Some x => has_fid w fid x.1 ∧ ∃ p, p ∈ ps ∧ below w p x.1 | None => ∀ p q, p ∈ ps → below w p q → ¬ has_fid w fid q end.
Lemma find_in_searches search fid l path w :
  (∀ kv, kv ∈ l → live w kv.2 ∧ ∀ path, searches (search kv.2 path) fid [kv.2] w) → searches (find_in search l path) fid l.*2 w.
Proof.
  induction l as [|[s q] l IH]; intros Hs; simpl; [by exists None; split; [|intros p q ?%elem_of_nil]|].
  destruct (Hs (s, q)) as [[c Hc] Hfind]; [by left|]. destruct IH as (r' & Hrest & Hr'); [intros kv Hkv; apply Hs; by right|].
  destruct (Hfind (path +:+ "/" +:+ cnName c)) as (r & Hrun & Hr). simpl in *. unfold searches, mbind, M_bind, node_at. rewrite Hc, Hrun.
  destruct r as [x|].
  { exists (Some x). split; [done|]. destruct Hr as (Hx & p & ->%list_elem_of_singleton & Hb). split; [done|].
    exists q. split; [by left|done]. }
  exists r'. split; [done|]. destruct r' as [x|].
  { destruct Hr' as (Hx & p & Hp & Hb). split; [done|]. exists p. split; [by right|done]. }
  intros p t [->|Hp]%elem_of_cons; [apply Hr; by left|by apply Hr'].
Qed.
Lemma findNodeByFID_searches fuel fid p path k w :
  desk_wf w → live w p → deep w p k → (size (cnodes w) < fuel + k)%nat → searches (findNodeByFID range fuel fid p path) fid [p] w.
Proof.
  intros Hw. revert p path k. induction fuel as [|fuel IH]; intros p path k Hp Hd Hf.
  { pose proof (deep_bound _ _ _ Hd Hp). lia. }
  destruct Hp as [n Hn]. simpl. unfold searches, mbind, M_bind, node_at. rewrite Hn. case_bool_decide as Hfid.
  { exists (Some (p, path)). split; [done|]. split; [by exists n|]. exists p. split; [by left|constructor]. }
  destruct (find_in_searches (findNodeByFID range fuel fid) fid (range (default ∅ (cnChildren n))) path w) as (r & Hrun & Hr).
  { intros [s q] Hin%entry_in_range%child_default. assert (hangs w p s q) as Hh by by apply (child_hangs w p n).
    split; [by eapply hangs_live|]. intros path'. apply (IH _ _ (S k)); [by eapply hangs_live|by eapply deep_down|lia]. }
  exists r. split; [done|]. destruct r as [x|].
  { destruct Hr as (Hx & c & ([s q] & -> & Hin%entry_in_range%child_default)%list_elem_of_fmap & Hb). split; [done|].
    exists p. split; [by left|]. by eapply below_entry. }
  intros p' q ->%list_elem_of_singleton Hq.
  destruct Hq as [p|p n' s c q Hn' Hc Hq]; [intros (n' & Hn' & Hm); congruence|]. assert (n' = n) as -> by congruence.
  apply (Hr c); [|done]. apply list_elem_of_fmap. exists (s, c). split; [done|]. apply entry_in_range. simpl.
  unfold child in Hc. by destruct (cnChildren n).
Qed.
Lemma good_findNodeByFID fuel fid p path k w :
  desk_wf w → live w p → deep w p k → (size (cnodes w) < fuel + k)%nat →
  good (findNodeByFID range fuel fid p path) (λ r w', w' = w ∧ ∀ x, r = Some x → live w x.1) w.
Proof.
  intros Hw Hp Hd Hf. destruct (findNodeByFID_searches fuel fid p path k w Hw Hp Hd Hf) as (r & Hrun & Hr).
  unfold good. rewrite Hrun. do 2 (split; [done|]). split; [done|]. intros x ->. destruct Hr as ((n & Hn & _) & _). by exists n.
Qed.

(** ** Changing *)

Lemma good_CreateDirectory s w : desk_wf w → good (Cache.CreateDirectory rpc s) (λ i _, is_Some (fiFID i)) w.
Proof.
  intros Hw. unfold Cache.CreateDirectory, Client.CreateDirectory.
  eapply good_bind; [apply aside_good; [done|]; by apply (aside_create rpc Hgives), desk_linked|].
  intros i w1 Hw1 _ [_ Hi]. eapply good_bind; [by apply good_handler|]. intros h w2 Hw2 _ (-> & Hh & _ & Hc).
  eapply good_bind; [apply (good_new_node _ (chCurr h)); try done; intros t; by apply lookup_empty|].
  intros q w3 Hw3 Hg3 [Hq Hcache]. eapply good_bind; [apply good_put_child; [done|congruence|by apply (proj1 Hg3)|done]|].
  intros [] w4 Hw4 _ _. by apply good_ret.
Qed.
Lemma good_CreateFile s w : desk_wf w → good (Cache.CreateFile rpc s) (λ i _, is_Some (fiFID i)) w.
Proof.
  intros Hw. unfold Cache.CreateFile, Client.CreateFile.
  eapply good_bind; [apply aside_good; [done|]; by apply (aside_create rpc Hgives), desk_linked|].
  intros i w1 Hw1 _ [_ Hi]. eapply good_bind; [by apply good_handler|]. intros h w2 Hw2 _ (-> & Hh & _ & Hc).
  eapply good_bind; [by apply (good_new_node _ (chCurr h))|].
  intros q w3 Hw3 Hg3 [Hq Hcache]. eapply good_bind; [apply good_put_child; [done|congruence|by apply (proj1 Hg3)|done]|].
  intros [] w4 Hw4 _ _. by apply good_ret.
Qed.
Lemma good_enter_upload name dir size fid w : desk_wf w → is_Some fid → good (enter_upload name dir size fid) (λ _ _, True) w.
Proof.
  intros Hw Hfid. unfold enter_upload. eapply good_bind; [by apply good_handler|]. intros h w4 Hw4 _ (-> & Hh & _ & Hc).
  eapply good_bind; [by apply (good_new_node _ (chCurr h))|].
  intros q w5 Hw5 Hg5 [Hq Hcache]. assert (live w5 (chCurr h)) as Hc5 by by apply (proj1 Hg5).
  eapply good_bind; [apply good_put_child; [done|congruence|done|done]|].
  intros [] w6 Hw6 Hg6 _. eapply good_bind; [by apply good_all_nodes|]. intros k w7 Hw7 _ [-> ->].
  assert (live w6 (chCurr h)) as Hc6 by by apply (proj1 Hg6).
  apply good_add_sizes; [done|]. intros p [= <-]. split; [done|]. destruct (deep_ex w6 (chCurr h) Hw6) as [d Hd].
  exists d. split; [done|]. pose proof (deep_bound _ _ _ Hd Hc6). lia.
Qed.
Lemma good_Upload fuel s w :
  desk_wf w → upload_fits fuel s w → good (Cache.Upload rpc fuel s) (λ _ _, True) w.
Proof.
  intros Hw Hfits. unfold Cache.Upload.
  eapply good_bind; [apply (good_gets (λ w, os_Stat s (cdisk w))); done|]. intros stat w1 Hw1 _ [-> ->].
  destruct (os_Stat s (cdisk w)) as [e|size]; [by apply good_throw|].
  eapply good_bind; [apply (good_gets (λ w, os_IsDir s (cdisk w))); done|]. intros dir w2 Hw2 _ [-> ->].
  eapply good_bind; [apply aside_good; [done|]; by apply (aside_Upload rpc Hgives); [apply desk_linked|]|].
  intros fid w3 Hw3 _ [_ Hfid]. by apply good_enter_upload.
Qed.

Lemma good_enter p w : desk_wf w → live w p → good (enter p) (λ _ _, True) w.
Proof.
  intros Hw Hp. unfold enter. eapply good_bind with (Q := λ _ w', cnodes w' = cnodes w).
  { destruct Hw as [Hon Hr Hc (h & depth & Hh & Ht & Hcur)]. split; [split; simpl; try done|].
    - exists (mkCacheHandler (chRoot h) p), depth. by rewrite Hh.
    - split; [|done]. split_and!; [done|done|]. simpl. by rewrite Hh. }
  intros [] w1 Hw1 _ Hn1. eapply good_bind; [apply good_node_at; [done|]; unfold live; by rewrite Hn1|].
  intros n w2 Hw2 _ [-> Hn]. unfold ChangeCurrentFID. eapply good_mono; [apply good_on_client; [done|exact (d_on _ Hw1)| |]|done].
  - by apply linked_root, desk_linked.
  - by eapply node_fid.
Qed.
Lemma good_chdir_client s (k : M (Desk D) unit) w :
  desk_wf w → (∀ w', desk_wf w' → grows w w' → good k (λ _ _, True) w') →
  good (Client.ChangeDirectory rpc s ;; k) (λ _ _, True) w.
Proof. intros Hw Hk. eapply good_bind; [by apply good_ChangeDirectory|]. intros f w1 Hw1 Hg1 _. by apply Hk. Qed.
Lemma good_chdir s w : desk_wf w → good (Cache.ChangeDirectory rpc s) (λ _ _, True) w.
Proof.
  intros Hw. unfold Cache.ChangeDirectory. destruct (_ || _); [by apply good_throw|].
  eapply good_bind; [by apply good_handler|]. intros h w1 Hw1 _ (-> & Hh & Hr & Hc).
  case_decide; [|case_decide].
  - apply good_chdir_client; [done|]. intros w2 Hw2 Hg2. eapply good_bind; [apply good_enter; [done|by apply (proj1 Hg2)]|].
    intros [] w3 Hw3 _ _. by apply good_populate_cur.
  - case_decide; [by apply good_throw|]. apply good_chdir_client; [done|]. intros w2 Hw2 Hg2.
    eapply good_bind; [apply good_node_at; [done|by apply (proj1 Hg2)]|]. intros n w3 Hw3 _ [-> Hn].
    eapply good_bind; [apply good_enter; [done|]|intros [] w4 Hw4 _ _; by apply good_populate_cur].
    destruct (cnParent n) as [q|] eqn:Hq; [|by apply (proj1 Hg2)]. destruct (deep_ex w2 (chCurr h) Hw2) as [d Hd].
    by destruct (deep_up _ _ _ _ _ Hd Hn Hq) as (j & _ & _ & Hlq).
  - eapply good_bind; [by apply good_node_at|]. intros cur w2 Hw2 _ [-> Hcur].
    destruct (child cur s) as [q|] eqn:Hq; [|by apply good_throw].
    assert (live w q) as Hlq by (eapply hangs_live; by eapply child_hangs).
    eapply good_bind; [by apply good_node_at|]. intros n w3 Hw3 _ [-> Hn]. case_decide; [by apply good_throw|].
    apply good_chdir_client; [done|]. intros w4 Hw4 Hg4. eapply good_bind; [apply good_enter; [done|by apply (proj1 Hg4)]|].
    intros [] w5 Hw5 _ _. by apply good_ignore, good_populate_cur.
Qed.

(** ** The trash *)

Lemma good_refresh_root w : desk_wf w → good (refresh_root rpc) (λ _ _, True) w.
Proof.
  intros Hw. unfold refresh_root. eapply good_bind; [by apply good_handler|]. intros h w1 Hw1 _ (-> & _ & Hr & _).
  by apply good_ignore, good_populate.
Qed.
(** The root is read again after the call. *)
Lemma good_then_root {A B} (m : M (Desk D) A) (k : A → M (Desk D) B) w :
  desk_wf w → aside m (λ _, True) w → (∀ a w', desk_wf w' → good (k a) (λ _ _, True) w') →
  good (a ← m; refresh_root rpc ;; k a) (λ _ _, True) w.
Proof.
  intros Hw Hm Hk. eapply good_bind; [by apply aside_good|]. intros a w1 Hw1 _ _.
  eapply good_bind; [by apply good_refresh_root|]. intros [] w2 Hw2 _ _. by apply Hk.
Qed.
Lemma aside_caught {A} (m : M (Desk D) A) w : aside m (λ _, True) w → aside (catch m) (λ _, True) w.
Proof. intros Hm. eapply aside_mono; [by apply aside_catch|done]. Qed.
Lemma good_ClearTrash w : desk_wf w → good (Cache.ClearTrash rpc) (λ _ _, True) w.
Proof.
  intros Hw. apply good_then_root; [done|by apply aside_ClearTrash, desk_linked|]. intros r w1 Hw1. by apply good_ret.
Qed.
Lemma good_DeleteFromTrash s w : desk_wf w → good (Cache.DeleteFromTrash rpc s) (λ _ _, True) w.
Proof.
  intros Hw. apply good_then_root; [done|by apply aside_caught, aside_DeleteFromTrash, desk_linked|].
  intros [e|[]] w1 Hw1; [by apply good_throw|by apply good_ret].
Qed.
Lemma good_TrashFile s rec w : desk_wf w → good (Cache.TrashFile rpc s rec) (λ _ _, True) w.
Proof.
  intros Hw. unfold Cache.TrashFile. eapply good_bind; [apply aside_good; [done|by apply aside_TrashFile, desk_linked]|].
  intros t w1 Hw1 _ _. eapply good_bind; [by apply good_handler|]. intros h w2 Hw2 _ (-> & _).
  eapply good_bind; [by apply good_drop_child|]. intros [] w3 Hw3 _ _. by apply good_ret.
Qed.
Lemma good_RestoreFile s w : desk_wf w → good (Cache.RestoreFile rpc s) (λ _ _, True) w.
Proof.
  intros Hw. unfold Cache.RestoreFile. eapply good_bind; [apply aside_good; [done|by apply aside_RestoreFile, desk_linked]|].
  intros t w1 Hw1 _ _. eapply good_bind; [by apply good_handler|]. intros h w2 Hw2 _ (-> & _ & _ & Hc).
  eapply good_bind; [by apply good_node_at|]. intros cur w3 Hw3 _ [-> _].
  eapply good_bind with (Q := λ _ _, True); [case_decide; [by apply good_drop_child|by apply good_ret]|].
  intros [] w4 Hw4 _ _. eapply good_bind; [by apply good_refresh_root|]. intros [] w5 Hw5 _ _. by apply good_ret.
Qed.
Lemma good_DeleteFile s rec w : desk_wf w → good (Cache.DeleteFile rpc range s rec) (λ _ _, True) w.
Proof.
  intros Hw. unfold Cache.DeleteFile. eapply good_bind; [apply aside_good; [done|by apply aside_DeleteFile, desk_linked]|].
  intros [] w1 Hw1 _ _. eapply good_bind; [by apply good_handler|]. intros h w2 Hw2 _ (-> & _ & _ & Hc).
  eapply good_bind; [by apply good_node_at|]. intros cur w3 Hw3 _ [-> Hcur].
  destruct (child cur s) as [q|] eqn:Hq; [|by apply good_ret].
  assert (live w1 q) as Hlq by (eapply hangs_live; by eapply child_hangs).
  eapply good_bind; [by apply good_node_at|]. intros n w4 Hw4 _ [-> _].
  eapply good_bind; [by apply good_all_nodes|]. intros fuel w5 Hw5 _ [-> ->].
  eapply good_bind with (Q := λ _ _, True); [|intros [] w6 Hw6 _ _; by apply good_drop_child].
  destruct (_ && _); [|by apply good_ret]. destruct (deep_ex w1 q Hw1) as [k Hk].
  eapply good_mono; [eapply good_recursiveDelete; [done|done|done|done|lia]|done].
Qed.

(** ** Looking, and callbacks *)

Lemma good_infos l w : desk_wf w → (∀ kv, kv ∈ l → live w kv.2) → good (infos l) (λ _ w', w' = w) w.
Proof.
  intros Hw. induction l as [|[s q] l IH]; intros Hl; simpl; [by apply good_ret|].
  eapply good_bind; [apply good_node_at; [done|apply (Hl (s, q)); by left]|]. intros n w1 Hw1 _ [-> _].
  eapply good_bind; [apply IH; intros kv Hkv; apply Hl; by right|]. intros rest w2 Hw2 _ ->. by apply good_ret.
Qed.
Lemma good_ListFiles w : desk_wf w → good (Cache.ListFiles range) (λ _ w', w' = w) w.
Proof.
  intros Hw. unfold Cache.ListFiles. eapply good_bind; [by apply good_handler|]. intros h w1 Hw1 _ (-> & _ & _ & Hc).
  eapply good_bind; [by apply good_node_at|]. intros n w2 Hw2 _ [-> Hn]. apply good_infos; [done|].
  intros [s q] Hin%entry_in_range. eapply hangs_live, (child_hangs w _ n); [done|done|]. by apply child_default.
Qed.
Lemma good_Path w : desk_wf w → good Cache.Path (λ _ w', w' = w) w.
Proof.
  intros Hw. unfold Cache.Path. eapply good_bind; [by apply good_handler|]. intros h w1 Hw1 _ (-> & Hh & Hr & Hc).
  eapply good_bind; [by apply (good_gets (λ w, display_name (vfs w)))|]. intros shown w2 Hw2 _ [-> _].
  eapply good_bind; [by apply good_node_at|]. intros root w3 Hw3 _ [-> _]. case_decide; [by apply good_ret|].
  eapply good_bind; [by apply good_all_nodes|]. intros fuel w4 Hw4 _ [-> ->].
  destruct (deep_ex w (chCurr h) Hw) as [k Hk]. pose proof (deep_bound _ _ _ Hk Hc).
  eapply good_bind; [eapply good_names_up; [done|done|done|done|lia]|]. intros path w5 Hw5 _ ->. by apply good_ret.
Qed.
Lemma good_InvalidateFileByFID fid w : desk_wf w → good (InvalidateFileByFID range fid) (λ _ _, True) w.
Proof.
  intros Hw. unfold InvalidateFileByFID. eapply good_bind; [by apply good_gets|]. intros o w1 Hw1 _ [-> ->].
  destruct (cache w) as [h|] eqn:Hh; [|by apply good_ret].
  assert (live w (chRoot h)) as Hr.
  { destruct (d_tree _ Hw) as (h' & depth & Hh' & Ht & _). assert (h' = h) as -> by congruence.
    destruct (t_root _ _ _ Ht) as (n & Hn & _). by exists n. }
  eapply good_bind; [by apply good_node_at|]. intros root w2 Hw2 _ [-> _].
  eapply good_bind; [by apply good_all_nodes|]. intros fuel w3 Hw3 _ [-> ->].
  destruct (deep_ex w (chRoot h) Hw) as [k Hk].
  eapply good_bind; [eapply good_findNodeByFID; [done|done|done|lia]|]. intros [[p path]|] w4 Hw4 _ [-> Hp]; [|by apply good_ret].
  specialize (Hp _ eq_refl). eapply good_bind; [by apply good_node_at|]. intros n w5 Hw5 _ [-> _].
  eapply good_bind with (Q := λ _ _, True); [|intros [] w6 Hw6 _ _; by apply good_ret].
  case_decide; [|by apply good_ret]. eapply good_bind with (Q := λ _ _, True); [|intros [] w6 Hw6 _ _; by apply good_content].
  destruct (_ && _); [|by apply good_ret]. eapply good_bind; [apply aside_good; [done|apply aside_disk]|].
  intros r w6 Hw6 _ _. by apply good_ret.
Qed.
Lemma good_Invalidate fid event w : desk_wf w → good (Invalidate range fid event) (λ _ _, True) w.
Proof.
  intros Hw. unfold Invalidate. destruct (FIDFromProto fid) as [f|]; [|by apply good_ret].
  eapply good_bind; [by apply good_InvalidateFileByFID|]. intros found w1 Hw1 _ _.
  eapply good_bind; [apply (aside_good _ (λ _, True)); done|].
  intros [] w2 Hw2 _ _. by apply good_ret.
Qed.
Lemma aside_clear_dir w : aside clear_dir (λ _, True) w.
Proof.
  unfold clear_dir. eapply aside_bind; [apply aside_look|]. intros [e|l] w1 _ _; [by apply aside_ret|].
  apply aside_for_each. intros e w2 _ _. eapply aside_bind; [apply aside_disk|]. intros r w3 _ _. by apply aside_ret.
Qed.
Lemma aside_ClearCache w : aside ClearCache (λ _, True) w.
Proof.
  unfold ClearCache. eapply aside_bind; [apply aside_look|]. intros [e|size] w1 _ _; [|apply aside_clear_dir].
  destruct (os_IsNotExist e); [by apply aside_ret|apply aside_clear_dir].
Qed.

Lemma good_callbacks l w : desk_wf w → good (callbacks range l) (λ _ _, True) w.
Proof.
  intros Hw. apply good_loop with (I := λ _, True); [done|done|]. intros [fid e] w1 _ Hw1 _ _.
  eapply good_bind; [by apply good_Invalidate|]. intros b w2 Hw2 _ _. by apply good_ret.
Qed.
Lemma good_ReadFile_during early late s w :
  desk_wf w → good (ReadFile_during rpc uuid range early late s) (λ _ _, True) w.
Proof.
  intros Hw. unfold ReadFile_during. eapply good_bind; [by apply good_read_begin|].
  intros [b|q] w1 Hw1 _ Hq; [by apply good_ret|]. eapply good_bind; [by apply good_callbacks|].
  intros [] w2 Hw2 (Hl2 & _) _. eapply good_bind; [by apply good_read_fetch; [done|apply Hl2]|].
  intros [] w3 Hw3 (Hl3 & _) _. eapply good_bind; [by apply good_callbacks|].
  intros [] w4 Hw4 (Hl4 & _) _. apply good_read_finish; [done|]. by apply Hl4, Hl3, Hl2.
Qed.

(** ** A cache from its start *)

(** An upload of a directory has enough fuel for the local disk. *)
Definition op_fits (op : CacheOp) w : Prop :=
  match op with DoUpload fuel s => upload_fits fuel s w | _ => True end.
Lemma good_then_unit {A} (m : M (Desk D) A) Q w : good m Q w → good (m ;; mret tt) (λ _ _, True) w.
Proof. intros Hm. eapply good_bind; [exact Hm|]. intros a w1 Hw1 _ _. by apply good_ret. Qed.
Lemma good_run_op op w : desk_wf w → op_fits op w → good (run_op rpc uuid range op) (λ _ _, True) w.
Proof.
  intros Hw Hfits. destruct op; simpl.
  - by apply good_Refresh.
  - by eapply good_then_unit, good_ReadFile_during.
  - by eapply good_then_unit, good_CreateDirectory.
  - by eapply good_then_unit, good_CreateFile.
  - by apply good_Upload.
  - by apply good_chdir.
  - by eapply good_then_unit, good_TrashFile.
  - by eapply good_then_unit, good_RestoreFile.
  - by apply good_DeleteFromTrash.
  - by eapply good_then_unit, good_ClearTrash.
  - by apply good_DeleteFile.
  - by eapply good_then_unit, good_ListFiles.
  - by eapply good_then_unit, good_Path.
  - apply good_aside; [done|apply aside_ClearCache].
  - by eapply good_then_unit, good_Invalidate.
Qed.

(** Filling a directory does not ask where the handler is. *)
Definition with_cache (o : option CacheHandler) w : Desk D :=
  mkDesk (vfs w) (calls w) (cdisk w) (cnodes w) o (notes w) (uuids w).
Lemma place_with_cache o p old files acc w :
  place p old files acc (with_cache o w) = let '(w', r) := place p old files acc w in (with_cache o w', r).
Proof.
  revert acc w. induction files as [|f files IH]; intros acc w; [done|]. simpl.
  destruct (old ≫= (.!! fiName f)) as [q|]; unfold mbind, M_bind; simpl.
  - exact (IH (<[fiName f:=q]> acc) (on_cnode q (relisted f p) w).1).
  - exact (IH (<[fiName f:=fresh (dom (cnodes w))]> acc) (new_node (listed f p) w).1).
Qed.
(** A client that is connected makes its cache. *)
Lemma NewCacheHandler_wf root w :
  linked w → cnodes w = ∅ → is_Some root →
  let w' := (NewCacheHandler rpc root w).1 in cache w' = None ∨ desk_wf w'.
Proof.
  intros Hl Hempty Hroot w'. subst w'. unfold NewCacheHandler, catch, mbind, M_bind.
  pose proof (aside_ListFiles rpc Hgives w Hl) as Ha. unfold aside in Ha.
  destruct (Client.ListFiles rpc w) as [w1 [files|e|y]]; [|by left|done]. destruct Ha as [Hk Hfiles].
  set (n := mkCNode "mydrive" InodeTypeDirectory root 0 (Some ∅) false "" None).
  set (p := fresh (dom (cnodes w1))). set (h := mkCacheHandler p p).
  unfold new_node. fold p. set (w2 := mkDesk _ _ _ (<[p:=n]> _) _ _ _).
  assert (desk_wf (with_cache (Some h) w2)) as Hw2.
  { assert (cnodes w1 = ∅) as Hn1 by (destruct Hk as (_ & -> & _); done).
    destruct (keeps_linked _ _ Hl Hk) as (? & ? & ?). split; [done..|]. exists h, (λ _, O). split; [done|]. simpl. rewrite Hn1.
    split; [|exists n; apply lookup_insert_eq]. split.
    - exists n. split; [apply lookup_insert_eq|done].
    - by intros q m r [[<- <-]|[_ []%lookup_empty_Some]]%lookup_insert_Some.
    - by intros q m [[<- <-]|[_ []%lookup_empty_Some]]%lookup_insert_Some.
    - intros q m s r [[<- <-]|[_ []%lookup_empty_Some]]%lookup_insert_Some. by intros []%(lookup_empty_Some s r).
    - by intros q m [[<- <-]|[_ []%lookup_empty_Some]]%lookup_insert_Some.
    - done. }
  assert (live (with_cache (Some h) w2) p) as Hp by (exists n; apply lookup_insert_eq).
  assert (good (place p None files ∅) (λ m w', ∀ s q, m !! s = Some q → hangs w' p s q) (with_cache (Some h) w2)) as Hgood.
  { apply good_place; [done|done|done|done|by intros s q ?%lookup_empty_Some]. }
  assert (∃ w3 m, place p None files ∅ w2 = (w3, Ok m)) as (w3 & m & Hplace).
  { clear -w2. generalize w2 as v. generalize (∅ : gmap string positive) as acc.
    induction files as [|f files IH]; intros acc v; [by exists v, acc|]. simpl. unfold mbind, M_bind. apply IH. }
  unfold good in Hgood. rewrite place_with_cache, Hplace in Hgood. destruct Hgood as (Hw3 & _ & Hm). rewrite Hplace. right.
  pose proof (good_set_children p m _ Hw3 Hm) as [Hw4 _]. exact Hw4.
Qed.

(** The states of a client from the time its cache is made. *)
Inductive ran : Desk D → Prop :=
  | ran_start root w : linked w → cnodes w = ∅ → is_Some root → cache (NewCacheHandler rpc root w).1 ≠ None →
      ran (NewCacheHandler rpc root w).1
  | ran_op op w : ran w → op_fits op w → ran (run_op rpc uuid range op w).1.
Lemma good_ends {A} (m : M (Desk D) A) Q w : good m Q w → desk_wf (m w).1.
Proof. unfold good. destruct (m w) as [w1 [a|e|y]]; by intros []. Qed.
Lemma ran_wf w : ran w → desk_wf w.
Proof.
  induction 1 as [root w Hl He Hr Hc|op w Hran IH Hfits].
  - by destruct (NewCacheHandler_wf root w Hl He Hr).
  - by eapply good_ends, good_run_op.
Qed.

(** C28. Whatever the server answers, as long as every success that names a file and every
    entry of a listing carries its FID ([gives_fids], which the handlers of the file server
    do), in whatever order the user's operations and the
    server's callbacks come, the nodes of the cache stay one tree: every node names its
    parent, which has it as an entry or has dropped it, every entry is a node, and no walk
    up or down meets a missing node or runs for ever.  The only panic an operation can
    end in is an assignment to the entries of the current directory when it has no map;
    the upload of a directory is taken to have the depth it is given.  Without FIDs the
    client dereferences nil ([CacheDemo.nil_fids_panic]). *)
Theorem cache_stays_a_tree w op w' r :
  ran w → op_fits op w → run_op rpc uuid range op w = (w', r) →
  desk_wf w' ∧ ∀ why, r = Panic why → why = nil_map ∧ stuck w'.
Proof.
  intros Hran Hfits Hrun. pose proof (good_run_op op w (ran_wf w Hran) Hfits) as Hgood.
  unfold good in Hgood. rewrite Hrun in Hgood. destruct r as [[]|e|y]; split; naive_solver.
Qed.
End safe.
