(* ===== verification/CacheRead.v ===== *)
(** * What a refresh, a read, a callback and an upload do

    The contents of the cache after the operations of Cache.v, when they succeed, against
    any server; and the file an upload sends. *)
From S2P Require Import Prelude GoStd Domain Disk Client Cache CacheSpec CacheSafe.
From S2P Require Handler.
#[global] Open Scope Z_scope.

Section refresh.
Context {D : Type} `{LocalFS D}.
Implicit Types (w : Desk D) (p q : positive) (n : CNode) (h : CacheHandler).
Context (rpc : nat → ∀ A, Call A → Reply A) (uuid : nat → string).
Context (range : gmap string positive → list (string * positive)).
Context (Hrange : ∀ m, range m ≡ₚ map_to_list m).

(** ** Refreshing *)

(** The node of an entry of a listing: the one that was there under the name, with its
    subtree and its content, or a new one. *)
Definition filled (old : option (gmap string positive)) p w (f : FileInfo) q (c : CNode) : Prop :=
  match old ≫= (.!! fiName f) with
  | Some q0 => q = q0 ∧ ∃ c0, cnodes w !! q0 = Some c0 ∧ c = relisted f p c0
  | None => c = listed f p
  end.
Definition only_nodes w w' : Prop := vfs w' = vfs w ∧ calls w' = calls w ∧ cdisk w' = cdisk w ∧ cache w' = cache w.

(** One entry: its node, which others of the directory are not. *)
Lemma place_one p old f w :
  (∀ s q, old ≫= (.!! s) = Some q → live w q) →
  ∃ w1 q c, (match old ≫= (.!! fiName f) with Some q => on_cnode q (relisted f p) ;; mret q | None => new_node (listed f p) end) w = (w1, Ok q)
    ∧ cnodes w1 !! q = Some c ∧ filled old p w f q c ∧ only_nodes w w1 ∧ (∀ r, live w r → live w1 r)
    ∧ (∀ r d, cnodes w !! r = Some d → old ≫= (.!! fiName f) ≠ Some r → cnodes w1 !! r = Some d)
    ∧ (∀ s, old ≫= (.!! s) = Some q → old ≫= (.!! fiName f) = Some q).
Proof.
  intros Hold. unfold filled. destruct (old ≫= (.!! fiName f)) as [q|] eqn:Hq.
  - destruct (Hold _ _ Hq) as [c0 Hc0]. eexists _, q, (relisted f p c0). split; [done|]. simpl.
    split; [by rewrite lookup_alter_eq, Hc0|]. split; [split; [done|by exists c0]|]. split; [done|].
    split; [|split; [|done]].
    + intros r [d Hd]. unfold live. simpl. destruct (decide (r = q)) as [->|Hne]; [rewrite lookup_alter_eq, Hd|rewrite lookup_alter_ne, Hd by done]; by eexists.
    + intros r d Hd Hne. rewrite lookup_alter_ne; [done|congruence].
  - set (q := fresh (dom (cnodes w))). assert (cnodes w !! q = None) as Hfresh by (apply not_elem_of_dom, is_fresh).
    eexists _, q, (listed f p). split; [done|]. simpl. split; [apply lookup_insert_eq|]. do 2 (split; [done|]).
    assert (∀ r d, cnodes w !! r = Some d → <[q:=listed f p]> (cnodes w) !! r = Some d) as Hold'.
    { intros r d Hd. rewrite lookup_insert_ne; [done|]. intros ->. congruence. }
    split; [intros r [d Hd]; exists d; by apply Hold'|]. split; [intros r d Hd _; by apply Hold'|].
    intros s Hs. destruct (Hold _ _ Hs) as [d Hd]. congruence.
Qed.
Lemma place_spec p old (files : list FileInfo) acc w :
  NoDup (fiName <$> files) → (∀ s t q, old ≫= (.!! s) = Some q → old ≫= (.!! t) = Some q → s = t) →
  (∀ s q, old ≫= (.!! s) = Some q → live w q) →
  ∃ w' m, place p old files acc w = (w', Ok m)
    ∧ (∀ f, f ∈ files → ∃ q c, m !! fiName f = Some q ∧ cnodes w' !! q = Some c ∧ filled old p w f q c)
    ∧ (∀ s, s ∉ fiName <$> files → m !! s = acc !! s)
    ∧ (∀ q c, cnodes w !! q = Some c → (∀ f, f ∈ files → old ≫= (.!! fiName f) ≠ Some q) → cnodes w' !! q = Some c)
    ∧ only_nodes w w'.
Proof.
  intros Hnd Hinj. revert acc w. induction files as [|f files IH]; intros acc w Hold.
  { exists w, acc. split; [done|]. split; [by intros f ?%elem_of_nil|]. done. }
  apply NoDup_cons in Hnd as [Hf Hnd].
  assert (∀ g r, g ∈ files → old ≫= (.!! fiName f) = Some r → old ≫= (.!! fiName g) ≠ Some r) as Hdiff.
  { intros g r Hg Hfr Hgr. apply Hf. rewrite (Hinj _ _ _ Hfr Hgr). by apply list_elem_of_fmap_2. }
  destruct (place_one p old f w Hold) as (w1 & q & c & Hrun & Hc & Hfill & Hon & Hlive & Hframe & Hother).
  destruct (IH Hnd (<[fiName f := q]> acc) w1) as (w2 & m & Hplace & Hfiles & Hm & Hfr & Hon2).
  { intros s r Hr. by apply Hlive, (Hold s). }
  exists w2, m. split; [simpl; unfold mbind, M_bind in *; by rewrite Hrun|]. split_and!.
  - intros g [->|Hg]%elem_of_cons.
    + exists q, c. split_and!; [|apply Hfr; [done|]|done].
      * rewrite (Hm _ Hf). apply lookup_insert_eq.
      * intros g Hg Hgq. by apply (Hdiff g q Hg (Hother _ Hgq)).
    + destruct (Hfiles g Hg) as (r & d & Hr & Hd & Hfl). exists r, d. split_and!; [done..|].
      unfold filled in *. destruct (old ≫= (.!! fiName g)) as [r0|] eqn:Hr0; [|done].
      destruct Hfl as (-> & c0 & Hc0 & ->). split; [done|]. exists c0. split; [|done].
      destruct (Hold _ _ Hr0) as [d0 Hd0]. rewrite (Hframe r0 d0 Hd0) in Hc0; [congruence|]. intros Hfr0. by apply (Hdiff g r0).
  - intros s Hs. rewrite fmap_cons, not_elem_of_cons in Hs. destruct Hs as [Hne Hs]. by rewrite (Hm _ Hs), lookup_insert_ne.
  - intros r d Hd Hne. apply Hfr; [apply Hframe; [done|apply Hne; by left]|]. intros g Hg. apply Hne. by right.
  - destruct Hon as (?&?&?&?), Hon2 as (?&?&?&?). unfold only_nodes. split_and!; congruence.
Qed.

(** What [infos] shows of an entry. *)
Definition shown w (kv : string * positive) : FileInfo :=
  match cnodes w !! kv.2 with
  | Some n => mkFileInfo (cnFid n) (cnName n) (cnType n) (cnSize n)
  | None => mkFileInfo None "" InodeTypeFile 0
  end.
Lemma infos_spec l w : (∀ kv, kv ∈ l → live w kv.2) → infos l w = (w, Ok (shown w <$> l)).
Proof.
  induction l as [|[s q] l IH]; intros Hl; [done|]. destruct (Hl (s, q)) as [n Hn]; [by left|]. simpl in *.
  unfold mbind, M_bind, node_at. rewrite Hn, IH by (intros kv Hkv; apply Hl; by right).
  unfold shown at 2. simpl. by rewrite Hn.
Qed.
(** A map with one node per entry of a listing shows the listing. *)
Lemma shows_listing w (m : gmap string positive) (files : list FileInfo) :
  NoDup (fiName <$> files) → (∀ s, s ∉ fiName <$> files → m !! s = None) →
  (∀ f, f ∈ files → ∃ q, m !! fiName f = Some q ∧ live w q ∧ shown w (fiName f, q) = f) →
  shown w <$> range m ≡ₚ files.
Proof.
  intros Hnd Hout Hin. rewrite (Hrange m).
  assert (∀ kv, kv ∈ map_to_list m → ∃ f, f ∈ files ∧ kv.1 = fiName f ∧ shown w kv = f) as Hkv.
  { intros [s q] Hs%elem_of_map_to_list. destruct (decide (s ∈ fiName <$> files)) as [Hf|Hf]; [|by rewrite (Hout s Hf) in Hs].
    apply list_elem_of_fmap in Hf as (f & -> & Hf). destruct (Hin f Hf) as (q' & Hq & _ & Hshow).
    assert (q' = q) as -> by congruence. by exists f. }
  apply NoDup_Permutation.
  - apply (NoDup_fmap_1 fiName). rewrite <-list_fmap_compose.
    rewrite (list_fmap_ext _ fst (map_to_list m)); [apply NoDup_fst_map_to_list|].
    intros i kv Hi. destruct (Hkv kv) as (f & _ & -> & ?); [by eapply list_elem_of_lookup_2|]. simpl. by f_equal.
  - by apply (NoDup_fmap_1 fiName).
  - intros f. rewrite list_elem_of_fmap. split.
    + intros (kv & -> & Hin'). by destruct (Hkv kv Hin') as (f & Hf & _ & ->).
    + intros Hf. destruct (Hin f Hf) as (q & Hq & _ & Hshow). exists (fiName f, q). split; [done|]. by apply elem_of_map_to_list.
Qed.

(** C31. When the server answers a refresh, listing the directory from the cache shows
    exactly the entries the server listed, with their identifiers, kinds and sizes, in
    some order: nothing of what the cache had before is left in the listing and nothing
    is missing, whatever the cache held. *)
Theorem refresh_then_ls w h n f l :
  desk_wf w → cache w = Some h → cnodes w !! chCurr h = Some n → cnFid n = Some f →
  rpc (length (calls w)) _ (ListDir (FID_ToProto f)) = Answered l → NoDup (Handler.entName <$> l) →
  ∃ w1 shown_entries, populateCurrentDirCache rpc w = (w1, Ok tt) ∧ Cache.ListFiles range w1 = (w1, Ok shown_entries)
    ∧ shown_entries ≡ₚ map info_of l.
Proof.
  intros Hw Hh Hn Hf Hl Hnd. pose proof (d_on _ Hw) as Hon.
  set (w0 := mkDesk (vfs w) (calls w ++ [mkSent (bearer_of (vfs w) (ListDir (FID_ToProto f))) (ListDir (FID_ToProto f))])
    (cdisk w) (cnodes w) (cache w) (notes w) (uuids w)).
  destruct (place_spec (chCurr h) (cnChildren n) (map info_of l) ∅ w0) as (w2 & m & Hplace & Hfiles & Hm & Hfr & Hon2).
  { by rewrite <-list_fmap_compose. }
  { intros s t q Hs Ht. destruct (child_hangs w _ n s q Hw Hn Hs) as (c & Hc & _ & <-).
    destruct (child_hangs w _ n t q Hw Hn Ht) as (c' & Hc' & _ & <-). congruence. }
  { intros s q Hs. by eapply hangs_live, (child_hangs w _ n s q). }
  set (w1 := (on_cnode (chCurr h) (with_children (Some m)) w2).1).
  assert (populateCurrentDirCache rpc w = (w1, Ok tt)) as Hrun.
  { unfold populateCurrentDirCache, handler, populateNodeCache, node_at, gets, mbind, M_bind. rewrite Hh. simpl. rewrite Hn, Hf.
    unfold ListFilesAt, call, ask, invoke, mbind, M_bind. rewrite Hon, Hl. fold w0. simpl. by rewrite Hplace. }
  assert (cnodes w2 !! chCurr h = Some n) as Hn2.
  { apply Hfr; [done|]. intros g _ Hg. destruct (child_hangs w _ n _ _ Hw Hn Hg) as (c & Hc & Hp & _).
    assert (c = n) as -> by congruence. destruct (d_tree _ Hw) as (h' & depth & _ & Ht & _).
    destruct (t_up _ _ _ Ht _ _ _ Hn Hp) as [_ Hd]. lia. }
  assert (∀ g, g ∈ map info_of l → ∃ q, m !! fiName g = Some q ∧ live w1 q ∧ shown w1 (fiName g, q) = g) as Hshow.
  { intros g Hg. destruct (Hfiles g Hg) as (q & c & Hq & Hc & Hfill). exists q. split; [done|].
    assert (cnFid c = fiFID g ∧ cnName c = fiName g ∧ cnType c = fiType g ∧ cnSize c = fiSize g) as (E1 & E2 & E3 & E4).
    { unfold filled in Hfill. destruct (_ ≫= _) as [q0|]; [destruct Hfill as (_ & c0 & _ & ->)|subst c]; done. }
    unfold live, shown, w1. simpl. destruct (decide (q = chCurr h)) as [->|Hne].
    - rewrite lookup_alter_eq, Hc. split; [by eexists|]. simpl. rewrite E1, E2, E3, E4. by destruct g.
    - rewrite lookup_alter_ne, Hc by done. split; [by eexists|]. rewrite E1, E2, E3, E4. by destruct g. }
  exists w1, (shown w1 <$> range m). split; [done|]. split; [|by apply shows_listing; [rewrite <-list_fmap_compose|intros s Hs; by rewrite (Hm s Hs)|]].
  destruct Hon2 as (_ & _ & _ & Hc2). unfold Cache.ListFiles, handler, node_at, gets, mbind, M_bind.
  unfold w1 at 1 2 3 4. simpl. rewrite Hc2. simpl. rewrite Hh. simpl. rewrite lookup_alter_eq, Hn2. simpl.
  apply infos_spec. intros [s q]. rewrite (Hrange m). intros Hs%elem_of_map_to_list. simpl.
  destruct (decide (s ∈ fiName <$> map info_of l)) as [Hin|Hin]; [|by rewrite (Hm s Hin), lookup_empty in Hs].
  apply list_elem_of_fmap in Hin as (g & -> & Hg). destruct (Hshow g Hg) as (q' & Hq' & Hlive & _).
  assert (q' = q) as <- by congruence. done.
Qed.
End refresh.

Section reading.
Context {D : Type} `{LocalFS D}.
Implicit Types (w : Desk D) (p q : positive) (n : CNode) (h : CacheHandler).
Context (rpc : nat → ∀ A, Call A → Reply A) (uuid : nat → string).

(** ** Reading *)

(** The entry [s] of the current directory is the file [q]. *)
Definition file_here w (s : string) q n : Prop :=
  ∃ h cur, cache w = Some h ∧ cnodes w !! chCurr h = Some cur ∧ child cur s = Some q ∧ cnodes w !! q = Some n
    ∧ cnType n = InodeTypeFile.
Lemma read_cached_eq uid w b w' : read_cached uid w = (w', Ok b) ↔ w' = w ∧ os_ReadFile (CacheDir +:+ "/" +:+ uid) (cdisk w) = inr b.
Proof.
  unfold read_cached, look, gets, mbind, M_bind. destruct (os_ReadFile _ _) as [e|b']; simpl.
  - split; [done|]. by intros [_ ?].
  - split; [by intros [= -> ->]|]. by intros [-> [= ->]].
Qed.
Lemma read_begin_hit w s q n b :
  file_here w s q n → contentCached n = true → os_ReadFile (CacheDir +:+ "/" +:+ contentUID n) (cdisk w) = inr b →
  read_begin uuid s w = (w, Ok (inl b)).
Proof.
  intros (h & cur & Hh & Hcur & Hq & Hn & Ht) Hc Hb. unfold read_begin, handler, node_at, gets, mbind, M_bind. rewrite Hh. simpl.
  rewrite Hcur, Hq, Hn. rewrite decide_False by (intros Hne; by apply Hne). rewrite Hc.
  by rewrite (proj2 (read_cached_eq (contentUID n) w b w) (conj eq_refl Hb)).
Qed.
Definition begun w q : Desk D :=
  (on_cnode q (λ n, with_content (contentCached n) (uuid (uuids w)) n)
     (mkDesk (vfs w) (calls w) (cdisk w) (cnodes w) (cache w) (notes w) (S (uuids w)))).1.
Lemma read_begin_miss w s q n :
  file_here w s q n → contentCached n = false → read_begin uuid s w = (begun w q, Ok (inr q)).
Proof.
  intros (h & cur & Hh & Hcur & Hq & Hn & Ht) Hc. unfold read_begin, handler, node_at, gets, mbind, M_bind. rewrite Hh. simpl.
  rewrite Hcur, Hq, Hn. rewrite decide_False by (intros Hne; by apply Hne). by rewrite Hc.
Qed.
(** What a read that is not refused found. *)
Lemma read_begin_inv w s w1 r :
  desk_wf w → read_begin uuid s w = (w1, Ok r) →
  ∃ q n, file_here w s q n ∧ ((contentCached n = true ∧ w1 = w ∧ ∃ b, r = inl b ∧ os_ReadFile (CacheDir +:+ "/" +:+ contentUID n) (cdisk w) = inr b)
    ∨ (contentCached n = false ∧ w1 = begun w q ∧ r = inr q)).
Proof.
  intros Hw. destruct (d_tree _ Hw) as (h & depth & Hh & Ht & [cur Hcur]).
  unfold read_begin, handler, node_at, gets, mbind, M_bind. rewrite Hh. simpl. rewrite Hcur.
  destruct (child cur s) as [q|] eqn:Hq; [|done]. destruct (cnodes w !! q) as [n|] eqn:Hn; [|done].
  destruct (decide (cnType n ≠ InodeTypeFile)) as [|Hty%dec_stable]; [done|]. intros Hrun.
  exists q, n. split; [by exists h, cur|]. destruct (contentCached n) eqn:Hc.
  - left. destruct (read_cached (contentUID n) w) as [w2 [b|e|y]] eqn:Hb; [|done|done].
    apply read_cached_eq in Hb as [-> Hb]. injection Hrun as <- <-. split; [done|]. split; [done|]. by exists b.
  - right. by injection Hrun as <- <-.
Qed.
(** Storing where the content is does not move the file. *)
Lemma file_here_alter w w' s q n (f : CNode → CNode) :
  file_here w s q n → cache w' = cache w → cnodes w' = alter f q (cnodes w) →
  (∀ m, cnType (f m) = cnType m ∧ cnChildren (f m) = cnChildren m) → file_here w' s q (f n).
Proof.
  intros (h & cur & Hh & Hcur & Hq & Hn & Ht) Hc Hns Hf. assert (cnodes w' !! q = Some (f n)) as Hn' by by rewrite Hns, lookup_alter_eq, Hn.
  destruct (decide (q = chCurr h)) as [->|Hne].
  - exists h, (f n). assert (cur = n) as -> by congruence. split_and!; [congruence|done| |done|by rewrite (proj1 (Hf n))].
    unfold child in *. by rewrite (proj2 (Hf n)).
  - exists h, cur. split_and!; [congruence|by rewrite Hns, lookup_alter_ne|done|done|by rewrite (proj1 (Hf n))].
Qed.
Lemma read_finish_inv w q n w1 b :
  cnodes w !! q = Some n → read_finish q w = (w1, Ok b) →
  w1 = (on_cnode q (λ n, with_content true (contentUID n) n) w).1 ∧ os_ReadFile (CacheDir +:+ "/" +:+ contentUID n) (cdisk w) = inr b.
Proof.
  intros Hn. unfold read_finish, node_at, mbind, M_bind. simpl. rewrite lookup_alter_eq, Hn. simpl. intros Hrun.
  apply read_cached_eq in Hrun as [-> Hb]. done.
Qed.
Lemma read_fetch_keeps w s q : desk_wf w → live w q → ∀ w1 r, read_fetch rpc s q w = (w1, r) → keeps w w1.
Proof.
  intros Hw [n Hn] w1 r Hrun. destruct (d_tree _ Hw) as (h & depth & Hh & Ht & [cur Hcur]).
  unfold read_fetch, handler, node_at, gets, mbind, M_bind in Hrun. rewrite Hh in Hrun. simpl in Hrun. rewrite Hcur, Hn in Hrun.
  pose proof (aside_download rpc (cnFid cur) s CacheDir (contentUID n) w (desk_linked w Hw) (node_fid _ _ _ Hw Hcur)) as Ha.
  unfold aside in Ha. rewrite Hrun in Ha. destruct r as [a|e|y]; [by destruct Ha|done|done].
Qed.

(** A file that was read is read again from the local disk: the second read gives the
    same content, and no call is made to the server, nothing else of the client changes. *)
Theorem read_twice w s w1 b :
  desk_wf w → Cache.ReadFile rpc uuid s w = (w1, Ok b) → Cache.ReadFile rpc uuid s w1 = (w1, Ok b).
Proof.
  intros Hw Hrun. unfold Cache.ReadFile, mbind at 1, M_bind at 1 in Hrun.
  destruct (read_begin uuid s w) as [w2 [r|e|y]] eqn:Hb; [|done|done].
  destruct (read_begin_inv _ _ _ _ Hw Hb) as (q & n & Hq & [(Hc & -> & b' & -> & Hfile)|(Hc & -> & ->)]).
  { injection Hrun as <- <-. unfold Cache.ReadFile, mbind, M_bind. by rewrite Hb. }
  pose proof (good_read_begin uuid s w Hw) as Hgood. unfold good in Hgood. rewrite Hb in Hgood. destruct Hgood as (Hw2 & _ & Hlive).
  unfold mbind, M_bind in Hrun. destruct (read_fetch rpc s q (begun w q)) as [w3 [[]|e|y]] eqn:Hfetch; [|done|done].
  destruct (read_fetch_keeps _ _ _ Hw2 Hlive _ _ Hfetch) as (_ & Hn3 & Hc3).
  assert (file_here w3 s q (with_content (contentCached n) (uuid (uuids w)) n)) as Hq3.
  { eapply (file_here_alter w w3 s q n (λ n, with_content (contentCached n) (uuid (uuids w)) n)); [done|by rewrite Hc3|by rewrite Hn3|done]. }
  pose proof Hq3 as (_ & _ & _ & _ & _ & Hnq & _). destruct (read_finish_inv _ _ _ _ _ Hnq Hrun) as [-> Hfile]. clear Hrun.
  set (w4 := (on_cnode q _ w3).1).
  assert (file_here w4 s q (with_content true (uuid (uuids w)) (with_content (contentCached n) (uuid (uuids w)) n))) as Hq4.
  { by apply (file_here_alter w3 w4 s q _ (λ n, with_content true (contentUID n) n) Hq3). }
  unfold Cache.ReadFile, mbind, M_bind. by rewrite (read_begin_hit _ _ _ _ b Hq4).
Qed.

(** ** Callbacks *)

Context (range : gmap string positive → list (string * positive)) (Hrange : ∀ m, range m ≡ₚ map_to_list m).

(** Calls that do not ask the server. *)
Definition mute {A} (m : M (Desk D) A) : Prop := ∀ w, calls (m w).1 = calls w.
Lemma mute_bind {A B} (m : M (Desk D) A) (k : A → M (Desk D) B) : mute m → (∀ a, mute (k a)) → mute (m ≫= k).
Proof.
  intros Hm Hk w. unfold mbind, M_bind. specialize (Hm w). destruct (m w) as [w1 [a|e|y]]; [|done|done]. by rewrite (Hk a w1).
Qed.
Lemma mute_disk {A} (c : OSCall D A) : mute (on_disk c).
Proof. intros w. unfold on_disk. by destruct (c (cdisk w)). Qed.
Lemma mute_os {A} (c : OSCall D A) : mute (os_do c).
Proof. apply mute_bind; [apply mute_disk|]. by intros [e|a] w. Qed.
Lemma mute_receive path l : mute (receive path l).
Proof.
  induction l as [|[off b|m|e] l IH]; try done. apply mute_bind; [apply mute_disk|]. intros [e|u]; [done|exact IH].
Qed.
Definition asked {A} (c : Call A) w : Desk D :=
  mkDesk (vfs w) (calls w ++ [mkSent (bearer_of (vfs w) c) c]) (cdisk w) (cnodes w) (cache w) (notes w) (uuids w).
Lemma ask_run {A} (f : error → error) (g : string → error) (c : Call A) w :
  connected (vfs w) = true →
  ask rpc f g c w = (asked c w, match rpc (length (calls w)) A c with NoAnswer e => Err (f e) | Refused m => Err (g m) | Answered a => Ok a end).
Proof. intros Hon. unfold ask, invoke, mbind, M_bind. rewrite Hon. by destruct (rpc _ A c). Qed.
Lemma download_calls parent name dir uid w :
  connected (vfs w) = true →
  calls (downloadFileInternalAs rpc (Some parent) name dir uid w).1 =
    calls w ++ [mkSent (bearer_of (vfs w) (CallDownload name (FID_ToProto parent))) (CallDownload name (FID_ToProto parent))].
Proof.
  intros Hon. set (c := CallDownload name (FID_ToProto parent)). set (w0 := asked c w). change (calls w ++ _) with (calls w0).
  unfold downloadFileInternalAs. rewrite (bind_ok _ _ w w (FID_ToProto parent)) by done. fold c.
  pose proof (ask_run id server_error c w Hon) as Hask. fold w0 in Hask.
  destruct (rpc _ _ c) as [e|m|l]; [by rewrite (bind_err _ _ _ _ _ Hask)..|]. rewrite (bind_ok _ _ _ _ _ Hask). clear Hask.
  revert w0. apply mute_bind; [apply mute_os|]. intros _. apply mute_bind; [apply mute_os|]. intros _. apply mute_receive.
Qed.
Lemma mute_read_finish q : mute (read_finish q).
Proof.
  apply mute_bind; [done|]. intros _. apply mute_bind; [intros w; unfold node_at; by destruct (_ !! _)|]. intros n.
  apply mute_bind; [done|]. by intros [e|b] w.
Qed.
(** A read of a file without a content is one download. *)
Lemma read_miss_calls w s q n h cur fid :
  desk_wf w → file_here w s q n → contentCached n = false → cache w = Some h → cnodes w !! chCurr h = Some cur → cnFid cur = Some fid →
  calls (Cache.ReadFile rpc uuid s w).1 =
    calls w ++ [mkSent (bearer_of (vfs w) (CallDownload s (FID_ToProto fid))) (CallDownload s (FID_ToProto fid))].
Proof.
  intros Hw Hq Hc Hh Hcur Hfid. unfold Cache.ReadFile, mbind at 1, M_bind at 1. rewrite (read_begin_miss w s q n Hq Hc).
  pose proof Hq as (_ & _ & _ & _ & _ & Hn & _).
  assert (calls (read_fetch rpc s q (begun w q)).1 =
    calls w ++ [mkSent (bearer_of (vfs w) (CallDownload s (FID_ToProto fid))) (CallDownload s (FID_ToProto fid))]) as <-.
  { assert (∃ cur', cnodes (begun w q) !! chCurr h = Some cur' ∧ cnFid cur' = Some fid) as (cur' & Hcur' & Hfid').
    { simpl. destruct (decide (q = chCurr h)) as [->|Hne]; [rewrite lookup_alter_eq, Hcur|rewrite lookup_alter_ne, Hcur by done]; by eexists. }
    assert (∃ n', cnodes (begun w q) !! q = Some n') as [n' Hn'] by (simpl; rewrite lookup_alter_eq, Hn; by eexists).
    unfold read_fetch, handler, node_at, gets, mbind, M_bind. change (cache (begun w q)) with (cache w). rewrite Hh. cbn [mret M_ret].
    rewrite Hcur', Hn', Hfid'. by rewrite download_calls by apply (d_on _ Hw). }
  unfold mbind, M_bind. destruct (read_fetch rpc s q (begun w q)) as [w1 [[]|e|y]]; [|done|done]. apply mute_read_finish.
Qed.

(** A callback for a file of the current directory forgets its content and nothing else of
    the cache. *)
Lemma callback_forgets w h cur s q n pf fid dirfid event :
  desk_wf w → cache w = Some h → cnodes w !! chCurr h = Some cur → cnFid cur = Some dirfid →
  file_here w s q n → below w (chRoot h) q → FIDFromProto (Some pf) = Some fid →
  has_fid w fid q → (∀ p, below w (chRoot h) p → has_fid w fid p → p = q) →
  ∃ w1, Invalidate range (Some pf) event w = (w1, Ok true) ∧ desk_wf w1 ∧ calls w1 = calls w ∧ vfs w1 = vfs w
    ∧ cache w1 = cache w ∧ uuids w1 = uuids w ∧ file_here w1 s q (with_content false "" n)
    ∧ ∃ cur', cnodes w1 !! chCurr h = Some cur' ∧ cnFid cur' = Some dirfid.
Proof.
  intros Hw Hh Hcur Hdir Hq Hbelow Hpf Hfid Huniq. pose proof (d_tree _ Hw) as (h' & depth & Hh' & Ht & _).
  assert (h' = h) as -> by congruence. destruct (t_root _ _ _ Ht) as (root & Hroot & _).
  destruct (findNodeByFID_searches range Hrange (S (size (cnodes w))) fid (chRoot h) (cnName root) 0 w Hw) as (r & Hrun & Hr);
    [by exists root|exists h, depth; split_and!; [done|done|apply (t_depth _ _ _ Ht)]|lia|].
  destruct r as [[x path]|]; [|by destruct (Hr (chRoot h) q); [left|..]].
  assert (x = q) as -> by (destruct Hr as (Hx & p & ->%list_elem_of_singleton & Hb); by apply Huniq). clear Hr.
  pose proof Hq as (_ & _ & _ & _ & _ & Hn & Hty).
  assert (∃ w1, InvalidateFileByFID range fid w = (w1, Ok (Some (TrimSlash path))) ∧ calls w1 = calls w ∧ vfs w1 = vfs w
    ∧ cache w1 = cache w ∧ uuids w1 = uuids w ∧ cnodes w1 = alter (with_content false "") q (cnodes w))
    as (w1 & Hinv & Hc1 & Hv1 & Hh1 & Hu1 & Hn1).
  { unfold InvalidateFileByFID, node_at, all_nodes, gets, mbind, M_bind. rewrite Hh, Hroot, Hrun, Hn.
    destruct (decide (cnType n = InodeTypeFile)) as [_|]; [|done].
    destruct (_ && _); simpl; [|by eexists]. unfold on_disk. destruct (os_Remove _ _) as [d r]. simpl. by eexists. }
  pose proof (good_Invalidate range Hrange (Some pf) event w Hw) as Hgood. unfold good in Hgood.
  assert (∃ w2, Invalidate range (Some pf) event w = (w2, Ok true) ∧ calls w2 = calls w ∧ vfs w2 = vfs w
    ∧ cache w2 = cache w ∧ uuids w2 = uuids w ∧ cnodes w2 = alter (with_content false "") q (cnodes w))
    as (w2 & Hev & Hc2 & Hv2 & Hh2 & Hu2 & Hn2).
  { unfold Invalidate. rewrite Hpf. rewrite (bind_ok _ _ _ _ _ Hinv). eexists. split; [done|]. simpl. by split_and!. }
  rewrite Hev in Hgood. destruct Hgood as (Hw2 & _). exists w2. split_and!; try done.
  - by apply (file_here_alter w w2 s q n (with_content false "")).
  - rewrite Hn2. destruct (decide (q = chCurr h)) as [->|Hne]; [rewrite lookup_alter_eq, Hcur|rewrite lookup_alter_ne, Hcur by done]; by eexists.
Qed.
End reading.

Section contents.
Context {D : Type} `{LocalFS D, !DiskLaws D, !LocalLaws D}.
Implicit Types (w : Desk D) (p q : positive) (n : CNode) (h : CacheHandler).
Context (rpc : nat → ∀ A, Call A → Reply A) (uuid : nat → string).

(** ** The content of a file on its way *)

Lemma write_at_end (pre c : bytes) : write_at (length pre) c pre = pre ++ c.
Proof.
  unfold write_at. rewrite Nat.sub_diag, app_nil_r, firstn_all, drop_ge by lia. by rewrite app_nil_r.
Qed.
(** The pieces of a file, written in order to what is already there. *)
Lemma receive_pieces fuel size path (b pre : bytes) off w w1 :
  (0 < size)%nat → (length b ≤ fuel)%nat → off = Z.of_nat (length pre) → Z.of_nat (length pre + length b) < 9223372036854775808 →
  os_ReadFile path (cdisk w) = inr pre →
  receive path (map (λ '(o, c), DownloadChunk o c) (Handler.chunks fuel size off b)) w = (w1, Ok tt) →
  os_ReadFile path (cdisk w1) = inr (pre ++ b).
Proof.
  intros Hsize. revert b pre off w. induction fuel as [|fuel IH]; intros b pre off w Hf -> Hlen Hpre.
  { destruct b; [|simpl in Hf; lia]. intros [= <-]. by rewrite app_nil_r. }
  destruct b as [|x b]; [intros [= <-]; by rewrite app_nil_r|].
  change (Handler.chunks (S fuel) size (Z.of_nat (length pre)) (x :: b)) with
    ((Z.of_nat (length pre), take size (x :: b)) ::
     Handler.chunks fuel size (u64 (Z.of_nat (length pre) + Z.of_nat (length (take size (x :: b))))) (drop size (x :: b))).
  cbn [map receive]. remember (x :: b) as l eqn:Hl. assert (0 < length l)%nat by (subst l; simpl; lia).
  unfold mbind, M_bind, on_disk. rewrite i64_small by lia.
  destruct (os_WriteAt path (Z.of_nat (length pre)) (take size l) (cdisk w)) as [d [e|[]]] eqn:Hwrite; [done|].
  destruct (read_WriteAt _ _ _ _ _ _ Hwrite Hpre) as [_ Hread]. rewrite Nat2Z.id, write_at_end in Hread. intros Hrun.
  assert (length (take size l) + length (drop size l) = length l)%nat as Hsum by (rewrite <-length_app, take_drop; done).
  rewrite length_take in Hsum. pose proof (length_take l size).
  apply (IH _ (pre ++ take size l)) in Hrun; [by rewrite <-app_assoc, take_drop in Hrun|lia| | |done].
  - rewrite length_app, Nat2Z.inj_add. apply u64_small. unfold is_u64, two64. lia.
  - rewrite length_app. lia.
Qed.

Lemma os_do_ok {A} (c : OSCall D A) w w' a :
  os_do c w = (w', Ok a) → c (cdisk w) = (cdisk w', inr a).
Proof. unfold os_do, on_disk, mbind, M_bind. destruct (c (cdisk w)) as [d [e|a']]; [done|]. by intros [= <- ->]. Qed.
(** A download that succeeds received everything into an empty file. *)
Lemma download_inv parent name dir uid w w' l :
  connected (vfs w) = true → rpc (length (calls w)) _ (CallDownload name (FID_ToProto parent)) = Answered l →
  downloadFileInternalAs rpc (Some parent) name dir uid w = (w', Ok tt) →
  ∃ w2, os_ReadFile (Join [dir; uid]) (cdisk w2) = inr [] ∧ receive (Join [dir; uid]) l w2 = (w', Ok tt).
Proof.
  intros Hon Hl. unfold downloadFileInternalAs, ToProto, ask, invoke, mbind, M_bind. cbn [mret M_ret]. rewrite Hon, Hl.
  cbn [mret M_ret]. set (w0 := mkDesk _ _ _ _ _ _ _). clearbody w0.
  destruct (os_do (os_MkdirAll dir) w0) as [w1 [[]|e|y]]; [|done|done].
  destruct (os_do (os_Create (Join [dir; uid])) w1) as [w2 [[]|e|y]] eqn:Hcreate; [|done|done]. intros Hrun.
  exists w2. split; [|done]. eapply read_Create. by apply os_do_ok.
Qed.

(** Reading a file that is not in the cache gives the content the server sent: when
    the server sends a file in pieces of its chunk size, as its handler does, what the
    read returns is that file, whatever was on the local disk. *)
Lemma miss_gives_the_content w s q n h cur fid b w1 b' :
  desk_wf w → file_here w s q n → contentCached n = false →
  cache w = Some h → cnodes w !! chCurr h = Some cur → cnFid cur = Some fid →
  rpc (length (calls w)) _ (CallDownload s (FID_ToProto fid)) =
    Answered (map (λ '(o, c), DownloadChunk o c) (Handler.chunks (length b) Handler.chunkSize 0 b)) →
  Z.of_nat (length b) < 9223372036854775808 →
  comps (Join [CacheDir; uuid (uuids w)]) = comps (CacheDir +:+ "/" +:+ uuid (uuids w)) →
  Cache.ReadFile rpc uuid s w = (w1, Ok b') → b' = b.
Proof.
  intros Hw Hq Hc Hh Hcur Hfid Hrpc Hlen Hname. unfold Cache.ReadFile, mbind at 1, M_bind at 1.
  rewrite (read_begin_miss uuid w s q n Hq Hc). unfold mbind, M_bind.
  destruct (read_fetch rpc s q (begun uuid w q)) as [w2 [[]|e|y]] eqn:Hfetch; [|done|done]. intros Hrun.
  pose proof (good_read_begin uuid s w Hw) as Hgood. unfold good in Hgood. rewrite (read_begin_miss uuid w s q n Hq Hc) in Hgood.
  destruct Hgood as (Hw2 & _ & Hlive). destruct (read_fetch_keeps _ _ _ _ Hw2 Hlive _ _ Hfetch) as (_ & Hn2 & _).
  pose proof Hq as (_ & _ & _ & _ & _ & Hn & _).
  assert (cnodes (begun uuid w q) !! q = Some (with_content (contentCached n) (uuid (uuids w)) n)) as Hnq.
  { simpl. by rewrite lookup_alter_eq, Hn. }
  destruct (read_finish_inv w2 q _ w1 b' ltac:(by rewrite Hn2) Hrun) as [_ Hread]. clear Hrun.
  assert (∃ cur', cnodes (begun uuid w q) !! chCurr h = Some cur' ∧ cnFid cur' = Some fid) as (cur' & Hcur' & Hfid').
  { simpl. destruct (decide (q = chCurr h)) as [->|Hne]; [rewrite lookup_alter_eq, Hcur|rewrite lookup_alter_ne, Hcur by done]; by eexists. }
  unfold read_fetch, handler, node_at, gets, mbind, M_bind in Hfetch. change (cache (begun uuid w q)) with (cache w) in Hfetch.
  rewrite Hh in Hfetch. cbn [mret M_ret] in Hfetch. rewrite Hcur', Hnq, Hfid' in Hfetch.
  destruct (download_inv _ _ _ _ _ _ _ (d_on _ Hw2) Hrpc Hfetch) as (w3 & Hempty & Hrecv). clear Hfetch. rename Hrecv into Hfetch.
  apply receive_pieces with (pre := []) in Hfetch;
    [|unfold Handler.chunkSize; lia|reflexivity|reflexivity|exact Hlen|exact Hempty].
  eapply read_spelling in Hfetch; [|exact Hname]. simpl in Hfetch, Hread. congruence.
Qed.

(** C30. After the server's callback for a file, whatever event it reports, a read does not
    give an old content.  When the file is one of the current directory and no other node
    of the tree has its identifier, the callback is taken, and the next read of the file
    makes one call, its download.  When the server then answers with a file in pieces of its
    chunk size, as its handler does, and the generated id is a plain name, what the read
    returns is that file.  A callback that comes while a read downloads is another matter
    (CacheDemo.v). *)
Theorem read_after_callback (range : gmap string positive → list (string * positive))
    w h cur s q n pf fid dirfid event :
  (∀ m, range m ≡ₚ map_to_list m) →
  desk_wf w → cache w = Some h → cnodes w !! chCurr h = Some cur → cnFid cur = Some dirfid →
  file_here w s q n → below w (chRoot h) q → FIDFromProto (Some pf) = Some fid →
  has_fid w fid q → (∀ p, below w (chRoot h) p → has_fid w fid p → p = q) →
  let download := CallDownload s (FID_ToProto dirfid) in
  ∃ w1, Invalidate range (Some pf) event w = (w1, Ok true) ∧ calls w1 = calls w ∧
    let '(w2, r) := Cache.ReadFile rpc uuid s w1 in
    calls w2 = calls w1 ++ [mkSent (bearer_of (vfs w) download) download]
    ∧ ∀ b b', rpc (length (calls w)) _ download =
          Answered (map (λ '(o, c), DownloadChunk o c) (Handler.chunks (length b) Handler.chunkSize 0 b)) →
        Z.of_nat (length b) < 9223372036854775808 →
        comps (Join [CacheDir; uuid (uuids w)]) = comps (CacheDir +:+ "/" +:+ uuid (uuids w)) →
        r = Ok b' → b' = b.
Proof.
  intros Hrange Hw Hh Hcur Hdir Hq Hbelow Hpf Hfid Huniq download.
  destruct (callback_forgets range Hrange w h cur s q n pf fid dirfid event)
    as (w1 & Hinv & Hw1 & Hc1 & Hv1 & Hh1 & Hu1 & Hq1 & cur' & Hcur' & Hdir'); [done..|].
  exists w1. split; [done|]. split; [done|]. destruct (Cache.ReadFile rpc uuid s w1) as [w2 r] eqn:Hrun.
  assert (cache w1 = Some h) as Hcache by congruence. split.
  - pose proof (read_miss_calls rpc uuid w1 s q _ h cur' dirfid Hw1 Hq1 eq_refl Hcache Hcur' Hdir') as Hcalls.
    rewrite Hrun in Hcalls. by rewrite <-Hv1.
  - intros b b' Hrpc Hlen Hname ->. rewrite <-Hc1 in Hrpc. rewrite <-Hu1 in Hname.
    by eapply (miss_gives_the_content w1 s q _ h cur' dirfid b w2 b').
Qed.

(** ** Uploads *)

Definition sent {A} w (c : Call A) : Sent := mkSent (bearer_of (vfs w) c) c.
(** What a server that applies the pieces in order makes of a file. *)
Definition applied (b : bytes) (l : list (Z * bytes)) : bytes := foldl (λ f '(off, c), write_at (Z.to_nat off) c f) b l.
Lemma pieces_make fuel size (b pre : bytes) :
  (0 < size)%nat → (length b ≤ fuel)%nat → Z.of_nat (length pre + length b) < 18446744073709551616 →
  applied pre (Handler.chunks fuel size (Z.of_nat (length pre)) b) = pre ++ b.
Proof.
  intros Hsize. revert b pre. induction fuel as [|fuel IH]; intros b pre Hf Hlen.
  { destruct b; [|simpl in Hf; lia]. by rewrite app_nil_r. }
  destruct b as [|x b]; [by rewrite app_nil_r|].
  change (Handler.chunks (S fuel) size (Z.of_nat (length pre)) (x :: b)) with
    ((Z.of_nat (length pre), take size (x :: b)) ::
     Handler.chunks fuel size (u64 (Z.of_nat (length pre) + Z.of_nat (length (take size (x :: b))))) (drop size (x :: b))).
  remember (x :: b) as l eqn:Hl. assert (0 < length l)%nat by (subst l; simpl; lia).
  unfold applied. cbn [foldl]. rewrite Nat2Z.id, write_at_end.
  assert (length (take size l) + length (drop size l) = length l)%nat as Hsum by (rewrite <-length_app, take_drop; done).
  rewrite length_take in Hsum. pose proof (length_take l size). fold (applied (pre ++ take size l)).
  replace (u64 _) with (Z.of_nat (length (pre ++ take size l))).
  - rewrite IH, <-app_assoc, take_drop; [done|lia|]. rewrite length_app. lia.
  - rewrite length_app, Nat2Z.inj_add. symmetry. apply u64_small. unfold is_u64, two64. lia.
Qed.
Lemma ask_inv {A} (f : error → error) (g : string → error) (c : Call A) w w1 a :
  connected (vfs w) = true → ask rpc f g c w = (w1, Ok a) → w1 = asked c w ∧ rpc (length (calls w)) A c = Answered a.
Proof. intros Hon. rewrite (ask_run rpc f g c w Hon). destruct (rpc _ A c); by intros [= <- <-]. Qed.
Lemma send_all_inv name parent l w w1 :
  connected (vfs w) = true → send_all rpc name parent l w = (w1, Ok tt) →
  w1 = mkDesk (vfs w) (calls w ++ ((λ '(off, c), sent w (SendUpload (Handler.mkUploadReq (Some parent) name (username (vfs w)) off c))) <$> l))
         (cdisk w) (cnodes w) (cache w) (notes w) (uuids w).
Proof.
  unfold send_all. rewrite (bind_ok _ _ w w (username (vfs w))) by done. revert w. induction l as [|[off c] l IH]; intros w Hon.
  { intros [= <-]. rewrite app_nil_r. by destruct w. }
  simpl. intros Hrun. apply bind_inv_ok in Hrun as (w2 & [] & Hask & Hrest).
  apply ask_inv in Hask as [-> _]; [|done]. rewrite (IH (asked _ w) Hon Hrest). simpl. by rewrite <-app_assoc.
Qed.

(** C32. An upload of a file that succeeds makes exactly these calls: one that creates the
    file with its size, one that opens the stream, one per piece in order, and the one that
    ends it.  The pieces, applied in order to an empty file, make the file that is on the
    local disk. *)
Theorem upload_sends_the_file path pf w w1 r b :
  connected (vfs w) = true → os_ReadFile path (cdisk w) = inr b → Z.of_nat (length b) < 18446744073709551616 →
  uploadFileInternal rpc path (Some pf) w = (w1, Ok r) →
  let pieces := Handler.chunks (length b) Handler.chunkSize 0 b in
  calls w1 = calls w
    ++ [sent w (CallCreateFile (Base path) (root_user (vfs w)) (FID_ToProto pf) (InodeType_ToProto InodeTypeFile) (Z.of_nat (length b)));
        sent w OpenUpload]
    ++ ((λ '(off, c), sent w (SendUpload (Handler.mkUploadReq (Some (FID_ToProto pf)) (Base path) (username (vfs w)) off c))) <$> pieces)
    ++ [sent w CloseUpload]
  ∧ applied [] pieces = b.
Proof.
  intros Hon Hb Hlen Hrun pieces. split; [|subst pieces; by apply (pieces_make _ _ b []); [unfold Handler.chunkSize; lia|..]].
  unfold uploadFileInternal, look in Hrun. rewrite (bind_ok _ _ w w (inr tt)) in Hrun by (unfold gets; by rewrite (openRead_read _ _ _ Hb)).
  rewrite (bind_ok _ _ w w (inr (Z.of_nat (length b)))) in Hrun by (unfold gets; by rewrite (stat_read _ _ _ Hb)).
  rewrite (bind_ok _ _ w w (root_user (vfs w))), (bind_ok _ _ w w (FID_ToProto pf)) in Hrun by done.
  apply bind_inv_ok in Hrun as (w2 & new & Hask & Hrun). apply ask_inv in Hask as [-> _]; [|done].
  apply bind_inv_ok in Hrun as (w2 & [] & Hask & Hrun). apply ask_inv in Hask as [-> _]; [|done].
  set (w2 := asked OpenUpload _) in Hrun. rewrite (bind_ok _ _ w2 w2 (inr b)) in Hrun by (unfold gets; by rewrite <-Hb).
  apply bind_inv_ok in Hrun as (w3 & [] & Hsend & Hrun). apply send_all_inv in Hsend as ->; [|done]. fold pieces in Hrun.
  apply bind_inv_ok in Hrun as (w3 & [] & Hask & Hrun). apply ask_inv in Hask as [-> _]; [|done].
  injection Hrun as <- _. unfold w2. simpl. by rewrite <-!app_assoc.
Qed.

(** ** The end of a session *)

(** A client that disconnects has forgotten the token of its session before the server
    is told: the call that unregisters it carries the token of the login, or none, never
    the one of the session it should end.  Whatever the server answers, and if the call
    fails, the client is disconnected. *)
Theorem disconnect_without_the_session w :
  connected (vfs w) = true → username (vfs w) ≠ "" →
  ∃ w1, Disconnect rpc w = (w1, Ok tt) ∧ connected (vfs w1) = false ∧ sessionToken (vfs w1) = "" ∧
    calls w1 = calls w ++ [mkSent (if interceptors (vfs w) && bool_decide (authToken (vfs w) ≠ "") then Some (authToken (vfs w)) else None)
      (UnregisterClient (clientID (vfs w)) (username (vfs w)))].
Proof.
  intros Hon Hu. unfold Disconnect, on_client, me, gets, modify, ignore, invoke, mbind, M_bind. simpl. rewrite Hon.
  rewrite bool_decide_true by done. simpl. rewrite Hon. simpl. eexists. split; [done|]. simpl. rewrite Hon, bool_decide_false by done.
  split; [done|]. split; [done|]. do 2 f_equal. unfold bearer_of. simpl. destruct (interceptors (vfs w)); [|done]. simpl.
  by case_decide; case_bool_decide.
Qed.
End contents.
