(* ===== verification/CacheDemo.v ===== *)
(** * A client and a server to run the cache on

    The executable disk, a server of few answers, and the states at which the theorems
    about the cache are applied; and three runs in which a read goes wrong. *)
From S2P Require Import Prelude GoStd Domain Disk Client Cache CacheSpec CacheSafe CacheRead.
From S2P Require Handler.
From Stdlib Require Import Strings.Byte.
#[global] Open Scope Z_scope.

#[export] Instance MemDisk_local : LocalFS MemDisk := {|
  os_IsDir p d := match entry d (comps p) with Some DDir => true | _ => false end;
|}.
#[export] Instance MemDisk_local_laws : LocalLaws MemDisk.
Proof.
  constructor; simpl.
  - intros p d d'. unfold md_put, guarded, md_ReadFile. destruct (contains _ _); [done|]. destruct (comps p) as [|c cs]; [done|].
    destruct (entry d (c :: cs)) as [[]|]; try done; (destruct (parent_is_dir _ _); [|done]); intros [= <-]; simpl; by rewrite lookup_insert_eq.
  - intros p q b d Hpq. unfold md_ReadFile. rewrite Hpq. by destruct (entry d (comps q)) as [[]|].
Qed.

Definition content_of (k : nat) : bytes := if decide (k < 5)%nat then [x61; x62] else [x63].
(** The root is node 1; it lists the directory [docs], node 2, and the file [f], which is
    node 3 until the fifth call and another file, node 4, from then on.  A directory that
    was uploaded cannot be listed. *)
Definition pb (i : Z) : pbFID := mkPbFID "fs1" i 1.
Definition demo_rpc (k : nat) A (c : Call A) : Reply A :=
  match c in Call A return Reply A with
  | RegisterClient _ _ _ _ _ => Answered (Some (pb 1), "session")
  | ChangeDir _ _ path => Answered (Some (if decide (path = "photos") then pb 7 else if decide (path = "docs") then pb 2 else pb 1))
  | ListDir f =>
      if InodeId f =? 1 then
        Answered [Handler.mkEntry (Some (pb 2)) "docs" pbInodeType_DIRECTORY 0; Handler.mkEntry (Some (if decide (k < 5)%nat then pb 3 else pb 4)) "f" pbInodeType_FILE 2]
      else if InodeId f =? 2 then Answered [Handler.mkEntry (Some (pb 3)) "g" pbInodeType_FILE 2]
      else Refused "permission denied"
  | CallCreateFile _ _ _ _ _ => Answered (Some (pb 7))
  | CallDownload name parent => Answered (map (λ '(o, c), DownloadChunk o c) (Handler.chunks (length (content_of k)) Handler.chunkSize 0 (content_of k)))
  | OpenUpload => Answered tt
  | SendUpload _ => Answered tt
  | CloseUpload => Answered tt
  | _ => Refused "not in the demo"
  end.
Lemma demo_gives_fids : gives_fids demo_rpc.
Proof.
  split; [intros k f r path; discriminate|intros k name root f t size; discriminate| |discriminate].
  intros k f l. simpl. repeat destruct (decide _) || case_match; intros [= <-]; repeat (constructor || eexists).
Qed.
Definition demo_uuid (k : nat) : string := "u" +:+ pretty (Z.of_nat k).
Definition demo_range (m : gmap string positive) : list (string * positive) := map_to_list m.
Lemma demo_range_ok m : demo_range m ≡ₚ map_to_list m.
Proof. done. Qed.

Definition home : MemDisk :=
  mkMemDisk {[ ["photos"] := DDir; ["notes"] := DFile [x64; x65] ]} 1000 [].
Definition demo_client : Client := SetRootPath "" "/" (SetRootUser "ann" (NewClient "ann" "login" "1")).
Definition before : Desk MemDisk := mkDesk demo_client [] home ∅ None [] 0.
Definition linked_desk : Desk MemDisk := (Connect demo_rpc (inr "127.0.0.1:1") (inr tt) before).1.
Definition desk0 : Desk MemDisk := Eval vm_compute in (NewCacheHandler demo_rpc (rootFID (vfs linked_desk)) linked_desk).1.
Definition run_demo (ops : list CacheOp) (w : Desk MemDisk) : Desk MemDisk :=
  foldl (λ w op, (run_op demo_rpc demo_uuid demo_range op w).1) w ops.
Abbreviation do_read := (Cache.ReadFile demo_rpc demo_uuid).

Example reads : (do_read "f" desk0).2 = Ok [x61; x62].
Proof. vm_compute. reflexivity. Qed.

(** ** Where a read or a call goes wrong *)

Definition node_of (s : string) (w : Desk MemDisk) : option CNode :=
  h ← cache w; n ← cnodes w !! chCurr h; q ← child n s; cnodes w !! q.
(** The server put another file under the name; after a refresh the cache names the new
    file, and a read gives the content of the old one without asking. *)
Example stale_after_refresh :
  let w := run_demo [DoRead [] [] "f"; DoRefresh; DoRefresh] desk0 in
  (n ← node_of "f" w; cnFid n) = Some (mkFID "fs1" 4 1)
  ∧ (do_read "f" w).2 = Ok [x61; x62] ∧ calls (do_read "f" w).1 = calls w
  ∧ (do_read "f" (run_demo [DoRefresh; DoRefresh] desk0)).2 = Ok [x63].
Proof. split_and!; vm_compute; reflexivity. Qed.

Definition fails {A} (r : res A) : bool := match r with Err _ => true | _ => false end.
(** A callback during the download: the file counts as cached, under no name, and no later
    read succeeds or asks the server, also after a refresh. *)
Example callback_during_download :
  let w := run_demo [DoRead [] [(Some (pb 3), 1)] "f"] desk0 in
  contentCached <$> node_of "f" w = Some true ∧ contentUID <$> node_of "f" w = Some ""
  ∧ fails (do_read "f" w).2 = true ∧ calls (do_read "f" w).1 = calls w
  ∧ fails (do_read "f" (run_demo [DoRefresh] w)).2 = true.
Proof. split_and!; vm_compute; reflexivity. Qed.

(** A directory that was uploaded has no map of entries until it is listed: when the
    listing fails, making a directory in it panics after the server made it. *)
Example mkdir_in_an_uploaded_directory :
  let w := run_demo [DoUpload 1 "photos"; DoChangeDirectory "photos"] desk0 in
  (run_op demo_rpc demo_uuid demo_range (DoCreateDirectory "x") w).2 = Panic nil_map.
Proof. vm_compute. reflexivity. Qed.

(** The server was started again and the root has another FID: a refresh lists the root by
    the new one, while the calls that change it still go to the old one. *)
Definition moved_rpc (k : nat) A (c : Call A) : Reply A :=
  match c in Call A return Reply A with
  | RegisterClient _ _ _ _ _ => Answered (Some (pb 9), "session2")
  | ChangeDir f _ _ => if InodeId f =? 1 then Refused "stale" else Answered (Some f)
  | ListDir f => if InodeId f =? 9 then Answered [] else Refused "stale"
  | _ => Refused "not in the demo"
  end.
Example refresh_leaves_a_stale_directory :
  let r := Cache.Refresh moved_rpc desk0 in
  let w := r.1 in
  r.2 = Ok tt ∧ InodeID <$> rootFID (vfs w) = Some 9 ∧ InodeID <$> currentFID (vfs w) = Some 1
  ∧ (h ← cache w; n ← cnodes w !! chCurr h; InodeID <$> cnFid n) = Some 9.
Proof. split_and!; vm_compute; reflexivity. Qed.

(** ** The theorems at these states *)

Lemma desk0_made : desk0 = (NewCacheHandler demo_rpc (rootFID (vfs linked_desk)) linked_desk).1.
Proof. vm_compute. reflexivity. Qed.
Lemma desk0_ran : ran demo_rpc demo_uuid demo_range desk0.
Proof.
  rewrite desk0_made. apply ran_start; [split_and!; [vm_compute; reflexivity|by eexists..]|vm_compute; reflexivity|by eexists|].
  rewrite <-desk0_made. discriminate.
Qed.
Lemma desk0_wf : desk_wf desk0.
Proof. exact (ran_wf demo_rpc demo_gives_fids demo_uuid demo_range demo_range_ok desk0 desk0_ran). Qed.

Lemma cache_stays_a_tree_witness :
  let r := run_op demo_rpc demo_uuid demo_range (DoUpload 1 "photos") desk0 in
  r.2 = Ok tt ∧ desk_wf r.1 ∧ ∀ why, r.2 = Panic why → why = nil_map ∧ stuck r.1.
Proof.
  split; [vm_compute; reflexivity|].
  apply (cache_stays_a_tree demo_rpc demo_gives_fids demo_uuid demo_range demo_range_ok desk0 (DoUpload 1 "photos"));
    [exact desk0_ran| |apply surjective_pairing].
  intros _. vm_compute. intros e He. inversion He.
Defined.

Definition root_node : positive := Eval vm_compute in from_option chRoot 1%positive (cache desk0).
Definition root_cnode : CNode := Eval vm_compute in default (bare "" InodeTypeFile None 0 1) (cnodes desk0 !! root_node).
Definition root_list : list Handler.Entry :=
  [Handler.mkEntry (Some (pb 2)) "docs" pbInodeType_DIRECTORY 0; Handler.mkEntry (Some (pb 3)) "f" pbInodeType_FILE 2].
Lemma refresh_then_ls_witness :
  ∃ w1 shown_entries, populateCurrentDirCache demo_rpc desk0 = (w1, Ok tt)
    ∧ Cache.ListFiles demo_range w1 = (w1, Ok shown_entries) ∧ shown_entries ≡ₚ map info_of root_list.
Proof.
  apply (refresh_then_ls demo_rpc demo_range demo_range_ok desk0 (mkCacheHandler root_node root_node) root_cnode (mkFID "fs1" 1 1));
    [exact desk0_wf|vm_compute; reflexivity..|].
  apply (bool_decide_unpack _). vm_compute. exact I.
Defined.

Definition read_desk : Desk MemDisk := Eval vm_compute in (do_read "f" desk0).1.
Lemma read_twice_witness :
  do_read "f" desk0 = (read_desk, Ok [x61; x62]) ∧ do_read "f" read_desk = (read_desk, Ok [x61; x62]).
Proof.
  assert (do_read "f" desk0 = (read_desk, Ok [x61; x62])) as Hread by (vm_compute; reflexivity).
  split; [exact Hread|]. exact (read_twice demo_rpc demo_uuid desk0 "f" read_desk _ desk0_wf Hread).
Defined.

Definition f_node : positive := Eval vm_compute in default 1%positive (h ← cache desk0; n ← cnodes desk0 !! chCurr h; child n "f").
Definition f_cnode : CNode := Eval vm_compute in default (bare "" InodeTypeFile None 0 1) (cnodes desk0 !! f_node).
Lemma f_here : file_here desk0 "f" f_node f_cnode.
Proof. exists (mkCacheHandler root_node root_node), root_cnode. split_and!; vm_compute; reflexivity. Qed.
Lemma read_after_callback_witness :
  ∃ w1, Invalidate demo_range (Some (pb 3)) 1 read_desk = (w1, Ok true) ∧ calls w1 = calls read_desk ∧
    let '(w2, r) := do_read "f" w1 in
    calls w2 = calls w1 ++ [mkSent (Some "session") (CallDownload "f" (pb 1))]
    ∧ ∀ b', r = Ok b' → b' = [x61; x62].
Proof.
  assert (desk_wf read_desk) as Hw.
  { exact (ran_wf demo_rpc demo_gives_fids demo_uuid demo_range demo_range_ok _ (ran_op _ _ _ (DoRead [] [] "f") desk0 desk0_ran I)). }
  set (q := f_node). set (n := default f_cnode (cnodes read_desk !! q)). set (root := default root_cnode (cnodes read_desk !! root_node)).
  assert (has_fid read_desk (mkFID "fs1" 3 1) q) as Hq by (exists n; split; vm_compute; reflexivity).
  destruct (read_after_callback demo_rpc demo_uuid demo_range read_desk (mkCacheHandler root_node root_node) root "f" q n (pb 3)
    (mkFID "fs1" 3 1) (mkFID "fs1" 1 1) 1 demo_range_ok) as (w1 & Hinv & Hcalls & Hread);
    [exact Hw|vm_compute; reflexivity..| | |reflexivity|exact Hq| |].
  - exists (mkCacheHandler root_node root_node), root. split_and!; vm_compute; reflexivity.
  - apply (below_entry read_desk _ root "f" q); [vm_compute; reflexivity..|apply below_self].
  - assert (map_Forall (λ p m, FID_String <$> cnFid m = Some (FID_String (mkFID "fs1" 3 1)) → p = q) (cnodes read_desk)) as Hall.
    { apply (bool_decide_unpack _). vm_compute. exact I. }
    intros p _ (m & Hm & Hfid). exact (Hall p m Hm Hfid).
  - exists w1. split; [exact Hinv|]. split; [exact Hcalls|]. destruct (do_read "f" w1) as [w2 r].
    destruct Hread as [Hsent Hgives]. split; [exact Hsent|]. intros b' Hr.
    apply (Hgives [x61; x62] b'); [vm_compute; reflexivity|reflexivity|vm_compute; reflexivity|exact Hr].
Defined.

Definition upload_run := Eval vm_compute in uploadFileInternal demo_rpc "notes" (Some (mkFID "fs1" 1 1)) desk0.
Lemma upload_sends_the_file_witness :
  calls upload_run.1 = calls desk0
    ++ [sent desk0 (CallCreateFile "notes" "ann" (pb 1) pbInodeType_FILE 2); sent desk0 OpenUpload]
    ++ ((λ '(off, c), sent desk0 (SendUpload (Handler.mkUploadReq (Some (pb 1)) "notes" "ann" off c))) <$>
        Handler.chunks 2 Handler.chunkSize 0 [x64; x65])
    ++ [sent desk0 CloseUpload]
  ∧ applied [] (Handler.chunks 2 Handler.chunkSize 0 [x64; x65]) = [x64; x65].
Proof.
  apply (upload_sends_the_file demo_rpc "notes" (mkFID "fs1" 1 1) desk0 upload_run.1 (Some (mkFID "fs1" 7 1)) [x64; x65]);
    vm_compute; reflexivity.
Defined.

Lemma disconnect_without_the_session_witness :
  sessionToken (vfs desk0) = "session" ∧
  ∃ w1, Disconnect demo_rpc desk0 = (w1, Ok tt) ∧ connected (vfs w1) = false ∧ sessionToken (vfs w1) = "" ∧
    calls w1 = calls desk0 ++ [mkSent (Some "login") (UnregisterClient "ann-1" "ann")].
Proof.
  split; [reflexivity|]. apply (disconnect_without_the_session demo_rpc desk0); [reflexivity|discriminate].
Defined.

(** A server that leaves out a FID ends the client, which dereferences nil: in a move, and in
    the download of a directory. *)
Definition nameless_rpc (k : nat) A (c : Call A) : Reply A :=
  match c in Call A return Reply A with
  | ChangeDir _ _ _ => Answered None
  | ListDir _ => Answered [Handler.mkEntry None "docs" pbInodeType_DIRECTORY 0]
  | c => demo_rpc k _ c
  end.
Theorem nil_fids_panic :
  (Cache.ChangeDirectory nameless_rpc "/" desk0).2 = Panic "nil pointer dereference"
  ∧ (Cache.Download nameless_rpc 5 "docs" desk0).2 = Panic "nil pointer dereference".
Proof. split; vm_compute; reflexivity. Qed.
