(* ===== verification/Mongo.v ===== *)
(** * The MetaStore on MongoDB (internal/storage/mongo/mongo.go)

    The database and its driver are a parameter, [Driver]: statements on the collections
    of the store, each of which may fail.  [DriverLaws] states what MongoDB documents of
    them: a statement that succeeds has its effect, a statement on one document that fails
    has had it or not (the answer may be lost), one on many documents may have reached only
    some of them, and a bulk write that is not ordered may have had any part of it in any
    order.  The store follows the code statement by
    statement; documents are maps of fields, so the names of fields count. *)
From S2P Require Import Prelude GoStd Storage.
#[global] Open Scope Z_scope.

(** ** Documents *)

Inductive Val := VString (s : string) | VInt (z : Z) | VTime (t : Z).
#[export] Instance Val_eq_dec : EqDecision Val.
Proof. solve_decision. Defined.
(** [_id]: a name, or the compound key of a share. *)
Inductive Id := IdName (s : string) | IdShare (k : shareKey).
#[export] Instance Id_eq_dec : EqDecision Id.
Proof. solve_decision. Defined.
#[export] Instance Id_countable : Countable Id.
Proof.
  apply (inj_countable' (λ i, match i with IdName s => inl s | IdShare k => inr k end)
    (λ x, match x with inl s => IdName s | inr k => IdShare k end)). by intros [].
Defined.
Abbreviation Doc := (gmap string Val).

Inductive Coll := collFileServers | collUsers | collShares | collCounters.
(** The handle with the weaker write concern is on the same collection. *)
Definition heartbeats : Coll := collFileServers.
Record DB := mkDB { dbFileServers : gmap Id Doc; dbUsers : gmap Id Doc; dbShares : gmap Id Doc; dbCounters : gmap Id Doc }.
Definition table (c : Coll) (d : DB) : gmap Id Doc :=
  match c with collFileServers => dbFileServers d | collUsers => dbUsers d | collShares => dbShares d | collCounters => dbCounters d end.
Definition put (c : Coll) (m : gmap Id Doc) (d : DB) : DB :=
  match c with
  | collFileServers => mkDB m (dbUsers d) (dbShares d) (dbCounters d)
  | collUsers => mkDB (dbFileServers d) m (dbShares d) (dbCounters d)
  | collShares => mkDB (dbFileServers d) (dbUsers d) m (dbCounters d)
  | collCounters => mkDB (dbFileServers d) (dbUsers d) (dbShares d) m
  end.

(** ** Statements *)

(** The filters of the store. *)
Inductive Filter :=
  | ById (i : Id)
  | HomeIs (node : string)
  | IdIn (names : list string)
  | GranteeOrOwnerIn (names : list string)
  | OwnerIn (names : list string)
  | Everything.
Definition matches (f : Filter) (i : Id) (x : Doc) : bool :=
  match f, i with
  | ById j, _ => bool_decide (i = j)
  | HomeIs node, _ => bool_decide (x !! "home_node_id" = Some (VString node))
  | IdIn names, IdName s => bool_decide (s ∈ names)
  | GranteeOrOwnerIn names, IdShare k => bool_decide (k.1.1 ∈ names ∨ k.1.2 ∈ names)
  | OwnerIn names, IdShare k => bool_decide (k.1.2 ∈ names)
  | Everything, _ => true
  | _, _ => false
  end.
(** [$set], [$setOnInsert] and [$inc]. *)
Record Update := mkUpdate { uSet : list (string * Val); uSetOnInsert : list (string * Val); uInc : list (string * Z) }.
Definition int_of (v : option Val) : Z := match v with Some (VInt z) => z | _ => 0 end.
Definition set_fields (l : list (string * Val)) (x : Doc) : Doc := each (λ kv, <[kv.1 := kv.2]>) l x.
Definition applied (u : Update) (inserting : bool) (x : Doc) : Doc :=
  each (λ kv x, <[kv.1 := VInt (int_of (x !! kv.1) + kv.2)]> x) (uInc u)
    (set_fields (uSet u) (if inserting then set_fields (uSetOnInsert u) x else x)).
(** The effect of an update of the document with an id. *)
Definition update_one (i : Id) (u : Update) (upsert : bool) (m : gmap Id Doc) : gmap Id Doc :=
  match m !! i with
  | Some x => <[i := applied u false x]> m
  | None => if upsert then <[i := applied u true ∅]> m else m
  end.
(** Of the documents that match, those in [part]: a statement on many documents is not
    atomic. *)
Definition update_many (part : Id → bool) (f : Filter) (u : Update) (m : gmap Id Doc) : gmap Id Doc :=
  map_imap (λ i x, Some (if matches f i x && part i then applied u false x else x)) m.
Definition delete_matching (part : Id → bool) (f : Filter) (m : gmap Id Doc) : gmap Id Doc :=
  filter (λ kv, matches f kv.1 kv.2 && part kv.1 = false) m.
Definition all_of_them {A} (_ : A) : bool := true.

Definition ErrNoDocuments : error := Errorf "mongo: no documents in result" [].

(** An update with [upsert] of a bulk write. *)
Definition WriteModel : Type := Id * Update.
Definition write_models (l : list WriteModel) (m : gmap Id Doc) : gmap Id Doc :=
  each (λ wm, update_one wm.1 wm.2 true) l m.

(** What the store calls. *)
Class Driver (S : Type) := {
  Find : Coll → Filter → M S (list (Id * Doc));
  FindOne : Coll → Id → M S Doc;
  UpdateOne : Coll → Id → Update → bool → M S Z;
  UpdateMany : Coll → Filter → Update → M S unit;
  DeleteOne : Coll → Id → M S unit;
  DeleteMany : Coll → Filter → M S unit;
  BulkWrite : Coll → list WriteModel → M S unit;
  FindOneAndUpdate : Coll → Id → Update → M S Doc;
  Now : M S Z;
}.

Section laws.
Context {S : Type} (db : S → DB).

(** A statement whose effect on a collection is [f], with an answer in [R]: it succeeds,
    or fails having changed nothing or having had its effect. *)
Definition states {A} (m : M S A) (c : Coll) (f : gmap Id Doc → gmap Id Doc) (R : gmap Id Doc → A → Prop) : Prop :=
  ∀ s, wp m (λ a s', R (table c (db s)) a ∧ db s' = put c (f (table c (db s))) (db s))
            (λ e s', db s' = db s ∨ db s' = put c (f (table c (db s))) (db s)) s.
(** A statement on the documents that match: a failure may come when some are done. *)
Definition states_many {A} (m : M S A) (c : Coll) (f : (Id → bool) → gmap Id Doc → gmap Id Doc) : Prop :=
  ∀ s, wp m (λ _ s', db s' = put c (f all_of_them (table c (db s))) (db s))
            (λ _ s', ∃ part, db s' = put c (f part (table c (db s))) (db s)) s.
(** A statement that only looks. *)
Definition looks {A} (m : M S A) (c : Coll) (R : gmap Id Doc → A → Prop) (E : gmap Id Doc → error → Prop) : Prop :=
  ∀ s, wp m (λ a s', R (table c (db s)) a ∧ db s' = db s) (λ e s', E (table c (db s)) e ∧ db s' = db s) s.

Class DriverLaws `{Driver S} : Prop := {
  law_Find c f : looks (Find c f) c (λ m l, l ≡ₚ filter (λ kv, matches f kv.1 kv.2 = true) (map_to_list m)) (λ _ _, True);
  law_FindOne c i : looks (FindOne c i) c (λ m x, m !! i = Some x) (λ m e, errors_Is e ErrNoDocuments = true → m !! i = None);
  law_UpdateOne c i u upsert : states (UpdateOne c i u upsert) c (update_one i u upsert)
    (λ m n, n = (if m !! i then 1 else 0));
  law_UpdateMany c f u : states_many (UpdateMany c f u) c (λ part, update_many part f u);
  law_DeleteOne c i : states (DeleteOne c i) c (delete i) (λ _ _, True);
  law_DeleteMany c f : states_many (DeleteMany c f) c (λ part, delete_matching part f);
  law_FindOneAndUpdate c i u : states (FindOneAndUpdate c i u) c (update_one i u true) (λ m x, update_one i u true m !! i = Some x);
  law_BulkWrite c l s : wp (BulkWrite c l)
    (λ _ s', ∃ l', l' ≡ₚ l ∧ db s' = put c (write_models l' (table c (db s))) (db s))
    (λ e s', ∃ l' rest, l' ++ rest ≡ₚ l ∧ db s' = put c (write_models l' (table c (db s))) (db s)) s;
  law_Now s : wp Now (λ _ s', db s' = db s) (λ _ _, False) s;
}.
End laws.

(** An error with what was attempted. *)
Definition attempting {S A} (what : string) (args : list string) (m : M S A) : M S A :=
  r ← catch m; match r with inl e => throw (Wrapf ("mongo: " +:+ what +:+ ": %w") args e) | inr a => mret a end.

(** ** The store *)

Section store.
Context {S : Type} `{Driver S}.

(** The decoder: a field that is missing is the zero value, another type an error. *)
Definition string_field (k : string) (x : Doc) : option string :=
  match x !! k with None => Some "" | Some (VString s) => Some s | _ => None end.
Definition int_field (k : string) (x : Doc) : option Z :=
  match x !! k with None => Some 0 | Some (VInt z) => Some z | _ => None end.
Definition fileServerDoc (i : Id) (x : Doc) : option FileServerRecord :=
  match i with
  | IdShare _ => None
  | IdName node =>
      numeric ← int_field "numeric_id" x; address ← string_field "address" x;
      last ← int_field "last_heartbeat_unix" x; status ← string_field "status" x;
      Some (mkFileServerRecord node numeric address last status)
  end.
Definition userDoc (i : Id) (x : Doc) : option UserRecord :=
  match i with IdShare _ => None | IdName u => home ← string_field "home_node_id" x; Some (mkUserRecord u home) end.
Definition shareDoc (i : Id) (x : Doc) : option ShareRecord :=
  match i with
  | IdName _ => None
  | IdShare (g, o, p) => name ← string_field "display_name" x; Some (mkShareRecord g o p name)
  end.
Definition decode_error : error := Errorf "error decoding key" [].
Definition decoded {A} (o : option A) : M S A := match o with Some a => mret a | None => throw decode_error end.
Fixpoint decode_all {A} (d : Id → Doc → option A) (l : list (Id * Doc)) : M S (list A) :=
  match l with
  | [] => mret []
  | (i, x) :: l => a ← decoded (d i x); rest ← decode_all d l; mret (a :: rest)
  end.
Definition all_of {A} (what : string) (c : Coll) (d : Id → Doc → option A) : M S (list A) :=
  l ← attempting ("find " +:+ what) [] (Find c Everything); attempting ("decode " +:+ what) [] (decode_all d l).
Definition LoadSnapshot : M S MetaSnapshot :=
  nodes ← all_of "fileservers" collFileServers fileServerDoc;
  users ← all_of "users" collUsers userDoc;
  shares ← all_of "shares" collShares shareDoc;
  mret (mkMetaSnapshot nodes users shares).

Definition find_node (node : string) : M S FileServerRecord :=
  x ← FindOne collFileServers (IdName node); decoded (fileServerDoc (IdName node) x).
Definition counterNumericFsID : string := "numeric_fs_id".
Definition nextSeq (name : string) : M S Z :=
  x ← attempting "allocate counter %s" [name] (FindOneAndUpdate collCounters (IdName name) (mkUpdate [] [] [("seq", 1)]));
  seq ← attempting "allocate counter %s" [name] (decoded (int_field "seq" x));
  if seq =? 0 then throw (Errorf "mongo: counter %s returned zero" [name]) else mret (u64 (seq - 1)).
Definition mutable (rec : FileServerRecord) (now : Z) : list (string * Val) :=
  [("address", VString (Address rec)); ("last_heartbeat_unix", VInt (LastHeartbeatUnix rec));
   ("status", VString (Status rec)); ("updated_at", VTime now)].
Definition UpsertFileServer (rec : FileServerRecord) : M S Z :=
  let node := NodeID rec in
  if decide (node = "") then throw (Errorf "mongo: UpsertFileServer requires a NodeID" [])
  else
    now ← Now;
    r ← catch (find_node node);
    match r with
    | inr existing =>
        attempting "update fileserver %s" [node] (UpdateOne collFileServers (IdName node) (mkUpdate (mutable rec now) [] []) false) ;;
        mret (NumericID existing)
    | inl e =>
        if errors_Is e ErrNoDocuments then
          id ← nextSeq counterNumericFsID;
          attempting "insert fileserver %s" [node]
            (UpdateOne collFileServers (IdName node) (mkUpdate (mutable rec now) [("numeric_id", VInt id)] []) true) ;;
          existing ← attempting "confirm fileserver %s" [node] (find_node node);
          mret (NumericID existing)
        else throw (Wrapf "mongo: lookup fileserver %s: %w" [node] e)
    end.

Definition RemoveFileServer (node : string) : M S unit :=
  attempting "remove fileserver %s" [node] (DeleteOne collFileServers (IdName node)).

Definition moved_home (new : string) (now : Z) : Update := mkUpdate [("home_node_id", VString new); ("updated_at", VTime now)] [] [].
Definition carried_over (old : FileServerRecord) (now : Z) : Update :=
  mkUpdate [("updated_at", VTime now)]
    [("numeric_id", VInt (NumericID old)); ("address", VString (Address old));
     ("last_heartbeat_unix", VInt (LastHeartbeatUnix old)); ("status", VString (Status old))] [].
Definition RenameFileServer (old new : string) : M S unit :=
  if decide (old = new) then mret tt
  else if decide (new = "") then throw (Errorf "mongo: RenameFileServer requires a new NodeID" [])
  else
    r ← catch (find_node old);
    match r with
    | inl e => throw (if errors_Is e ErrNoDocuments then ErrNotFound else Wrapf "mongo: lookup fileserver %s: %w" [old] e)
    | inr rec =>
        now ← Now;
        attempting "move users %s -> %s" [old; new] (UpdateMany collUsers (HomeIs old) (moved_home new now)) ;;
        attempting "remove fileserver %s" [old] (DeleteOne collFileServers (IdName old)) ;;
        attempting "insert fileserver %s" [new] (UpdateOne collFileServers (IdName new) (carried_over rec now) true) ;;
        mret tt
    end.

(** An update of a node that must be there. *)
Definition touch_node (what : string) (args : list string) (c : Coll) (node : string) (fields : list (string * Val)) : M S unit :=
  n ← attempting what args (UpdateOne c (IdName node) (mkUpdate fields [] []) false);
  if n =? 0 then throw ErrNotFound else mret tt.
Definition RecordHeartbeat (node : string) (at' : Z) (status : string) : M S unit :=
  now ← Now;
  touch_node "heartbeat %s" [node] heartbeats node
    ([("last_heartbeat_unix", VInt at'); ("updated_at", VTime now)] ++ (if decide (status ≠ "") then [("status", VString status)] else [])).
Definition setFileServerField (node field : string) (value : Val) : M S unit :=
  now ← Now; touch_node "set %s on %s" [field; node] collFileServers node [(field, value); ("updated_at", VTime now)].
Definition SetFileServerStatus (node status : string) : M S unit := setFileServerField node "status" (VString status).

Definition home_update (node : string) (now : Z) : Update := moved_home node now.
Definition AssignUser (username node : string) : M S unit :=
  if decide (username = "") then throw (Errorf "mongo: AssignUser requires a username" [])
  else now ← Now; attempting "assign user %s" [username] (UpdateOne collUsers (IdName username) (home_update node now) true) ;; mret tt.
Definition AssignUsers (us : list UserRecord) : M S unit :=
  match us with
  | [] => mret tt
  | _ =>
      now ← Now;
      if decide (Exists (λ u, Username u = "") us) then throw (Errorf "mongo: AssignUsers requires a username" [])
      else attempting "assign %d users" [pretty (Z.of_nat (length us))]
             (BulkWrite collUsers (map (λ u, (IdName (Username u), home_update (HomeNodeID u) now)) us))
  end.
Definition RemoveUsers (us : list string) : M S unit :=
  match us with [] => mret tt | _ => attempting "remove users" [] (DeleteMany collUsers (IdIn us)) end.

Definition share_update (name : string) (now : Z) : Update := mkUpdate [("display_name", VString name)] [("created_at", VTime now)] [].
Definition nobody (sh : ShareRecord) : Prop := Grantee sh = "" ∨ Owner sh = "".
Definition AddShare (sh : ShareRecord) : M S unit :=
  if decide (nobody sh) then throw (Errorf "mongo: AddShare requires a grantee and an owner" [])
  else
    now ← Now;
    attempting "add share %s->%s %s" [Owner sh; Grantee sh; NormalizeSharePath (Path sh)]
      (UpdateOne collShares (IdShare (shared_key sh)) (share_update (DisplayName sh) now) true) ;; mret tt.
(** The first of several shares with one key is kept. *)
Fixpoint share_models (now : Z) (seen : gset shareKey) (l : list ShareRecord) : option (list WriteModel) :=
  match l with
  | [] => Some []
  | sh :: l =>
      if decide (nobody sh) then None
      else
        let key := shared_key sh in
        if decide (key ∈ seen) then share_models now seen l
        else models ← share_models now ({[key]} ∪ seen) l;
             Some ((IdShare key, share_update (DisplayName sh) now) :: models)
  end.
Definition AddShares (shs : list ShareRecord) : M S unit :=
  match shs with
  | [] => mret tt
  | _ =>
      now ← Now;
      match share_models now ∅ shs with
      | None => throw (Errorf "mongo: AddShares requires a grantee and an owner" [])
      | Some models => attempting "add %d shares" [pretty (Z.of_nat (length models))] (BulkWrite collShares models)
      end
  end.
Definition RemoveShare (grantee owner path : string) : M S unit :=
  let p := NormalizeSharePath path in
  attempting "remove share %s->%s %s" [owner; grantee; p] (DeleteOne collShares (IdShare (grantee, owner, p))).
Definition RemoveSharesInvolving (us : list string) : M S unit :=
  match us with
  | [] => mret tt
  | _ => attempting "remove shares involving %d users" [pretty (Z.of_nat (length us))] (DeleteMany collShares (GranteeOrOwnerIn us))
  end.
Definition RemoveSharesByOwner (os : list string) : M S unit :=
  match os with
  | [] => mret tt
  | _ => attempting "remove shares owned by %d users" [pretty (Z.of_nat (length os))] (DeleteMany collShares (OwnerIn os))
  end.
End store.

(** ** The connection *)

Definition DefaultDatabase : string := "dvfs".
(** Durations are nanoseconds. *)
Definition defaultServerSelectionTimeout : Z := 5000000000.
Definition defaultOpTimeout : Z := 3000000000.
Record Config := mkConfig { URI : string; Database : string; AppName : string; ServerSelectionTimeout : Z; OpTimeout : Z }.
Definition applyDefaults (c : Config) : Config :=
  mkConfig (URI c) (Database c) (if decide (AppName c = "") then "dvfs" else AppName c)
    (if ServerSelectionTimeout c <=? 0 then defaultServerSelectionTimeout else ServerSelectionTimeout c)
    (if OpTimeout c <=? 0 then defaultOpTimeout else OpTimeout c).
Record IndexModel := mkIndexModel { ixKeys : list (string * Z); ixName : string; ixUnique : bool; ixSparse : bool }.

Section connection.
(** The parser of connection strings, and the calls on the client and the collections. *)
Context {S : Type} (parse : string → error + string) (Connect : Config → M S unit) (Disconnect : M S unit)
  (client_Ping : M S unit) (CreateMany : Coll → list IndexModel → M S unit) (collection_Drop : Coll → M S unit).

(** [Config.Database], the name in the URI, or the default. *)
Definition resolveDatabase (cfg : Config) : error + string :=
  if decide (Database cfg ≠ "") then inr (Database cfg)
  else match parse (URI cfg) with
       | inl e => inl (Wrapf "mongo: parse URI: %w" [] e)
       | inr name => inr (if decide (name ≠ "") then name else DefaultDatabase)
       end.
(** The name of the database the store is bound to. *)
Definition Open (cfg : Config) : M S string :=
  let cfg := applyDefaults cfg in
  if decide (URI cfg = "") then throw (Errorf "mongo: URI is required" [])
  else match resolveDatabase cfg with
       | inl e => throw e
       | inr dbName =>
           attempting "connect" [] (Connect cfg) ;;
           r ← catch client_Ping;
           match r with
           | inl e => catch Disconnect ;; throw (Wrapf "mongo: ping %s: %w" [dbName] e)
           | inr _ => mret dbName
           end
       end.
Definition node_indexes : list IndexModel :=
  [mkIndexModel [("numeric_id", 1)] "numeric_id_unique" true true; mkIndexModel [("address", 1)] "address" false false;
   mkIndexModel [("status", 1); ("last_heartbeat_unix", 1)] "liveness" false false].
Definition user_indexes : list IndexModel := [mkIndexModel [("home_node_id", 1)] "home_node" false false].
Definition share_indexes : list IndexModel :=
  [mkIndexModel [("_id.grantee", 1)] "by_grantee" false false; mkIndexModel [("_id.owner", 1)] "by_owner" false false].
Definition EnsureIndexes : M S unit :=
  attempting "create fileserver indexes" [] (CreateMany collFileServers node_indexes) ;;
  attempting "create user indexes" [] (CreateMany collUsers user_indexes) ;;
  attempting "create share indexes" [] (CreateMany collShares share_indexes).
Definition Ping : M S unit := attempting "ping" [] client_Ping.
Definition Close : M S unit := Disconnect.
Definition Drop : M S unit := for_each [collFileServers; collUsers; collShares; collCounters] collection_Drop.
End connection.

#[export] Instance mongo_store {S} `{Driver S} : MetaStore S := {|
  Storage.LoadSnapshot := LoadSnapshot;
  Storage.UpsertFileServer := UpsertFileServer;
  Storage.RemoveFileServer := RemoveFileServer;
  Storage.RenameFileServer := RenameFileServer;
  Storage.RecordHeartbeat := RecordHeartbeat;
  Storage.SetFileServerStatus := SetFileServerStatus;
  Storage.AssignUser := AssignUser;
  Storage.AssignUsers := AssignUsers;
  Storage.RemoveUsers := RemoveUsers;
  Storage.AddShare := AddShare;
  Storage.AddShares := AddShares;
  Storage.RemoveShare := RemoveShare;
  Storage.RemoveSharesInvolving := RemoveSharesInvolving;
  Storage.RemoveSharesByOwner := RemoveSharesByOwner |}.
