(* ===== verification/MongoSpec.v ===== *)
(** * The Mongo store against the interface of the metadata

    The tables of Storage.v are what the documents of a database say ([represents]).
    Every write of the store that succeeds has the effect the interface promises; one
    that fails may leave part of a rename or of a bulk write behind, which the interface
    does not allow, and the tables stay well formed. *)
From S2P Require Import Prelude GoStd Storage Mongo.
#[global] Open Scope Z_scope.

(** ** Documents that show a table *)

Section shows.
Context {K A : Type} `{Countable K} (key : K → Id) `{!Inj (=) (=) key} (dec : Id → Doc → option A).
Implicit Types (m : gmap Id Doc) (t : gmap K A) (k : K).

Definition shows m t : Prop :=
  (∀ k, t !! k = m !! key k ≫= dec (key k)) ∧ ∀ i x, m !! i = Some x → ∃ k, i = key k ∧ is_Some (dec i x).
Lemma shows_Some m t k x : shows m t → m !! key k = Some x → ∃ a, dec (key k) x = Some a ∧ t !! k = Some a.
Proof.
  intros [Ht Hm] Hx. destruct (Hm _ _ Hx) as (k' & _ & [a Ha]). exists a. split; [done|]. by rewrite Ht, Hx.
Qed.
Lemma shows_None m t k : shows m t → m !! key k = None → t !! k = None.
Proof. intros [Ht _] Hx. by rewrite Ht, Hx. Qed.
Lemma shows_insert m t k x a : shows m t → dec (key k) x = Some a → shows (<[key k := x]> m) (<[k := a]> t).
Proof.
  intros [Ht Hm] Ha. split.
  - intros k'. destruct (decide (k' = k)) as [->|Hne]; [by rewrite !lookup_insert_eq|].
    assert (key k ≠ key k') by (intros Heq%(inj key); congruence). rewrite !lookup_insert_ne by congruence. apply Ht.
  - intros i y [[<- <-]|[_ Hy]]%lookup_insert_Some; [exists k; split; [done|by exists a]|by apply Hm].
Qed.
Lemma shows_delete m t k : shows m t → shows (delete (key k) m) (delete k t).
Proof.
  intros [Ht Hm]. split.
  - intros k'. destruct (decide (k' = k)) as [->|Hne]; [by rewrite !lookup_delete_eq|].
    assert (key k ≠ key k') by (intros Heq%(inj key); congruence). rewrite !lookup_delete_ne by congruence. apply Ht.
  - intros i y [_ Hy]%lookup_delete_Some. by apply Hm.
Qed.
(** An update of one document; [g] is what it makes of the record. *)
Lemma shows_update m t k u upsert (g : option A → A) :
  shows m t → (∀ x a, dec (key k) x = Some a → dec (key k) (applied u false x) = Some (g (Some a))) →
  (upsert = true → dec (key k) (applied u true ∅) = Some (g None)) →
  shows (update_one (key k) u upsert m)
    (match t !! k with Some a => <[k := g (Some a)]> t | None => if upsert then <[k := g None]> t else t end).
Proof.
  intros Hs Hold Hnew. unfold update_one. destruct (m !! key k) as [x|] eqn:Hx.
  - destruct (shows_Some _ _ _ _ Hs Hx) as (a & Ha & ->). apply shows_insert; [done|by apply Hold].
  - rewrite (shows_None _ _ _ Hs Hx). destruct upsert; [|done]. apply shows_insert; [done|by apply Hnew].
Qed.
Lemma shows_filter m t (P : Id * Doc → Prop) (Q : K * A → Prop) `{∀ x, Decision (P x)} `{∀ x, Decision (Q x)} :
  shows m t → (∀ k x a, dec (key k) x = Some a → P (key k, x) ↔ Q (k, a)) → shows (filter P m) (filter Q t).
Proof.
  intros [Ht Hm] Hpq. split.
  - intros k. apply option_eq. intros a. rewrite map_lookup_filter_Some, Ht. split.
    + intros [Hk HQ]. destruct (m !! key k) as [x|] eqn:Hx; [|done]. simpl in Hk.
      rewrite (map_lookup_filter_Some_2 P m (key k) x Hx); [done|]. by apply (Hpq k x a).
    + destruct (filter P m !! key k) as [x|] eqn:Hx; [|done]. simpl. intros Ha.
      apply map_lookup_filter_Some in Hx as [Hx HP]. rewrite Hx. simpl. split; [done|]. by apply (Hpq k x a).
  - intros i x [Hx _]%map_lookup_filter_Some. by apply Hm.
Qed.
Lemma shows_imap m t (f : Id → Doc → Doc) (g : K → A → A) :
  shows m t → (∀ k x a, dec (key k) x = Some a → dec (key k) (f (key k) x) = Some (g k a)) →
  shows (map_imap (λ i x, Some (f i x)) m) (map_imap (λ k a, Some (g k a)) t).
Proof.
  intros [Ht Hm] Hf. split.
  - intros k. rewrite !map_lookup_imap, Ht. destruct (m !! key k) as [x|] eqn:Hx; simpl; [|done].
    destruct (Hm _ _ Hx) as (k' & _ & [a Ha]). by rewrite Ha, (Hf _ _ _ Ha).
  - intros i x. rewrite map_lookup_imap. destruct (m !! i) as [y|] eqn:Hy; simpl; [|done]. intros [= <-].
    destruct (Hm _ _ Hy) as (k & -> & [a Ha]). exists k. split; [done|]. exists (g k a). by apply Hf.
Qed.
End shows.

#[export] Instance IdName_inj : Inj (=) (=) IdName.
Proof. by intros a b [= ->]. Qed.
#[export] Instance IdShare_inj : Inj (=) (=) IdShare.
Proof. by intros a b [= ->]. Qed.

Definition homeDoc (i : Id) (x : Doc) : option string := HomeNodeID <$> userDoc i x.
Definition seq_of (d : DB) : Z := int_of (default ∅ (dbCounters d !! IdName counterNumericFsID) !! "seq").
Record represents (d : DB) (st : meta_state) : Prop := {
  r_nodes : shows IdName fileServerDoc (dbFileServers d) (ns_nodes st);
  r_users : shows IdName homeDoc (dbUsers d) (ns_users st);
  r_shares : shows IdShare shareDoc (dbShares d) (ns_shares st);
  r_counter : ∀ x, dbCounters d !! IdName counterNumericFsID = Some x → ∃ z, int_field "seq" x = Some z ∧ 0 ≤ z;
}.

(** ** What the updates make of a record *)

Lemma node_decoded n x r :
  fileServerDoc (IdName n) x = Some r ↔
  NodeID r = n ∧ int_field "numeric_id" x = Some (NumericID r) ∧ string_field "address" x = Some (Address r)
  ∧ int_field "last_heartbeat_unix" x = Some (LastHeartbeatUnix r) ∧ string_field "status" x = Some (Status r).
Proof.
  unfold fileServerDoc. destruct (int_field "numeric_id" x) as [i|]; simpl; [|naive_solver].
  destruct (string_field "address" x) as [a|]; simpl; [|naive_solver].
  destruct (int_field "last_heartbeat_unix" x) as [l|]; simpl; [|naive_solver].
  destruct (string_field "status" x) as [t|]; simpl; [|naive_solver]. destruct r. naive_solver.
Qed.
(** Looks a field up in the fields that were set. *)
Ltac fields :=
  unfold applied, set_fields, each; simpl; unfold string_field, int_field;
  repeat (rewrite lookup_insert_eq || (rewrite lookup_insert_ne by done)); rewrite ?lookup_empty; simpl; try first [done|assumption].
Lemma node_of_mutable x r rec now soi :
  fileServerDoc (IdName (NodeID rec)) x = Some r →
  fileServerDoc (IdName (NodeID rec)) (applied (mkUpdate (mutable rec now) soi []) false x) = Some (set_NumericID (NumericID r) rec).
Proof. intros (_ & Hn & _)%node_decoded. apply node_decoded. split_and!; fields. Qed.
Lemma node_of_new rec now id :
  fileServerDoc (IdName (NodeID rec)) (applied (mkUpdate (mutable rec now) [("numeric_id", VInt id)] []) true ∅) = Some (set_NumericID id rec).
Proof. apply node_decoded. split_and!; fields. Qed.
Lemma node_of_heartbeat n x r at' now (status : string) :
  fileServerDoc (IdName n) x = Some r →
  fileServerDoc (IdName n) (applied (mkUpdate ([("last_heartbeat_unix", VInt at'); ("updated_at", VTime now)]
    ++ (if decide (status ≠ "") then [("status", VString status)] else [])) [] []) false x)
  = Some (let r := set_LastHeartbeat at' r in if String.eqb status "" then r else set_Status status r).
Proof.
  intros (Hid & Hn & Ha & Hl & Hs)%node_decoded. apply node_decoded.
  destruct (String.eqb_spec status "") as [->|Hne]; [rewrite decide_False by (by intros [])|rewrite decide_True by done].
  all: split_and!; fields.
Qed.
Lemma node_of_status n x r status now :
  fileServerDoc (IdName n) x = Some r →
  fileServerDoc (IdName n) (applied (mkUpdate [("status", VString status); ("updated_at", VTime now)] [] []) false x) = Some (set_Status status r).
Proof. intros (Hid & Hn & Ha & Hl & Hs)%node_decoded. apply node_decoded. split_and!; fields. Qed.
Lemma node_of_carried n x r old now :
  fileServerDoc (IdName n) x = Some r → fileServerDoc (IdName n) (applied (carried_over old now) false x) = Some r.
Proof. intros (Hid & Hn & Ha & Hl & Hs)%node_decoded. apply node_decoded. split_and!; fields. Qed.
Lemma node_of_carried_new new old now :
  fileServerDoc (IdName new) (applied (carried_over old now) true ∅) = Some (set_NodeID new old).
Proof. apply node_decoded. split_and!; fields. Qed.
Lemma home_of_update u new now b x : homeDoc (IdName u) (applied (moved_home new now) b x) = Some new.
Proof.
  unfold homeDoc, userDoc. assert (string_field "home_node_id" (applied (moved_home new now) b x) = Some new) as -> by (destruct b; fields).
  done.
Qed.
Lemma share_of_update (k : shareKey) name now b x :
  shareDoc (IdShare k) (applied (share_update name now) b x) = Some (mkShareRecord k.1.1 k.1.2 k.2 name).
Proof.
  destruct k as [[g o] p]. unfold shareDoc.
  assert (string_field "display_name" (applied (share_update name now) b x) = Some name) as -> by (destruct b; fields). done.
Qed.

(** ** Effects *)

(** Of several shares of a batch with one key the first is taken. *)
Fixpoint firsts (seen : gset shareKey) (l : list ShareRecord) : list ShareRecord :=
  match l with
  | [] => []
  | sh :: l => if decide (shared_key sh ∈ seen) then firsts seen l else sh :: firsts ({[shared_key sh]} ∪ seen) l
  end.
(** What the interface promises of a write, [id] being a numeric id that was allocated. *)
Definition wrote (wr : write) (id : Z) (st : meta_state) : meta_state :=
  match wr with
  | WUpsert rec => with_nodes (λ m, <[NodeID rec := upserted rec id m]> m) st
  | WRemoveNode node => with_nodes (delete node) st
  | WRename old new => rename old new st
  | WHeartbeat node at' status =>
      with_nodes (alter (λ r, let r := set_LastHeartbeat at' r in if String.eqb status "" then r else set_Status status r) node) st
  | WStatus node status => with_nodes (alter (set_Status status) node) st
  | WAssign user node => with_users (assign_user (mkUserRecord user node)) st
  | WAssignAll us => with_users (each assign_user us) st
  | WRemoveUsers us => with_users (each remove_user us) st
  | WAddShare sh => with_shares (add_share sh) st
  | WAddShares shs => with_shares (each add_share shs) st
  | WRemoveShare g o p => with_shares (remove_share g o p) st
  | WRemoveInvolving us => with_shares (remove_involving us) st
  | WRemoveByOwner os => with_shares (remove_by_owner os) st
  end.
(** A batch names nothing twice, and the node that is renamed has a name. *)
Definition plain_write (wr : write) : Prop :=
  match wr with
  | WAssignAll us => NoDup (Username <$> us)
  | WAddShares shs => NoDup (shared_key <$> shs)
  | WRename old _ => old ≠ ""
  | _ => True
  end.
(** The node a write changes is there. *)
Definition target_known (wr : write) (st : meta_state) : Prop :=
  match wr with
  | WRename old new => old = new ∨ is_Some (ns_nodes st !! old)
  | WHeartbeat node _ _ | WStatus node _ => is_Some (ns_nodes st !! node)
  | _ => True
  end.
(** Parts of the effects, on the users and shares in [part]. *)
Definition rehome_some (part : string → bool) (old new : string) (users : gmap string string) : gmap string string :=
  map_imap (λ u home, Some (if bool_decide (home = old) && part u then new else home)) users.
Definition remove_some {K A} `{Countable K} (part : K → bool) (P : K → Prop) `{∀ k, Decision (P k)} (t : gmap K A) : gmap K A :=
  filter (λ kv, ¬ (P kv.1 ∧ part kv.1 = true)) t.
(** What a write that failed may have left: nothing or everything, of a statement on many
    records or a batch any part, of a rename what came before the statement that
    failed. *)
Definition left_behind (wr : write) (id : Z) (st st' : meta_state) : Prop :=
  st' = st ∨ st' = wrote wr id st ∨
  match wr with
  | WRename old new =>
      (∃ part, st' = with_users (rehome_some part old new) st) ∨ st' = with_nodes (delete old) (with_users (rehome old new) st)
  | WAssignAll us => ∃ us' rest, us' ++ rest ≡ₚ us ∧ st' = with_users (each assign_user us') st
  | WRemoveUsers us => ∃ part, st' = with_users (remove_some part (.∈ us)) st
  | WAddShares shs => ∃ shs' rest, shs' ++ rest ≡ₚ firsts ∅ shs ∧ st' = with_shares (each add_share shs') st
  | WRemoveInvolving us => ∃ part, st' = with_shares (remove_some part (λ k, k.1.1 ∈ us ∨ k.1.2 ∈ us)) st
  | WRemoveByOwner os => ∃ part, st' = with_shares (remove_some part (λ k, k.1.2 ∈ os)) st
  | _ => False
  end.

(** ** The statements on the tables *)

Section spec.
Context {S : Type} `{Driver S} (db : S → DB) `{!DriverLaws db}.
Implicit Types (s : S) (d : DB) (st : meta_state).

Lemma wp_attempting {A} what args (m : M S A) Q (E : error → S → Prop) s :
  wp m Q (λ e, E (Wrapf ("mongo: " +:+ what +:+ ": %w") args e)) s → wp (attempting what args m) Q E s.
Proof.
  intros Hm. unfold attempting. wp_step. wp_step. eapply wp_mono; [exact Hm| |]; [intros a s' Hq; by apply wp_ret|].
  intros e s' He. by apply wp_throw.
Qed.
Lemma wp_Now Q (E : error → S → Prop) s : (∀ now s', db s' = db s → Q now s') → wp Now Q E s.
Proof. intros Hq. eapply wp_mono; [apply (law_Now db)|exact Hq|done]. Qed.

(** A statement that writes: what it has done if it succeeds, and perhaps if it fails. *)
Lemma wp_states {A} (m : M S A) c f R what args (Q : A → S → Prop) (E : error → S → Prop) s :
  states db m c f R →
  (∀ a s', R (table c (db s)) a → db s' = put c (f (table c (db s))) (db s) → Q a s') →
  (∀ e s', db s' = db s ∨ db s' = put c (f (table c (db s))) (db s) → E (Wrapf ("mongo: " +:+ what +:+ ": %w") args e) s') →
  wp (attempting what args m) Q E s.
Proof.
  intros Hm Hq He. apply wp_attempting. eapply wp_mono; [apply Hm|intros a s' [? ?]; by apply Hq|intros e s' Hs; by apply He].
Qed.
(** The tables after a write of one collection. *)
Lemma represents_nodes d st (m : gmap Id Doc) (f : gmap string FileServerRecord → gmap string FileServerRecord) :
  represents d st → shows IdName fileServerDoc m (f (ns_nodes st)) → represents (put collFileServers m d) (with_nodes f st).
Proof. by intros []. Qed.
Lemma represents_users d st (m : gmap Id Doc) (f : gmap string string → gmap string string) :
  represents d st → shows IdName homeDoc m (f (ns_users st)) → represents (put collUsers m d) (with_users f st).
Proof. by intros []. Qed.
Lemma represents_shares d st (m : gmap Id Doc) (f : gmap shareKey ShareRecord → gmap shareKey ShareRecord) :
  represents d st → shows IdShare shareDoc m (f (ns_shares st)) → represents (put collShares m d) (with_shares f st).
Proof. by intros []. Qed.

(** A write is described by what it makes of the tables when it succeeds and when it
    fails. *)
Definition writes (m : M S unit) (Q E : meta_state → meta_state → Prop) : Prop :=
  ∀ s st, represents (db s) st →
  wp m (λ _ s', ∃ st', represents (db s') st' ∧ Q st st') (λ _ s', ∃ st', represents (db s') st' ∧ E st st') s.
Definition all_or_nothing (f : meta_state → meta_state) (st st' : meta_state) : Prop := st' = st ∨ st' = f st.
(** One statement. *)
Lemma writes_statement {A} (m : M S A) c f R g what args :
  states db m c f R → (∀ d st, represents d st → represents (put c (f (table c d)) d) (g st)) →
  writes (attempting what args m ;; mret tt) (λ st st', st' = g st) (all_or_nothing g).
Proof.
  intros Hm Hf s st Hst. wp_step. eapply wp_states; [exact Hm| |].
  - intros a s' _ Hs'. apply wp_ret. exists (g st). rewrite Hs'. split; [by apply Hf|done].
  - intros e s' [Hs'|Hs']; rewrite Hs'; [exists st|exists (g st)]; (split; [by try apply Hf|]); [by left|by right].
Qed.
Lemma wp_drop_unit (m : M S unit) Q E s : wp (m ;; mret tt) Q E s → wp m Q E s.
Proof. unfold wp, mbind, M_bind. by destruct (m s) as [s' [[]|e|y]]. Qed.
Lemma writes_now (k : Z → M S unit) Q E : (∀ now, writes (k now) Q E) → writes (now ← Now; k now) Q E.
Proof. intros Hk s st Hst. wp_step. apply wp_Now. intros now s' Hs'. apply Hk. by rewrite Hs'. Qed.
Lemma writes_refused e Q (g : meta_state → meta_state) : writes (throw e) Q (all_or_nothing g).
Proof. intros s st Hst. apply wp_throw. exists st. split; [done|by left]. Qed.
Lemma writes_nothing (Q E : meta_state → meta_state → Prop) : (∀ st, Q st st) → writes (mret tt) Q E.
Proof. intros Hq s st Hst. apply wp_ret. by exists st. Qed.

(** ** Single statements *)

Lemma shows_delete_matching {K A} `{Countable K} (key : K → Id) `{!Inj (=) (=) key} (dec : Id → Doc → option A) m (t : gmap K A) f
    (P : K → Prop) `{∀ k, Decision (P k)} part :
  shows key dec m t → (∀ k x a, dec (key k) x = Some a → matches f (key k) x = true ↔ P k) →
  shows key dec (delete_matching part f m) (remove_some (part ∘ key) P t).
Proof.
  intros Hs Hq. apply shows_filter; [done|]. intros k x a Ha. specialize (Hq k x a Ha). simpl.
  destruct (matches f (key k) x), (part (key k)); simpl; naive_solver.
Qed.
(** One statement on many records. *)
Lemma writes_many (m : M S unit) c f what args (Q E : meta_state → meta_state → Prop) :
  states_many db m c f →
  (∀ d st, represents d st → (∃ st', represents (put c (f all_of_them (table c d)) d) st' ∧ Q st st')
    ∧ ∀ part, ∃ st', represents (put c (f part (table c d)) d) st' ∧ E st st') →
  writes (attempting what args m) Q E.
Proof.
  intros Hm Hf s st Hst. destruct (Hf _ _ Hst) as [Hq He]. apply wp_attempting. eapply wp_mono; [apply Hm| |].
  - intros a s' Hs'. by rewrite Hs'.
  - intros e s' [part Hs']. rewrite Hs'. apply He.
Qed.
Lemma writes_RemoveFileServer node :
  writes (RemoveFileServer node) (λ st st', st' = wrote (WRemoveNode node) 0 st) (all_or_nothing (wrote (WRemoveNode node) 0)).
Proof.
  intros s st Hst. apply wp_drop_unit. eapply writes_statement; [apply (law_DeleteOne db)| |done].
  intros d st0 Hst0. apply represents_nodes; [done|]. apply (shows_delete IdName); apply Hst0.
Qed.
Lemma writes_RemoveShare g o p :
  writes (RemoveShare g o p) (λ st st', st' = wrote (WRemoveShare g o p) 0 st) (all_or_nothing (wrote (WRemoveShare g o p) 0)).
Proof.
  intros s st Hst. apply wp_drop_unit. eapply writes_statement; [apply (law_DeleteOne db)| |done].
  intros d st0 Hst0. apply represents_shares; [done|]. apply (shows_delete IdShare); apply Hst0.
Qed.
Lemma assigns (u : UserRecord) (now : Z) (m : gmap Id Doc) (t : gmap string string) :
  shows IdName homeDoc m t → shows IdName homeDoc (update_one (IdName (Username u)) (home_update (HomeNodeID u) now) true m) (assign_user u t).
Proof.
  intros Hs. pose proof (shows_update IdName homeDoc _ _ (Username u) (home_update (HomeNodeID u) now) true (λ _, HomeNodeID u) Hs) as Hu.
  unfold assign_user. destruct (t !! Username u) eqn:Hx; simpl in Hu; apply Hu; intros; apply home_of_update.
Qed.
Lemma adds (sh : ShareRecord) (now : Z) (m : gmap Id Doc) (t : gmap shareKey ShareRecord) :
  shows IdShare shareDoc m t → shows IdShare shareDoc (update_one (IdShare (shared_key sh)) (share_update (DisplayName sh) now) true m) (add_share sh t).
Proof.
  intros Hs. set (rec := set_SharePath (NormalizeSharePath (Path sh)) sh).
  pose proof (shows_update IdShare shareDoc _ _ (shared_key sh) (share_update (DisplayName sh) now) true (λ _, rec) Hs) as Hu.
  unfold add_share. fold rec. change (key_of rec) with (shared_key sh).
  destruct (t !! shared_key sh) eqn:Hx; apply Hu; intros; apply (share_of_update (shared_key sh)).
Qed.
Lemma writes_AssignUser user node :
  writes (AssignUser user node) (λ st st', st' = wrote (WAssign user node) 0 st) (all_or_nothing (wrote (WAssign user node) 0)).
Proof.
  unfold AssignUser. case_decide; [apply writes_refused|]. apply writes_now. intros now.
  eapply writes_statement; [apply (law_UpdateOne db)|].
  intros d st0 Hst0. apply represents_users; [done|]. apply (assigns (mkUserRecord user node)), Hst0.
Qed.
Lemma writes_AddShare sh :
  writes (AddShare sh) (λ st st', st' = wrote (WAddShare sh) 0 st) (all_or_nothing (wrote (WAddShare sh) 0)).
Proof.
  unfold AddShare. case_decide; [apply writes_refused|]. apply writes_now. intros now.
  eapply writes_statement; [apply (law_UpdateOne db)|].
  intros d st0 Hst0. apply represents_shares; [done|]. apply adds, Hst0.
Qed.
Lemma remove_every {K A} `{Countable K} (P : K → Prop) `{∀ k, Decision (P k)} (t : gmap K A) :
  remove_some all_of_them P t = filter (λ kv, ¬ P kv.1) t.
Proof. apply map_filter_ext. intros k a _. simpl. unfold all_of_them. tauto. Qed.
Lemma removed_none {K A} `{Countable K} (P : K * A → Prop) `{∀ x, Decision (P x)} (t : gmap K A) : (∀ x, P x) → filter P t = t.
Proof. intros HP. apply map_filter_id. intros. apply HP. Qed.
Lemma remove_users_filter us t : each remove_user us t = filter (λ kv, kv.1 ∉ us) t.
Proof.
  apply map_eq. intros k. unfold remove_user. rewrite each_delete_lookup. apply option_eq. intros h. rewrite map_lookup_filter_Some. simpl.
  case_decide; naive_solver.
Qed.
Lemma writes_RemoveUsers us :
  writes (RemoveUsers us) (λ st st', st' = wrote (WRemoveUsers us) 0 st) (left_behind (WRemoveUsers us) 0).
Proof.
  destruct us as [|u us]; [apply writes_nothing; by intros []|].
  eapply writes_many; [apply (law_DeleteMany db)|].
  intros d st0 Hst0.
  assert (∀ part, represents (put collUsers (delete_matching part (IdIn (u :: us)) (dbUsers d)) d) (with_users (remove_some (part ∘ IdName) (.∈ u :: us)) st0)) as Hp.
  { intros part. apply represents_users; [done|]. apply (shows_delete_matching IdName homeDoc); [apply Hst0|]. intros k x a _. apply bool_decide_eq_true. }
  split; [|intros part; eexists; split; [apply Hp|right; right; by eexists]].
  eexists. split; [apply Hp|]. unfold wrote, with_users. f_equal. rewrite remove_users_filter. apply remove_every.
Qed.
Lemma writes_RemoveSharesInvolving us :
  writes (RemoveSharesInvolving us) (λ st st', st' = wrote (WRemoveInvolving us) 0 st) (left_behind (WRemoveInvolving us) 0).
Proof.
  destruct us as [|u us].
  { apply writes_nothing. intros []. simpl. unfold with_shares, remove_involving. simpl. rewrite removed_none; [done|].
    intros x [Hx|Hx]; by apply elem_of_nil in Hx. }
  eapply writes_many; [apply (law_DeleteMany db)|].
  intros d st0 Hst0.
  assert (∀ part, represents (put collShares (delete_matching part (GranteeOrOwnerIn (u :: us)) (dbShares d)) d)
    (with_shares (remove_some (part ∘ IdShare) (λ k, k.1.1 ∈ u :: us ∨ k.1.2 ∈ u :: us)) st0)) as Hp.
  { intros part. apply represents_shares; [done|]. apply (shows_delete_matching IdShare shareDoc); [apply Hst0|]. intros k x a _. apply bool_decide_eq_true. }
  split; [|intros part; eexists; split; [apply Hp|right; right; by eexists]].
  eexists. split; [apply Hp|]. unfold wrote, with_shares, remove_involving. f_equal.
  apply map_filter_ext. intros k x _. unfold compose, all_of_them. simpl. tauto.
Qed.
Lemma writes_RemoveSharesByOwner os :
  writes (RemoveSharesByOwner os) (λ st st', st' = wrote (WRemoveByOwner os) 0 st) (left_behind (WRemoveByOwner os) 0).
Proof.
  destruct os as [|u os].
  { apply writes_nothing. intros []. simpl. unfold with_shares, remove_by_owner. simpl. rewrite removed_none; [done|].
    intros x Hx; by apply elem_of_nil in Hx. }
  eapply writes_many; [apply (law_DeleteMany db)|].
  intros d st0 Hst0.
  assert (∀ part, represents (put collShares (delete_matching part (OwnerIn (u :: os)) (dbShares d)) d)
    (with_shares (remove_some (part ∘ IdShare) (λ k, k.1.2 ∈ u :: os)) st0)) as Hp.
  { intros part. apply represents_shares; [done|]. apply (shows_delete_matching IdShare shareDoc); [apply Hst0|]. intros k x a _. apply bool_decide_eq_true. }
  split; [|intros part; eexists; split; [apply Hp|right; right; by eexists]].
  eexists. split; [apply Hp|]. unfold wrote, with_shares, remove_by_owner. f_equal.
  apply map_filter_ext. intros k x _. unfold compose, all_of_them. simpl. tauto.
Qed.

(** ** Several statements *)

Lemma wp_find_node node s st Q (E : error → S → Prop) :
  represents (db s) st →
  (∀ r s', db s' = db s → ns_nodes st !! node = Some r → Q r s') →
  (∀ e s', db s' = db s → (errors_Is e ErrNoDocuments = true → ns_nodes st !! node = None) → E e s') →
  wp (find_node node) Q E s.
Proof.
  intros Hst Hq He. unfold find_node. wp_step. eapply wp_mono; [apply (law_FindOne db)| |].
  - intros x s' [Hx Hs']. destruct (shows_Some _ _ _ _ _ _ (r_nodes _ _ Hst) Hx) as (r & Hr & Hn). rewrite Hr. apply wp_ret. by apply Hq.
  - intros e s' [Hno Hs']. apply He; [done|]. intros Hx. eapply shows_None; [apply Hst|by apply Hno].
Qed.
Lemma writes_touch what args node fields (f : FileServerRecord → FileServerRecord) :
  (∀ x r, fileServerDoc (IdName node) x = Some r → fileServerDoc (IdName node) (applied (mkUpdate fields [] []) false x) = Some (f r)) →
  writes (touch_node what args collFileServers node fields)
    (λ st st', st' = with_nodes (alter f node) st ∧ is_Some (ns_nodes st !! node)) (all_or_nothing (with_nodes (alter f node))).
Proof.
  intros Hf s st Hst. unfold touch_node.
  assert (represents (put collFileServers (update_one (IdName node) (mkUpdate fields [] []) false (dbFileServers (db s))) (db s)) (with_nodes (alter f node) st)) as Heff.
  { apply represents_nodes; [done|].
    pose proof (shows_update IdName fileServerDoc _ _ node (mkUpdate fields [] []) false (λ o, default (mkFileServerRecord "" 0 "" 0 "") (f <$> o)) (r_nodes _ _ Hst)) as Hu.
    assert (alter f node (ns_nodes st) = match ns_nodes st !! node with Some a => <[node := f a]> (ns_nodes st) | None => ns_nodes st end) as ->.
    { apply map_eq. intros k. destruct (decide (k = node)) as [->|Hne]; [rewrite lookup_alter_eq|rewrite lookup_alter_ne by done];
        destruct (ns_nodes st !! node) eqn:Hx; rewrite ?lookup_insert_eq, ?lookup_insert_ne by done; simpl; congruence. }
    simpl in Hu. by apply Hu. }
  wp_step. eapply wp_states; [apply (law_UpdateOne db)| |].
  - intros n s' Hn Hs'. simpl in Hn. destruct (dbFileServers (db s) !! IdName node) as [x|] eqn:Hx; rewrite Hn.
    + apply wp_ret. eexists. rewrite Hs'. split; [exact Heff|]. split; [done|].
      destruct (shows_Some _ _ _ _ _ _ (r_nodes _ _ Hst) Hx) as (r & _ & ->). by eexists.
    + apply wp_throw. eexists. rewrite Hs'. split; [exact Heff|by right].
  - intros e s' [Hs'|Hs']; rewrite Hs'; [exists st; split; [done|by left]|eexists; split; [exact Heff|by right]].
Qed.
Lemma writes_RecordHeartbeat node at' status :
  writes (RecordHeartbeat node at' status) (λ st st', st' = wrote (WHeartbeat node at' status) 0 st ∧ is_Some (ns_nodes st !! node))
    (all_or_nothing (wrote (WHeartbeat node at' status) 0)).
Proof. apply writes_now. intros now. apply writes_touch. intros x r. apply node_of_heartbeat. Qed.
Lemma writes_SetFileServerStatus node status :
  writes (SetFileServerStatus node status) (λ st st', st' = wrote (WStatus node status) 0 st ∧ is_Some (ns_nodes st !! node))
    (all_or_nothing (wrote (WStatus node status) 0)).
Proof. apply writes_now. intros now. apply writes_touch. intros x r. apply node_of_status. Qed.

(** A counter that is there counts on. *)
Lemma counter_next d st :
  represents d st →
  represents (put collCounters (update_one (IdName counterNumericFsID) (mkUpdate [] [] [("seq", 1)]) true (dbCounters d)) d) st
  ∧ ∀ x, update_one (IdName counterNumericFsID) (mkUpdate [] [] [("seq", 1)]) true (dbCounters d) !! IdName counterNumericFsID = Some x →
      int_field "seq" x = Some (seq_of d + 1) ∧ 0 ≤ seq_of d.
Proof.
  intros Hst. pose proof (r_counter _ _ Hst) as Hc.
  assert (∀ x, update_one (IdName counterNumericFsID) (mkUpdate [] [] [("seq", 1)]) true (dbCounters d) !! IdName counterNumericFsID = Some x →
      int_field "seq" x = Some (seq_of d + 1) ∧ 0 ≤ seq_of d) as Hnext.
  { intros x. unfold update_one, seq_of. destruct (dbCounters d !! IdName counterNumericFsID) as [y|] eqn:Hy.
    - rewrite lookup_insert_eq. intros [= <-]. destruct (Hc y eq_refl) as (z & Hz & Hpos). simpl. unfold int_field in *.
      unfold applied, set_fields, each. simpl. rewrite lookup_insert_eq. destruct (y !! "seq") as [[]|]; simpl in *; simplify_eq; done.
    - rewrite lookup_insert_eq. by intros [= <-]. }
  split; [|done]. destruct Hst. split; [done..|]. intros x Hx. simpl in Hx. destruct (Hnext x Hx) as [Hs Hpos].
  exists (seq_of d + 1). split; [done|lia].
Qed.
Lemma wp_nextSeq s st Q (E : error → S → Prop) :
  represents (db s) st →
  (∀ s', represents (db s') st → dbFileServers (db s') = dbFileServers (db s) → Q (u64 (seq_of (db s))) s') →
  (∀ e s', represents (db s') st → E e s') →
  wp (nextSeq counterNumericFsID) Q E s.
Proof.
  intros Hst Hq He. destruct (counter_next _ _ Hst) as [Hst' Hnext]. unfold nextSeq. wp_step.
  eapply wp_states; [apply (law_FindOneAndUpdate db)| |].
  - intros x s' Hx Hs'. destruct (Hnext x Hx) as [Hseq Hpos]. wp_step. apply wp_attempting. rewrite Hseq. apply wp_ret.
    rewrite (proj2 (Z.eqb_neq (seq_of (db s) + 1) 0)) by lia. apply wp_ret.
    replace (seq_of (db s) + 1 - 1) with (seq_of (db s)) by lia. apply Hq; by rewrite Hs'.
  - intros e s' [Hs'|Hs']; apply He; by rewrite Hs'.
Qed.

Definition upsert_left rec st st' : Prop := st' = st ∨ ∃ id, st' = wrote (WUpsert rec) id st.
Lemma wp_UpsertFileServer rec s st :
  represents (db s) st →
  wp (UpsertFileServer rec)
    (λ n s', ∃ id, n = NumericID (upserted rec id (ns_nodes st)) ∧ represents (db s') (wrote (WUpsert rec) id st))
    (λ _ s', ∃ st', represents (db s') st' ∧ upsert_left rec st st') s.
Proof.
  intros Hst. unfold UpsertFileServer. case_decide as Hnode; [apply wp_throw; exists st; split; [done|by left]|].
  wp_step. apply wp_Now. intros now s1 H1. rewrite <-H1 in Hst. wp_step. wp_step. eapply wp_find_node; [exact Hst| |].
  - intros r s2 H2 Hr. rewrite <-H2 in Hst. wp_step.
    assert (represents (put collFileServers (update_one (IdName (NodeID rec)) (mkUpdate (mutable rec now) [] []) false (dbFileServers (db s2))) (db s2))
      (wrote (WUpsert rec) 0 st)) as Heff.
    { apply represents_nodes; [done|].
      pose proof (shows_update IdName fileServerDoc _ _ (NodeID rec) (mkUpdate (mutable rec now) [] []) false
        (λ o, set_NumericID (from_option NumericID 0 o) rec) (r_nodes _ _ Hst)) as Hu.
      rewrite Hr in Hu. unfold upserted. rewrite Hr. apply Hu; [|done]. intros x a Ha. by apply node_of_mutable. }
    eapply wp_states; [apply (law_UpdateOne db)| |].
    + intros n s3 _ H3. apply wp_ret. exists 0. unfold upserted. rewrite Hr. split; [done|]. rewrite H3. exact Heff.
    + intros e s3 [H3|H3]; rewrite H3; [exists st; split; [done|by left]|eexists; split; [exact Heff|right; by eexists]].
  - intros e s2 H2 Hnone. rewrite <-H2 in Hst. destruct (errors_Is e ErrNoDocuments) eqn:He; [|apply wp_throw; exists st; split; [done|by left]].
    specialize (Hnone eq_refl). wp_step. eapply wp_nextSeq; [exact Hst| |intros e' s3 H3; exists st; split; [done|by left]].
    intros s3 Hst3 _. clear Hst H1 H2. set (id := u64 (seq_of (db s2))). wp_step.
    assert (represents (put collFileServers (update_one (IdName (NodeID rec)) (mkUpdate (mutable rec now) [("numeric_id", VInt id)] []) true (dbFileServers (db s3))) (db s3))
      (wrote (WUpsert rec) id st)) as Heff.
    { apply represents_nodes; [done|].
      pose proof (shows_update IdName fileServerDoc _ _ (NodeID rec) (mkUpdate (mutable rec now) [("numeric_id", VInt id)] []) true
        (λ o, set_NumericID (from_option NumericID id o) rec) (r_nodes _ _ Hst3)) as Hu.
      rewrite Hnone in Hu. unfold upserted. rewrite Hnone. apply Hu; [|intros _; apply node_of_new]. intros x a Ha. by apply node_of_mutable. }
    eapply wp_states; [apply (law_UpdateOne db)| |].
    + intros n s4 _ H4. change (dbFileServers (db s3)) with (table collFileServers (db s3)) in Heff. rewrite <-H4 in Heff. wp_step. apply wp_attempting. eapply wp_find_node; [exact Heff| |].
      * intros r s5 H5 Hr. apply wp_ret. exists id. rewrite H5. split; [|exact Heff]. simpl in Hr. rewrite lookup_insert_eq in Hr. by injection Hr as <-.
      * intros e' s5 H5 _. eexists. rewrite H5. split; [exact Heff|right; by exists id].
    + intros e' s4 [H4|H4]; rewrite H4; [exists st; split; [done|by left]|eexists; split; [exact Heff|right; by exists id]].
Qed.

(** ** A rename is three statements *)

Lemma wp_write {A} (m : M S A) c f R (g : meta_state → meta_state) what args (Q : A → S → Prop) (E : error → S → Prop) s st :
  states db m c f R → represents (db s) st → represents (put c (f (table c (db s))) (db s)) (g st) →
  (∀ a s', represents (db s') (g st) → Q a s') →
  (∀ e s' st', represents (db s') st' → all_or_nothing g st st' → E e s') →
  wp (attempting what args m) Q E s.
Proof.
  intros Hm Hst Hf Hq He. eapply wp_states; [exact Hm| |].
  - intros a s' _ Hs'. apply Hq. by rewrite Hs'.
  - intros e s' [Hs'|Hs']; [eapply (He _ _ st)|eapply (He _ _ (g st))]; rewrite ?Hs'; try done; [by left|by right].
Qed.
Lemma moved_users d st old new now part :
  old ≠ "" → represents d st →
  represents (put collUsers (update_many part (HomeIs old) (moved_home new now) (dbUsers d)) d) (with_users (rehome_some (part ∘ IdName) old new) st).
Proof.
  intros Hne Hst. apply represents_users; [done|]. apply (shows_imap IdName homeDoc); [apply Hst|].
  intros u x h Hh. simpl. assert (bool_decide (x !! "home_node_id" = Some (VString old)) = bool_decide (h = old)) as ->.
  { apply bool_decide_ext. unfold homeDoc, userDoc, string_field in Hh. destruct (x !! "home_node_id") as [[]|]; simplify_eq/=; naive_solver. }
  case_match; [by rewrite home_of_update|done].
Qed.
Lemma rehome_all old new users : rehome_some all_of_them old new users = rehome old new users.
Proof.
  apply map_eq. intros u. unfold rehome_some, rehome. rewrite map_lookup_imap, lookup_fmap. destruct (users !! u) as [h|]; simpl; [|done].
  f_equal. unfold all_of_them. rewrite andb_true_r. by destruct (decide (h = old)) as [->|]; [rewrite bool_decide_eq_true_2|rewrite bool_decide_eq_false_2].
Qed.
Lemma deleted_node d st node :
  represents d st → represents (put collFileServers (delete (IdName node) (dbFileServers d)) d) (with_nodes (delete node) st).
Proof. intros Hst. apply represents_nodes; [done|]. apply (shows_delete IdName); apply Hst. Qed.
Lemma carried_node d st new rec now :
  represents d st →
  represents (put collFileServers (update_one (IdName new) (carried_over rec now) true (dbFileServers d)) d)
    (with_nodes (λ m, match m !! new with Some _ => m | None => <[new := set_NodeID new rec]> m end) st).
Proof.
  intros Hst. apply represents_nodes; [done|].
  pose proof (shows_update IdName fileServerDoc _ _ new (carried_over rec now) true (default (set_NodeID new rec)) (r_nodes _ _ Hst)) as Hu.
  destruct (ns_nodes st !! new) as [r|] eqn:Hx; simpl in Hu; [rewrite (insert_id (ns_nodes st) new r Hx) in Hu|];
    (apply Hu; [intros x a Ha; exact (node_of_carried new x a rec now Ha)|intros _; exact (node_of_carried_new new rec now)]).
Qed.
Lemma rename_steps old new st r :
  old ≠ new → ns_nodes st !! old = Some r →
  rename old new st =
    with_nodes (λ m, match m !! new with Some _ => m | None => <[new := set_NodeID new r]> m end)
      (with_nodes (delete old) (with_users (rehome old new) st)).
Proof.
  intros Hne Hr. unfold rename. rewrite decide_False by done. unfold with_nodes. simpl. f_equal. unfold rekey. rewrite Hr.
  by destruct (delete old (ns_nodes st) !! new).
Qed.
Lemma wp_RenameFileServer old new s st :
  old ≠ "" → represents (db s) st →
  wp (RenameFileServer old new)
    (λ _ s', represents (db s') (wrote (WRename old new) 0 st) ∧ (old = new ∨ is_Some (ns_nodes st !! old)))
    (λ _ s', ∃ st', represents (db s') st' ∧ left_behind (WRename old new) 0 st st') s.
Proof.
  intros Hold Hst. unfold RenameFileServer. case_decide as Heq.
  { apply wp_ret. simpl. unfold rename. rewrite decide_True by done. auto. }
  case_decide; [apply wp_throw; exists st; split; [done|by left]|]. wp_step. wp_step. eapply wp_find_node; [exact Hst| |].
  2:{ intros e s1 H1 _. apply wp_throw. exists st. rewrite H1. split; [done|by left]. }
  intros r s1 H1 Hr. rewrite <-H1 in Hst. wp_step. apply wp_Now. intros now s2 H2. rewrite <-H2 in Hst. clear H1 H2.
  set (st1 := with_users (rehome old new) st). set (st2 := with_nodes (delete old) st1).
  pose proof (rename_steps old new st r Heq Hr) as Hsteps. fold st1 st2 in Hsteps.
  wp_step. apply wp_attempting. eapply wp_mono; [apply (law_UpdateMany db)| |].
  2:{ intros e s3 [part H3]. eexists. rewrite H3. split; [by apply moved_users|]. right. right. left. by eexists. }
  intros x s3 H3. assert (represents (db s3) st1) as Hst1.
  { rewrite H3. replace st1 with (with_users (rehome_some (all_of_them ∘ IdName) old new) st); [by apply moved_users|].
    unfold st1, with_users. f_equal. apply rehome_all. }
  clear H3. wp_step. eapply (wp_write _ _ _ _ (λ _, st2)); [apply (law_DeleteOne db)|exact Hst1|by apply deleted_node| |].
  2:{ intros e s4 st' Hs' [-> | ->]; eexists; (split; [exact Hs'|]); right; right; [left|by right].
      exists all_of_them. unfold st1, with_users. f_equal. symmetry. apply rehome_all. }
  intros _ s4 Hst2. wp_step. eapply (wp_write _ _ _ _ (λ _, rename old new st)); [apply (law_UpdateOne db)|exact Hst2| | |].
  - rewrite Hsteps. by apply carried_node.
  - intros n s5 Hst3. apply wp_ret. split; [exact Hst3|right; by eexists].
  - intros e s5 st' Hs' [-> | ->]; eexists; (split; [exact Hs'|]); right; [right; by right|by left].
Qed.

(** ** Bulk writes *)

Lemma shows_models {K A B} `{Countable K} (key : K → Id) (dec : Id → Doc → option A) (f : B → WriteModel) (g : B → gmap K A → gmap K A) l m t :
  (∀ b m t, shows key dec m t → shows key dec (update_one (f b).1 (f b).2 true m) (g b t)) →
  shows key dec m t → shows key dec (write_models (map f l) m) (each g l t).
Proof.
  intros Hf. unfold write_models, each. revert m t. induction l as [|b l IH]; intros m t Hs; [done|]. simpl. by apply IH, Hf.
Qed.
Lemma each_insert_perm {B K A} `{Countable K} (k : B → K) (v : B → A) l l' (t : gmap K A) :
  NoDup (k <$> l) → l' ≡ₚ l → each (λ b, <[k b := v b]>) l' t = each (λ b, <[k b := v b]>) l t.
Proof.
  intros Hnd Hp. revert Hnd t. symmetry in Hp. unfold each. induction Hp as [|b l l' Hp IH|a b l|l l' l'' Hp1 IH1 Hp2 IH2]; intros Hnd t; simpl.
  - done.
  - apply NoDup_cons in Hnd as [_ Hnd]. by apply IH.
  - rewrite !fmap_cons in Hnd. apply NoDup_cons in Hnd as [Hb _]. rewrite insert_insert_ne; [done|]. set_solver.
  - rewrite IH2, IH1; [done..|]. by rewrite <-Hp1.
Qed.
Lemma each_assign_perm us us' t : NoDup (Username <$> us) → us' ≡ₚ us → each assign_user us' t = each assign_user us t.
Proof. apply (each_insert_perm Username HomeNodeID). Qed.
Lemma each_add_perm shs shs' t : NoDup (shared_key <$> shs) → shs' ≡ₚ shs → each add_share shs' t = each add_share shs t.
Proof. apply (each_insert_perm shared_key (λ sh, set_SharePath (NormalizeSharePath (Path sh)) sh)). Qed.
Lemma perm_split {A B} (f : A → B) l1 l2 l : l1 ++ l2 ≡ₚ map f l → ∃ k1 k2, k1 ++ k2 ≡ₚ l ∧ l1 = map f k1.
Proof.
  intros Hp. apply Permutation_map_inv in Hp as (k & Hk & Hp). symmetry in Hk, Hp. apply map_eq_app in Hk as (k1 & k2 & -> & <- & <-).
  by exists k1, k2.
Qed.
Lemma represents_bulk_users d st us now :
  represents d st →
  represents (put collUsers (write_models (map (λ u, (IdName (Username u), home_update (HomeNodeID u) now)) us) (dbUsers d)) d)
    (with_users (each assign_user us) st).
Proof.
  intros Hst. apply represents_users; [done|]. apply (shows_models IdName homeDoc); [|apply Hst]. intros u m t. apply assigns.
Qed.
Lemma represents_bulk_shares d st shs now :
  represents d st →
  represents (put collShares (write_models (map (λ sh, (IdShare (shared_key sh), share_update (DisplayName sh) now)) shs) (dbShares d)) d)
    (with_shares (each add_share shs) st).
Proof.
  intros Hst. apply represents_shares; [done|]. apply (shows_models IdShare shareDoc); [|apply Hst]. intros u m t. apply adds.
Qed.

Lemma writes_AssignUsers us :
  NoDup (Username <$> us) →
  writes (AssignUsers us) (λ st st', st' = wrote (WAssignAll us) 0 st) (left_behind (WAssignAll us) 0).
Proof.
  intros Hnd. destruct us as [|u us]; [apply writes_nothing; by intros []|]. unfold AssignUsers. set (us0 := u :: us) in *.
  apply writes_now. intros now. case_decide; [intros s st Hst; apply wp_throw; exists st; split; [done|by left]|].
  intros s st Hst. apply wp_attempting. eapply wp_mono; [apply (law_BulkWrite db)| |].
  - intros _ s' (l' & Hp & ->). apply Permutation_map_inv in Hp as (us' & -> & Hp).
    eexists. split; [by apply represents_bulk_users|]. simpl. unfold with_users. f_equal. by apply each_assign_perm.
  - intros e s' (l' & rest & Hp & ->). apply perm_split in Hp as (us' & rest' & Hp & ->).
    eexists. split; [by apply represents_bulk_users|]. right. right. by exists us', rest'.
Qed.

Lemma share_models_firsts now seen shs models :
  share_models now seen shs = Some models →
  models = map (λ sh, (IdShare (shared_key sh), share_update (DisplayName sh) now)) (firsts seen shs).
Proof.
  revert seen models. induction shs as [|sh shs IH]; intros seen models; simpl; [by intros [= <-]|].
  case_decide; [done|]. case_decide; [apply IH|]. destruct (share_models now _ shs) as [ms|] eqn:Hms; simpl; [|done].
  intros [= <-]. simpl. f_equal. by eapply IH.
Qed.
Lemma firsts_NoDup seen shs : NoDup (shared_key <$> firsts seen shs) ∧ ∀ k, k ∈ shared_key <$> firsts seen shs → k ∉ seen.
Proof.
  revert seen. induction shs as [|sh shs IH]; intros seen; simpl; [split; [apply NoDup_nil_2|set_solver]|].
  case_decide; [apply IH|]. destruct (IH ({[shared_key sh]} ∪ seen)) as [Hnd Hk]. rewrite fmap_cons. split.
  - apply NoDup_cons. split; [|done]. intros Hin%Hk. set_solver.
  - intros k [->|Hin]%elem_of_cons; [done|]. apply Hk in Hin. set_solver.
Qed.
Lemma firsts_all seen shs : NoDup (shared_key <$> shs) → (∀ k, k ∈ shared_key <$> shs → k ∉ seen) → firsts seen shs = shs.
Proof.
  revert seen. induction shs as [|sh shs IH]; intros seen Hnd Hk; simpl; [done|]. rewrite fmap_cons in *. apply NoDup_cons in Hnd as [Hn Hnd].
  rewrite decide_False by (apply Hk, elem_of_cons; by left). f_equal. apply IH; [done|]. intros k Hin [->%elem_of_singleton|Hseen]%elem_of_union; [done|].
  eapply Hk; [apply elem_of_cons; by right|done].
Qed.
Lemma writes_AddShares shs :
  writes (AddShares shs) (λ st st', st' = with_shares (each add_share (firsts ∅ shs)) st) (left_behind (WAddShares shs) 0).
Proof.
  destruct shs as [|sh shs]; [apply writes_nothing; by intros []|]. unfold AddShares. set (shs0 := sh :: shs).
  apply writes_now. intros now s st Hst. destruct (share_models now ∅ shs0) as [models|] eqn:Hm;
    [|apply wp_throw; exists st; split; [done|by left]].
  apply share_models_firsts in Hm as ->. apply wp_attempting. eapply wp_mono; [apply (law_BulkWrite db)| |].
  - intros _ s' (l' & Hp & ->). apply Permutation_map_inv in Hp as (shs' & -> & Hp).
    eexists. split; [by apply represents_bulk_shares|]. unfold with_shares. f_equal. apply each_add_perm; [apply firsts_NoDup|by symmetry].
  - intros e s' (l' & rest & Hp & ->). apply perm_split in Hp as (shs' & rest' & Hp & ->).
    eexists. split; [by apply represents_bulk_shares|]. right. right. by exists shs', rest'.
Qed.

(** ** The snapshot *)

(** A list of what the documents decode to lists the table. *)
Lemma listed {K A R} `{Countable K} (key : K → Id) `{!Inj (=) (=) key} (dec : Id → Doc → option A) (dec' : Id → Doc → option R)
    (keyof : R → K) (val : R → A) m t (l : list (Id * Doc)) (rs : list R) :
  shows key dec m t → (∀ i x, dec i x = val <$> dec' i x) → (∀ k x r, dec' (key k) x = Some r → keyof r = k) →
  (∀ r r', keyof r = keyof r' → val r = val r' → r = r') → l ≡ₚ map_to_list m → Forall2 (λ ix r, dec' ix.1 ix.2 = Some r) l rs →
  (∀ r, r ∈ rs ↔ t !! keyof r = Some (val r)) ∧ NoDup (keyof <$> rs).
Proof.
  intros [Ht Hm] Hdec Hkey Hinj Hl Hrs.
  assert (∀ i x r, m !! i = Some x → dec' i x = Some r → i = key (keyof r)) as Hi.
  { intros i x r Hx Hr. destruct (Hm _ _ Hx) as (k & -> & _). by rewrite (Hkey _ _ _ Hr). }
  assert (∀ i x, (i, x) ∈ l ↔ m !! i = Some x) as Hin by (intros i x; by rewrite Hl, elem_of_map_to_list). split.
  - intros r. rewrite Ht. split.
    + intros Hr. destruct (list_elem_of_lookup_1 _ _ Hr) as [j Hj]. destruct (Forall2_lookup_r _ _ _ _ _ Hrs Hj) as ([i x] & Hix & Hd).
      assert (m !! i = Some x) as Hx by (apply Hin; by eapply list_elem_of_lookup_2). simpl in Hd.
      rewrite <-(Hi _ _ _ Hx Hd), Hx. simpl. by rewrite Hdec, Hd.
    + destruct (m !! key (keyof r)) as [x|] eqn:Hx; simpl; [|done]. rewrite Hdec. intros (r' & Hd & Hv)%fmap_Some.
      assert (r' = r) as -> by (apply Hinj; [by eapply Hkey|done]). apply Hin in Hx as [j Hj]%list_elem_of_lookup_1.
      destruct (Forall2_lookup_l _ _ _ _ _ Hrs Hj) as (r' & Hr' & Hd'). simpl in Hd'. rewrite Hd in Hd'. injection Hd' as <-.
      by eapply list_elem_of_lookup_2.
  - assert (NoDup l.*1) as Hnd by (rewrite Hl; apply NoDup_fst_map_to_list).
    assert (∀ l', (∀ i x, (i, x) ∈ l' → m !! i = Some x) → Forall2 (λ ix r, dec' ix.1 ix.2 = Some r) l' rs → key <$> (keyof <$> rs) = l'.*1) as Hkeys.
    { clear -Hi. intros l' Hin Hf. induction Hf as [|[i x] r l' rs Hd Hf IH]; [done|]. rewrite !fmap_cons. f_equal.
      - symmetry. eapply Hi; [apply Hin, list_elem_of_here|done].
      - apply IH. intros i' x' Hx. by apply Hin, list_elem_of_further. }
    apply (NoDup_fmap_1 key). rewrite (Hkeys l); [done|by intros i x ?%Hin|done].
Qed.
Lemma wp_decode_all {A} (d : Id → Doc → option A) l (Q : list A → S → Prop) (E : error → S → Prop) s :
  (∀ i x, (i, x) ∈ l → is_Some (d i x)) → (∀ rs, Forall2 (λ ix r, d ix.1 ix.2 = Some r) l rs → Q rs s) → wp (decode_all d l) Q E s.
Proof.
  revert Q. induction l as [|[i x] l IH]; intros Q Hd Hq; simpl; [apply wp_ret, Hq; constructor|].
  destruct (Hd i x) as [a Ha]; [apply list_elem_of_here|]. wp_step. rewrite Ha. apply wp_ret. wp_step. apply IH.
  - intros i' x' Hx. by apply Hd, list_elem_of_further.
  - intros rs Hrs. apply wp_ret, Hq. by constructor.
Qed.
Lemma wp_all_of {A} what c (d : Id → Doc → option A) (Q : list A → S → Prop) (E : error → S → Prop) s :
  (∀ i x, table c (db s) !! i = Some x → is_Some (d i x)) →
  (∀ l rs s', l ≡ₚ map_to_list (table c (db s)) → Forall2 (λ ix r, d ix.1 ix.2 = Some r) l rs → db s' = db s → Q rs s') →
  (∀ e s', db s' = db s → E e s') →
  wp (all_of what c d) Q E s.
Proof.
  intros Hd Hq He. unfold all_of. wp_step. apply wp_attempting. eapply wp_mono; [apply (law_Find db)| |].
  - intros l s' [Hl Hs']. assert (l ≡ₚ map_to_list (table c (db s))) as Hl'.
    { rewrite Hl. clear. induction (map_to_list (table c (db s))) as [|[i x] m IH]; [done|]. rewrite filter_cons_True by done. by rewrite IH. }
    apply wp_attempting. apply wp_decode_all.
    + intros i x Hx. apply Hd. by rewrite Hl', elem_of_map_to_list in Hx.
    + intros rs Hrs. by eapply Hq.
  - intros e s' [_ Hs']. by apply He.
Qed.
Lemma shows_decodes {K A} `{Countable K} (key : K → Id) (dec : Id → Doc → option A) m t i x :
  shows key dec m t → m !! i = Some x → is_Some (dec i x).
Proof. intros [_ Hm] Hx. by destruct (Hm _ _ Hx) as (? & _ & ?). Qed.
Lemma wp_LoadSnapshot s st :
  represents (db s) st → wp LoadSnapshot (λ snap s', lists st snap ∧ db s' = db s) (λ _ s', db s' = db s) s.
Proof.
  intros Hst. unfold LoadSnapshot. wp_step. apply wp_all_of; [intros i x; eapply (shows_decodes IdName), Hst| |done].
  intros l1 nodes s1 Hl1 Hnodes H1. wp_step. apply wp_all_of; rewrite H1; [| |done].
  { intros i x Hx. destruct (shows_decodes IdName _ _ _ _ _ (r_users _ _ Hst) Hx) as [h Hh]. unfold homeDoc in Hh.
    destruct (userDoc i x); [by eexists|done]. }
  intros l2 users s2 Hl2 Husers H2. wp_step. apply wp_all_of; rewrite H2; [intros i x; eapply (shows_decodes IdShare), Hst| |done].
  intros l3 shares s3 Hl3 Hshares H3. apply wp_ret. split; [|by rewrite H3]. unfold lists. simpl.
  destruct (listed IdName fileServerDoc fileServerDoc NodeID (λ r, r) _ _ _ _ (r_nodes _ _ Hst)
    (λ i x, ltac:(by destruct (fileServerDoc i x))) (λ k x r Hr, proj1 (proj1 (node_decoded _ _ _) Hr)) (λ _ _ _ Hr, Hr) Hl1 Hnodes) as [? ?].
  destruct (listed IdName homeDoc userDoc Username HomeNodeID _ _ l2 users (r_users _ _ Hst)) as [? ?]; [done| | |done|done|].
  { intros k x r. unfold userDoc. by intros (h & _ & [= <-])%bind_Some. }
  { intros [] []. simpl. by intros -> ->. }
  destruct (listed IdShare shareDoc shareDoc key_of (λ r, r) _ _ l3 shares (r_shares _ _ Hst)) as [? ?]; [|  |done|done|done|done].
  { intros i x. by destruct (shareDoc i x). }
  { intros [[g o] p] x r. unfold shareDoc. by intros (h & _ & [= <-])%bind_Some. }
Qed.

(** ** Every write *)

Definition exec_spec (wr : write) (m : M S unit) : Prop :=
  writes m (λ st st', ∃ id, st' = wrote wr id st ∧ target_known wr st) (λ st st', ∃ id, left_behind wr id st st').
Lemma exec_known wr (m : M S unit) : (∀ st, target_known wr st) → writes m (λ st st', st' = wrote wr 0 st) (left_behind wr 0) → exec_spec wr m.
Proof.
  intros Hk Hm s st Hst. eapply wp_mono; [by apply Hm| |].
  - intros _ s' (st' & Hs' & ->). eexists. split; [done|]. by exists 0.
  - intros _ s' (st' & Hs' & He). exists st'. split; [done|]. by exists 0.
Qed.
Lemma exec_touch wr (m : M S unit) :
  writes m (λ st st', st' = wrote wr 0 st ∧ target_known wr st) (all_or_nothing (wrote wr 0)) → exec_spec wr m.
Proof.
  intros Hm s st Hst. eapply wp_mono; [by apply Hm| |].
  - intros _ s' (st' & Hs' & -> & Hk). eexists. split; [done|]. by exists 0.
  - intros _ s' (st' & Hs' & [-> | ->]); eexists; (split; [exact Hs'|]); exists 0; [by left|right; by left].
Qed.
Lemma exec_statement wr (m : M S unit) :
  (∀ st, target_known wr st) → writes m (λ st st', st' = wrote wr 0 st) (all_or_nothing (wrote wr 0)) → exec_spec wr m.
Proof.
  intros Hk Hm. apply exec_touch. intros s st Hst. eapply wp_mono; [by apply Hm| |done]. intros _ s' (st' & ? & ?). by exists st'.
Qed.
Lemma writes_exec wr : plain_write wr → exec_spec wr (exec wr).
Proof.
  intros Hp. destruct wr; simpl exec.
  - intros s st Hst. wp_step. eapply wp_mono; [by apply wp_UpsertFileServer| |].
    + intros n s' (id & _ & Hs'). apply wp_ret. eexists. split; [exact Hs'|by exists id].
    + intros _ s' (st' & Hs' & [-> |[id ->]]); eexists; (split; [exact Hs'|]); [exists 0; by left|exists id; right; by left].
  - by apply exec_statement, writes_RemoveFileServer.
  - intros s st Hst. eapply wp_mono; [by apply wp_RenameFileServer| |].
    + intros [] s' [Hs' Hk]. eexists. split; [exact Hs'|]. by exists 0.
    + intros _ s' (st' & Hs' & Hl). exists st'. split; [done|by exists 0].
  - apply exec_touch, writes_RecordHeartbeat.
  - apply exec_touch, writes_SetFileServerStatus.
  - by apply exec_statement, writes_AssignUser.
  - by apply exec_known, writes_AssignUsers.
  - by apply exec_known, writes_RemoveUsers.
  - by apply exec_statement, writes_AddShare.
  - apply exec_known; [done|]. intros s st Hst. eapply wp_mono; [by apply writes_AddShares| |done].
    intros _ s' (st' & Hs' & ->). eexists. split; [exact Hs'|]. simpl. rewrite firsts_all; [done|done|set_solver].
  - by apply exec_statement, writes_RemoveShare.
  - by apply exec_known, writes_RemoveSharesInvolving.
  - by apply exec_known, writes_RemoveSharesByOwner.
Qed.

(** C26. The store on MongoDB against the interface it implements, whatever faults the
    database has, for writes whose batch names nothing twice and renames of a node that has
    a name ([plain_write]; of duplicates the code keeps another one than the interface,
    [MongoDemo.duplicates_keep_the_first]): from a database whose documents say [st], every
    such write that succeeds
    leaves a database whose documents say what the interface promises of [st], and only
    if the node it names is there; every one that fails leaves one whose documents are
    well formed and say [st], the whole effect or the part of it that [left_behind]
    lists (a rename is three statements, a batch and a statement on many records are not
    atomic); nothing panics, and a snapshot taken next lists exactly what the documents
    say and changes nothing. *)
Theorem mongo_writes wr s s' r st :
  represents (db s) st → plain_write wr → exec wr s = (s', r) →
  ∃ id st', represents (db s') st'
    ∧ match r with
      | Ok _ => st' = wrote wr id st ∧ target_known wr st
      | Err _ => left_behind wr id st st'
      | Panic _ => False
      end
    ∧ ∀ s2 q, Storage.LoadSnapshot s' = (s2, q) →
        db s2 = db s' ∧ match q with Ok snap => lists st' snap | Err _ => True | Panic _ => False end.
Proof.
  intros Hst Hp He. pose proof (writes_exec wr Hp s st Hst) as Hw. unfold wp in Hw. rewrite He in Hw.
  assert (∀ st', represents (db s') st' → ∀ s2 q, Storage.LoadSnapshot s' = (s2, q) →
    db s2 = db s' ∧ match q with Ok snap => lists st' snap | Err _ => True | Panic _ => False end) as Hsnap.
  { intros st' Hst' s2 q Hq. pose proof (wp_LoadSnapshot s' st' Hst') as Hl. unfold wp in Hl. simpl in Hq. rewrite Hq in Hl.
    destruct q; [by destruct Hl|done|done]. }
  destruct r as [u|e|y]; [destruct Hw as (st' & Hs' & id & Heq)|destruct Hw as (st' & Hs' & id & Hl)|done]; exists id, st'; auto.
Qed.
End spec.

(** ** Opening *)

Section opening.
Context {S : Type} (parse : string → error + string) (Connect : Config → M S unit) (Disconnect client_Ping : M S unit).
Lemma defaults_are_bounds cfg : 0 < ServerSelectionTimeout (applyDefaults cfg) ∧ 0 < OpTimeout (applyDefaults cfg) ∧ AppName (applyDefaults cfg) ≠ "".
Proof.
  unfold applyDefaults, defaultServerSelectionTimeout, defaultOpTimeout. simpl. split_and!; [case_match; lia..|by case_decide].
Qed.
(** A store is opened only when its server answered, and without a URI or with one that
    names no database nobody is called. *)
Lemma Open_answers cfg s s' name :
  Open parse Connect Disconnect client_Ping cfg s = (s', Ok name) →
  URI cfg ≠ "" ∧ resolveDatabase parse cfg = inr name ∧ name ≠ ""
  ∧ ∃ s1, Connect (applyDefaults cfg) s = (s1, Ok tt) ∧ client_Ping s1 = (s', Ok tt).
Proof.
  unfold Open. change (URI (applyDefaults cfg)) with (URI cfg). case_decide as Hu; [discriminate|].
  change (resolveDatabase parse (applyDefaults cfg)) with (resolveDatabase parse cfg). destruct (resolveDatabase parse cfg) as [e|n] eqn:Hn; [discriminate|].
  unfold attempting, catch, mbind, M_bind. destruct (Connect _ s) as [s1 [[]|e|y]] eqn:Hc; simpl; [|discriminate..].
  destruct (client_Ping s1) as [s2 [[]|e|y]] eqn:Hp; simpl; [|by destruct (Disconnect s2) as [? [| |]]|discriminate].
  intros [= <- <-]. split_and!; [done|done| |by exists s1].
  unfold resolveDatabase in Hn. case_decide; [congruence|]. destruct (parse (URI cfg)) as [|p]; [done|]. injection Hn as <-. by case_decide.
Qed.
Lemma Open_refuses cfg s : URI cfg = "" → Open parse Connect Disconnect client_Ping cfg s = (s, Err (Errorf "mongo: URI is required" [])).
Proof. intros Hu. unfold Open. change (URI (applyDefaults cfg)) with (URI cfg). by rewrite decide_True. Qed.
End opening.
