(* ===== verification/MongoDemo.v ===== *)
(** * An executable database for the Mongo store

    [mem_driver] keeps the collections in the state and answers the statements from them;
    a list of faults says what goes wrong with the statements to come.  It satisfies
    [DriverLaws] and is the database of the witness and of the examples. *)
From S2P Require Import Prelude GoStd Storage Memory Mongo MongoSpec.
#[global] Open Scope Z_scope.

(** What becomes of a statement: it is carried out, it is refused, it is carried out and
    the answer is lost, it stops having reached only some documents, or (a batch) it is
    carried out in the opposite order. *)
Inductive Fault := FNone | FRefused | FLost | FPart (ids : list Id) | FReversed.
Record MongoWorld := mkMongoWorld { mdb : DB; faults : list Fault }.
Definition empty_db : DB := mkDB ∅ ∅ ∅ ∅.
Definition mongo_world (l : list Fault) : MongoWorld := mkMongoWorld empty_db l.

Definition broken : error := Errorf "connection closed" [].
Definition next_fault : M MongoWorld Fault := λ w, (mkMongoWorld (mdb w) (tail (faults w)), Ok (default FNone (head (faults w)))).
Definition change (c : Coll) (f : gmap Id Doc → gmap Id Doc) : M MongoWorld unit := λ w,
  (mkMongoWorld (put c (f (table c (mdb w))) (mdb w)) (faults w), Ok tt).
Definition read (c : Coll) : M MongoWorld (gmap Id Doc) := λ w, (w, Ok (table c (mdb w))).
(** A statement on one document with the answer [R] on the collection before it. *)
Definition statement {A} (c : Coll) (f : gmap Id Doc → gmap Id Doc) (answer : gmap Id Doc → option A) : M MongoWorld A :=
  fault ← next_fault;
  match fault with
  | FRefused | FPart _ => throw broken
  | FLost => change c f ;; throw broken
  | _ => m ← read c; change c f ;; match answer m with Some a => mret a | None => throw ErrNoDocuments end
  end.
Definition looking {A} (c : Coll) (answer : gmap Id Doc → option A) : M MongoWorld A :=
  fault ← next_fault;
  match fault with
  | FNone | FReversed => m ← read c; match answer m with Some a => mret a | None => throw ErrNoDocuments end
  | _ => throw broken
  end.
Definition many (c : Coll) (f : (Id → bool) → gmap Id Doc → gmap Id Doc) : M MongoWorld unit :=
  fault ← next_fault;
  match fault with
  | FNone | FReversed => change c (f all_of_them)
  | FRefused => change c (f (λ _, false)) ;; throw broken
  | FLost => change c (f all_of_them) ;; throw broken
  | FPart ids => change c (f (λ i, bool_decide (i ∈ ids))) ;; throw broken
  end.
Definition batch (c : Coll) (l : list WriteModel) : M MongoWorld unit :=
  fault ← next_fault;
  match fault with
  | FNone => change c (write_models l)
  | FReversed => change c (write_models (reverse l))
  | FRefused => change c (write_models []) ;; throw broken
  | FLost => change c (write_models l) ;; throw broken
  | FPart ids => change c (write_models (filter (λ wm, wm.1 ∈ ids) l)) ;; throw broken
  end.

#[export] Instance mem_driver : Driver MongoWorld := {
  Find c f := looking c (λ m, Some (filter (λ kv, matches f kv.1 kv.2 = true) (map_to_list m)));
  FindOne c i := looking c (λ m, m !! i);
  UpdateOne c i u upsert := statement c (update_one i u upsert) (λ m, Some (if m !! i then 1 else 0));
  UpdateMany c f u := many c (λ part, update_many part f u);
  DeleteOne c i := statement c (delete i) (λ _, Some tt);
  DeleteMany c f := many c (λ part, delete_matching part f);
  BulkWrite := batch;
  FindOneAndUpdate c i u := statement c (update_one i u true) (λ m, update_one i u true m !! i);
  Now := mret 1776323757;
}.

Lemma statement_states {A} c f (answer : gmap Id Doc → option A) (R : gmap Id Doc → A → Prop) :
  (∀ m, ∃ a, answer m = Some a ∧ R m a) → states mdb (statement c f answer) c f R.
Proof.
  intros Ha w. unfold wp, statement, mbind, M_bind, next_fault, read, change. simpl.
  destruct (Ha (table c (mdb w))) as (a & Heq & HR).
  destruct (default FNone (head (faults w))); simpl; rewrite ?Heq; simpl; auto.
Qed.
Lemma looking_looks {A} c (answer : gmap Id Doc → option A) (R : gmap Id Doc → A → Prop) (E : gmap Id Doc → error → Prop) :
  (∀ m a, answer m = Some a → R m a) → (∀ m, answer m = None → E m ErrNoDocuments) → (∀ m, E m broken) →
  looks mdb (looking c answer) c R E.
Proof.
  intros HR HE Hb w. unfold wp, looking, mbind, M_bind, next_fault, read. simpl.
  destruct (default FNone (head (faults w))); simpl; auto; destruct (answer (table c (mdb w))) eqn:Ha; simpl; auto.
Qed.
Lemma many_states c f : states_many mdb (many c f) c f.
Proof.
  intros w. unfold wp, many, mbind, M_bind, next_fault, change. simpl.
  destruct (default FNone (head (faults w))); simpl; eauto.
Qed.
#[export] Instance mem_driver_laws : DriverLaws mdb.
Proof.
  split.
  - intros c f. apply looking_looks; [by intros m a [= <-]|done..].
  - intros c i. apply looking_looks; [done|done|]. intros m. vm_compute. discriminate.
  - intros c i u upsert. apply statement_states. intros m. by eexists.
  - intros c f u. apply many_states.
  - intros c i. apply statement_states. intros m. by eexists.
  - intros c f. apply many_states.
  - intros c i u. apply statement_states. intros m. unfold update_one. destruct (m !! i); rewrite lookup_insert_eq; by eexists.
  - intros c l w. unfold wp. simpl. unfold batch, mbind, M_bind, next_fault, change. simpl.
    destruct (default FNone (head (faults w))) as [| | |ids|]; simpl.
    + by exists l.
    + exists [], l. done.
    + exists l, []. rewrite app_nil_r. done.
    + exists (filter (λ wm, wm.1 ∈ ids) l), (filter (λ wm, wm.1 ∉ ids) l). split; [|done].
      clear. induction l as [|wm l IH]; [done|]. rewrite !filter_cons. destruct (decide (wm.1 ∈ ids)) as [Hin|Hin].
      * rewrite decide_False by tauto. simpl. by rewrite IH.
      * rewrite decide_True by done. by rewrite <-Permutation_middle, IH.
    + exists (reverse l). split; [apply reverse_Permutation|done].
  - by intros w.
Qed.

(** ** What the documents say *)

Lemma shows_empty {K A} `{Countable K} (key : K → Id) (dec : Id → Doc → option A) : shows key dec ∅ ∅.
Proof. split; [intros k; by rewrite !lookup_empty|by intros i x Hx; rewrite lookup_empty in Hx]. Qed.
Lemma represents_empty : represents empty_db (mkMetaState ∅ ∅ ∅).
Proof. split; [apply shows_empty..|]. simpl. intros x Hx. by apply lookup_empty_Some in Hx. Qed.

(** A node that registered before nodes had names, two users on it and a share. *)
Definition demo_node : FileServerRecord := mkFileServerRecord "addr:10.0.0.1:50052" 0 "10.0.0.1:50052" 1776323757 "healthy".
Definition demo_share : ShareRecord := mkShareRecord "bob" "alice" "alice/a" "a".
Definition demo_home : Doc := {[ "home_node_id" := VString "addr:10.0.0.1:50052" ]}.
Definition demo_db : DB := mkDB
  (<[IdName "addr:10.0.0.1:50052" := set_fields (mutable demo_node 0) {[ "numeric_id" := VInt 0 ]}]> ∅)
  (<[IdName "alice" := demo_home]> (<[IdName "bob" := demo_home]> ∅))
  (<[IdShare ("bob", "alice", "alice/a") := {[ "display_name" := VString "a" ]}]> ∅)
  (<[IdName "numeric_fs_id" := {[ "seq" := VInt 1 ]}]> ∅).
Definition demo_tables : meta_state := mkMetaState
  (<["addr:10.0.0.1:50052" := demo_node]> ∅)
  (<["alice" := "addr:10.0.0.1:50052"]> (<["bob" := "addr:10.0.0.1:50052"]> ∅))
  (<[("bob", "alice", "alice/a") := demo_share]> ∅).
Lemma demo_represents : represents demo_db demo_tables.
Proof.
  split.
  - apply (shows_insert IdName); [apply shows_empty|reflexivity].
  - apply (shows_insert IdName); [apply (shows_insert IdName); [apply shows_empty|reflexivity]|reflexivity].
  - apply (shows_insert IdShare); [apply shows_empty|reflexivity].
  - simpl. intros x [[_ <-]|[_ Hx]]%lookup_insert_Some; [by exists 1|by apply lookup_empty_Some in Hx].
Qed.

(** ** Examples *)

Definition snap_of (w : MongoWorld) : res MetaSnapshot := (LoadSnapshot (mkMongoWorld (mdb w) [])).2.
(** The rename breaks after its first statement: the users are homed on a node that does
    not exist, the node has its old name. *)
Definition renamed (l : list Fault) : MongoWorld * res unit := RenameFileServer "addr:10.0.0.1:50052" "fs1" (mkMongoWorld demo_db l).
Example rename_half_way :
  let (w, r) := renamed [FNone; FNone; FRefused] in
  r = Err (Wrapf "mongo: remove fileserver %s: %w" ["addr:10.0.0.1:50052"] broken)
  ∧ snap_of w = Ok (mkMetaSnapshot [demo_node] [mkUserRecord "alice" "fs1"; mkUserRecord "bob" "fs1"] [demo_share]).
Proof. vm_compute. split; reflexivity. Qed.
(** The retry of the registration finds the users on the new name and repairs it. *)
Example rename_again :
  let (w, r) := renamed [FNone; FNone; FRefused] in
  let (w', r') := RenameFileServer "addr:10.0.0.1:50052" "fs1" w in
  r' = Ok tt
  ∧ snap_of w' = Ok (mkMetaSnapshot [set_NodeID "fs1" demo_node] [mkUserRecord "alice" "fs1"; mkUserRecord "bob" "fs1"] [demo_share]).
Proof. vm_compute. split; reflexivity. Qed.
(** It breaks one statement later: the node is in no document any more, and neither the
    retry nor the next registration gets its numeric id back. *)
Example rename_loses_the_node :
  let (w, r) := renamed [FNone; FNone; FNone; FRefused] in
  let (w', r') := RenameFileServer "addr:10.0.0.1:50052" "fs1" w in
  let (w'', n) := UpsertFileServer (set_NodeID "fs1" demo_node) w' in
  is_ok r = false ∧ r' = Err ErrNotFound
  ∧ snap_of w' = Ok (mkMetaSnapshot [] [mkUserRecord "alice" "fs1"; mkUserRecord "bob" "fs1"] [demo_share])
  ∧ n = Ok 1.
Proof. vm_compute. auto. Qed.

(** Two shares with one key in a batch: this store keeps the first display name, the
    store in memory the last. *)
Definition twice : list ShareRecord :=
  [mkShareRecord "bob" "alice" "alice/a" "first"; mkShareRecord "bob" "alice" "/alice/a/" "last"].
Example duplicates_keep_the_first :
  let (w, r) := AddShares twice (mongo_world []) in
  r = Ok tt ∧ snap_of w = Ok (mkMetaSnapshot [] [] [mkShareRecord "bob" "alice" "alice/a" "first"]).
Proof. vm_compute. split; reflexivity. Qed.
Example duplicates_keep_the_last_in_memory :
  let (w, r) := Memory.AddShares twice (mkMemWorld New []) in
  r = Ok tt ∧ (Memory.LoadSnapshot w).2 = Ok (mkMetaSnapshot [] [] [mkShareRecord "bob" "alice" "alice/a" "last"]).
Proof. vm_compute. split; reflexivity. Qed.
(** A node without a name is refused here and accepted in memory. *)
Example nameless_node :
  is_ok (UpsertFileServer (set_NodeID "" demo_node) (mongo_world [])).2 = false
  ∧ is_ok (Memory.UpsertFileServer (set_NodeID "" demo_node) (mkMemWorld New [])).2 = true.
Proof. vm_compute. split; reflexivity. Qed.

Definition demo_rename : write := WRename "addr:10.0.0.1:50052" "fs1".
Definition demo_renamed : MongoWorld * res unit := exec demo_rename (mkMongoWorld demo_db [FNone; FNone; FNone; FLost]).
Lemma mongo_writes_witness :
  is_ok demo_renamed.2 = false ∧
  ∃ id st', represents (mdb demo_renamed.1) st'
    ∧ match demo_renamed.2 with
      | Ok _ => st' = wrote demo_rename id demo_tables ∧ target_known demo_rename demo_tables
      | Err _ => left_behind demo_rename id demo_tables st'
      | Panic _ => False
      end
    ∧ ∀ s2 q, Storage.LoadSnapshot demo_renamed.1 = (s2, q) →
        mdb s2 = mdb demo_renamed.1 ∧ match q with Ok snap => lists st' snap | Err _ => True | Panic _ => False end.
Proof.
  split; [reflexivity|].
  apply (mongo_writes mdb demo_rename (mkMongoWorld demo_db [FNone; FNone; FNone; FLost]) demo_renamed.1 demo_renamed.2 demo_tables).
  - exact demo_represents.
  - discriminate.
  - unfold demo_renamed. destruct (exec demo_rename _). reflexivity.
Defined.
