(* ===== verification/Conformance.v ===== *)
(** * The contract suite of the stores (internal/storage/storagetest/conformance.go)

    The sixteen tests as programs over the interface [MetaStore]: [must] stops a test when
    a call fails, [fatal_if] when an assertion does.  The ranges over maps take the order
    as an argument.  The theorem runs the suite on the model of each of the two stores. *)
From S2P Require Import Prelude GoStd Storage Memory Mongo MongoDemo.
#[global] Open Scope Z_scope.

Section suite.
Context {S : Type} `{MetaStore S}.

Definition Fatalf {A} (what : string) : M S A := throw (Errorf what []).
Definition must {A} (what : string) (m : M S A) : M S A :=
  r ← catch m; match r with inl e => throw (Wrapf (what +:+ ": %v") [] e) | inr a => mret a end.
Definition fatal_if (b : bool) (what : string) : M S unit := if b then Fatalf what else mret tt.
Definition wants_not_found {A} (what : string) (m : M S A) : M S unit :=
  r ← catch m; fatal_if (match r with inl e => negb (errors_Is e ErrNotFound) | inr _ => true end) what.
(** [snap, _ := s.LoadSnapshot(c)]: a snapshot that failed is nil. *)
Definition snapshot : M S MetaSnapshot :=
  r ← catch Storage.LoadSnapshot; match r with inl _ => panic "nil pointer dereference" | inr snap => mret snap end.
Definition at_0 {A} (l : list A) : M S A := match l with a :: _ => mret a | [] => panic "index out of range" end.
Definition is_ {A} `{EqDecision A} (x y : A) : bool := bool_decide (x = y).
Definition isnt {A} `{EqDecision A} (x y : A) : bool := negb (is_ x y).
Definition nodes_of (snap : MetaSnapshot) : gmap string FileServerRecord := each (λ r, <[NodeID r := r]>) (FileServers snap) ∅.
Definition node_in (m : gmap string FileServerRecord) (n : string) : FileServerRecord := default (mkFileServerRecord "" 0 "" 0 "") (m !! n).
Definition homes_of (snap : MetaSnapshot) : gmap string string := each assign_user (Users snap) ∅.
Definition home_in (m : gmap string string) (u : string) : string := default "" (m !! u).
(** A record with the fields a test gives. *)
Definition fs_rec (node address status : string) : FileServerRecord := mkFileServerRecord node 0 address 0 status.

Definition testEmptySnapshot : M S unit :=
  snap ← must "LoadSnapshot" Storage.LoadSnapshot;
  fatal_if (isnt (length (FileServers snap)) 0%nat || isnt (length (Users snap)) 0%nat || isnt (length (Shares snap)) 0%nat)
    "expected empty snapshot".

Definition testNumericIDAllocation : M S unit :=
  first ← must "UpsertFileServer fs1" (Storage.UpsertFileServer (fs_rec "fs1" "10.0.0.1:50052" "healthy"));
  second ← must "UpsertFileServer fs2" (Storage.UpsertFileServer (fs_rec "fs2" "10.0.0.2:50052" "healthy"));
  fatal_if (is_ first second) "distinct nodes shared numeric id" ;;
  again ← must "re-upsert fs1" (Storage.UpsertFileServer (fs_rec "fs1" "10.0.0.1:50052" "healthy"));
  fatal_if (isnt again first) "numeric id changed on re-upsert".

Definition testNodeIdentitySurvivesAddressChange : M S unit :=
  original ← must "initial upsert" (Storage.UpsertFileServer (fs_rec "fs1" "10.7.52.85:50052" "healthy"));
  moved ← must "upsert after address change" (Storage.UpsertFileServer (fs_rec "fs1" "10.0.171.38:50052" "healthy"));
  fatal_if (isnt moved original) "address change allocated a new numeric id" ;;
  snap ← must "LoadSnapshot" Storage.LoadSnapshot;
  fatal_if (isnt (length (FileServers snap)) 1%nat) "address change created a phantom node" ;;
  got ← at_0 (FileServers snap);
  fatal_if (isnt (Address got) "10.0.171.38:50052") "address not updated in place".

Definition testRemoveFileServer : M S unit :=
  fs1ID ← must "upsert fs1" (Storage.UpsertFileServer (fs_rec "fs1" "10.0.0.1:50052" "healthy"));
  fs2ID ← must "upsert fs2" (Storage.UpsertFileServer (fs_rec "fs2" "10.0.0.2:50052" "healthy"));
  must "assign alice" (Storage.AssignUser "alice" "fs1") ;;
  must "remove fs1" (Storage.RemoveFileServer "fs1") ;;
  snap ← must "LoadSnapshot" Storage.LoadSnapshot;
  fatal_if (isnt (NodeID <$> FileServers snap) ["fs2"]) "expected only fs2 to remain" ;;
  fatal_if (isnt (Users snap) [mkUserRecord "alice" "fs1"]) "RemoveFileServer must not touch user records" ;;
  must "second remove of fs1 must be idempotent" (Storage.RemoveFileServer "fs1") ;;
  must "remove of unknown node must be idempotent" (Storage.RemoveFileServer "never-registered") ;;
  fs1Again ← must "re-upsert fs1" (Storage.UpsertFileServer (fs_rec "fs1" "10.0.0.1:50052" "healthy"));
  fatal_if (is_ fs1Again fs1ID || is_ fs1Again fs2ID) "numeric id recycled after removal".

Definition testHeartbeat : M S unit :=
  must "upsert" (Storage.UpsertFileServer (fs_rec "fs1" "a:1" "stale")) ;;
  must "RecordHeartbeat" (Storage.RecordHeartbeat "fs1" 1776323757 "healthy") ;;
  snap ← must "LoadSnapshot" Storage.LoadSnapshot;
  rec ← at_0 (FileServers snap);
  fatal_if (isnt (LastHeartbeatUnix rec) 1776323757) "heartbeat not recorded" ;;
  fatal_if (isnt (Status rec) "healthy") "status not updated".

Definition testHeartbeatUnknownNode (now : Z) : M S unit :=
  wants_not_found "expected ErrNotFound for unknown node" (Storage.RecordHeartbeat "nope" now "healthy").

(** [range map[string]string{...}] *)
Definition rename_homes : list (string * string) :=
  [("alice", "addr:10.0.0.1:50052"); ("bob", "addr:10.0.0.1:50052"); ("carol", "fs2")].
(** The test up to the rename of an absent node, and after it. *)
Definition rename_legacy (order : list (string * string)) : M S Z :=
  legacyID ← must "upsert legacy" (Storage.UpsertFileServer
    (mkFileServerRecord "addr:10.0.0.1:50052" 0 "10.0.0.1:50052" 1776323757 "healthy"));
  fs2ID ← must "upsert fs2" (Storage.UpsertFileServer (fs_rec "fs2" "10.0.0.2:50052" "healthy"));
  for_each order (λ un, must ("assign " +:+ un.1) (Storage.AssignUser un.1 un.2)) ;;
  must "AddShare" (Storage.AddShare (mkShareRecord "bob" "alice" "alice/a" "a")) ;;
  must "RenameFileServer" (Storage.RenameFileServer "addr:10.0.0.1:50052" "fs1") ;;
  snap ← must "LoadSnapshot" Storage.LoadSnapshot;
  let nodes := nodes_of snap in
  fatal_if (isnt (size nodes) 2%nat) "rename must replace the old record, not add one" ;;
  fs1 ← match nodes !! "fs1" with None => Fatalf "fs1 missing after rename" | Some fs1 => mret fs1 end;
  fatal_if (isnt (NumericID fs1) legacyID) "rename changed the numeric id" ;;
  fatal_if (isnt (Address fs1) "10.0.0.1:50052" || isnt (LastHeartbeatUnix fs1) 1776323757 || isnt (Status fs1) "healthy") "rename lost record fields" ;;
  fatal_if (isnt (NumericID (node_in nodes "fs2")) fs2ID) "rename touched an unrelated node" ;;
  let homes := homes_of snap in
  fatal_if (isnt (home_in homes "alice") "fs1" || isnt (home_in homes "bob") "fs1") "users did not follow the rename" ;;
  fatal_if (isnt (home_in homes "carol") "fs2") "rename moved a user homed elsewhere" ;;
  fatal_if (isnt (length (Shares snap)) 1%nat) "rename must not touch shares" ;;
  wants_not_found "renaming an absent node" (Storage.RenameFileServer "addr:10.0.0.1:50052" "fs1") ;;
  must "self-rename" (Storage.RenameFileServer "fs1" "fs1") ;;
  mret legacyID.
Definition rename_onto : M S unit :=
  fs3ID ← must "upsert fs3" (Storage.UpsertFileServer (fs_rec "fs3" "10.0.0.3:50052" "healthy"));
  must "assign dave" (Storage.AssignUser "dave" "fs3") ;;
  must "rename onto existing" (Storage.RenameFileServer "fs2" "fs3") ;;
  snap ← snapshot;
  let nodes := nodes_of snap in
  fatal_if (bool_decide (is_Some (nodes !! "fs2")) || isnt (size nodes) 2%nat) "source must be gone after rename onto existing" ;;
  fatal_if (isnt (NumericID (node_in nodes "fs3")) fs3ID || isnt (Address (node_in nodes "fs3")) "10.0.0.3:50052") "existing target record must be kept" ;;
  let homes := homes_of snap in
  fatal_if (isnt (home_in homes "carol") "fs3" || isnt (home_in homes "dave") "fs3") "users not merged onto target".
Definition testRenameFileServer (order : list (string * string)) : M S unit := rename_legacy order ;; rename_onto.

Definition testStatus : M S unit :=
  must "upsert" (Storage.UpsertFileServer (fs_rec "fs1" "a:1" "healthy")) ;;
  must "SetFileServerStatus" (Storage.SetFileServerStatus "fs1" "stale") ;;
  snap ← snapshot; rec ← at_0 (FileServers snap);
  fatal_if (isnt (Status rec) "stale") "status" ;;
  wants_not_found "status on unknown node" (Storage.SetFileServerStatus "nope" "stale").

Definition testUserAssignment : M S unit :=
  must "AssignUser alice" (Storage.AssignUser "alice@x.edu" "fs1") ;;
  must "AssignUser bob" (Storage.AssignUser "bob@x.edu" "fs1") ;;
  must "reassign alice" (Storage.AssignUser "alice@x.edu" "fs2") ;;
  snap ← snapshot;
  fatal_if (isnt (length (Users snap)) 2%nat) "expected 2 users" ;;
  fatal_if (isnt (home_in (homes_of snap) "alice@x.edu") "fs2") "alice not reassigned" ;;
  must "RemoveUsers" (Storage.RemoveUsers ["bob@x.edu"]) ;;
  snap ← snapshot;
  fatal_if (isnt (Username <$> Users snap) ["alice@x.edu"]) "RemoveUsers left".

Definition bulk_shares : list ShareRecord :=
  [mkShareRecord "bob" "alice" "/alice/a/" "a"; mkShareRecord "bob" "alice" "alice/a" "a"; mkShareRecord "carol" "alice" "alice/b" "b";
   mkShareRecord "alice" "bob" "bob/c" "c"; mkShareRecord "carol" "dave" "dave/d" "d"; mkShareRecord "dave" "erin" "erin/e" "e"].
Definition testBulkWrites : M S unit :=
  must "AssignUsers(nil)" (Storage.AssignUsers []) ;;
  must "AddShares(nil)" (Storage.AddShares []) ;;
  must "RemoveSharesByOwner()" (Storage.RemoveSharesByOwner []) ;;
  must "RemoveSharesInvolving()" (Storage.RemoveSharesInvolving []) ;;
  must "AssignUser" (Storage.AssignUser "alice" "fs9") ;;
  must "AssignUsers" (Storage.AssignUsers [mkUserRecord "alice" "fs1"; mkUserRecord "bob" "fs1"; mkUserRecord "carol" "fs2"]) ;;
  must "AddShares" (Storage.AddShares bulk_shares) ;;
  must "AddShares again" (Storage.AddShares bulk_shares) ;;
  snap ← must "LoadSnapshot" Storage.LoadSnapshot;
  let homes := homes_of snap in
  fatal_if (isnt (size homes) 3%nat || isnt (home_in homes "alice") "fs1" || isnt (home_in homes "bob") "fs1" || isnt (home_in homes "carol") "fs2") "AssignUsers wrote" ;;
  fatal_if (isnt (length (Shares snap)) 5%nat) "AddShares must dedupe on the normalised key" ;;
  must "RemoveSharesByOwner" (Storage.RemoveSharesByOwner ["alice"; "bob"]) ;;
  snap ← snapshot;
  fatal_if (isnt (length (Shares snap)) 2%nat) "expected dave->carol and erin->dave to survive" ;;
  fatal_if (existsb (λ sh, is_ (Owner sh) "alice" || is_ (Owner sh) "bob") (Shares snap)) "grant by a republishing owner survived" ;;
  must "RemoveSharesInvolving" (Storage.RemoveSharesInvolving ["carol"; "erin"]) ;;
  snap ← snapshot;
  fatal_if (isnt (length (Shares snap)) 0%nat) "expected no shares".

Definition testShareIdempotent : M S unit :=
  for_each [0; 1; 2] (λ i, must ("AddShare #" +:+ pretty i) (Storage.AddShare (mkShareRecord "bob" "alice" "alice/proj" "proj"))) ;;
  snap ← snapshot;
  fatal_if (isnt (length (Shares snap)) 1%nat) "AddShare not idempotent".

Definition testMultipleSharesFromSameOwner : M S unit :=
  must "AddShare proj1" (Storage.AddShare (mkShareRecord "bob" "alice" "alice/proj1" "proj1")) ;;
  must "AddShare proj2" (Storage.AddShare (mkShareRecord "bob" "alice" "alice/proj2" "proj2")) ;;
  snap ← snapshot;
  fatal_if (isnt (length (Shares snap)) 2%nat) "second share from same owner was dropped".

Definition testShareRemovalIgnoresPathFormatting : M S unit :=
  must "AddShare" (Storage.AddShare (mkShareRecord "bob" "alice" "/alice/proj" "proj")) ;;
  must "RemoveShare" (Storage.RemoveShare "bob" "alice" "alice/proj") ;;
  snap ← snapshot;
  fatal_if (isnt (length (Shares snap)) 0%nat) "unshare did not revoke access".

Definition add_all (l : list ShareRecord) : M S unit := for_each l (λ sh, must "AddShare" (Storage.AddShare sh)).
Definition testRemoveSharesInvolving : M S unit :=
  add_all [mkShareRecord "bob" "alice" "alice/a" "a"; mkShareRecord "carol" "alice" "alice/b" "b";
           mkShareRecord "alice" "dave" "dave/c" "c"; mkShareRecord "carol" "dave" "dave/d" "d"] ;;
  must "RemoveSharesInvolving" (Storage.RemoveSharesInvolving ["alice"]) ;;
  snap ← snapshot;
  fatal_if (isnt (length (Shares snap)) 1%nat) "expected only dave->carol to survive" ;;
  sh ← at_0 (Shares snap);
  fatal_if (isnt (Owner sh) "dave" || isnt (Grantee sh) "carol") "wrong survivor".
Definition testRemoveSharesByOwner : M S unit :=
  add_all [mkShareRecord "bob" "alice" "alice/a" "a"; mkShareRecord "carol" "alice" "alice/b" "b"; mkShareRecord "alice" "dave" "dave/c" "c"] ;;
  must "RemoveSharesByOwner" (Storage.RemoveSharesByOwner ["alice"]) ;;
  snap ← snapshot;
  fatal_if (isnt (length (Shares snap)) 1%nat) "expected dave->alice to survive" ;;
  sh ← at_0 (Shares snap);
  fatal_if (isnt (Owner sh) "dave" || isnt (Grantee sh) "alice") "wrong survivor".

Definition testSnapshotRoundTrip : M S unit :=
  must "upsert" (Storage.UpsertFileServer (mkFileServerRecord "fs1" 0 "10.0.0.1:50052" 1776323757 "healthy")) ;;
  must "AssignUser" (Storage.AssignUser "alice" "fs1") ;;
  must "AddShare" (Storage.AddShare (mkShareRecord "bob" "alice" "alice/shared" "shared")) ;;
  snap ← must "LoadSnapshot" Storage.LoadSnapshot;
  fatal_if (isnt (length (FileServers snap)) 1%nat || isnt (length (Users snap)) 1%nat || isnt (length (Shares snap)) 1%nat) "unexpected snapshot" ;;
  fs ← at_0 (FileServers snap);
  fatal_if (isnt (NodeID fs) "fs1" || isnt (Address fs) "10.0.0.1:50052" || isnt (LastHeartbeatUnix fs) 1776323757 || isnt (Status fs) "healthy")
    "fileserver round-trip lost data" ;;
  sh ← at_0 (Shares snap);
  fatal_if (isnt (Grantee sh) "bob" || isnt (Owner sh) "alice" || isnt (Path sh) "alice/shared" || isnt (DisplayName sh) "shared")
    "share round-trip lost data".

Definition tests (now : Z) (order : list (string * string)) : list (string * M S unit) :=
  [("EmptySnapshot", testEmptySnapshot); ("NumericIDAllocation", testNumericIDAllocation);
   ("NodeIdentitySurvivesAddressChange", testNodeIdentitySurvivesAddressChange); ("RemoveFileServer", testRemoveFileServer);
   ("Heartbeat", testHeartbeat); ("HeartbeatUnknownNode", testHeartbeatUnknownNode now); ("RenameFileServer", testRenameFileServer order);
   ("Status", testStatus); ("UserAssignment", testUserAssignment); ("BulkWrites", testBulkWrites); ("ShareIdempotent", testShareIdempotent);
   ("MultipleSharesFromSameOwner", testMultipleSharesFromSameOwner);
   ("ShareRemovalIgnoresPathFormatting", testShareRemovalIgnoresPathFormatting);
   ("RemoveSharesInvolving", testRemoveSharesInvolving); ("RemoveSharesByOwner", testRemoveSharesByOwner);
   ("SnapshotRoundTrip", testSnapshotRoundTrip)].
(** Each test runs on a fresh store; what each says. *)
Definition RunMetaStoreConformance (newStore : S) (now : Z) (order : list (string * string)) : list (string * res unit) :=
  map (λ t, (t.1, (t.2 newStore).2)) (tests now order).
Definition passes (newStore : S) (now : Z) (order : list (string * string)) : Prop :=
  Forall (λ t, t.2 = Ok tt) (RunMetaStoreConformance newStore now order).
End suite.

(** ** The two stores *)

Lemma passes_by_running {S} `{MetaStore S} (newStore : S) now :
  forallb (λ order, forallb (λ t, is_ok t.2) (RunMetaStoreConformance newStore now order)) (permutations rename_homes) = true →
  ∀ order, order ≡ₚ rename_homes → passes newStore now order.
Proof.
  intros Ha order Hp. rewrite forallb_forall in Ha. specialize (Ha order). rewrite forallb_forall in Ha.
  apply Forall_forall. intros t Ht. unfold passes. specialize (Ha (proj1 (list_elem_of_In _ _) (proj2 (permutations_Permutation _ _) (symmetry Hp))) t
    (proj1 (list_elem_of_In _ _) Ht)). by destruct t.2 as [[]| |].
Qed.
(** The double in memory and the store on MongoDB pass the same suite, the project's
    own contract of a store: every one of its sixteen tests, run on a fresh store of
    either kind at any time and for every order of its range over a map, ends without a
    failed assertion, without a failed call and without a panic. *)
Theorem both_stores_conform now order :
  order ≡ₚ rename_homes →
  length (RunMetaStoreConformance (mkMemWorld New []) now order) = 16%nat
  ∧ passes (mkMemWorld New []) now order ∧ passes (mongo_world []) now order.
Proof.
  intros Hp. split; [done|]. split; (apply passes_by_running; [vm_compute; reflexivity|exact Hp]).
Qed.
Lemma both_stores_conform_witness :
  reverse rename_homes ≡ₚ rename_homes ∧
  (length (RunMetaStoreConformance (mkMemWorld New []) 1776323757 (reverse rename_homes)) = 16%nat
   ∧ passes (mkMemWorld New []) 1776323757 (reverse rename_homes) ∧ passes (mongo_world []) 1776323757 (reverse rename_homes)).
Proof.
  assert (reverse rename_homes ≡ₚ rename_homes) as Hp by apply reverse_Permutation.
  split; [exact Hp|exact (both_stores_conform 1776323757 (reverse rename_homes) Hp)].
Defined.
