(* ===== verification/Shell.v ===== *)
(** * The shell of the client (internal/client/cobrahandler.go)

    The commands as the table that is given to the parser of command lines, what each of
    them does with the cache and prints, the loop that reads lines, and the completion of
    names.  The parser is third-party code: [Cobra] says which command of the table it
    chose with which arguments, and what became of the values of the flags, which it keeps
    in the commands.  Callbacks of the server arrive between the lines. *)
From S2P Require Import Prelude GoStd Domain Disk Client Cache.
From S2P Require Session.
#[global] Open Scope Z_scope.

(** ** The table *)

Inductive ArgsPolicy := ExactArgs (n : nat) | NoArgs | AnyArgs.
Definition args_ok (p : ArgsPolicy) (args : list string) : bool :=
  match p with ExactArgs n => bool_decide (length args = n) | NoArgs => bool_decide (args = []) | AnyArgs => true end.
(** The flags with their shorthands. *)
Record Command := mkCommand { cmdName : string; cmdArgs : ArgsPolicy; cmdFlags : list (string * string) }.
Definition setupCommands : list Command :=
  [mkCommand "ls" AnyArgs []; mkCommand "refresh" AnyArgs []; mkCommand "sharewith" (ExactArgs 1) [];
   mkCommand "unsharewith" (ExactArgs 1) []; mkCommand "pwd" AnyArgs []; mkCommand "cd" (ExactArgs 1) [];
   mkCommand "upload" (ExactArgs 1) []; mkCommand "download" (ExactArgs 1) []; mkCommand "create" (ExactArgs 1) [];
   mkCommand "mkdir" (ExactArgs 1) []; mkCommand "read" (ExactArgs 1) [];
   mkCommand "delete" (ExactArgs 1) [("recursive", "r"); ("trash", "t")]; mkCommand "trash" (ExactArgs 1) [("recursive", "r")];
   mkCommand "restore" (ExactArgs 1) []; mkCommand "show_trash" NoArgs []; mkCommand "clear_trash" NoArgs []; mkCommand "info" AnyArgs [];
   mkCommand "clear" AnyArgs []; mkCommand "exit" AnyArgs []; mkCommand "viscache" AnyArgs []].

(** The values of the flags, by command and name; a flag that was never set is false. *)
Abbreviation Flags := (gmap (string * string) bool).
(** What the parser makes of a line: a command to run, a text of its own (the help), or an
    error. *)
Inductive Plan := RunCommand (name : string) (args : list string) | PrintHelp (text : string) | Reject (e : error).
Class Cobra := {
  cobra_parse : list Command → Flags → list string → Flags * Plan;
  (** The names in the order of [Commands()]. *)
  cobra_names : list Command → list string;
}.
Definition is_flag (word : string) : bool := HasPrefix word "-".
(** A command is run only with arguments it accepts; and flags keep their values from
    line to line: only words that look like flags set them. *)
Class CobraLaws `{Cobra} := {
  cobra_runs table fl words fl' name args : cobra_parse table fl words = (fl', RunCommand name args) →
    ∃ c, c ∈ table ∧ cmdName c = name ∧ args_ok (cmdArgs c) args = true;
  cobra_keeps_flags table fl words fl' plan : cobra_parse table fl words = (fl', plan) → existsb is_flag words = false → fl' = fl;
  cobra_has_names table : cmdName <$> table ⊆ cobra_names table;
}.

(** ** The state *)

Inductive Shown := Text (s : string) | ErrorText (e : error) | ContentsOf (name : string) (b : bytes).
Record ShellOn (D : Type) := mkShell { desk : Desk D; screen : list Shown; flags : Flags }.
Arguments mkShell {D} desk screen flags.
Arguments desk {D} s.
Arguments screen {D} s.
Arguments flags {D} s.

Fixpoint spaces (n : nat) : string := match n with O => "" | S n => String " " (spaces n) end.
(** [%-20s] and [%10d]. *)
Definition pad_right (n : nat) (s : string) : string := s +:+ spaces (n - String.length s).
Definition pad_left (n : nat) (s : string) : string := spaces (n - String.length s) +:+ s.
Definition row (name type size : string) : string := pad_right 20 name +:+ " " +:+ pad_right 10 type +:+ " " +:+ pad_left 10 size.
Definition type_word (t : InodeType) : string := if decide (t = InodeTypeDirectory) then "dir" else "file".
Definition file_row (f : FileInfo) : string := row (fiName f) (type_word (fiType f)) (pretty (fiSize f)).

Definition ends_in_space (s : string) : bool := HasPrefix (Session.string_rev s) " ".

Section shell.
Context {D : Type} `{LocalFS D}.
Context (rpc : nat → ∀ A, Call A → Reply A) (uuid : nat → string) (range : gmap string positive → list (string * positive)).
(** Fuel for the local and the remote directories. *)
Context (local_depth : string → Desk D → nat) (remote_depth : nat).
Context `{Cobra}.
Abbreviation W := (ShellOn D).

Definition on_desk {A} (m : M (Desk D) A) : M W A := λ w, let (d, r) := m (desk w) in (mkShell d (screen w) (flags w), r).
Definition show (x : Shown) : M W unit := modify (λ w, mkShell (desk w) (screen w ++ [x]) (flags w)).
Definition say (s : string) : M W unit := show (Text s).
Definition flag (cmd name : string) : M W bool := gets (λ w, default false (flags w !! (cmd, name))).
(** [args[0]] *)
Definition arg0 (args : list string) : M W string := match args with a :: _ => mret a | [] => panic "index out of range" end.
Definition quoted (s : string) : string := "'" +:+ s +:+ "'".
(** [fid.String()] on a pointer. *)
Definition fid_text (f : option FID) : M W string := match f with Some f => mret (FID_String f) | None => panic "nil pointer dereference" end.

(** ** The commands; the result says whether the process has ended *)

Definition show_files (none : string) (files : list FileInfo) : M W unit :=
  match files with
  | [] => say none
  | _ => say (row "Name" "Type" "Size") ;; say (row "----" "----" "----") ;; for_each files (λ f, say (file_row f))
  end.
Definition run_ls : M W unit := files ← on_desk (Cache.ListFiles range); show_files "(empty directory)" files.
Definition run_refresh : M W unit := on_desk (Cache.Refresh rpc) ;; say "Current directory cache refreshed.".
Definition run_sharewith (args : list string) : M W unit :=
  u ← arg0 args; say ("Sharing root directory with " +:+ quoted u +:+ "...") ;;
  on_desk (Cache.Share rpc u) ;; say ("Root directory shared successfully with " +:+ quoted u).
Definition run_unsharewith (args : list string) : M W unit :=
  u ← arg0 args; say ("Unsharing root directory with " +:+ quoted u +:+ "...") ;;
  on_desk (Cache.Unshare rpc u) ;; say ("Root directory unshared successfully with " +:+ quoted u).
Definition run_pwd : M W unit := p ← on_desk Cache.Path; say p.
Definition run_cd (args : list string) : M W unit := a ← arg0 args; on_desk (Cache.ChangeDirectory rpc a).
Definition run_upload (args : list string) : M W unit :=
  a ← arg0 args; say ("Uploading " +:+ quoted a +:+ "...") ;;
  depth ← gets (λ w, local_depth a (desk w));
  on_desk (Cache.Upload rpc depth a) ;; say (quoted a +:+ " uploaded successfully").
Definition run_download (args : list string) : M W unit :=
  a ← arg0 args; say ("Downloading " +:+ quoted a +:+ "...") ;;
  on_desk (Cache.Download rpc remote_depth a) ;; say (quoted a +:+ " downloaded successfully").
Definition run_create (args : list string) : M W unit :=
  a ← arg0 args; file ← on_desk (Cache.CreateFile rpc a); id ← fid_text (fiFID file);
  say ("File " +:+ quoted (fiName file) +:+ " created successfully (FID: " +:+ id +:+ ")").
Definition run_mkdir (args : list string) : M W unit :=
  a ← arg0 args; dir ← on_desk (Cache.CreateDirectory rpc a); id ← fid_text (fiFID dir);
  say ("Directory " +:+ quoted (fiName dir) +:+ " created successfully (FID: " +:+ id +:+ ")").
Definition run_read (args : list string) : M W unit :=
  a ← arg0 args; data ← on_desk (Cache.ReadFile rpc uuid a); show (ContentsOf a data).
Definition run_delete (args : list string) : M W unit :=
  a ← arg0 args;
  fromTrash ← flag "delete" "trash";
  if (fromTrash : bool) then on_desk (Cache.DeleteFromTrash rpc a) ;; say ("Permanently deleted " +:+ quoted a +:+ " from trash")
  else
    recursive ← flag "delete" "recursive";
    say ("[DEBUG] Deleting " +:+ quoted a +:+ " with recursive=" +:+ (if (recursive : bool) then "true" else "false")) ;;
    on_desk (Cache.DeleteFile rpc range a recursive) ;;
    say ("Successfully deleted " +:+ quoted a +:+ (if (recursive : bool) then " and all its contents" else "")).
Definition run_trash (args : list string) : M W unit :=
  a ← arg0 args;
  recursive ← flag "trash" "recursive";
  name ← on_desk (Cache.TrashFile rpc a recursive);
  say ("Moved " +:+ quoted a +:+ " to trash" +:+ (if decide (name = a) then "" else " as " +:+ quoted name)).
Definition run_restore (args : list string) : M W unit :=
  a ← arg0 args;
  name ← on_desk (Cache.RestoreFile rpc a);
  say ("Restored " +:+ quoted a +:+ (if decide (name = a) then "" else " as " +:+ quoted name)).
Definition run_show_trash : M W unit := files ← on_desk (Cache.ShowTrash rpc); show_files "(trash is empty)" files.
Definition run_clear_trash : M W unit :=
  '(deleted, err) ← on_desk (Cache.ClearTrash rpc);
  match err with
  | Some e => throw e
  | None => if deleted =? 0 then say "Trash is already empty" else say ("Permanently deleted " +:+ pretty deleted +:+ " entr(y/ies) from trash")
  end.
Definition run_info : M W unit :=
  info ← on_desk (Cache.GetFileInfo rpc);
  say "Directory Information:" ;; say ("  Name: " +:+ fiName info) ;; say ("  Type: " +:+ InodeType_String (fiType info)) ;;
  say ("  Size: " +:+ pretty (fiSize info) +:+ " bytes") ;; id ← fid_text (fiFID info); say ("  FID:  " +:+ id).
Definition clear_screen : string := String "027" "[H" +:+ String "027" "[2J".
(** The process ends. *)
Definition run_exit : M W unit := say "Goodbye!" ;; on_desk (Cache.ClearCache ;; Client.Disconnect rpc).

(** A line per node, entries two spaces to the right. *)
Definition node_line (indent : string) (n : CNode) : string :=
  indent +:+ "- " +:+ cnName n +:+ " (" +:+ (if decide (cnType n = InodeTypeDirectory) then "directory"
    else "file (cached: " +:+ (if contentCached n then "true" else "false") +:+ ")") +:+ ")".
Fixpoint visualizeCacheHelper (fuel : nat) (p : positive) (indent : string) : M W unit :=
  match fuel with
  | O => panic "stack overflow"
  | S fuel =>
      n ← on_desk (node_at p);
      say (node_line indent n) ;;
      for_each (range (default ∅ (cnChildren n))) (λ kv, visualizeCacheHelper fuel kv.2 (indent +:+ "  "))
  end.
Definition VisualizeCache (indent : string) : M W unit :=
  h ← on_desk handler;
  depth ← gets (λ w, S (size (cnodes (desk w))));
  say "Cache Structure:" ;; visualizeCacheHelper depth (chCurr h) indent ;; say "".

(** The function of a command. *)
Definition run_command (name : string) (args : list string) : M W unit :=
  if decide (name = "ls") then run_ls
  else if decide (name = "refresh") then run_refresh
  else if decide (name = "sharewith") then run_sharewith args
  else if decide (name = "unsharewith") then run_unsharewith args
  else if decide (name = "pwd") then run_pwd
  else if decide (name = "cd") then run_cd args
  else if decide (name = "upload") then run_upload args
  else if decide (name = "download") then run_download args
  else if decide (name = "create") then run_create args
  else if decide (name = "mkdir") then run_mkdir args
  else if decide (name = "read") then run_read args
  else if decide (name = "delete") then run_delete args
  else if decide (name = "trash") then run_trash args
  else if decide (name = "restore") then run_restore args
  else if decide (name = "show_trash") then run_show_trash
  else if decide (name = "clear_trash") then run_clear_trash
  else if decide (name = "info") then run_info
  else if decide (name = "clear") then say clear_screen
  else if decide (name = "exit") then run_exit
  else if decide (name = "viscache") then VisualizeCache ""
  else mret tt.
(** [rootCmd.Execute()] on the words of a line; whether the process has ended. *)
Definition Execute (words : list string) : M W bool :=
  fl ← gets flags;
  let (fl', plan) := cobra_parse setupCommands fl words in
  modify (λ w, mkShell (desk w) (screen w) fl') ;;
  match plan with
  | RunCommand name args => run_command name args ;; mret (bool_decide (name = "exit"))
  | PrintHelp text => say text ;; mret false
  | Reject e => throw e
  end.

(** ** The loop *)

(** What [Readline] returns, and the callbacks that arrive while it waits. *)
Inductive Event :=
  | Line (s : string)
  | Interrupted (typed : string)
  | EndOfInput
  | ReadFailed (e : error)
  | CalledBack (fid : option pbFID) (event : Z).
(** Left for the choice of a root or for good, the process ended, or the loop waits. *)
Inductive Ended := ToMetaserver | Left | Exited | Waiting.
Fixpoint loop (events : list Event) : M W Ended :=
  match events with
  | [] => mret Waiting
  | Interrupted "" :: _ | EndOfInput :: _ => mret Left
  | Interrupted _ :: events => loop events
  | ReadFailed e :: events => show (ErrorText e) ;; loop events
  | CalledBack fid event :: events => on_desk (Cache.Invalidate range fid event) ;; loop events
  | Line s :: events =>
      let line := Session.TrimSpace s in
      if decide (line = "") then loop events
      else
        r ← catch (Execute (Fields line));
        match r with
        | inl e => if decide (e = RETURN_TO_METASERVER) then mret ToMetaserver else show (ErrorText e) ;; loop events
        | inr true => mret Exited
        | inr false => loop events
        end
  end.
Definition Start (init : error + unit) (events : list Event) : M W Ended :=
  match init with
  | inl e => show (ErrorText e) ;; mret Left
  | inr _ =>
      say "=== Distributed VFS Client ===" ;; say "Type 'help' for available commands" ;; say "" ;; loop events
  end.

(** ** Completion *)

Definition completing (prefix : string) (names : list string) : list string :=
  map (λ s, drop_bytes (String.length prefix) s) (List.filter (λ s, HasPrefix s prefix) names).
Definition needsRemoteFile (cmd : string) : bool := bool_decide (cmd ∈ ["cd"; "read"; "download"; "delete"; "trash"; "restore"]).
(** The last word, if one is being typed. *)
Definition typed_word (line : string) (parts : list string) : string :=
  if negb (ends_in_space line) && bool_decide (1 < length parts)%nat then List.last parts "" else "".
(** [Do] on the line up to the cursor: the endings and the length of what they complete. *)
Definition Do (line : string) : M W (list string * nat) :=
  let parts := Fields line in
  match parts with
  | [] => mret (completing "" (cobra_names setupCommands), O)
  | cmd :: rest =>
      if bool_decide (rest = []) && negb (ends_in_space line) then
        mret (completing cmd (cobra_names setupCommands), String.length cmd)
      else if negb (bool_decide (cmd ∈ cobra_names setupCommands)) then mret ([], O)
      else if needsRemoteFile cmd then
        let prefix := typed_word line parts in
        r ← catch (on_desk (if decide (cmd = "restore") then Cache.ShowTrash rpc else Cache.ListFiles range));
        match r with
        | inl _ => mret ([], O)
        | inr files => mret (completing prefix (map fiName files), String.length prefix)
        end
      else mret ([], O)
  end.
End shell.
