(* ===== verification/ShellSpec.v ===== *)
(** * The shell keeps the cache sound

    Whatever lines the user types, whatever the server answers and whenever its callbacks
    come, the cache behind the prompt stays one tree from line to line; the flags keep
    their values; the endings that are offered complete names that are there. *)
From S2P Require Import Prelude GoStd Domain Disk Client Cache CacheSpec CacheSafe Shell.
#[global] Open Scope Z_scope.

Section spec.
Context {D : Type} `{LocalFS D} `{CobraLaws}.
Context (rpc : nat → ∀ A, Call A → Reply A) (Hgives : gives_fids rpc) (uuid : nat → string).
Context (range : gmap string positive → list (string * positive)) (Hrange : ∀ m, range m ≡ₚ map_to_list m).
Context (local_depth : string → Desk D → nat) (remote_depth : nat).
Implicit Types (d : Desk D) (w : ShellOn D).

(** ** Transfers go as deep as their fuel *)

Definition too_deep : string := "stack overflow".
(** A call that leaves the client and its cache alone; it may run out of fuel. *)
Definition aside_deep {A} (m : M (Desk D) A) (Q : A → Prop) d : Prop :=
  match m d with
  | (d', Ok a) => keeps d d' ∧ Q a
  | (d', Err _) => keeps d d'
  | (d', Panic why) => keeps d d' ∧ why = too_deep
  end.
Lemma deep_aside {A} (m : M (Desk D) A) Q d : aside m Q d → aside_deep m Q d.
Proof. unfold aside, aside_deep. by destruct (m d) as [d1 [a|e|y]]. Qed.
Lemma deep_bind {A B} (m : M (Desk D) A) (k : A → M (Desk D) B) Q R d :
  aside_deep m Q d → (∀ a d', keeps d d' → Q a → aside_deep (k a) R d') → aside_deep (m ≫= k) R d.
Proof.
  intros Hm Hk. unfold aside_deep in *. unfold mbind, M_bind. destruct (m d) as [d1 [a|e|y]]; [|done|done].
  destruct Hm as [Hk1 Hq]. specialize (Hk a d1 Hk1 Hq). destruct (k a d1) as [d2 [b|e|y]]; intuition eauto using desk_keeps_trans.
Qed.
Lemma deep_catch {A} (m : M (Desk D) A) Q d : aside_deep m Q d → aside_deep (catch m) (λ r, ∀ a, r = inr a → Q a) d.
Proof. unfold aside_deep, catch. destruct (m d) as [d1 [a|e|y]]; naive_solver. Qed.
Lemma deep_for_each {A} (f : A → M (Desk D) unit) (l : list A) d :
  (∀ x d', x ∈ l → keeps d d' → aside_deep (f x) (λ _, True) d') → aside_deep (for_each l f) (λ _, True) d.
Proof.
  revert d. induction l as [|x l IH]; intros d Hf; [done|]. simpl. eapply deep_bind; [apply Hf; [by left|done]|].
  intros [] d1 Hk1 _. apply IH. intros y d2 Hy Hk2. apply Hf; [by right|by eapply desk_keeps_trans].
Qed.
Lemma deep_downloadRecursive fuel parent e dir d :
  linked d → is_Some parent → is_Some (Handler.entFid e) →
  aside_deep (downloadRecursive rpc fuel parent e dir) (λ _, True) d.
Proof.
  revert parent e dir d. induction fuel as [|fuel IH]; intros parent e dir d Hl Hp [f Hf]; simpl.
  all: destruct (InodeTypeFromProto _); [by apply deep_aside, aside_download|]. 1: done.
  eapply deep_bind; [apply deep_aside, aside_disk|]. intros [e'|[]] d1 Hk1 _; [done|].
  rewrite Hf. eapply deep_bind with (Q := λ _, True); [by apply deep_aside|]. intros cf d2 Hk2 _.
  assert (linked d2) as Hl2 by eauto using keeps_linked.
  eapply deep_bind; [by apply deep_aside, aside_ask|]. intros l d3 Hk3 [k Hans].
  apply deep_for_each. intros x d4 Hx Hk4. apply IH; [eauto using keeps_linked|by eexists|].
  by eapply (proj1 (Forall_forall _ _) (gf_list _ Hgives _ _ _ Hans)).
Qed.
Lemma deep_Download path d : linked d → aside_deep (Client.Download rpc remote_depth path) (λ _, True) d.
Proof.
  intros Hl. unfold Client.Download. case_match; [done|].
  eapply deep_bind; [apply deep_aside, aside_me|]. intros c d1 Hk1 ->.
  eapply deep_bind with (Q := is_Some).
  { assert (linked d1) as Hl1 by eauto using keeps_linked. case_decide; [|case_decide; apply deep_aside, aside_ret; by apply Hl].
    eapply deep_bind; [apply deep_catch with (Q := is_Some)|].
    - unfold GetFIDForPath. case_match; [done|]. eapply deep_bind; [apply deep_aside, aside_me|]. intros c d2 Hk2 ->.
      eapply deep_bind; [apply deep_aside, aside_ToProto, Hl1|]. intros f d3 Hk3 _.
      eapply deep_bind; [apply deep_aside, aside_ToProto, Hl1|]. intros rf d4 Hk4 _.
      eapply deep_bind; [apply deep_aside, aside_ask; eauto using keeps_linked|]. intros new d5 Hk5 [k Hnew].
      apply deep_aside, aside_ret. destruct new; [by eexists|]. by destruct (gf_cd _ Hgives _ _ _ _ Hnew).
    - intros [e|f] d2 Hk2 Hf; [done|]. apply deep_aside, aside_ret. by apply Hf. }
  intros parent d2 Hk2 Hp. assert (linked d2) as Hl2 by eauto using keeps_linked.
  eapply deep_bind; [by apply deep_aside, aside_ToProto|]. intros pf d3 Hk3 _.
  eapply deep_bind; [apply deep_aside, aside_ask; eauto using keeps_linked|]. intros l d4 Hk4 [k Hans].
  destruct (list_find _ l) as [[i e]|] eqn:He; [|done]. apply list_find_Some in He as (He & _).
  apply deep_downloadRecursive; [eauto using keeps_linked|done|].
  by eapply (proj1 (Forall_forall _ _) (gf_list _ Hgives _ _ _ Hans)), list_elem_of_lookup_2.
Qed.
Lemma deep_uploadRecursive fuel path parent d :
  linked d → is_Some parent → aside_deep (uploadRecursive rpc fuel path parent) is_Some d.
Proof.
  revert path parent d. induction fuel as [|fuel IH]; intros path parent d Hl [p ->]; [done|]. simpl.
  eapply deep_bind; [apply deep_aside, aside_me|]. intros root d1 Hk1 _.
  eapply deep_bind with (Q := λ _, True); [by apply deep_aside|]. intros pf d2 Hk2 _.
  assert (linked d2) as Hl2 by eauto using keeps_linked.
  eapply deep_bind; [apply deep_aside; by apply (sends_new rpc Hgives)|]. intros new d3 Hk3 [g ->].
  eapply deep_bind; [apply deep_aside, aside_look|]. intros [e|entries] d4 Hk4 _; [done|].
  assert (linked d4) as Hl4 by eauto using keeps_linked.
  eapply deep_bind; [|intros [] d5 _ _; apply deep_aside, aside_ret; by destruct g; eexists].
  apply deep_for_each. intros x d5 _ Hk5. assert (linked d5) as Hl5 by eauto using keeps_linked.
  assert (is_Some (FIDFromProto (Some g))) as Hg by (by destruct g; eexists).
  eapply deep_bind with (Q := is_Some); [|by intros f d6 _ _].
  destruct (deIsDir x); [by apply IH|]. apply deep_aside. by apply (sends_file rpc Hgives).
Qed.
Lemma deep_Upload fuel path d : linked d → aside_deep (Client.Upload rpc fuel path) is_Some d.
Proof.
  intros Hl. unfold Client.Upload. eapply deep_bind; [apply deep_aside, aside_look|]. intros [e|size] d1 Hk1 _; [done|].
  eapply deep_bind; [apply deep_aside, aside_look|]. intros dir d2 Hk2 _.
  eapply deep_bind; [apply deep_aside, aside_me|]. intros cur d3 Hk3 ->.
  assert (linked d2) as Hl2 by eauto using keeps_linked. assert (linked d3) as Hl3 by eauto using keeps_linked.
  destruct dir; [by apply deep_uploadRecursive; [|apply Hl2]|]. apply deep_aside. by apply (sends_file rpc Hgives); [|apply Hl2].
Qed.

(** ** What the shell does to the desk *)

Definition excused (why : string) d : Prop := why = too_deep ∨ why = nil_map ∧ stuck d.
Definition fine {A} (m : M (ShellOn D) A) (Q : A → ShellOn D → Prop) w : Prop :=
  match m w with
  | (w', Ok a) => desk_wf (desk w') ∧ Q a w'
  | (w', Err _) => desk_wf (desk w')
  | (w', Panic why) => desk_wf (desk w') ∧ excused why (desk w')
  end.
Abbreviation anyhow := (λ _ _, True).
Lemma fine_bind {A B} (m : M (ShellOn D) A) (k : A → M (ShellOn D) B) Q R w :
  fine m Q w → (∀ a w', desk_wf (desk w') → Q a w' → fine (k a) R w') → fine (m ≫= k) R w.
Proof.
  intros Hm Hk. unfold fine in *. unfold mbind, M_bind. destruct (m w) as [w1 [a|e|y]]; [|done|done].
  destruct Hm as [Hw1 Hq]. apply (Hk a w1 Hw1 Hq).
Qed.
Lemma fine_mono {A} (m : M (ShellOn D) A) (Q R : A → ShellOn D → Prop) w : fine m Q w → (∀ a w', Q a w' → R a w') → fine m R w.
Proof. unfold fine. destruct (m w) as [w1 [a|e|y]]; naive_solver. Qed.
Lemma fine_ret {A} (a : A) (Q : A → ShellOn D → Prop) w : desk_wf (desk w) → Q a w → fine (mret a) Q w.
Proof. by split. Qed.
Lemma fine_gets {A} (f : ShellOn D → A) w : desk_wf (desk w) → fine (gets f) (λ a w', w' = w ∧ a = f w) w.
Proof. by split. Qed.
Lemma fine_show x w : desk_wf (desk w) → fine (show x) (λ _ w', desk w' = desk w) w.
Proof. by split. Qed.
Lemma fine_desk {A} (m : M (Desk D) A) Q w : good m Q (desk w) → fine (on_desk m) (λ a w', Q a (desk w')) w.
Proof. unfold good, fine, on_desk. destruct (m (desk w)) as [d [a|e|y]]; simpl; [tauto|tauto|unfold excused; tauto]. Qed.
Lemma fine_deep {A} (m : M (Desk D) A) Q w : desk_wf (desk w) → aside_deep m Q (desk w) → fine (on_desk m) (λ a _, Q a) w.
Proof.
  unfold aside_deep, fine, on_desk. intros Hw. destruct (m (desk w)) as [d [a|e|y]]; simpl.
  - intros [Hk Hq]. split; [by eapply keeps_wf|done].
  - intros Hk. by eapply keeps_wf.
  - intros [Hk Hy]. split; [by eapply keeps_wf|by left].
Qed.
Lemma fine_Upload {B} fuel a (k : unit → M (ShellOn D) B) w :
  desk_wf (desk w) → (∀ w', desk_wf (desk w') → fine (k tt) anyhow w') → fine (on_desk (Cache.Upload rpc fuel a) ≫= k) anyhow w.
Proof.
  intros Hw Hk. apply fine_bind with (Q := anyhow); [|intros [] w' Hw' _; by apply Hk].
  unfold fine, on_desk, Cache.Upload, mbind, M_bind, look, gets. destruct (os_Stat a (cdisk (desk w))) as [e|size]; [done|]. simpl.
  pose proof (deep_Upload fuel a (desk w) (desk_linked _ Hw)) as Hu. unfold aside_deep in Hu.
  destruct (Client.Upload rpc fuel a (desk w)) as [d1 [fid|e|y]].
  - destruct Hu as [Hk1 Hfid]. destruct (keeps_wf _ _ Hw Hk1) as [Hw1 _].
    pose proof (good_enter_upload (Base a) (os_IsDir a (cdisk (desk w))) size fid d1 Hw1 Hfid) as Hg. unfold good in Hg.
    destruct (enter_upload _ _ _ _ d1) as [d2 [[]|e|y]]; simpl; [by destruct Hg|by destruct Hg|unfold excused; tauto].
  - by eapply keeps_wf.
  - destruct Hu as [Hk1 Hy]. split; [by eapply keeps_wf|by left].
Qed.
Lemma fine_arg0 args w : desk_wf (desk w) → length args = 1%nat → fine (arg0 args) anyhow w.
Proof. intros Hw Hl. destruct args; [done|]. by apply fine_ret. Qed.
Lemma fine_fid_text f w : desk_wf (desk w) → is_Some f → fine (fid_text f) anyhow w.
Proof. intros Hw [g ->]. by apply fine_ret. Qed.
(** A loop that leaves the desk as it is. *)
Lemma fine_same {A} (f : A → M (ShellOn D) unit) (l : list A) w :
  desk_wf (desk w) → (∀ x w', x ∈ l → desk w' = desk w → fine (f x) (λ _ w'', desk w'' = desk w) w') →
  fine (for_each l f) (λ _ w', desk w' = desk w) w.
Proof.
  intros Hw Hf. assert (∀ w', desk w' = desk w → fine (for_each l f) (λ _ w'', desk w'' = desk w) w') as Hall; [|by apply Hall].
  induction l as [|x l IH]; intros w' Hw'; [apply fine_ret; [by rewrite Hw'|done]|]. simpl.
  eapply fine_bind; [by apply Hf; [left|]|]. intros [] w1 _ Hw1. apply IH; [|done]. intros y w2 Hy. apply Hf. by right.
Qed.
Lemma fine_show_files none files w : desk_wf (desk w) → fine (show_files none files) anyhow w.
Proof.
  intros Hw. unfold show_files, say. destruct files as [|f files]; [by eapply fine_mono; [apply fine_show|]|].
  eapply fine_bind; [by apply fine_show|]. intros [] w1 Hw1 _. eapply fine_bind; [by apply fine_show|]. intros [] w2 Hw2 _.
  eapply fine_mono; [apply fine_same; [done|]|done]. intros x w3 _ Hw3. rewrite <-Hw3. apply fine_show. by rewrite Hw3.
Qed.

(** Looking at the tree below a node. *)
Lemma fine_visualize fuel p indent k w :
  desk_wf (desk w) → live (desk w) p → deep (desk w) p k → (size (cnodes (desk w)) < fuel + k)%nat →
  fine (visualizeCacheHelper range fuel p indent) (λ _ w', desk w' = desk w) w.
Proof.
  revert p indent k w. induction fuel as [|fuel IH]; intros p indent k w Hw Hp Hd Hf.
  { pose proof (deep_bound _ _ _ Hd Hp). lia. }
  simpl. eapply fine_bind; [by apply fine_desk, good_node_at|]. intros n w1 Hw1 [Hw1d Hn].
  eapply fine_bind; [by apply fine_show|]. intros [] w2 Hw2 Hw2d. rewrite <-Hw1d, <-Hw2d in *. clear Hw1d.
  apply fine_same; [done|]. intros [name q] w3 Hin%(entry_in_range range Hrange) Hw3. simpl in *.
  assert (hangs (desk w2) p name q) as Hh by (apply (child_hangs (desk w2) p n); [done|congruence|by apply child_default]).
  rewrite <-Hw3. apply (IH q _ (S k)); rewrite Hw3; [done|by eapply hangs_live|by eapply deep_down|lia].
Qed.
Lemma fine_VisualizeCache indent w : desk_wf (desk w) → fine (VisualizeCache range indent) anyhow w.
Proof.
  intros Hw. unfold VisualizeCache. eapply fine_bind; [by apply fine_desk, good_handler|].
  intros h w1 Hw1 (Hd1 & _ & _ & Hc). eapply fine_bind; [by apply fine_gets|]. intros depth w2 _ [-> ->].
  eapply fine_bind; [by apply fine_show|]. intros [] w3 Hw3 Hd3. destruct (deep_ex (desk w3) (chCurr h) Hw3) as [k Hk].
  eapply fine_bind; [eapply fine_visualize; [done| |done|]|].
  - by rewrite Hd3, Hd1.
  - rewrite Hd3. lia.
  - intros [] w4 Hw4 _. by eapply fine_mono; [apply fine_show|].
Qed.

(** ** The commands *)

(** A step of a command: what it asks of the desk, or something it prints. *)
Lemma fine_then {A B} (m : M (Desk D) A) (k : A → M (ShellOn D) B) Q w :
  desk_wf (desk w) → good m Q (desk w) → (∀ a w', desk_wf (desk w') → Q a (desk w') → fine (k a) anyhow w') →
  fine (on_desk m ≫= k) anyhow w.
Proof. intros Hw Hm Hk. eapply fine_bind; [by apply fine_desk|done]. Qed.
Lemma fine_say_then {B} s (k : unit → M (ShellOn D) B) w :
  desk_wf (desk w) → (∀ w', desk_wf (desk w') → fine (k tt) anyhow w') → fine (say s ≫= k) anyhow w.
Proof. intros Hw Hk. eapply fine_bind; [by apply fine_show|]. intros [] w1 Hw1 _. by apply Hk. Qed.
Lemma fine_say s w : desk_wf (desk w) → fine (say s) anyhow w.
Proof. intros Hw. by eapply fine_mono; [apply fine_show|]. Qed.
Lemma fine_arg {B} args (k : string → M (ShellOn D) B) w :
  desk_wf (desk w) → length args = 1%nat → (∀ a w', desk_wf (desk w') → fine (k a) anyhow w') → fine (arg0 args ≫= k) anyhow w.
Proof. intros Hw Hl Hk. eapply fine_bind; [by apply fine_arg0|]. intros a w1 Hw1 _. by apply Hk. Qed.
Lemma fine_flag {B} c n (k : bool → M (ShellOn D) B) w :
  desk_wf (desk w) → (∀ b w', desk_wf (desk w') → fine (k b) anyhow w') → fine (flag c n ≫= k) anyhow w.
Proof. intros Hw Hk. eapply fine_bind; [by apply fine_gets|]. intros b w1 Hw1 _. by apply Hk. Qed.
Lemma fine_fid {B} f (k : string → M (ShellOn D) B) w :
  desk_wf (desk w) → is_Some f → (∀ s w', desk_wf (desk w') → fine (k s) anyhow w') → fine (fid_text f ≫= k) anyhow w.
Proof. intros Hw Hf Hk. eapply fine_bind; [by apply fine_fid_text|]. intros s w1 Hw1 _. by apply Hk. Qed.
Ltac fine_step :=
  first [apply fine_say; assumption
        |apply fine_say_then; [assumption|intros]
        |apply fine_arg; [assumption|assumption|intros]
        |apply fine_flag; [assumption|intros]].

Lemma good_call {A} (m : M (Desk D) A) Q d : desk_wf d → aside m Q d → good m (λ a _, Q a) d.
Proof. intros Hd Hm. eapply good_mono; [by apply aside_good|]. by intros a d' _ _ [_ ?]. Qed.
Lemma good_share d (c : string → pbFID → Client.Call unit) :
  desk_wf d → good (x ← me id; f ← ToProto (currentFID x); Client.call rpc "failed to share" (c (username x) f)) anyhow d.
Proof.
  intros Hd. eapply (good_mono _ (λ _ _, True)); [|done]. apply (good_call _ (λ _, True)); [done|].
  eapply aside_bind; [apply aside_me|]. intros x d1 Hk1 ->.
  eapply aside_bind; [apply aside_ToProto; by apply desk_linked|]. intros f d2 Hk2 _.
  eapply aside_mono; [apply aside_ask; eapply keeps_linked; [by apply desk_linked|by eapply desk_keeps_trans]|done].
Qed.
Lemma good_GetFileInfo d : desk_wf d → good (Cache.GetFileInfo rpc) (λ i _, is_Some (fiFID i)) d.
Proof.
  intros Hd. apply good_call; [done|]. unfold Cache.GetFileInfo, Client.GetFileInfo.
  eapply aside_bind; [apply aside_me|]. intros cur d1 Hk1 ->.
  eapply aside_bind; [apply aside_ToProto; by apply desk_linked|]. intros f d2 Hk2 _.
  eapply aside_bind; [apply aside_ask; eapply keeps_linked; [by apply desk_linked|by eapply desk_keeps_trans]|].
  intros [[name t] size] d3 _ _. apply aside_ret. by apply desk_linked.
Qed.

(** A command of the table with arguments it accepts. *)
Definition in_table (name : string) (args : list string) : Prop :=
  ∃ c, c ∈ setupCommands ∧ cmdName c = name ∧ args_ok (cmdArgs c) args = true.
Definition with_argument : list string :=
  ["sharewith"; "unsharewith"; "cd"; "upload"; "download"; "create"; "mkdir"; "read"; "delete"; "trash"; "restore"].
Lemma one_argument name args : in_table name args → name ∈ with_argument → length args = 1%nat.
Proof.
  intros (c & Hc & <- & Hok) Hname.
  assert (Forall (λ c, bool_decide (cmdName c ∈ with_argument) = true → args_ok (cmdArgs c) = args_ok (ExactArgs 1)) setupCommands) as Hall.
  { repeat constructor; try done; vm_compute; discriminate. }
  rewrite Forall_forall in Hall. rewrite (Hall c Hc) in Hok; [by apply bool_decide_eq_true in Hok|by apply bool_decide_eq_true].
Qed.
Lemma fine_run_command name args w :
  desk_wf (desk w) → in_table name args → name ≠ "exit" →
  fine (run_command rpc uuid range local_depth remote_depth name args) anyhow w.
Proof.
  intros Hw Hin Hexit. pose proof (one_argument _ _ Hin) as Hone. unfold run_command.
  repeat (case_decide as Hname; [subst name; try (specialize (Hone ltac:(eapply bool_decide_eq_true_1; vm_compute; reflexivity)))|clear Hname]); try done; clear Hin.
  - eapply fine_then; [done|by apply good_ListFiles|]. intros files w1 Hw1 _. by apply fine_show_files.
  - eapply fine_then; [done|by apply good_Refresh|]. intros [] w1 Hw1 _. by apply fine_say.
  - unfold run_sharewith. repeat fine_step. eapply fine_then; [done|by apply (good_share _ (λ u f, CallShare u f _))|]. intros. by apply fine_say.
  - unfold run_unsharewith. repeat fine_step. eapply fine_then; [done|by apply (good_share _ (λ u f, CallUnshare u f _))|]. intros. by apply fine_say.
  - eapply fine_then; [done|by apply good_Path|]. intros p w1 Hw1 _. by apply fine_say.
  - unfold run_cd. repeat fine_step. eapply fine_mono; [by apply fine_desk, good_chdir|done].
  - unfold run_upload. repeat fine_step. eapply fine_bind; [by apply fine_gets|]. intros depth w1 _ [-> ->].
    apply fine_Upload; [done|]. intros. by apply fine_say.
  - unfold run_download. repeat fine_step. eapply fine_bind; [apply fine_deep; [done|by apply deep_Download, desk_linked]|].
    intros. by apply fine_say.
  - unfold run_create. repeat fine_step. eapply fine_then; [done|by apply good_CreateFile|]. intros i w1 Hw1 Hi.
    apply fine_fid; [done|done|]. intros. by apply fine_say.
  - unfold run_mkdir. repeat fine_step. eapply fine_then; [done|by apply good_CreateDirectory|]. intros i w1 Hw1 Hi.
    apply fine_fid; [done|done|]. intros. by apply fine_say.
  - unfold run_read. repeat fine_step. eapply fine_then; [done|by apply good_ReadFile|]. intros. by eapply fine_mono; [apply fine_show|].
  - unfold run_delete. repeat fine_step. case_match.
    + eapply fine_then; [done|by apply good_DeleteFromTrash|]. intros. by apply fine_say.
    + repeat fine_step. eapply fine_then; [done|by apply good_DeleteFile|]. intros. by apply fine_say.
  - unfold run_trash. repeat fine_step. eapply fine_then; [done|by apply good_TrashFile|]. intros. by apply fine_say.
  - unfold run_restore. repeat fine_step. eapply fine_then; [done|by apply good_RestoreFile|]. intros. by apply fine_say.
  - eapply fine_then; [done|apply good_call; [done|by apply aside_ShowTrash, desk_linked]|]. intros files w1 Hw1 _. by apply fine_show_files.
  - eapply fine_then; [done|by apply good_ClearTrash|]. intros [deleted [e|]] w1 Hw1 _; [done|]. case_match; by apply fine_say.
  - eapply fine_then; [done|by apply good_GetFileInfo|]. intros i w1 Hw1 Hi. repeat fine_step. apply fine_fid; [done|done|]. intros. by apply fine_say.
  - by apply fine_VisualizeCache.
Qed.

(** ** Leaving *)

(** Calls that end without an error or a panic. *)
Definition ends {S A} (m : M S A) : Prop := ∀ s, is_ok (m s).2 = true.
Lemma ends_bind {S A B} (m : M S A) (k : A → M S B) : ends m → (∀ a, ends (k a)) → ends (m ≫= k).
Proof. intros Hm Hk s. unfold mbind, M_bind. specialize (Hm s). destruct (m s) as [s1 [a|e|y]]; [|done|done]. apply Hk. Qed.
Lemma ends_for_each {S A} (f : A → M S unit) (l : list A) : (∀ x, ends (f x)) → ends (for_each l f).
Proof. intros Hf. induction l as [|x l IH]; [done|]. simpl. apply ends_bind; [apply Hf|]. intros []. apply IH. Qed.
Lemma ends_disk {A} (c : OSCall D A) : ends (on_disk c).
Proof. intros d. unfold on_disk. by destruct (c (cdisk d)). Qed.
Lemma ends_ClearCache : ends (S := Desk D) ClearCache.
Proof.
  assert (ends (S := Desk D) clear_dir) as Hdir.
  { unfold clear_dir. apply ends_bind; [done|]. intros [e|l]; [done|]. apply ends_for_each. intros x.
    apply ends_bind; [apply ends_disk|done]. }
  unfold ClearCache. apply ends_bind; [done|]. intros [e|size]; [by destruct (os_IsNotExist e)|done].
Qed.
Lemma ends_Disconnect : ends (S := Desk D) (Client.Disconnect rpc).
Proof.
  intros d. unfold Client.Disconnect, on_client, me, ignore, invoke, mbind, M_bind, gets, modify. simpl.
  destruct (connected (vfs d)) eqn:Hc; [|done]. simpl. by case_bool_decide; simpl; rewrite ?Hc.
Qed.
Lemma ends_exit w : is_ok (run_exit rpc w).2 = true.
Proof.
  revert w. unfold run_exit. apply ends_bind; [done|]. intros []. intros w. unfold on_desk.
  pose proof (ends_bind _ _ ends_ClearCache (λ _, ends_Disconnect) (desk w)) as He. simpl.
  destruct ((ClearCache ≫= λ _, Client.Disconnect rpc) (desk w)) as [d [[]|e|y]]; done.
Qed.

(** ** The loop *)

(** After a command the desk is sound, unless the process has ended. *)
Definition between {A} (gone : A → Prop) (m : M (ShellOn D) A) w : Prop :=
  match m w with
  | (w', Ok a) => gone a ∨ desk_wf (desk w')
  | (w', Err _) => desk_wf (desk w')
  | (w', Panic why) => desk_wf (desk w') ∧ excused why (desk w')
  end.
Lemma between_fine {A} (gone : A → Prop) (m : M (ShellOn D) A) w : fine m anyhow w → between gone m w.
Proof. unfold fine, between. destruct (m w) as [w1 [a|e|y]]; naive_solver. Qed.
Lemma between_Execute words w :
  desk_wf (desk w) → between (λ b, b = true) (Execute rpc uuid range local_depth remote_depth words) w.
Proof.
  intros Hw. unfold Execute, between, mbind, M_bind, gets, modify. simpl.
  destruct (cobra_parse setupCommands (flags w) words) as [fl' plan] eqn:Hp. set (w1 := mkShell (desk w) (screen w) fl').
  destruct plan as [name args|text|e]; [|by right|done]. simpl. fold w1. pose proof (cobra_runs _ _ _ _ _ _ Hp) as Hin.
  destruct (decide (name = "exit")) as [->|Hexit].
  - pose proof (ends_exit w1) as He. change (run_command _ _ _ _ _ "exit" args) with (run_exit rpc).
    destruct (run_exit rpc w1) as [w2 [[]|e|y]]; [by left|done|done].
  - pose proof (fine_run_command name args w1 Hw Hin Hexit) as Hf. unfold fine in Hf.
    destruct (run_command _ _ _ _ _ name args w1) as [w2 [[]|e|y]]; [right; by destruct Hf|done|done].
Qed.
Abbreviation the_loop := (loop rpc uuid range local_depth remote_depth).
Lemma between_loop events w : desk_wf (desk w) → between (λ r, r = Exited) (the_loop events) w.
Proof.
  revert w. induction events as [|ev events IH]; intros w Hw; [by right|].
  assert (∀ (m : M (ShellOn D) unit) w, fine m anyhow w → between (λ r, r = Exited) (m ;; the_loop events) w) as Hthen.
  { clear w Hw. intros m w Hm. unfold fine in Hm. unfold between, mbind, M_bind. destruct (m w) as [w1 [[]|e|y]]; [apply IH; by destruct Hm|done|done]. }
  destruct ev as [s|[|a typed]| |e|fid event]; simpl; [|by right|by apply IH|by right| |].
  - case_decide; [by apply IH|]. pose proof (between_Execute (Fields (Session.TrimSpace s)) w Hw) as He.
    unfold between in He. unfold between, mbind, M_bind, catch.
    destruct (Execute _ _ _ _ _ _ w) as [w1 [[]|e|y]]; [by left|apply IH; by destruct He| |done].
    case_decide; [by right|]. apply Hthen. by eapply fine_mono; [apply fine_show|].
  - apply Hthen. by eapply fine_mono; [apply fine_show|].
  - unfold between, mbind, M_bind. pose proof (fine_desk _ _ w (good_Invalidate range Hrange fid event (desk w) Hw)) as Hf. unfold fine in Hf.
    destruct (on_desk _ w) as [w1 [b|e|y]]; [apply IH; by destruct Hf|done|done].
Qed.

(** ** Flags *)

Definition same_flags {A} (m : M (ShellOn D) A) : Prop := ∀ w, flags (m w).1 = flags w.
Lemma sf_bind {A B} (m : M (ShellOn D) A) (k : A → M (ShellOn D) B) : same_flags m → (∀ a, same_flags (k a)) → same_flags (m ≫= k).
Proof.
  intros Hm Hk w. unfold mbind, M_bind. specialize (Hm w). destruct (m w) as [w1 [a|e|y]]; [|done|done]. by rewrite (Hk a w1).
Qed.
Lemma sf_desk {A} (m : M (Desk D) A) : same_flags (on_desk m).
Proof. intros w. unfold on_desk. by destruct (m (desk w)). Qed.
Lemma sf_show x : same_flags (show x).
Proof. done. Qed.
Lemma sf_for_each {A} (f : A → M (ShellOn D) unit) (l : list A) : (∀ x, same_flags (f x)) → same_flags (for_each l f).
Proof. intros Hf. induction l as [|x l IH]; [done|]. simpl. apply sf_bind; [apply Hf|]. by intros []. Qed.
Lemma sf_catch {A} (m : M (ShellOn D) A) : same_flags m → same_flags (catch m).
Proof. intros Hm w. unfold catch. specialize (Hm w). by destruct (m w) as [w1 [a|e|y]]. Qed.
Ltac keep_flags :=
  repeat first [apply sf_desk|apply sf_show|apply sf_for_each; intros|apply sf_bind; [|intros]|done|progress case_match].
Lemma sf_visualize fuel p indent : same_flags (visualizeCacheHelper range fuel p indent).
Proof. revert p indent. induction fuel as [|fuel IH]; intros p indent; simpl; [done|]. unfold say. keep_flags. Qed.
Lemma sf_run_command name args : same_flags (run_command rpc uuid range local_depth remote_depth name args).
Proof.
  unfold run_command. repeat (case_decide; [clear|]); try done.
  all: unfold run_ls, run_refresh, run_sharewith, run_unsharewith, run_pwd, run_cd, run_upload, run_download, run_create, run_mkdir, run_read,
    run_delete, run_trash, run_restore, run_show_trash, run_clear_trash, run_info, run_exit, VisualizeCache, show_files, arg0, fid_text, flag, say.
  all: keep_flags; try apply sf_visualize.
Qed.
(** The words of a line. *)
Definition words_of (ev : Event) : list string := match ev with Line s => Fields (Session.TrimSpace s) | _ => [] end.
Lemma sf_loop events w :
  Forall (λ ev, existsb is_flag (words_of ev) = false) events → flags (the_loop events w).1 = flags w.
Proof.
  intros Hev. revert w. induction Hev as [|ev events Hplain Hev IH]; intros w; [done|].
  assert (∀ (m : M (ShellOn D) unit) w, same_flags m → flags ((m ;; the_loop events) w).1 = flags w) as Hthen.
  { clear w. intros m w Hm. unfold mbind, M_bind. specialize (Hm w). destruct (m w) as [w1 [[]|e|y]]; [by rewrite IH|done|done]. }
  destruct ev as [s|[|a typed]| |e|fid event]; simpl in *; [|done|apply IH|done|by apply Hthen| ].
  - case_decide; [apply IH|].
    assert (flags (Execute rpc uuid range local_depth remote_depth (Fields (Session.TrimSpace s)) w).1 = flags w) as He.
    { unfold Execute, mbind, M_bind, gets, modify. simpl.
      destruct (cobra_parse setupCommands (flags w) _) as [fl' plan] eqn:Hp. apply cobra_keeps_flags in Hp as ->; [|done].
      destruct plan as [name args|text|e]; [|done|done]. simpl. pose proof (sf_run_command name args (mkShell (desk w) (screen w) (flags w))) as Hr.
      by destruct (run_command _ _ _ _ _ name args _) as [w2 [[]|e|y]]. }
    unfold mbind, M_bind, catch. destruct (Execute _ _ _ _ _ _ w) as [w1 [[]|e|y]]; simpl in *; [done|by rewrite IH| |done].
    case_decide; [done|]. rewrite <-He. by apply (Hthen (show (ErrorText e)) w1).
  - unfold mbind, M_bind. pose proof (sf_desk (Cache.Invalidate range fid event) w) as Hi.
    destruct (on_desk _ w) as [w1 [b|e|y]]; [by rewrite IH|done|done].
Qed.

(** C29. Whatever lines the user types, whatever the server answers, as long as every success
    that names a file and every entry of a listing carries its FID ([gives_fids]), and
    whenever its
    callbacks come: unless the process has ended, the cache behind the prompt is one tree
    again when the shell returns or waits, and the only panics are the ones a command can
    cause, an entry assigned in a directory without a map and a transfer of a directory
    deeper than the fuel.  Nothing but a flag on a line changes a flag: without one every later command
    runs with the flags of earlier lines. *)
Theorem session_stays_sound init events w w' r :
  desk_wf (desk w) → Start rpc uuid range local_depth remote_depth init events w = (w', r) →
  (r ≠ Ok Exited → desk_wf (desk w') ∧ ∀ why, r = Panic why → excused why (desk w'))
  ∧ (Forall (λ ev, existsb is_flag (words_of ev) = false) events → flags w' = flags w).
Proof.
  intros Hw Hs. split.
  - assert (between (λ r, r = Exited) (Start rpc uuid range local_depth remote_depth init events) w) as Hb.
    { destruct init as [e|[]]; [by right|]. unfold Start, say.
      change (between (λ r, r = Exited) (the_loop events) (mkShell (desk w) (((screen w ++ [Text "=== Distributed VFS Client ==="])
        ++ [Text "Type 'help' for available commands"]) ++ [Text ""]) (flags w))). by apply between_loop. }
    unfold between in Hb. rewrite Hs in Hb. intros Hr. destruct r as [a|e|y]; [|by split|by destruct Hb; split; [|intros why [= <-]]].
    destruct Hb as [->|Hb]; [done|by split].
  - intros Hev. assert (w' = (Start rpc uuid range local_depth remote_depth init events w).1) as -> by by rewrite Hs.
    destruct init as [e|[]]; [done|]. unfold Start, say.
    change (flags (the_loop events (mkShell (desk w) (((screen w ++ [Text "=== Distributed VFS Client ==="])
        ++ [Text "Type 'help' for available commands"]) ++ [Text ""]) (flags w))).1 = flags w). exact (sf_loop events _ Hev).
Qed.

(** ** Completion *)

Lemma completing_spec prefix names s : s ∈ completing prefix names ↔ prefix +:+ s ∈ names.
Proof.
  unfold completing. rewrite list_elem_of_fmap. split.
  - intros (n & -> & [Hn Hp]%list_elem_of_In%filter_In). apply HasPrefix_spec in Hp as [s' ->]. rewrite drop_bytes_app. by apply list_elem_of_In.
  - intros Hs. exists (prefix +:+ s). split; [by rewrite drop_bytes_app|]. apply list_elem_of_In, filter_In.
    split; [by apply list_elem_of_In|apply HasPrefix_app].
Qed.
(** Listing the current directory only looks, and finds its entries. *)
Lemma ListFiles_answers d : desk_wf d → ∃ files, Cache.ListFiles range d = (d, Ok files).
Proof.
  intros Hw. pose proof (good_handler d Hw) as Hh. unfold good in Hh. unfold Cache.ListFiles, mbind, M_bind.
  assert (∃ h, handler d = (d, Ok h) ∧ live d (chCurr h)) as (h & -> & n & Hn).
  { destruct (d_tree _ Hw) as (h & depth & Hc & Ht & Hl). exists h. split; [|done]. unfold handler, mbind, M_bind, gets. by rewrite Hc. }
  clear Hh. unfold node_at at 1. rewrite Hn.
  assert (∀ kv, kv ∈ range (default ∅ (cnChildren n)) → live d kv.2) as Hl.
  { intros [s q] Hin%(entry_in_range range Hrange). eapply hangs_live, (child_hangs d _ n); [done|done|]. by apply child_default. }
  induction (range (default ∅ (cnChildren n))) as [|[s q] l IH]; [by exists []|]. simpl.
  destruct (Hl (s, q)) as [c Hc]; [by left|]. simpl in Hc. unfold mbind, M_bind, node_at. rewrite Hc.
  destruct IH as [files ->]; [intros kv Hkv; apply Hl; by right|]. by eexists.
Qed.
(** What a word of a line can be: a command, an entry of the trash, or of the current
    directory. *)
Definition offered w (names : list string) : Prop :=
  names = [] ∨ names = cobra_names setupCommands
  ∨ (∃ files, (Cache.ShowTrash rpc (desk w)).2 = Ok files ∧ names = fiName <$> files)
  ∨ ∃ files, (Cache.ListFiles range (desk w)).2 = Ok files ∧ names = fiName <$> files.
(** Completion offers exactly the endings that make the word before the cursor one of
    the names it can be: a command, an entry of the trash for [restore], an entry of the
    current directory for the other commands that take a remote name; it never panics and
    leaves the cache, the screen and the flags alone. *)
Theorem completion_exact line w :
  desk_wf (desk w) →
  ∃ w' l prefix names, Do rpc range line w = (w', Ok (l, String.length prefix))
    ∧ (∀ s, s ∈ l ↔ prefix +:+ s ∈ names) ∧ offered w names
    ∧ keeps (desk w) (desk w') ∧ screen w' = screen w ∧ flags w' = flags w.
Proof.
  intros Hw. unfold Do.
  assert (∀ prefix names, offered w names → ∃ w' l prefix' names', (w, Ok (completing prefix names, String.length prefix)) = (w', Ok (l, String.length prefix'))
    ∧ (∀ s, s ∈ l ↔ prefix' +:+ s ∈ names') ∧ offered w names' ∧ keeps (desk w) (desk w') ∧ screen w' = screen w ∧ flags w' = flags w) as Hhere.
  { intros prefix names Ho. exists w, (completing prefix names), prefix, names. split_and!; try done. intros s. apply completing_spec. }
  destruct (Fields line) as [|cmd rest]; [apply (Hhere ""); right; by left|]. case_match; [apply Hhere; right; by left|].
  case_match; [apply (Hhere "" []); by left|]. case_match; [|apply (Hhere "" []); by left].
  set (prefix := typed_word line (cmd :: rest)). unfold mbind, M_bind, catch, on_desk. destruct (decide (cmd = "restore")) as [Hcmd|Hcmd]; simpl.
  - pose proof (aside_ShowTrash rpc Hgives (desk w) (desk_linked _ Hw)) as Ht. unfold aside in Ht. fold (Cache.ShowTrash (D := D) rpc) in Ht.
    assert (∀ files, (Cache.ShowTrash rpc (desk w)).2 = Ok files → offered w (fiName <$> files)) as Ho by (intros files Hf; right; right; left; by exists files).
    destruct (Cache.ShowTrash rpc (desk w)) as [d' [files|e|y]]; simpl in *; [destruct Ht as [Hk _]| |done].
    + eexists _, _, prefix, (fiName <$> files). split_and!; [done|intros s; apply completing_spec|by apply Ho|done..].
    + eexists _, _, "", []. split_and!; [done|intros s; by rewrite !elem_of_nil|by left|done..].
  - destruct (ListFiles_answers (desk w) Hw) as [files Hf]. rewrite Hf.
    eexists _, _, prefix, (fiName <$> files). split_and!; [done|intros s; apply completing_spec| |done..].
    right. right. right. exists files. by rewrite Hf.
Qed.
End spec.
