(* ===== verification/ShellDemo.v ===== *)
(** * A session in the shell

    [mini_cobra], a parser of the table that follows the laws, and sessions on the client
    and server of CacheDemo.v. *)
From S2P Require Import Prelude GoStd Domain Disk Client Cache CacheSpec CacheSafe CacheDemo Shell ShellSpec.
From Stdlib Require Import Strings.Byte.
#[global] Open Scope Z_scope.

Definition flag_named (c : Command) (word : string) : option string :=
  fst <$> find (λ f, String.eqb word ("--" +:+ f.1) || String.eqb word ("-" +:+ f.2)) (cmdFlags c).
(** The words after the command: flags are set, the others are arguments. *)
Fixpoint take_words (c : Command) (fl : Flags) (words : list string) : Flags * option (list string) :=
  match words with
  | [] => (fl, Some [])
  | w :: words =>
      if is_flag w then
        match flag_named c w with
        | Some f => take_words c (<[(cmdName c, f) := true]> fl) words
        | None => (fl, None)
        end
      else let (fl', args) := take_words c fl words in (fl', (w ::.) <$> args)
  end.
#[export] Instance mini_cobra : Cobra := {
  cobra_parse table fl words :=
    match words with
    | [] => (fl, PrintHelp "Distributed Virtual File System Client")
    | name :: words =>
        match find (λ c, String.eqb (cmdName c) name) table with
        | None => (fl, Reject (Errorf "unknown command %q for %q" [name; "dvfs"]))
        | Some c =>
            let (fl', args) := take_words c fl words in
            (fl', match args with
                  | Some args => if args_ok (cmdArgs c) args then RunCommand name args else Reject (Errorf "accepts other arguments" [])
                  | None => Reject (Errorf "unknown flag" [])
                  end)
        end
    end;
  cobra_names table := merge_sort String.le (["completion"; "help"] ++ map cmdName table);
}.
Lemma take_words_plain c fl words : existsb is_flag words = false → (take_words c fl words).1 = fl.
Proof.
  induction words as [|w words IH]; [done|]. simpl. intros [Hw Hws]%orb_false_iff. rewrite Hw.
  specialize (IH Hws). by destruct (take_words c fl words).
Qed.
#[export] Instance mini_cobra_laws : CobraLaws.
Proof.
  split.
  - intros table fl words fl' name args. simpl. destruct words as [|w words]; [discriminate|].
    destruct (find _ table) as [c|] eqn:Hc; [|discriminate]. apply find_some in Hc as [Hin Heq%String.eqb_eq].
    destruct (take_words c fl words) as [fl1 [l|]]; [|discriminate]. destruct (args_ok (cmdArgs c) l) eqn:Hok; [|discriminate].
    intros [= _ <- <-]. exists c. split_and!; [by apply list_elem_of_In|done|done].
  - intros table fl words fl' plan. simpl. destruct words as [|w words]; [by intros [= <-]|]. simpl.
    destruct (find _ table) as [c|]; [|by intros [= <-]]. intros Hp [_ Hws]%orb_false_iff.
    pose proof (take_words_plain c fl words Hws) as Hfl. destruct (take_words c fl words) as [fl1 args]. simpl in Hfl. congruence.
  - intros table name Hn. simpl. rewrite merge_sort_Permutation. simpl. rewrite !elem_of_cons. by right; right.
Qed.

Definition demo_shell : ShellOn MemDisk := mkShell desk0 [] ∅.
Abbreviation demo_depth := (λ _ _, 5%nat).
Definition demo_start (events : list Event) (w : ShellOn MemDisk) : ShellOn MemDisk * res Ended :=
  Start demo_rpc demo_uuid demo_range demo_depth 5 (inr tt) events w.

Example demo_session :
  let (w, r) := demo_start [Line "ls"; Line " read f "; Line "cd docs"; Line "pwd"; Line "nonsense"; Line "cd"; Line "exit"; Line "ls"] demo_shell in
  r = Ok Exited
  ∧ drop 3 (screen w) =
    [Text "Name                 Type             Size"; Text "----                 ----             ----";
     Text "f                    file                2"; Text "docs                 dir                 0";
     ContentsOf "f" [x61; x62]; Text "mydrive/docs/"; ErrorText (Errorf "unknown command %q for %q" ["nonsense"; "dvfs"]);
     ErrorText (Errorf "accepts other arguments" []); Text "Goodbye!"].
Proof. vm_compute. split; reflexivity. Qed.

(** The calls a session makes, without the tokens. *)
Definition deletes (w : ShellOn MemDisk) : list (pbFID * bool) :=
  omap (λ s, match s with mkSent _ (CallDeleteFile f _ rec) => Some (f, rec) | _ => None end) (calls (desk w)).
(** After one [delete -r] every later [delete] is recursive, although its line has no
    flag; the file server is asked to remove the second directory with all it holds. *)
Definition keep_rpc (k : nat) A (c : Call A) : Reply A :=
  match c in Call A return Reply A with CallDeleteFile _ _ _ => Refused "busy" | c => demo_rpc k _ c end.
Definition deleting (lines : list Event) : ShellOn MemDisk :=
  (Start keep_rpc demo_uuid demo_range demo_depth 5 (inr tt) lines demo_shell).1.
Example recursive_for_ever :
  map snd (deletes (deleting [Line "delete docs"])) = [false]
  ∧ map snd (deletes (deleting [Line "delete -r f"; Line "delete docs"])) = [true; true].
Proof. split; vm_compute; reflexivity. Qed.
(** After one [delete -t], which removes an entry of the trash for good, no [delete] of a
    file of the current directory works: it too goes to the trash. *)
Example trash_for_ever :
  existsb (λ s, match s with mkSent _ (CallDeleteFile _ _ _) => true | _ => false end) (calls (desk (deleting [Line "delete -t old"; Line "delete f"]))) = false
  ∧ drop 3 (screen (deleting [Line "delete -t old"; Line "delete f"])) = drop 3 (screen (deleting [Line "delete -t old"; Line "delete -t f"])).
Proof. split; vm_compute; reflexivity. Qed.

Example completions :
  (Do demo_rpc demo_range "re" demo_shell).2 = Ok (["ad"; "fresh"; "store"], 2%nat)
  ∧ (Do demo_rpc demo_range "cd " demo_shell).2 = Ok (["f"; "docs"], 0%nat)
  ∧ (Do demo_rpc demo_range "cd d" demo_shell).2 = Ok (["ocs"], 1%nat)
  ∧ (Do demo_rpc demo_range "mkdir d" demo_shell).2 = Ok ([], 0%nat).
Proof. split_and!; vm_compute; reflexivity. Qed.

Definition demo_events : list Event :=
  [Line "cd docs"; CalledBack (Some (pb 3)) 1; Line "cd .."; Line "upload photos"; Line "cd photos"; Line "mkdir x"; Line "ls"].
Definition demo_end : ShellOn MemDisk * res Ended := demo_start demo_events demo_shell.
Lemma session_stays_sound_witness :
  (desk_wf (desk demo_shell) ∧ demo_end.2 = Panic nil_map)
  ∧ (demo_end.2 ≠ Ok Exited → desk_wf (desk demo_end.1) ∧ ∀ why, demo_end.2 = Panic why → excused why (desk demo_end.1))
  ∧ (Forall (λ ev, existsb is_flag (words_of ev) = false) demo_events → flags demo_end.1 = flags demo_shell).
Proof.
  split; [split; [exact desk0_wf|vm_compute; reflexivity]|].
  exact (session_stays_sound demo_rpc demo_gives_fids demo_uuid demo_range demo_range_ok demo_depth 5 (inr tt) demo_events demo_shell
    demo_end.1 demo_end.2 desk0_wf (surjective_pairing _)).
Defined.
Lemma completion_exact_witness :
  desk_wf (desk demo_shell)
  ∧ ∃ w' l prefix names, Do demo_rpc demo_range "cd d" demo_shell = (w', Ok (l, String.length prefix))
    ∧ (∀ s, s ∈ l ↔ prefix +:+ s ∈ names) ∧ offered demo_rpc demo_range demo_shell names
    ∧ keeps (desk demo_shell) (desk w') ∧ screen w' = screen demo_shell ∧ flags w' = flags demo_shell.
Proof. split; [exact desk0_wf|exact (completion_exact demo_rpc demo_gives_fids demo_range demo_range_ok "cd d" demo_shell desk0_wf)]. Defined.
