(* ===== verification/CpuTemp.v ===== *)
(** * The temperature of the processor (internal/fileserver/cputemp.go)

    Where the sensor is looked for, and how its place is remembered.  The probes only read
    the disk, so they are functions of it; temperatures are rationals.  A map is ranged
    over in the order of the argument [range], and what the [sensors] program printed is
    an argument.  The disk and the remembered place may have changed between the first
    look and the one under the write lock, so each has its own argument. *)
From S2P Require Import Prelude GoStd Disk Auth.
From S2P Require Session MetaAuth.
From Stdlib Require Import QArith.
#[global] Open Scope Z_scope.

(** [strings.Contains] and [strings.TrimSuffix]. *)
Fixpoint StrContains (s sub : string) : bool :=
  HasPrefix s sub || match s with String _ s => StrContains s sub | EmptyString => false end.
Definition TrimSuffix (s suffix : string) : string :=
  if MetaAuth.HasSuffix s suffix then String.substring 0 (String.length s - String.length suffix) s else s.
Example strings_ex :
  (StrContains "intel package id 0" "package", StrContains "core" "core 0", TrimSuffix "temp1_label" "_label", TrimSuffix "x" "_label")
  = (true, false, "temp1", "x").
Proof. reflexivity. Qed.
(** The first result of a range. *)
Fixpoint first_some {A B} (f : A → option B) (l : list A) : option B :=
  match l with [] => None | a :: l => match f a with Some b => Some b | None => first_some f l end end.
Lemma first_some_inv {A B} (f : A → option B) l b : first_some f l = Some b → ∃ a, a ∈ l ∧ f a = Some b.
Proof.
  induction l as [|a l IH]; [done|]. simpl. destruct (f a) as [b'|] eqn:Hf; [intros [= ->]; exists a; by split; [left|]|].
  intros Hb. destruct (IH Hb) as (x & ? & ?). exists x. by split; [right|].
Qed.

(** [temp > 0.0 && temp <= 150.0] *)
Definition plausible (t : Q) : bool := negb (Qle_bool t 0) && Qle_bool t 150.
Definition when_plausible (o : option Q) : option Q := t ← o; if plausible t then Some t else None.
Lemma when_plausible_inv o t : when_plausible o = Some t → o = Some t ∧ plausible t = true.
Proof. unfold when_plausible. destruct o as [q|]; simpl; [|done]. destruct (plausible q) eqn:Hp; [|done]. by intros [= ->]. Qed.
Lemma plausible_range t : plausible t = true → (0 < t ∧ t <= 150)%Q.
Proof.
  unfold plausible. intros [Hlo%negb_true_iff Hhi]%andb_true_iff. split; [|by apply Qle_bool_iff].
  apply Qnot_le_lt. intros Hle%Qle_bool_iff. congruence.
Qed.

Record tempSensorCache := mkTempCache { tsPath : string; sourceTier : Z; lastProbed : Z }.
Definition no_sensor : tempSensorCache := mkTempCache "" 0 0.
Definition defaultHwmonBase : string := "/sys/class/hwmon".
Definition defaultThermalBase : string := "/sys/class/thermal".

(** What the decoder makes of the output of [sensors -j]: chips with features with
    readings. *)
Inductive reading := Num (q : Q) | NotNum.
Inductive feature := Readings (m : gmap string reading) | NotReadings.
Inductive chip := Features (m : gmap string feature) | NotFeatures.

Section temp.
Context {D : Type} `{OS D, Json (gmap string chip)}.
Context (range : ∀ A, gmap string A → list (string * A)).

Definition text_of (b : bytes) : string := Session.TrimSpace (String.string_of_list_byte b).
Definition file_text (d : D) (path : string) : option string :=
  match os_ReadFile path d with inl _ => None | inr b => Some (text_of b) end.
Definition dir_names (d : D) (path : string) : list string :=
  match os_ReadDir path d with inl _ => [] | inr l => map deName l end.
(** Millidegrees to degrees. *)
Definition readTempFile (d : D) (path : string) : option Q :=
  raw ← file_text d path; milli ← ParseInt raw; Some (inject_Z milli / 1000)%Q.
Definition sensor (d : D) (path : string) : option (string * Q) :=
  t ← when_plausible (readTempFile d path); Some (path, t).

Definition priorityDrivers : list string :=
  ["coretemp"; "k10temp"; "zenpower"; "cpu_thermal"; "bcm2835_thermal"; "soc_dts"; "soc_thermal"].
Definition preferredLabels : list string := ["package id 0"; "tctl"; "tdie"; "cpu"; "core 0"; "temp1"].
Definition cpuKeywords : list string := ["package"; "cpu"; "tctl"; "tdie"; "core 0"].
Definition is_temp (name suffix : string) : bool := HasPrefix name "temp" && MetaAuth.HasSuffix name suffix.
Definition input_of (hwmonDir name : string) : string := Join [hwmonDir; TrimSuffix name "_label" +:+ "_input"].
(** The labels of the sensors of a directory with their inputs. *)
Definition labels (d : D) (hwmonDir : string) (names : list string) : gmap string string :=
  foldl (λ m name, if is_temp name "_label" then
      match file_text d (Join [hwmonDir; name]) with Some l => <[ToLower l := input_of hwmonDir name]> m | None => m end
    else m) ∅ names.
Definition findBestTempInHwmonDir (d : D) (hwmonDir : string) : option (string * Q) :=
  let names := dir_names d hwmonDir in
  let labelMap := labels d hwmonDir names in
  let by_label := first_some (λ pref, first_some (λ li, if StrContains li.1 pref then sensor d li.2 else None) (range _ labelMap)) preferredLabels in
  match by_label with
  | Some r => Some r
  | None => first_some (λ name, if is_temp name "_input" then sensor d (Join [hwmonDir; name]) else None) names
  end.
Definition findLabeledCPUTemp (d : D) (hwmonDir : string) : option (string * Q) :=
  first_some (λ name,
    if is_temp name "_label" then
      l ← file_text d (Join [hwmonDir; name]);
      first_some (λ kw, if StrContains (ToLower l) kw then sensor d (input_of hwmonDir name) else None) cpuKeywords
    else None) (dir_names d hwmonDir).
Definition has_priority (d : D) (hwmonDir : string) : bool :=
  match file_text d (Join [hwmonDir; "name"]) with Some driver => existsb (EqualFold driver) priorityDrivers | None => false end.
Definition or_else {A} (x y : option A) : option A := match x with Some a => Some a | None => y end.
(** Three passes over the directories. *)
Definition probeHwmon (d : D) (baseDir : string) : option (string * Q) :=
  let dirs := map (λ n, Join [baseDir; n]) (dir_names d baseDir) in
  or_else (first_some (λ dir, if has_priority d dir then findBestTempInHwmonDir d dir else None) dirs)
    (or_else (first_some (findLabeledCPUTemp d) dirs)
       (first_some (λ dir, sensor d (Join [dir; "temp1_input"])) dirs)).

Definition preferredTypes : list string := ["cpu-thermal"; "bcm2712"; "x86_pkg_temp"; "k10temp"; "soc_thermal"; "cpu"].
Definition probeThermalZones (d : D) (baseDir : string) : option (string * Q) :=
  match os_ReadDir baseDir d with
  | inl _ => None
  | inr entries =>
      or_else (first_some (λ pref, first_some (λ e,
          if HasPrefix (deName e) "thermal_zone" then
            let zone := Join [baseDir; deName e] in
            t ← file_text d (Join [zone; "type"]);
            if StrContains (ToLower t) pref then sensor d (Join [zone; "temp"]) else None
          else None) entries) preferredTypes)
        (sensor d (Join [baseDir; "thermal_zone0"; "temp"]))
  end.

(** ** The program *)

Definition first_input (f : feature) : option Q :=
  match f with
  | Readings m => first_some (λ kr, if MetaAuth.HasSuffix kr.1 "_input" then match kr.2 with Num q => when_plausible (Some q) | NotNum => None end else None) (range _ m)
  | NotReadings => None
  end.
Definition extractTempFromChipObj (c : chip) : option Q :=
  match c with
  | NotFeatures => None
  | Features m =>
      or_else (first_some (λ pref, first_some (λ nf, if StrContains (ToLower nf.1) pref then first_input nf.2 else None) (range _ m)) preferredLabels)
        (first_some (λ nf, first_input nf.2) (range _ m))
  end.
Definition priorityChips : list string := ["coretemp"; "k10temp"; "zenpower"; "cpu_thermal"].
Definition parseSensorsJSON (data : bytes) : option Q :=
  root ← (unmarshal data : option (gmap string chip));
  or_else (first_some (λ p, first_some (λ nc, if StrContains (ToLower nc.1) p then extractTempFromChipObj nc.2 else None) (range _ root)) priorityChips)
    (first_some (λ nc, extractTempFromChipObj nc.2) (range _ root)).
(** What the program printed, if it is there and ends well in time. *)
Definition probeSensorsCLI (printed : option bytes) : option Q := b ← printed; parseSensorsJSON b.

(** ** Reading *)

Definition minute : Z := 60 * nanos.
Definition ttl_of (c : tempSensorCache) : Z := if 1 <? sourceTier c then minute else 10 * minute.
(** The reading of the remembered sensor, if its place is known, not old, and it gives a
    plausible one. *)
Definition cached_reading (d : D) (now : Z) (c : tempSensorCache) : option Q :=
  if decide (tsPath c ≠ "" ∧ now - lastProbed c < ttl_of c) then when_plausible (readTempFile d (tsPath c)) else None.
Definition probe (hwmonBase thermalBase : string) (d : D) (printed : option bytes) (later : Z) : tempSensorCache * Q :=
  match probeHwmon d hwmonBase with
  | Some (path, t) => (mkTempCache path 1 later, t)
  | None =>
      match probeThermalZones d thermalBase with
      | Some (path, t) => (mkTempCache path 2 later, t)
      | None =>
          match when_plausible (probeSensorsCLI printed) with
          | Some t => (mkTempCache "" 3 later, t)
          | None => (no_sensor, 0%Q)
          end
      end
  end.
(** [c1] is what was remembered at the first look at the disk [d1], [c2] and [d2] what is
    found under the lock. *)
Definition readCPUTempWithBase (hwmonBase thermalBase : string) (c1 : tempSensorCache) (d1 : D) (now1 : Z)
    (c2 : tempSensorCache) (d2 : D) (now2 : Z) (printed : option bytes) (later : Z) : tempSensorCache * Q :=
  match cached_reading d1 now1 c1 with
  | Some t => (c2, t)
  | None =>
      match cached_reading d2 now2 c2 with
      | Some t => (c2, t)
      | None => probe hwmonBase thermalBase d2 printed later
      end
  end.
Definition readCPUTemp := readCPUTempWithBase defaultHwmonBase defaultThermalBase.

(** ** Every reading is plausible and live *)

Lemma or_else_inv {A} (x y : option A) a : or_else x y = Some a → x = Some a ∨ y = Some a.
Proof. destruct x; [by left|by right]. Qed.
(** The path is one of a sensor that gives this reading now. *)
Definition live_sensor (d : D) (r : string * Q) : Prop := readTempFile d r.1 = Some r.2 ∧ plausible r.2 = true.
Lemma sensor_live d path r : sensor d path = Some r → live_sensor d r.
Proof.
  unfold sensor. destruct (when_plausible _) as [t|] eqn:Hw; [|done]. intros [= <-]. by apply when_plausible_inv in Hw.
Qed.
Ltac chase :=
  repeat match goal with
  | Hx : or_else _ _ = Some _ |- _ => apply or_else_inv in Hx as [Hx|Hx]
  | Hx : first_some _ _ = Some _ |- _ => apply first_some_inv in Hx as (? & _ & Hx)
  | Hx : (if _ then _ else None) = Some _ |- _ => case_match; [|discriminate Hx]
  | Hx : (_ ≫= _) = Some _ |- _ => apply bind_Some in Hx as (? & _ & Hx)
  end.
Lemma probeHwmon_live d base r : probeHwmon d base = Some r → live_sensor d r.
Proof.
  unfold probeHwmon, findBestTempInHwmonDir, findLabeledCPUTemp. intros Hr. chase; try by eapply sensor_live.
  revert Hr. case_match eqn:Hb; intros Hr; [injection Hr as <-|]; chase; by eapply sensor_live.
Qed.
Lemma probeThermalZones_live d base r : probeThermalZones d base = Some r → live_sensor d r.
Proof.
  unfold probeThermalZones. destruct (os_ReadDir base d); [done|]. intros Hr. chase; by eapply sensor_live.
Qed.

(** How a call may end: with the reading of the remembered sensor, with that of one found
    by looking, with what the program printed, or without any. *)
Inductive reads (hwmonBase thermalBase : string) (c1 : tempSensorCache) (d1 : D) (now1 : Z)
    (c2 : tempSensorCache) (d2 : D) (now2 : Z) (printed : option bytes) (later : Z) : tempSensorCache → Q → Prop :=
  | reads_first t : cached_reading d1 now1 c1 = Some t → reads _ _ _ _ _ _ _ _ _ _ c2 t
  | reads_again t : cached_reading d1 now1 c1 = None → cached_reading d2 now2 c2 = Some t → reads _ _ _ _ _ _ _ _ _ _ c2 t
  | reads_found path tier t :
      cached_reading d1 now1 c1 = None → cached_reading d2 now2 c2 = None →
      tier = 1 ∧ probeHwmon d2 hwmonBase = Some (path, t)
      ∨ tier = 2 ∧ probeHwmon d2 hwmonBase = None ∧ probeThermalZones d2 thermalBase = Some (path, t) →
      readTempFile d2 path = Some t →
      reads _ _ _ _ _ _ _ _ _ _ (mkTempCache path tier later) t
  | reads_printed t :
      probeHwmon d2 hwmonBase = None → probeThermalZones d2 thermalBase = None → probeSensorsCLI printed = Some t →
      reads _ _ _ _ _ _ _ _ _ _ (mkTempCache "" 3 later) t
  | reads_nothing :
      probeHwmon d2 hwmonBase = None → probeThermalZones d2 thermalBase = None →
      when_plausible (probeSensorsCLI printed) = None →
      reads _ _ _ _ _ _ _ _ _ _ no_sensor 0%Q.

Lemma cached_reading_plausible d now c t : cached_reading d now c = Some t → plausible t = true.
Proof. unfold cached_reading. destruct (decide _); [|done]. by intros [_ ?]%when_plausible_inv. Qed.

(** A temperature is zero, for none, or between zero and 150 degrees; and it is the present
    reading of the sensor that is remembered, unless the program printed it. *)
Theorem readCPUTemp_correct hb tb c1 d1 now1 c2 d2 now2 printed later c t :
  readCPUTempWithBase hb tb c1 d1 now1 c2 d2 now2 printed later = (c, t) →
  reads hb tb c1 d1 now1 c2 d2 now2 printed later c t ∧ (t = 0 ∨ 0 < t ∧ t <= 150)%Q.
Proof.
  unfold readCPUTempWithBase, probe. intros Hr.
  destruct (cached_reading d1 now1 c1) as [t1|] eqn:H1.
  { injection Hr as <- <-. split; [by constructor|right]. by eapply plausible_range, cached_reading_plausible. }
  destruct (cached_reading d2 now2 c2) as [t2|] eqn:H2.
  { injection Hr as <- <-. split; [by constructor|right]. by eapply plausible_range, cached_reading_plausible. }
  destruct (probeHwmon d2 hb) as [[path t1]|] eqn:Hh.
  { injection Hr as <- <-. destruct (probeHwmon_live _ _ _ Hh) as [Hread Hp].
    split; [apply reads_found; [done|done|by left|done]|right; by apply plausible_range]. }
  destruct (probeThermalZones d2 tb) as [[path t2]|] eqn:Hz.
  { injection Hr as <- <-. destruct (probeThermalZones_live _ _ _ Hz) as [Hread Hp].
    split; [apply reads_found; [done|done|by right|done]|right; by apply plausible_range]. }
  destruct (when_plausible (probeSensorsCLI printed)) as [t3|] eqn:Hc; injection Hr as <- <-.
  - destruct (when_plausible_inv _ _ Hc) as [Hread Hp]. split; [by constructor|right; by apply plausible_range].
  - split; [by constructor|by left].
Qed.
(** While it is fresh and gives the same, the sensor that was found answers every call,
    wherever one would look now. *)
Theorem found_sensor_is_kept hb tb d path tier later t now printed later' :
  path ≠ "" → readTempFile d path = Some t → plausible t = true →
  now - later < ttl_of (mkTempCache path tier later) →
  let c := mkTempCache path tier later in
  readCPUTempWithBase hb tb c d now c d now printed later' = (c, t).
Proof.
  intros Hpath Hread Hp Hfresh c. unfold readCPUTempWithBase, cached_reading. subst c.
  rewrite decide_True by done. simpl. by rewrite Hread; simpl; rewrite Hp.
Qed.
(** What the program printed is not: the next call looks everywhere again, however soon
    it comes (the comment of [readCPUTemp] has a minute for this tier). *)
Theorem printed_is_not_kept hb tb d d' later now printed later' :
  let c := mkTempCache "" 3 later in
  readCPUTempWithBase hb tb c d now c d' now printed later' = probe hb tb d' printed later'.
Proof. done. Qed.
End temp.
