(* ===== verification/HostMetrics.v ===== *)
(** * The health report of a file server

    Models [metrics.go], [metrics_linux.go] and [metrics_http.go] of [internal/fileserver]:
    what is read under /proc and from the file system's counters, and the report made of it
    and of the state of the server.  Integers wrap as [uint64]; the latencies are the doubles
    of OpMetrics.v, the other floats rationals, computed without rounding.  The kernel's
    answer to [Statfs] and the order in which a map is ranged over are arguments. *)
From S2P Require Import Prelude GoStd Disk FileServer Callback Persist Node CpuTemp.
From S2P Require OpMetrics Session Auth.
From Stdlib Require Import QArith Lqa SpecFloat.
#[global] Open Scope Z_scope.

(** ** Parsing *)

(** [strconv.ParseUint(s, 10, 64)]: the value, and if it is one; a number that is too big
    gives the greatest. *)
Definition ParseUint (s : string) : Z * bool :=
  match s with
  | EmptyString => (0, false)
  | _ => match Auth.span_digits 0 s with
         | (n, EmptyString) => if n <=? maxUint64 then (n, true) else (maxUint64, false)
         | _ => (0, false)
         end
  end.
Lemma span_digits_pos s : ∀ acc, 0 ≤ acc → 0 ≤ (Auth.span_digits acc s).1.
Proof.
  induction s as [|a s IH]; intros acc Hacc; simpl; [done|]. destruct (Auth.is_digit a) eqn:Hd; simpl; [|done].
  apply IH. unfold Auth.is_digit in Hd. apply andb_true_iff in Hd as [H1%Nat.leb_le _]. unfold Auth.digit. lia.
Qed.
Lemma ParseUint_u64 s : is_u64 (ParseUint s).1.
Proof.
  unfold is_u64, ParseUint. destruct s as [|a s]; [done|]. pose proof (span_digits_pos (String a s) 0).
  destruct (Auth.span_digits 0 (String a s)) as [n [|]]; simpl in *; [|done].
  destruct (Z.leb_spec n maxUint64); simpl; unfold maxUint64 in *; [lia|done].
Qed.

(** [strconv.ParseFloat] of a decimal without an exponent; anything else counts as zero. *)
Fixpoint pow10 (n : nat) : positive := match n with O => 1 | S n => 10 * pow10 n end%positive.
Definition unsigned_decimal (s : string) : Q :=
  let '(n, rest) := Auth.span_digits 0 s in
  match rest with
  | EmptyString => inject_Z n
  | String "." frac =>
      let '(m, rest) := Auth.span_digits n frac in
      if decide (rest = "" ∧ (s ≠ "." )) then m # pow10 (String.length frac) else 0%Q
  | _ => 0%Q
  end.
Definition ParseFloat (s : string) : Q :=
  match s with
  | String "-" s => (- unsigned_decimal s)%Q
  | String "+" s => unsigned_decimal s
  | _ => unsigned_decimal s
  end.
(** [bufio.Scanner]: the lines, up to one that does not fit its buffer. *)
Definition trim_cr (s : string) : string := TrimSuffix s (String "013" "").
Fixpoint take_fitting (l : list string) : list string :=
  match l with
  | [] => []
  | s :: l => if Z.of_nat (String.length s) <? 65536 then trim_cr s :: take_fitting l else []
  end.
Definition drop_last_empty (l : list string) : list string :=
  match last l with Some "" => removelast l | _ => l end.
Definition scan_lines (text : string) : list string := take_fitting (drop_last_empty (Split "010" text)).
Example parse_ex :
  (ParseUint "42", ParseUint "-1", ParseUint "18446744073709551616", Qeq_bool (ParseFloat "0.52") (52 # 100), Qeq_bool (ParseFloat "x") 0,
   scan_lines (String.concat (String "010" "") ["a b"; "c" +:+ String "013" ""; ""]))
  = ((42, true), (0, false), (maxUint64, false), true, true, ["a b"; "c"]).
Proof. reflexivity. Qed.

Record cpuStat := mkCpuStat {
  user : Z; nice : Z; system : Z; idle : Z; iowait : Z; irq : Z; softirq : Z; total : Z;
}.
(** [syscall.Statfs_t] *)
Record Statfs := mkStatfs { Blocks : Z; Bfree : Z; Bsize : Z }.

(** [float64(a) / float64(b) * 100.0] *)
Definition percent (a b : Z) : Q := (inject_Z a / inject_Z b * 100)%Q.

Section host.
Context {D : Type} `{OS D}.

Definition raw_text (d : D) (path : string) : option string :=
  match os_ReadFile path d with inl _ => None | inr b => Some (String.string_of_list_byte b) end.

(** A later line replaces what an earlier one said. *)
Definition meminfo_line (ta : Z * Z) (line : string) : Z * Z :=
  match Fields line with
  | key :: v :: _ =>
      match ParseUint v with
      | (val, true) =>
          if decide (key = "MemTotal:") then (u64 (val * 1024), ta.2)
          else if decide (key = "MemAvailable:") then (ta.1, u64 (val * 1024))
          else ta
      | _ => ta
      end
  | _ => ta
  end.
Definition readMemInfo (d : D) : Z * Z :=
  match raw_text d "/proc/meminfo" with None => (0, 0) | Some t => foldl meminfo_line (0, 0) (scan_lines t) end.
Definition readLoadAvg (d : D) : Q * Q :=
  match raw_text d "/proc/loadavg" with
  | None => (0, 0)%Q
  | Some t => match Fields t with a :: b :: _ => (ParseFloat a, ParseFloat b) | _ => (0, 0)%Q end
  end.

(** The first line that starts as the processors' does is the one that counts. *)
Definition cpu_of_line (line : string) : option cpuStat :=
  let parseU s := (ParseUint s).1 in
  match Fields line with
  | _ :: us :: ni :: sy :: id :: io :: ir :: so :: _ =>
      let us := parseU us in let ni := parseU ni in let sy := parseU sy in let id := parseU id in
      let io := parseU io in let ir := parseU ir in let so := parseU so in
      Some (mkCpuStat us ni sy id io ir so (u64 (us + ni + sy + id + io + ir + so)))
  | _ => None
  end.
Definition parseProcStat (d : D) : option cpuStat :=
  t ← raw_text d "/proc/stat";
  line ← head (filter (λ l, HasPrefix l "cpu " = true) (scan_lines t));
  cpu_of_line line.
Definition clamp (q : Q) : Q := if Qle_bool 0 q then if Qle_bool q 100 then q else 100%Q else 0%Q.
Definition cpu_usage (s1 s2 : cpuStat) : Q :=
  let totalDelta := u64 (total s2 - total s1) in
  if decide (totalDelta = 0) then 0%Q
  else if decide (total s2 < idle s2 ∨ total s1 < idle s1) then 0%Q
  else
    let idleDelta := i64 (i64 (idle s2) - i64 (idle s1)) in
    let idleDelta := if idleDelta <? 0 then 0 else idleDelta in
    clamp ((1 - inject_Z idleDelta / inject_Z totalDelta) * 100)%Q.
(** [d1] and [d2] are a tenth of a second apart. *)
Definition readCPUUsage (d1 d2 : D) : Q :=
  match parseProcStat d1 with
  | None => 0%Q
  | Some s1 => match parseProcStat d2 with None => 0%Q | Some s2 => cpu_usage s1 s2 end
  end.
End host.

(** ** The disk *)

Definition readDiskStats (st : option Statfs) : Z * Z * Z * Q :=
  match st with
  | None => (0, 0, 0, 0%Q)
  | Some st =>
      let tot := u64 (Blocks st * u64 (Bsize st)) in
      let free := u64 (Bfree st * u64 (Bsize st)) in
      let used := if free <=? tot then tot - free else 0 in
      (tot, used, free, if 0 <? tot then percent used tot else 0%Q)
  end.
Definition readFileserverDiskStats (st : option Statfs) : Z * Z * Z * Q :=
  let '(rawTotal, rawUsed, rawFree, _) := readDiskStats st in
  let tot := if DiskSafetyBuffer <? rawTotal then rawTotal - DiskSafetyBuffer else rawTotal in
  let free := if DiskSafetyBuffer <? rawFree then rawFree - DiskSafetyBuffer else 0 in
  let pct := if 0 <? tot then let p := percent rawUsed tot in if Qle_bool p 100 then p else 100%Q else 0%Q in
  (tot, rawUsed, free, pct).

(** ** The report *)

(** [time.Since(t).Seconds()] and [t.Unix()] *)
Definition seconds (ns : Z) : Q := ns # Z.to_pos Session.second.
Definition unix (t : Z) : Z := t / Session.second.
(** The number a double stands for; [encoding/json] refuses an infinity and a NaN. *)
Definition latency (f : OpMetrics.float64) : Q :=
  match f with
  | S754_finite sign m e =>
      let n := if sign then Z.neg m else Z.pos m in
      if 0 <=? e then inject_Z (Z.shiftl n e) else n # Z.to_pos (2 ^ (- e))
  | _ => 0%Q
  end.

Definition size_of_root (s : FileServer) (f : FID) : Z :=
  match inodes s !! FID_String f with
  | Some l => match heap s !! l with Some i => iSize i | None => 0 end
  | None => 0
  end.
Definition is_file (s : FileServer) (kl : string * loc) : Prop :=
  match heap s !! kl.2 with Some i => iType i = InodeTypeFile | None => False end.
#[export] Instance is_file_dec s kl : Decision (is_file s kl).
Proof. unfold is_file. destruct (heap s !! kl.2); apply _. Defined.
Definition memory_use (tot avail : Z) : Z * Q :=
  if 0 <? tot then let used := if avail <? tot then tot - avail else 0 in (used, percent used tot) else (0, 0%Q).

Section report.
Context {D : Type} `{OS D, Json (gmap string chip), Json FileserverMetrics}.
Context (range : ∀ A, gmap string A → list (string * A)).

(** What is found outside the server while the report is made: the counters of the disk,
    the remembered sensor and the disk when it is read, the disk when the memory and the
    load are read and, twice, the processors; and the times. *)
Record Host := mkHost {
  hDisk : string → option Statfs;
  hSensor : tempSensorCache * D * Z;
  hSensorLocked : tempSensorCache * D * Z;
  hPrinted : option bytes;
  hLater : Z;
  hProc : D;
  hProc1 : D;
  hProc2 : D;
  hStart : Z;
  hNow : Z;
}.
Definition activeUsers (s : FileServer) (now : Z) : list string :=
  map fst (filter (λ us, isSessionActive us.2 now = true) (range _ (fsSessions s))).
Definition CollectMetrics (s : FileServer) (now : Z) (h : Host) : tempSensorCache * FileserverMetrics :=
  let active := activeUsers s now in
  let '(diskTotal, diskUsed, diskFree, diskPct) := readFileserverDiskStats (hDisk h (rootDir s)) in
  let '(c1, d1, now1) := hSensor h in
  let '(c2, d2, now2) := hSensorLocked h in
  let '(cache, temp) := readCPUTemp range c1 d1 now1 c2 d2 now2 (hPrinted h) (hLater h) in
  let '(memTotal, memAvail) := readMemInfo (hProc h) in
  let '(memUsed, memPct) := memory_use memTotal memAvail in
  let '(load1m, load5m) := readLoadAvg (hProc h) in
  let o := OpMetrics.Snapshot (opMetrics s) in
  let '(w50, w95, w99) := OpMetrics.snapWriteLatency o in
  let '(r50, r95, r99) := OpMetrics.snapReadLatency o in
  (cache, {|
    mDiskTotalBytes := diskTotal; mDiskUsedBytes := diskUsed; mDiskFreeBytes := diskFree; mDiskUsagePercent := diskPct;
    mPerUserStorage := size_of_root s <$> users s;
    mPerUserQuota := map_imap (λ u _, Some (getUserQuota s u)) (users s);
    mChunkCount := Z.of_nat (length (filter (is_file s) (map_to_list (inodes s))));
    mCPUTempCelsius := temp; mCPUUsagePercent := readCPUUsage (hProc1 h) (hProc2 h);
    mMemUsedBytes := memUsed; mMemTotalBytes := memTotal; mMemUsagePercent := memPct;
    mLoadAvg1m := load1m; mLoadAvg5m := load5m;
    mUptimeSeconds := seconds (hNow h - hStart h); mLastRestartUnix := unix (hStart h);
    mActiveConnections := Z.of_nat (length active); mActiveUsers := active; mUsersAssigned := Z.of_nat (size (users s));
    mBytesWrittenTotal := OpMetrics.snapBytesWritten o; mBytesReadTotal := OpMetrics.snapBytesRead o;
    mWriteOpsTotal := OpMetrics.snapWriteOps o; mReadOpsTotal := OpMetrics.snapReadOps o;
    mErrorsTotal := OpMetrics.snapErrors o; mFailedWritesTotal := OpMetrics.snapFailedWrites o;
    mFailedReadsTotal := OpMetrics.snapFailedReads o;
    mOpLatencyWriteMsP50 := latency w50; mOpLatencyWriteMsP95 := latency w95; mOpLatencyWriteMsP99 := latency w99;
    mOpLatencyReadMsP50 := latency r50; mOpLatencyReadMsP95 := latency r95; mOpLatencyReadMsP99 := latency r99;
  |}).

(** The two pages; [None] for a page of [http.ServeMux]'s own. *)
Record Page := mkPage { pgStatus : Z; pgHeaders : list (string * string); pgBody : bytes }.
Definition json_headers : list (string * string) :=
  [("Content-Type", "application/json"); ("Access-Control-Allow-Origin", "*")].
(** Those of [http.Error]. *)
Definition error_headers : list (string * string) :=
  [("Content-Type", "text/plain; charset=utf-8"); ("X-Content-Type-Options", "nosniff")].
Definition quoted (s : string) : string := String (ascii_of_nat 34) (s +:+ String (ascii_of_nat 34) "").
Definition text (s : string) : bytes := String.list_byte_of_string s.
Definition metrics_page (method path : string) (s : FileServer) (now : Z) (h : Host) : option Page :=
  if decide (path = "/metrics") then
    if decide (method ≠ "GET") then Some (mkPage 405 error_headers (text ("method not allowed" +:+ String "010" "")))
    else Some (mkPage 200 json_headers (marshal (CollectMetrics s now h).2 ++ text (String "010" "")))
  else if decide (path = "/health") then Some (mkPage 200 json_headers (text ("{" +:+ quoted "status" +:+ ":" +:+ quoted "ok" +:+ "}")))
  else None.
End report.

(** ** What holds of every report *)

Lemma ratio_range a b : 0 ≤ a ≤ b → 0 < b → (0 <= inject_Z a / inject_Z b /\ inject_Z a / inject_Z b <= 1)%Q.
Proof.
  intros [Ha Hab] Hb. assert (0 < inject_Z b)%Q by (by rewrite <- Zlt_Qlt with (x := 0)).
  split; [apply Qle_shift_div_l|apply Qle_shift_div_r]; [done| |done|].
  - rewrite Qmult_0_l. by rewrite <- Zle_Qle with (x := 0).
  - rewrite Qmult_1_l. by rewrite <- Zle_Qle.
Qed.
Lemma percent_range a b : 0 ≤ a ≤ b → 0 < b → (0 <= percent a b /\ percent a b <= 100)%Q.
Proof. intros Ha Hb. destruct (ratio_range a b Ha Hb). unfold percent. lra. Qed.
Lemma percent_nonneg a b : 0 ≤ a → 0 < b → (0 <= percent a b)%Q.
Proof.
  intros Ha Hb. unfold percent. assert (0 < inject_Z b)%Q by (by rewrite <- Zlt_Qlt with (x := 0)).
  assert (0 <= inject_Z a / inject_Z b)%Q; [|lra]. apply Qle_shift_div_l; [done|]. rewrite Qmult_0_l. by rewrite <- Zle_Qle with (x := 0).
Qed.
Lemma clamp_range q : (0 <= clamp q /\ clamp q <= 100)%Q.
Proof.
  unfold clamp. destruct (Qle_bool 0 q) eqn:H0; [|lra]. apply Qle_bool_iff in H0.
  destruct (Qle_bool q 100) eqn:H1; [apply Qle_bool_iff in H1; lra|lra].
Qed.
Lemma clamp_id q : (0 <= q)%Q → (q <= 100)%Q → clamp q = q.
Proof. intros H0 H1. unfold clamp. apply Qle_bool_iff in H0. apply Qle_bool_iff in H1. by rewrite H0, H1. Qed.
Lemma cpu_usage_range s1 s2 : (0 <= cpu_usage s1 s2 /\ cpu_usage s1 s2 <= 100)%Q.
Proof. unfold cpu_usage. repeat destruct (decide _); [lra|lra|apply clamp_range]. Qed.
Lemma readCPUUsage_range {D} `{OS D} (d1 d2 : D) : (0 <= readCPUUsage d1 d2 /\ readCPUUsage d1 d2 <= 100)%Q.
Proof. unfold readCPUUsage. destruct (parseProcStat d1); [destruct (parseProcStat d2); [apply cpu_usage_range|lra]|lra]. Qed.

(** With counters that only grow and do not wrap, the use is the part of the ticks between
    the two readings that were not idle ones. *)
Theorem cpu_usage_exact s1 s2 :
  0 ≤ idle s1 ≤ idle s2 → idle s2 - idle s1 ≤ total s2 - total s1 → total s1 < total s2 < 2 ^ 63 →
  idle s1 ≤ total s1 →
  (cpu_usage s1 s2 == percent ((total s2 - idle s2) - (total s1 - idle s1)) (total s2 - total s1))%Q.
Proof.
  intros Hi Hd Ht H1. unfold cpu_usage.
  assert (u64 (total s2 - total s1) = total s2 - total s1) as ->.
  { apply u64_small. unfold is_u64, two64. lia. }
  rewrite decide_False by lia. rewrite decide_False by lia.
  rewrite (i64_small (idle s2)), (i64_small (idle s1)) by lia. rewrite i64_small by lia.
  destruct (Z.ltb_spec (idle s2 - idle s1) 0); [lia|].
  assert (0 < total s2 - total s1) as Hpos by lia.
  destruct (ratio_range (idle s2 - idle s1) (total s2 - total s1)); [lia|lia|].
  rewrite clamp_id; [|lra|lra]. unfold percent.
  replace (total s2 - idle s2 - (total s1 - idle s1)) with (total s2 - total s1 - (idle s2 - idle s1)) by lia.
  clear - Hpos. generalize dependent (total s2 - total s1). generalize (idle s2 - idle s1). intros i t Hpos.
  unfold Z.sub. rewrite inject_Z_plus, inject_Z_opp. field.
  intros Heq. unfold Qeq in Heq. simpl in Heq. lia.
Qed.

(** A disk whose counters do not wrap: what is kept back counts neither as room nor as
    free; all the rest that is not used is free, as long as something is. *)
Theorem disk_exact st tot used free pct :
  0 < Bsize st < 2 ^ 63 → 0 ≤ Bfree st ≤ Blocks st → Blocks st * Bsize st < 2 ^ 64 →
  readFileserverDiskStats (Some st) = (tot, used, free, pct) →
  used = (Blocks st - Bfree st) * Bsize st
  ∧ free = Z.max 0 (Bfree st * Bsize st - DiskSafetyBuffer)
  ∧ (DiskSafetyBuffer < Bfree st * Bsize st → used + free = tot ∧ (pct == percent used tot)%Q)
  ∧ free ≤ tot.
Proof.
  intros Hs Hf Hw. unfold readFileserverDiskStats, readDiskStats.
  assert (Bfree st * Bsize st ≤ Blocks st * Bsize st) as Hle by nia. assert (0 ≤ Bfree st * Bsize st) by nia.
  rewrite !(u64_small (Bsize st)) by (unfold is_u64, two64; lia).
  rewrite !u64_small by (unfold is_u64, two64; lia).
  destruct (Z.leb_spec (Bfree st * Bsize st) (Blocks st * Bsize st)); [|lia].
  intros [= Ht Hu Hfr Hp]. split; [lia|].
  assert (free = Z.max 0 (Bfree st * Bsize st - DiskSafetyBuffer)) as Hfree.
  { rewrite <- Hfr. destruct (Z.ltb_spec DiskSafetyBuffer (Bfree st * Bsize st)); lia. }
  split; [done|]. split.
  - intros Hbig. assert (used + free = tot) as Hsum.
    { rewrite <- Ht. destruct (Z.ltb_spec DiskSafetyBuffer (Blocks st * Bsize st)); lia. }
    split; [done|]. rewrite Ht, Hu in Hp. assert (0 < tot) by lia.
    destruct (Z.ltb_spec 0 tot); [|lia].
    destruct (percent_range used tot) as [_ Hr]; [lia|lia|]. apply Qle_bool_iff in Hr. rewrite Hr in Hp. by rewrite <- Hp.
  - rewrite <- Ht. destruct (Z.ltb_spec DiskSafetyBuffer (Blocks st * Bsize st)); unfold DiskSafetyBuffer in *; lia.
Qed.
(** What is kept back is not counted as used, so a full disk is used to more than it holds. *)
Example more_used_than_there_is :
  let '(tot, used, free, pct) := readFileserverDiskStats (Some (mkStatfs (100 * 2 ^ 18) (5 * 2 ^ 18) 4096)) in
  tot = 80 * 2 ^ 30 ∧ used = 95 * 2 ^ 30 ∧ free = 0 ∧ pct = 100%Q.
Proof. vm_compute. done. Qed.

Lemma disk_range st tot used free pct :
  readFileserverDiskStats st = (tot, used, free, pct) →
  (is_u64 tot ∧ is_u64 used ∧ is_u64 free) ∧ (0 <= pct ∧ pct <= 100)%Q.
Proof.
  unfold readFileserverDiskStats. destruct (readDiskStats st) as [[[rt ru] rf] rp] eqn:Hr.
  assert (is_u64 rt ∧ is_u64 ru ∧ is_u64 rf) as (Hrt & Hru & Hrf).
  { destruct st as [st|]; simpl in Hr; [|injection Hr as <- <- <- _; done].
    injection Hr as <- <- <- _. pose proof (u64_is_u64 (Blocks st * u64 (Bsize st))) as H1.
    pose proof (u64_is_u64 (Bfree st * u64 (Bsize st))) as H2. split_and!; [done| |done].
    unfold is_u64 in *. destruct (Z.leb_spec (u64 (Bfree st * u64 (Bsize st))) (u64 (Blocks st * u64 (Bsize st)))); unfold two64 in *; lia. }
  set (t := if DiskSafetyBuffer <? rt then _ else _).
  set (f := if DiskSafetyBuffer <? rf then _ else _). intros [= <- <- <- <-].
  assert (0 ≤ DiskSafetyBuffer) by done. unfold is_u64 in *. split.
  - subst t f. destruct (Z.ltb_spec DiskSafetyBuffer rt), (Z.ltb_spec DiskSafetyBuffer rf); lia.
  - destruct (Z.ltb_spec 0 t); [|lra]. destruct (Qle_bool (percent ru t) 100) eqn:Hq; [|lra].
    apply Qle_bool_iff in Hq. split; [|done]. apply percent_nonneg; lia.
Qed.
Lemma memory_range tot avail : 0 ≤ tot → 0 ≤ avail →
  0 ≤ (memory_use tot avail).1 ≤ tot ∧ (0 <= (memory_use tot avail).2 ∧ (memory_use tot avail).2 <= 100)%Q.
Proof.
  intros Ht Ha. unfold memory_use. destruct (Z.ltb_spec 0 tot); simpl; [|split; [lia|lra]].
  destruct (Z.ltb_spec avail tot); (split; [lia|apply percent_range; lia]).
Qed.

Lemma meminfo_line_u64 ta line : is_u64 ta.1 ∧ is_u64 ta.2 → is_u64 (meminfo_line ta line).1 ∧ is_u64 (meminfo_line ta line).2.
Proof.
  intros [Ht Ha]. unfold meminfo_line. destruct (Fields line) as [|k [|v l]]; [done|done|].
  destruct (ParseUint v) as [n []]; [|done]. pose proof (u64_is_u64 (n * 1024)). by repeat destruct (decide _).
Qed.
Lemma readMemInfo_u64 {D} `{OS D} (d : D) : is_u64 (readMemInfo d).1 ∧ is_u64 (readMemInfo d).2.
Proof.
  unfold readMemInfo. destruct (raw_text d _) as [t|]; [|done].
  assert (∀ l ta, is_u64 ta.1 ∧ is_u64 ta.2 → is_u64 (foldl meminfo_line ta l).1 ∧ is_u64 (foldl meminfo_line ta l).2) as Hl.
  { induction l as [|x l IH]; intros ta Hta; simpl; [done|]. by apply IH, meminfo_line_u64. }
  by apply Hl.
Qed.
(** A user has a quota, its own or the usual one. *)
Lemma getUserQuota_pos s u : 0 < getUserQuota s u.
Proof. unfold getUserQuota. destruct (quotas s !! u) as [q|]; [|done]. destruct (Z.ltb_spec 0 q); done. Qed.

Section sound.
Context {D : Type} `{OS D, Json (gmap string chip)}.
Context (range : ∀ A, gmap string A → list (string * A)).
Context (range_all : ∀ A (m : gmap string A), range A m ≡ₚ map_to_list m).

Lemma activeUsers_spec s now u :
  u ∈ activeUsers range s now ↔ ∃ c, fsSessions s !! u = Some c ∧ isSessionActive c now = true.
Proof.
  unfold activeUsers. rewrite list_elem_of_fmap. split.
  - intros ((u' & c) & -> & [Ha Hin]%list_elem_of_filter). rewrite range_all, elem_of_map_to_list in Hin. by exists c.
  - intros (c & Hc & Ha). exists (u, c). split; [done|]. apply list_elem_of_filter. split; [done|].
    by rewrite range_all, elem_of_map_to_list.
Qed.
Lemma activeUsers_NoDup s now : NoDup (activeUsers range s now).
Proof.
  unfold activeUsers. apply (sublist_NoDup _ ((range _ (fsSessions s)).*1)).
  - rewrite range_all. apply NoDup_fst_map_to_list.
  - apply fmap_sublist, sublist_filter.
Qed.

Definition in_percent (q : Q) : Prop := (0 <= q /\ q <= 100)%Q.

(** C38. Whatever the kernel, the sensors and the clock give, a report is within its
    bounds: percentages between 0 and 100, no temperature or one up to 150 degrees,
    [uint64] byte counts with no more memory used than there is, a positive quota for
    exactly the users of the server, and every user with a live session named once.
    Percentages and temperatures are computed exactly here, without rounding; nothing is
    said of the latencies, whose percentiles the code may report out of order. *)
Theorem report_within_bounds s now (h : Host) c m :
  CollectMetrics range s now h = (c, m) →
  (in_percent (mDiskUsagePercent m) ∧ in_percent (mMemUsagePercent m) ∧ in_percent (mCPUUsagePercent m)
   ∧ (mCPUTempCelsius m = 0 ∨ 0 < mCPUTempCelsius m ∧ mCPUTempCelsius m <= 150)%Q)
  ∧ (is_u64 (mDiskTotalBytes m) ∧ is_u64 (mDiskUsedBytes m) ∧ is_u64 (mDiskFreeBytes m)
     ∧ 0 ≤ mMemUsedBytes m ≤ mMemTotalBytes m ∧ is_u64 (mMemTotalBytes m))
  ∧ (∀ u, match mPerUserQuota m !! u with Some q => is_Some (users s !! u) ∧ 0 < q | None => users s !! u = None end)
  ∧ (NoDup (mActiveUsers m) ∧ mActiveConnections m = Z.of_nat (length (mActiveUsers m))
     ∧ ∀ u, u ∈ mActiveUsers m ↔ ∃ c, fsSessions s !! u = Some c ∧ isSessionActive c now = true).
Proof.
  unfold CollectMetrics.
  destruct (readFileserverDiskStats _) as [[[tot used] free] pct] eqn:Hdisk.
  apply disk_range in Hdisk as [(? & ? & ?) ?].
  destruct (hSensor h) as [[c1 d1] now1], (hSensorLocked h) as [[c2 d2] now2].
  destruct (readCPUTemp _ _ _ _ _ _ _ _ _) as [cache temp] eqn:Htemp.
  apply readCPUTemp_correct in Htemp as [_ Htemp].
  pose proof (readMemInfo_u64 (hProc h)) as [Hmt Hma].
  destruct (readMemInfo (hProc h)) as [mt ma]; simpl in Hmt, Hma.
  pose proof (memory_range mt ma (proj1 Hmt) (proj1 Hma)) as Hmem. destruct (memory_use mt ma) as [mu mp]; simpl in Hmem.
  destruct (readLoadAvg (hProc h)) as [l1 l5]. unfold OpMetrics.Snapshot; simpl.
  destruct (OpMetrics.Percentiles (OpMetrics.writeLatency _)) as [[w50 w95] w99].
  destruct (OpMetrics.Percentiles (OpMetrics.readLatency _)) as [[r50 r95] r99].
  intros [= <- <-]; simpl. split; [|split; [|split]].
  - split; [done|split; [apply Hmem|split; [apply readCPUUsage_range|done]]].
  - destruct Hmem as [? _]. split; [done|split; [done|split; [done|split; done]]].
  - intros u. rewrite map_lookup_imap. destruct (users s !! u); simpl; [|done]. split; [done|apply getUserQuota_pos].
  - split; [apply activeUsers_NoDup|split; [done|apply activeUsers_spec]].
Qed.
End sound.

(** ** A host *)

#[export] Instance no_chips : Json (gmap string chip) := {| marshal _ := []; unmarshal _ := None |}.
Definition lines (l : list string) : DEntry := DFile (text (String.concat (String "010" "") l)).
Definition sysfs (package : string) (busy idle : string) : MemDisk :=
  let hw n f l := (["sys"; "class"; "hwmon"; n; f], lines l) in
  mkMemDisk (list_to_map [(["sys"], DDir); (["sys"; "class"], DDir); (["sys"; "class"; "hwmon"], DDir);
      (["sys"; "class"; "hwmon"; "hwmon0"], DDir); (["sys"; "class"; "hwmon"; "hwmon1"], DDir);
      hw "hwmon0" "name" ["nvme"; ""]; hw "hwmon0" "temp1_input" ["31850"; ""];
      hw "hwmon1" "name" ["coretemp"; ""];
      hw "hwmon1" "temp1_input" [package; ""]; hw "hwmon1" "temp1_label" ["Package id 0"; ""];
      hw "hwmon1" "temp2_input" ["48000"; ""]; hw "hwmon1" "temp2_label" ["Core 0"; ""];
      (["proc"], DDir);
      (["proc"; "meminfo"], lines ["MemTotal:       16000 kB"; "MemFree:   100 kB"; "MemAvailable:   4000 kB"; ""]);
      (["proc"; "loadavg"], lines ["0.52 0.58 0.59 1/467 12345"; ""]);
      (["proc"; "stat"], lines ["cpu  " +:+ busy +:+ " 0 0 " +:+ idle +:+ " 0 0 0 0 0 0"; "cpu0 1 2 3"; ""])]) 0 [].
Definition in_order : ∀ A, gmap string A → list (string * A) := λ A m, map_to_list m.
Definition hot : MemDisk := sysfs "61000" "1000" "3000".
Definition coretemp1 : string := "/sys/class/hwmon/hwmon1/temp1_input".
(** The labelled sensor of the processor is found and remembered; when it breaks, another
    one is looked for. *)
Example sensor_found :
  readCPUTemp in_order no_sensor hot 0 no_sensor hot 0 None 5 = (mkTempCache coretemp1 1 5, (61000 # 1000)%Q).
Proof. vm_compute. reflexivity. Qed.
Definition broken : MemDisk := sysfs "-128000" "1000" "3000".
Example sensor_lost :
  let c := mkTempCache coretemp1 1 5 in
  readCPUTemp in_order c hot 100 c hot 100 None 100 = (c, (61000 # 1000)%Q)
  ∧ readCPUTemp in_order c broken 100 c broken 100 None 101
    = (mkTempCache "/sys/class/hwmon/hwmon1/temp2_input" 1 101, (48000 # 1000)%Q).
Proof. vm_compute. done. Qed.

Definition demo_host : Host :=
  mkHost (λ _, Some (mkStatfs (100 * 2 ^ 18) (40 * 2 ^ 18) 4096)) (no_sensor, hot, 0) (no_sensor, hot, 0) None 5 hot
    hot (sysfs "61000" "1050" "3050") (10 * Session.second) (100 * Session.second).
Definition measured : OpMetrics.OperationMetrics :=
  let ms n := OpMetrics.milliseconds (n * 1000000) in
  OpMetrics.RecordWrite 4096 (ms 7) false (OpMetrics.RecordWrite 0 (ms 12) true OpMetrics.NewOperationMetrics).
Definition busy_server : FileServer :=
  set_opMetrics measured (set_fsSessions {[ "ann" := mkClientSession "ann" "c:1" "fs1_0_1" "fs1_0_1" (90 * Session.second) 0;
      "bob" := mkClientSession "bob" "c:2" "fs1_9_1" "fs1_9_1" Session.second 0 ]}
    (set_users {[ "ann" := mkFID "fs1" 0 1 ]} (blank "fs1" "/srv" "ms:1"))).
Definition demo_report := CollectMetrics in_order busy_server (100 * Session.second) demo_host.
(** Sixty of eighty gigabytes are used, half of the ticks, three quarters of the memory;
    bob has been away too long. *)
Example demo_report_values :
  let m := demo_report.2 in
  (mDiskTotalBytes m, mDiskUsedBytes m, mDiskFreeBytes m) = (80 * 2 ^ 30, 60 * 2 ^ 30, 20 * 2 ^ 30)
  ∧ (Qred (mDiskUsagePercent m), Qred (mMemUsagePercent m), Qred (mCPUUsagePercent m)) = (75, 75, 50)%Q
  ∧ (mActiveUsers m, mUsersAssigned m, Qred (mUptimeSeconds m)) = (["ann"], 1, 90%Q)
  ∧ (Qred (mOpLatencyWriteMsP50 m), Qred (mLoadAvg1m m), mFailedWritesTotal m) = ((19 # 2)%Q, (13 # 25)%Q, 1).
Proof. vm_compute. done. Qed.
Lemma in_order_all : ∀ A (m : gmap string A), in_order A m ≡ₚ map_to_list m.
Proof. done. Qed.
Lemma report_within_bounds_witness : (mDiskUsagePercent demo_report.2 <= 100)%Q ∧ in_percent (mCPUUsagePercent demo_report.2).
Proof.
  destruct (report_within_bounds in_order in_order_all busy_server (100 * Session.second) demo_host demo_report.1 demo_report.2)
    as [(H1 & _ & H3 & _) _]; [apply surjective_pairing|].
  exact (conj (proj2 H1) H3).
Defined.
