(* ===== verification/MsSync.v ===== *)
(** * Staying known to the metaserver (internal/fileserver/msclient.go)

    The loop that registers the file server, sends its heartbeats and registers it again
    when one is refused, and the protection it chooses for its calls.  A tick reads the
    clock at its start and after its call; between ticks other operations change the
    server.  What a PEM file and a pair of key files hold is given by parameters. *)
From S2P Require Import Prelude GoStd Domain Disk FileServer.
From S2P Require Session Auth Discovery Handler Demo.
#[global] Open Scope Z_scope.

(** ** The protection of the calls *)

(** The certificate authority, the name the metaserver must prove, and the files of the
    pair that is presented, when it could be loaded. *)
Record TLSConfig := mkTLSConfig { RootCAs : bytes; ServerName : string; Certificates : option (string * string) }.
(** The paths that were configured, empty for none. *)
Record TLSPaths := mkTLSPaths { caCertPath : string; tlsCertPath : string; tlsKeyPath : string }.

Section dial.
Context {D : Type} `{OS D}.
(** [AppendCertsFromPEM], and [LoadX509KeyPair] of two contents. *)
Context (pem_ok : bytes → bool) (pair_ok : bytes → bytes → bool).

Definition or_path (p d : string) : string := if decide (p = "") then d else p.
Definition absent (d : D) (p : string) : bool := match os_Stat p d with inl e => os_IsNotExist e | inr _ => false end.
Definition present (d : D) (p : string) : bool := match os_Stat p d with inl _ => false | inr _ => true end.
Definition ca_path (d : D) (t : TLSPaths) : string :=
  let p := or_path (caCertPath t) "certs/ca.crt" in
  if absent d p && present d "deploy_certs/ca.crt" then "deploy_certs/ca.crt" else p.
Definition pair_paths (d : D) (t : TLSPaths) (serverID : string) : string * string :=
  let c := or_path (tlsCertPath t) "certs/server.crt" in
  let k := or_path (tlsKeyPath t) "certs/server.key" in
  if absent d c && present d (Join ["deploy_certs"; serverID; "server.crt"])
  then (Join ["deploy_certs"; serverID; "server.crt"], Join ["deploy_certs"; serverID; "server.key"]) else (c, k).
Definition load_pair (d : D) (ck : string * string) : option (string * string) :=
  match os_ReadFile ck.1 d, os_ReadFile ck.2 d with
  | inr c, inr k => if pair_ok c k then Some ck else None
  | _, _ => None
  end.
Definition server_name (msAddr : string) : string :=
  let host := match Session.SplitHostPort msAddr with Some (h, _) => h | None => msAddr end in
  if Discovery.is_ip host then (if Handler.is_loopback_ip host then "localhost" else "dvfs1") else host.
(** [None] is a connection in the clear. *)
Definition dialMetaServer (d : D) (t : TLSPaths) (msAddr serverID : string) : error + option TLSConfig :=
  if decide (msAddr = "") then inl (Errorf "no metaserver address configured" [])
  else inr
    (if present d (ca_path d t) then
       match os_ReadFile (ca_path d t) d with
       | inl _ => None
       | inr ca =>
           if pem_ok ca then Some (mkTLSConfig ca (server_name msAddr) (load_pair d (pair_paths d t serverID)))
           else None
       end
     else None).

(** With an authority that can be read the metaserver has to prove a name, which is never
    an address; the pair that is presented was loaded. *)
Theorem dial_protected d t msAddr serverID ca :
  msAddr ≠ "" → present d (ca_path d t) = true → os_ReadFile (ca_path d t) d = inr ca → pem_ok ca = true →
  ∃ cfg, dialMetaServer d t msAddr serverID = inr (Some cfg) ∧ RootCAs cfg = ca
    ∧ Discovery.is_ip (ServerName cfg) = false
    ∧ ∀ ck, Certificates cfg = Some ck → ∃ c k, os_ReadFile ck.1 d = inr c ∧ os_ReadFile ck.2 d = inr k ∧ pair_ok c k = true.
Proof.
  intros Hne Hst Hread Hpem. unfold dialMetaServer. rewrite decide_False, Hst, Hread, Hpem by done.
  eexists. split; [reflexivity|]. split; [done|]. split.
  - simpl. unfold server_name. set (host := match _ with Some _ => _ | None => _ end). clearbody host.
    destruct (Discovery.is_ip host) eqn:Hip; [|done]. by destruct (Handler.is_loopback_ip host).
  - simpl. intros ck. unfold load_pair. set (p := pair_paths d t serverID).
    destruct (os_ReadFile p.1 d) as [|c] eqn:Hc; [done|]. destruct (os_ReadFile p.2 d) as [|k] eqn:Hk; [done|].
    destruct (pair_ok c k) eqn:Hp; [|done]. intros [= <-]. by exists c, k.
Qed.
(** A file that is there and holds no certificate is as good as none. *)
Theorem broken_authority_is_ignored d t msAddr serverID ca :
  msAddr ≠ "" → present d (ca_path d t) = true → os_ReadFile (ca_path d t) d = inr ca → pem_ok ca = false →
  dialMetaServer d t msAddr serverID = inr None.
Proof. intros Hne Hst Hread Hpem. unfold dialMetaServer. by rewrite decide_False, Hst, Hread, Hpem by done. Qed.
End dial.

(** ** The loop *)

Record SyncState := mkSync { registered : bool; lastHeartbeatAt : Z }.
Definition unsynced : SyncState := mkSync false 0.
Definition or_interval (v d : Z) : Z := if v <=? 0 then d else v.
(** How far the ticks are apart. *)
Definition retry (retryInterval : Z) : Z := or_interval retryInterval (3 * Session.second).
(** A tick of the timer: the clock when it is handled and after its call. *)
Record Tick := mkTick { tkNow : Z; tkLater : Z }.

Section sync.
Context {D : Type} `{Env D}.
Context (selfAddr : string) (heartbeatInterval : Z).
Abbreviation S' := (Server D).

(** The heartbeat interval the loop works with. *)
Definition interval : Z := or_interval heartbeatInterval (5 * Session.second).
Definition attempt (call : M S' unit) (later : Z) (st : SyncState) : M S' SyncState :=
  r ← catch call;
  mret (match r with inl _ => mkSync false (lastHeartbeatAt st) | inr _ => mkSync true later end).
Definition attemptRegister : Z → SyncState → M S' SyncState := attempt (RegisterWithMetaServer selfAddr).
(** A heartbeat that is answered leaves [registered] as it is, which is true. *)
Definition attemptHeartbeat : Z → SyncState → M S' SyncState := attempt (HeartbeatWithMetaServer selfAddr).
Definition sync_tick (t : Tick) (st : SyncState) : M S' SyncState :=
  if negb (registered st) then attemptRegister (tkLater t) st
  else if interval <=? tkNow t - lastHeartbeatAt st then attemptHeartbeat (tkLater t) st
  else mret st.
Definition sync_start (later : Z) : M S' SyncState := attemptRegister later unsynced.

(** Ticks, and the other operations of the server between them. *)
Inductive SyncEvent := OnTick (t : Tick) | Elsewhere (f : S' → S').
Fixpoint sync_run (evs : list SyncEvent) (st : SyncState) : M S' SyncState :=
  match evs with
  | [] => mret st
  | OnTick t :: evs => st ← sync_tick t st; sync_run evs st
  | Elsewhere f :: evs => modify f ;; sync_run evs st
  end.

(** ** What one call does *)

Definition register_call (w : S') : MSCall :=
  RegisterCall (serverID (srv w)) selfAddr (map_to_list (users (srv w))).*1
    (omap (shared_dir_entry (srv w)) (map_to_list (Shared (srv w)))).
Definition heartbeat_call (w : S') : MSCall := HeartbeatCall (serverID (srv w)) selfAddr.
Definition accepted (w : S') (c : MSCall) : bool := match ms_reply (outbox w) c with None => true | Some _ => false end.
Definition called (w : S') (c : MSCall) : S' := set_outbox (outbox w ++ [c]) w.
Lemma attempt_run (call : M S' unit) c later st w :
  msAddr (srv w) ≠ "" → call w = ms_call c w →
  attempt call later st w =
    (called w c, Ok (if accepted w c then mkSync true later else mkSync false (lastHeartbeatAt st))).
Proof.
  intros Ha Hc. unfold attempt, catch, mbind, M_bind. rewrite Hc. unfold ms_call, gsrv, gets, mbind, M_bind, accepted.
  rewrite decide_False by done. simpl. by destruct (ms_reply (outbox w) c).
Qed.
(** A tick: a registration while there is none, a heartbeat when one is due, or nothing. *)
Lemma sync_tick_run t st w :
  msAddr (srv w) ≠ "" →
  sync_tick t st w =
    if registered st then
      if interval <=? tkNow t - lastHeartbeatAt st then
        (called w (heartbeat_call w), Ok (if accepted w (heartbeat_call w) then mkSync true (tkLater t) else mkSync false (lastHeartbeatAt st)))
      else (w, Ok st)
    else (called w (register_call w), Ok (if accepted w (register_call w) then mkSync true (tkLater t) else mkSync false (lastHeartbeatAt st))).
Proof.
  intros Ha. unfold sync_tick. destruct (registered st); simpl.
  - destruct (interval <=? _); [|done]. by apply attempt_run.
  - by apply attempt_run.
Qed.

(** ** What the loop promises *)

(** Other operations keep whom the server reports to, and add to what was sent. *)
Definition harmless (ev : SyncEvent) : Prop :=
  match ev with
  | OnTick _ => True
  | Elsewhere f => ∀ w, msAddr (srv (f w)) = msAddr (srv w) ∧ outbox w `prefix_of` outbox (f w)
  end.
(** Ticks come in order, each handled before the next, at most [gap] apart. *)
Fixpoint paced (gap from : Z) (evs : list SyncEvent) : Prop :=
  match evs with
  | [] => True
  | OnTick t :: evs => from ≤ tkNow t ≤ from + gap ∧ tkNow t ≤ tkLater t ∧ paced gap (tkNow t) evs
  | Elsewhere _ :: evs => paced gap from evs
  end.
(** The last contact is fresh at [at_]. *)
Definition in_touch (at_ : Z) (st : SyncState) : Prop := registered st = true ∧ at_ - lastHeartbeatAt st < interval.
Definition last_tick (from : Z) (evs : list SyncEvent) : Z :=
  foldl (λ a ev, match ev with OnTick t => tkNow t | Elsewhere _ => a end) from evs.

Lemma interval_pos : 0 < interval.
Proof. unfold interval, or_interval. by destruct (Z.leb_spec heartbeatInterval 0). Qed.
Lemma called_prefix w c : outbox w `prefix_of` outbox (called w c).
Proof. by exists [c]. Qed.
Lemma sync_run_ok evs st w : Forall harmless evs → msAddr (srv w) ≠ "" →
  ∃ st' w', sync_run evs st w = (w', Ok st') ∧ msAddr (srv w') ≠ "" ∧ outbox w `prefix_of` outbox w'.
Proof.
  intros Hh. revert st w. induction Hh as [|ev evs Hev Hh IH]; intros st w Ha; simpl; [by exists st, w|].
  assert (∀ st0 w0, msAddr (srv w0) ≠ "" → outbox w `prefix_of` outbox w0 →
    ∃ st' w', sync_run evs st0 w0 = (w', Ok st') ∧ msAddr (srv w') ≠ "" ∧ outbox w `prefix_of` outbox w') as Hstep.
  { intros st0 w0 Ha0 Hp. destruct (IH st0 w0 Ha0) as (st' & w' & Hr & Ha' & Hp'). exists st', w'. split; [done|]. split; [done|by trans (outbox w0)]. }
  destruct ev as [t|f]; unfold mbind, M_bind.
  - rewrite sync_tick_run by done. destruct (registered st); [destruct (interval <=? _)|]; (apply Hstep; [done|]); [apply called_prefix|done|apply called_prefix].
  - unfold modify. simpl in Hev |- *. destruct (Hev w) as [Hsame Hpre]. apply Hstep; [by rewrite Hsame|done].
Qed.

(** From the calls of [sent0] on the metaserver accepts what it is sent. *)
Definition up_after (sent0 : list MSCall) : Prop := ∀ prev c, sent0 `prefix_of` prev → ms_reply prev c = None.
Lemma up_accepted sent0 w c : up_after sent0 → sent0 `prefix_of` outbox w → accepted w c = true.
Proof. intros Hup Hp. unfold accepted. by rewrite Hup. Qed.
(** A tick with a metaserver that accepts leaves the server in touch, whatever was before. *)
Lemma tick_in_touch sent0 t st w :
  up_after sent0 → sent0 `prefix_of` outbox w → msAddr (srv w) ≠ "" → tkNow t ≤ tkLater t →
  ∃ st' w', sync_tick t st w = (w', Ok st') ∧ in_touch (tkNow t) st'
    ∧ msAddr (srv w') ≠ "" ∧ outbox w `prefix_of` outbox w'
    ∧ (registered st = false → outbox w' = outbox w ++ [register_call w]).
Proof.
  intros Hup Hp Ha Hl. rewrite sync_tick_run by done. rewrite !(up_accepted sent0) by done. pose proof interval_pos.
  destruct (registered st) eqn:Hreg.
  - destruct (Z.leb_spec interval (tkNow t - lastHeartbeatAt st)).
    + eexists _, _. split; [done|]. split; [split; [done|simpl; lia]|]. split; [done|]. split; [apply called_prefix|done].
    + eexists _, _. split; [done|]. by split.
  - eexists _, _. split; [done|]. split; [split; [done|simpl; lia]|]. split; [done|]. split; [apply called_prefix|done].
Qed.
Lemma stays_in_touch sent0 gap evs from st w :
  up_after sent0 → sent0 `prefix_of` outbox w → Forall harmless evs → paced gap from evs →
  msAddr (srv w) ≠ "" → in_touch from st →
  ∃ st' w', sync_run evs st w = (w', Ok st') ∧ in_touch (last_tick from evs) st' ∧ outbox w `prefix_of` outbox w'.
Proof.
  intros Hup Hs Hh. revert from st w Hs. induction Hh as [|ev evs Hev Hh IH]; intros from st w Hs Hp Ha Ht; simpl; [by exists st, w|].
  destruct ev as [t|f]; unfold mbind, M_bind.
  - destruct Hp as (Hnow & Hlater & Hp).
    destruct (tick_in_touch sent0 t st w Hup Hs Ha Hlater) as (st1 & w1 & -> & Ht1 & Ha1 & Hp1 & _).
    destruct (IH (tkNow t) st1 w1) as (st' & w' & Hr & Ht' & Hp'); [by trans (outbox w)|done|done|done|].
    exists st', w'. split; [done|]. split; [done|by trans (outbox w1)].
  - unfold modify. simpl in Hev |- *. destruct (Hev w) as [Hsame Hpre].
    destruct (IH from st (f w)) as (st' & w' & Hr & Ht' & Hp'); [by trans (outbox w)|done|by rewrite Hsame|done|].
    exists st', w'. split; [done|]. split; [done|by trans (outbox (f w))].
Qed.

(** C14. Once the metaserver accepts calls again, the next tick puts the file server back
    in touch whatever was lost before: one that is not registered sends a registration
    with all its present users and shares.  From then on, whatever else the server does
    between the ticks, the last accepted call is at every tick younger than the heartbeat
    interval, so with ticks [gap] apart never older than the interval and [gap]. *)
Theorem sync_reattaches gap t evs st w :
  up_after (outbox w) → msAddr (srv w) ≠ "" → Forall harmless evs → tkNow t ≤ tkLater t → paced gap (tkNow t) evs →
  ∃ st' w', sync_run (OnTick t :: evs) st w = (w', Ok st')
    ∧ in_touch (last_tick (tkNow t) evs) st'
    ∧ (registered st = false → outbox w ++ [register_call w] `prefix_of` outbox w')
    ∧ (∀ now, now ≤ last_tick (tkNow t) evs + gap → now - lastHeartbeatAt st' < interval + gap).
Proof.
  intros Hup Ha Hh Hl Hp. destruct (tick_in_touch (outbox w) t st w Hup ltac:(done) Ha Hl) as (st1 & w1 & Hrun & Ht1 & Ha1 & Hp1 & Hreg).
  destruct (stays_in_touch (outbox w) gap evs (tkNow t) st1 w1 Hup Hp1 Hh Hp Ha1 Ht1) as (st' & w' & Hr & Ht' & Hp').
  exists st', w'. split; [simpl; unfold mbind, M_bind; by rewrite Hrun|]. split; [done|]. split.
  - intros Hno. by rewrite <- (Hreg Hno).
  - intros now Hn. destruct Ht' as [_ Hlast]. lia.
Qed.
(** A call that is refused is followed by a registration at the next tick. *)
Theorem refused_then_registers t t' st w st1 w1 :
  msAddr (srv w) ≠ "" → sync_tick t st w = (w1, Ok st1) → registered st1 = false →
  sync_tick t' st1 w1 = (called w1 (register_call w1),
    Ok (if accepted w1 (register_call w1) then mkSync true (tkLater t') else mkSync false (lastHeartbeatAt st1))).
Proof.
  intros Ha Ht Hreg. assert (msAddr (srv w1) ≠ "") as Ha1.
  { rewrite sync_tick_run in Ht by done. destruct (registered st); [destruct (interval <=? _)|]; injection Ht as <- _; done. }
  rewrite sync_tick_run by done. by rewrite Hreg.
Qed.
End sync.

(** ** A metaserver that comes up late *)

(** The demonstration's environment with a metaserver that refuses three calls. *)
Definition late_env : Env MemDisk := {|
  env_index := @env_index _ Demo.demo_env; env_acl := @env_acl _ Demo.demo_env; env_shares := @env_shares _ Demo.demo_env;
  env_quotas := @env_quotas _ Demo.demo_env; sha256hex := @sha256hex _ Demo.demo_env; sha256str := @sha256str _ Demo.demo_env;
  ms_reply prev _ := if (length prev <? 3)%nat then Some (Errorf "unavailable" []) else None |}.
Definition ticks (l : list Z) : list (@SyncEvent MemDisk) := map (λ s, OnTick (mkTick (s * Session.second) (s * Session.second + 1))) l.
Definition late_run := @sync_run _ late_env "fs:1" 0.
(** What was sent: [true] for a registration. *)
Definition kinds (w : Server MemDisk) : list bool := map (λ c, match c with RegisterCall _ _ _ _ => true | _ => false end) (outbox w).
(** The start and two ticks are refused; then it is registered, and of the ticks every
    three seconds each second one is a heartbeat. *)
Example late_metaserver :
  let '(w, r) := (st ← @sync_start _ late_env "fs:1" 0; late_run (ticks [3; 6; 9; 12; 15; 18; 21]) st) Demo.demo in
  kinds w = [true; true; true; true; false; false] ∧ r = Ok (mkSync true (21 * Session.second + 1)).
Proof. vm_compute. done. Qed.
Definition refused_world : Server MemDisk :=
  Eval vm_compute in ((st ← @sync_start _ late_env "fs:1" 0; late_run (ticks [3; 6]) st) Demo.demo).1.
Lemma sync_reattaches_witness :
  ∃ st' w', late_run (ticks [9; 12; 15]) unsynced refused_world = (w', Ok st')
    ∧ registered st' = true ∧ 18 * Session.second - lastHeartbeatAt st' < 8 * Session.second.
Proof.
  destruct (@sync_reattaches _ late_env "fs:1" 0 (retry 0) (mkTick (9 * Session.second) (9 * Session.second + 1))
    (ticks [12; 15]) unsynced refused_world) as (st' & w' & Hrun & [Hreg _] & _ & Hgap).
  - intros prev c [k ->]. reflexivity.
  - discriminate.
  - repeat constructor.
  - discriminate.
  - vm_compute. repeat split; discriminate.
  - exists st', w'. split; [exact Hrun|]. split; [exact Hreg|]. apply Hgap. discriminate.
Defined.
