(* ===== verification/Ssh.v ===== *)
(** * Running a command on another machine (internal/admin/ssh_executor.go)

    The two executors behind the actions of the console: the one that connects, whose
    network, keys and home directory are parameters, and the one for tests.  Orchestrator.v
    takes what a run answers as a parameter; [remote] and [mock] are such parameters. *)
From S2P Require Import Prelude GoStd Disk CpuTemp.
From S2P Require Session Handler Orchestrator.
#[global] Open Scope Z_scope.

Abbreviation SSHRun := Orchestrator.SSHRun.
Abbreviation SSHAnswer := Orchestrator.SSHAnswer.
Import Orchestrator (srHost, srPort, srUser, srKey, srCommand, mkSSHRun, mkSSHAnswer, saExitCode, saError, saStdout, saStderr, saDeadline).

(** ** The executor that connects *)

(** How [session.Run] ends. *)
Inductive Ending := Finished | Exited (status : Z) | Broken (message : string) (is_EOF : bool).
(** How far a connection came; the output that arrived, and whether the time was up. *)
Inductive Link :=
  | NoConnection (e : string)
  | NoHandshake (e : string)
  | NoSession (e : string)
  | Ran (stdout stderr : string) (deadline : bool) (e : Ending).

Section remote.
Context {D : Type} `{OS D}.
(** [os.UserHomeDir], [ssh.ParsePrivateKey], the text of a failed read, and what the
    network gives for an address, a user, a key and a command. *)
Context (home : string + string) (parse_key : bytes → string + string) (read_error : error → string)
  (connect : string → string → string → string → Link).

Definition expandPath (path : string) : string + string :=
  if HasPrefix path "~" then
    match home with
    | inl e => inl e
    | inr h => inr (Join [h; TrimPrefix (TrimPrefix (TrimPrefix path "~") "/") "\"])
    end
  else inr path.
Definition failed (msg : string) : SSHAnswer := mkSSHAnswer (-1) (Some msg) false "" "".
(** A machine that goes down takes the connection with it. *)
Definition cut_off (message : string) (is_EOF : bool) : bool :=
  let m := ToLower message in is_EOF || StrContains m "eof" || StrContains m "reset" || StrContains m "closed".
Definition ended (command : string) (e : Ending) : Z * option string :=
  match e with
  | Finished => (0, None)
  | Exited status =>
      if StrContains command "reboot" && ((status =? 255) || (status =? -1)) then (0, None) else (status, None)
  | Broken message is_EOF =>
      if StrContains command "reboot" && cut_off message is_EOF then (0, None) else (-1, Some message)
  end.
Definition RemoteRun (d : D) (r : SSHRun) : SSHAnswer :=
  if decide (srUser r = "") then failed "SSH user cannot be empty"
  else if decide (srKey r = "") then failed "SSH key path cannot be empty"
  else
    match expandPath (srKey r) with
    | inl e => failed ("failed to expand key path '" +:+ srKey r +:+ "': " +:+ e)
    | inr path =>
        match os_ReadFile path d with
        | inl e => failed ("failed to read private key from '" +:+ path +:+ "': " +:+ read_error e)
        | inr keyBytes =>
            match parse_key keyBytes with
            | inl e => failed ("failed to parse private key: " +:+ e)
            | inr signer =>
                let addr := Handler.JoinHostPort (srHost r) (pretty (if srPort r <=? 0 then 22 else srPort r)) in
                match connect addr (srUser r) signer (srCommand r) with
                | NoConnection e => failed ("failed to connect to " +:+ addr +:+ ": " +:+ e)
                | NoHandshake e => failed ("SSH handshake failed with " +:+ addr +:+ ": " +:+ e)
                | NoSession e => failed ("failed to create SSH session on " +:+ addr +:+ ": " +:+ e)
                | Ran out err deadline e =>
                    let (code, msg) := ended (srCommand r) e in mkSSHAnswer code msg deadline out err
                end
            end
        end
    end.

(** The key that is used is the one in the file that is named. *)
Definition key_of (d : D) (r : SSHRun) (signer : string) : Prop :=
  ∃ path b, expandPath (srKey r) = inr path ∧ os_ReadFile path d = inr b ∧ parse_key b = inr signer.
(** A run that answers without an error ran the command on the machine, as the user and
    with the key it names; its code is the status of the command, but for a reboot, which
    may cut the connection.  Everything else is an error with code -1. *)
Theorem remote_answers d r :
  let a := RemoteRun d r in
  match saError a with
  | Some _ => saExitCode a = -1
  | None =>
      ∃ signer out err deadline e, srUser r ≠ "" ∧ key_of d r signer
        ∧ connect (Handler.JoinHostPort (srHost r) (pretty (if srPort r <=? 0 then 22 else srPort r))) (srUser r) signer (srCommand r) = Ran out err deadline e
        ∧ (saStdout a, saStderr a, saDeadline a) = (out, err, deadline)
        ∧ match e with
          | Finished => saExitCode a = 0
          | Exited status => saExitCode a = status ∨ saExitCode a = 0 ∧ status ∈ [255; -1] ∧ StrContains (srCommand r) "reboot" = true
          | Broken m is_EOF => saExitCode a = 0 ∧ cut_off m is_EOF = true ∧ StrContains (srCommand r) "reboot" = true
          end
  end.
Proof.
  cbv zeta. unfold RemoteRun. destruct (decide (srUser r = "")); [done|]. destruct (decide (srKey r = "")); [done|].
  destruct (expandPath (srKey r)) as [e|path] eqn:Hpath; [done|]. destruct (os_ReadFile path d) as [e|b] eqn:Hread; [done|].
  destruct (parse_key b) as [e|signer] eqn:Hkey; [done|].
  destruct (connect _ _ _ _) as [e|e|e|out err deadline e] eqn:Hlink; [done|done|done|].
  assert (key_of d r signer) as Hk by (by exists path, b).
  destruct e as [|status|m is_EOF]; simpl.
  - by exists signer, out, err, deadline, Finished.
  - destruct (StrContains (srCommand r) "reboot" && ((status =? 255) || (status =? -1))) eqn:Hb; simpl.
    + apply andb_true_iff in Hb as [Hb [Hs%Z.eqb_eq|Hs%Z.eqb_eq]%orb_true_iff]; exists signer, out, err, deadline, (Exited status); subst status;
        (split; [done|split; [done|split; [done|split; [done|right; split; [done|split; [|done]]]]]]); set_solver.
    + exists signer, out, err, deadline, (Exited status). split; [done|split; [done|split; [done|split; [done|by left]]]].
  - destruct (StrContains (srCommand r) "reboot" && cut_off m is_EOF) eqn:Hb; simpl; [|done].
    apply andb_true_iff in Hb as [Hb Hc]. exists signer, out, err, deadline, (Broken m is_EOF). by split_and!.
Qed.
End remote.
(** The answers of a console whose disk and network are what they are at the [k]-th run. *)
Definition remote {D} `{OS D} home parse_key read_error (disk : nat → D) (connect : nat → string → string → string → string → Link) :
    nat → SSHRun → SSHAnswer :=
  λ k r, RemoteRun home parse_key read_error (connect k) (disk k) r.

(** ** The executor for tests *)

Record MockSSHResponse := mkMockResponse { Stdout : string; Stderr : string; ExitCode : Z; Delay : Z; Err : option string }.
Record MockSSHExecutor := mkMock { Responses : gmap string MockSSHResponse; Default : MockSSHResponse; Calls : list SSHRun }.
Definition NewMockSSHExecutor : MockSSHExecutor :=
  mkMock ∅ (mkMockResponse ("OK" +:+ String "010" "") "" 0 0 None) [].
Definition response (m : MockSSHExecutor) (r : SSHRun) : MockSSHResponse :=
  match Responses m !! srCommand r with
  | Some x => x
  | None => match Responses m !! srHost r with Some x => x | None => Default m end
  end.
(** [expired]: the context ends, with its error, before a delay does. *)
Definition MockRun (expired : option string) (r : SSHRun) : M MockSSHExecutor SSHAnswer :=
  modify (λ m, mkMock (Responses m) (Default m) (Calls m ++ [r])) ;;
  resp ← gets (λ m, response m r);
  mret (match (if 0 <? Delay resp then expired else None) with
        | Some e => mkSSHAnswer (-1) (Some e) true "" ""
        | None => mkSSHAnswer (ExitCode resp) (Err resp) false (Stdout resp) (Stderr resp)
        end).
(** The answers of an executor that is not changed meanwhile. *)
Definition mock (m : MockSSHExecutor) : nat → SSHRun → SSHAnswer := λ _ r,
  match MockRun None r m with (_, Ok a) => a | _ => failed "" end.
Fixpoint mock_runs (rs : list SSHRun) : M MockSSHExecutor (list SSHAnswer) :=
  match rs with [] => mret [] | r :: rs => a ← MockRun None r; l ← mock_runs rs; mret (a :: l) end.
(** It answers every run as it is set up to, and remembers all of them in their order. *)
Theorem mock_answers rs m :
  ∃ m', mock_runs rs m = (m', Ok (map (mock m 0) rs)) ∧ Calls m' = Calls m ++ rs ∧ Responses m' = Responses m ∧ Default m' = Default m.
Proof.
  revert m. induction rs as [|r rs IH]; intros m; simpl; [exists m; by rewrite app_nil_r|].
  set (m1 := mkMock (Responses m) (Default m) (Calls m ++ [r])). destruct (IH m1) as (m' & Hrun & Hcalls & Hr & Hd).
  exists m'. unfold mbind, M_bind. assert (MockRun None r m = (m1, Ok (mock m 0 r))) as ->.
  { unfold mock, MockRun. unfold mbind, M_bind, modify, gets; simpl. by destruct (0 <? _). }
  rewrite Hrun. rewrite Hcalls, Hr, Hd. simpl. rewrite <- app_assoc. by split_and!.
Qed.

(** ** Runs *)

Definition keys : MemDisk := mkMemDisk (list_to_map [(["root"], DDir); (["root"; "id"], DFile [])]) 0 [].
Definition run_with (e : Ending) (command : string) : SSHAnswer :=
  RemoteRun (inr "/root") (λ _, inr "key") (λ _, "") (λ _ _ _ _, Ran "" "" false e) keys (mkSSHRun "10.0.0.2" 0 "dvfs2" "~/id" command).
(** A command that only mentions a reboot counts as done when its connection breaks. *)
Example mentions_reboot :
  saExitCode (run_with (Exited 255) "git checkout fix-reboot && git pull") = 0
  ∧ saExitCode (run_with (Exited 255) "git pull") = 255
  ∧ saError (run_with (Broken "connection reset by peer" false) "git checkout fix-reboot && git pull") = None.
Proof. vm_compute. done. Qed.
Example keyless :
  saError (RemoteRun (inr "/root") (λ _, inr "key") (λ _, "ENOENT") (λ _ _ _ _, NoConnection "") keys (mkSSHRun "h" 22 "u" "~/none" "ls"))
  = Some "failed to read private key from '/root/none': ENOENT".
Proof. vm_compute. done. Qed.
