(* ===== verification/ClientMain.v ===== *)
(** * The client program and its calls on the metaserver

    [internal/client/msclient.go]: how the client chooses the name it expects in the
    certificate of the metaserver, and the two calls it makes.  The metaserver is a
    parameter that answers the calls by how many came before; what dialling and the
    certificates give are arguments.

    [cmd/client/main.go]: the loop that puts the client together: the address of the
    metaserver, the choice of a root, the way to its file server, the session and its
    cache, and the shell, until the user leaves.  What is typed and what dialling gives in
    each round are arguments.  The nodes of the cache of an earlier round are garbage and
    are dropped; the list of machines and the files of the user are on disks of their own. *)
From S2P Require Import Prelude GoStd Domain Disk Auth Discovery Client Cache Shell.
From S2P Require Session Handler CacheSpec CacheSafe ShellSpec.
#[global] Open Scope Z_scope.

(** ** The calls on the metaserver *)

Record SharedRoot := mkSharedRoot { srPath : string; srDisplayName : string; srOwner : string }.
Inductive MsCall : Type → Type :=
  | MsGetRoots (username : string) : MsCall (list SharedRoot)
  | MsNavigate (username rootUser : string) : MsCall string.
(** A connection: where to, the name in the certificate (none without TLS), the token of
    the [authorization] header and the call. *)
Inductive Dialled := mkDialled (addr : string) (tls : option string) (bearer : option string) {A : Type} (c : MsCall A).

(** The options of the client that matter here. *)
Record MsOptions := mkMsOptions { msInsecure : bool; msServerName : string; msHasResolver : bool }.
(** What certificates and dialling give. *)
Record MsNet := mkMsNet { certs : error + unit; dialling : error + unit }.

Record MsDesk (D : Type) := mkMsDesk { discovery : DiscoveryOn D; dialled : list Dialled }.
Arguments mkMsDesk {D} discovery dialled.
Arguments discovery {D} m.
Arguments dialled {D} m.

Section calls.
Context {D : Type} `{OS D, Json (list GistNode)}.
Context (ms : nat → ∀ A, MsCall A → Reply A) (net : MsNet).
(** The answer of the published list, and the clock. *)
Context (http_get : string → reply) (now later : Z).
Abbreviation W := (MsDesk D).

Definition on_discovery {A} (m : M (DiscoveryOn D) A) : M W A := λ w,
  let (d, r) := m (discovery w) in (mkMsDesk d (dialled w), r).
(** The name for the certificate: the one that was configured, or a name for the address,
    never an address itself. *)
Definition tls_host (o : MsOptions) (msAddr : string) : M W string :=
  if decide (msServerName o ≠ "") then mret (msServerName o)
  else
    host ← (if msHasResolver o then on_discovery (ResolveServerName http_get now later msAddr)
            else mret (match Session.SplitHostPort msAddr with Some (h, _) => h | None => msAddr end));
    mret (if is_ip host then (if Handler.is_loopback_ip host then "localhost" else "dvfs1") else host).
(** The call itself; [rejected] makes the error of a refusal. *)
Definition send_request {A} (c : Client) (msAddr : string) (rejected : string → error) (request : MsCall A) (tls : option string) : M W A :=
  match dialling net with
  | inl e => throw (Wrapf "failed to connect to meta server: %w" [] e)
  | inr _ =>
      k ← gets (λ w, length (dialled w));
      modify (λ w, mkMsDesk (discovery w)
        (dialled w ++ [mkDialled msAddr tls (if decide (authToken c = "") then None else Some (authToken c)) request])) ;;
      match ms k A request with
      | NoAnswer e => throw (Wrapf "Navigate RPC failed: %w" [] e)
      | Refused m => throw (rejected m)
      | Answered a => mret a
      end
  end.
(** The part the two calls share. *)
Definition call_metaserver {A} (o : MsOptions) (c : Client) (msAddr : string) (rejected : string → error) (request : MsCall A) : M W A :=
  tls ← (if msInsecure o then mret None
         else match certs net with
              | inl e => throw (Wrapf "failed to load Root CA: %w" [] e)
              | inr _ => host ← tls_host o msAddr; mret (Some host)
              end);
  send_request c msAddr rejected request tls.
Definition GetRoots (o : MsOptions) (c : Client) (msAddr : string) : M W (list SharedRoot) :=
  if decide (msAddr = "") then mret []
  else call_metaserver o c msAddr (λ m, Errorf "meta server rejected get roots: %s" [m]) (MsGetRoots (username c)).
Definition NavigateToFileServer (o : MsOptions) (c : Client) (msAddr : string) : M W string :=
  if decide (msAddr = "") then mret ""
  else call_metaserver o c msAddr (λ m, Errorf "meta server rejected navigation: %s" [m]) (MsNavigate (username c) (root_user c)).

(** ** How the token travels *)

Lemma resolve_never_panics addr d : ∀ why, (ResolveServerName http_get now later addr d).2 ≠ Panic why.
Proof.
  intros why. unfold ResolveServerName. set (host := Session.TrimSpace _). destruct (negb (is_ip host)); [done|].
  destruct (Handler.is_loopback_ip host); [done|].
  rewrite (bind_ok _ _ d d _ eq_refl). rewrite (bind_ok _ _ d d _ eq_refl).
  assert (∀ (h : string) (k : M (DiscoveryOn D) string), (∀ d', ∃ s, (k d').2 = Ok s) →
    ((fresh ← catch (FetchNodes http_get later); match fresh with inr _ => k | inl _ => mret h end) d).2 ≠ Panic why) as Hslow.
  { intros h k Hk. destruct (FetchNodes_run http_get later d) as (d1 & r1 & Hf & Hr).
    assert (∀ y, r1 ≠ Panic y) as Hno.
    { intros y ->. destruct (source http_get d); [|by destruct Hr as (_ & e & He)]. destruct Hr as [_ Hr]. case_match; [by destruct Hr|done]. }
    unfold mbind, M_bind, catch. rewrite Hf. destruct r1 as [t|e|y]; [by destruct (Hk d1) as [s ->]|done|by destruct (Hno y)]. }
  destruct (mapped _) as [h|], (stale now (resolver d)); [|done| |]; (eapply Hslow; intros d'; by eexists).
Qed.
Definition host_ok (o : MsOptions) (host : string) : Prop :=
  if decide (msServerName o ≠ "") then host = msServerName o else is_ip host = false.
Lemma tls_host_ok o msAddr w :
  match tls_host o msAddr w with
  | (w', Ok host) => dialled w' = dialled w ∧ host_ok o host
  | (w', Err _) => dialled w' = dialled w
  | (_, Panic _) => False
  end.
Proof.
  unfold tls_host, host_ok. case_decide as Hs; [done|].
  assert (∀ h, is_ip (if is_ip h then (if Handler.is_loopback_ip h then "localhost" else "dvfs1") else h) = false) as Hip.
  { intros h. destruct (is_ip h) eqn:Hh; [|done]. by destruct (Handler.is_loopback_ip h). }
  unfold mbind, M_bind. destruct (msHasResolver o); [|by split; [|apply Hip]].
  unfold on_discovery. pose proof (resolve_never_panics msAddr (discovery w)) as Hno.
  destruct (ResolveServerName _ _ _ _ (discovery w)) as [d [h|e|y]]; [by split; [|apply Hip]|done|by destruct (Hno y)].
Qed.

(** A call on the metaserver makes at most one connection, to the address it was given.
    With the token of the login it goes over TLS unless TLS was switched off, against the
    configured name or else a name that is not an address; and its outcome is the one the
    metaserver gives. *)
Definition protected (o : MsOptions) (c : Client) (msAddr : string) {A} (request : MsCall A) (x : Dialled) : Prop :=
  ∃ tls, x = mkDialled msAddr tls (if decide (authToken c = "") then None else Some (authToken c)) request
    ∧ match tls with None => msInsecure o = true | Some host => msInsecure o = false ∧ host_ok o host end.
Lemma call_metaserver_protected {A} o c msAddr rejected (request : MsCall A) w :
  match call_metaserver o c msAddr rejected request w with
  | (w', Ok a) => ∃ x, dialled w' = dialled w ++ [x] ∧ protected o c msAddr request x ∧ ms (length (dialled w)) A request = Answered a
  | (w', Err _) => dialled w' = dialled w
      ∨ ∃ x, dialled w' = dialled w ++ [x] ∧ protected o c msAddr request x ∧ ∀ a, ms (length (dialled w)) A request ≠ Answered a
  | (_, Panic _) => False
  end.
Proof.
  assert (∀ w1 tls, dialled w1 = dialled w → match tls with None => msInsecure o = true | Some host => msInsecure o = false ∧ host_ok o host end →
    match send_request c msAddr rejected request tls w1 with
    | (w', Ok a) => ∃ x, dialled w' = dialled w ++ [x] ∧ protected o c msAddr request x ∧ ms (length (dialled w)) A request = Answered a
    | (w', Err _) => dialled w' = dialled w
        ∨ ∃ x, dialled w' = dialled w ++ [x] ∧ protected o c msAddr request x ∧ ∀ a, ms (length (dialled w)) A request ≠ Answered a
    | (_, Panic _) => False
    end) as Hcall.
  { intros w1 tls Hd Htls. unfold send_request. destruct (dialling net) as [e|[]]; [by left|]. unfold mbind, M_bind, gets, modify. simpl. rewrite Hd.
    destruct (ms (length (dialled w)) A request) as [e|m|a] eqn:Hms; simpl; [right|right|];
      (eexists; split; [done|]; split; [by exists tls|]); done. }
  unfold call_metaserver. destruct (msInsecure o) eqn:Hi; [by apply (Hcall w None)|].
  destruct (certs net) as [e|[]]; [by left|]. pose proof (tls_host_ok o msAddr w) as Ht. unfold mbind at 1, M_bind at 1. unfold mbind at 1, M_bind at 1.
  destruct (tls_host o msAddr w) as [w1 [host|e|y]]; [|by left|done]. destruct Ht as [Hd Hh]. by apply (Hcall w1 (Some host)).
Qed.

(** Without an address nothing is dialled and there are no roots; otherwise both calls are
    made as [protected] says, and return what the metaserver answered or an error. *)
Theorem metaserver_calls_protected o c msAddr w :
  (msAddr = "" → GetRoots o c msAddr w = (w, Ok []) ∧ NavigateToFileServer o c msAddr w = (w, Ok ""))
  ∧ (msAddr ≠ "" →
     (∀ w' r, GetRoots o c msAddr w = (w', r) → ∃ l, dialled w' = dialled w ++ l
       ∧ Forall (protected o c msAddr (MsGetRoots (username c))) l ∧ (length l ≤ 1)%nat
       ∧ match r with Ok roots => l ≠ [] ∧ ms (length (dialled w)) _ (MsGetRoots (username c)) = Answered roots | Err _ => True | Panic _ => False end)
     ∧ ∀ w' r, NavigateToFileServer o c msAddr w = (w', r) → ∃ l, dialled w' = dialled w ++ l
       ∧ Forall (protected o c msAddr (MsNavigate (username c) (root_user c))) l ∧ (length l ≤ 1)%nat
       ∧ match r with Ok addr => l ≠ [] ∧ ms (length (dialled w)) _ (MsNavigate (username c) (root_user c)) = Answered addr | Err _ => True | Panic _ => False end).
Proof.
  split; [intros ->; unfold GetRoots, NavigateToFileServer; by rewrite !decide_True|]. intros Hne.
  unfold GetRoots, NavigateToFileServer. rewrite !decide_False by done. split; intros w' r Hr.
  1: pose proof (call_metaserver_protected o c msAddr (λ m, Errorf "meta server rejected get roots: %s" [m]) (MsGetRoots (username c)) w) as Hp.
  2: pose proof (call_metaserver_protected o c msAddr (λ m, Errorf "meta server rejected navigation: %s" [m]) (MsNavigate (username c) (root_user c)) w) as Hp.
  all: rewrite Hr in Hp; destruct r as [a|e|y]; [|destruct Hp as [Hp|Hp]|done].
  all: try (exists []; rewrite app_nil_r; split_and!; [done|constructor|simpl; lia|done]).
  all: destruct Hp as (x & Hd & Hx & Hms); exists [x]; split_and!; try done; by apply Forall_singleton.
Qed.
End calls.

(** ** Flags *)

(** What the command line says; an address may be given or left to its default. *)
Record Options := mkOptions { opMeta : bool; opPort : string; opAddr : option string; opGist : bool }.
Definition port_of (o : Options) : string :=
  if decide (opPort o = "") then (if opMeta o then "50051" else "50052") else opPort o.
Definition address_of (o : Options) : string := default "127.0.0.1" (opAddr o).

Record ClientSite (D : Type) := mkClientSite { msdesk : MsDesk D; shell : ShellOn D }.
Arguments mkClientSite {D} msdesk shell.
Arguments msdesk {D} c.
Arguments shell {D} c.

(** What a round of the loop meets: what [Scanln] reads, [None] where it fails; what the
    callback server, the dialled server and the terminal give; and what happens at the
    prompt. *)
Record Round := mkRound {
  rdReads : list (option Z);
  rdListen : error + string;
  rdDial : string → error + unit;
  rdTerminal : error + unit;
  rdEvents : list Event;
}.
Inductive Choice := Picked (r : SharedRoot) | Quit | Asking.
(** How a round ends: [log.Fatalf], by leaving, with the process, or waiting for input. *)
Inductive Outcome := Fatal (what : string) (e : error) | Bye | Gone | Again | Pending.
Definition none : error := Errorf "" [].

Section main.
Context {D : Type} `{LocalFS D, Json (list GistNode)} `{Cobra}.
Context (rpc : nat → ∀ A, Call A → Client.Reply A) (uuid : nat → string) (range : gmap string positive → list (string * positive)).
Context (local_depth : string → Desk D → nat) (remote_depth : nat).
Context (ms : nat → ∀ A, MsCall A → Client.Reply A) (net : MsNet) (http_get : string → Auth.reply) (now later : Z) (mo : MsOptions).
Abbreviation W := (ClientSite D).

Definition on_shell {A} (m : M (ShellOn D) A) : M W A := λ w, let (s, r) := m (shell w) in (mkClientSite (msdesk w) s, r).
Definition on_ms {A} (m : M (MsDesk D) A) : M W A := λ w, let (s, r) := m (msdesk w) in (mkClientSite s (shell w), r).
Definition on_client (f : Client → Client) : M W unit := on_shell (on_desk (Client.on_client f)).
Definition client : M W Client := gets (λ w, vfs (desk (shell w))).
Definition say (s : string) : M W unit := on_shell (Shell.say s).

(** The metaserver may be found in the published list. *)
Definition find_address (o : Options) : M W string :=
  if opGist o then
    nodes ← catch (on_ms (on_discovery (FetchNodes http_get later)));
    let t := match nodes with inr m => m | inl _ => ∅ end in
    mret (if decide (opAddr o = None ∧ opMeta o = true) then
            match t !! "dvfs1" with Some ip => if decide (ip = "") then address_of o else ip | None => address_of o end
          else address_of o)
  else mret (address_of o).

Definition root_row (user : string) (i : nat) (r : SharedRoot) : string :=
  "  " +:+ pad_right 3 (pretty (Z.of_nat i)) +:+ " " +:+ pad_right 15 (srDisplayName r) +:+ " "
    +:+ pad_right 10 (if decide (srOwner r = user) then "you" else srOwner r).
Fixpoint rows (user : string) (i : nat) (roots : list SharedRoot) : M W unit :=
  match roots with [] => mret tt | r :: roots => say (root_row user i r) ;; rows user (S i) roots end.
Definition show_roots (user : string) (roots : list SharedRoot) : M W unit :=
  say "Available roots:" ;; say "────────────────────────────────" ;;
  say ("  " +:+ pad_right 3 "#" +:+ " " +:+ pad_right 15 "ROOT" +:+ " " +:+ pad_right 10 "OWNER") ;;
  say "  --------------------------------" ;; rows user 1 roots ;; say "  0   Exit".
Fixpoint choose (roots : list SharedRoot) (reads : list (option Z)) : M W Choice :=
  match reads with
  | [] => mret Asking
  | read :: reads =>
      say ("Select root [1-" +:+ pretty (Z.of_nat (length roots)) +:+ "] or 0 to exit: ") ;;
      match read with
      | None => say "Invalid input. Enter a number." ;; choose roots reads
      | Some choice =>
          if choice =? 0 then say "Goodbye!" ;; mret Quit
          else match (if 1 <=? choice then roots !! Z.to_nat (choice - 1) else None) with
               | Some r => mret (Picked r)
               | None => say "Invalid selection. Try again." ;; choose roots reads
               end
      end
  end.

(** The session and the shell, at an address. *)
Definition session (rd : Round) (serverAddress : string) : M W Outcome :=
  c ← client;
  say ("Connecting to server at " +:+ serverAddress +:+ " as user " +:+ username c +:+ "...") ;;
  fid ← catch (on_shell (on_desk (Client.Connect rpc (rdListen rd) (rdDial rd serverAddress))));
  match fid with
  | inl e => mret (Fatal "Failed to connect" e)
  | inr fid =>
      t ← on_shell (fid_text fid);
      say ("Connected successfully! Root FID: " +:+ t) ;; say "Connected successfully!" ;;
      on_shell (on_desk (modify (λ d, mkDesk (vfs d) (calls d) (cdisk d) ∅ (cache d) (notes d) (uuids d)))) ;;
      on_shell (on_desk (NewCacheHandler rpc fid)) ;;
      h ← gets (λ w, cache (desk (shell w)));
      match h with
      | None => mret (Fatal "Failed to initialize cache handler" none)
      | Some _ =>
          on_shell (VisualizeCache range "") ;;
          ended ← on_shell (Shell.Start rpc uuid range local_depth remote_depth (rdTerminal rd) (rdEvents rd));
          match ended with
          | ToMetaserver =>
              say "Returning to metaserver root selection..." ;; on_shell (on_desk (Client.Disconnect rpc)) ;; mret Again
          | Left => say "Goodbye!" ;; on_shell (on_desk (Client.Disconnect rpc)) ;; mret Bye
          | Exited => mret Gone
          | Waiting => mret Pending
          end
      end
  end.
Definition round (o : Options) (ip : string) (rd : Round) : M W Outcome :=
  let addr := ip +:+ ":" +:+ port_of o in
  if opMeta o then
    c ← client;
    roots ← catch (on_ms (GetRoots ms net http_get now later mo c addr));
    match roots with
    | inl e => mret (Fatal "Failed to get roots" e)
    | inr [] => mret (Fatal "No roots available" none)
    | inr roots =>
        show_roots (username c) roots ;;
        pick ← choose roots (rdReads rd);
        match pick with
        | Asking => mret Pending
        | Quit => on_shell (on_desk (Client.Disconnect rpc)) ;; mret Bye
        | Picked r =>
            on_client (SetRootPath (srDisplayName r) (srPath r)) ;;
            on_client (SetRootUser (if decide (srOwner r = "mydrive") then username c else srOwner r)) ;;
            c ← client;
            target ← catch (on_ms (NavigateToFileServer ms net http_get now later mo c addr));
            match target with
            | inl e => mret (Fatal "Failed to navigate to file server" e)
            | inr serverAddress => session rd serverAddress
            end
        end
    end
  else session rd addr.
Fixpoint rounds (o : Options) (ip : string) (rds : list Round) : M W Outcome :=
  match rds with
  | [] => mret Again
  | rd :: rds => out ← round o ip rd; match out with Again => rounds o ip rds | _ => mret out end
  end.
(** [authed] is what the login gives. *)
Definition main (o : Options) (authed : error + (string * string)) (stamp : string) (rds : list Round) : M W Outcome :=
  ip ← find_address o;
  match authed with
  | inl e => mret (Fatal "[AUTH] Authentication failed" e)
  | inr (user, token) => on_client (λ _, NewClient user token stamp) ;; rounds o ip rds
  end.
End main.

(** ** The program is sound for any number of rounds *)

Section sound.
Context {D : Type} `{LocalFS D, Json (list GistNode)} `{CobraLaws}.
Context (rpc : nat → ∀ A, Call A → Client.Reply A) (Hgives : CacheSpec.gives_fids rpc).
Context (Hroot : ∀ k id cb user root path t, rpc k _ (RegisterClient id cb user root path) ≠ Answered (None, t)).
Context (uuid : nat → string) (range : gmap string positive → list (string * positive)) (Hrange : ∀ m, range m ≡ₚ map_to_list m).
Context (local_depth : string → Desk D → nat) (remote_depth : nat).
Context (ms : nat → ∀ A, MsCall A → Client.Reply A) (net : MsNet) (http_get : string → Auth.reply) (now later : Z) (mo : MsOptions).
Abbreviation W := (ClientSite D).
Abbreviation the_desk w := (desk (shell w)).

(** A part of the program that does not fail, and panics only as a command may. *)
Definition goes {A} (m : M W A) (Q : A → W → Prop) (w : W) : Prop :=
  match m w with
  | (w', Ok a) => Q a w'
  | (_, Err _) => False
  | (w', Panic why) => CacheSpec.desk_wf (the_desk w') ∧ ShellSpec.excused why (the_desk w')
  end.
Lemma goes_bind {A B} (m : M W A) (k : A → M W B) Q R w :
  goes m Q w → (∀ a w', Q a w' → goes (k a) R w') → goes (m ≫= k) R w.
Proof. unfold goes, mbind, M_bind. destruct (m w) as [w1 [a|e|y]]; [|done|done]. intros Hq Hk. by apply Hk. Qed.
Lemma goes_mono {A} (m : M W A) (Q R : A → W → Prop) w : goes m Q w → (∀ a w', Q a w' → R a w') → goes m R w.
Proof. unfold goes. destruct (m w) as [w1 [a|e|y]]; naive_solver. Qed.
Lemma goes_say s w : goes (say s) (λ _ w', the_desk w' = the_desk w) w.
Proof. done. Qed.
Lemma goes_rows user i roots w : goes (rows user i roots) (λ _ w', the_desk w' = the_desk w) w.
Proof.
  revert i w. induction roots as [|r roots IH]; intros i w; [done|]. eapply goes_bind; [apply goes_say|].
  intros [] w1 Hd1. eapply goes_mono; [apply IH|]. intros a w2 ?. congruence.
Qed.
Lemma goes_show_roots user roots w : goes (show_roots user roots) (λ _ w', the_desk w' = the_desk w) w.
Proof.
  unfold show_roots. do 4 (eapply goes_bind; [apply goes_say|]; intros [] ? ?). eapply goes_bind; [apply goes_rows|].
  intros [] w6 ?. eapply goes_mono; [apply goes_say|]. intros [] w7 ?. simpl in *. congruence.
Qed.
Lemma goes_choose roots reads w : goes (choose roots reads) (λ _ w', the_desk w' = the_desk w) w.
Proof.
  revert w. induction reads as [|read reads IH]; intros w; [done|]. eapply goes_bind; [apply goes_say|]. intros [] w1 Hd1.
  destruct read as [c|].
  - destruct (c =? 0); [eapply goes_bind; [apply goes_say|]; intros [] w2 Hd2; simpl; congruence|].
    destruct (if 1 <=? c then _ else _); [done|]. eapply goes_bind; [apply goes_say|]. intros [] w2 Hd2.
    eapply goes_mono; [apply IH|]. intros a w3 ?. congruence.
  - eapply goes_bind; [apply goes_say|]. intros [] w2 Hd2. eapply goes_mono; [apply IH|]. intros a w3 ?. congruence.
Qed.
(** A call on the metaserver whose error is looked at. *)
Lemma goes_ms {A} (m : M (MsDesk D) A) w : (∀ why, (m (msdesk w)).2 ≠ Panic why) →
  goes (catch (on_ms m)) (λ _ w', the_desk w' = the_desk w) w.
Proof.
  intros Hm. unfold goes, catch, on_ms. specialize (Hm). destruct (m (msdesk w)) as [d [a|e|y]]; [done|done|by destruct (Hm y)].
Qed.

(** ** A session *)

Lemma roots_no_panic c addr d : ∀ why, (GetRoots ms net http_get now later mo c addr d).2 ≠ Panic why.
Proof.
  intros why. unfold GetRoots. destruct (decide (addr = "")); [done|].
  pose proof (call_metaserver_protected ms net http_get now later mo c addr (λ m, Errorf "meta server rejected get roots: %s" [m]) (MsGetRoots (username c)) d) as Hp.
  by destruct (call_metaserver _ _ _ _ _ _ _ _ _ _ d) as [d' [a|e|y]].
Qed.
Lemma navigate_no_panic c addr d : ∀ why, (NavigateToFileServer ms net http_get now later mo c addr d).2 ≠ Panic why.
Proof.
  intros why. unfold NavigateToFileServer. destruct (decide (addr = "")); [done|].
  pose proof (call_metaserver_protected ms net http_get now later mo c addr (λ m, Errorf "meta server rejected navigation: %s" [m]) (MsNavigate (username c) (root_user c)) d) as Hp.
  by destruct (call_metaserver _ _ _ _ _ _ _ _ _ _ d) as [d' [a|e|y]].
Qed.
Lemma connect_links listen dial (d : Desk D) :
  match Client.Connect rpc listen dial d with
  | (d', Ok fid) => is_Some fid ∧ CacheSpec.linked d'
  | (_, Err _) => True
  | (_, Panic _) => False
  end.
Proof.
  unfold Client.Connect, register, me, Client.on_client, invoke, mbind, M_bind, gets, modify. simpl.
  assert (∀ (k : M (Desk D) (option FID)), (∀ d', match k d' with (d', Ok fid) => is_Some fid ∧ CacheSpec.linked d' | (_, Err _) => True | (_, Panic _) => False end) →
    match (let (s', r) := (if listening (vfs d) then mret tt else match listen with inl e => throw (Wrapf "failed to start callback server: %w" [] e)
       | inr a => Client.on_client (set_link a (connected (vfs d)) (interceptors (vfs d)) true) end) d in
       match r with Ok _ => k s' | Err e => (s', Err e) | Panic why => (s', Panic why) end) with
    | (d', Ok fid) => is_Some fid ∧ CacheSpec.linked d' | (_, Err _) => True | (_, Panic _) => False end) as Hk.
  { intros k Hk. destruct (listening (vfs d)); [apply Hk|]. destruct listen; [done|]. simpl. apply Hk. }
  apply Hk. clear Hk d. intros d. destruct dial; [done|]. simpl.
  destruct (rpc _ _ _) as [e|m|[root token]] eqn:Hr; [done|done|]. destruct root as [f|]; [|by destruct (Hroot _ _ _ _ _ _ _ Hr)].
  by case_decide.
Qed.
Lemma ends_place p old files acc : ShellSpec.ends (S := Desk D) (place p old files acc).
Proof.
  revert acc. induction files as [|f files IH]; intros acc; [done|]. simpl.
  destruct (old ≫= (.!! fiName f)); (apply ShellSpec.ends_bind; [|intros q; apply IH]).
  - by intros d.
  - by intros d.
Qed.
Lemma new_cache_ends fid (d : Desk D) : CacheSpec.linked d → is_ok (NewCacheHandler rpc fid d).2 = true.
Proof.
  intros Hl. unfold NewCacheHandler, catch, mbind, M_bind.
  pose proof (CacheSpec.aside_ListFiles rpc Hgives d Hl) as Ha. unfold CacheSpec.aside in Ha.
  destruct (Client.ListFiles rpc d) as [d1 [files|e|y]]; [|done|done].
  unfold new_node, gets. simpl. set (d2 := mkDesk _ _ _ _ _ _ _). set (p := fresh _).
  pose proof (ends_place p None files ∅ d2) as He. destruct (place p None files ∅ d2) as [d3 [m|e|y]]; done.
Qed.

(** What an operation on the desk, or on the shell, gives for the whole program. *)
Lemma goes_desk {A} (m : M (Desk D) A) (Q : A → Desk D → Prop) w :
  match m (the_desk w) with (d, Ok a) => Q a d | _ => False end → goes (on_shell (on_desk m)) (λ a w', Q a (the_desk w')) w.
Proof. unfold goes, on_shell, on_desk. by destruct (m (the_desk w)) as [d [a|e|y]]. Qed.
Lemma goes_ends {A} (m : M (Desk D) A) w : ShellSpec.ends m → goes (on_shell (on_desk m)) (λ _ _, True) w.
Proof.
  intros He. eapply goes_mono; [apply (goes_desk m (λ _ _, True))|done]. specialize (He (the_desk w)). by destruct (m _) as [d [a|e|y]].
Qed.
(** Calls without an error result. *)
Definition noerr {S A} (m : M S A) : Prop := ∀ s e, (m s).2 ≠ Err e.
Lemma noerr_bind {S A B} (m : M S A) (k : A → M S B) : noerr m → (∀ a, noerr (k a)) → noerr (m ≫= k).
Proof. intros Hm Hk s e. unfold mbind, M_bind. specialize (Hm s e). destruct (m s) as [s1 [a|e1|y]]; [apply Hk|simpl in *; congruence|done]. Qed.
Lemma noerr_catch {S A} (m : M S A) : noerr (catch m).
Proof. intros s e. unfold catch. by destruct (m s) as [s1 [a|e1|y]]. Qed.
Lemma noerr_on_desk {A} (m : M (Desk D) A) : noerr m → noerr (on_desk m).
Proof. intros Hm s e. unfold on_desk. specialize (Hm (desk s) e). by destruct (m (desk s)) as [d r]. Qed.
Lemma noerr_node_at (p : positive) : noerr (S := Desk D) (node_at p).
Proof. intros d e. unfold node_at. by destruct (cnodes d !! p). Qed.
Lemma noerr_find fuel fid p path : noerr (S := Desk D) (findNodeByFID range fuel fid p path).
Proof.
  revert p path. induction fuel as [|fuel IH]; intros p path; [done|]. simpl. apply noerr_bind; [apply noerr_node_at|]. intros n.
  case_bool_decide; [done|]. generalize (range (default ∅ (cnChildren n))). intros l. induction l as [|[s q] l IHl]; [done|]. simpl.
  apply noerr_bind; [apply noerr_node_at|]. intros c. apply noerr_bind; [apply IH|]. by intros [x|].
Qed.
Lemma noerr_Invalidate fid event : noerr (S := Desk D) (Cache.Invalidate range fid event).
Proof.
  unfold Cache.Invalidate. destruct (FIDFromProto fid) as [f|]; [|done]. apply noerr_bind; [|by intros found d e].
  unfold InvalidateFileByFID. apply noerr_bind; [done|]. intros [h|]; [|done]. apply noerr_bind; [apply noerr_node_at|]. intros root.
  apply noerr_bind; [done|]. intros fuel. apply noerr_bind; [apply noerr_find|]. intros [[p path]|]; [|done].
  apply noerr_bind; [apply noerr_node_at|]. intros n. apply noerr_bind; [|done]. case_decide; [|done].
  apply noerr_bind; [|done]. case_match; [|done]. apply noerr_bind; [|done]. intros d e. unfold on_disk. by destruct (os_Remove _ _).
Qed.
Lemma noerr_loop events : noerr (loop rpc uuid range local_depth remote_depth events).
Proof.
  induction events as [|ev events IH]; [done|]. destruct ev as [s|[|a typed]| |e|fid event]; simpl; try done.
  - case_decide; [done|]. apply noerr_bind; [apply noerr_catch|]. intros [e|[]]; [|done|done]. case_decide; [done|]. by apply noerr_bind.
  - by apply noerr_bind.
  - apply noerr_bind; [by apply noerr_on_desk, noerr_Invalidate|done].
Qed.
Lemma noerr_for_each {S A} (f : A → M S unit) (l : list A) : (∀ x, noerr (f x)) → noerr (for_each l f).
Proof. intros Hf. induction l as [|x l IH]; [done|]. simpl. by apply noerr_bind. Qed.
Lemma noerr_Visualize indent : noerr (S := ShellOn D) (VisualizeCache range indent).
Proof.
  assert (∀ fuel p indent, noerr (S := ShellOn D) (visualizeCacheHelper range fuel p indent)) as Hv.
  { clear indent. intros fuel. induction fuel as [|fuel IH]; intros p indent; [done|]. simpl.
    apply noerr_bind; [by apply noerr_on_desk, noerr_node_at|]. intros n. apply noerr_bind; [done|]. intros _. by apply noerr_for_each. }
  unfold VisualizeCache. apply noerr_bind.
  { apply noerr_on_desk. unfold handler. apply noerr_bind; [done|]. by intros [h|]. }
  intros h. apply noerr_bind; [done|]. intros n. apply noerr_bind; [done|]. intros _. apply noerr_bind; [apply Hv|done].
Qed.
Lemma goes_Visualize w : CacheSpec.desk_wf (the_desk w) →
  goes (on_shell (VisualizeCache range "")) (λ _ w', CacheSpec.desk_wf (the_desk w')) w.
Proof.
  intros Hw. pose proof (ShellSpec.fine_VisualizeCache uuid range Hrange local_depth remote_depth "" (shell w) Hw) as Hv.
  pose proof (noerr_Visualize "" (shell w)) as Hn. unfold ShellSpec.fine in Hv. unfold goes, on_shell.
  destruct (VisualizeCache range "" (shell w)) as [s [[]|e|y]]; [by destruct Hv|by destruct (Hn e)|done].
Qed.
Lemma goes_Start rd w : CacheSpec.desk_wf (the_desk w) →
  goes (on_shell (Shell.Start rpc uuid range local_depth remote_depth (rdTerminal rd) (rdEvents rd))) (λ _ _, True) w.
Proof.
  intros Hw. unfold goes, on_shell, Shell.Start. destruct (rdTerminal rd) as [e|[]]; [done|].
  unfold Shell.say, show, mbind, M_bind, modify. simpl. set (s := mkShell _ _ _).
  pose proof (ShellSpec.between_loop rpc Hgives uuid range Hrange local_depth remote_depth (rdEvents rd) s Hw) as Hb.
  unfold ShellSpec.between in Hb. pose proof (noerr_loop (rdEvents rd) s) as Hn.
  destruct (loop _ _ _ _ _ _ s) as [s' [r|e|y]]; [done|by destruct (Hn e)|done].
Qed.
Lemma goes_session rd addr w :
  goes (session rpc uuid range local_depth remote_depth rd addr) (λ _ _, True) w.
Proof.
  unfold session. eapply (goes_bind _ _ (λ _ _, True)); [done|]. intros c wc _.
  eapply goes_bind; [apply goes_say|]. clear w. intros [] w _.
  eapply (goes_bind _ _ (λ (r : error + option FID) w', match r with inr fid => is_Some fid ∧ CacheSpec.linked (the_desk w') | inl _ => True end)).
  { unfold goes, catch, on_shell, on_desk. pose proof (connect_links (rdListen rd) (rdDial rd addr) (the_desk w)) as Hc.
    by destruct (Client.Connect _ _ _ (the_desk w)) as [d [fid|e|y]]. }
  intros [e|fid] w1 Hw1; [done|]. destruct Hw1 as [[f ->] Hl].
  eapply (goes_bind _ _ (λ _ w', the_desk w' = the_desk w1)); [done|]. intros t w2 E2.
  eapply goes_bind; [apply goes_say|]. intros [] w3 E3. eapply goes_bind; [apply goes_say|]. intros [] w4 E4.
  eapply (goes_bind _ _ (λ _ w', CacheSpec.linked (the_desk w') ∧ cnodes (the_desk w') = ∅)).
  { assert (the_desk w4 = the_desk w1) as E by congruence. destruct Hl as (Hc & Hr & Hu). unfold goes, CacheSpec.linked. simpl. by rewrite E. }
  intros [] w5 [Hl5 He5].
  eapply goes_bind.
  { apply (goes_desk _ (λ _ d, cache d = None ∨ CacheSpec.desk_wf d)).
    pose proof (CacheSafe.NewCacheHandler_wf rpc Hgives (Some f) (the_desk w5) Hl5 He5 ltac:(done)) as Hn.
    pose proof (new_cache_ends (Some f) (the_desk w5) Hl5) as Hok.
    by destruct (NewCacheHandler _ _ (the_desk w5)) as [d [[]|e|y]]. }
  intros [] w6 Hn. eapply (goes_bind _ _ (λ o w', the_desk w' = the_desk w6 ∧ o = cache (the_desk w6))); [done|].
  intros [h|] w7 [E7 Eo]; [|done]. destruct Hn as [Hnone|Hwf]; [congruence|].
  eapply goes_bind; [apply goes_Visualize; by rewrite E7|]. intros [] w8 Hw8.
  eapply goes_bind; [by apply goes_Start|]. intros ended w9 _. destruct ended; [| |done|done];
    (eapply goes_bind; [apply goes_say|]; intros [] w10 _; eapply goes_bind; [apply goes_ends, ShellSpec.ends_Disconnect|done]).
Qed.
Lemma goes_round o ip rd w :
  goes (round rpc uuid range local_depth remote_depth ms net http_get now later mo o ip rd) (λ _ _, True) w.
Proof.
  unfold round. destruct (opMeta o); [|apply goes_session]. eapply (goes_bind _ _ (λ _ _, True)); [done|]. intros c w1 _.
  eapply goes_bind; [apply goes_ms, roots_no_panic|]. intros [e|[|r roots]] w2 _; [done|done|].
  eapply goes_bind; [apply goes_show_roots|]. intros [] w3 _. eapply goes_bind; [apply goes_choose|]. intros [p| |] w4 _; [| |done].
  - eapply (goes_bind _ _ (λ _ _, True)); [done|]. intros [] w5 _. eapply (goes_bind _ _ (λ _ _, True)); [done|]. intros [] w6 _.
    eapply (goes_bind _ _ (λ _ _, True)); [done|]. intros c' w7 _.
    eapply goes_bind; [apply goes_ms, navigate_no_panic|]. intros [e|addr] w8 _; [done|apply goes_session].
  - eapply goes_bind; [apply goes_ends, ShellSpec.ends_Disconnect|done].
Qed.
(** For any number of rounds, whatever is typed, whatever servers, network and terminal
    give: the program reports its failures and never returns an error, and it panics only
    as a command at the prompt may (ShellSpec.v), provided that the file server names a
    root with every registration it accepts. *)
Theorem client_runs o ip rds w :
  match rounds rpc uuid range local_depth remote_depth ms net http_get now later mo o ip rds w with
  | (_, Ok _) => True
  | (_, Err _) => False
  | (w', Panic why) => CacheSpec.desk_wf (the_desk w') ∧ ShellSpec.excused why (the_desk w')
  end.
Proof.
  change (goes (rounds rpc uuid range local_depth remote_depth ms net http_get now later mo o ip rds) (λ _ _, True) w).
  revert w. induction rds as [|rd rds IH]; intros w; [done|]. simpl. eapply goes_bind; [apply goes_round|].
  intros [] w1 _; [done|done|done|apply IH|done].
Qed.
End sound.

(** ** Two ways to get lost *)

Section lost.
Context {D : Type} `{LocalFS D} `{Cobra}.
Abbreviation W := (ClientSite D).
(** At the end of the input [Scanln] fails at once and for good, and the choice of a root
    asks again every time. *)
Theorem choice_asks_for_ever roots n (w : W) :
  ∃ w', choose roots (replicate n None) w = (w', Ok Asking)
    ∧ length (screen (shell w')) = (length (screen (shell w)) + 2 * n)%nat.
Proof.
  revert w. induction n as [|n IH]; intros w; simpl; [exists w; split; [done|lia]|].
  unfold mbind, M_bind, say, on_shell, Shell.say, show, modify. simpl. set (w1 := mkClientSite _ _).
  destruct (IH w1) as (w' & -> & Hlen). exists w'. split; [done|]. rewrite Hlen. subst w1; simpl. rewrite !length_app. simpl. lia.
Qed.
Section rootless.
Context (rpc : nat → ∀ A, Call A → Client.Reply A) (token : string)
  (Hreg : ∀ k id cb user root path, rpc k _ (RegisterClient id cb user root path) = Answered (None, token)).
Lemma connect_rootless a (d : Desk D) : ∃ d', Client.Connect rpc (inr a) (inr tt) d = (d', Ok None).
Proof.
  assert (∀ d : Desk D, connected (vfs d) = true → ∃ d', register rpc d = (d', Ok (Answered (None, token)))) as Hr.
  { intros d' Hc. unfold register, me, invoke, mbind, M_bind, gets. simpl. rewrite Hc, Hreg. by eexists. }
  assert (∀ d1 : Desk D, connected (vfs d1) = true → ∃ d', (r ← register rpc; match r with
      | NoAnswer e => throw (Wrapf "failed to register: %w" [] e) | Refused m => throw (Errorf "registration failed: %s" [m])
      | Answered (root, token) => (if decide (token ≠ "") then Client.on_client (set_session token) else mret tt) ;;
          Client.on_client (set_fids (FIDFromProto root) (FIDFromProto root)) ;; mret (FIDFromProto root) end) d1 = (d', Ok None)) as Hrest.
  { intros d1 Hc. destruct (Hr d1 Hc) as [d2 Hd2]. rewrite (bind_ok _ _ _ _ _ Hd2).
    destruct (decide (token ≠ "")); by eexists. }
  unfold Client.Connect. erewrite bind_ok by reflexivity. change (id (vfs d)) with (vfs d).
  destruct (listening (vfs d)); (erewrite bind_ok by reflexivity; erewrite bind_ok by reflexivity; by apply Hrest).
Qed.
(** A registration that is accepted without a root ends the program. *)
Theorem rootless_registration_panics uuid range local_depth remote_depth rd addr a (w : W) :
  rdListen rd = inr a → rdDial rd addr = inr tt →
  ∃ w', session rpc uuid range local_depth remote_depth rd addr w = (w', Panic "nil pointer dereference").
Proof.
  intros Hl Hd. unfold session. rewrite Hl, Hd. destruct (connect_rootless a (desk (shell w))) as [d' Hc].
  erewrite bind_ok by reflexivity. erewrite bind_ok by reflexivity.
  unfold mbind at 1, M_bind at 1, catch, on_shell, on_desk. simpl. rewrite Hc. by eexists.
Qed.
End rootless.
End lost.
